(* ===== verification/_CoqProject ===== *)
-Q . S2P
Prelude.v
Bytes.v
Kp2.v
Kp2Http.v
Device.v
KixTypes.v
Layout.v
Arena.v
ArenaCodec.v
ArenaLog.v
ArenaInv.v
ArenaOps.v
ArenaOpen.v
ArenaCrash.v
ArenaExamples.v
ChunkMedia.v
ChunkMediaGeo.v
ChunkMediaIO.v
ChunkMediaState.v
ChunkMediaRebuild.v
ChunkMediaExamples.v
WorkQueue.v
Engine.v
EngineProps.v
EngineExamples.v
Kst.v
KstPack.v
KstIndex.v
KstInv.v
KstOps.v
KstPackProps.v
KstBoot.v
KstWire.v
KstExamples.v
Fdb.v
KmsKeys.v
KmsValues.v
KmsStore.v
KmsViews.v
KmsEffects.v
Sorts.v
KmsReap.v
KmsInv.v
KmsKeep.v
KmsAlloc.v
KmsSystem.v
KmsSteps.v
KmsProtocol.v
KmsSafety.v
KmsScan.v
KmsReaper.v
KmsFences.v
KmsBatch.v
KmsObjects.v
KmsConcrete.v
KmsExamples.v
Placement.v
PlacementProps.v
Gf256.v
Kee.v
KeeLaws.v
KeeMatrix.v
KeeProps.v
KeeIsaL.v
KeeRestore.v
KeeCode.v
KeeExamples.v
Kas.v
KasPlan.v
KasReserve.v
KasOps.v
KasStore.v
KasService.v
KasTables.v
KasPersist.v
KasLocked.v
KasLease.v
KasCluster.v
KasProps.v
KasExamples.v
