(* ===== verification/Prelude.v ===== *)
(** KeInFS: a verification of the storage path.

    KeInFS stores objects as erasure-coded fragments. The client (poc/ksc, coding by
    poc/kee, placement by poc/keinctl/src/placement.rs) cuts an object into stripes and
    sends each fragment to a storage target (poc/kst) in packed KP2 messages (poc/kp2). A
    target keeps fragments in slots of its chunk media and finds them through the KIX index
    (poc/kix), which logs every change to an arena on the drive. The metadata service
    (poc/kms) decides in FoundationDB which versions exist and which granules may be freed.
    The allocator (poc/kas) keeps the free granules of the targets and hands out reservations.

    * Files

    Shared: [Prelude] (results, a state-and-error monad, machine widths, tactics), [Bytes]
    (encodings, slices, UTF-8, decimal text), [Device] (a drive or file as bytes, with the
    images a power loss can leave), [Fdb] (an ordered store with serializable transactions).

    - KP2 (poc/kp2/src/lib.rs): [Kp2] has the packed messages and [Kp2Http] their headers.
    - KIX: [KixTypes] (types.rs), [Layout] (layout.rs), [Arena] (arena.rs) with its codecs
      ([ArenaCodec]), recovery scan ([ArenaLog]), invariant ([ArenaInv]), operations
      ([ArenaOps], [ArenaOpen]) and power loss ([ArenaCrash]); [ChunkMedia]
      (chunk_media.rs) with [ChunkMediaGeo], [ChunkMediaIO], [ChunkMediaState] and
      [ChunkMediaRebuild]; [Engine] (engine.rs, engine/runtime.rs) with [EngineProps];
      [WorkQueue] (the queues of engine/runtime.rs as interleaved steps).
    - Storage target (poc/kst/src/service.rs): [Kst] and [KstPack] are the handlers,
      [KstIndex] is the interface they use of the index and its proof for the engine,
      [KstInv], [KstOps], [KstPackProps], [KstBoot] and [KstWire] the properties.
    - Metadata service (poc/kms): [KmsKeys] (fdb_schema.rs and keinctl's
      committed_occupancy.rs), [KmsValues] (row values, names and paths of store.rs),
      [KmsStore] (one definition per transaction of fdb_hot_store.rs), [KmsViews],
      [KmsEffects] and [KmsReap] (what each transaction requires and changes), [KmsInv],
      [KmsKeep], [KmsAlloc] (the invariants), [KmsSystem] (processes running operations
      in any order, with restarts), [KmsSteps] and [KmsProtocol] (every reachable state
      keeps the invariants), [KmsSafety], [KmsScan], [KmsReaper], [KmsFences], [KmsBatch]
      and [KmsObjects] (the properties).
    - Placement (poc/keinctl/src/placement.rs): [Placement] and [PlacementProps]; [Sorts]
      is the stable sort of the standard library.
    - Erasure coding (poc/kee/src, poc/keisal/src/lib.rs): [Kee] has profiles, both codecs
      and prepared plans; [Gf256] is the field, [KeeLaws] what the two coding libraries
      promise, [KeeMatrix] that any eight rows of the coding matrix are independent,
      [KeeProps], [KeeIsaL] and [KeeRestore] the stages, [KeeCode] the properties.
    - Allocator (poc/kas/src/fdb_store.rs, fdb_schema.rs): [Kas] has spans, planning and the
      operations on the state in memory, [KasStore] what is stored and how it is written and
      refreshed, [KasService] the leases and the operations of the service. [KasPlan],
      [KasReserve] and [KasOps] prove spans, planning and the operations in memory,
      [KasTables] and [KasPersist] loading and storing, [KasLocked] the operations of the
      holder of the lease, [KasLease] taking and losing it, [KasCluster] several instances;
      [KasProps] has further properties.
    The files named [...Examples] and [KmsConcrete] instantiate the parameters, run the
    definitions and apply the theorems to concrete states.

    * State and operations

    A Rust [Result] is [result], [?] its bind; code that changes state is in the monad [M],
    which keeps the state reached when an error is returned. Structs are records, enums
    inductive types, maps [gmap]; an integer is a [Z] whose width is written out where the
    code can reach it. A transaction body is a program of reads and writes; [Fdb.run] drops
    the writes of one that fails. A scan at snapshot isolation reads a database given
    separately from the one the transaction changes.

    * What the theorems show

    - Wire: a body decodes exactly when it is an encoding ([Kp2]); end to end through a
      target a client decodes one truthful reply per entry ([KstWire]).
    - Log: recovery returns the replay of the acknowledged operations, terminates on any
      contents and repairs damage ([ArenaOpen]); a power loss during an append leaves the
      index before or after it, on a tail without stale frames and unless torn bytes have
      the payload's CRC-32 ([ArenaCrash]).
    - Media: writes read back, touch one lane, and a rebuild finds for every chunk the
      header of the highest generation ([ChunkMediaRebuild]).
    - Engine: batching is invisible, a restart answers every lookup as before when each
      chunk stays on one drive ([EngineProps]); under every interleaving a queue hands out
      what was pushed, in order, until it is closed ([WorkQueue]).
    - Target: writes, packed writes, reads and deletes, the start-up check, and that a
      restart changes no read ([KstOps], [KstPackProps], [KstBoot]). A chunk that is live
      is rewritten only in the slot it is in, and a pack names a chunk once.
    - Metadata: committed fragments are never reclaimed and reclaimed ones never committed,
      over every execution; object ids are fresh; an orphaned version is found, over any
      number of pages, and reaped; a batch of commits with distinct keys and versions is
      its commits one by one; a commit that stores its manifest is what a read resolves.
    - Placement: the targets chosen are the best ranked, one per failure domain; what a
      change of the roster moves; the epoch names the roster ([PlacementProps]).
    - Coding: a stripe that lost no more fragments than it has parity is restored to the
      fragments it was coded into, by either codec; what is refused ([KeeCode]).
    - Allocator: no granule is in two reservations, or free and reserved, in any state that
      several instances reach ([KasCluster]); what a reservation gives, that expiry spares
      committed granules, that what is stored is what is loaded, and where a heartbeat or a
      failed batch breaks these ([KasProps]).

    * Bounds and fuel

    Loops that the source runs to exhaustion take fuel, and the theorems state how much is
    enough: a frame of the arena occupies at least one aligned block, so the arena's length
    bounds the recovery scan; a page of a listing or of the backfill holds at least one row,
    so the number of rows bounds the pages. The reaper's budget of cleaning transactions is
    the source's; its theorem asks that the version's pages fit it. Of the allocator, the
    rows of a range bound the pages of its scan, and the stripes to add bound the batches of
    a top-up; the attempts at a lease are an argument, since the source waits for it.

    * Parameters

    SHA-256, CRC-32, the HTTP header map, FoundationDB, protobuf, JSON, the
    [reed_solomon_erasure] crate and the ISA-L library are outside the repository and enter
    as classes whose laws restate their documentation; io_uring is its transfer behaviour.
    UUIDs, random bytes, clocks and the hash that orders failure domains are arguments.

    * Not modelled

    Configuration, statistics, command lines, benchmarks, build and packaging scripts carry
    no protocol state. The gRPC and HTTP connection loops, rate limiting and session pools
    move messages between the modelled handlers. A request to a target runs alone: waiting
    for a busy slot is the answer [WouldBlock]. A FoundationDB commit whose outcome is
    unknown is retried by the client library; the metadata model covers the repeated begin
    of a write and otherwise takes a transaction as committed or not. [KmsSystem.op_ok]
    states what callers of the metadata service respect: ids come from the service, a commit
    without its marker is not sent again after a deletion, cleaners resume from cursors they
    were given. [KasCluster.request_valid] states it for the allocator: mutations name
    placements that exist, reclaimed granules are in no reservation, and records of targets
    change only on the leader that has loaded them; [KasProps] shows what happens otherwise.
    Operations of one allocator instance run one after another, and a write of several
    transactions is not interrupted between them. Its registry of service instances, the
    write-intent path of the metadata service, the repair service (poc/krs), the file-system
    client (poc/kfc, kfc-core, kfc-transport) and the network halves of the
    object client are not modelled. *)
From stdpp Require Export base numbers option list strings gmap.
From Stdlib Require Export ZArith Lia.

Global Open Scope Z_scope.

(** ** Results

    [Result<A, E>] of the source; [?] is the monadic bind, written with
    stdpp's notation [x ← e; k]. *)

Inductive result (E A : Type) : Type :=
| Ok (a : A)
| Err (e : E).

Arguments Ok {E A} a.
Arguments Err {E A} e.

Definition result_bind {E A B : Type} (f : A → result E B) (m : result E A) : result E B :=
  match m with
  | Ok a => f a
  | Err e => Err e
  end.

Global Instance result_mret {E} : MRet (result E) := fun A a => Ok a.
Global Instance result_mbind {E} : MBind (result E) := fun A B f m => result_bind f m.

(** [if !b { return Err(e) }] *)
Definition ensure {E : Type} (b : bool) (e : E) : result E unit :=
  if b then Ok tt else Err e.

(** [Option::ok_or] *)
Definition ok_or {E A : Type} (o : option A) (e : E) : result E A :=
  match o with
  | Some a => Ok a
  | None => Err e
  end.

(** [Result::ok] *)
Definition result_ok {E A : Type} (r : result E A) : option A :=
  match r with
  | Ok a => Some a
  | Err _ => None
  end.

(** [Result::map_err] *)
Definition map_err {E F A : Type} (f : E → F) (r : result E A) : result F A :=
  match r with
  | Ok a => Ok a
  | Err e => Err (f e)
  end.

Definition is_Ok {E A : Type} (r : result E A) : bool :=
  match r with
  | Ok _ => true
  | Err _ => false
  end.

(** [io::ErrorKind], the kinds the modelled code produces. *)
Inductive io_error_kind : Type :=
| InvalidInput
| InvalidData
| NotFound
| UnexpectedEof
| WriteZero
| OtherError.

Global Instance io_error_kind_eq_dec : EqDecision io_error_kind.
Proof. solve_decision. Defined.

Abbreviation io_result := (result io_error_kind).

(** A loop whose body may return early with an error. *)
Fixpoint try_fold {E S A : Type} (f : S → A → result E S) (s : S) (l : list A) : result E S :=
  match l with
  | [] => Ok s
  | a :: l' => s' ← f s a; try_fold f s' l'
  end.

(** [map] with early return, and its collected results. *)
Fixpoint try_map {E A B : Type} (f : A → result E B) (l : list A) : result E (list B) :=
  match l with
  | [] => Ok []
  | a :: l' => b ← f a; bs ← try_map f l'; Ok (b :: bs)
  end.

(** ** State passing with errors

    [M S E A] is code that updates a state [S] and returns [Result<A, E>]; the state
    after an error is the one the code left behind. *)

Definition M (S E A : Type) : Type := S → S * result E A.

Global Instance M_mret {S E} : MRet (M S E) := fun A a s => (s, Ok a).
Global Instance M_mbind {S E} : MBind (M S E) := fun A B f m s =>
  match m s with
  | (s', Ok a) => f a s'
  | (s', Err e) => (s', Err e)
  end.

Definition lift {S E A : Type} (r : result E A) : M S E A := fun s => (s, r).
Definition get_state {S E : Type} : M S E S := fun s => (s, Ok s).
Definition put_state {S E : Type} (s' : S) : M S E unit := fun _ => (s', Ok tt).

(** ** Machine integers

    An unsigned [w]-bit integer is a [Z] in [0, 2^w); [usize] is 64 bits. *)

Definition fits (w z : Z) : Prop := 0 ≤ z < 2 ^ w.

Definition wrap (w z : Z) : Z := z mod 2 ^ w.

Definition checked_add (w a b : Z) : option Z :=
  if a + b <? 2 ^ w then Some (a + b) else None.

Definition checked_sub (a b : Z) : option Z :=
  if b <=? a then Some (a - b) else None.

Definition checked_mul (w a b : Z) : option Z :=
  if a * b <? 2 ^ w then Some (a * b) else None.

Definition saturating_sub (a b : Z) : Z := Z.max 0 (a - b).

Definition saturating_mul (w a b : Z) : Z := Z.min (2 ^ w - 1) (a * b).

(** [div_ceil] of the integer types, for a positive divisor. *)
Definition div_ceil (a b : Z) : Z := (a + b - 1) / b.

Abbreviation is_u8 := (fits 8).
Abbreviation is_u16 := (fits 16).
Abbreviation is_u32 := (fits 32).
Abbreviation is_u64 := (fits 64).

Global Instance fits_dec w z : Decision (fits w z).
Proof. unfold fits. apply _. Defined.

(** ** Lemmas on results *)

Lemma result_bind_Ok {E A B : Type} (f : A → result E B) (m : result E A) (b : B) :
  (m ≫= f) = Ok b ↔ ∃ a, m = Ok a ∧ f a = Ok b.
Proof.
  destruct m as [a|e]; split.
  - intros H. exists a. split; [reflexivity|exact H].
  - intros (a' & [= <-] & H). exact H.
  - discriminate.
  - intros (a' & ? & _). discriminate.
Qed.

Lemma result_bind_eq {E A B : Type} (f : A → result E B) (a : A) :
  (Ok a ≫= f) = f a.
Proof. reflexivity. Qed.

Lemma Ok_inj {E A : Type} (a b : A) : Ok (E:=E) a = Ok b → a = b.
Proof. by injection 1. Qed.

Lemma ensure_Ok {E : Type} (b : bool) (e : E) u : ensure b e = Ok u ↔ b = true.
Proof. destruct b, u; cbn; split; congruence. Qed.

Lemma ok_or_Ok {E A : Type} (o : option A) (e : E) a : ok_or o e = Ok a ↔ o = Some a.
Proof. destruct o; cbn; split; congruence. Qed.

Lemma map_err_Ok {E F A : Type} (f : E → F) (r : result E A) a :
  map_err f r = Ok a ↔ r = Ok a.
Proof. destruct r; cbn; split; congruence. Qed.

Lemma result_ok_Some {E A : Type} (r : result E A) a : result_ok r = Some a ↔ r = Ok a.
Proof. destruct r; cbn; split; congruence. Qed.

Lemma M_bind_Ok {S E A B : Type} (m : M S E A) (f : A → M S E B) s s' b :
  (m ≫= f) s = (s', Ok b) ↔ ∃ s1 a, m s = (s1, Ok a) ∧ f a s1 = (s', Ok b).
Proof.
  unfold mbind, M_mbind. destruct (m s) as [s1 [a|e]]; split.
  - intros H. by exists s1, a.
  - by intros (? & ? & [= <- <-] & H).
  - done.
  - by intros (? & ? & ? & _).
Qed.

Lemma M_bind_run {S E A B : Type} (m : M S E A) (f : A → M S E B) s s1 a :
  m s = (s1, Ok a) → (m ≫= f) s = f a s1.
Proof. unfold mbind, M_mbind. by intros ->. Qed.

Lemma M_bind_Err {S E A B : Type} (m : M S E A) (f : A → M S E B) s s1 e :
  m s = (s1, Err e) → (m ≫= f) s = (s1, Err e).
Proof. unfold mbind, M_mbind. by intros ->. Qed.

Lemma lift_Ok {S E A : Type} (r : result E A) (s s' : S) a :
  lift r s = (s', Ok a) ↔ s' = s ∧ r = Ok a.
Proof. unfold lift. split; [by intros [= -> ->]|by intros [-> ->]]. Qed.

Lemma get_state_Ok {S E : Type} (s s' a : S) :
  get_state (E:=E) s = (s', Ok a) ↔ s' = s ∧ a = s.
Proof. unfold get_state. split; [by intros [= -> ->]|by intros [-> ->]]. Qed.

Lemma put_state_Ok {S E : Type} (s1 s s' : S) u :
  put_state (E:=E) s1 s = (s', Ok u) ↔ s' = s1.
Proof. unfold put_state. destruct u. split; [by intros [= ->]|by intros ->]. Qed.

Lemma try_fold_app {E S A : Type} (f : S → A → result E S) s l1 l2 :
  try_fold f s (l1 ++ l2) = (s' ← try_fold f s l1; try_fold f s' l2).
Proof.
  revert s; induction l1 as [|a l1 IH]; intros s; [reflexivity|].
  cbn. destruct (f s a) as [s'|e]; cbn; [apply IH|reflexivity].
Qed.

(** An invariant of the loop state is an invariant of the loop. *)
Lemma try_fold_inv {E S A : Type} (P : S → Prop) (f : S → A → result E S) s l s' :
  (∀ t a t', a ∈ l → P t → f t a = Ok t' → P t') →
  P s → try_fold f s l = Ok s' → P s'.
Proof.
  revert s; induction l as [|a l IH]; intros s Hstep HP H; cbn in H.
  - by injection H as <-.
  - apply result_bind_Ok in H as (t & Ht & H).
    eapply IH; [|eapply Hstep; [apply list_elem_of_here|exact HP|exact Ht]|exact H].
    intros; eapply Hstep; [by apply list_elem_of_further|done..].
Qed.

(** ** Lemmas on integers *)

Lemma fits_wrap w z : 0 ≤ w → fits w (wrap w z).
Proof. intros. apply Z.mod_pos_bound. lia. Qed.

Lemma wrap_small w z : fits w z → wrap w z = z.
Proof. apply Z.mod_small. Qed.

Lemma checked_add_Some w a b c : checked_add w a b = Some c ↔ c = a + b ∧ a + b < 2 ^ w.
Proof. unfold checked_add. destruct (Z.ltb_spec (a + b) (2 ^ w)); intuition (congruence || lia). Qed.

Lemma checked_sub_Some a b c : checked_sub a b = Some c ↔ c = a - b ∧ b ≤ a.
Proof. unfold checked_sub. destruct (Z.leb_spec b a); intuition (congruence || lia). Qed.

Lemma checked_mul_Some w a b c : checked_mul w a b = Some c ↔ c = a * b ∧ a * b < 2 ^ w.
Proof. unfold checked_mul. destruct (Z.ltb_spec (a * b) (2 ^ w)); intuition (congruence || lia). Qed.

Lemma checked_add_ok w a b : a + b < 2 ^ w → checked_add w a b = Some (a + b).
Proof. intros. by apply checked_add_Some. Qed.

Lemma checked_sub_ok a b : b ≤ a → checked_sub a b = Some (a - b).
Proof. intros. by apply checked_sub_Some. Qed.

Lemma checked_mul_ok w a b : a * b < 2 ^ w → checked_mul w a b = Some (a * b).
Proof. intros. by apply checked_mul_Some. Qed.

Lemma mul_add_div a b c : 0 ≤ c < b → (a * b + c) / b = a.
Proof. intros. rewrite Z.div_add_l, Z.div_small by lia. lia. Qed.

Lemma mul_add_mod a b c : 0 ≤ c < b → (a * b + c) mod b = c.
Proof. intros. rewrite Z.add_comm, Z.mod_add, Z.mod_small by lia. lia. Qed.

Lemma aligned_add a b c : c ≠ 0 → a mod c = 0 → b mod c = 0 → (a + b) mod c = 0.
Proof. intros Hc Ha Hb. by rewrite Z.add_mod, Ha, Hb, Z.add_0_l, Z.mod_0_l by done. Qed.

Lemma aligned_le a b c : 0 < c → a mod c = 0 → b mod c = 0 → a < b → a + c ≤ b.
Proof.
  intros Hc Ha Hb Hlt. pose proof (Z.div_mod a c ltac:(lia)). pose proof (Z.div_mod b c ltac:(lia)).
  assert (a / c < b / c) by nia. nia.
Qed.

(** ** Automation *)

Create HintDb keinfs.

#[export] Hint Resolve fits_wrap : keinfs.

(** Turns a successful run of monadic code into the facts its steps give. *)
Ltac inv_ok1 :=
  match goal with
  | H : Ok _ = Ok _ |- _ => apply Ok_inj in H; subst
  | H : Some _ = Some _ |- _ => injection H; clear H; intros; subst
  | H : Err _ = Ok _ |- _ => discriminate H
  | H : Ok _ = Err _ |- _ => discriminate H
  | H : None = Some _ |- _ => discriminate H
  | H : Some _ = None |- _ => discriminate H
  | H : mret _ = Ok _ |- _ => unfold mret, result_mret in H
  | H : (mbind _ ?m) = Ok _ |- _ =>
      let x := fresh "x" in let Hx := fresh "Hx" in
      apply result_bind_Ok in H as (x & Hx & H)
  | H : (mbind _ ?m) = Some _ |- _ =>
      let x := fresh "x" in let Hx := fresh "Hx" in
      apply bind_Some in H as (x & Hx & H)
  | H : (mbind _ ?m) ?s = (_, Ok _) |- _ =>
      let t := fresh "s" in let x := fresh "x" in let Hx := fresh "Hx" in
      apply M_bind_Ok in H as (t & x & Hx & H)
  | H : lift _ _ = (_, Ok _) |- _ => apply lift_Ok in H as [? H]; subst
  | H : get_state _ = (_, Ok _) |- _ => apply get_state_Ok in H as [? H]; subst
  | H : put_state _ _ = (_, Ok _) |- _ => apply put_state_Ok in H; subst
  | H : ensure _ _ = Ok _ |- _ => apply ensure_Ok in H
  | H : ok_or _ _ = Ok _ |- _ => apply ok_or_Ok in H
  | H : map_err _ _ = Ok _ |- _ => apply map_err_Ok in H
  | H : result_ok _ = Some _ |- _ => apply result_ok_Some in H
  | H : checked_add _ _ _ = Some _ |- _ => apply checked_add_Some in H as [? ?]; subst
  | H : checked_sub _ _ = Some _ |- _ => apply checked_sub_Some in H as [? ?]; subst
  | H : checked_mul _ _ _ = Some _ |- _ => apply checked_mul_Some in H as [? ?]; subst
  end.

Ltac inv_ok := repeat inv_ok1.

(** Boolean tests of the code as propositions, in the context and the goal. *)
Ltac bools :=
  repeat match goal with
  | H : (_ && _)%bool = true |- _ => apply andb_prop in H as [? ?]
  | H : (_ || _)%bool = false |- _ => apply orb_false_elim in H as [? ?]
  | H : negb _ = true |- _ => apply negb_true_iff in H
  | H : negb _ = false |- _ => apply negb_false_iff in H
  | H : (_ <? _) = true |- _ => apply Z.ltb_lt in H
  | H : (_ <? _) = false |- _ => apply Z.ltb_ge in H
  | H : (_ <=? _) = true |- _ => apply Z.leb_le in H
  | H : (_ <=? _) = false |- _ => apply Z.leb_gt in H
  | H : (_ =? _) = true |- _ => apply Z.eqb_eq in H
  | H : (_ =? _) = false |- _ => apply Z.eqb_neq in H
  | H : bool_decide _ = true |- _ => apply bool_decide_eq_true in H
  | H : bool_decide _ = false |- _ => apply bool_decide_eq_false in H
  end.
