(* ===== verification/Bytes.v ===== *)
(** Byte strings: fixed-width integer encodings, slices of a buffer, overwriting a
    segment of a buffer, UTF-8 validity and decimal text.

    A [&[u8]] or [Vec<u8>] is a [list byte]; offsets and lengths are [Z], compared
    before they are used as positions. *)
From S2P Require Import Prelude.
From Stdlib Require Export Strings.Byte.

Global Instance byte_eq_dec : EqDecision byte := Byte.byte_eq_dec.

Global Instance byte_countable : Countable byte :=
  inj_countable Byte.to_N Byte.of_N Byte.of_to_N.

Abbreviation len l := (Z.of_nat (length l)).

(** [ChunkId([u8; 32])] *)
Abbreviation ChunkId := (list byte).
Definition chunk_id_wf (c : ChunkId) : Prop := len c = 32.

(** A byte string literal [b"..."]. *)
Definition bstr (s : string) : list byte := String.list_byte_of_string s.

Definition byte_to_Z (b : byte) : Z := Z.of_N (Byte.to_N b).

(** [z as u8] *)
Definition byte_of_Z (z : Z) : byte :=
  match Byte.of_N (Z.to_N (z mod 256)) with
  | Some b => b
  | None => x00
  end.

(** [to_le_bytes] of an integer of [n] bytes. *)
Fixpoint le_bytes (n : nat) (z : Z) : list byte :=
  match n with
  | O => []
  | S n' => byte_of_Z z :: le_bytes n' (z / 256)
  end.

(** [from_le_bytes] *)
Fixpoint of_le (l : list byte) : Z :=
  match l with
  | [] => 0
  | b :: l' => byte_to_Z b + 256 * of_le l'
  end.

(** [to_be_bytes] and [from_be_bytes] *)
Definition be_bytes (n : nat) (z : Z) : list byte := reverse (le_bytes n z).
Definition of_be (l : list byte) : Z := of_le (reverse l).

(** [l.get(off..off + n)] *)
Definition slice (off n : Z) (l : list byte) : option (list byte) :=
  if (0 <=? off) && (0 <=? n) && (off + n <=? len l)
  then Some (take (Z.to_nat n) (drop (Z.to_nat off) l))
  else None.

(** [l[off..off + b.len()].copy_from_slice(b)], for a segment inside [l]. *)
Definition splice (off : Z) (b l : list byte) : list byte :=
  take (Z.to_nat off) l ++ b ++ drop (Z.to_nat (off + len b)) l.

(** [vec![0_u8; n]] *)
Definition zeroed (n : Z) : list byte := replicate (Z.to_nat n) x00.

(** Little-endian integer at an offset. *)
Definition get_le (off n : Z) (l : list byte) : option Z := of_le <$> slice off n l.

(** [l[off]] *)
Definition get_byte (off : Z) (l : list byte) : option byte := l !! Z.to_nat off.

(** ** UTF-8 ([std::str::from_utf8]) *)

Definition byte_in (lo hi : Z) (b : byte) : bool :=
  (lo <=? byte_to_Z b) && (byte_to_Z b <=? hi).

Definition utf8_cont (b : byte) : bool := byte_in 128 191 b.

(** The second byte of a multi-byte sequence, as restricted by the first. *)
Definition utf8_second (b0 b1 : byte) : bool :=
  let z := byte_to_Z b0 in
  if z =? 224 then byte_in 160 191 b1
  else if z =? 237 then byte_in 128 159 b1
  else if z =? 240 then byte_in 144 191 b1
  else if z =? 244 then byte_in 128 143 b1
  else utf8_cont b1.

Fixpoint utf8_valid (l : list byte) : bool :=
  match l with
  | [] => true
  | b0 :: l1 =>
      if byte_in 0 127 b0 then utf8_valid l1
      else if byte_in 194 223 b0 then
        match l1 with
        | b1 :: l2 => utf8_cont b1 && utf8_valid l2
        | _ => false
        end
      else if byte_in 224 239 b0 then
        match l1 with
        | b1 :: b2 :: l3 => utf8_second b0 b1 && utf8_cont b2 && utf8_valid l3
        | _ => false
        end
      else if byte_in 240 244 b0 then
        match l1 with
        | b1 :: b2 :: b3 :: l4 =>
            utf8_second b0 b1 && utf8_cont b2 && utf8_cont b3 && utf8_valid l4
        | _ => false
        end
      else false
  end.

(** ** Bytes and integers *)

Lemma byte_to_Z_range b : 0 ≤ byte_to_Z b < 256.
Proof. unfold byte_to_Z. pose proof (Byte.to_N_bounded b). lia. Qed.

Lemma byte_of_to_Z b : byte_of_Z (byte_to_Z b) = b.
Proof.
  unfold byte_of_Z. rewrite Z.mod_small by apply byte_to_Z_range.
  unfold byte_to_Z. by rewrite N2Z.id, Byte.of_to_N.
Qed.

Lemma byte_to_of_Z z : byte_to_Z (byte_of_Z z) = z mod 256.
Proof.
  unfold byte_of_Z. pose proof (Z.mod_pos_bound z 256 ltac:(lia)).
  destruct (Byte.of_N _) as [b|] eqn:Hb.
  - apply Byte.to_of_N in Hb. unfold byte_to_Z. rewrite Hb. lia.
  - apply Byte.of_N_None_iff in Hb. lia.
Qed.

Lemma byte_of_Z_inj a b : is_u8 a → is_u8 b → byte_of_Z a = byte_of_Z b → a = b.
Proof.
  intros Ha Hb H%(f_equal byte_to_Z). rewrite !byte_to_of_Z in H.
  unfold fits in *. rewrite !Z.mod_small in H by lia. done.
Qed.

Lemma length_le_bytes n z : length (le_bytes n z) = n.
Proof. revert z; induction n; intros; cbn; congruence. Qed.

Lemma length_be_bytes n z : length (be_bytes n z) = n.
Proof. unfold be_bytes. by rewrite length_reverse, length_le_bytes. Qed.

Lemma of_le_bytes n z : of_le (le_bytes n z) = wrap (8 * Z.of_nat n) z.
Proof.
  revert z; induction n as [|n IH]; intros z; cbn [le_bytes of_le].
  - unfold wrap. by rewrite Z.mul_0_r, Z.mod_1_r.
  - rewrite IH, byte_to_of_Z. unfold wrap.
    replace (8 * Z.of_nat (S n)) with (8 + 8 * Z.of_nat n) by lia.
    rewrite Z.pow_add_r by lia. change (2 ^ 8) with 256.
    rewrite Z.rem_mul_r by lia. lia.
Qed.

Lemma of_le_range l : 0 ≤ of_le l < 2 ^ (8 * len l).
Proof.
  induction l as [|b l IH]; cbn [of_le length]; [cbn; lia|].
  pose proof (byte_to_Z_range b).
  replace (8 * Z.of_nat (S (length l))) with (8 + 8 * len l) by lia.
  rewrite Z.pow_add_r by lia. change (2 ^ 8) with 256. lia.
Qed.

Lemma le_bytes_of_le l : le_bytes (length l) (of_le l) = l.
Proof.
  induction l as [|b l IH]; cbn; [done|]. pose proof (byte_to_Z_range b).
  f_equal.
  - unfold byte_of_Z.
    rewrite (Z.mul_comm 256), Z.mod_add, Z.mod_small by lia.
    unfold byte_to_Z. by rewrite N2Z.id, Byte.of_to_N.
  - rewrite (Z.mul_comm 256), Z.div_add, Z.div_small by lia. apply IH.
Qed.

Lemma of_le_small n z : fits (8 * Z.of_nat n) z → of_le (le_bytes n z) = z.
Proof. intros. rewrite of_le_bytes. by apply wrap_small. Qed.

Lemma of_be_small n z : fits (8 * Z.of_nat n) z → of_be (be_bytes n z) = z.
Proof. intros. unfold of_be, be_bytes. rewrite reverse_involutive. by apply of_le_small. Qed.

Lemma le_bytes_inj n a b :
  fits (8 * Z.of_nat n) a → fits (8 * Z.of_nat n) b → le_bytes n a = le_bytes n b → a = b.
Proof. intros Ha Hb H%(f_equal of_le). by rewrite !of_le_small in H. Qed.

Lemma le_bytes_of_le_n n l : length l = n → le_bytes n (of_le l) = l.
Proof. intros <-. apply le_bytes_of_le. Qed.

(** ** Slices *)

Lemma slice_Some off n l s :
  slice off n l = Some s ↔
  0 ≤ off ∧ 0 ≤ n ∧ off + n ≤ len l ∧ s = take (Z.to_nat n) (drop (Z.to_nat off) l).
Proof.
  unfold slice. destruct (_ && _)%bool eqn:H.
  - bools. intuition congruence.
  - split; [done|]. intros (? & ? & ? & _).
    destruct (Z.leb_spec 0 off), (Z.leb_spec 0 n), (Z.leb_spec (off + n) (len l));
      cbn in H; (done || lia).
Qed.

Lemma slice_len off n l s : slice off n l = Some s → len s = n.
Proof. intros (? & ? & ? & ->)%slice_Some. rewrite length_take, length_drop. lia. Qed.

Lemma slice_ok off n l :
  0 ≤ off → 0 ≤ n → off + n ≤ len l →
  slice off n l = Some (take (Z.to_nat n) (drop (Z.to_nat off) l)).
Proof. intros. by apply slice_Some. Qed.

Lemma slice_is_Some off n l :
  0 ≤ off → 0 ≤ n → off + n ≤ len l → ∃ s, slice off n l = Some s ∧ len s = n.
Proof.
  intros. exists (take (Z.to_nat n) (drop (Z.to_nat off) l)).
  split; [by apply slice_ok|]. rewrite length_take, length_drop. lia.
Qed.

Lemma slice_None off n l : 0 ≤ off → 0 ≤ n → len l < off + n → slice off n l = None.
Proof.
  intros. unfold slice.
  destruct (Z.leb_spec (off + n) (len l)); [lia|]. by rewrite andb_false_r.
Qed.

Lemma slice_app_l off n a b :
  0 ≤ n → off + n ≤ len a → slice off n (a ++ b) = slice off n a.
Proof.
  intros. unfold slice. rewrite length_app.
  destruct (Z.leb_spec 0 off); [|done]. destruct (Z.leb_spec 0 n); [|lia].
  destruct (Z.leb_spec (off + n) (len a)); [|lia].
  destruct (Z.leb_spec (off + n) (Z.of_nat (length a + length b))); [|lia]. cbn.
  rewrite drop_app_le by lia. rewrite take_app_le; [done|]. rewrite length_drop. lia.
Qed.

Lemma slice_app_r off n a b :
  len a ≤ off → slice off n (a ++ b) = slice (off - len a) n b.
Proof.
  intros. unfold slice. rewrite length_app.
  destruct (Z.leb_spec 0 off), (Z.leb_spec 0 (off - len a)); try lia.
  destruct (Z.leb_spec 0 n); [|done].
  destruct (Z.leb_spec (off + n) (Z.of_nat (length a + length b))),
    (Z.leb_spec (off - len a + n) (len b)); try lia; [|done]. cbn.
  rewrite drop_app_ge by lia. repeat f_equal. lia.
Qed.

Lemma slice_full l n : len l = n → slice 0 n l = Some l.
Proof.
  intros <-. rewrite slice_ok by lia. f_equal.
  rewrite Nat2Z.id. cbn. by rewrite firstn_all.
Qed.

Lemma slice_0_app a b n : len a = n → slice 0 n (a ++ b) = Some a.
Proof. intros <-. rewrite slice_app_l by lia. by apply slice_full. Qed.

(** A read inside the middle part of a buffer. *)
Lemma slice_mid off n pre d post :
  len pre ≤ off → 0 ≤ n → off - len pre + n ≤ len d →
  slice off n (pre ++ d ++ post) = slice (off - len pre) n d.
Proof. intros. rewrite slice_app_r, slice_app_l by lia. done. Qed.

Lemma slice_slice off n off' n' l s :
  slice off n l = Some s → 0 ≤ off' → 0 ≤ n' → off' + n' ≤ n →
  slice off' n' s = slice (off + off') n' l.
Proof.
  intros (? & ? & ? & ->)%slice_Some ? ? ?.
  rewrite !slice_ok by (rewrite ?length_take, ?length_drop; lia). f_equal.
  replace (Z.to_nat n) with (Z.to_nat off' + (Z.to_nat n - Z.to_nat off'))%nat by lia.
  rewrite <-(take_drop_commute _ _ (Z.to_nat off')).
  rewrite take_take, drop_drop. f_equal; [lia|]. f_equal. lia.
Qed.

(** Two buffers that agree on two adjacent segments agree on their union. *)
Lemma slice_join off n m l a b :
  slice off n l = Some a → slice (off + n) m l = Some b → slice off (n + m) l = Some (a ++ b).
Proof.
  intros (? & ? & ? & ->)%slice_Some (? & ? & ? & ->)%slice_Some.
  rewrite slice_ok by lia. f_equal.
  rewrite Z2Nat.inj_add by lia. rewrite <-take_take_drop, drop_drop.
  by rewrite Z2Nat.inj_add by lia.
Qed.

Lemma slice_cut n m (l : list byte) :
  0 ≤ n → 0 ≤ m → n + m = len l →
  ∃ a b : list byte, l = a ++ b ∧ len a = n ∧ len b = m.
Proof.
  intros. exists (take (Z.to_nat n) l), (drop (Z.to_nat n) l).
  rewrite take_drop, length_take, length_drop. split_and!; [done|lia..].
Qed.

Lemma len_zeroed n : 0 ≤ n → len (zeroed n) = n.
Proof. intros. unfold zeroed. rewrite length_replicate. lia. Qed.

Lemma slice_zeroed off n m :
  0 ≤ off → 0 ≤ n → off + n ≤ m → slice off n (zeroed m) = Some (zeroed n).
Proof.
  intros. rewrite slice_ok by (rewrite ?len_zeroed; lia). unfold zeroed.
  rewrite drop_replicate, take_replicate. repeat f_equal. lia.
Qed.

(** ** Overwriting a segment *)

Lemma len_splice off b l : 0 ≤ off → off + len b ≤ len l → len (splice off b l) = len l.
Proof. intros. unfold splice. rewrite !length_app, length_take, length_drop. lia. Qed.

Lemma slice_splice_in off b l off' n :
  0 ≤ off → off + len b ≤ len l → off ≤ off' → 0 ≤ n → off' + n ≤ off + len b →
  slice off' n (splice off b l) = slice (off' - off) n b.
Proof.
  intros. unfold splice.
  rewrite slice_app_r, length_take by (rewrite ?length_take; lia).
  rewrite slice_app_l by lia. f_equal. lia.
Qed.

Lemma slice_splice_eq off b l n :
  0 ≤ off → off + len b ≤ len l → n = len b → slice off n (splice off b l) = Some b.
Proof.
  intros ? ? ->. rewrite slice_splice_in by lia. rewrite Z.sub_diag. by apply slice_full.
Qed.

Lemma slice_splice_ne off b l off' n :
  0 ≤ off → off + len b ≤ len l → 0 ≤ off' → 0 ≤ n →
  off' + n ≤ off ∨ off + len b ≤ off' →
  slice off' n (splice off b l) = slice off' n l.
Proof.
  intros ? ? ? ? Hd. unfold splice.
  destruct (decide (off' + n ≤ off)).
  - rewrite slice_app_l by (rewrite ?length_take; lia).
    rewrite !slice_ok by (rewrite ?length_take; lia). f_equal.
    replace (Z.to_nat off) with (Z.to_nat off' + (Z.to_nat off - Z.to_nat off'))%nat by lia.
    rewrite <-take_drop_commute, take_take. f_equal. lia.
  - rewrite slice_app_r, length_take by (rewrite ?length_take; lia).
    rewrite slice_app_r by lia.
    destruct (decide (off' + n ≤ len l)).
    + rewrite !slice_ok by (rewrite ?length_drop; lia). rewrite drop_drop.
      repeat f_equal. lia.
    + rewrite !slice_None by (rewrite ?length_drop; lia). done.
Qed.

Lemma get_le_range off n l z : get_le off n l = Some z → fits (8 * n) z.
Proof.
  unfold get_le. intros (s & Hs & ->)%fmap_Some.
  apply slice_len in Hs as <-. apply of_le_range.
Qed.

(** A segment that is a concatenation is read part by part. *)
Lemma slice_app_iff off n m l a b :
  len a = n → 0 ≤ m →
  slice off (n + m) l = Some (a ++ b) ↔ slice off n l = Some a ∧ slice (off + n) m l = Some b.
Proof.
  intros Ha Hm. split.
  - intros H. pose proof (slice_len _ _ _ _ H) as Hl. rewrite length_app in Hl.
    pose proof H as (? & ? & ? & _)%slice_Some. split.
    + pose proof (slice_slice _ _ 0 n _ _ H) as Hs. rewrite Z.add_0_r in Hs.
      rewrite <-Hs by lia. by apply slice_0_app.
    + rewrite <-(slice_slice _ _ n m _ _ H) by lia.
      rewrite slice_app_r by lia. rewrite Ha, Z.sub_diag. apply slice_full. lia.
  - intros [H1 H2]. by apply slice_join.
Qed.

Lemma slice_nil off l : 0 ≤ off ≤ len l → slice off 0 l = Some [].
Proof. intros. rewrite slice_ok by lia. done. Qed.

(** Reading an integer field determines its bytes. *)
Lemma get_le_iff off n l z :
  get_le off (Z.of_nat n) l = Some z ↔
  slice off (Z.of_nat n) l = Some (le_bytes n z) ∧ fits (8 * Z.of_nat n) z.
Proof.
  unfold get_le. rewrite fmap_Some. split.
  - intros (s & Hs & ->). pose proof (slice_len _ _ _ _ Hs) as Hl.
    rewrite le_bytes_of_le_n by lia. rewrite <-Hl at 2. split; [done|apply of_le_range].
  - intros [H Hz]. exists (le_bytes n z). split; [done|]. symmetry. by apply of_le_small.
Qed.

(** ** Decimal text ([u64::to_string] and [str::parse]) *)

Definition digit (d : Z) : byte := byte_of_Z (48 + d).

(** Digits of [n], most significant first; [fuel] digits at most. *)
Fixpoint dec_digits (fuel : nat) (n : Z) : list byte :=
  match fuel with
  | O => []
  | S fuel' => (if n <? 10 then [] else dec_digits fuel' (n / 10)) ++ [digit (n mod 10)]
  end.

(** A 64-bit integer has at most twenty digits. *)
Definition dec_to_string (n : Z) : list byte := dec_digits 20 n.

Definition parse_digit (b : byte) : option Z :=
  let d := byte_to_Z b - 48 in
  if (0 <=? d) && (d <? 10) then Some d else None.

Fixpoint parse_digits (w acc : Z) (l : list byte) : option Z :=
  match l with
  | [] => Some acc
  | b :: l' =>
      d ← parse_digit b;
      acc10 ← checked_mul w acc 10;
      acc' ← checked_add w acc10 d;
      parse_digits w acc' l'
  end.

(** An optional sign, then at least one digit; overflow of the width is an error. *)
Definition parse_uint (w : Z) (l : list byte) : option Z :=
  match l with
  | [] => None
  | b :: l' =>
      if bool_decide (b = "+"%byte)
      then (if bool_decide (l' = []) then None else parse_digits w 0 l')
      else parse_digits w 0 l
  end.

Lemma parse_digit_digit d : 0 ≤ d < 10 → parse_digit (digit d) = Some d.
Proof.
  intros H. unfold parse_digit, digit. rewrite byte_to_of_Z, Z.mod_small by lia.
  replace (48 + d - 48) with d by lia.
  destruct (Z.leb_spec 0 d), (Z.ltb_spec d 10); try lia. done.
Qed.

Lemma parse_digits_app w acc l1 l2 :
  parse_digits w acc (l1 ++ l2) = (a ← parse_digits w acc l1; parse_digits w a l2).
Proof.
  revert acc; induction l1 as [|b l1 IH]; intros acc; [done|]. cbn.
  destruct (parse_digit b); cbn; [|done]. destruct (checked_mul _ _ _); cbn; [|done].
  destruct (checked_add _ _ _); cbn; [|done]. apply IH.
Qed.

Lemma parse_dec_digits w fuel n :
  0 ≤ n < 10 ^ Z.of_nat fuel → fits w n → parse_digits w 0 (dec_digits fuel n) = Some n.
Proof.
  revert n; induction fuel as [|fuel IH]; intros n Hn Hw.
  - cbn in *. f_equal. lia.
  - cbn [dec_digits]. pose proof (Z.mod_pos_bound n 10 ltac:(lia)).
    pose proof (Z.div_mod n 10 ltac:(lia)). unfold fits in *.
    rewrite Nat2Z.inj_succ, Z.pow_succ_r in Hn by lia.
    assert (parse_digits w 0 (if n <? 10 then [] else dec_digits fuel (n / 10)) = Some (n / 10)) as Hpre.
    { destruct (Z.ltb_spec n 10); [cbn; f_equal; lia|]. apply IH; lia. }
    rewrite parse_digits_app, Hpre. cbn [mbind option_bind parse_digits].
    rewrite parse_digit_digit by lia. cbn [mbind option_bind].
    rewrite checked_mul_ok by lia. cbn [mbind option_bind].
    rewrite checked_add_ok by lia. cbn. f_equal. lia.
Qed.

Lemma dec_digits_ascii fuel n : 0 ≤ n → Forall (fun b => byte_in 48 57 b = true) (dec_digits fuel n).
Proof.
  revert n; induction fuel as [|fuel IH]; intros n Hn; [constructor|]. cbn [dec_digits].
  apply Forall_app. split.
  - destruct (n <? 10); [constructor|]. apply IH. apply Z.div_pos; lia.
  - constructor; [|constructor]. pose proof (Z.mod_pos_bound n 10 ltac:(lia)). unfold byte_in, digit.
    rewrite byte_to_of_Z, Z.mod_small by lia. apply andb_true_iff. split; apply Z.leb_le; lia.
Qed.

Lemma parse_uint_digits w b l :
  byte_in 48 57 b = true → parse_uint w (b :: l) = parse_digits w 0 (b :: l).
Proof. intros H. cbn. by rewrite bool_decide_eq_false_2 by (intros ->; done). Qed.

Lemma parse_dec_to_string w n :
  w ≤ 64 → fits w n → parse_uint w (dec_to_string n) = Some n.
Proof.
  intros Hw Hn. unfold dec_to_string. pose proof Hn as [? ?].
  assert (2 ^ w ≤ 2 ^ 64) by (apply Z.pow_le_mono_r; lia).
  pose proof (dec_digits_ascii 20 n ltac:(lia)) as Ha.
  destruct (dec_digits 20 n) as [|b l] eqn:Heq; [by apply app_nil in Heq as [_ ?]|].
  apply Forall_cons in Ha as [Hb _].
  rewrite parse_uint_digits, <-Heq by done. apply parse_dec_digits; [lia|done].
Qed.

(** ** Automation for field layouts

    [slices] computes a read of a buffer that was built by appending or by
    overwriting segments: lengths come from the hint database [len], bounds from
    [lia]. *)

Create Rewrite HintDb len.
#[export] Hint Rewrite length_le_bytes length_be_bytes @length_app @length_cons @length_nil : len.

Ltac len_tac :=
  repeat (rewrite len_splice by len_tac);
  autorewrite with len in *; rewrite ?len_zeroed by lia; cbn [length] in *; lia.

Ltac slices1 :=
  match goal with
  | |- context [slice ?o ?n (splice ?o' ?b ?l)] =>
      first [ rewrite (slice_splice_ne o' b l o n) by len_tac
            | rewrite (slice_splice_eq o' b l n) by len_tac
            | rewrite (slice_splice_in o' b l o n) by len_tac ]
  | |- context [slice ?o ?n (?a ++ ?b)] =>
      first [ rewrite (slice_app_r o n a b) by len_tac
            | rewrite (slice_app_l o n a b) by len_tac ]
  | |- context [slice ?o ?n ?a] =>
      first [ rewrite (slice_full a n) by len_tac
            | let z := fresh in
              assert (o = 0) as z by len_tac; rewrite z; clear z;
              rewrite (slice_full a n) by len_tac ]
  end.
Ltac slices := repeat slices1.

(** [norm_off] puts constant offsets in the form [base + k]. *)
Ltac is_Zcst z :=
  match z with
  | Z0 => idtac
  | Zpos _ => idtac
  | Zneg _ => idtac
  end.

Ltac norm_off :=
  repeat match goal with
  | |- context [?b + ?x + ?y] =>
      is_Zcst x; is_Zcst y;
      let v := eval vm_compute in (x + y) in
      replace (b + x + y) with (b + v) by lia
  | |- context [?x + ?y] =>
      is_Zcst x; is_Zcst y;
      let v := eval vm_compute in (x + y) in change (x + y) with v
  end.

(** [split_fields ns] turns an equation about a segment of a buffer into one equation
    per field of the given widths. *)
Ltac split_fields :=
  rewrite !slice_app_iff by (autorewrite with len; cbn; lia); norm_off.

Arguments le_bytes : simpl never.
Arguments be_bytes : simpl never.
Arguments splice : simpl never.
Arguments slice : simpl never.
Arguments zeroed : simpl never.
