(* ===== verification/Kp2.v ===== *)
(** KP2, the wire protocol between the smart client and a storage target
    (poc/kp2/src/lib.rs): the packed write request, the packed read query, the packed
    read response and the packed write reply, each with its encoder and its decoder.

    Decoders work on the received body by offset, as the source does; encoders append
    to a buffer.  Errors carry the kind of the [io::Error] the source builds. *)
From S2P Require Import Prelude Bytes.

(** ** Constants *)

Definition VERSION : Z := 1.
Definition MAX_PACK_PAYLOAD_BYTES : Z := 16 * 1024 * 1024.
Definition FLAG_QUERY_RANGED : Z := 1.
Definition COMMON_HEADER_BYTES : Z := 24.
Definition WRITE_ENTRY_BYTES : Z := 58.
Definition QUERY_ENTRY_BYTES : Z := 32.
Definition QUERY_ENTRY_RANGED_BYTES : Z := 48.
Definition READ_ENTRY_BYTES : Z := 80.
Definition ACK_ENTRY_BYTES : Z := 80.
Definition GRANULE_ALLOCATE : Z := 2 ^ 64 - 1.

Definition MAGIC_WRITE : list byte := bstr "KP2W".
Definition MAGIC_QUERY : list byte := bstr "KP2Q".
Definition MAGIC_READ : list byte := bstr "KP2R".
Definition MAGIC_ACK : list byte := bstr "KP2A".
Definition CHUNK_ID_DOMAIN : list byte := bstr "keinfs/chunk-id/v1".

(** ** Messages *)

Inductive LocationKindCode : Type :=
| KindNone
| KindExtent
| KindPackedContainer.

Global Instance LocationKindCode_eq_dec : EqDecision LocationKindCode.
Proof. solve_decision. Defined.

(** [self as u16] *)
Definition kind_code (k : LocationKindCode) : Z :=
  match k with
  | KindNone => 0
  | KindExtent => 1
  | KindPackedContainer => 2
  end.

(** [LocationKindCode::from_u16] *)
Definition from_u16 (value : Z) : io_result LocationKindCode :=
  if value =? 0 then Ok KindNone
  else if value =? 1 then Ok KindExtent
  else if value =? 2 then Ok KindPackedContainer
  else Err InvalidData.

(** [LocationKindCode::as_name] and [from_name] *)
Definition as_name (k : LocationKindCode) : list byte :=
  match k with
  | KindNone => bstr "none"
  | KindExtent => bstr "extent"
  | KindPackedContainer => bstr "packed-container"
  end.

Definition from_name (value : list byte) : io_result LocationKindCode :=
  if bool_decide (value = bstr "extent") then Ok KindExtent
  else if bool_decide (value = bstr "packed-container") then Ok KindPackedContainer
  else if bool_decide (value = bstr "none") then Ok KindNone
  else Err InvalidData.

Record WriteIdentity := mkWriteIdentity {
  object_id : Z;
  object_version : Z;
  stripe : Z;
  frag : Z;
}.

Record PackedWriteEntry := mkPackedWriteEntry {
  we_chunk_id : ChunkId;
  we_slot_index : Z;
  we_generation : Z;
  we_identity : WriteIdentity;
  we_payload : list byte;
}.

Record ChunkRange := mkChunkRange {
  range_offset : Z;
  range_length : Z;
}.

Record PackedReadQuery := mkPackedReadQuery {
  rq_chunk_ids : list ChunkId;
  rq_ranges : option (list ChunkRange);
}.

(** [PackedReadLocation]; [PackedWriteLocation] has the same fields. *)
Record PackedLocation := mkPackedLocation {
  pl_drive_id : Z;
  pl_location_kind : LocationKindCode;
  pl_physical_offset : Z;
  pl_logical_length : Z;
  pl_stored_length : Z;
  pl_generation : Z;
  pl_checksum : Z;
  pl_slot_index : Z;
}.

Record PackedReadEntry := mkPackedReadEntry {
  re_chunk_id : ChunkId;
  re_status_code : Z;
  re_location : option PackedLocation;
  re_payload : list byte;
}.

Record PackedWriteReplyEntry := mkPackedWriteReplyEntry {
  wr_chunk_id : ChunkId;
  wr_slot_index : Z;
  wr_requested_generation : Z;
  wr_status_code : Z;
  wr_location : option PackedLocation;
  wr_error : option (list byte);
}.

(** [PackedWriteReplyEntry::success] *)
Definition success (e : PackedWriteReplyEntry) : bool :=
  (200 <=? wr_status_code e) && (wr_status_code e <? 300).

(** ** Reading and writing integers *)

Definition read_field (n : Z) (body : list byte) (offset : Z) : io_result (list byte) :=
  end_ ← ok_or (checked_add 64 offset n) InvalidData;
  ok_or (slice offset (end_ - offset) body) InvalidData.

Definition read_chunk_id (body : list byte) (offset : Z) : io_result ChunkId :=
  read_field 32 body offset.

Definition read_u16 (body : list byte) (offset : Z) : io_result Z :=
  s ← read_field 2 body offset; Ok (of_le s).

Definition read_u32 (body : list byte) (offset : Z) : io_result Z :=
  s ← read_field 4 body offset; Ok (of_le s).

Definition read_u64 (body : list byte) (offset : Z) : io_result Z :=
  s ← read_field 8 body offset; Ok (of_le s).

Definition put_u16 (value : Z) : list byte := le_bytes 2 value.
Definition put_u32 (value : Z) : list byte := le_bytes 4 value.
Definition put_u64 (value : Z) : list byte := le_bytes 8 value.
Arguments put_u16 : simpl never.
Arguments put_u32 : simpl never.
Arguments put_u64 : simpl never.

(** ** Sizes *)

Definition body_too_large (bytes : Z) : io_result unit :=
  if MAX_PACK_PAYLOAD_BYTES <? bytes then Err InvalidInput else Ok tt.

Definition encoded_write_request_len (chunk_count total_payload_bytes : Z) : io_result Z :=
  _ ← body_too_large total_payload_bytes;
  entry_table_bytes ← ok_or (checked_mul 64 chunk_count WRITE_ENTRY_BYTES) InvalidInput;
  ok_or (bytes ← checked_add 64 COMMON_HEADER_BYTES entry_table_bytes;
         checked_add 64 bytes total_payload_bytes) InvalidInput.

Definition max_encoded_write_request_bytes (min_payload_bytes : Z) : io_result Z :=
  if min_payload_bytes =? 0 then Err InvalidInput
  else encoded_write_request_len (div_ceil MAX_PACK_PAYLOAD_BYTES min_payload_bytes)
         MAX_PACK_PAYLOAD_BYTES.

Definition sum_len (l : list (list byte)) : Z := len (concat l).

(** ** The common header *)

Record CommonHeader := mkCommonHeader {
  ch_flags : Z;
  ch_chunk_count : Z;
  ch_total_payload_bytes : Z;
  ch_entry_table_bytes : Z;
}.

Definition encode_common_header_with_flags (magic : list byte)
    (flags chunk_count total_payload_bytes entry_table_bytes : Z) : list byte :=
  magic ++ put_u16 VERSION ++ put_u16 flags ++ put_u32 chunk_count ++
  put_u32 total_payload_bytes ++ put_u32 entry_table_bytes ++ put_u32 0.

Definition encode_common_header (magic : list byte)
    (chunk_count total_payload_bytes entry_table_bytes : Z) : list byte :=
  encode_common_header_with_flags magic 0 chunk_count total_payload_bytes entry_table_bytes.

Definition decode_common_header_with_flags (body expected_magic : list byte)
    (allowed_flags : Z) : io_result CommonHeader :=
  if len body <? COMMON_HEADER_BYTES then Err InvalidData
  else if negb (bool_decide (slice 0 4 body = Some expected_magic)) then Err InvalidData
  else
    version ← read_u16 body 4;
    if negb (version =? VERSION) then Err InvalidInput
    else
      flags ← read_u16 body 6;
      if negb (Z.land flags (2 ^ 16 - 1 - allowed_flags) =? 0) then Err InvalidData
      else
        chunk_count ← read_u32 body 8;
        if chunk_count =? 0 then Err InvalidInput
        else
          total_payload_bytes ← read_u32 body 12;
          _ ← body_too_large total_payload_bytes;
          entry_table_bytes ← read_u32 body 16;
          reserved ← read_u32 body 20;
          if negb (reserved =? 0) then Err InvalidData
          else Ok (mkCommonHeader flags chunk_count total_payload_bytes entry_table_bytes).

Definition decode_common_header (body expected_magic : list byte) : io_result CommonHeader :=
  decode_common_header_with_flags body expected_magic 0.

(** ** Packed write request *)

(** One entry of the descriptor table. *)
Definition encode_write_entry (e : PackedWriteEntry) : list byte :=
  we_chunk_id e ++ put_u64 (we_slot_index e) ++ put_u32 (we_generation e) ++
  put_u32 (wrap 32 (len (we_payload e))) ++ put_u32 (object_id (we_identity e)) ++
  put_u16 (object_version (we_identity e)) ++ put_u16 (stripe (we_identity e)) ++
  put_u16 (frag (we_identity e)).

(** [u32::try_from(entry.payload.len())] for each entry, in table order. *)
Definition encode_write_entries (entries : list PackedWriteEntry) : io_result (list byte) :=
  try_fold (fun out e =>
    if 2 ^ 32 <=? len (we_payload e) then Err InvalidInput
    else Ok (out ++ encode_write_entry e)) [] entries.

Definition encode_write_request_header (entries : list PackedWriteEntry) :
    io_result (list byte) :=
  if bool_decide (entries = []) then Err InvalidInput
  else
    let total_payload_bytes := sum_len (we_payload <$> entries) in
    _ ← body_too_large total_payload_bytes;
    let entry_table_bytes := len entries * WRITE_ENTRY_BYTES in
    table ← encode_write_entries entries;
    Ok (encode_common_header MAGIC_WRITE (wrap 32 (len entries))
          (wrap 32 total_payload_bytes) (wrap 32 entry_table_bytes) ++ table).

Definition encode_write_request (entries : list PackedWriteEntry) : io_result (list byte) :=
  let total_payload_bytes := sum_len (we_payload <$> entries) in
  _ ← encoded_write_request_len (len entries) total_payload_bytes;
  out ← encode_write_request_header entries;
  Ok (out ++ concat (we_payload <$> entries)).

(** The body of the decoder's loop for one [index]: the entry and the next payload
    cursor. *)
Definition decode_write_entry (body : list byte) (index payload_cursor : Z) :
    io_result (PackedWriteEntry * Z) :=
  let base := COMMON_HEADER_BYTES + index * WRITE_ENTRY_BYTES in
  chunk_id ← read_chunk_id body base;
  slot_index ← read_u64 body (base + 32);
  generation ← read_u32 body (base + 40);
  payload_bytes ← read_u32 body (base + 44);
  object_id ← read_u32 body (base + 48);
  object_version ← read_u16 body (base + 52);
  stripe ← read_u16 body (base + 54);
  frag ← read_u16 body (base + 56);
  payload_end ← ok_or (checked_add 64 payload_cursor payload_bytes) InvalidData;
  payload ← ok_or (slice payload_cursor payload_bytes body) InvalidData;
  Ok (mkPackedWriteEntry chunk_id slot_index generation
        (mkWriteIdentity object_id object_version stripe frag) payload, payload_end).

(** [for index in 0..chunk_count], [n] iterations left. *)
Fixpoint decode_entries {A : Type} (decode_entry : Z → Z → io_result (A * Z))
    (n : nat) (index cursor : Z) : io_result (list A * Z) :=
  match n with
  | O => Ok ([], cursor)
  | S n' =>
      e ← decode_entry index cursor;
      rest ← decode_entries decode_entry n' (index + 1) e.2;
      Ok (e.1 :: rest.1, rest.2)
  end.

(** The three decoders that carry payload runs share the checks around the loop. *)
Definition decode_packed {A : Type} (body magic : list byte) (entry_bytes : Z)
    (decode_entry : Z → Z → io_result (A * Z)) : io_result (list A) :=
  header ← decode_common_header body magic;
  let entry_table_bytes := ch_entry_table_bytes header in
  if negb (entry_table_bytes =? ch_chunk_count header * entry_bytes) then Err InvalidData
  else
    let payload_region_offset := COMMON_HEADER_BYTES + entry_table_bytes in
    if len body <? payload_region_offset then Err InvalidData
    else
      r ← decode_entries decode_entry (Z.to_nat (ch_chunk_count header)) 0
            payload_region_offset;
      if negb (r.2 - payload_region_offset =? ch_total_payload_bytes header)
      then Err InvalidData
      else if negb (r.2 =? len body) then Err InvalidData
      else Ok r.1.

Definition decode_write_request (body : list byte) : io_result (list PackedWriteEntry) :=
  decode_packed body MAGIC_WRITE WRITE_ENTRY_BYTES (decode_write_entry body).

(** ** Packed read query *)

Definition encode_range (r : ChunkRange) : list byte :=
  put_u64 (range_offset r) ++ put_u32 (range_length r) ++ put_u32 0.

Definition encode_read_query (query : PackedReadQuery) : io_result (list byte) :=
  if bool_decide (rq_chunk_ids query = []) then Err InvalidInput
  else
    ranged ← match rq_ranges query with
             | Some ranges =>
                 if negb (len ranges =? len (rq_chunk_ids query)) then Err InvalidInput
                 else Ok true
             | None => Ok false
             end;
    let entry_bytes := if (ranged : bool) then QUERY_ENTRY_RANGED_BYTES else QUERY_ENTRY_BYTES in
    entry_table_bytes ← ok_or (checked_mul 64 (len (rq_chunk_ids query)) entry_bytes) InvalidInput;
    let flags := if (ranged : bool) then FLAG_QUERY_RANGED else 0 in
    Ok (encode_common_header_with_flags MAGIC_QUERY flags
          (wrap 32 (len (rq_chunk_ids query))) 0 (wrap 32 entry_table_bytes) ++
        match rq_ranges query with
        | Some ranges =>
            concat (zip_with (fun c r => c ++ encode_range r) (rq_chunk_ids query) ranges)
        | None => concat (rq_chunk_ids query)
        end).

(** The loop body: the chunk id and, for a ranged query, its range. *)
Definition decode_query_entry (body : list byte) (ranged : bool) (entry_bytes index : Z) :
    io_result (ChunkId * option ChunkRange) :=
  let base := COMMON_HEADER_BYTES + index * entry_bytes in
  chunk_id ← read_chunk_id body base;
  if ranged then
    offset ← read_u64 body (base + 32);
    length_ ← read_u32 body (base + 40);
    Ok (chunk_id, Some (mkChunkRange offset length_))
  else Ok (chunk_id, None).

Definition decode_read_query (body : list byte) : io_result PackedReadQuery :=
  header ← decode_common_header_with_flags body MAGIC_QUERY FLAG_QUERY_RANGED;
  let ranged := negb (Z.land (ch_flags header) FLAG_QUERY_RANGED =? 0) in
  let entry_bytes := if ranged then QUERY_ENTRY_RANGED_BYTES else QUERY_ENTRY_BYTES in
  let entry_table_bytes := ch_entry_table_bytes header in
  if negb (entry_table_bytes =? ch_chunk_count header * entry_bytes) then Err InvalidData
  else if negb (len body =? COMMON_HEADER_BYTES + entry_table_bytes) then Err InvalidData
  else
    r ← decode_entries
          (fun index cursor =>
             e ← decode_query_entry body ranged entry_bytes index; Ok (e, cursor))
          (Z.to_nat (ch_chunk_count header)) 0 0;
    Ok (mkPackedReadQuery (fst <$> r.1)
          (if ranged then Some (omap snd r.1) else None)).

(** ** Packed read response *)

(** The location block of a descriptor: the fields from [location_kind] to
    [slot_index]; [none_slot] is what stands in the slot field without a location. *)
Definition encode_location (location : option PackedLocation) (none_slot : Z) : list byte :=
  match location with
  | Some l =>
      put_u16 (kind_code (pl_location_kind l)) ++ put_u16 (pl_drive_id l) ++ put_u16 0 ++
      put_u64 (pl_physical_offset l) ++ put_u32 (pl_logical_length l) ++
      put_u32 (pl_stored_length l) ++ put_u32 (pl_generation l) ++
      put_u32 (pl_checksum l) ++ put_u64 (pl_slot_index l)
  | None =>
      put_u16 (kind_code KindNone) ++ put_u16 0 ++ put_u16 0 ++ put_u64 0 ++ put_u32 0 ++
      put_u32 0 ++ put_u32 0 ++ put_u32 0 ++ put_u64 none_slot
  end.

Definition encode_read_entry (e : PackedReadEntry) : list byte :=
  re_chunk_id e ++ put_u16 (re_status_code e) ++ encode_location (re_location e) 0 ++
  put_u32 (wrap 32 (len (re_payload e))) ++ put_u32 0.

Definition encode_read_response (entries : list PackedReadEntry) : io_result (list byte) :=
  if bool_decide (entries = []) then Err InvalidInput
  else
    let total_payload_bytes := sum_len (re_payload <$> entries) in
    _ ← body_too_large total_payload_bytes;
    entry_table_bytes ← ok_or (checked_mul 64 (len entries) READ_ENTRY_BYTES) InvalidInput;
    Ok (encode_common_header MAGIC_READ (wrap 32 (len entries))
          (wrap 32 total_payload_bytes) (wrap 32 entry_table_bytes) ++
        concat (encode_read_entry <$> entries) ++ concat (re_payload <$> entries)).

(** The location block read back, with the slot field that the write reply also uses
    on its own. *)
Definition decode_location (body : list byte) (base : Z) :
    io_result (option PackedLocation * Z) :=
  kind ← read_u16 body (base + 34);
  location_kind ← from_u16 kind;
  drive_id ← read_u16 body (base + 36);
  reserved ← read_u16 body (base + 38);
  if negb (reserved =? 0) then Err InvalidData
  else
    physical_offset ← read_u64 body (base + 40);
    logical_length ← read_u32 body (base + 48);
    stored_length ← read_u32 body (base + 52);
    generation ← read_u32 body (base + 56);
    checksum ← read_u32 body (base + 60);
    slot_index ← read_u64 body (base + 64);
    Ok (if bool_decide (location_kind = KindNone) then None
        else Some (mkPackedLocation drive_id location_kind physical_offset logical_length
                     stored_length generation checksum slot_index), slot_index).

Definition decode_read_entry (body : list byte) (index payload_cursor : Z) :
    io_result (PackedReadEntry * Z) :=
  let base := COMMON_HEADER_BYTES + index * READ_ENTRY_BYTES in
  chunk_id ← read_chunk_id body base;
  status_code ← read_u16 body (base + 32);
  location ← decode_location body base;
  payload_bytes ← read_u32 body (base + 72);
  reserved_2 ← read_u32 body (base + 76);
  if negb (reserved_2 =? 0) then Err InvalidData
  else
    payload_end ← ok_or (checked_add 64 payload_cursor payload_bytes) InvalidData;
    payload ← ok_or (slice payload_cursor payload_bytes body) InvalidData;
    Ok (mkPackedReadEntry chunk_id status_code location.1 payload, payload_end).

Definition decode_read_response (body : list byte) : io_result (list PackedReadEntry) :=
  decode_packed body MAGIC_READ READ_ENTRY_BYTES (decode_read_entry body).

(** ** Packed write reply *)

Definition error_bytes_of (e : PackedWriteReplyEntry) : list byte := default [] (wr_error e).

Definition encode_ack_entry (e : PackedWriteReplyEntry) : list byte :=
  wr_chunk_id e ++ put_u16 (wr_status_code e) ++
  encode_location (wr_location e) (wr_slot_index e) ++
  put_u32 (wr_requested_generation e) ++ put_u32 (wrap 32 (len (error_bytes_of e))).

Definition encode_write_reply (entries : list PackedWriteReplyEntry) : io_result (list byte) :=
  if bool_decide (entries = []) then Err InvalidInput
  else
    let total_error_bytes := sum_len (error_bytes_of <$> entries) in
    _ ← body_too_large total_error_bytes;
    entry_table_bytes ← ok_or (checked_mul 64 (len entries) ACK_ENTRY_BYTES) InvalidInput;
    Ok (encode_common_header MAGIC_ACK (wrap 32 (len entries))
          (wrap 32 total_error_bytes) (wrap 32 entry_table_bytes) ++
        concat (encode_ack_entry <$> entries) ++ concat (error_bytes_of <$> entries)).

Definition decode_ack_entry (body : list byte) (index error_cursor : Z) :
    io_result (PackedWriteReplyEntry * Z) :=
  let base := COMMON_HEADER_BYTES + index * ACK_ENTRY_BYTES in
  chunk_id ← read_chunk_id body base;
  status_code ← read_u16 body (base + 32);
  location ← decode_location body base;
  requested_generation ← read_u32 body (base + 72);
  error_bytes ← read_u32 body (base + 76);
  error_end ← ok_or (checked_add 64 error_cursor error_bytes) InvalidData;
  text ← ok_or (slice error_cursor error_bytes body) InvalidData;
  error ← if error_bytes =? 0 then Ok None
          else if utf8_valid text then Ok (Some text) else Err InvalidData;
  Ok (mkPackedWriteReplyEntry chunk_id location.2 requested_generation status_code
        location.1 error, error_end).

Definition decode_write_reply (body : list byte) : io_result (list PackedWriteReplyEntry) :=
  decode_packed body MAGIC_ACK ACK_ENTRY_BYTES (decode_ack_entry body).

(** ** Computed chunk ids *)

(** The bytes hashed by [ChunkId::for_fragment]. *)
Definition chunk_id_preimage (cluster_salt : list byte)
    (object_id object_version stripe frag : Z) : list byte :=
  CHUNK_ID_DOMAIN ++ le_bytes 4 (wrap 32 (len cluster_salt)) ++ cluster_salt ++
  le_bytes 4 object_id ++ le_bytes 2 object_version ++ le_bytes 2 stripe ++ le_bytes 2 frag.

Definition for_fragment (sha256 : list byte → list byte) (cluster_salt : list byte)
    (object_id object_version stripe frag : Z) : ChunkId :=
  sha256 (chunk_id_preimage cluster_salt object_id object_version stripe frag).

Definition for_identity (sha256 : list byte → list byte) (cluster_salt : list byte)
    (identity : WriteIdentity) : ChunkId :=
  for_fragment sha256 cluster_salt (object_id identity) (object_version identity)
    (stripe identity) (frag identity).

(** ** Field reads *)

Lemma read_field_eq n body offset :
  len body < 2 ^ 64 → 0 ≤ offset → 0 ≤ n →
  read_field n body offset = ok_or (slice offset n body) InvalidData.
Proof.
  intros. unfold read_field, checked_add.
  destruct (Z.ltb_spec (offset + n) (2 ^ 64)); cbn.
  - by replace (offset + n - offset) with n by lia.
  - by rewrite slice_None by lia.
Qed.

Lemma read_chunk_id_iff body offset c :
  len body < 2 ^ 64 → 0 ≤ offset →
  read_chunk_id body offset = Ok c ↔ slice offset 32 body = Some c.
Proof. intros. unfold read_chunk_id. rewrite read_field_eq by lia. apply ok_or_Ok. Qed.

Lemma read_le_iff (n : nat) body offset z :
  len body < 2 ^ 64 → 0 ≤ offset →
  (s ← read_field (Z.of_nat n) body offset; Ok (of_le s)) = Ok z ↔
  slice offset (Z.of_nat n) body = Some (le_bytes n z) ∧ fits (8 * Z.of_nat n) z.
Proof.
  intros. rewrite read_field_eq by lia. rewrite <-get_le_iff. unfold get_le.
  destruct (slice _ _ _); cbn; split; congruence.
Qed.

Lemma read_u16_iff body offset z :
  len body < 2 ^ 64 → 0 ≤ offset →
  read_u16 body offset = Ok z ↔ slice offset 2 body = Some (put_u16 z) ∧ is_u16 z.
Proof. apply (read_le_iff 2). Qed.

Lemma read_u32_iff body offset z :
  len body < 2 ^ 64 → 0 ≤ offset →
  read_u32 body offset = Ok z ↔ slice offset 4 body = Some (put_u32 z) ∧ is_u32 z.
Proof. apply (read_le_iff 4). Qed.

Lemma read_u64_iff body offset z :
  len body < 2 ^ 64 → 0 ≤ offset →
  read_u64 body offset = Ok z ↔ slice offset 8 body = Some (put_u64 z) ∧ is_u64 z.
Proof. apply (read_le_iff 8). Qed.

Lemma length_put_u16 z : length (put_u16 z) = 2%nat.
Proof. reflexivity. Qed.
Lemma length_put_u32 z : length (put_u32 z) = 4%nat.
Proof. reflexivity. Qed.
Lemma length_put_u64 z : length (put_u64 z) = 8%nat.
Proof. reflexivity. Qed.
#[export] Hint Rewrite length_put_u16 length_put_u32 length_put_u64 : len.

Definition header_wf (h : CommonHeader) (allowed_flags : Z) : Prop :=
  is_u16 (ch_flags h) ∧ Z.land (ch_flags h) (2 ^ 16 - 1 - allowed_flags) = 0 ∧
  is_u32 (ch_chunk_count h) ∧ ch_chunk_count h ≠ 0 ∧
  0 ≤ ch_total_payload_bytes h ≤ MAX_PACK_PAYLOAD_BYTES ∧ is_u32 (ch_entry_table_bytes h).

Definition header_bytes (magic : list byte) (h : CommonHeader) : list byte :=
  encode_common_header_with_flags magic (ch_flags h) (ch_chunk_count h)
    (ch_total_payload_bytes h) (ch_entry_table_bytes h).

Lemma body_too_large_Ok n u : body_too_large n = Ok u ↔ n ≤ MAX_PACK_PAYLOAD_BYTES.
Proof.
  unfold body_too_large. destruct u.
  destruct (Z.ltb_spec MAX_PACK_PAYLOAD_BYTES n); split; (done || lia).
Qed.

Lemma header_bytes_slices magic h body :
  len magic = 4 →
  slice 0 24 body = Some (header_bytes magic h) ↔
  slice 0 4 body = Some magic ∧ slice 4 2 body = Some (put_u16 VERSION) ∧
  slice 6 2 body = Some (put_u16 (ch_flags h)) ∧
  slice 8 4 body = Some (put_u32 (ch_chunk_count h)) ∧
  slice 12 4 body = Some (put_u32 (ch_total_payload_bytes h)) ∧
  slice 16 4 body = Some (put_u32 (ch_entry_table_bytes h)) ∧
  slice 20 4 body = Some (put_u32 0).
Proof.
  intros Hm. change 24 with (4 + (2 + (2 + (4 + (4 + (4 + 4)))))).
  unfold header_bytes, encode_common_header_with_flags. split_fields. done.
Qed.

Lemma decode_common_header_iff body magic allowed h :
  len magic = 4 → len body < 2 ^ 64 →
  decode_common_header_with_flags body magic allowed = Ok h ↔
  slice 0 24 body = Some (header_bytes magic h) ∧ header_wf h allowed.
Proof.
  intros Hm Hb. rewrite header_bytes_slices by done.
  unfold decode_common_header_with_flags, header_wf. split.
  - intros H. destruct (Z.ltb_spec (len body) COMMON_HEADER_BYTES); [done|].
    case_bool_decide as Hmag; cbn in H; [|done].
    apply result_bind_Ok in H as (v & [Hv _]%read_u16_iff & H); [|done|lia].
    destruct (Z.eqb_spec v VERSION) as [->|]; cbn in H; [|done].
    apply result_bind_Ok in H as (fl & [Hfl Rfl]%read_u16_iff & H); [|done|lia].
    destruct (Z.eqb_spec (Z.land fl (2 ^ 16 - 1 - allowed)) 0); cbn in H; [|done].
    apply result_bind_Ok in H as (cc & [Hcc Rcc]%read_u32_iff & H); [|done|lia].
    destruct (Z.eqb_spec cc 0); [done|].
    apply result_bind_Ok in H as (tp & [Htp Rtp]%read_u32_iff & H); [|done|lia].
    apply result_bind_Ok in H as (u & Hu%body_too_large_Ok & H).
    apply result_bind_Ok in H as (et & [Het Ret]%read_u32_iff & H); [|done|lia].
    apply result_bind_Ok in H as (rs & [Hrs Rrs]%read_u32_iff & H); [|done|lia].
    destruct (Z.eqb_spec rs 0) as [->|]; cbn in H; [|done].
    injection H as <-; cbn. unfold fits in *. intuition lia.
  - intros ((Hmag & Hv & Hfl & Hcc & Htp & Het & Hrs) & Rfl & Hland & Rcc & Hcc0 & Rtp & Ret).
    pose proof Hrs as (_ & _ & Hlen & _)%slice_Some.
    destruct (Z.ltb_spec (len body) COMMON_HEADER_BYTES) as [Hlt|_];
      [unfold COMMON_HEADER_BYTES in Hlt; lia|].
    rewrite bool_decide_eq_true_2 by done. cbn [negb].
    assert (read_u16 body 4 = Ok VERSION) as ->
      by (apply read_u16_iff; [done|lia|split; [done|unfold VERSION, fits; lia]]).
    assert (read_u16 body 6 = Ok (ch_flags h)) as -> by (apply read_u16_iff; [done|lia|done]).
    assert (read_u32 body 8 = Ok (ch_chunk_count h)) as -> by (apply read_u32_iff; [done|lia|done]).
    assert (read_u32 body 12 = Ok (ch_total_payload_bytes h)) as ->
      by (apply read_u32_iff; [done|lia|split; [done|unfold fits, MAX_PACK_PAYLOAD_BYTES in *; lia]]).
    assert (read_u32 body 16 = Ok (ch_entry_table_bytes h)) as -> by (apply read_u32_iff; [done|lia|done]).
    assert (read_u32 body 20 = Ok 0) as -> by (apply read_u32_iff; [done|lia|split; [done|unfold fits; lia]]).
    rewrite !result_bind_eq. cbn [Z.eqb]. rewrite Hland. cbn.
    destruct (Z.eqb_spec (ch_chunk_count h) 0); [done|].
    assert (body_too_large (ch_total_payload_bytes h) = Ok tt) as -> by (apply body_too_large_Ok; lia).
    by destruct h.
Qed.

(** ** Messages with a descriptor table and payload runs *)

Lemma sum_len_cons a l : sum_len (a :: l) = len a + sum_len l.
Proof. unfold sum_len. cbn. rewrite length_app. lia. Qed.

Lemma sum_len_nonneg l : 0 ≤ sum_len l.
Proof. unfold sum_len. lia. Qed.

Lemma concat_const_len {A : Type} (f : A → list byte) (l : list A) k :
  (∀ x, x ∈ l → len (f x) = k) → len (concat (f <$> l)) = len l * k.
Proof.
  induction l as [|x l IH]; intros H; cbn; [lia|].
  rewrite length_app. rewrite Nat2Z.inj_add, IH by (intros; apply H; by apply list_elem_of_further).
  rewrite H by apply list_elem_of_here. lia.
Qed.

Section packed_codec.
Context {A : Type} (body : list byte) (K : Z) (enc pay : A → list byte) (wf : A → Prop).
Context (dec : Z → Z → io_result (A * Z)).
Context (K_pos : 0 < K) (enc_len : ∀ e, wf e → len (enc e) = K).

Definition entry_complete : Prop := ∀ index cursor e,
  0 ≤ index → 0 ≤ cursor → wf e →
  slice (COMMON_HEADER_BYTES + index * K) K body = Some (enc e) →
  slice cursor (len (pay e)) body = Some (pay e) →
  dec index cursor = Ok (e, cursor + len (pay e)).

Definition entry_sound : Prop := ∀ index cursor e cursor',
  0 ≤ index → 0 ≤ cursor → dec index cursor = Ok (e, cursor') →
  wf e ∧ slice (COMMON_HEADER_BYTES + index * K) K body = Some (enc e) ∧
  slice cursor (len (pay e)) body = Some (pay e) ∧ cursor' = cursor + len (pay e).

Lemma enc_concat_len es : Forall wf es → len (concat (enc <$> es)) = len es * K.
Proof. intros H. apply concat_const_len. intros x Hx. apply enc_len. by eapply Forall_forall in H. Qed.

Lemma decode_entries_complete es : entry_complete → ∀ index cursor,
  0 ≤ index → 0 ≤ cursor → Forall wf es →
  slice (COMMON_HEADER_BYTES + index * K) (len es * K) body = Some (concat (enc <$> es)) →
  slice cursor (sum_len (pay <$> es)) body = Some (concat (pay <$> es)) →
  decode_entries dec (length es) index cursor = Ok (es, cursor + sum_len (pay <$> es)).
Proof.
  intros Hdec. induction es as [|e es IH]; intros index cursor Hi Hc Hwf Ht Hp.
  - cbn. do 2 f_equal. unfold sum_len. cbn. lia.
  - apply Forall_cons in Hwf as [Hwe Hwf]. cbn [length fmap list_fmap] in *.
    rewrite sum_len_cons in *. cbn [concat] in *.
    replace (Z.of_nat (S (length es)) * K) with (K + len es * K) in Ht by lia.
    pose proof (sum_len_nonneg (pay <$> es)).
    apply slice_app_iff in Ht as [Ht1 Ht2]; [|by apply enc_len|lia].
    apply slice_app_iff in Hp as [Hp1 Hp2]; [|lia..].
    cbn [decode_entries]. rewrite (Hdec index cursor e) by done. rewrite result_bind_eq. cbn [fst snd].
    rewrite (IH (index + 1) (cursor + len (pay e))); [|lia|lia|done| |done].
    + cbn. by rewrite Z.add_assoc.
    + rewrite <-Ht2. f_equal. lia.
Qed.

Lemma decode_entries_sound n : entry_sound → ∀ index cursor es cursor',
  0 ≤ index → 0 ≤ cursor →
  COMMON_HEADER_BYTES + (index + Z.of_nat n) * K ≤ len body → cursor ≤ len body →
  decode_entries dec n index cursor = Ok (es, cursor') →
  length es = n ∧ Forall wf es ∧
  slice (COMMON_HEADER_BYTES + index * K) (len es * K) body = Some (concat (enc <$> es)) ∧
  slice cursor (sum_len (pay <$> es)) body = Some (concat (pay <$> es)) ∧
  cursor' = cursor + sum_len (pay <$> es).
Proof.
  intros Hdec. induction n as [|n IH]; intros index cursor es cursor' Hi Hc Hb Hcb H.
  - cbn in H. injection H as <- <-. cbn. split_and!; [done|done| | |unfold sum_len; cbn; lia].
    + apply slice_nil. unfold COMMON_HEADER_BYTES in *. lia.
    + apply slice_nil. lia.
  - cbn [decode_entries] in H. apply result_bind_Ok in H as ([e c1] & He & H).
    apply result_bind_Ok in H as ([rest c2] & Hrest & H). cbn in H, Hrest. injection H as <- <-.
    apply Hdec in He as (Hwe & Hs & Hp & ->); [|lia..].
    pose proof Hp as (_ & _ & ? & _)%slice_Some.
    apply IH in Hrest as (<- & Hwf & Hs2 & Hp2 & ->); [|lia..].
    cbn [length fmap list_fmap concat]. rewrite sum_len_cons.
    pose proof (sum_len_nonneg (pay <$> rest)).
    split_and!; [done|by constructor| | |lia].
    + replace (Z.of_nat (S (length rest)) * K) with (K + len rest * K) by lia.
      apply slice_app_iff; [by apply enc_len|lia|]. split; [done|].
      rewrite <-Hs2. f_equal. lia.
    + apply slice_app_iff; [lia..|]. done.
Qed.

(** The encoded message: header, descriptor table, payload runs. *)
Definition packed_bytes (magic : list byte) (es : list A) : list byte :=
  encode_common_header magic (len es) (sum_len (pay <$> es)) (len es * K) ++
  concat (enc <$> es) ++ concat (pay <$> es).

Definition packed_wf (es : list A) : Prop :=
  es ≠ [] ∧ Forall wf es ∧ len es * K < 2 ^ 32 ∧
  sum_len (pay <$> es) ≤ MAX_PACK_PAYLOAD_BYTES.

Lemma packed_header_wf es :
  packed_wf es →
  header_wf (mkCommonHeader 0 (len es) (sum_len (pay <$> es)) (len es * K)) 0.
Proof.
  intros (Hne & _ & Hk & Hp). unfold header_wf, fits. cbn [ch_flags ch_chunk_count ch_total_payload_bytes ch_entry_table_bytes].
  pose proof (sum_len_nonneg (pay <$> es)). destruct es as [|e es]; [done|].
  cbn [length] in *. split_and!; (done || lia || nia).
Qed.

Lemma header_len magic f c t e :
  len magic = 4 → len (encode_common_header_with_flags magic f c t e) = 24.
Proof. intros. unfold encode_common_header_with_flags. autorewrite with len. lia. Qed.

Lemma decode_packed_complete magic es :
  entry_complete → len magic = 4 → packed_wf es → body = packed_bytes magic es →
  decode_packed body magic K dec = Ok es.
Proof.
  intros Hdec Hm Hwf Hbody. pose proof (packed_header_wf _ Hwf) as Hh.
  destruct Hwf as (Hne & Hwf & HK & Hp).
  pose proof (enc_concat_len _ Hwf) as Htl. pose proof (sum_len_nonneg (pay <$> es)).
  assert (len body = 24 + len es * K + sum_len (pay <$> es)) as Hlen.
  { rewrite Hbody. unfold packed_bytes, encode_common_header. rewrite !length_app.
    pose proof (header_len magic 0 (len es) (sum_len (pay <$> es)) (len es * K) Hm). unfold sum_len in *. lia. }
  set (h := mkCommonHeader 0 (len es) (sum_len (pay <$> es)) (len es * K)) in *.
  assert (decode_common_header body magic = Ok h) as Hd.
  { unfold MAX_PACK_PAYLOAD_BYTES in *. apply decode_common_header_iff; [done|lia|]. split; [|done].
    rewrite Hbody. unfold packed_bytes. apply slice_0_app. by apply header_len. }
  unfold decode_packed. rewrite Hd, result_bind_eq. cbn [ch_chunk_count ch_entry_table_bytes ch_total_payload_bytes h].
  rewrite Z.eqb_refl. cbn [negb].
  destruct (Z.ltb_spec (len body) (COMMON_HEADER_BYTES + len es * K)); [unfold COMMON_HEADER_BYTES in *; lia|].
  rewrite Nat2Z.id.
  pose proof (header_len magic 0 (len es) (sum_len (pay <$> es)) (len es * K) Hm) as Hhl.
  rewrite (decode_entries_complete es Hdec 0); [|lia|unfold COMMON_HEADER_BYTES; lia|done| |].
  - rewrite result_bind_eq. cbn [fst snd].
    replace (_ - _) with (sum_len (pay <$> es)) by lia. rewrite Z.eqb_refl. cbn [negb].
    rewrite Hlen. unfold COMMON_HEADER_BYTES. rewrite Z.eqb_refl. done.
  - rewrite Hbody. unfold packed_bytes, encode_common_header, COMMON_HEADER_BYTES.
    rewrite slice_app_r by lia. rewrite Hhl. apply slice_0_app. done.
  - rewrite Hbody. unfold packed_bytes, encode_common_header, COMMON_HEADER_BYTES.
    rewrite slice_app_r by lia. rewrite slice_app_r by lia. rewrite Hhl, Htl.
    replace (_ - _ - _) with 0 by lia. by apply slice_full.
Qed.

Lemma decode_packed_sound magic es :
  entry_sound → len magic = 4 → len body < 2 ^ 64 →
  decode_packed body magic K dec = Ok es → packed_wf es ∧ body = packed_bytes magic es.
Proof.
  intros Hdec Hm Hb H. unfold decode_packed in H.
  apply result_bind_Ok in H as (h & Hh & H).
  apply decode_common_header_iff in Hh as [Hs (Rf & Hf & Rc & Hc0 & Rt & Re)]; [|done..].
  destruct (Z.eqb_spec (ch_entry_table_bytes h) (ch_chunk_count h * K)) as [He|]; cbn in H; [|done].
  destruct (Z.ltb_spec (len body) (COMMON_HEADER_BYTES + ch_entry_table_bytes h)); [done|].
  apply result_bind_Ok in H as ([es' c'] & Hes & H). cbn [fst snd] in H.
  unfold fits in *.
  apply decode_entries_sound in Hes as (Hn & Hwf & Ht & Hp & ->);
    [|done|lia|unfold COMMON_HEADER_BYTES; lia|rewrite Z2Nat.id by lia; unfold COMMON_HEADER_BYTES in *; lia|lia].
  destruct (Z.eqb_spec (COMMON_HEADER_BYTES + ch_entry_table_bytes h + sum_len (pay <$> es')
              - (COMMON_HEADER_BYTES + ch_entry_table_bytes h)) (ch_total_payload_bytes h)) as [Htot|]; cbn in H; [|done].
  destruct (Z.eqb_spec (COMMON_HEADER_BYTES + ch_entry_table_bytes h + sum_len (pay <$> es')) (len body)) as [Hend|]; cbn in H; [|done].
  injection H as <-.
  assert (ch_chunk_count h = len es') as Hcc by lia.
  assert (ch_total_payload_bytes h = sum_len (pay <$> es')) as Htp by lia.
  assert (ch_flags h = 0) as Hfl.
  { change (2 ^ 16 - 1 - 0) with (Z.ones 16) in Hf. rewrite Z.land_ones, Z.mod_small in Hf; lia. }
  split.
  - unfold packed_wf. split_and!; [|done|lia|lia]. destruct es'; [cbn in Hcc; lia|done].
  - unfold packed_bytes, encode_common_header.
    unfold header_bytes in Hs. rewrite He, Htp, Hfl, Hcc in Hs. rewrite He, Hcc in Hp, Hend.
    unfold COMMON_HEADER_BYTES in *.
    assert (slice 0 (24 + (len es' * K + sum_len (pay <$> es'))) body =
      Some (encode_common_header_with_flags magic 0 (len es') (sum_len (pay <$> es')) (len es' * K) ++
            concat (enc <$> es') ++ concat (pay <$> es'))) as Hall.
    { pose proof (sum_len_nonneg (pay <$> es')).
      apply slice_app_iff; [by apply header_len|lia|]. split; [done|].
      apply slice_app_iff; [by apply enc_concat_len|lia|]. rewrite Z.add_0_l.
      rewrite Z.mul_0_l, Z.add_0_r in Ht. done. }
    rewrite slice_full in Hall by lia. by injection Hall.
Qed.
End packed_codec.

(** ** The write request *)

Definition identity_wf (i : WriteIdentity) : Prop :=
  is_u32 (object_id i) ∧ is_u16 (object_version i) ∧ is_u16 (stripe i) ∧ is_u16 (frag i).

Definition write_entry_wf (e : PackedWriteEntry) : Prop :=
  chunk_id_wf (we_chunk_id e) ∧ is_u64 (we_slot_index e) ∧ is_u32 (we_generation e) ∧
  identity_wf (we_identity e) ∧ is_u32 (len (we_payload e)).

Lemma encode_write_entry_len e : write_entry_wf e → len (encode_write_entry e) = WRITE_ENTRY_BYTES.
Proof.
  intros (Hc & _). unfold chunk_id_wf, encode_write_entry, WRITE_ENTRY_BYTES in *.
  autorewrite with len. lia.
Qed.

Lemma encode_write_entry_slices body base e :
  write_entry_wf e →
  slice base WRITE_ENTRY_BYTES body = Some (encode_write_entry e) ↔
  slice base 32 body = Some (we_chunk_id e) ∧
  slice (base + 32) 8 body = Some (put_u64 (we_slot_index e)) ∧
  slice (base + 40) 4 body = Some (put_u32 (we_generation e)) ∧
  slice (base + 44) 4 body = Some (put_u32 (len (we_payload e))) ∧
  slice (base + 48) 4 body = Some (put_u32 (object_id (we_identity e))) ∧
  slice (base + 52) 2 body = Some (put_u16 (object_version (we_identity e))) ∧
  slice (base + 54) 2 body = Some (put_u16 (stripe (we_identity e))) ∧
  slice (base + 56) 2 body = Some (put_u16 (frag (we_identity e))).
Proof.
  intros (Hc & _ & _ & _ & Hp). unfold chunk_id_wf in Hc.
  change WRITE_ENTRY_BYTES with (32 + (8 + (4 + (4 + (4 + (2 + (2 + 2))))))).
  unfold encode_write_entry. rewrite wrap_small by done. split_fields. done.
Qed.

(** Runs the field reads of a decoder whose segments are known. *)
Ltac read_fields :=
  repeat match goal with
  | |- context [read_chunk_id ?b ?o] =>
      let H := fresh in
      eassert (read_chunk_id b o = Ok _) as H by (apply read_chunk_id_iff; [lia|lia|eassumption]);
      rewrite H, result_bind_eq; clear H
  | |- context [read_u16 ?b ?o] =>
      let H := fresh in
      eassert (read_u16 b o = Ok _) as H
        by (apply read_u16_iff; [lia|lia|split; [eassumption|try done; unfold fits in *; lia]]);
      rewrite H, result_bind_eq; clear H
  | |- context [read_u32 ?b ?o] =>
      let H := fresh in
      eassert (read_u32 b o = Ok _) as H
        by (apply read_u32_iff; [lia|lia|split; [eassumption|try done; unfold fits in *; lia]]);
      rewrite H, result_bind_eq; clear H
  | |- context [read_u64 ?b ?o] =>
      let H := fresh in
      eassert (read_u64 b o = Ok _) as H
        by (apply read_u64_iff; [lia|lia|split; [eassumption|try done; unfold fits in *; lia]]);
      rewrite H, result_bind_eq; clear H
  end.

(** Inverts the field reads of a successful decoder. *)
Ltac inv_fields :=
  repeat match goal with
  | H : mbind _ (read_chunk_id _ _) = Ok _ |- _ =>
      let x := fresh "id" in let Hx := fresh "Hid" in
      apply result_bind_Ok in H as (x & Hx%read_chunk_id_iff & H); [|lia|lia]
  | H : mbind _ (read_u16 _ _) = Ok _ |- _ =>
      let x := fresh "f" in let Hx := fresh "Hf" in let Rx := fresh "Rf" in
      apply result_bind_Ok in H as (x & [Hx Rx]%read_u16_iff & H); [|lia|lia]
  | H : mbind _ (read_u32 _ _) = Ok _ |- _ =>
      let x := fresh "f" in let Hx := fresh "Hf" in let Rx := fresh "Rf" in
      apply result_bind_Ok in H as (x & [Hx Rx]%read_u32_iff & H); [|lia|lia]
  | H : mbind _ (read_u64 _ _) = Ok _ |- _ =>
      let x := fresh "f" in let Hx := fresh "Hf" in let Rx := fresh "Rf" in
      apply result_bind_Ok in H as (x & [Hx Rx]%read_u64_iff & H); [|lia|lia]
  end.

Lemma slice_cursor_bound cursor n s (body : list byte) :
  len body < 2 ^ 64 → slice cursor n body = Some s → cursor + n < 2 ^ 64.
Proof. intros ? (? & ? & ? & _)%slice_Some. lia. Qed.

Lemma write_entry_complete body :
  len body < 2 ^ 64 →
  entry_complete body WRITE_ENTRY_BYTES encode_write_entry we_payload write_entry_wf
    (decode_write_entry body).
Proof.
  intros Hb index cursor e Hi Hc Hwf Hs Hp.
  pose proof (slice_cursor_bound _ _ _ _ Hb Hp) as Hcb.
  apply encode_write_entry_slices in Hs as (? & ? & ? & ? & ? & ? & ? & ?); [|done].
  destruct Hwf as (_ & ? & ? & (? & ? & ? & ?) & ?).
  unfold decode_write_entry. set (base := COMMON_HEADER_BYTES + index * WRITE_ENTRY_BYTES) in *.
  assert (0 ≤ base) by (subst base; unfold COMMON_HEADER_BYTES, WRITE_ENTRY_BYTES; lia).
  read_fields. rewrite checked_add_ok by lia. cbn [ok_or]. rewrite result_bind_eq, Hp.
  cbn [ok_or]. rewrite result_bind_eq. by destruct e as [? ? ? [? ? ? ?] ?].
Qed.

Lemma write_entry_sound body :
  len body < 2 ^ 64 →
  entry_sound body WRITE_ENTRY_BYTES encode_write_entry we_payload write_entry_wf
    (decode_write_entry body).
Proof.
  intros Hb index cursor e cursor' Hi Hc H. unfold decode_write_entry in H.
  set (base := COMMON_HEADER_BYTES + index * WRITE_ENTRY_BYTES) in *.
  assert (0 ≤ base) by (subst base; unfold COMMON_HEADER_BYTES, WRITE_ENTRY_BYTES; lia).
  inv_fields. apply result_bind_Ok in H as (pe & Hpe & H).
  apply result_bind_Ok in H as (p & Hp & H). inv_ok. simplify_eq.
  pose proof (slice_len _ _ _ _ Hid) as Hidl. pose proof (slice_len _ _ _ _ Hp) as Hpl.
  assert (write_entry_wf (mkPackedWriteEntry id f f0 (mkWriteIdentity f2 f3 f4 f5) p)) as Hwf.
  { unfold write_entry_wf, identity_wf, chunk_id_wf; cbn. rewrite Hpl. done. }
  split; [exact Hwf|]. cbn [we_payload]. rewrite Hpl. split; [|done].
  apply encode_write_entry_slices; [done|]. cbn. rewrite Hpl. done.
Qed.

Abbreviation write_pack_wf := (packed_wf WRITE_ENTRY_BYTES we_payload write_entry_wf).

Lemma encode_write_entries_eq es :
  Forall write_entry_wf es → encode_write_entries es = Ok (concat (encode_write_entry <$> es)).
Proof.
  intros H. unfold encode_write_entries.
  enough (∀ out, try_fold (fun out e => if 2 ^ 32 <=? len (we_payload e) then Err InvalidInput
            else Ok (out ++ encode_write_entry e)) out es =
          Ok (out ++ concat (encode_write_entry <$> es))) as Hgen by apply (Hgen []).
  induction H as [|e es He Hes IH]; intros out; cbn; [by rewrite app_nil_r|].
  destruct He as (_ & _ & _ & _ & Hp). unfold fits in Hp.
  destruct (Z.leb_spec (2 ^ 32) (len (we_payload e))); [lia|].
  rewrite result_bind_eq, IH. by rewrite <-app_assoc.
Qed.

Lemma encode_write_request_header_eq es :
  write_pack_wf es →
  encode_write_request_header es =
  Ok (encode_common_header MAGIC_WRITE (len es) (sum_len (we_payload <$> es))
        (len es * WRITE_ENTRY_BYTES) ++ concat (encode_write_entry <$> es)).
Proof.
  intros (Hne & Hwf & HK & Hp). unfold encode_write_request_header.
  rewrite bool_decide_eq_false_2 by done. pose proof (sum_len_nonneg (we_payload <$> es)).
  assert (body_too_large (sum_len (we_payload <$> es)) = Ok tt) as -> by by apply body_too_large_Ok.
  unfold MAX_PACK_PAYLOAD_BYTES, WRITE_ENTRY_BYTES in *.
  rewrite result_bind_eq, encode_write_entries_eq, result_bind_eq by done.
  rewrite !wrap_small by (unfold fits; lia). done.
Qed.

Lemma encode_write_request_eq es :
  write_pack_wf es →
  encode_write_request es =
  Ok (packed_bytes WRITE_ENTRY_BYTES encode_write_entry we_payload MAGIC_WRITE es).
Proof.
  intros Hwf. unfold encode_write_request.
  rewrite encode_write_request_header_eq by done. destruct Hwf as (Hne & Hwf & HK & Hp).
  pose proof (sum_len_nonneg (we_payload <$> es)).
  unfold encoded_write_request_len.
  assert (body_too_large (sum_len (we_payload <$> es)) = Ok tt) as -> by by apply body_too_large_Ok.
  unfold MAX_PACK_PAYLOAD_BYTES, COMMON_HEADER_BYTES in *.
  rewrite result_bind_eq, checked_mul_ok by lia. cbn [ok_or]. rewrite !result_bind_eq. cbv beta.
  rewrite checked_add_ok by (unfold WRITE_ENTRY_BYTES in *; lia). cbn [mbind option_bind].
  rewrite checked_add_ok by lia.
  cbn [ok_or]. rewrite !result_bind_eq. unfold packed_bytes. by rewrite app_assoc.
Qed.

Lemma packed_body_small {A : Type} K (enc pay : A → list byte) wf magic es :
  0 < K → (∀ e, wf e → len (enc e) = K) → len magic = 4 → packed_wf K pay wf es →
  len (packed_bytes K enc pay magic es) < 2 ^ 64.
Proof.
  intros HK Henc Hm (Hne & Hwf & HKs & Hp). unfold packed_bytes, encode_common_header.
  rewrite !length_app. pose proof (enc_concat_len K enc wf Henc es Hwf).
  pose proof (header_len magic 0 (len es) (sum_len (pay <$> es)) (len es * K) Hm).
  unfold sum_len, MAX_PACK_PAYLOAD_BYTES in *. lia.
Qed.

Lemma decode_write_request_spec body es :
  len body < 2 ^ 64 →
  decode_write_request body = Ok es ↔ write_pack_wf es ∧ encode_write_request es = Ok body.
Proof.
  intros Hb. split.
  - intros H. eapply decode_packed_sound in H as [Hwf ->].
    + split; [done|]. by apply encode_write_request_eq.
    + done.
    + apply encode_write_entry_len.
    + by apply write_entry_sound.
    + done.
    + done.
  - intros [Hwf H]. rewrite encode_write_request_eq in H by done. injection H as H.
    eapply decode_packed_complete; [done|apply encode_write_entry_len|by apply write_entry_complete|done|done|done].
Qed.

(** C25: the packed write decoder is the exact inverse of the encoder.  A received body
    decodes to a list of entries if and only if the entries fit the wire widths and the
    encoder produces that very body from them: no other byte string is accepted, and no
    field is lost or reinterpreted. *)
Theorem decode_write_request_iff body es :
  len body < 2 ^ 64 →
  decode_write_request body = Ok es ↔ write_pack_wf es ∧ encode_write_request es = Ok body.
Proof. apply decode_write_request_spec. Qed.

Definition example_write_entries : list PackedWriteEntry :=
  [mkPackedWriteEntry (replicate 32 x11) 7 3 (mkWriteIdentity 1 2 0 5) (bstr "alpha");
   mkPackedWriteEntry (replicate 32 x22) GRANULE_ALLOCATE 4 (mkWriteIdentity 1 2 1 6) []].

Definition example_write_body : list byte :=
  default [] (result_ok (encode_write_request example_write_entries)).

Lemma decode_write_request_iff_witness :
  len example_write_body < 2 ^ 64 ∧
  decode_write_request example_write_body = Ok example_write_entries.
Proof.
  split; [by vm_compute|]. apply decode_write_request_iff; [by vm_compute|].
  split; [|by vm_compute]. unfold packed_wf. split_and!; [done| |by vm_compute|by vm_compute].
  repeat constructor; by vm_compute.
Defined.

(** The prefix a client streams first is the leading part of the whole request:
    descriptor header, then the payload runs in entry order, and the total length is
    the one [encoded_write_request_len] predicts. *)
Lemma encode_write_request_segments es out :
  encode_write_request es = Ok out → write_pack_wf es →
  ∃ header, encode_write_request_header es = Ok header ∧
    out = header ++ concat (we_payload <$> es) ∧
    len header = COMMON_HEADER_BYTES + len es * WRITE_ENTRY_BYTES ∧
    encoded_write_request_len (len es) (sum_len (we_payload <$> es)) = Ok (len out).
Proof.
  intros H Hwf. pose proof (encode_write_request_header_eq _ Hwf) as Hh.
  unfold encode_write_request in H. rewrite Hh in H.
  apply result_bind_Ok in H as (n & Hn & H). rewrite result_bind_eq in H.
  apply Ok_inj in H as <-. eexists. split; [exact Hh|]. split; [done|].
  destruct Hwf as (_ & Hes & _). pose proof (enc_concat_len _ _ _ encode_write_entry_len es Hes).
  pose proof (header_len MAGIC_WRITE 0 (len es) (sum_len (we_payload <$> es))
    (len es * WRITE_ENTRY_BYTES) ltac:(done)) as Hhl.
  unfold encode_common_header, COMMON_HEADER_BYTES. rewrite !length_app.
  split; [lia|]. rewrite Hn. unfold encoded_write_request_len, COMMON_HEADER_BYTES in Hn.
  inv_ok. apply (f_equal Ok). unfold sum_len in *. lia.
Qed.

Lemma sum_len_ge (m : Z) (l : list (list byte)) :
  Forall (fun p => m ≤ len p) l → len l * m ≤ sum_len l.
Proof.
  induction 1 as [|p l Hp _ IH]; [unfold sum_len; cbn; lia|].
  rewrite sum_len_cons. cbn [length]. lia.
Qed.

(** a body ceiling computed with [max_encoded_write_request_bytes] from a minimum
    payload size admits every request whose payloads are at least that large: the
    server's limit never refuses a request the client may legally pack. *)
Theorem max_encoded_write_request_bytes_enough min_payload ceiling es out :
  0 < min_payload → max_encoded_write_request_bytes min_payload = Ok ceiling →
  Forall (fun e => min_payload ≤ len (we_payload e)) es →
  encode_write_request es = Ok out → write_pack_wf es → len out ≤ ceiling.
Proof.
  intros Hmin Hc Hes Hout Hwf. rewrite encode_write_request_eq in Hout by done.
  injection Hout as <-. destruct Hwf as (_ & Hwf & _ & Hp).
  pose proof (enc_concat_len _ _ _ encode_write_entry_len es Hwf).
  pose proof (sum_len_ge min_payload (we_payload <$> es) ltac:(by apply Forall_fmap)) as Hge.
  rewrite length_fmap in Hge.
  unfold max_encoded_write_request_bytes, encoded_write_request_len in Hc.
  destruct (Z.eqb_spec min_payload 0); [lia|]. inv_ok.
  pose proof (header_len MAGIC_WRITE 0 (len es) (sum_len (we_payload <$> es))
    (len es * WRITE_ENTRY_BYTES) ltac:(done)).
  unfold packed_bytes, encode_common_header, COMMON_HEADER_BYTES. rewrite !length_app.
  enough (len es ≤ div_ceil MAX_PACK_PAYLOAD_BYTES min_payload) as Hn
    by (unfold sum_len, WRITE_ENTRY_BYTES in *; lia).
  unfold div_ceil. apply Z.div_le_lower_bound; lia.
Qed.

Lemma max_encoded_write_request_bytes_enough_witness :
  len (default [] (result_ok (encode_write_request (take 1 example_write_entries)))) ≤
  default 0 (result_ok (max_encoded_write_request_bytes 5)).
Proof.
  apply (max_encoded_write_request_bytes_enough 5 _ (take 1 example_write_entries));
    [lia|by vm_compute| |by vm_compute|].
  - repeat constructor; by vm_compute.
  - unfold packed_wf. split_and!; [done| |by vm_compute|by vm_compute].
    repeat constructor; by vm_compute.
Defined.

(** ** Read responses, write replies, read queries *)

(** A location a message can carry: the kind is not [KindNone], which stands for the
    absent location. *)
Definition location_wf (l : PackedLocation) : Prop :=
  pl_location_kind l ≠ KindNone ∧ is_u16 (pl_drive_id l) ∧ is_u64 (pl_physical_offset l) ∧
  is_u32 (pl_logical_length l) ∧ is_u32 (pl_stored_length l) ∧ is_u32 (pl_generation l) ∧
  is_u32 (pl_checksum l) ∧ is_u64 (pl_slot_index l).

Definition location_opt_wf (l : option PackedLocation) : Prop :=
  match l with
  | Some l => location_wf l
  | None => True
  end.

Definition location_slot (l : option PackedLocation) (none_slot : Z) : Z :=
  match l with
  | Some l => pl_slot_index l
  | None => none_slot
  end.

Lemma length_encode_location l s : length (encode_location l s) = 38%nat.
Proof. by destruct l. Qed.
#[export] Hint Rewrite length_encode_location : len.

Lemma decode_location_complete body base l none_slot :
  len body < 2 ^ 64 → 0 ≤ base → location_opt_wf l → is_u64 none_slot →
  slice (base + 34) 38 body = Some (encode_location l none_slot) →
  decode_location body base = Ok (l, location_slot l none_slot).
Proof.
  intros Hb H0 Hwf Hn Hs. revert Hs.
  change 38 with (2 + (2 + (2 + (8 + (4 + (4 + (4 + (4 + 8)))))))).
  unfold decode_location, encode_location.
  destruct l as [l|]; split_fields; intros (? & ? & ? & ? & ? & ? & ? & ? & ?).
  - destruct Hwf as (Hk & ? & ? & ? & ? & ? & ? & ?).
    assert (from_u16 (kind_code (pl_location_kind l)) = Ok (pl_location_kind l)) as Hfrom
      by by destruct (pl_location_kind l).
    assert (is_u16 (kind_code (pl_location_kind l))) by by destruct (pl_location_kind l).
    assert (is_u16 0) by done.
    read_fields. rewrite Hfrom, result_bind_eq. read_fields. cbn [Z.eqb negb]. read_fields.
    rewrite bool_decide_eq_false_2 by done. by destruct l.
  - assert (is_u16 0) by done. assert (is_u32 0) by done. assert (is_u64 0) by done.
    assert (is_u16 (kind_code KindNone)) by done.
    read_fields. cbn [from_u16 kind_code Z.eqb]. rewrite result_bind_eq. read_fields.
    cbn [Z.eqb negb]. read_fields. done.
Qed.

Definition read_entry_wf (e : PackedReadEntry) : Prop :=
  chunk_id_wf (re_chunk_id e) ∧ is_u16 (re_status_code e) ∧
  location_opt_wf (re_location e) ∧ is_u32 (len (re_payload e)).

Lemma encode_read_entry_len e : read_entry_wf e → len (encode_read_entry e) = READ_ENTRY_BYTES.
Proof.
  intros (Hc & _). unfold chunk_id_wf, encode_read_entry, READ_ENTRY_BYTES in *.
  autorewrite with len. lia.
Qed.

Lemma read_entry_complete body :
  len body < 2 ^ 64 →
  entry_complete body READ_ENTRY_BYTES encode_read_entry re_payload read_entry_wf
    (decode_read_entry body).
Proof.
  intros Hb index cursor e Hi Hc (Hid & ? & Hloc & ?) Hs Hp.
  pose proof (slice_cursor_bound _ _ _ _ Hb Hp) as Hcb. unfold chunk_id_wf in Hid.
  unfold decode_read_entry. set (base := COMMON_HEADER_BYTES + index * READ_ENTRY_BYTES) in *.
  assert (0 ≤ base) by (subst base; unfold COMMON_HEADER_BYTES, READ_ENTRY_BYTES; lia).
  revert Hs. change READ_ENTRY_BYTES with (32 + (2 + (38 + (4 + 4)))).
  unfold encode_read_entry. rewrite wrap_small by done. split_fields. intros (? & ? & Hl & ? & ?).
  assert (is_u32 0) by done.
  read_fields. rewrite (decode_location_complete _ _ _ 0 Hb ltac:(done) Hloc ltac:(done) Hl).
  rewrite result_bind_eq. read_fields. cbn [Z.eqb negb]. rewrite checked_add_ok by lia.
  cbn [ok_or]. rewrite result_bind_eq, Hp. cbn [ok_or]. rewrite result_bind_eq. by destruct e.
Qed.

Abbreviation read_pack_wf := (packed_wf READ_ENTRY_BYTES re_payload read_entry_wf).

Lemma read_response_roundtrip es :
  read_pack_wf es →
  ∃ body, encode_read_response es = Ok body ∧ decode_read_response body = Ok es.
Proof.
  intros Hwf.
  exists (packed_bytes READ_ENTRY_BYTES encode_read_entry re_payload MAGIC_READ es). split.
  - destruct Hwf as (Hne & _ & HK & Hp). pose proof (sum_len_nonneg (re_payload <$> es)).
    unfold encode_read_response. rewrite bool_decide_eq_false_2 by done.
    assert (body_too_large (sum_len (re_payload <$> es)) = Ok tt) as -> by by apply body_too_large_Ok.
    unfold MAX_PACK_PAYLOAD_BYTES, READ_ENTRY_BYTES in *.
    rewrite result_bind_eq, checked_mul_ok by lia. cbn [ok_or]. rewrite result_bind_eq.
    rewrite !wrap_small by (unfold fits; lia). done.
  - eapply decode_packed_complete;
      [done|apply encode_read_entry_len|apply read_entry_complete|done|done|done].
    by eapply packed_body_small; [|apply encode_read_entry_len|..].
Qed.

(** every packed read response a target can build is read back by the client entry
    for entry: status, location (or its absence) and payload bytes. *)
Theorem decode_encode_read_response es :
  read_pack_wf es →
  ∃ body, encode_read_response es = Ok body ∧ decode_read_response body = Ok es.
Proof. apply read_response_roundtrip. Qed.

Lemma decode_encode_read_response_witness :
  let es := [mkPackedReadEntry (replicate 32 x11) 206
               (Some (mkPackedLocation 1 KindExtent 4096 5 5 3 77 9)) (bstr "alpha");
             mkPackedReadEntry (replicate 32 x22) 404 None []] in
  ∃ body, encode_read_response es = Ok body ∧ decode_read_response body = Ok es.
Proof.
  apply decode_encode_read_response.
  unfold packed_wf. split_and!; [done| |by vm_compute|by vm_compute].
  repeat constructor; by vm_compute.
Defined.

Definition ack_entry_wf (e : PackedWriteReplyEntry) : Prop :=
  chunk_id_wf (wr_chunk_id e) ∧ is_u64 (wr_slot_index e) ∧
  is_u32 (wr_requested_generation e) ∧ is_u16 (wr_status_code e) ∧
  location_opt_wf (wr_location e) ∧
  location_slot (wr_location e) (wr_slot_index e) = wr_slot_index e ∧
  is_u32 (len (error_bytes_of e)) ∧
  match wr_error e with
  | Some text => text ≠ [] ∧ utf8_valid text = true
  | None => True
  end.

Lemma encode_ack_entry_len e : ack_entry_wf e → len (encode_ack_entry e) = ACK_ENTRY_BYTES.
Proof.
  intros (Hc & _). unfold chunk_id_wf, encode_ack_entry, ACK_ENTRY_BYTES in *.
  autorewrite with len. lia.
Qed.

Lemma ack_entry_complete body :
  len body < 2 ^ 64 →
  entry_complete body ACK_ENTRY_BYTES encode_ack_entry error_bytes_of ack_entry_wf
    (decode_ack_entry body).
Proof.
  intros Hb index cursor e Hi Hc (Hid & Hslot & ? & ? & Hloc & Hls & ? & Herr) Hs Hp.
  pose proof (slice_cursor_bound _ _ _ _ Hb Hp) as Hcb. unfold chunk_id_wf in Hid.
  unfold decode_ack_entry. set (base := COMMON_HEADER_BYTES + index * ACK_ENTRY_BYTES) in *.
  assert (0 ≤ base) by (subst base; unfold COMMON_HEADER_BYTES, ACK_ENTRY_BYTES; lia).
  revert Hs. change ACK_ENTRY_BYTES with (32 + (2 + (38 + (4 + 4)))).
  unfold encode_ack_entry. rewrite wrap_small by done. split_fields. intros (? & ? & Hl & ? & ?).
  read_fields. rewrite (decode_location_complete _ _ _ _ Hb ltac:(done) Hloc Hslot Hl).
  rewrite result_bind_eq. read_fields. rewrite checked_add_ok by lia.
  cbn [ok_or]. rewrite result_bind_eq, Hp. cbn [ok_or]. rewrite result_bind_eq, Hls.
  destruct e as [i s g c l [t|]]; cbn in *; [|done].
  destruct Herr as [Hne ->]. destruct t as [|b t]; [done|]. done.
Qed.

Abbreviation ack_pack_wf := (packed_wf ACK_ENTRY_BYTES error_bytes_of ack_entry_wf).

Lemma write_reply_roundtrip es :
  ack_pack_wf es →
  ∃ body, encode_write_reply es = Ok body ∧ decode_write_reply body = Ok es.
Proof.
  intros Hwf.
  exists (packed_bytes ACK_ENTRY_BYTES encode_ack_entry error_bytes_of MAGIC_ACK es). split.
  - destruct Hwf as (Hne & _ & HK & Hp). pose proof (sum_len_nonneg (error_bytes_of <$> es)).
    unfold encode_write_reply. rewrite bool_decide_eq_false_2 by done.
    assert (body_too_large (sum_len (error_bytes_of <$> es)) = Ok tt) as -> by by apply body_too_large_Ok.
    unfold MAX_PACK_PAYLOAD_BYTES, ACK_ENTRY_BYTES in *.
    rewrite result_bind_eq, checked_mul_ok by lia. cbn [ok_or]. rewrite result_bind_eq.
    rewrite !wrap_small by (unfold fits; lia). done.
  - eapply decode_packed_complete;
      [done|apply encode_ack_entry_len|apply ack_entry_complete|done|done|done].
    by eapply packed_body_small; [|apply encode_ack_entry_len|..].
Qed.

(** every packed write reply round-trips: per-entry status, requested generation,
    slot, location and error text. *)
Theorem decode_encode_write_reply es :
  ack_pack_wf es →
  ∃ body, encode_write_reply es = Ok body ∧ decode_write_reply body = Ok es.
Proof. apply write_reply_roundtrip. Qed.

Lemma decode_encode_write_reply_witness :
  let es := [mkPackedWriteReplyEntry (replicate 32 x11) 9 3 201
               (Some (mkPackedLocation 1 KindExtent 4096 5 5 3 77 9)) None;
             mkPackedWriteReplyEntry (replicate 32 x22) 12 4 409 None (Some (bstr "conflict"))] in
  ∃ body, encode_write_reply es = Ok body ∧ decode_write_reply body = Ok es.
Proof.
  apply decode_encode_write_reply.
  unfold packed_wf. split_and!; [done| |by vm_compute|by vm_compute].
  repeat constructor; by vm_compute.
Defined.

Definition range_wf (r : ChunkRange) : Prop := is_u64 (range_offset r) ∧ is_u32 (range_length r).

Definition query_rows (q : PackedReadQuery) : list (ChunkId * option ChunkRange) :=
  match rq_ranges q with
  | Some ranges => zip (rq_chunk_ids q) (Some <$> ranges)
  | None => (fun c => (c, None)) <$> rq_chunk_ids q
  end.

Definition encode_query_row (row : ChunkId * option ChunkRange) : list byte :=
  row.1 ++ match row.2 with Some r => encode_range r | None => [] end.

Definition query_row_wf (ranged : bool) (row : ChunkId * option ChunkRange) : Prop :=
  chunk_id_wf row.1 ∧
  match row.2 with
  | Some r => ranged = true ∧ range_wf r
  | None => ranged = false
  end.

Definition query_entry_bytes (ranged : bool) : Z :=
  if ranged then QUERY_ENTRY_RANGED_BYTES else QUERY_ENTRY_BYTES.

Lemma query_row_len ranged row :
  query_row_wf ranged row → len (encode_query_row row) = query_entry_bytes ranged.
Proof.
  destruct row as [c [r|]]; unfold query_row_wf, chunk_id_wf, encode_query_row, encode_range; cbn;
    intros [? H]; [destruct H as [-> _]|subst ranged]; autorewrite with len;
    unfold query_entry_bytes, QUERY_ENTRY_RANGED_BYTES, QUERY_ENTRY_BYTES; lia.
Qed.

Lemma query_row_complete body ranged :
  len body < 2 ^ 64 →
  entry_complete body (query_entry_bytes ranged) encode_query_row (fun _ => [])
    (query_row_wf ranged)
    (fun index cursor =>
       e ← decode_query_entry body ranged (query_entry_bytes ranged) index; Ok (e, cursor)).
Proof.
  intros Hb index cursor [c o] Hi Hc [Hid Hr] Hs _. unfold chunk_id_wf in Hid. cbn in Hid, Hr.
  unfold decode_query_entry. set (base := COMMON_HEADER_BYTES + index * query_entry_bytes ranged) in *.
  assert (0 ≤ base) by (subst base; unfold COMMON_HEADER_BYTES, query_entry_bytes,
    QUERY_ENTRY_RANGED_BYTES, QUERY_ENTRY_BYTES; destruct ranged; lia).
  rewrite Z.add_0_r. revert Hs. unfold encode_query_row; cbn [fst snd].
  destruct o as [r|]; [destruct Hr as [-> [? ?]]|subst ranged]; unfold query_entry_bytes.
  - change QUERY_ENTRY_RANGED_BYTES with (32 + (8 + (4 + 4))). unfold encode_range.
    split_fields. intros (? & ? & ? & ?). read_fields. by destruct r.
  - rewrite app_nil_r. intros ?. unfold QUERY_ENTRY_BYTES in *. read_fields. done.
Qed.

Definition read_query_wf (q : PackedReadQuery) : Prop :=
  rq_chunk_ids q ≠ [] ∧ Forall chunk_id_wf (rq_chunk_ids q) ∧
  match rq_ranges q with
  | Some ranges => length ranges = length (rq_chunk_ids q) ∧ Forall range_wf ranges
  | None => True
  end ∧
  len (rq_chunk_ids q) * query_entry_bytes (bool_decide (is_Some (rq_ranges q))) < 2 ^ 32.

Lemma query_rows_ranged ids rs :
  length rs = length ids → Forall chunk_id_wf ids → Forall range_wf rs →
  let rows := zip ids (Some <$> rs) in
  length rows = length ids ∧ Forall (query_row_wf true) rows ∧
  fst <$> rows = ids ∧ omap snd rows = rs ∧
  concat (zip_with (fun c r => c ++ encode_range r) ids rs) = concat (encode_query_row <$> rows).
Proof.
  intros Hl Hids. revert rs Hl.
  induction Hids as [|c ids Hc Hids IH]; intros [|r rs] Hl Hrs; try done.
  apply Forall_cons in Hrs as [Hr Hrs]. destruct (IH rs) as (H1 & H2 & H3 & H4 & H5); [by injection Hl|done|].
  cbn in *. split_and!; [by f_equal|by constructor|by f_equal|by f_equal|].
  rewrite H5. done.
Qed.

Lemma query_rows_plain ids :
  Forall chunk_id_wf ids →
  let rows := (fun c => (c, None : option ChunkRange)) <$> ids in
  Forall (query_row_wf false) rows ∧ fst <$> rows = ids ∧
  concat ids = concat (encode_query_row <$> rows).
Proof.
  induction 1 as [|c ids Hc Hids (H1 & H2 & H3)]; [done|]. cbn in *.
  split_and!; [by constructor|by f_equal|]. rewrite H3. unfold encode_query_row at 2. cbn.
  by rewrite app_nil_r.
Qed.

Definition query_ranged (q : PackedReadQuery) : bool := bool_decide (is_Some (rq_ranges q)).

Lemma query_rows_spec q :
  read_query_wf q →
  length (query_rows q) = length (rq_chunk_ids q) ∧
  Forall (query_row_wf (query_ranged q)) (query_rows q) ∧
  mkPackedReadQuery (fst <$> query_rows q)
    (if query_ranged q then Some (omap snd (query_rows q)) else None) = q.
Proof.
  intros (_ & Hids & Hr & _). unfold query_rows, query_ranged. destruct q as [ids [rs|]]; cbn in *.
  - destruct Hr as [Hl Hr]. destruct (query_rows_ranged ids rs) as (H1 & H2 & H3 & H4 & _); [done..|].
    by rewrite H3, H4.
  - destruct (query_rows_plain ids) as (H1 & H2 & _); [done|]. by rewrite length_fmap, H2.
Qed.

Definition query_bytes (q : PackedReadQuery) : list byte :=
  encode_common_header_with_flags MAGIC_QUERY (if query_ranged q then 1 else 0)
    (len (rq_chunk_ids q)) 0 (len (rq_chunk_ids q) * query_entry_bytes (query_ranged q)) ++
  concat (encode_query_row <$> query_rows q).

Lemma encode_read_query_eq q : read_query_wf q → encode_read_query q = Ok (query_bytes q).
Proof.
  intros (Hne & Hids & Hr & Hsz). unfold encode_read_query, query_bytes, query_rows, query_ranged in *.
  rewrite bool_decide_eq_false_2 by done. destruct q as [ids [rs|]]; cbn in *;
    unfold QUERY_ENTRY_RANGED_BYTES, QUERY_ENTRY_BYTES in *.
  - destruct Hr as [Hl Hr]. rewrite Hl, Z.eqb_refl. cbn [negb]. rewrite result_bind_eq.
    rewrite checked_mul_ok by lia. cbn [ok_or]. rewrite result_bind_eq.
    rewrite !wrap_small by (unfold fits; lia).
    destruct (query_rows_ranged ids rs) as (_ & _ & _ & _ & ->); done.
  - rewrite checked_mul_ok by lia. cbn [ok_or]. rewrite result_bind_eq.
    rewrite !wrap_small by (unfold fits; lia).
    destruct (query_rows_plain ids) as (_ & _ & ->); done.
Qed.

Lemma query_header_wf q :
  read_query_wf q →
  header_wf (mkCommonHeader (if query_ranged q then 1 else 0) (len (rq_chunk_ids q)) 0
    (len (rq_chunk_ids q) * query_entry_bytes (query_ranged q))) FLAG_QUERY_RANGED.
Proof.
  intros (Hne & _ & _ & Hsz). fold (query_ranged q) in Hsz. unfold header_wf, fits.
  cbn [ch_flags ch_chunk_count ch_total_payload_bytes ch_entry_table_bytes].
  destruct (rq_chunk_ids q); [done|]. cbn [length] in *.
  unfold query_entry_bytes, QUERY_ENTRY_RANGED_BYTES, QUERY_ENTRY_BYTES in *.
  destruct (query_ranged q); split_and!; (done || lia).
Qed.


Lemma query_table_len q :
  read_query_wf q →
  len (concat (encode_query_row <$> query_rows q)) =
  len (rq_chunk_ids q) * query_entry_bytes (query_ranged q).
Proof.
  intros Hwf. destruct (query_rows_spec q Hwf) as (Hn & Hrows & _). rewrite <-Hn.
  apply concat_const_len. intros x Hx. apply query_row_len. by eapply Forall_forall in Hrows.
Qed.

Lemma query_bytes_len q :
  read_query_wf q →
  len (query_bytes q) = 24 + len (rq_chunk_ids q) * query_entry_bytes (query_ranged q).
Proof.
  intros Hwf. unfold query_bytes. rewrite length_app.
  pose proof (query_table_len q Hwf).
  pose proof (header_len MAGIC_QUERY (if query_ranged q then 1 else 0) (len (rq_chunk_ids q)) 0
    (len (rq_chunk_ids q) * query_entry_bytes (query_ranged q)) ltac:(done)). lia.
Qed.

Lemma query_rows_decode q :
  read_query_wf q →
  decode_entries
    (fun index cursor =>
       e ← decode_query_entry (query_bytes q) (query_ranged q)
             (query_entry_bytes (query_ranged q)) index; Ok (e, cursor))
    (length (query_rows q)) 0 0 = Ok (query_rows q, 0).
Proof.
  intros Hwf. pose proof (query_bytes_len q Hwf) as Hlen. pose proof Hwf as (_ & _ & _ & Hsz).
  fold (query_ranged q) in Hsz. destruct (query_rows_spec q Hwf) as (Hn & Hrows & _).
  assert (concat ((fun _ => [] : list byte) <$> query_rows q) = []) as Hnil
    by (clear; by induction (query_rows q)).
  rewrite (decode_entries_complete (query_bytes q) (query_entry_bytes (query_ranged q))
    encode_query_row (fun _ => []) (query_row_wf (query_ranged q)));
    [|by destruct (query_ranged q)|apply query_row_len|apply query_row_complete; lia|lia|lia|done| |].
  - unfold sum_len. by rewrite Hnil.
  - unfold query_bytes at 1. rewrite slice_app_r; rewrite header_len by done;
      [|unfold COMMON_HEADER_BYTES; lia].
    apply slice_full. rewrite query_table_len by done. by rewrite Hn.
  - unfold sum_len. rewrite Hnil. apply slice_nil. cbn. lia.
Qed.

Lemma read_query_roundtrip q :
  read_query_wf q →
  ∃ body, encode_read_query q = Ok body ∧ decode_read_query body = Ok q.
Proof.
  intros Hwf. exists (query_bytes q). split; [by apply encode_read_query_eq|].
  destruct (query_rows_spec q Hwf) as (Hn & _ & Hq).
  pose proof (query_header_wf q Hwf) as Hh. pose proof (query_bytes_len q Hwf) as Hlen.
  pose proof Hwf as (_ & _ & _ & Hsz). fold (query_ranged q) in Hsz.
  set (h := mkCommonHeader _ _ _ _) in Hh.
  assert (decode_common_header_with_flags (query_bytes q) MAGIC_QUERY FLAG_QUERY_RANGED = Ok h) as Hd.
  { apply decode_common_header_iff; [done|lia|]. split; [|done].
    apply slice_0_app. by apply header_len. }
  unfold decode_read_query. rewrite Hd, result_bind_eq.
  assert (negb (Z.land (ch_flags h) FLAG_QUERY_RANGED =? 0) = query_ranged q) as ->
    by (unfold h; cbn [ch_flags]; by destruct (query_ranged q)).
  cbn [ch_entry_table_bytes ch_chunk_count h]. fold (query_entry_bytes (query_ranged q)).
  rewrite Z.eqb_refl. cbn [negb]. rewrite Hlen. unfold COMMON_HEADER_BYTES at 1.
  rewrite Z.eqb_refl. cbn [negb]. rewrite Nat2Z.id, <-Hn, query_rows_decode by done.
  rewrite result_bind_eq. cbn [fst snd]. by rewrite Hq.
Qed.

(** a packed read query round-trips, with and without per-chunk sub-ranges; the
    ranged flag selects the entry width on both sides. *)
Theorem decode_encode_read_query q :
  read_query_wf q →
  ∃ body, encode_read_query q = Ok body ∧ decode_read_query body = Ok q.
Proof. apply read_query_roundtrip. Qed.

Lemma decode_encode_read_query_witness :
  let q := mkPackedReadQuery [replicate 32 x11; replicate 32 x22]
             (Some [mkChunkRange 0 4096; mkChunkRange 8192 17]) in
  ∃ body, encode_read_query q = Ok body ∧ decode_read_query body = Ok q.
Proof.
  apply decode_encode_read_query. unfold read_query_wf. cbn [rq_chunk_ids rq_ranges].
  split_and!; [done| |done| |by vm_compute]; repeat constructor; by vm_compute.
Defined.

(** ** Chunk ids *)

Lemma preimage_inj salt1 salt2 i1 i2 :
  len salt1 < 2 ^ 32 → len salt2 < 2 ^ 32 → identity_wf i1 → identity_wf i2 →
  chunk_id_preimage salt1 (object_id i1) (object_version i1) (stripe i1) (frag i1) =
  chunk_id_preimage salt2 (object_id i2) (object_version i2) (stripe i2) (frag i2) →
  salt1 = salt2 ∧ i1 = i2.
Proof.
  intros Hs1 Hs2 (? & ? & ? & ?) (? & ? & ? & ?) Hpre. unfold chunk_id_preimage in Hpre.
  apply app_inv_head in Hpre. apply app_inj_1 in Hpre as [Hl Hpre]; [|by rewrite !length_le_bytes].
  rewrite !wrap_small in Hl by (unfold fits; lia).
  apply le_bytes_inj in Hl; [|unfold fits; change (8 * Z.of_nat 4) with 32; lia..].
  apply app_inj_1 in Hpre as [Hsalt Hpre]; [|lia].
  apply app_inj_1 in Hpre as [Ho Hpre]; [|by rewrite !length_le_bytes].
  apply app_inj_1 in Hpre as [Hv Hpre]; [|by rewrite !length_le_bytes].
  apply app_inj_1 in Hpre as [Hst Hf]; [|by rewrite !length_le_bytes].
  apply le_bytes_inj in Ho, Hv, Hst, Hf; [|done..].
  split; [done|]. destruct i1, i2; cbn in *. congruence.
Qed.

(** computed chunk ids name fragments unambiguously.  If two fragments get the same
    id then their cluster salts and identities are equal, or the two hashed byte strings
    are a collision of the hash function. *)
Theorem for_identity_inj (sha256 : list byte → list byte) salt1 salt2 i1 i2 :
  len salt1 < 2 ^ 32 → len salt2 < 2 ^ 32 → identity_wf i1 → identity_wf i2 →
  for_identity sha256 salt1 i1 = for_identity sha256 salt2 i2 →
  let preimage salt i := chunk_id_preimage salt (object_id i) (object_version i) (stripe i) (frag i) in
  (salt1 = salt2 ∧ i1 = i2) ∨
  (preimage salt1 i1 ≠ preimage salt2 i2 ∧ sha256 (preimage salt1 i1) = sha256 (preimage salt2 i2)).
Proof.
  intros Hs1 Hs2 Hi1 Hi2 H preimage. unfold for_identity, for_fragment in H. fold (preimage salt1 i1) (preimage salt2 i2) in H.
  destruct (decide (preimage salt1 i1 = preimage salt2 i2)) as [E|E]; [left|by right].
  by apply preimage_inj in E.
Qed.
