(* ===== verification/Kp2Http.v ===== *)
(** KP2 over HTTP (poc/kp2/src/lib.rs): the request and response headers that announce
    a packed message, and their validation by the receiver.

    The header map is the [http] crate's; it enters as the class [HeaderMap], and
    [HeaderMapLaws] states what its documentation promises about lower-case names and
    visible ASCII values. *)
From S2P Require Import Prelude Bytes Kp2.

Definition HEADER_PROTOCOL : list byte := bstr "x-kp2-protocol".
Definition HEADER_TRANSFER : list byte := bstr "x-kp2-transfer".
Definition HEADER_KIND : list byte := bstr "x-kp2-kind".
Definition HEADER_CHUNK_COUNT : list byte := bstr "x-kp2-chunk-count".
Definition HEADER_TOTAL_PAYLOAD_BYTES : list byte := bstr "x-kp2-total-payload-bytes".
Definition HEADER_LIMIT_SCOPE : list byte := bstr "x-kp2-limit-scope".
Definition HEADER_LIMIT_CLASS : list byte := bstr "x-kp2-limit-class".
Definition HEADER_LIMIT_CURRENT_IN_FLIGHT : list byte := bstr "x-kp2-limit-current-in-flight".
Definition HEADER_LIMIT_MAX_IN_FLIGHT : list byte := bstr "x-kp2-limit-max-in-flight".
Definition HEADER_RETRY_AFTER_MS : list byte := bstr "x-kp2-retry-after-ms".
Definition PROTOCOL_NAME : list byte := bstr "kp2".
Definition TRANSFER_PACKED : list byte := bstr "packed".
Definition KIND_WRITE : list byte := bstr "write".
Definition KIND_QUERY : list byte := bstr "query".
Definition KIND_READ : list byte := bstr "read".

(** [http::HeaderMap] with [http::HeaderValue] as the values. *)
Class HeaderMap (H V : Type) := {
  headers_insert : list byte → V → H → H;
  headers_get : list byte → H → option V;
  value_from_str : list byte → option V;
  value_to_str : V → option (list byte);
}.

(** Characters a header name is made of once normalised, and those of a value that both
    conversions accept. *)
Definition name_char (b : byte) : bool :=
  byte_in 97 122 b || byte_in 48 57 b || bool_decide (b = "-"%byte).
Definition visible_ascii (b : byte) : bool := byte_in 32 126 b.

Class HeaderMapLaws (H V : Type) `{HeaderMap H V} := {
  headers_get_insert_eq : ∀ n v h, headers_get n (headers_insert n v h) = Some v;
  headers_get_insert_ne : ∀ n n' v h,
    forallb name_char n = true → forallb name_char n' = true → n ≠ n' →
    headers_get n (headers_insert n' v h) = headers_get n h;
  value_from_str_visible : ∀ s, forallb visible_ascii s = true →
    ∃ v, value_from_str s = Some v ∧ value_to_str v = Some s;
}.

Section headers.
Context {H V : Type} `{HeaderMap H V}.

Definition header_string (headers : H) (name : list byte) : io_result (list byte) :=
  value ← ok_or (headers_get name headers) InvalidInput;
  ok_or (value_to_str value) InvalidInput.

Definition header_u64 (headers : H) (name : list byte) : io_result Z :=
  s ← header_string headers name;
  ok_or (parse_uint 64 s) InvalidInput.

Definition expect_header (headers : H) (name expected : list byte) : io_result unit :=
  value ← header_string headers name;
  if bool_decide (value = expected) then Ok tt else Err InvalidInput.

Definition validate_packed_headers (headers : H) (expected_kind : list byte) : io_result unit :=
  _ ← expect_header headers HEADER_PROTOCOL PROTOCOL_NAME;
  _ ← expect_header headers HEADER_TRANSFER TRANSFER_PACKED;
  expect_header headers HEADER_KIND expected_kind.

Definition validate_declared_counts (headers : H) (chunk_count total_payload_bytes : Z) :
    io_result unit :=
  declared_chunk_count ← header_u64 headers HEADER_CHUNK_COUNT;
  if negb (declared_chunk_count =? chunk_count) then Err InvalidInput
  else
    declared_payload_bytes ← header_u64 headers HEADER_TOTAL_PAYLOAD_BYTES;
    if negb (declared_payload_bytes =? total_payload_bytes) then Err InvalidInput
    else Ok tt.

(** [headers.insert(name, HeaderValue::from_str(value)?)] *)
Definition insert_str (name value : list byte) (headers : H) : io_result H :=
  v ← ok_or (value_from_str value) InvalidInput;
  Ok (headers_insert name v headers).

Definition apply_packed_headers (headers : H) (kind : list byte)
    (chunk_count total_payload_bytes : Z) : io_result H :=
  h ← insert_str HEADER_PROTOCOL PROTOCOL_NAME headers;
  h ← insert_str HEADER_TRANSFER TRANSFER_PACKED h;
  h ← insert_str HEADER_KIND kind h;
  h ← insert_str HEADER_CHUNK_COUNT (dec_to_string chunk_count) h;
  insert_str HEADER_TOTAL_PAYLOAD_BYTES (dec_to_string total_payload_bytes) h.

Definition apply_rate_limit_headers (headers : H) (scope class : list byte)
    (current_in_flight max_in_flight retry_after_ms : Z) : io_result H :=
  h ← insert_str HEADER_LIMIT_SCOPE scope headers;
  h ← insert_str HEADER_LIMIT_CLASS class h;
  h ← insert_str HEADER_LIMIT_CURRENT_IN_FLIGHT (dec_to_string current_in_flight) h;
  h ← insert_str HEADER_LIMIT_MAX_IN_FLIGHT (dec_to_string max_in_flight) h;
  insert_str HEADER_RETRY_AFTER_MS (dec_to_string retry_after_ms) h.

Context `{!HeaderMapLaws H V}.

Lemma insert_str_ok name value h :
  forallb visible_ascii value = true →
  ∃ v, value_to_str v = Some value ∧ insert_str name value h = Ok (headers_insert name v h).
Proof.
  intros (v & Hf & Ht)%value_from_str_visible. exists v. split; [done|].
  unfold insert_str. by rewrite Hf.
Qed.

Lemma header_string_insert_eq name v value h :
  value_to_str v = Some value → header_string (headers_insert name v h) name = Ok value.
Proof. intros Hv. unfold header_string. rewrite headers_get_insert_eq. cbn. by rewrite Hv. Qed.

Lemma header_string_insert_ne name name' v h :
  forallb name_char name = true → forallb name_char name' = true → name ≠ name' →
  header_string (headers_insert name' v h) name = header_string h name.
Proof. intros. unfold header_string. by rewrite headers_get_insert_ne. Qed.

Lemma dec_to_string_visible n : 0 ≤ n → forallb visible_ascii (dec_to_string n) = true.
Proof.
  intros Hn. apply Is_true_true, forallb_True, Forall_impl with (P:=fun b => byte_in 48 57 b = true).
  - by apply dec_digits_ascii.
  - intros b Hb. unfold visible_ascii, byte_in in *. bools.
    apply Is_true_true, andb_true_iff. split; apply Z.leb_le; lia.
Qed.

(** Reads a header back through the insertions above it. *)
Ltac read_header :=
  repeat (rewrite header_string_insert_ne by (vm_compute; congruence));
  erewrite header_string_insert_eq by eassumption.

Lemma packed_headers_read_back headers kind n total :
  forallb visible_ascii kind = true → is_u64 n → is_u64 total →
  ∃ headers', apply_packed_headers headers kind n total = Ok headers' ∧
    validate_packed_headers headers' kind = Ok tt ∧
    (∀ n' total', validate_declared_counts headers' n' total' = Ok tt ↔ n' = n ∧ total' = total).
Proof.
  intros Hk Hn Ht. unfold apply_packed_headers.
  edestruct (insert_str_ok HEADER_PROTOCOL PROTOCOL_NAME) as (v1 & E1 & ->); [done|].
  rewrite result_bind_eq.
  edestruct (insert_str_ok HEADER_TRANSFER TRANSFER_PACKED) as (v2 & E2 & ->); [done|].
  rewrite result_bind_eq.
  edestruct (insert_str_ok HEADER_KIND kind) as (v3 & E3 & ->); [done|]. rewrite result_bind_eq.
  edestruct (insert_str_ok HEADER_CHUNK_COUNT (dec_to_string n)) as (v4 & E4 & ->);
    [apply dec_to_string_visible, Hn|]. rewrite result_bind_eq.
  edestruct (insert_str_ok HEADER_TOTAL_PAYLOAD_BYTES (dec_to_string total)) as (v5 & E5 & ->);
    [apply dec_to_string_visible, Ht|].
  eexists. split; [done|]. split.
  - unfold validate_packed_headers, expect_header.
    read_header. read_header. read_header. cbn. by rewrite bool_decide_eq_true_2.
  - intros n' total'. unfold validate_declared_counts, header_u64.
    read_header. read_header. rewrite !result_bind_eq.
    rewrite !parse_dec_to_string by done. cbn [ok_or]. rewrite !result_bind_eq.
    destruct (Z.eqb_spec n n'), (Z.eqb_spec total total'); cbn; split; (done || lia || by intros [? ?]).
Qed.

(** headers written for a packed message satisfy the receiver's checks: the kind, the
    chunk count and the payload byte count are read back exactly, whatever the map held
    before. *)
Theorem apply_packed_headers_validate headers kind n total :
  forallb visible_ascii kind = true → is_u64 n → is_u64 total →
  ∃ headers', apply_packed_headers headers kind n total = Ok headers' ∧
    validate_packed_headers headers' kind = Ok tt ∧
    (∀ n' total', validate_declared_counts headers' n' total' = Ok tt ↔ n' = n ∧ total' = total).
Proof. apply packed_headers_read_back. Qed.
End headers.

(** A header map as an association of names to values, to instantiate the class. *)
Global Instance gmap_headers : HeaderMap (gmap (list byte) (list byte)) (list byte) := {
  headers_insert := fun n v h => <[n := v]> h;
  headers_get := fun n h => h !! n;
  value_from_str := fun s => if forallb visible_ascii s then Some s else None;
  value_to_str := fun v => if forallb visible_ascii v then Some v else None;
}.

Global Instance gmap_headers_laws : HeaderMapLaws (gmap (list byte) (list byte)) (list byte).
Proof.
  split; cbn.
  - intros. apply lookup_insert_eq.
  - intros. by apply lookup_insert_ne.
  - intros s Hs. exists s. by rewrite Hs.
Defined.

Lemma apply_packed_headers_validate_witness :
  ∃ headers', apply_packed_headers (∅ : gmap (list byte) (list byte)) KIND_WRITE 3 4096 = Ok headers' ∧
    validate_packed_headers headers' KIND_WRITE = Ok tt ∧
    (∀ n total, validate_declared_counts headers' n total = Ok tt ↔ n = 3 ∧ total = 4096).
Proof. apply apply_packed_headers_validate; by vm_compute. Defined.
