(* ===== verification/Device.v ===== *)
(** Backing stores: a raw block device or a regular file, as the byte string it holds,
    with the images a power loss can still expose.

    The operations are those the arena and the chunk media issue: positioned reads and
    writes of whole buffers, [set_len], a data sync and the capacity query.  A block
    device has a fixed size; a regular file grows when written past its end, with zeros
    in the gap.  Reads and writes do not fail for other reasons.

    Durability: [st_hist] keeps every image the store went through since the last
    completed sync.  After a power loss each 4096-byte block independently holds the
    value it had in the current image or in one of those ([crash_image]): the device may
    reorder and drop unsynced block writes, but does not tear a block. *)
From S2P Require Import Prelude Bytes.

Definition BLOCK : Z := 4096.

Record Store := mkStore {
  st_bytes : list byte;
  st_block : bool;
  st_hist : list (list byte);
}.

(** [storage_capacity_bytes]: the ioctl of a block device, the length of a file. *)
Definition storage_capacity_bytes (s : Store) : Z := len (st_bytes s).

(** A completed read returns all the bytes asked for; reading past the end is short. *)
Definition store_read (s : Store) (off n : Z) : io_result (list byte) :=
  ok_or (slice off n (st_bytes s)) UnexpectedEof.

Definition grow (n : Z) (l : list byte) : list byte := l ++ zeroed (n - len l).

(** The store after a mutation that leaves [b]. *)
Definition store_update (s : Store) (b : list byte) : Store :=
  mkStore b (st_block s) (st_bytes s :: st_hist s).

(** The largest size of a file or device: offsets are signed 64-bit. *)
Definition MAX_STORE_BYTES : Z := 2 ^ 63 - 1.

(** A positioned write: past the end of a block device only the part that fits is
    written and the short count is an error; a file cannot grow past the largest
    offset. *)
Definition store_write (s : Store) (off : Z) (buf : list byte) : Store * io_result unit :=
  if off + len buf <=? len (st_bytes s)
  then (store_update s (splice off buf (st_bytes s)), Ok tt)
  else if st_block s then
    (store_update s (if off <=? len (st_bytes s)
                     then splice off (take (Z.to_nat (len (st_bytes s) - off)) buf) (st_bytes s)
                     else st_bytes s), Err UnexpectedEof)
  else if MAX_STORE_BYTES <? off + len buf then (s, Err OtherError)
  else (store_update s (splice off buf (grow (off + len buf) (st_bytes s))), Ok tt).

(** [File::set_len] *)
Definition store_set_len (s : Store) (n : Z) : Store :=
  store_update s (take (Z.to_nat n) (grow n (st_bytes s))).

(** A completed data sync: only the current image survives a power loss. *)
Definition store_sync (s : Store) : Store := mkStore (st_bytes s) (st_block s) [].

(** The contents a device may come back with after a power loss. *)
Definition crash_image (s : Store) (d : list byte) : Prop :=
  len d = len (st_bytes s) ∧
  ∀ k, 0 ≤ k → (k + 1) * BLOCK ≤ len d →
    ∃ img, img ∈ st_bytes s :: st_hist s ∧
      slice (k * BLOCK) BLOCK d = slice (k * BLOCK) BLOCK img.

(** ** Lemmas *)

Lemma len_grow n l : len (grow n l) = Z.max n (len l).
Proof.
  unfold grow. rewrite length_app. destruct (decide (n ≤ len l)).
  - unfold zeroed. rewrite length_replicate. lia.
  - pose proof (len_zeroed (n - len l)). lia.
Qed.

Lemma slice_grow off m n l : 0 ≤ m → off + m ≤ len l → slice off m (grow n l) = slice off m l.
Proof. intros. unfold grow. by apply slice_app_l. Qed.

Lemma slice_take off m n (l : list byte) :
  0 ≤ off → 0 ≤ m → off + m ≤ n → n ≤ len l → slice off m (take (Z.to_nat n) l) = slice off m l.
Proof.
  intros. rewrite <-(take_drop (Z.to_nat n) l) at 2.
  symmetry. apply slice_app_l; [done|]. rewrite length_take. lia.
Qed.

(** A write that stays inside the store always succeeds. *)
Lemma store_write_in s off buf :
  off + len buf ≤ len (st_bytes s) →
  store_write s off buf = (store_update s (splice off buf (st_bytes s)), Ok tt).
Proof. intros. unfold store_write. by destruct (Z.leb_spec (off + len buf) (len (st_bytes s))); [|lia]. Qed.

(** What a successful write does: the store holds at least the written segment, the
    segment reads back, and every segment of the old store disjoint from it is kept. *)
Lemma store_write_Ok s off buf s' :
  0 ≤ off → store_write s off buf = (s', Ok tt) →
  st_block s' = st_block s ∧ st_hist s' = st_bytes s :: st_hist s ∧
  len (st_bytes s') = Z.max (len (st_bytes s)) (off + len buf) ∧
  slice off (len buf) (st_bytes s') = Some buf ∧
  (∀ o n, 0 ≤ o → 0 ≤ n → o + n ≤ len (st_bytes s) →
     o + n ≤ off ∨ off + len buf ≤ o → slice o n (st_bytes s') = slice o n (st_bytes s)).
Proof.
  intros H0. unfold store_write.
  destruct (Z.leb_spec (off + len buf) (len (st_bytes s))).
  - intros [= <-]. cbn. split_and!.
    + done.
    + done.
    + rewrite len_splice; lia.
    + apply slice_splice_eq; lia.
    + intros. apply slice_splice_ne; lia.
  - destruct (st_block s) eqn:Hb; [done|].
    destruct (Z.ltb_spec MAX_STORE_BYTES (off + len buf)); [done|]. intros [= <-]. cbn.
    pose proof (len_grow (off + len buf) (st_bytes s)). split_and!.
    + done.
    + done.
    + rewrite len_splice; lia.
    + apply slice_splice_eq; lia.
    + intros. rewrite slice_splice_ne by lia. apply slice_grow; lia.
Qed.

(** What any write does, failed or not: it touches nothing outside its segment. *)
Lemma store_write_frame s off buf s' r :
  0 ≤ off → store_write s off buf = (s', r) →
  st_block s' = st_block s ∧ len (st_bytes s) ≤ len (st_bytes s') ∧
  (st_block s = true → len (st_bytes s') = len (st_bytes s)) ∧
  (len (st_bytes s) ≤ MAX_STORE_BYTES → len (st_bytes s') ≤ MAX_STORE_BYTES) ∧
  (∀ o n, 0 ≤ o → 0 ≤ n → o + n ≤ len (st_bytes s) →
     o + n ≤ off ∨ off + len buf ≤ o → slice o n (st_bytes s') = slice o n (st_bytes s)).
Proof.
  intros H0. unfold store_write.
  destruct (Z.leb_spec (off + len buf) (len (st_bytes s))).
  { intros [= <- <-]. cbn. rewrite len_splice by lia. split_and!; try done.
    intros. apply slice_splice_ne; lia. }
  destruct (st_block s) eqn:Hb.
  { intros [= <- <-]. cbn. destruct (Z.leb_spec off (len (st_bytes s))); [|done].
    set (b := take _ _). assert (len b = len (st_bytes s) - off) as Hlb by (subst b; rewrite length_take; lia).
    rewrite len_splice by lia. split_and!; try done.
    intros. apply slice_splice_ne; lia. }
  destruct (Z.ltb_spec MAX_STORE_BYTES (off + len buf)).
  { intros [= <- <-]. rewrite Hb. done. }
  intros [= <- <-]. cbn. pose proof (len_grow (off + len buf) (st_bytes s)).
  rewrite len_splice by lia. split_and!; try (done || lia).
  intros. rewrite slice_splice_ne by lia. apply slice_grow; lia.
Qed.

Lemma store_write_grow_Ok s off buf :
  off + len buf ≤ len (st_bytes s) ∨ (st_block s = false ∧ off + len buf ≤ MAX_STORE_BYTES) →
  ∃ s', store_write s off buf = (s', Ok tt).
Proof.
  intros Hor. unfold store_write. destruct (Z.leb_spec (off + len buf) (len (st_bytes s))); [eauto|].
  destruct Hor as [?|[-> ?]]; [lia|].
  destruct (Z.ltb_spec MAX_STORE_BYTES (off + len buf)); [lia|eauto].
Qed.

Lemma store_set_len_spec s n :
  0 ≤ n →
  len (st_bytes (store_set_len s n)) = n ∧
  st_block (store_set_len s n) = st_block s ∧
  (∀ o m, 0 ≤ o → 0 ≤ m → o + m ≤ n → o + m ≤ len (st_bytes s) →
     slice o m (st_bytes (store_set_len s n)) = slice o m (st_bytes s)).
Proof.
  intros Hn. pose proof (len_grow n (st_bytes s)). split_and!.
  - cbn. rewrite length_take. lia.
  - done.
  - intros. cbn. rewrite slice_take by lia. apply slice_grow; lia.
Qed.

Lemma store_read_Ok s off n b : store_read s off n = Ok b ↔ slice off n (st_bytes s) = Some b.
Proof. apply ok_or_Ok. Qed.
