(* ===== verification/KixTypes.v ===== *)
(** The records KIX indexes (poc/kix/crates/kix/src/types.rs) and the checksum they
    carry (hardware.rs): [LocationRecord] with its 28-byte encoding, the [splitmix64]
    generator, and the CRC-32 interface. *)
From S2P Require Import Prelude Bytes.

Inductive LocationKind : Type :=
| Extent
| PackedContainer.

Global Instance LocationKind_eq_dec : EqDecision LocationKind.
Proof. solve_decision. Defined.

(** [self as u8] *)
Definition location_kind_byte (k : LocationKind) : Z :=
  match k with
  | Extent => 1
  | PackedContainer => 2
  end.

(** [LocationKind::from_byte] *)
Definition location_kind_from_byte (value : Z) : option LocationKind :=
  if value =? 1 then Some Extent
  else if value =? 2 then Some PackedContainer
  else None.

Record LocationRecord := mkLocationRecord {
  lr_drive_id : Z;
  lr_location_kind : LocationKind;
  lr_physical_offset : Z;
  lr_logical_length : Z;
  lr_stored_length : Z;
  lr_generation : Z;
  lr_checksum : Z;
}.

Global Instance LocationRecord_eq_dec : EqDecision LocationRecord.
Proof. solve_decision. Defined.

Definition LOCATION_ENCODED_LEN : Z := 28.

(** [LocationRecord::extent] and [LocationRecord::packed] *)
Definition location_extent (drive_id physical_offset logical_length stored_length
    generation checksum : Z) : LocationRecord :=
  mkLocationRecord drive_id Extent physical_offset logical_length stored_length
    generation checksum.

Definition location_packed (drive_id physical_offset logical_length stored_length
    generation checksum : Z) : LocationRecord :=
  mkLocationRecord drive_id PackedContainer physical_offset logical_length stored_length
    generation checksum.

(** [LocationRecord::encode] *)
Definition encode_location_record (r : LocationRecord) : list byte :=
  le_bytes 2 (lr_drive_id r) ++ le_bytes 1 (location_kind_byte (lr_location_kind r)) ++
  le_bytes 1 0 ++ le_bytes 8 (lr_physical_offset r) ++ le_bytes 4 (lr_logical_length r) ++
  le_bytes 4 (lr_stored_length r) ++ le_bytes 4 (lr_generation r) ++
  le_bytes 4 (lr_checksum r).

(** [LocationRecord::decode] *)
Definition decode_location_record (bytes : list byte) : option LocationRecord :=
  if len bytes <? LOCATION_ENCODED_LEN then None
  else
    drive_id ← get_le 0 2 bytes;
    kind ← get_le 2 1 bytes;
    location_kind ← location_kind_from_byte kind;
    physical_offset ← get_le 4 8 bytes;
    logical_length ← get_le 12 4 bytes;
    stored_length ← get_le 16 4 bytes;
    generation ← get_le 20 4 bytes;
    checksum ← get_le 24 4 bytes;
    Some (mkLocationRecord drive_id location_kind physical_offset logical_length
            stored_length generation checksum).

(** ** Seeds *)

Definition splitmix64 (x : Z) : Z :=
  let z := wrap 64 (x + 0x9e3779b97f4a7c15) in
  let z := wrap 64 (Z.lxor z (Z.shiftr z 30) * 0xbf58476d1ce4e5b9) in
  let z := wrap 64 (Z.lxor z (Z.shiftr z 27) * 0x94d049bb133111eb) in
  Z.lxor z (Z.shiftr z 31).

(** [ChunkId::from_seed]: four rounds, eight bytes each. *)
Fixpoint from_seed_words (n : nat) (x : Z) : list byte :=
  match n with
  | O => []
  | S n' => let x' := splitmix64 x in le_bytes 8 x' ++ from_seed_words n' x'
  end.

Definition from_seed (seed : Z) : ChunkId := from_seed_words 4 seed.

(** ** CRC-32

    [crc32_ieee] is [crc32fast::hash]; all the code relies on is that it is a 32-bit
    function of the bytes. *)
Class Crc32 := {
  crc32_ieee : list byte → Z;
  crc32_ieee_u32 : ∀ l, is_u32 (crc32_ieee l);
}.

(** ** Lemmas *)

Definition location_record_wf (r : LocationRecord) : Prop :=
  is_u16 (lr_drive_id r) ∧ is_u64 (lr_physical_offset r) ∧ is_u32 (lr_logical_length r) ∧
  is_u32 (lr_stored_length r) ∧ is_u32 (lr_generation r) ∧ is_u32 (lr_checksum r).

Lemma length_encode_location_record r : length (encode_location_record r) = 28%nat.
Proof. unfold encode_location_record. autorewrite with len. lia. Qed.
#[export] Hint Rewrite length_encode_location_record : len.

(** Reads the little-endian fields of a buffer built by appending. *)
Ltac get_fields :=
  repeat match goal with
  | |- context [get_le ?o ?n ?l] =>
      let E := fresh in
      eassert (get_le o n l = Some _) as E
        by (unfold get_le; slices; cbn [fmap option_fmap option_map];
            rewrite of_le_small by (first [assumption | unfold fits in *; cbn; lia]);
            reflexivity);
      rewrite E; clear E
  end; cbn [mbind option_bind].

Lemma location_kind_from_to k :
  location_kind_from_byte (location_kind_byte k) = Some k.
Proof. by destruct k. Qed.

Lemma location_kind_byte_u8 k : is_u8 (location_kind_byte k).
Proof. by destruct k. Qed.

Lemma decode_encode_location_record r rest :
  location_record_wf r → decode_location_record (encode_location_record r ++ rest) = Some r.
Proof.
  intros (? & ? & ? & ? & ? & ?). unfold decode_location_record.
  destruct (Z.ltb_spec (len (encode_location_record r ++ rest)) LOCATION_ENCODED_LEN) as [Hl|_].
  { unfold LOCATION_ENCODED_LEN in Hl. autorewrite with len in Hl. lia. }
  pose proof (location_kind_byte_u8 (lr_location_kind r)).
  unfold encode_location_record. rewrite <-!app_assoc.
  get_fields. rewrite location_kind_from_to. by destruct r.
Qed.

(** The reflected IEEE polynomial, bit by bit, to instantiate [Crc32] with. *)
Definition crc32_bit (c : Z) : Z :=
  if Z.odd c then Z.lxor (Z.shiftr c 1) 0xEDB88320 else Z.shiftr c 1.

Definition crc32_byte (c : Z) (b : byte) : Z := Nat.iter 8 crc32_bit (Z.lxor c (byte_to_Z b)).

Definition crc32_bitwise (l : list byte) : Z :=
  wrap 32 (Z.lxor (foldl crc32_byte 0xFFFFFFFF l) 0xFFFFFFFF).

Definition crc32_software : Crc32 := {|
  crc32_ieee := crc32_bitwise;
  crc32_ieee_u32 := fun l => fits_wrap 32 _ (Z.lt_le_incl 0 32 eq_refl);
|}.

(** The check value of the CRC-32 used by the repository's own test. *)
Example crc32_bitwise_check : crc32_bitwise (bstr "123456789") = 0xcbf43926.
Proof. vm_compute. reflexivity. Qed.
