(* ===== verification/Layout.v ===== *)
(** The same-device drive layout (poc/kix/crates/kix/src/layout.rs): chunk media at the
    front of a raw device, the KIX arena at its aligned tail. *)
From S2P Require Import Prelude Bytes.

Definition AUTO_KIX_MIN_MEDIA_BYTES : Z := 8 * 1024 * 1024 * 1024.
Definition AUTO_KIX_ARENA_MAX_BYTES : Z := 256 * 1024 * 1024 * 1024.
Definition AUTO_KIX_ARENA_MIN_BYTES : Z := 16 * 1024 * 1024 * 1024.
Definition AUTO_KIX_ARENA_FRACTION_DIVISOR : Z := 50.
Definition LAYOUT_ALIGNMENT_BYTES : Z := 4096.

Record AutoDriveLayout := mkAutoDriveLayout {
  raw_offset_bytes : Z;
  raw_slice_bytes : Z;
  media_offset_bytes : Z;
  media_slice_bytes : Z;
}.

Definition align_down (value alignment : Z) : Z := value - value mod alignment.

Definition auto_kix_arena_slice_bytes (device_bytes : Z) : io_result Z :=
  let proportional :=
    align_down (device_bytes / AUTO_KIX_ARENA_FRACTION_DIVISOR) LAYOUT_ALIGNMENT_BYTES in
  room ← ok_or (checked_sub device_bytes AUTO_KIX_MIN_MEDIA_BYTES) InvalidInput;
  let max_allowed := align_down room LAYOUT_ALIGNMENT_BYTES in
  if max_allowed =? 0 then Err InvalidInput
  else
    let desired :=
      Z.min (Z.min (Z.max proportional AUTO_KIX_ARENA_MIN_BYTES) AUTO_KIX_ARENA_MAX_BYTES)
        max_allowed in
    if desired =? 0 then Err InvalidInput else Ok desired.

Definition auto_drive_layout (device_bytes : Z) : io_result AutoDriveLayout :=
  if negb (device_bytes mod LAYOUT_ALIGNMENT_BYTES =? 0) then Err InvalidInput
  else if device_bytes <=? AUTO_KIX_MIN_MEDIA_BYTES + LAYOUT_ALIGNMENT_BYTES
  then Err InvalidInput
  else
    raw_slice ← auto_kix_arena_slice_bytes device_bytes;
    media_room ← ok_or (checked_sub device_bytes raw_slice) InvalidInput;
    let media_slice := align_down media_room LAYOUT_ALIGNMENT_BYTES in
    if media_slice =? 0 then Err InvalidInput
    else if media_slice <? AUTO_KIX_MIN_MEDIA_BYTES then Err InvalidInput
    else
      raw_offset ← ok_or (checked_sub device_bytes raw_slice) InvalidInput;
      Ok (mkAutoDriveLayout raw_offset raw_slice 0 media_slice).

(** ** Properties *)

Lemma align_down_spec v a : 0 < a → align_down v a = a * (v / a).
Proof. intros. unfold align_down. pose proof (Z.div_mod v a). lia. Qed.

Lemma align_down_le v a : 0 < a → align_down v a ≤ v < align_down v a + a.
Proof. intros. unfold align_down. pose proof (Z.mod_pos_bound v a). lia. Qed.

Lemma align_down_id v a : v mod a = 0 → align_down v a = v.
Proof. unfold align_down. lia. Qed.

Lemma align_down_aligned v a : 0 < a → align_down v a mod a = 0.
Proof. intros. rewrite align_down_spec, Z.mul_comm by done. by apply Z.mod_mul; lia. Qed.

Lemma min_aligned x y a : x mod a = 0 → y mod a = 0 → Z.min x y mod a = 0.
Proof. intros. by destruct (Z.min_spec x y) as [[_ ->]|[_ ->]]. Qed.

Lemma max_aligned x y a : x mod a = 0 → y mod a = 0 → Z.max x y mod a = 0.
Proof. intros. by destruct (Z.max_spec x y) as [[_ ->]|[_ ->]]. Qed.

(** The arena slice of a device the layout accepts. *)
Lemma arena_slice_spec device_bytes :
  device_bytes mod 4096 = 0 → AUTO_KIX_MIN_MEDIA_BYTES + 4096 < device_bytes →
  ∃ slice, auto_kix_arena_slice_bytes device_bytes = Ok slice ∧
    0 < slice ∧ slice mod 4096 = 0 ∧ slice ≤ device_bytes - AUTO_KIX_MIN_MEDIA_BYTES ∧
    slice ≤ AUTO_KIX_ARENA_MAX_BYTES ∧
    (AUTO_KIX_ARENA_MIN_BYTES + AUTO_KIX_MIN_MEDIA_BYTES ≤ device_bytes →
     AUTO_KIX_ARENA_MIN_BYTES ≤ slice).
Proof.
  intros Ha Hd. unfold auto_kix_arena_slice_bytes, LAYOUT_ALIGNMENT_BYTES.
  rewrite checked_sub_ok by lia. cbn [ok_or]. rewrite result_bind_eq.
  assert ((device_bytes - AUTO_KIX_MIN_MEDIA_BYTES) mod 4096 = 0) as Hroom.
  { rewrite Zminus_mod, Ha. done. }
  rewrite (align_down_id (_ - _)) by done.
  set (p := align_down (device_bytes / _) 4096).
  assert (p mod 4096 = 0) as Hp by by apply align_down_aligned.
  destruct (Z.eqb_spec (device_bytes - AUTO_KIX_MIN_MEDIA_BYTES) 0); [lia|].
  match goal with |- context [if ?d =? 0 then _ else _] => set (desired := d) end.
  assert (desired mod 4096 = 0).
  { repeat apply min_aligned; try done. by apply max_aligned. }
  assert (0 < desired) by (unfold desired, AUTO_KIX_ARENA_MAX_BYTES, AUTO_KIX_ARENA_MIN_BYTES; lia).
  destruct (Z.eqb_spec desired 0); [lia|]. exists desired.
  unfold desired, AUTO_KIX_ARENA_MAX_BYTES, AUTO_KIX_ARENA_MIN_BYTES in *.
  split_and!; (done || lia).
Qed.

(** The layout accepts exactly the aligned devices larger than the media minimum plus
    one block, and then media and arena tile the device: media starts at 0, the arena
    starts where media ends and ends at the end of the device, both are aligned and
    non-empty, media keeps its minimum and the arena its bounds. *)
Theorem auto_drive_layout_tiles device_bytes :
  (is_Ok (auto_drive_layout device_bytes) = true ↔
   device_bytes mod 4096 = 0 ∧ AUTO_KIX_MIN_MEDIA_BYTES + 4096 < device_bytes) ∧
  ∀ l, auto_drive_layout device_bytes = Ok l →
    media_offset_bytes l = 0 ∧ raw_offset_bytes l = media_slice_bytes l ∧
    raw_offset_bytes l + raw_slice_bytes l = device_bytes ∧
    raw_offset_bytes l mod 4096 = 0 ∧ 0 < raw_slice_bytes l ≤ AUTO_KIX_ARENA_MAX_BYTES ∧
    AUTO_KIX_MIN_MEDIA_BYTES ≤ media_slice_bytes l ∧
    (AUTO_KIX_ARENA_MIN_BYTES + AUTO_KIX_MIN_MEDIA_BYTES ≤ device_bytes →
     AUTO_KIX_ARENA_MIN_BYTES ≤ raw_slice_bytes l).
Proof.
  unfold auto_drive_layout, LAYOUT_ALIGNMENT_BYTES.
  destruct (Z.eqb_spec (device_bytes mod 4096) 0) as [Ha|Ha]; cbn [negb]; [|split; [|done]; cbn; lia].
  destruct (Z.leb_spec device_bytes (AUTO_KIX_MIN_MEDIA_BYTES + 4096)) as [|Hd]; [split; [|done]; cbn; lia|].
  destruct (arena_slice_spec _ Ha Hd) as (s & -> & Hs & Hm & Hmax & Hcap & Hmin).
  rewrite result_bind_eq, checked_sub_ok by (unfold AUTO_KIX_MIN_MEDIA_BYTES in *; lia).
  cbn [ok_or]. rewrite result_bind_eq.
  assert ((device_bytes - s) mod 4096 = 0) as Hmod by (rewrite Zminus_mod, Ha, Hm; done).
  rewrite align_down_id by done.
  destruct (Z.eqb_spec (device_bytes - s) 0); [unfold AUTO_KIX_MIN_MEDIA_BYTES in *; lia|].
  destruct (Z.ltb_spec (device_bytes - s) AUTO_KIX_MIN_MEDIA_BYTES); [lia|].
  rewrite result_bind_eq. split; [cbn; split; [done|]; intros _; done|].
  intros l Hl%Ok_inj. subst l. cbn [raw_offset_bytes raw_slice_bytes media_offset_bytes media_slice_bytes].
  split_and!; (done || lia).
Qed.
