(* ===== verification/Arena.v ===== *)
(** The KIX arena (poc/kix/crates/kix/src/arena.rs): the append-only log of index changes
    on each drive, its frames, the recovery scan and its repair operations.

    A [DriveArena] holds the backing store, its span and the write head.  Direct I/O goes
    through io_uring in buffers padded to 4096 bytes; one submission carries a 32-bit
    length and the kernel transfers at most [MAX_RW_COUNT] bytes. *)
From S2P Require Import Prelude Bytes Device KixTypes.

(** ** Constants *)

Definition FILE_MAGIC : Z := of_le (bstr "KIXA").
Definition FRAME_MAGIC : Z := of_le (bstr "KIXF").
Definition ARENA_VERSION : Z := 2.
Definition KIX_IO_ALIGN : Z := 4096.
Definition FILE_HEADER_LEN : Z := KIX_IO_ALIGN.
Definition FRAME_HEADER_LEN : Z := KIX_IO_ALIGN.
Definition CHECKPOINT_ENTRY_LEN : Z := 32 + LOCATION_ENCODED_LEN.
Definition DELTA_ENTRY_LEN : Z := 64.
Definition FLAG_FIXED_SPAN : Z := 1.

(** The most one read or write system call transfers on Linux. *)
Definition MAX_RW_COUNT : Z := 0x7ffff000.

(** ** Data *)

Record DriveConfig := mkDriveConfig {
  cfg_id : Z;
  cfg_arena_offset_bytes : Z;
  cfg_arena_len_bytes : option Z;
}.

Record ArenaHeader := mkArenaHeader {
  ah_drive_id : Z;
  ah_flags : Z;
  ah_arena_bytes : Z;
  ah_write_head : Z;
}.

(** [ArenaHeader::new] *)
Definition arena_header_new (drive_id : Z) (arena_bytes : option Z) (write_head : Z) : ArenaHeader :=
  mkArenaHeader drive_id
    (match arena_bytes with Some _ => FLAG_FIXED_SPAN | None => 0 end)
    (default 0 arena_bytes) write_head.

Definition fixed_span_bytes (h : ArenaHeader) : option Z :=
  if negb (Z.land (ah_flags h) FLAG_FIXED_SPAN =? 0) then Some (ah_arena_bytes h) else None.

Inductive FrameKind : Type :=
| Checkpoint
| DeltaBatch.

Definition frame_kind_byte (k : FrameKind) : Z :=
  match k with
  | Checkpoint => 1
  | DeltaBatch => 2
  end.

Definition frame_kind_from_byte (value : Z) : option FrameKind :=
  if value =? 1 then Some Checkpoint
  else if value =? 2 then Some DeltaBatch
  else None.

Inductive DeltaOp : Type :=
| Upsert
| Delete.

Definition delta_op_byte (op : DeltaOp) : Z :=
  match op with
  | Upsert => 1
  | Delete => 2
  end.

Definition delta_op_from_byte (value : Z) : option DeltaOp :=
  if value =? 1 then Some Upsert
  else if value =? 2 then Some Delete
  else None.

Record DeltaEntry := mkDeltaEntry {
  de_op : DeltaOp;
  de_chunk_id : ChunkId;
  de_record : option LocationRecord;
}.

Definition delta_upsert (chunk_id : ChunkId) (record : LocationRecord) : DeltaEntry :=
  mkDeltaEntry Upsert chunk_id (Some record).

Definition delta_delete (chunk_id : ChunkId) : DeltaEntry := mkDeltaEntry Delete chunk_id None.

(** [HashMap<ChunkId, LocationRecord>] *)
Abbreviation IndexMap := (gmap ChunkId LocationRecord).

Record DriveRecovery := mkDriveRecovery {
  dr_drive_id : Z;
  dr_entries : IndexMap;
  dr_replay_len : Z;
  dr_tail_corruption : bool;
  dr_rebuild_required : bool;
  dr_applied_frames : Z;
}.

Record DriveArena := mkDriveArena {
  da_drive_id : Z;
  da_store : Store;
  da_arena_offset_bytes : Z;
  da_arena_len_bytes : option Z;
  da_write_head : Z;
}.

(** ** Alignment *)

Definition is_aligned_u64 (value align : Z) : bool :=
  negb (align =? 0) && (value mod align =? 0).

Definition align_up_u64 (value align : Z) : io_result Z :=
  if align =? 0 then Err InvalidInput
  else
    let remainder := value mod align in
    if remainder =? 0 then Ok value
    else ok_or (checked_add 64 value (align - remainder)) InvalidInput.

(** ** Direct I/O *)

(** [AlignedIoBuffer::from_padded_bytes] *)
Definition from_padded_bytes (bytes : list byte) : io_result (list byte) :=
  aligned_len ← align_up_u64 (len bytes) KIX_IO_ALIGN;
  if aligned_len =? 0 then Err InvalidInput
  else Ok (bytes ++ zeroed (aligned_len - len bytes)).

(** [DirectIoUring::write_all]: the length is submitted as [u32], and the completion must
    report that many bytes. *)
Definition uring_write_all (s : Store) (off : Z) (buf : list byte) : Store * io_result unit :=
  let n := wrap 32 (len buf) in
  if n <=? MAX_RW_COUNT then store_write s off (take (Z.to_nat n) buf)
  else ((store_write s off (take (Z.to_nat MAX_RW_COUNT) buf)).1, Err UnexpectedEof).

(** [read_exact_at] over [DirectIoUring::read_exact] *)
Definition read_exact_at (s : Store) (off length_ : Z) : io_result (list byte) :=
  aligned_len ← align_up_u64 length_ KIX_IO_ALIGN;
  if aligned_len =? 0 then Err InvalidInput
  else
    let n := wrap 32 aligned_len in
    if n <=? MAX_RW_COUNT then
      got ← store_read s off n;
      Ok (take (Z.to_nat length_) (got ++ zeroed (aligned_len - n)))
    else Err UnexpectedEof.

(** ** Spans *)

Definition resolve_arena_len_bytes (s : Store) (arena_offset_bytes : Z)
    (configured_len_bytes : option Z) : io_result (option Z) :=
  let available := storage_capacity_bytes s in
  if available <? arena_offset_bytes then Err InvalidInput
  else
    let arena_len_bytes :=
      match configured_len_bytes with
      | Some l => Some l
      | None => if st_block s then Some (available - arena_offset_bytes) else None
      end in
    match arena_len_bytes with
    | Some l =>
        if l <? FILE_HEADER_LEN then Err InvalidInput
        else if available <? wrap 64 (arena_offset_bytes + l) then Err InvalidInput
        else Ok (Some l)
    | None => Ok None
    end.

Definition available_span_len (s : Store) (arena_offset_bytes : Z)
    (arena_len_bytes : option Z) : Z :=
  let tail := saturating_sub (storage_capacity_bytes s) arena_offset_bytes in
  match arena_len_bytes with
  | Some l => Z.min l tail
  | None => tail
  end.

Definition validate_io_layout (config : DriveConfig) : io_result unit :=
  if negb (is_aligned_u64 (cfg_arena_offset_bytes config) KIX_IO_ALIGN) then Err InvalidInput
  else
    match cfg_arena_len_bytes config with
    | Some l => if negb (is_aligned_u64 l KIX_IO_ALIGN) then Err InvalidInput else Ok tt
    | None => Ok tt
    end.

(** ** The arena header *)

Definition encode_arena_header (h : ArenaHeader) : list byte :=
  le_bytes 4 FILE_MAGIC ++ le_bytes 4 ARENA_VERSION ++ le_bytes 2 (ah_drive_id h) ++
  le_bytes 2 (ah_flags h) ++ le_bytes 8 (ah_arena_bytes h) ++ le_bytes 8 (ah_write_head h) ++
  zeroed (FILE_HEADER_LEN - 28).

Definition decode_arena_header (bytes : list byte) : io_result ArenaHeader :=
  ok_or (
    magic ← get_le 0 4 bytes;
    version ← get_le 4 4 bytes;
    if negb (magic =? FILE_MAGIC) || negb (version =? ARENA_VERSION) then None
    else
      drive_id ← get_le 8 2 bytes;
      flags ← get_le 10 2 bytes;
      arena_bytes ← get_le 12 8 bytes;
      write_head ← get_le 20 8 bytes;
      Some (mkArenaHeader drive_id flags arena_bytes write_head)) InvalidData.

Definition read_arena_header (s : Store) (arena_offset_bytes : Z) : io_result ArenaHeader :=
  bytes ← read_exact_at s arena_offset_bytes FILE_HEADER_LEN;
  decode_arena_header bytes.

Definition validate_arena_header (header : ArenaHeader) (expected_drive_id : Z)
    (expected_arena_len_bytes : option Z) : io_result unit :=
  if negb (ah_drive_id header =? expected_drive_id) then Err InvalidData
  else if ah_write_head header <? FILE_HEADER_LEN then Err InvalidData
  else
    match expected_arena_len_bytes, fixed_span_bytes header with
    | Some expected, Some actual =>
        if negb (expected =? actual) then Err InvalidData
        else if actual <? ah_write_head header then Err InvalidData
        else if negb (is_aligned_u64 (ah_write_head header) KIX_IO_ALIGN) then Err InvalidData
        else Ok tt
    | None, None =>
        if negb (is_aligned_u64 (ah_write_head header) KIX_IO_ALIGN) then Err InvalidData
        else Ok tt
    | _, _ => Err InvalidData
    end.

(** ** Deltas, checkpoints and their replay *)

Definition encode_delta (d : DeltaEntry) : list byte :=
  le_bytes 1 (delta_op_byte (de_op d)) ++ zeroed 3 ++ de_chunk_id d ++
  match de_record d with
  | Some record => encode_location_record record
  | None => zeroed LOCATION_ENCODED_LEN
  end.

Definition decode_delta (bytes : list byte) : option DeltaEntry :=
  if len bytes <? DELTA_ENTRY_LEN then None
  else
    op_byte ← get_le 0 1 bytes;
    op ← delta_op_from_byte op_byte;
    chunk_id ← slice 4 32 bytes;
    record_bytes ← slice 36 28 bytes;
    match op with
    | Upsert => record ← decode_location_record record_bytes;
                Some (mkDeltaEntry op chunk_id (Some record))
    | Delete => Some (mkDeltaEntry op chunk_id None)
    end.

(** [count] fixed-size items from [offset] on. *)
Fixpoint decode_items {A : Type} (decode : list byte → option A) (item_len : Z)
    (count : nat) (offset : Z) (payload : list byte) : option (list A) :=
  match count with
  | O => Some []
  | S count' =>
      bytes ← slice offset item_len payload;
      item ← decode bytes;
      rest ← decode_items decode item_len count' (offset + item_len) payload;
      Some (item :: rest)
  end.

(** The shape both payloads share: a [u32] count and exactly that many items. *)
Definition decode_counted {A : Type} (decode : list byte → option A) (item_len : Z)
    (payload : list byte) : option (list A) :=
  if len payload <? 4 then None
  else
    count ← get_le 0 4 payload;
    let expected_len := 4 + count * item_len in
    if negb (len payload =? expected_len) then None
    else decode_items decode item_len (Z.to_nat count) 4 payload.

Definition decode_checkpoint_item (bytes : list byte) : option (ChunkId * LocationRecord) :=
  chunk_id ← slice 0 32 bytes;
  record_bytes ← slice 32 28 bytes;
  record ← decode_location_record record_bytes;
  Some (chunk_id, record).

(** [out.insert] in file order: a later duplicate replaces an earlier one. *)
Definition insert_all (items : list (ChunkId * LocationRecord)) : IndexMap :=
  foldl (fun m item => <[item.1 := item.2]> m) ∅ items.

Definition decode_checkpoint (payload : list byte) : option IndexMap :=
  insert_all <$> decode_counted decode_checkpoint_item CHECKPOINT_ENTRY_LEN payload.

Definition decode_delta_batch (payload : list byte) : option (list DeltaEntry) :=
  decode_counted decode_delta DELTA_ENTRY_LEN payload.

Definition apply_delta (entries : IndexMap) (delta : DeltaEntry) : IndexMap :=
  match de_op delta with
  | Upsert =>
      match de_record delta with
      | Some record =>
          match entries !! de_chunk_id delta with
          | Some existing =>
              if lr_generation record <? lr_generation existing then entries
              else <[de_chunk_id delta := record]> entries
          | None => <[de_chunk_id delta := record]> entries
          end
      | None => entries
      end
  | Delete => delete (de_chunk_id delta) entries
  end.

Section arena.
Context `{Crc32}.

(** ** Recovery *)

(** What the scan carries from frame to frame. *)
Record Scan := mkScan {
  sc_entries : IndexMap;
  sc_offset : Z;
  sc_applied_frames : Z;
  sc_tail_corruption : bool;
}.

Definition scan_tail (sc : Scan) : Scan :=
  mkScan (sc_entries sc) (sc_offset sc) (sc_applied_frames sc) true.

(** A frame as read from its header block: kind, payload length and checksum. *)
Definition decode_frame_header (frame_header : list byte) : option (FrameKind * Z * Z) :=
  magic ← get_le 0 4 frame_header;
  kind_byte ← get_le 4 1 frame_header;
  payload_len ← get_le 8 4 frame_header;
  payload_crc ← get_le 12 4 frame_header;
  if negb (magic =? FRAME_MAGIC) then None
  else kind ← frame_kind_from_byte kind_byte; Some (kind, payload_len, payload_crc).

(** The effect of an intact payload on the recovered entries. *)
Definition apply_payload (kind : FrameKind) (payload : list byte) (entries : IndexMap) :
    option IndexMap :=
  match kind with
  | Checkpoint => decode_checkpoint payload
  | DeltaBatch => foldl apply_delta entries <$> decode_delta_batch payload
  end.

(** One iteration of the loop: [inl] continues, [inr] leaves it. *)
Definition recover_step (s : Store) (arena_offset total_len available : Z) (sc : Scan) :
    io_result (Scan + Scan) :=
  let offset := sc_offset sc in
  if (total_len - offset <? FRAME_HEADER_LEN)
     || (saturating_sub available offset <? FRAME_HEADER_LEN)
  then Ok (inr (scan_tail sc))
  else
    frame_header ← read_exact_at s (arena_offset + offset) FRAME_HEADER_LEN;
    match decode_frame_header frame_header with
    | None => Ok (inr (scan_tail sc))
    | Some (kind, payload_len, payload_crc) =>
        match align_up_u64 payload_len KIX_IO_ALIGN with
        | Err _ => Ok (inr (scan_tail sc))
        | Ok payload_disk_len =>
            if (total_len - offset - FRAME_HEADER_LEN <? payload_disk_len)
               || (saturating_sub available (offset + FRAME_HEADER_LEN) <? payload_disk_len)
            then Ok (inr (scan_tail sc))
            else
              match read_exact_at s (arena_offset + offset + FRAME_HEADER_LEN) payload_disk_len with
              | Err _ => Ok (inr (scan_tail sc))
              | Ok payload_block =>
                  let payload := take (Z.to_nat payload_len) payload_block in
                  if negb (crc32_ieee payload =? payload_crc) then Ok (inr (scan_tail sc))
                  else
                    match apply_payload kind payload (sc_entries sc) with
                    | None =>
                        Ok (inr (mkScan (if sc_applied_frames sc =? 0 then ∅ else sc_entries sc)
                                   offset (sc_applied_frames sc) true))
                    | Some entries =>
                        Ok (inl (mkScan entries (offset + FRAME_HEADER_LEN + payload_disk_len)
                                   (sc_applied_frames sc + 1) (sc_tail_corruption sc)))
                    end
              end
        end
    end.

(** [while offset < total_len]; [None] means [fuel] iterations were not enough. *)
Fixpoint recover_loop (fuel : nat) (s : Store) (arena_offset total_len available : Z)
    (sc : Scan) : option (io_result Scan) :=
  if sc_offset sc <? total_len then
    match fuel with
    | O => None
    | S fuel' =>
        match recover_step s arena_offset total_len available sc with
        | Err e => Some (Err e)
        | Ok (inr sc') => Some (Ok sc')
        | Ok (inl sc') => recover_loop fuel' s arena_offset total_len available sc'
        end
    end
  else Some (Ok sc).

(** Every iteration that continues consumes at least one block of the store. *)
Definition recover_fuel (s : Store) : nat := S (Z.to_nat (storage_capacity_bytes s / KIX_IO_ALIGN)).

Definition recovery_empty (drive_id : Z) (rebuild_required : bool) : DriveRecovery :=
  mkDriveRecovery drive_id ∅ 0 false rebuild_required 0.

(** [DriveArena::recover]; [file] is what the arena path names, if it exists. *)
Definition recover (config : DriveConfig) (file : option Store) : option (io_result DriveRecovery) :=
  match file with
  | None => Some (Ok (recovery_empty (cfg_id config) false))
  | Some s =>
      match (_ ← validate_io_layout config;
             resolve_arena_len_bytes s (cfg_arena_offset_bytes config)
               (cfg_arena_len_bytes config)) with
      | Err e => Some (Err e)
      | Ok arena_len_bytes =>
          if negb (st_block s) && (len (st_bytes s) =? 0)
          then Some (Ok (recovery_empty (cfg_id config) false))
          else
            match read_arena_header s (cfg_arena_offset_bytes config) with
            | Err _ => Some (Ok (recovery_empty (cfg_id config) true))
            | Ok header =>
                if negb (is_Ok (validate_arena_header header (cfg_id config) arena_len_bytes))
                then Some (Ok (recovery_empty (cfg_id config) true))
                else
                  r ← recover_loop (recover_fuel s) s (cfg_arena_offset_bytes config)
                        (ah_write_head header)
                        (available_span_len s (cfg_arena_offset_bytes config) arena_len_bytes)
                        (mkScan ∅ FILE_HEADER_LEN 0 false);
                  Some (sc ← (r : io_result Scan);
                        Ok (mkDriveRecovery (cfg_id config) (sc_entries sc) (sc_offset sc)
                              (sc_tail_corruption sc) false (sc_applied_frames sc)))
            end
      end
  end.

(** ** Operations of an open arena *)

Definition with_store (a : DriveArena) (s : Store) : DriveArena :=
  mkDriveArena (da_drive_id a) s (da_arena_offset_bytes a) (da_arena_len_bytes a)
    (da_write_head a).

Definition with_write_head (a : DriveArena) (write_head : Z) : DriveArena :=
  mkDriveArena (da_drive_id a) (da_store a) (da_arena_offset_bytes a) (da_arena_len_bytes a)
    write_head.

Definition arena_write_all_at (offset : Z) (bytes : list byte) : M DriveArena io_error_kind unit :=
  aligned ← lift (from_padded_bytes bytes);
  self ← get_state;
  let '(s, r) := uring_write_all (da_store self) offset aligned in
  _ ← put_state (with_store self s);
  lift r.

Definition arena_sync_data : M DriveArena io_error_kind unit :=
  self ← get_state;
  put_state (with_store self (store_sync (da_store self))).

Definition write_arena_header (header : ArenaHeader) : M DriveArena io_error_kind unit :=
  self ← get_state;
  arena_write_all_at (da_arena_offset_bytes self) (encode_arena_header header).

Definition encode_frame_header (kind : FrameKind) (payload : list byte) : list byte :=
  le_bytes 4 FRAME_MAGIC ++ le_bytes 1 (frame_kind_byte kind) ++ zeroed 3 ++
  le_bytes 4 (wrap 32 (len payload)) ++ le_bytes 4 (crc32_ieee payload) ++
  zeroed (FRAME_HEADER_LEN - 16).

Definition frame_bytes (kind : FrameKind) (payload : list byte) (payload_disk_len : Z) : list byte :=
  encode_frame_header kind payload ++ payload ++ zeroed (payload_disk_len - len payload).

(** [append_frame] up to its data sync: the frame, then the header that publishes it;
    the result is the next write head. *)
Definition append_frame_write (kind : FrameKind) (payload : list byte) :
    M DriveArena io_error_kind Z :=
  payload_disk_len ← lift (align_up_u64 (len payload) KIX_IO_ALIGN);
  let frame_len := FRAME_HEADER_LEN + payload_disk_len in
  self ← get_state;
  next_write_head ← lift (ok_or (checked_add 64 (da_write_head self) frame_len) InvalidInput);
  _ ← lift (match da_arena_len_bytes self with
            | Some arena_len => ensure (next_write_head <=? arena_len) WriteZero
            | None => Ok tt
            end);
  _ ← arena_write_all_at (da_arena_offset_bytes self + da_write_head self)
        (frame_bytes kind payload payload_disk_len);
  _ ← write_arena_header
        (arena_header_new (da_drive_id self) (da_arena_len_bytes self) next_write_head);
  mret next_write_head.

Definition append_frame (kind : FrameKind) (payload : list byte) :
    M DriveArena io_error_kind unit :=
  next_write_head ← append_frame_write kind payload;
  _ ← arena_sync_data;
  self ← get_state;
  put_state (with_write_head self next_write_head).

Definition delta_batch_payload (deltas : list DeltaEntry) : list byte :=
  le_bytes 4 (wrap 32 (len deltas)) ++ concat (encode_delta <$> deltas).

Definition append_delta_batch (deltas : list DeltaEntry) : M DriveArena io_error_kind unit :=
  append_frame DeltaBatch (delta_batch_payload deltas).

Definition append_delta (delta : DeltaEntry) : M DriveArena io_error_kind unit :=
  append_delta_batch [delta].

Definition checkpoint_payload (entries : list (ChunkId * LocationRecord)) : list byte :=
  le_bytes 4 (wrap 32 (len entries)) ++
  concat ((fun e => e.1 ++ encode_location_record e.2) <$> entries).

Definition write_checkpoint (entries : list (ChunkId * LocationRecord)) :
    M DriveArena io_error_kind unit :=
  append_frame Checkpoint (checkpoint_payload entries).

Definition truncate_to (length_ : Z) : M DriveArena io_error_kind unit :=
  length_ ← lift (align_up_u64 (Z.max length_ FILE_HEADER_LEN) KIX_IO_ALIGN);
  self ← get_state;
  _ ← lift (match da_arena_len_bytes self with
            | Some arena_len => ensure (length_ <=? arena_len) InvalidInput
            | None => Ok tt
            end);
  _ ← put_state (with_write_head self length_);
  _ ← write_arena_header
        (arena_header_new (da_drive_id self) (da_arena_len_bytes self) length_);
  self ← get_state;
  _ ← (if negb (st_block (da_store self)) && bool_decide (da_arena_len_bytes self = None)
       then put_state (with_store self
              (store_set_len (da_store self) (da_arena_offset_bytes self + length_)))
       else lift (Ok tt));
  arena_sync_data.

(** ** Opening *)

(** [open_data_file]: a missing path is created as an empty file. *)
Definition open_data_file (file : option Store) : Store := default (mkStore [] false []) file.

(** The arena formatted at write head 4096, as [open_config] does for a new file and
    [reset_config] for any store. *)
Definition format_arena (config : DriveConfig) (s : Store) (arena_len_bytes : option Z) :
    Store * io_result DriveArena :=
  let write_head := FILE_HEADER_LEN in
  let header := arena_header_new (cfg_id config) arena_len_bytes write_head in
  match from_padded_bytes (encode_arena_header header) with
  | Err e => (s, Err e)
  | Ok aligned =>
      let '(s, r) := uring_write_all s (cfg_arena_offset_bytes config) aligned in
      match r with
      | Err e => (s, Err e)
      | Ok _ =>
          let s :=
            if negb (st_block s) && bool_decide (arena_len_bytes = None)
            then store_set_len s (cfg_arena_offset_bytes config + write_head) else s in
          let s := store_sync s in
          (s, Ok (mkDriveArena (cfg_id config) s (cfg_arena_offset_bytes config)
                    arena_len_bytes write_head))
      end
  end.

Definition open_config (config : DriveConfig) (file : option Store) :
    option Store * io_result DriveArena :=
  match validate_io_layout config with
  | Err e => (file, Err e)
  | Ok _ =>
      let s := open_data_file file in
      match resolve_arena_len_bytes s (cfg_arena_offset_bytes config)
              (cfg_arena_len_bytes config) with
      | Err e => (Some s, Err e)
      | Ok arena_len_bytes =>
          if bool_decide (file = None) || (negb (st_block s) && (len (st_bytes s) =? 0))
          then let '(s, r) := format_arena config s arena_len_bytes in (Some s, r)
          else
            (Some s,
             header ← read_arena_header s (cfg_arena_offset_bytes config);
             _ ← validate_arena_header header (cfg_id config) arena_len_bytes;
             Ok (mkDriveArena (cfg_id config) s (cfg_arena_offset_bytes config)
                   arena_len_bytes (ah_write_head header)))
      end
  end.

Definition reset_config (config : DriveConfig) (file : option Store) :
    option Store * io_result DriveArena :=
  match validate_io_layout config with
  | Err e => (file, Err e)
  | Ok _ =>
      let s := open_data_file file in
      match resolve_arena_len_bytes s (cfg_arena_offset_bytes config)
              (cfg_arena_len_bytes config) with
      | Err e => (Some s, Err e)
      | Ok arena_len_bytes =>
          let s := if negb (st_block s) && bool_decide (arena_len_bytes = None)
                   then store_set_len s 0 else s in
          let '(s, r) := format_arena config s arena_len_bytes in (Some s, r)
      end
  end.

(** [DriveArena::rebuild_from_entries] *)
Definition rebuild_from_entries (config : DriveConfig)
    (entries : list (ChunkId * LocationRecord)) (file : option Store) :
    option Store * option (io_result DriveRecovery) :=
  match reset_config config file with
  | (file, Err e) => (file, Some (Err e))
  | (file, Ok arena) =>
      let '(arena, r) :=
        if bool_decide (entries = []) then (arena, Ok tt) else write_checkpoint entries arena in
      match r with
      | Err e => (Some (da_store arena), Some (Err e))
      | Ok _ => (Some (da_store arena), recover config (Some (da_store arena)))
      end
  end.
End arena.
