(* ===== verification/ArenaCodec.v ===== *)
(** The encodings of the KIX arena: alignment, padded I/O, delta and checkpoint payloads,
    the frame header and the arena header are all read back as written. *)
From S2P Require Import Prelude Bytes Device KixTypes Arena.

(** ** Alignment and padded I/O *)

Lemma align_up_spec n :
  0 ≤ n → n + 4096 ≤ 2 ^ 64 →
  ∃ m, align_up_u64 n KIX_IO_ALIGN = Ok m ∧ m mod 4096 = 0 ∧ n ≤ m < n + 4096.
Proof.
  intros Hn Hm. unfold align_up_u64. change KIX_IO_ALIGN with 4096. cbn [Z.eqb].
  pose proof (Z.mod_pos_bound n 4096 ltac:(lia)).
  destruct (Z.eqb_spec (n mod 4096) 0); [exists n; split_and!; (done || lia)|].
  rewrite checked_add_ok by lia. exists (n + (4096 - n mod 4096)). split_and!; [done| |lia..].
  pose proof (Z.div_mod n 4096 ltac:(lia)).
  replace (n + (4096 - n mod 4096)) with ((n / 4096 + 1) * 4096) by lia.
  by apply Z.mod_mul.
Qed.

Lemma align_up_aligned n : n mod 4096 = 0 → align_up_u64 n KIX_IO_ALIGN = Ok n.
Proof. intros Hn. unfold align_up_u64. change KIX_IO_ALIGN with 4096. cbn. by rewrite Hn. Qed.

Lemma is_aligned_iff n : is_aligned_u64 n KIX_IO_ALIGN = true ↔ n mod 4096 = 0.
Proof. unfold is_aligned_u64. change KIX_IO_ALIGN with 4096. cbn. apply Z.eqb_eq. Qed.

Lemma from_padded_aligned b :
  0 < len b → len b mod 4096 = 0 → from_padded_bytes b = Ok b.
Proof.
  intros H0 H. unfold from_padded_bytes. rewrite align_up_aligned by done.
  rewrite result_bind_eq. destruct (Z.eqb_spec (len b) 0); [lia|].
  rewrite Z.sub_diag. change (zeroed 0) with (@nil byte). by rewrite app_nil_r.
Qed.

(** A direct read of a whole number of blocks, short enough for one submission. *)
Lemma read_exact_at_aligned s off n :
  0 < n → n mod 4096 = 0 → n ≤ MAX_RW_COUNT →
  read_exact_at s off n = store_read s off n.
Proof.
  intros H0 Hm Hmax. unfold read_exact_at. rewrite align_up_aligned by done. rewrite result_bind_eq.
  destruct (Z.eqb_spec n 0); [lia|]. unfold MAX_RW_COUNT in *.
  rewrite wrap_small by (unfold fits; lia). destruct (Z.leb_spec n 0x7ffff000); [|lia].
  unfold store_read. destruct (slice off n (st_bytes s)) as [b|] eqn:Hs; [|done].
  cbn [ok_or]. rewrite result_bind_eq. apply slice_len in Hs. rewrite Z.sub_diag.
  change (zeroed 0) with (@nil byte). rewrite app_nil_r, take_ge by lia. done.
Qed.

Lemma uring_write_small s off b :
  len b ≤ MAX_RW_COUNT → uring_write_all s off b = store_write s off b.
Proof.
  intros H. unfold uring_write_all, MAX_RW_COUNT in *. rewrite wrap_small by (unfold fits; lia).
  destruct (Z.leb_spec (len b) 0x7ffff000); [|lia]. by rewrite take_ge by lia.
Qed.

(** ** Counted payloads *)

Lemma decode_items_encode {A : Type} (dec : list byte → option A) (enc : A → list byte) K
    (items : list A) pre post :
  0 ≤ K → (∀ x, x ∈ items → len (enc x) = K ∧ dec (enc x) = Some x) →
  decode_items dec K (length items) (len pre) (pre ++ concat (enc <$> items) ++ post) = Some items.
Proof.
  intros HK. revert pre. induction items as [|x items IH]; intros pre Hx; [done|].
  destruct (Hx x) as [Hlen Hdec]; [apply list_elem_of_here|].
  cbn [length decode_items fmap list_fmap concat].
  rewrite <-app_assoc. rewrite slice_app_r, Z.sub_diag by lia.
  rewrite slice_0_app by done. cbn [mbind option_bind]. rewrite Hdec. cbn [mbind option_bind].
  replace (len pre + K) with (len (pre ++ enc x)) by (rewrite length_app; lia).
  rewrite app_assoc. fold (concat (enc <$> items)).
  rewrite IH; [done|]. intros y Hy. apply Hx. by apply list_elem_of_further.
Qed.

Lemma decode_counted_encode {A : Type} (dec : list byte → option A) (enc : A → list byte) K
    (items : list A) :
  0 ≤ K → (∀ x, x ∈ items → len (enc x) = K ∧ dec (enc x) = Some x) → len items < 2 ^ 32 →
  decode_counted dec K (le_bytes 4 (wrap 32 (len items)) ++ concat (enc <$> items)) = Some items.
Proof.
  intros HK Hx Hn. unfold decode_counted. rewrite wrap_small by (unfold fits; lia).
  assert (len (concat (enc <$> items)) = len items * K) as Hc.
  { clear Hn. induction items as [|x items IH]; [done|]. cbn [fmap list_fmap concat length].
    rewrite length_app. destruct (Hx x) as [Hl _]; [apply list_elem_of_here|].
    fold (concat (enc <$> items)). rewrite Nat2Z.inj_add, IH; [lia|].
    intros y Hy. apply Hx. by apply list_elem_of_further. }
  rewrite length_app, length_le_bytes, Nat2Z.inj_add, Hc. cbn [Z.of_nat].
  destruct (Z.ltb_spec (Z.of_nat 4 + len items * K) 4); [lia|].
  unfold get_le. rewrite slice_0_app by by rewrite length_le_bytes.
  cbn [fmap option_fmap option_map]. rewrite of_le_small by (unfold fits; cbn; lia).
  cbn [mbind option_bind]. rewrite Z.eqb_refl. cbn [negb]. rewrite Nat2Z.id.
  rewrite <-(app_nil_r (le_bytes 4 (len items) ++ _)), <-app_assoc.
  change 4 with (len (le_bytes 4 (len items))) at 1.
  by apply decode_items_encode.
Qed.

(** A delta as the engine builds it: a record exactly for an upsert. *)
Definition delta_wf (d : DeltaEntry) : Prop :=
  chunk_id_wf (de_chunk_id d) ∧
  match de_op d, de_record d with
  | Upsert, Some r => location_record_wf r
  | Delete, None => True
  | _, _ => False
  end.

Lemma decode_encode_delta d :
  delta_wf d → len (encode_delta d) = DELTA_ENTRY_LEN ∧ decode_delta (encode_delta d) = Some d.
Proof.
  intros [Hc Hd]. unfold chunk_id_wf in Hc.
  assert (len (encode_delta d) = DELTA_ENTRY_LEN) as Hl.
  { unfold encode_delta. rewrite !length_app.
    destruct (de_record d); autorewrite with len; cbn [length zeroed]; unfold DELTA_ENTRY_LEN.
    - change (length (zeroed 3)) with 3%nat. lia.
    - change (length (zeroed 3)) with 3%nat. change (length (zeroed LOCATION_ENCODED_LEN)) with 28%nat. lia. }
  split; [done|]. unfold decode_delta. rewrite Hl. cbn [Z.ltb Z.compare].
  change (DELTA_ENTRY_LEN <? DELTA_ENTRY_LEN) with false. cbn iota.
  unfold get_le, encode_delta.
  rewrite slice_0_app by done. cbn [fmap option_fmap option_map].
  rewrite of_le_small by by destruct (de_op d). cbn [mbind option_bind].
  assert (delta_op_from_byte (delta_op_byte (de_op d)) = Some (de_op d)) as -> by by destruct (de_op d).
  cbn [mbind option_bind].
  rewrite (slice_app_r 4), (slice_app_r _ 32) by done.
  change (slice (4 - len (le_bytes 1 (delta_op_byte (de_op d))) - len (zeroed 3)) 32) with (slice 0 32).
  rewrite slice_0_app by done. cbn [mbind option_bind].
  rewrite (slice_app_r 36), (slice_app_r _ 28), (slice_app_r _ 28)
    by (rewrite ?Hc; done || (cbn; lia)).
  rewrite Hc. change (36 - len (le_bytes 1 (delta_op_byte (de_op d))) - len (zeroed 3) - 32) with 0.
  destruct d as [[] c [r|]]; cbn [de_op de_record de_chunk_id] in *; try done.
  rewrite slice_full by (autorewrite with len; done). cbn [mbind option_bind].
  rewrite <-(app_nil_r (encode_location_record r)).
  by rewrite decode_encode_location_record.
Qed.

Lemma decode_delta_batch_payload ds :
  Forall delta_wf ds → len ds < 2 ^ 32 → decode_delta_batch (delta_batch_payload ds) = Some ds.
Proof.
  intros Hds Hn. apply decode_counted_encode; [done| |done].
  intros d Hd. apply decode_encode_delta. by eapply Forall_forall in Hds.
Qed.

Definition checkpoint_item_wf (e : ChunkId * LocationRecord) : Prop :=
  chunk_id_wf e.1 ∧ location_record_wf e.2.

Lemma decode_checkpoint_payload es :
  Forall checkpoint_item_wf es → len es < 2 ^ 32 →
  decode_checkpoint (checkpoint_payload es) = Some (insert_all es).
Proof.
  intros Hes Hn. unfold decode_checkpoint, checkpoint_payload.
  rewrite decode_counted_encode; [done|done| |done].
  intros [c r] He. eapply Forall_forall in Hes as [Hc Hr]; [|done]. cbn in Hc, Hr.
  unfold chunk_id_wf in Hc. cbn [fst snd]. split.
  { autorewrite with len. unfold CHECKPOINT_ENTRY_LEN, LOCATION_ENCODED_LEN. lia. }
  unfold decode_checkpoint_item. rewrite slice_0_app by done. cbn [mbind option_bind].
  rewrite slice_app_r, Hc by lia. rewrite slice_full by (autorewrite with len; done).
  cbn [mbind option_bind]. rewrite <-(app_nil_r (encode_location_record r)).
  by rewrite decode_encode_location_record.
Qed.

(** ** Headers *)

Section headers.
Context `{Crc32}.

Lemma len_encode_frame_header k p : len (encode_frame_header k p) = 4096.
Proof.
  unfold encode_frame_header. rewrite !length_app, !length_le_bytes.
  unfold zeroed. rewrite !length_replicate. done.
Qed.

Lemma decode_encode_frame_header k p :
  len p < 2 ^ 32 →
  decode_frame_header (encode_frame_header k p) = Some (k, len p, crc32_ieee p).
Proof.
  intros Hp. unfold decode_frame_header, encode_frame_header.
  pose proof (crc32_ieee_u32 p). rewrite wrap_small by (unfold fits; lia).
  assert (is_u8 (frame_kind_byte k)) by by destruct k.
  assert (is_u32 FRAME_MAGIC) by done. assert (is_u32 (len p)) by (unfold fits; lia).
  get_fields. by destruct k.
Qed.
End headers.

Lemma len_encode_arena_header h : len (encode_arena_header h) = 4096.
Proof.
  unfold encode_arena_header. rewrite !length_app, !length_le_bytes.
  unfold zeroed. rewrite !length_replicate. done.
Qed.

Definition arena_header_wf (h : ArenaHeader) : Prop :=
  is_u16 (ah_drive_id h) ∧ is_u16 (ah_flags h) ∧ is_u64 (ah_arena_bytes h) ∧
  is_u64 (ah_write_head h).

Lemma decode_encode_arena_header h :
  arena_header_wf h → decode_arena_header (encode_arena_header h) = Ok h.
Proof.
  intros (? & ? & ? & ?). unfold decode_arena_header, encode_arena_header.
  assert (is_u32 FILE_MAGIC) by done. assert (is_u32 ARENA_VERSION) by done.
  get_fields. by destruct h.
Qed.
