(* ===== verification/ArenaLog.v ===== *)
(** The recovery scan of the KIX arena: it always terminates with a result whatever the
    arena holds, it depends only on the bytes below the write head, and it retraces
    exactly the frames that were appended. *)
From S2P Require Import Prelude Bytes Device KixTypes Arena ArenaCodec.

(** Two stores agree on the bytes of [lo, hi). *)
Definition agree (lo hi : Z) (b b' : list byte) : Prop :=
  ∀ o n, lo ≤ o → 0 ≤ n → o + n ≤ hi → slice o n b' = slice o n b.

Lemma agree_sub lo hi lo' hi' b b' :
  lo ≤ lo' → hi' ≤ hi → agree lo hi b b' → agree lo' hi' b b'.
Proof. intros ? ? Ha o n ? ? ?. apply Ha; lia. Qed.

Lemma read_exact_at_agree s s' off n :
  0 ≤ n → n mod 4096 = 0 → agree off (off + n) (st_bytes s) (st_bytes s') →
  read_exact_at s' off n = read_exact_at s off n.
Proof.
  intros Hn Hm Ha. unfold read_exact_at. rewrite align_up_aligned by done. rewrite !result_bind_eq.
  destruct (Z.eqb_spec n 0); [done|]. pose proof (Z.mod_le n (2 ^ 32) ltac:(lia) ltac:(lia)).
  pose proof (fits_wrap 32 n ltac:(lia)) as [? ?].
  destruct (wrap 32 n <=? MAX_RW_COUNT); [|done].
  unfold store_read. rewrite Ha; [done|lia|lia|]. unfold wrap. lia.
Qed.

Section scan.
Context `{Crc32}.

(** One accepted frame, with the two reads it makes. *)
Definition frame_step (s : Store) (base total avail : Z) (sc sc' : Scan) : Prop :=
  ∃ kind plen dlen header block,
    sc_offset sc + 4096 + dlen ≤ total ∧ sc_offset sc + 4096 + dlen ≤ avail ∧
    dlen mod 4096 = 0 ∧ 0 ≤ dlen ∧ align_up_u64 plen KIX_IO_ALIGN = Ok dlen ∧
    read_exact_at s (base + sc_offset sc) 4096 = Ok header ∧
    read_exact_at s (base + sc_offset sc + 4096) dlen = Ok block ∧
    decode_frame_header header =
      Some (kind, plen, crc32_ieee (take (Z.to_nat plen) block)) ∧
    apply_payload kind (take (Z.to_nat plen) block) (sc_entries sc) = Some (sc_entries sc') ∧
    sc' = mkScan (sc_entries sc') (sc_offset sc + 4096 + dlen)
            (sc_applied_frames sc + 1) (sc_tail_corruption sc).

Lemma decode_frame_header_u32 header kind plen crc :
  decode_frame_header header = Some (kind, plen, crc) → is_u32 plen.
Proof.
  unfold decode_frame_header. intros Hd. inv_ok. destruct (negb _); [done|]. inv_ok.
  simplify_eq. by apply (get_le_range 8 4 header).
Qed.

Lemma align_up_u32 plen dlen :
  is_u32 plen → align_up_u64 plen KIX_IO_ALIGN = Ok dlen →
  dlen mod 4096 = 0 ∧ plen ≤ dlen < plen + 4096.
Proof.
  intros [? ?] Ha. destruct (align_up_spec plen) as (m & Hm & ?); [lia|lia|].
  rewrite Hm in Ha. apply Ok_inj in Ha as ->. done.
Qed.

Lemma saturating_sub_ge a b n : 0 < n → (saturating_sub a b <? n) = false ↔ n ≤ a - b.
Proof. intros. unfold saturating_sub. rewrite Z.ltb_ge. lia. Qed.

Lemma saturating_sub_ge0 a b n : 0 ≤ b ≤ a → (saturating_sub a b <? n) = false ↔ n ≤ a - b.
Proof. intros. unfold saturating_sub. rewrite Z.ltb_ge. lia. Qed.

Lemma recover_step_inl s base total avail sc sc' :
  0 ≤ sc_offset sc →
  recover_step s base total avail sc = Ok (inl sc') ↔ frame_step s base total avail sc sc'.
Proof.
  intros H0. unfold recover_step, frame_step. change FRAME_HEADER_LEN with 4096. split.
  - destruct (_ || _)%bool eqn:Hroom; [done|]. apply orb_false_elim in Hroom as [Ht Ha].
    apply Z.ltb_ge in Ht. apply saturating_sub_ge in Ha; [|lia].
    destruct (read_exact_at s (base + sc_offset sc) 4096) as [header|] eqn:Hh; [|done].
    rewrite result_bind_eq. destruct (decode_frame_header header) as [[[kind plen] crc]|] eqn:Hd; [|done].
    pose proof (decode_frame_header_u32 _ _ _ _ Hd) as Hplen.
    destruct (align_up_u64 plen KIX_IO_ALIGN) as [dlen|] eqn:Hal; [|done].
    pose proof (align_up_u32 _ _ Hplen Hal) as [Hmod Hle]. destruct Hplen.
    destruct (_ || _)%bool eqn:Hroom; [done|]. apply orb_false_elim in Hroom as [Ht2 Ha2].
    apply Z.ltb_ge in Ht2. apply saturating_sub_ge0 in Ha2; [|lia].
    destruct (read_exact_at s (base + sc_offset sc + 4096) dlen) as [block|] eqn:Hb; [|done].
    destruct (Z.eqb_spec (crc32_ieee (take (Z.to_nat plen) block)) crc) as [<-|]; cbn [negb]; [|done].
    destruct (apply_payload _ _ _) as [entries|] eqn:Hp; [|done].
    intros [= <-]. exists kind, plen, dlen, header, block. cbn. split_and!; (done || lia).
  - intros (kind & plen & dlen & header & block & Ht & Ha & Hm & Hn & Hal & Hh & Hb & Hd & Hp & Hs).
    destruct (_ || _)%bool eqn:Hroom.
    { apply orb_prop in Hroom as [Hr%Z.ltb_lt|Hr%Z.ltb_lt]; unfold saturating_sub in *; lia. }
    rewrite Hh, result_bind_eq, Hd, Hal. clear Hroom.
    destruct (_ || _)%bool eqn:Hroom.
    { apply orb_prop in Hroom as [Hr%Z.ltb_lt|Hr%Z.ltb_lt]; unfold saturating_sub in *; lia. }
    rewrite Hb, Z.eqb_refl, Hp. cbn [negb]. by rewrite Hs.
Qed.

(** An accepted frame is accepted again wherever its bytes are still there and the
    bounds have not shrunk below it. *)
Lemma frame_step_mono s s' base total total' avail avail' sc sc' :
  frame_step s base total avail sc sc' → sc_offset sc' ≤ total' → sc_offset sc' ≤ avail' →
  agree (base + sc_offset sc) (base + sc_offset sc') (st_bytes s) (st_bytes s') →
  frame_step s' base total' avail' sc sc'.
Proof.
  intros (kind & plen & dlen & header & block & Ht & Ha & Hm & Hn & Hal & Hh & Hb & Hd & Hp & Hs)
    Htot Hav Hag.
  exists kind, plen, dlen, header, block. rewrite Hs in Hav, Htot, Hag. cbn in Hav, Htot, Hag.
  split_and!; try done.
  - rewrite <-Hh. apply read_exact_at_agree; [done|done|]. eapply agree_sub; [..|exact Hag]; lia.
  - rewrite <-Hb. apply read_exact_at_agree; [done|done|]. eapply agree_sub; [..|exact Hag]; lia.
Qed.

Lemma frame_step_offset s base total avail sc sc' :
  frame_step s base total avail sc sc' →
  sc_offset sc + 4096 ≤ sc_offset sc' ≤ total ∧ sc_offset sc' ≤ avail ∧
  (sc_offset sc mod 4096 = 0 → sc_offset sc' mod 4096 = 0) ∧
  sc_tail_corruption sc' = sc_tail_corruption sc.
Proof.
  intros (kind & plen & dlen & header & block & Ht & Ha & Hm & Hn & _ & _ & _ & _ & _ & Hs).
  rewrite Hs. cbn. split_and!; (done || lia || idtac).
  intros Ho. by repeat apply aligned_add.
Qed.

(** The scan as a whole: a chain of accepted frames, then the end of the log or a frame
    that is refused. *)
Definition scans (s : Store) (base total avail : Z) : Scan → Scan → Prop :=
  rtc (frame_step s base total avail).

Definition scan_end (s : Store) (base total avail : Z) (sc r : Scan) : Prop :=
  (total ≤ sc_offset sc ∧ r = sc) ∨
  (sc_offset sc < total ∧ recover_step s base total avail sc = Ok (inr r)).

Lemma recover_step_no_err s base total avail sc e :
  0 ≤ base → 0 ≤ sc_offset sc → base + avail ≤ len (st_bytes s) →
  recover_step s base total avail sc ≠ Err e.
Proof.
  intros Hb0 H0 Hav. unfold recover_step. change FRAME_HEADER_LEN with 4096.
  destruct (_ || _)%bool eqn:Hroom; [done|]. apply orb_false_elim in Hroom as [Ht Ha].
  apply saturating_sub_ge in Ha; [|lia].
  rewrite read_exact_at_aligned by done. unfold store_read.
  rewrite slice_ok by lia. cbn [ok_or]. rewrite result_bind_eq.
  repeat (case_match; try done).
Qed.

(** Enough fuel: one iteration per block that is left. *)
Lemma recover_loop_total fuel s base total avail sc :
  0 ≤ base → 0 ≤ sc_offset sc → base + avail ≤ len (st_bytes s) →
  0 < Z.of_nat fuel → avail - sc_offset sc < 4096 * Z.of_nat fuel →
  ∃ sc1 r, recover_loop fuel s base total avail sc = Some (Ok r) ∧
    scans s base total avail sc sc1 ∧ scan_end s base total avail sc1 r.
Proof.
  intros Hb0 H0 Hav. revert sc H0. induction fuel as [|fuel IH]; intros sc H0 Hf Hlt; [lia|].
  cbn [recover_loop]. unfold scan_end. destruct (Z.ltb_spec (sc_offset sc) total) as [Hoff|Hoff].
  2:{ exists sc, sc. split; [done|]. split; [constructor|]. by left. }
  destruct (recover_step s base total avail sc) as [[sc'|r]|e] eqn:Hs.
  - pose proof Hs as Hfs%recover_step_inl; [|done].
    pose proof (frame_step_offset _ _ _ _ _ _ Hfs) as (? & ? & _).
    destruct (IH sc') as (sc1 & r & Hl & Hsc & He); [lia..|].
    exists sc1, r. split; [done|]. split; [|done]. by eapply rtc_l.
  - exists sc, r. split; [done|]. split; [constructor|]. by right.
  - by apply recover_step_no_err in Hs.
Qed.

(** The result is determined by the chain, not by the fuel. *)
Lemma recover_loop_scans fuel s base total avail sc sc1 r r' :
  0 ≤ sc_offset sc → scans s base total avail sc sc1 → scan_end s base total avail sc1 r →
  recover_loop fuel s base total avail sc = Some r' → r' = Ok r.
Proof.
  intros H0 Hsc He. revert fuel H0. induction Hsc as [sc|sc sc2 sc1 Hfs Hsc IH]; intros fuel H0 Hl.
  - destruct He as [[Hge ->]|[Hlt Hs]]; destruct fuel as [|fuel]; cbn [recover_loop] in Hl.
    + destruct (Z.ltb_spec (sc_offset sc) total); [lia|]. by injection Hl.
    + destruct (Z.ltb_spec (sc_offset sc) total); [lia|]. by injection Hl.
    + destruct (Z.ltb_spec (sc_offset sc) total); [done|lia].
    + destruct (Z.ltb_spec (sc_offset sc) total); [|lia]. rewrite Hs in Hl. by injection Hl.
  - pose proof (frame_step_offset _ _ _ _ _ _ Hfs) as (? & ? & _).
    apply recover_step_inl in Hfs; [|done]. destruct fuel as [|fuel]; cbn [recover_loop] in Hl;
      (destruct (Z.ltb_spec (sc_offset sc) total); [|lia]); [done|].
    rewrite Hfs in Hl. apply (IH He fuel); [lia|done].
Qed.

Lemma scans_offset s base total avail sc sc1 :
  scans s base total avail sc sc1 →
  sc_offset sc ≤ sc_offset sc1 ∧ (sc_offset sc mod 4096 = 0 → sc_offset sc1 mod 4096 = 0) ∧
  sc_tail_corruption sc1 = sc_tail_corruption sc.
Proof.
  induction 1 as [sc|sc sc2 sc1 Hfs _ (IH1 & IH2 & IH3)]; [done|].
  apply frame_step_offset in Hfs as (? & _ & Hmod & Htc).
  split_and!; [lia|auto|congruence].
Qed.

Lemma scans_bound s base total avail sc sc1 :
  scans s base total avail sc sc1 → sc_offset sc ≤ total → sc_offset sc ≤ avail →
  sc_offset sc1 ≤ total ∧ sc_offset sc1 ≤ avail.
Proof.
  induction 1 as [sc|sc sc2 sc1 Hfs _ IH]; [done|]. intros _ _.
  apply frame_step_offset in Hfs as (? & ? & _). apply IH; lia.
Qed.

(** The chain is retraced on any store that still has the scanned bytes. *)
Lemma scans_mono s s' base total total' avail avail' sc sc1 :
  scans s base total avail sc sc1 → sc_offset sc1 ≤ total' → sc_offset sc1 ≤ avail' →
  agree (base + sc_offset sc) (base + sc_offset sc1) (st_bytes s) (st_bytes s') →
  scans s' base total' avail' sc sc1.
Proof.
  induction 1 as [sc|sc sc2 sc1 Hfs Hsc IH]; intros Ht Hav Hag; [constructor|].
  pose proof (frame_step_offset _ _ _ _ _ _ Hfs) as (? & _).
  pose proof (scans_offset _ _ _ _ _ _ Hsc) as (? & _).
  eapply rtc_l; [eapply frame_step_mono; [done|lia|lia|]|apply IH; [done..|]];
    (eapply agree_sub; [..|exact Hag]; lia).
Qed.

(** A refused frame ends the scan where it stands. *)
Lemma recover_step_inr s base total avail sc r :
  recover_step s base total avail sc = Ok (inr r) →
  sc_offset r = sc_offset sc ∧ sc_applied_frames r = sc_applied_frames sc ∧
  sc_tail_corruption r = true ∧
  (sc_entries r = sc_entries sc ∨ (sc_applied_frames sc = 0 ∧ sc_entries r = ∅)).
Proof.
  assert (∀ r', r' = scan_tail sc →
    sc_offset r' = sc_offset sc ∧ sc_applied_frames r' = sc_applied_frames sc ∧
    sc_tail_corruption r' = true ∧
    (sc_entries r' = sc_entries sc ∨ (sc_applied_frames sc = 0 ∧ sc_entries r' = ∅))) as Htail.
  { intros r' ->. cbn. auto. }
  unfold recover_step. destruct (_ || _)%bool; [intros [= <-]; by apply Htail|].
  destruct (read_exact_at s (base + sc_offset sc) _) as [h|]; [|done]. rewrite result_bind_eq.
  destruct (decode_frame_header h) as [[[k pl] crc]|]; [|intros [= <-]; by apply Htail].
  destruct (align_up_u64 pl _) as [dl|]; [|intros [= <-]; by apply Htail].
  destruct (_ || _)%bool; [intros [= <-]; by apply Htail|].
  destruct (read_exact_at s _ dl) as [b|]; [|intros [= <-]; by apply Htail].
  destruct (negb _); [intros [= <-]; by apply Htail|].
  destruct (apply_payload _ _ _); [done|]. intros [= <-]. cbn.
  destruct (Z.eqb_spec (sc_applied_frames sc) 0); split_and!; auto.
Qed.

Lemma scans_applied s base total avail sc sc1 :
  scans s base total avail sc sc1 → 0 ≤ sc_applied_frames sc →
  sc_applied_frames sc ≤ sc_applied_frames sc1 ∧
  (sc_applied_frames sc1 = sc_applied_frames sc → sc1 = sc).
Proof.
  induction 1 as [sc|sc sc2 sc1 Hfs _ IH]; [done|]. intros H0.
  destruct Hfs as (? & ? & ? & ? & ? & _ & _ & _ & _ & _ & _ & _ & _ & _ & Hs).
  assert (sc_applied_frames sc2 = sc_applied_frames sc + 1) as E by (rewrite Hs; done).
  destruct IH; [lia|]. split; lia.
Qed.

(** The end of a scan from the start keeps what was replayed. *)
Lemma scan_end_spec s base total avail sc1 r :
  scans s base total avail (mkScan ∅ FILE_HEADER_LEN 0 false) sc1 →
  scan_end s base total avail sc1 r →
  sc_offset r = sc_offset sc1 ∧ sc_applied_frames r = sc_applied_frames sc1 ∧
  sc_entries r = sc_entries sc1.
Proof.
  intros Hsc [[_ ->]|[_ (? & ? & _ & He)%recover_step_inr]]; [done|]. split_and!; [done..|].
  destruct He as [?|[Hz ->]]; [done|].
  apply scans_applied in Hsc as [_ Hsc]; [|done]. by rewrite Hsc.
Qed.
End scan.
