(* ===== verification/ArenaInv.v ===== *)
(** The invariant of an open KIX arena and its preservation: the store holds a header for
    the current write head and a chain of frames whose replay is the index. *)
From S2P Require Import Prelude Bytes Device KixTypes Arena ArenaCodec ArenaLog.

Section inv.
Context `{Crc32}.

Definition scan_start : Scan := mkScan ∅ FILE_HEADER_LEN 0 false.

Record arena_wf (cfg : DriveConfig) (a : DriveArena) : Prop := {
  aw_id : cfg_id cfg = da_drive_id a;
  aw_id_u16 : is_u16 (da_drive_id a);
  aw_offset : cfg_arena_offset_bytes cfg = da_arena_offset_bytes a;
  aw_offset_nonneg : 0 ≤ da_arena_offset_bytes a;
  aw_layout : validate_io_layout cfg = Ok tt;
  aw_resolve : resolve_arena_len_bytes (da_store a) (da_arena_offset_bytes a)
    (cfg_arena_len_bytes cfg) = Ok (da_arena_len_bytes a);
  aw_capacity : len (st_bytes (da_store a)) ≤ MAX_STORE_BYTES;
  aw_head : 4096 ≤ da_write_head a;
  aw_head_aligned : da_write_head a mod 4096 = 0;
  aw_head_in : da_arena_offset_bytes a + da_write_head a ≤ len (st_bytes (da_store a));
  aw_span : match da_arena_len_bytes a with
            | Some l => da_write_head a ≤ l ∧ da_arena_offset_bytes a + l ≤ len (st_bytes (da_store a))
            | None => st_block (da_store a) = false
            end;
}.

Definition arena_avail (a : DriveArena) : Z :=
  available_span_len (da_store a) (da_arena_offset_bytes a) (da_arena_len_bytes a).

Definition arena_header_of (a : DriveArena) : ArenaHeader :=
  arena_header_new (da_drive_id a) (da_arena_len_bytes a) (da_write_head a).

(** The arena [a] is consistent and its log replays to the index [m] in [n] frames. *)
Record arena_inv (cfg : DriveConfig) (a : DriveArena) (m : IndexMap) (n : Z) : Prop := {
  ai_wf : arena_wf cfg a;
  ai_header : slice (da_arena_offset_bytes a) 4096 (st_bytes (da_store a)) =
    Some (encode_arena_header (arena_header_of a));
  ai_scans : scans (da_store a) (da_arena_offset_bytes a) (da_write_head a) (arena_avail a)
    scan_start (mkScan m (da_write_head a) n false);
}.

Lemma arena_avail_eq cfg a :
  arena_wf cfg a →
  arena_avail a = match da_arena_len_bytes a with
                  | Some l => l
                  | None => len (st_bytes (da_store a)) - da_arena_offset_bytes a
                  end.
Proof.
  intros W. unfold arena_avail, available_span_len, saturating_sub, storage_capacity_bytes.
  pose proof (aw_span _ _ W). pose proof (aw_head_in _ _ W). pose proof (aw_head _ _ W).
  destruct (da_arena_len_bytes a); lia.
Qed.

Lemma arena_avail_bounds cfg a :
  arena_wf cfg a →
  da_write_head a ≤ arena_avail a ∧
  da_arena_offset_bytes a + arena_avail a ≤ len (st_bytes (da_store a)).
Proof.
  intros W. rewrite (arena_avail_eq cfg a W). pose proof (aw_span _ _ W) as Hs.
  pose proof (aw_head_in _ _ W). destruct (da_arena_len_bytes a); lia.
Qed.

Lemma arena_header_of_wf cfg a : arena_wf cfg a → arena_header_wf (arena_header_of a).
Proof.
  intros W. pose proof (aw_span _ _ W) as Hs. pose proof (aw_capacity _ _ W).
  pose proof (aw_head_in _ _ W). pose proof (aw_head _ _ W). pose proof (aw_offset_nonneg _ _ W).
  unfold MAX_STORE_BYTES in *.
  unfold arena_header_wf, arena_header_of, arena_header_new. cbn. split; [apply W|].
  unfold fits. destruct (da_arena_len_bytes a); cbn; unfold FLAG_FIXED_SPAN; lia.
Qed.

Lemma validate_header_of cfg a :
  arena_wf cfg a →
  validate_arena_header (arena_header_of a) (da_drive_id a) (da_arena_len_bytes a) = Ok tt.
Proof.
  intros W. unfold validate_arena_header, arena_header_of, arena_header_new, fixed_span_bytes.
  cbn [ah_drive_id ah_write_head ah_flags ah_arena_bytes].
  rewrite Z.eqb_refl. cbn [negb]. pose proof (aw_head _ _ W). pose proof (aw_span _ _ W) as Hs.
  pose proof (aw_head_aligned _ _ W) as Hal%is_aligned_iff.
  destruct (Z.ltb_spec (da_write_head a) FILE_HEADER_LEN) as [Hlt|_];
    [change FILE_HEADER_LEN with 4096 in Hlt; lia|].
  destruct (da_arena_len_bytes a) as [l|].
  2:{ change (negb (Z.land 0 FLAG_FIXED_SPAN =? 0)) with false. cbn iota. by rewrite Hal. }
  change (negb (Z.land FLAG_FIXED_SPAN FLAG_FIXED_SPAN =? 0)) with true. cbn [from_option id].
  rewrite Z.eqb_refl, Hal. cbn [negb]. destruct (Z.ltb_spec l (da_write_head a)); [lia|done].
Qed.

(** Recovery of a store with a valid header returns the end of its scan. *)
Lemma recover_scanned cfg a sc1 sc :
  arena_wf cfg a →
  slice (da_arena_offset_bytes a) 4096 (st_bytes (da_store a)) =
    Some (encode_arena_header (arena_header_of a)) →
  scans (da_store a) (da_arena_offset_bytes a) (da_write_head a) (arena_avail a) scan_start sc1 →
  scan_end (da_store a) (da_arena_offset_bytes a) (da_write_head a) (arena_avail a) sc1 sc →
  recover cfg (Some (da_store a)) =
  Some (Ok (mkDriveRecovery (da_drive_id a) (sc_entries sc) (sc_offset sc)
              (sc_tail_corruption sc) false (sc_applied_frames sc))).
Proof.
  intros W Hh Hs He. unfold recover. rewrite (aw_layout _ _ W), result_bind_eq.
  rewrite (aw_offset _ _ W), (aw_resolve _ _ W), (aw_id _ _ W).
  pose proof (aw_head_in _ _ W). pose proof (aw_head _ _ W). pose proof (aw_offset_nonneg _ _ W).
  pose proof (arena_avail_bounds _ _ W) as [Hav1 Hav2].
  destruct (Z.eqb_spec (len (st_bytes (da_store a))) 0); [lia|]. rewrite andb_false_r.
  unfold read_arena_header. change FILE_HEADER_LEN with 4096 at 1.
  rewrite read_exact_at_aligned by done. unfold store_read. rewrite Hh. cbn [ok_or].
  rewrite result_bind_eq, decode_encode_arena_header by by eapply arena_header_of_wf.
  rewrite (validate_header_of _ _ W). cbn [is_Ok negb].
  change (ah_write_head (arena_header_of a)) with (da_write_head a).
  fold (arena_avail a) scan_start.
  destruct (recover_loop_total (recover_fuel (da_store a)) (da_store a) (da_arena_offset_bytes a)
    (da_write_head a) (arena_avail a) scan_start) as (sc2 & r & Hl & _ & _).
  - done.
  - done.
  - done.
  - unfold recover_fuel. lia.
  - unfold recover_fuel, scan_start, storage_capacity_bytes. cbn [sc_offset].
    change KIX_IO_ALIGN with 4096. change FILE_HEADER_LEN with 4096.
    pose proof (Z.div_mod (len (st_bytes (da_store a))) 4096 ltac:(lia)).
    pose proof (Z.mod_pos_bound (len (st_bytes (da_store a))) 4096 ltac:(lia)).
    rewrite Nat2Z.inj_succ, Z2Nat.id by lia. lia.
  - pose proof Hl as Hl'. eapply recover_loop_scans in Hl; [|done|exact Hs|exact He].
    rewrite Hl', Hl. done.
Qed.

(** The scan of a consistent arena ends with the arena's own state. *)
Lemma recover_inv cfg a m n :
  arena_inv cfg a m n →
  recover cfg (Some (da_store a)) =
  Some (Ok (mkDriveRecovery (da_drive_id a) m (da_write_head a) false false n)).
Proof.
  intros [W Hh Hs].
  apply (recover_scanned cfg a (mkScan m (da_write_head a) n false) (mkScan m (da_write_head a) n false));
    [done..|by left].
Qed.

(** ** Changes of the store that keep the log *)

(** [s'] may follow [s] without disturbing the span: same kind, not smaller, and a
    block device keeps its size. *)
Definition store_next (s s' : Store) : Prop :=
  st_block s' = st_block s ∧ len (st_bytes s) ≤ len (st_bytes s') ≤ MAX_STORE_BYTES ∧
  (st_block s = true → len (st_bytes s') = len (st_bytes s)).

Lemma store_next_trans s1 s2 s3 : store_next s1 s2 → store_next s2 s3 → store_next s1 s3.
Proof.
  intros (B1 & L1 & E1) (B2 & L2 & E2). split_and!; [congruence|lia|lia|].
  intros Hb. rewrite E2, E1 by congruence. done.
Qed.

Lemma resolve_next s s' off l r :
  store_next s s' → resolve_arena_len_bytes s off l = Ok r → resolve_arena_len_bytes s' off l = Ok r.
Proof.
  intros (Hb & Hl & He). unfold resolve_arena_len_bytes, storage_capacity_bytes. rewrite Hb.
  destruct (st_block s); [rewrite He by done; done|].
  destruct (Z.ltb_spec (len (st_bytes s)) off), (Z.ltb_spec (len (st_bytes s')) off); try (done || lia).
  destruct l as [l|]; [|done]. destruct (l <? FILE_HEADER_LEN); [done|].
  destruct (Z.ltb_spec (len (st_bytes s)) (wrap 64 (off + l))); [done|].
  destruct (Z.ltb_spec (len (st_bytes s')) (wrap 64 (off + l))); [lia|done].
Qed.

(** A new store and a new write head inside the span. *)
Definition moved (a : DriveArena) (s' : Store) (head : Z) : DriveArena :=
  with_write_head (with_store a s') head.

Lemma arena_wf_moved cfg a s' head :
  arena_wf cfg a → store_next (da_store a) s' → 4096 ≤ head → head mod 4096 = 0 →
  da_arena_offset_bytes a + head ≤ len (st_bytes s') →
  match da_arena_len_bytes a with Some l => head ≤ l | None => True end →
  arena_wf cfg (moved a s' head).
Proof.
  intros W Hn Hh Hm Hin Hsp. pose proof Hn as (Hb & Hl & _). destruct W.
  constructor; cbn; try done.
  - by eapply resolve_next.
  - lia.
  - destruct (da_arena_len_bytes a); [lia|congruence].
Qed.

Lemma arena_avail_moved a s' head :
  store_next (da_store a) s' → arena_avail a ≤ arena_avail (moved a s' head).
Proof.
  intros (_ & Hl & _). unfold arena_avail, available_span_len, saturating_sub, storage_capacity_bytes.
  cbn. destruct (da_arena_len_bytes a); lia.
Qed.

(** The log below the write head survives, so the replay does. *)
Lemma arena_inv_moved cfg a m n s' :
  arena_inv cfg a m n → store_next (da_store a) s' →
  slice (da_arena_offset_bytes a) 4096 (st_bytes s') =
    slice (da_arena_offset_bytes a) 4096 (st_bytes (da_store a)) →
  agree (da_arena_offset_bytes a + 4096) (da_arena_offset_bytes a + da_write_head a)
    (st_bytes (da_store a)) (st_bytes s') →
  arena_inv cfg (with_store a s') m n.
Proof.
  intros [W Hh Hs] Hn Hsh Hag. pose proof (arena_avail_moved a s' (da_write_head a) Hn).
  pose proof (arena_avail_bounds _ _ W) as [? _].
  pose proof (aw_head _ _ W).
  change (with_store a s') with (moved a s' (da_write_head a)). constructor.
  - apply arena_wf_moved; try done; try apply W.
    + destruct Hn as (_ & ? & _). pose proof (aw_head_in _ _ W). lia.
    + pose proof (aw_span _ _ W). destruct (da_arena_len_bytes a); [lia|done].
  - cbn. rewrite Hsh. done.
  - eapply scans_mono; [exact Hs|done|cbn in *; lia|].
    change (sc_offset scan_start) with 4096. cbn. eapply agree_sub; [..|exact Hag]; lia.
Qed.

(** A frame written at the write head, and the header that publishes it. *)
Lemma arena_inv_extend cfg a m n s' kind payload pad dlen m' :
  arena_inv cfg a m n → store_next (da_store a) s' →
  0 < len payload < 2 ^ 32 → dlen ≤ MAX_RW_COUNT →
  align_up_u64 (len payload) KIX_IO_ALIGN = Ok dlen →
  let base := da_arena_offset_bytes a in
  let head := da_write_head a in
  let next := head + (4096 + dlen) in
  match da_arena_len_bytes a with Some l => next ≤ l | None => True end →
  base + next ≤ len (st_bytes s') →
  agree (base + 4096) (base + head) (st_bytes (da_store a)) (st_bytes s') →
  slice base 4096 (st_bytes s') =
    Some (encode_arena_header (arena_header_new (da_drive_id a) (da_arena_len_bytes a) next)) →
  slice (base + head) 4096 (st_bytes s') = Some (encode_frame_header kind payload) →
  slice (base + head + 4096) dlen (st_bytes s') = Some (payload ++ pad) →
  apply_payload kind payload m = Some m' →
  arena_inv cfg (moved a s' next) m' (n + 1).
Proof.
  intros [W Hh Hs] Hn Hp Hmax Hal base head next Hsp Hin Hag Hhdr Hfh Hfp Hap.
  destruct (align_up_u32 (len payload) dlen) as [Hmod Hdl]; [unfold fits; lia|done|].
  pose proof (aw_head _ _ W). pose proof (aw_head_aligned _ _ W).
  assert (arena_wf cfg (moved a s' next)) as W'.
  { apply arena_wf_moved; try done; [lia|]. by repeat apply aligned_add. }
  pose proof (arena_avail_bounds _ _ W') as [Hav _]. cbn in Hav.
  constructor; [done|done|]. cbn [moved with_write_head with_store da_store da_arena_offset_bytes da_write_head].
  eapply rtc_r.
  - eapply scans_mono; [exact Hs|cbn; lia|cbn; lia|]. change (sc_offset scan_start) with 4096. exact Hag.
  - exists kind, (len payload), dlen, (encode_frame_header kind payload), (payload ++ pad).
    cbn [sc_offset sc_entries sc_applied_frames sc_tail_corruption]. subst base head.
    rewrite Nat2Z.id, take_app_length. split_and!; try (done || lia).
    + rewrite read_exact_at_aligned by done. by apply store_read_Ok.
    + rewrite read_exact_at_aligned by (done || lia). by apply store_read_Ok.
    + apply decode_encode_frame_header. lia.
    + f_equal. lia.
Qed.
End inv.
