(* ===== verification/ArenaOps.v ===== *)
(** What the operations of the KIX arena guarantee: an acknowledged append is recovered,
    a refused one changes nothing that recovery sees, nothing is written outside the
    configured span, truncation repairs a damaged tail. *)
From S2P Require Import Prelude Bytes Device KixTypes Arena ArenaCodec ArenaLog ArenaInv.

Section ops.
Context `{Crc32}.

Lemma arena_write_run off bytes a :
  0 < len bytes → len bytes mod 4096 = 0 →
  arena_write_all_at off bytes a =
  let '(s, r) := uring_write_all (da_store a) off bytes in (with_store a s, r).
Proof.
  intros. unfold arena_write_all_at, mbind, M_mbind, lift, get_state, put_state.
  rewrite from_padded_aligned by done. destruct (uring_write_all _ _ _) as [s r]. by destruct r.
Qed.

Lemma write_arena_header_run h a :
  write_arena_header h a =
  let '(s, r) := store_write (da_store a) (da_arena_offset_bytes a) (encode_arena_header h) in
  (with_store a s, r).
Proof.
  unfold write_arena_header. unfold mbind, M_mbind, get_state.
  rewrite arena_write_run by by rewrite len_encode_arena_header.
  by rewrite uring_write_small by by rewrite len_encode_arena_header.
Qed.

Lemma len_frame_bytes k p dlen :
  len p ≤ dlen → len (frame_bytes k p dlen) = 4096 + dlen.
Proof.
  intros. unfold frame_bytes. rewrite !length_app. pose proof (len_encode_frame_header k p).
  pose proof (len_zeroed (dlen - len p)). lia.
Qed.

Definition span_check (a : DriveArena) (next : Z) : io_result unit :=
  match da_arena_len_bytes a with
  | Some arena_len => ensure (next <=? arena_len) WriteZero
  | None => Ok tt
  end.

Lemma span_check_Ok a next u :
  span_check a next = Ok u →
  match da_arena_len_bytes a with Some l => next ≤ l | None => True end.
Proof. unfold span_check. destruct (da_arena_len_bytes a); [|done]. by intros ?%ensure_Ok%Z.leb_le. Qed.

Lemma append_frame_write_run kind payload a dlen :
  align_up_u64 (len payload) KIX_IO_ALIGN = Ok dlen → dlen mod 4096 = 0 → len payload ≤ dlen →
  append_frame_write kind payload a =
  match (next ← ok_or (checked_add 64 (da_write_head a) (4096 + dlen)) InvalidInput;
         _ ← span_check a next; Ok next) with
  | Err e => (a, Err e)
  | Ok next =>
      let '(s1, r1) := uring_write_all (da_store a)
        (da_arena_offset_bytes a + da_write_head a) (frame_bytes kind payload dlen) in
      match r1 with
      | Err e => (with_store a s1, Err e)
      | Ok _ =>
          let '(s2, r2) := store_write s1 (da_arena_offset_bytes a)
            (encode_arena_header (arena_header_new (da_drive_id a) (da_arena_len_bytes a) next)) in
          match r2 with
          | Err e => (with_store a s2, Err e)
          | Ok _ => (with_store a s2, Ok next)
          end
      end
  end.
Proof.
  intros Hal Hm Hle. pose proof (len_frame_bytes kind payload dlen Hle) as Hlf.
  unfold append_frame_write. rewrite Hal. unfold span_check. change FRAME_HEADER_LEN with 4096.
  unfold mbind at 1, M_mbind at 1, lift at 1.
  unfold mbind at 1, M_mbind at 1, get_state at 1.
  unfold mbind at 1, M_mbind at 1, lift at 1.
  destruct (checked_add _ _ _) as [next|]; cbn [ok_or]; [|done]. rewrite result_bind_eq.
  unfold mbind at 1, M_mbind at 1, lift at 1.
  match goal with |- context [match ?c with Some _ => ensure _ _ | None => Ok tt end] =>
    destruct (match c with Some l => ensure (next <=? l) WriteZero | None => Ok tt end) as [[]|e];
      [|done] end.
  rewrite result_bind_eq. unfold mbind at 1, M_mbind at 1.
  rewrite arena_write_run by (rewrite Hlf; first [lia|by apply aligned_add]).
  destruct (uring_write_all _ _ _) as [s1 [[]|e]]; [|done].
  unfold mbind at 1, M_mbind at 1. rewrite write_arena_header_run.
  cbn [da_store da_arena_offset_bytes with_store].
  destruct (store_write s1 _ _) as [s2 [[]|e]]; done.
Qed.

Lemma append_frame_eq kind payload a :
  append_frame kind payload a =
  match append_frame_write kind payload a with
  | (a1, Ok next) => (moved a1 (store_sync (da_store a1)) next, Ok tt)
  | (a1, Err e) => (a1, Err e)
  end.
Proof.
  unfold append_frame. unfold mbind at 1, M_mbind at 1.
  by destruct (append_frame_write kind payload a) as [a1 [next|e]].
Qed.

Lemma store_write_next s off buf s' r :
  0 ≤ off → len (st_bytes s) ≤ MAX_STORE_BYTES → store_write s off buf = (s', r) →
  store_next s s' ∧
  (∀ lo hi, 0 ≤ lo → hi ≤ len (st_bytes s) → hi ≤ off ∨ off + len buf ≤ lo →
     agree lo hi (st_bytes s) (st_bytes s')).
Proof.
  intros H0 Hmax (Hb & Hl & He & Hm & Hf)%store_write_frame; [|done].
  split; [split_and!; [done|lia|lia|done]|].
  intros lo hi ? ? ? o n ? ? ?. apply Hf; lia.
Qed.

Lemma uring_write_next s off buf s' r :
  0 ≤ off → len (st_bytes s) ≤ MAX_STORE_BYTES → len buf < 2 ^ 32 →
  uring_write_all s off buf = (s', r) →
  store_next s s' ∧
  (∀ lo hi, 0 ≤ lo → hi ≤ len (st_bytes s) → hi ≤ off ∨ off + len buf ≤ lo →
     agree lo hi (st_bytes s) (st_bytes s')).
Proof.
  intros H0 Hmax Hlen. unfold uring_write_all. rewrite wrap_small by (unfold fits; lia).
  destruct (len buf <=? MAX_RW_COUNT).
  - rewrite take_ge by lia. by apply store_write_next.
  - destruct (store_write s off _) as [s1 r1] eqn:Hw. intros [= <- _].
    apply store_write_next in Hw as [Hn Hag]; [|done..]. split; [done|].
    intros lo hi ? ? ?. apply Hag; [done..|]. rewrite length_take. lia.
Qed.

Lemma uring_write_Ok s off buf s' :
  len buf < 2 ^ 32 → uring_write_all s off buf = (s', Ok tt) →
  store_write s off buf = (s', Ok tt) ∧ len buf ≤ MAX_RW_COUNT.
Proof.
  intros Hlen. unfold uring_write_all. rewrite wrap_small by (unfold fits; lia).
  destruct (Z.leb_spec (len buf) MAX_RW_COUNT); [by rewrite take_ge by lia|by destruct (store_write _ _ _)].
Qed.

(** The space an append of [payload] needs: within one submission, within the span. *)
Definition append_room (a : DriveArena) (payload_len : Z) : Prop :=
  let next := da_write_head a + 4096 + (payload_len + 4095) / 4096 * 4096 in
  4096 + (payload_len + 4095) / 4096 * 4096 ≤ MAX_RW_COUNT ∧
  match da_arena_len_bytes a with
  | Some l => next ≤ l
  | None => da_arena_offset_bytes a + next ≤ MAX_STORE_BYTES
  end.

Lemma align_up_div p dlen :
  0 ≤ p → dlen mod 4096 = 0 → p ≤ dlen < p + 4096 → (p + 4095) / 4096 * 4096 = dlen.
Proof.
  intros. pose proof (Z.div_mod dlen 4096 ltac:(lia)).
  pose proof (Z.div_mod (p + 4095) 4096 ltac:(lia)).
  pose proof (Z.mod_pos_bound (p + 4095) 4096 ltac:(lia)). lia.
Qed.

Definition span_room (a : DriveArena) (next : Z) : Prop :=
  match da_arena_len_bytes a with
  | Some l => next ≤ l
  | None => True
  end.

(** The three ways an append ends: refused before any write, failed in the frame write,
    or frame and header both written. *)
Lemma append_frame_write_cases cfg a m n kind payload dlen a1 r :
  arena_inv cfg a m n → len payload + 8192 ≤ 2 ^ 32 →
  align_up_u64 (len payload) KIX_IO_ALIGN = Ok dlen → dlen mod 4096 = 0 →
  len payload ≤ dlen < len payload + 4096 →
  append_frame_write kind payload a = (a1, r) →
  let next := da_write_head a + (4096 + dlen) in
  (is_Ok r = false ∧ a1 = a) ∨
  (∃ s1, is_Ok r = false ∧ a1 = with_store a s1 ∧ span_room a next ∧
     uring_write_all (da_store a) (da_arena_offset_bytes a + da_write_head a)
       (frame_bytes kind payload dlen) = (s1, r ≫= λ _, Ok tt)) ∨
  (∃ s1 s2, r = Ok next ∧ a1 = with_store a s2 ∧ span_room a next ∧ dlen ≤ MAX_RW_COUNT ∧
     store_write (da_store a) (da_arena_offset_bytes a + da_write_head a)
       (frame_bytes kind payload dlen) = (s1, Ok tt) ∧
     store_write s1 (da_arena_offset_bytes a)
       (encode_arena_header (arena_header_new (da_drive_id a) (da_arena_len_bytes a) next)) =
       (s2, Ok tt)).
Proof.
  intros I Hp Hal Hm Hle. pose proof (ai_wf _ _ _ _ I) as W.
  rewrite (append_frame_write_run kind payload a dlen) by (done || lia).
  pose proof (len_frame_bytes kind payload dlen ltac:(lia)) as Hlf.
  pose proof (aw_head_in _ _ W). pose proof (aw_head _ _ W). pose proof (aw_offset_nonneg _ _ W).
  pose proof (aw_capacity _ _ W).
  destruct (next ← _; _ ← _; _) as [nx|e] eqn:Hnext; [|intros [= <- <-]; by left].
  intros Hrun next. right.
  apply result_bind_Ok in Hnext as (? & [-> Hov]%ok_or_Ok%checked_add_Some & Hnext).
  apply result_bind_Ok in Hnext as ([] & Hsp%span_check_Ok & <-%Ok_inj).
  destruct (uring_write_all _ _ (frame_bytes _ _ _)) as [s1 r1] eqn:Hw1.
  pose proof Hw1 as [(_ & Hl1 & _) _]%uring_write_next; [|lia..].
  destruct r1 as [[]|e1]; [|injection Hrun as <- <-; left; by exists s1].
  apply uring_write_Ok in Hw1 as [Hw1 Hrw]; [|lia].
  rewrite store_write_in in Hrun by (rewrite len_encode_arena_header; lia).
  injection Hrun as <- <-. right. exists s1. eexists. split_and!; try done; [lia|].
  apply store_write_in. rewrite len_encode_arena_header. lia.
Qed.

Lemma append_frame_inv cfg a m n kind payload m' a' r :
  arena_inv cfg a m n → 0 < len payload → len payload + 8192 ≤ 2 ^ 32 →
  apply_payload kind payload m = Some m' →
  append_frame kind payload a = (a', r) →
  (r = Ok tt ∧ arena_inv cfg a' m' (n + 1)) ∨ (is_Ok r = false ∧ arena_inv cfg a' m n).
Proof.
  intros I Hp0 Hp Hap. pose proof (ai_wf _ _ _ _ I) as W.
  destruct (align_up_spec (len payload)) as (dlen & Hal & Hm & Hle); [lia|lia|].
  pose proof (len_frame_bytes kind payload dlen ltac:(lia)) as Hlf.
  pose proof (aw_head_in _ _ W). pose proof (aw_head _ _ W). pose proof (aw_offset_nonneg _ _ W).
  pose proof (aw_capacity _ _ W). rewrite append_frame_eq.
  destruct (append_frame_write kind payload a) as [a1 r1] eqn:Hw.
  destruct (append_frame_write_cases cfg a m n kind payload dlen a1 r1)
    as [[Hr ->]|[(s1 & Hr & -> & _ & Hw1)|(s1 & s2 & -> & -> & Hsp & Hrw & Hw1 & Hw2)]]; try done.
  - destruct r1; [done|]. intros [= <- <-]. by right.
  - destruct r1; [done|]. intros [= <- <-]. right. split; [done|].
    apply uring_write_next in Hw1 as [Hn1 Ha1]; [|lia..]. apply (arena_inv_moved _ _ _ _ _ I Hn1);
      [apply (Ha1 (da_arena_offset_bytes a) (da_arena_offset_bytes a + 4096))|apply Ha1]; lia.
  - intros [= <- <-]. left. split; [done|].
    pose proof Hw1 as [Hn1 Ha1]%store_write_next; [|lia..]. pose proof Hn1 as (_ & Hl1 & _).
    pose proof Hw2 as [Hn2 Ha2]%store_write_next; [|lia..].
    apply store_write_Ok in Hw1 as (_ & _ & Hlen1 & Hs1 & _); [|lia].
    apply store_write_Ok in Hw2 as (_ & _ & Hlen2 & Hs2 & _); [|lia]. rewrite len_encode_arena_header in *.
    rewrite Hlf in Hs1.
    rewrite <-(Ha2 (da_arena_offset_bytes a + da_write_head a)
                 (da_arena_offset_bytes a + da_write_head a + (4096 + dlen))) in Hs1 by lia.
    apply slice_app_iff in Hs1 as [Hfh Hfp]; [|apply len_encode_frame_header|lia].
    eapply (arena_inv_extend cfg a m n (store_sync s2) kind payload _ dlen); try done.
    + eapply store_next_trans; [exact Hn1|]. done.
    + lia.
    + cbn. lia.
    + intros o k ? ? ?. rewrite (Ha2 o (o + k)), (Ha1 o (o + k)) by lia. done.
Qed.

Lemma append_frame_room cfg a m n kind payload a' r :
  arena_inv cfg a m n → 0 < len payload → len payload + 8192 ≤ 2 ^ 32 →
  append_room a (len payload) → append_frame kind payload a = (a', r) → r = Ok tt.
Proof.
  intros [W _ _] Hp0 Hp [Hrw Hsp].
  destruct (align_up_spec (len payload)) as (dlen & Hal & Hm & Hle); [lia|lia|].
  rewrite (align_up_div _ dlen) in Hrw, Hsp by lia.
  rewrite append_frame_eq, (append_frame_write_run kind payload a dlen) by (done || lia).
  pose proof (len_frame_bytes kind payload dlen ltac:(lia)) as Hlf.
  pose proof (aw_head _ _ W). pose proof (aw_offset_nonneg _ _ W).
  pose proof (aw_capacity _ _ W). pose proof (aw_span _ _ W) as Hspan. unfold MAX_STORE_BYTES in *.
  rewrite checked_add_ok by (destruct (da_arena_len_bytes a); lia). cbn [ok_or]. rewrite result_bind_eq.
  assert (span_check a (da_write_head a + (4096 + dlen)) = Ok tt) as ->.
  { unfold span_check. destruct (da_arena_len_bytes a); [|done]. apply ensure_Ok, Z.leb_le. lia. }
  rewrite result_bind_eq, uring_write_small by lia.
  destruct (store_write_grow_Ok (da_store a) (da_arena_offset_bytes a + da_write_head a)
    (frame_bytes kind payload dlen)) as (s1 & Hw1).
  { destruct (da_arena_len_bytes a); [left; lia|right; split; [done|unfold MAX_STORE_BYTES; lia]]. }
  rewrite Hw1. apply store_write_Ok in Hw1 as (_ & _ & Hl1 & _); [|lia].
  rewrite store_write_in by (rewrite len_encode_arena_header; lia). by intros [= _ <-].
Qed.

(** ** Sequences of operations *)

Inductive arena_op : Type :=
| OpDeltas (deltas : list DeltaEntry)
| OpCheckpoint (entries : list (ChunkId * LocationRecord)).

Definition run_op (op : arena_op) : M DriveArena io_error_kind unit :=
  match op with
  | OpDeltas deltas => append_delta_batch deltas
  | OpCheckpoint entries => write_checkpoint entries
  end.

(** The operations in order, each followed by its answer. *)
Fixpoint run_ops (ops : list arena_op) (a : DriveArena) : DriveArena * list (arena_op * bool) :=
  match ops with
  | [] => (a, [])
  | op :: ops' =>
      let '(a1, r) := run_op op a in
      let '(a2, log) := run_ops ops' a1 in
      (a2, (op, is_Ok r) :: log)
  end.

(** The index an operation leaves, and the index after the acknowledged ones. *)
Definition op_effect (m : IndexMap) (op : arena_op) : IndexMap :=
  match op with
  | OpDeltas deltas => foldl apply_delta m deltas
  | OpCheckpoint entries => insert_all entries
  end.

Definition acknowledged (log : list (arena_op * bool)) : list arena_op :=
  (filter (fun e => e.2 = true) log).*1.

(** Operations the engine issues: well-formed entries, less than 4 GiB of payload. *)
Definition op_wf (op : arena_op) : Prop :=
  match op with
  | OpDeltas deltas => Forall delta_wf deltas ∧ len deltas * DELTA_ENTRY_LEN + 8196 ≤ 2 ^ 32
  | OpCheckpoint entries =>
      Forall checkpoint_item_wf entries ∧ len entries * CHECKPOINT_ENTRY_LEN + 8196 ≤ 2 ^ 32
  end.

Definition op_payload (op : arena_op) : list byte :=
  match op with
  | OpDeltas deltas => delta_batch_payload deltas
  | OpCheckpoint entries => checkpoint_payload entries
  end.

Definition op_kind (op : arena_op) : FrameKind :=
  match op with
  | OpDeltas _ => DeltaBatch
  | OpCheckpoint _ => Checkpoint
  end.

Lemma run_op_append op : run_op op = append_frame (op_kind op) (op_payload op).
Proof. by destruct op. Qed.

Lemma concat_len_const {A : Type} (f : A → list byte) (P : A → Prop) k l :
  (∀ x, P x → len (f x) = k) → Forall P l → len (concat (f <$> l)) = len l * k.
Proof.
  intros Hf. induction 1 as [|x l Hx _ IH]; [done|]. cbn [fmap list_fmap concat length].
  rewrite length_app. fold (concat (f <$> l)). rewrite Nat2Z.inj_add, IH, Hf by done. lia.
Qed.

Lemma checkpoint_item_len (e : ChunkId * LocationRecord) :
  checkpoint_item_wf e → len (e.1 ++ encode_location_record e.2) = CHECKPOINT_ENTRY_LEN.
Proof.
  intros [He _]. unfold chunk_id_wf in He. autorewrite with len.
  unfold CHECKPOINT_ENTRY_LEN, LOCATION_ENCODED_LEN. lia.
Qed.

Lemma op_payload_len op :
  op_wf op → 4 ≤ len (op_payload op) ∧ len (op_payload op) + 8192 ≤ 2 ^ 32.
Proof.
  destruct op as [ds|es]; intros [Hwf Hsz]; cbn [op_payload]; unfold delta_batch_payload, checkpoint_payload;
    rewrite length_app, length_le_bytes.
  - pose proof (concat_len_const encode_delta _ DELTA_ENTRY_LEN ds
      (fun d Hd => proj1 (decode_encode_delta d Hd)) Hwf). lia.
  - pose proof (concat_len_const _ _ CHECKPOINT_ENTRY_LEN es checkpoint_item_len Hwf). lia.
Qed.

Lemma op_payload_apply m op :
  op_wf op → apply_payload (op_kind op) (op_payload op) m = Some (op_effect m op).
Proof.
  destruct op as [ds|es]; intros [Hwf Hsz]; cbn.
  - rewrite decode_delta_batch_payload; [done|done|]. unfold DELTA_ENTRY_LEN in Hsz. lia.
  - apply decode_checkpoint_payload; [done|].
    unfold CHECKPOINT_ENTRY_LEN, LOCATION_ENCODED_LEN in Hsz. lia.
Qed.

Lemma run_op_inv cfg a m n op a' r :
  arena_inv cfg a m n → op_wf op → run_op op a = (a', r) →
  (r = Ok tt ∧ arena_inv cfg a' (op_effect m op) (n + 1)) ∨ (is_Ok r = false ∧ arena_inv cfg a' m n).
Proof.
  intros I Hwf Hr. pose proof (op_payload_len op Hwf). rewrite run_op_append in Hr.
  eapply (append_frame_inv cfg a m n (op_kind op) (op_payload op));
    [done|lia|lia|by apply op_payload_apply|done].
Qed.

Lemma run_ops_inv cfg a m n ops a' log :
  arena_inv cfg a m n → Forall op_wf ops → run_ops ops a = (a', log) →
  arena_inv cfg a' (foldl op_effect m (acknowledged log)) (n + len (acknowledged log)).
Proof.
  intros I Hwf. revert a m n I a' log.
  induction Hwf as [|op ops Hop _ IH]; intros a m n I a' log Hr; cbn in Hr.
  - injection Hr as <- <-. cbn. by rewrite Z.add_0_r.
  - destruct (run_op op a) as [a1 r] eqn:H1. destruct (run_ops ops a1) as [a2 log2] eqn:H2.
    injection Hr as <- <-. destruct (run_op_inv _ _ _ _ _ _ _ I Hop H1) as [[-> I1]|[Hr I1]].
    + specialize (IH _ _ _ I1 _ _ H2).
      change (acknowledged ((op, is_Ok (Ok tt)) :: log2)) with (op :: acknowledged log2).
      cbn [length foldl]. replace (n + Z.of_nat (S _)) with (n + 1 + len (acknowledged log2)) by lia.
      done.
    + specialize (IH _ _ _ I1 _ _ H2). rewrite Hr.
      by change (acknowledged ((op, false) :: log2)) with (acknowledged log2).
Qed.
End ops.
