(* ===== verification/ArenaOpen.v ===== *)
(** Opening, formatting, repairing and rebuilding a KIX arena. *)
From S2P Require Import Prelude Bytes Device KixTypes Arena ArenaCodec ArenaLog ArenaInv ArenaOps.

Section open.
Context `{Crc32}.

(** A configuration whose span arithmetic does not overflow. *)
Definition config_wf (cfg : DriveConfig) : Prop :=
  is_u16 (cfg_id cfg) ∧ 0 ≤ cfg_arena_offset_bytes cfg ∧
  match cfg_arena_len_bytes cfg with
  | Some l => cfg_arena_offset_bytes cfg + l < 2 ^ 64
  | None => True
  end.

Lemma resolve_spec cfg s l :
  config_wf cfg → len (st_bytes s) ≤ MAX_STORE_BYTES →
  resolve_arena_len_bytes s (cfg_arena_offset_bytes cfg) (cfg_arena_len_bytes cfg) = Ok l →
  cfg_arena_offset_bytes cfg ≤ len (st_bytes s) ∧
  match l with
  | Some l => 4096 ≤ l ∧ cfg_arena_offset_bytes cfg + l ≤ len (st_bytes s)
  | None => st_block s = false ∧ cfg_arena_len_bytes cfg = None
  end.
Proof.
  intros (_ & H0 & Hc) Hmax. unfold resolve_arena_len_bytes, storage_capacity_bytes.
  change FILE_HEADER_LEN with 4096. unfold MAX_STORE_BYTES in *.
  destruct (Z.ltb_spec (len (st_bytes s)) (cfg_arena_offset_bytes cfg)); [done|].
  destruct (cfg_arena_len_bytes cfg) as [c|]; [|destruct (st_block s)].
  - destruct (Z.ltb_spec c 4096); [done|]. rewrite wrap_small by (unfold fits; lia).
    destruct (Z.ltb_spec (len (st_bytes s)) (cfg_arena_offset_bytes cfg + c)); [done|].
    intros <-%Ok_inj. lia.
  - destruct (Z.ltb_spec (len (st_bytes s) - cfg_arena_offset_bytes cfg) 4096); [done|].
    rewrite wrap_small by (unfold fits; lia).
    destruct (Z.ltb_spec (len (st_bytes s)) (cfg_arena_offset_bytes cfg + (len (st_bytes s) - cfg_arena_offset_bytes cfg))); [done|].
    intros <-%Ok_inj. lia.
  - intros <-%Ok_inj. done.
Qed.

(** The log of a fresh header is empty. *)
Lemma arena_inv_fresh cfg a :
  arena_wf cfg a → da_write_head a = 4096 →
  slice (da_arena_offset_bytes a) 4096 (st_bytes (da_store a)) =
    Some (encode_arena_header (arena_header_of a)) →
  arena_inv cfg a ∅ 0.
Proof. intros W Hh Hs. constructor; [done..|]. rewrite Hh. constructor. Qed.

(** The span a store offers for the configured arena. *)
Definition span_ok (cfg : DriveConfig) (s : Store) (l : option Z) : Prop :=
  match l with
  | Some l => resolve_arena_len_bytes s (cfg_arena_offset_bytes cfg) (cfg_arena_len_bytes cfg) = Ok (Some l) ∧
      4096 ≤ l ∧ cfg_arena_offset_bytes cfg + l ≤ len (st_bytes s)
  | None => st_block s = false ∧ cfg_arena_len_bytes cfg = None
  end.

Lemma resolve_none cfg s :
  st_block s = false → cfg_arena_len_bytes cfg = None →
  cfg_arena_offset_bytes cfg ≤ len (st_bytes s) →
  resolve_arena_len_bytes s (cfg_arena_offset_bytes cfg) (cfg_arena_len_bytes cfg) = Ok None.
Proof.
  intros Hb Hc Hl. unfold resolve_arena_len_bytes, storage_capacity_bytes. rewrite Hb, Hc.
  destruct (Z.ltb_spec (len (st_bytes s)) (cfg_arena_offset_bytes cfg)); [lia|done].
Qed.

Lemma format_arena_inv cfg s l s' a :
  config_wf cfg → validate_io_layout cfg = Ok tt → len (st_bytes s) ≤ MAX_STORE_BYTES →
  span_ok cfg s l → format_arena cfg s l = (s', Ok a) →
  s' = da_store a ∧ arena_inv cfg a ∅ 0 ∧ da_arena_len_bytes a = l.
Proof.
  intros (Hid & H0 & Hc) Hlay Hmax Hsp. unfold format_arena. change FILE_HEADER_LEN with 4096.
  set (h := arena_header_new (cfg_id cfg) l 4096).
  rewrite from_padded_aligned by by rewrite len_encode_arena_header.
  rewrite uring_write_small by by rewrite len_encode_arena_header.
  destruct (store_write s (cfg_arena_offset_bytes cfg) (encode_arena_header h)) as [s1 r1] eqn:Hw.
  pose proof Hw as [Hn _]%store_write_next; [|done..]. destruct r1 as [[]|]; [|done].
  apply store_write_Ok in Hw as (Hb1 & _ & Hl1 & Hs1 & _); [|done].
  rewrite len_encode_arena_header in Hl1, Hs1. pose proof Hn as (_ & Hlen & _).
  intros [= <- <-]. split; [done|]. split; [|done]. destruct l as [l|].
  - rewrite bool_decide_eq_false_2, andb_false_r by done. destruct Hsp as (Hr & Hl & Hin).
    apply arena_inv_fresh; [|done|done]. constructor; cbn; try (done || lia).
    by eapply resolve_next.
  - destruct Hsp as [Hb Hnone]. rewrite Hb1, Hb. cbn [negb andb]. rewrite bool_decide_eq_true_2 by done.
    destruct (store_set_len_spec s1 (cfg_arena_offset_bytes cfg + 4096)) as (Hl2 & Hb2 & Hs2); [lia|].
    apply arena_inv_fresh; [|done|].
    + constructor; try (cbn; done || lia).
      * cbn [da_store da_arena_offset_bytes da_arena_len_bytes]. apply resolve_none; [cbn; congruence|done|].
        cbn [st_bytes store_sync]. lia.
      * cbn [da_store store_sync st_bytes]. lia.
      * cbn [da_store store_sync st_bytes da_arena_offset_bytes da_write_head]. lia.
      * cbn. congruence.
    + cbn [da_store store_sync st_bytes da_arena_offset_bytes]. rewrite Hs2 by lia. exact Hs1.
Qed.

Lemma reset_config_inv cfg file file' a :
  config_wf cfg → len (st_bytes (open_data_file file)) ≤ MAX_STORE_BYTES →
  reset_config cfg file = (file', Ok a) → file' = Some (da_store a) ∧ arena_inv cfg a ∅ 0.
Proof.
  intros Hcfg Hmax. unfold reset_config. destruct (validate_io_layout cfg) as [[]|] eqn:Hlay; [|done].
  set (s := open_data_file file) in *.
  destruct (resolve_arena_len_bytes s _ _) as [l|] eqn:Hr; [|done].
  pose proof (resolve_spec _ _ _ Hcfg Hmax Hr) as [Hoff Hl].
  set (s1 := if _ && _ then _ else _).
  assert (len (st_bytes s1) ≤ MAX_STORE_BYTES ∧ span_ok cfg s1 l) as [Hmax1 Hsp].
  { subst s1. destruct l as [l|].
    - rewrite bool_decide_eq_false_2, andb_false_r by done. unfold span_ok. done.
    - destruct Hl as [Hb Hnone]. rewrite Hb, bool_decide_eq_true_2 by done. cbn [negb andb]. done. }
  destruct (format_arena cfg s1 l) as [s2 r2] eqn:Hf. intros [= <- ->].
  by apply format_arena_inv in Hf as (-> & ? & _).
Qed.

(** Formatting a fixed span always succeeds and rewrites the header block only. *)
Lemma reset_config_ok cfg s l :
  config_wf cfg → len (st_bytes s) ≤ MAX_STORE_BYTES → validate_io_layout cfg = Ok tt →
  resolve_arena_len_bytes s (cfg_arena_offset_bytes cfg) (cfg_arena_len_bytes cfg) = Ok (Some l) →
  let base := cfg_arena_offset_bytes cfg in
  let hdr := encode_arena_header (arena_header_new (cfg_id cfg) (Some l) 4096) in
  let a := mkDriveArena (cfg_id cfg) (mkStore (splice base hdr (st_bytes s)) (st_block s) [])
             base (Some l) 4096 in
  reset_config cfg (Some s) = (Some (da_store a), Ok a).
Proof.
  intros Hcfg Hmax Hlay Hr base hdr a. unfold reset_config. rewrite Hlay.
  change (open_data_file (Some s)) with s. cbv zeta. rewrite Hr.
  pose proof (resolve_spec _ _ _ Hcfg Hmax Hr) as (_ & Hl & Hin).
  rewrite bool_decide_eq_false_2, andb_false_r by done.
  unfold format_arena. change FILE_HEADER_LEN with 4096. fold hdr.
  pose proof (len_encode_arena_header (arena_header_new (cfg_id cfg) (Some l) 4096)) as Hlh. fold hdr in Hlh.
  rewrite from_padded_aligned by (rewrite Hlh; done). rewrite uring_write_small by (rewrite Hlh; done).
  rewrite store_write_in by (rewrite Hlh; lia).
  by rewrite bool_decide_eq_false_2, andb_false_r by done.
Qed.

(** C2: whatever sequence of delta batches and checkpoints is issued to a freshly formatted
    arena, the recovery scan returns exactly the index obtained by replaying, in order,
    the operations that were acknowledged: nothing acknowledged is lost and nothing
    refused is seen, with no corruption reported and one frame per acknowledgement. *)
Theorem recover_replays_acknowledged cfg file file' a ops a' log :
  config_wf cfg → len (st_bytes (open_data_file file)) ≤ MAX_STORE_BYTES →
  reset_config cfg file = (file', Ok a) → Forall op_wf ops → run_ops ops a = (a', log) →
  recover cfg (Some (da_store a')) =
  Some (Ok (mkDriveRecovery (cfg_id cfg) (foldl op_effect ∅ (acknowledged log))
              (da_write_head a') false false (len (acknowledged log)))).
Proof.
  intros Hcfg Hmax [_ I]%reset_config_inv Hops Hrun; [|done..].
  pose proof (run_ops_inv _ _ _ _ _ _ _ I Hops Hrun) as I'.
  rewrite (recover_inv _ _ _ _ I'), <-(aw_id _ _ (ai_wf _ _ _ _ I')). done.
Qed.

(** An append for which the span has room is acknowledged: a batch whose padded frame
    fits below the end of the span (or of the largest file) and one I/O submission
    always succeeds. *)
Theorem append_with_room_succeeds cfg file file' a1 ops a log op a' r :
  config_wf cfg → len (st_bytes (open_data_file file)) ≤ MAX_STORE_BYTES →
  reset_config cfg file = (file', Ok a1) → Forall op_wf ops → run_ops ops a1 = (a, log) →
  op_wf op → append_room a (len (op_payload op)) → run_op op a = (a', r) → r = Ok tt.
Proof.
  intros Hcfg Hmax [_ I]%reset_config_inv Hops Hrun Hop Hroom Hr; [|done..].
  pose proof (run_ops_inv _ _ _ _ _ _ _ I Hops Hrun) as I'. pose proof (op_payload_len op Hop).
  rewrite run_op_append in Hr. eapply append_frame_room; [exact I'| | |exact Hroom|exact Hr]; lia.
Qed.

(** ** The scan of arbitrary contents *)

Lemma available_span_bounds s off l :
  0 ≤ off ≤ len (st_bytes s) → off + available_span_len s off l ≤ len (st_bytes s).
Proof.
  intros. unfold available_span_len, saturating_sub, storage_capacity_bytes. destruct l; lia.
Qed.

(** The cases of a recovery that gets past the configuration checks. *)
Lemma recover_cases cfg s l :
  config_wf cfg → len (st_bytes s) ≤ MAX_STORE_BYTES → validate_io_layout cfg = Ok tt →
  resolve_arena_len_bytes s (cfg_arena_offset_bytes cfg) (cfg_arena_len_bytes cfg) = Ok l →
  let base := cfg_arena_offset_bytes cfg in
  let avail := available_span_len s base l in
  (∃ rebuild, (rebuild = false → len (st_bytes s) = 0) ∧ recover cfg (Some s) = Some (Ok (recovery_empty (cfg_id cfg) rebuild))) ∨
  ∃ header sc1 sc,
    read_arena_header s base = Ok header ∧
    validate_arena_header header (cfg_id cfg) l = Ok tt ∧
    scans s base (ah_write_head header) avail scan_start sc1 ∧
    scan_end s base (ah_write_head header) avail sc1 sc ∧
    recover cfg (Some s) =
    Some (Ok (mkDriveRecovery (cfg_id cfg) (sc_entries sc) (sc_offset sc) (sc_tail_corruption sc)
                false (sc_applied_frames sc))).
Proof.
  intros Hcfg Hmax Hlay Hr base avail. unfold recover. rewrite Hlay, result_bind_eq, Hr.
  pose proof (resolve_spec _ _ _ Hcfg Hmax Hr) as [Hoff _]. destruct Hcfg as (_ & H0 & _).
  destruct (Z.eqb_spec (len (st_bytes s)) 0) as [Hz|Hz].
  { destruct (negb (st_block s)); [left; exists false; done|].
    rewrite andb_false_l. left. exists true. split; [done|].
    assert (read_arena_header s (cfg_arena_offset_bytes cfg) = Err UnexpectedEof) as ->; [|done].
    unfold read_arena_header. rewrite read_exact_at_aligned by done. unfold store_read.
    change FILE_HEADER_LEN with 4096. rewrite slice_None by lia. done. }
  rewrite andb_false_r.
  destruct (read_arena_header s _) as [header|] eqn:Hh; [|left; exists true; done].
  destruct (validate_arena_header _ _ _) as [[]|] eqn:Hv; [|left; exists true; done]. right.
  destruct (recover_loop_total (recover_fuel s) s base (ah_write_head header) avail scan_start)
    as (sc1 & sc & Hl & Hsc & He).
  - done.
  - done.
  - by apply available_span_bounds.
  - unfold recover_fuel. lia.
  - pose proof (available_span_bounds s base l ltac:(done)).
    unfold recover_fuel, scan_start, storage_capacity_bytes. cbn [sc_offset].
    change KIX_IO_ALIGN with 4096. change FILE_HEADER_LEN with 4096.
    pose proof (Z.div_mod (len (st_bytes s)) 4096 ltac:(lia)).
    pose proof (Z.mod_pos_bound (len (st_bytes s)) 4096 ltac:(lia)).
    rewrite Nat2Z.inj_succ, Z2Nat.id by lia. subst base avail. lia.
  - exists header, sc1, sc. split_and!; try done. cbn [is_Ok negb].
    fold base avail scan_start. by rewrite Hl.
Qed.

Lemma validate_header_head header id l :
  validate_arena_header header id l = Ok tt → 4096 ≤ ah_write_head header.
Proof.
  unfold validate_arena_header. change FILE_HEADER_LEN with 4096.
  destruct (negb _); [done|]. by destruct (Z.ltb_spec (ah_write_head header) 4096).
Qed.

Lemma read_header_avail cfg s l header :
  match l with
  | Some l => 4096 ≤ l ∧ cfg_arena_offset_bytes cfg + l ≤ len (st_bytes s)
  | None => st_block s = false ∧ cfg_arena_len_bytes cfg = None
  end →
  read_arena_header s (cfg_arena_offset_bytes cfg) = Ok header →
  4096 ≤ available_span_len s (cfg_arena_offset_bytes cfg) l.
Proof.
  intros Hl (b & Hb & _)%result_bind_Ok. change FILE_HEADER_LEN with 4096 in Hb.
  rewrite read_exact_at_aligned in Hb by done.
  apply store_read_Ok, slice_Some in Hb as (? & _ & ? & _).
  unfold available_span_len, saturating_sub, storage_capacity_bytes. destruct l; lia.
Qed.

(** C34: recovery terminates with a result on every store, whatever bytes it holds.  It
    fails only when the configured span does not fit the store; otherwise it returns a
    recovery, and unless a rebuild is required the replayed length is a block-aligned
    prefix of the span. *)
Theorem recover_total cfg s :
  config_wf cfg → len (st_bytes s) ≤ MAX_STORE_BYTES →
  ∃ res, recover cfg (Some s) = Some res ∧
    (is_Ok res = true ↔ validate_io_layout cfg = Ok tt ∧
       is_Ok (resolve_arena_len_bytes s (cfg_arena_offset_bytes cfg) (cfg_arena_len_bytes cfg)) = true) ∧
    ∀ r, res = Ok r → dr_replay_len r mod 4096 = 0 ∧
      0 ≤ dr_replay_len r ∧ cfg_arena_offset_bytes cfg + dr_replay_len r ≤ len (st_bytes s).
Proof.
  intros Hcfg Hmax. destruct (validate_io_layout cfg) as [[]|e] eqn:Hlay.
  2:{ exists (Err e). unfold recover. rewrite Hlay. split_and!; [done| |done].
      split; [done|by intros [? _]]. }
  destruct (resolve_arena_len_bytes s _ _) as [l|e] eqn:Hr.
  2:{ exists (Err e). unfold recover. rewrite Hlay, result_bind_eq, Hr. split_and!; [done| |done].
      split; [done|by intros [_ ?]]. }
  pose proof (resolve_spec _ _ _ Hcfg Hmax Hr) as [Hoff Hl]. pose proof Hcfg as (_ & H0 & _).
  destruct (recover_cases cfg s l Hcfg Hmax Hlay Hr)
    as [(rb & _ & ->)|(header & sc1 & sc & Hh & Hv & Hsc & He & ->)];
    eexists; (split; [done|]); (split; [done|]); intros r <-%Ok_inj.
  { cbn. split; [done|]. lia. }
  pose proof (scan_end_spec _ _ _ _ _ _ Hsc He) as (Ho & _).
  cbn [dr_replay_len]. rewrite Ho.
  pose proof (scans_offset _ _ _ _ _ _ Hsc) as (Hge & Hmod & _). change (sc_offset scan_start) with 4096 in *.
  pose proof (available_span_bounds s _ l (conj H0 Hoff)).
  assert (sc_offset sc1 ≤ available_span_len s (cfg_arena_offset_bytes cfg) l) as Hb.
  { eapply scans_bound; [exact Hsc| |].
    - by apply validate_header_head in Hv.
    - change (sc_offset scan_start) with 4096. by eapply read_header_avail. }
  split_and!; [by apply Hmod|lia|lia].
Qed.

(** ** Repair *)

Lemma open_config_existing cfg s file' a :
  len (st_bytes s) ≠ 0 → open_config cfg (Some s) = (file', Ok a) →
  validate_io_layout cfg = Ok tt ∧
  resolve_arena_len_bytes s (cfg_arena_offset_bytes cfg) (cfg_arena_len_bytes cfg) =
    Ok (da_arena_len_bytes a) ∧
  ∃ header, read_arena_header s (cfg_arena_offset_bytes cfg) = Ok header ∧
    validate_arena_header header (cfg_id cfg) (da_arena_len_bytes a) = Ok tt ∧
    a = mkDriveArena (cfg_id cfg) s (cfg_arena_offset_bytes cfg) (da_arena_len_bytes a)
          (ah_write_head header).
Proof.
  intros Hne. unfold open_config. destruct (validate_io_layout cfg) as [[]|]; [|done]. cbv zeta.
  change (open_data_file (Some s)) with s.
  destruct (resolve_arena_len_bytes s _ _) as [l|] eqn:Hr; [|done].
  rewrite bool_decide_eq_false_2 by done. destruct (Z.eqb_spec (len (st_bytes s)) 0); [done|].
  rewrite andb_false_r. cbn [orb]. intros [= _ Ha].
  apply result_bind_Ok in Ha as (header & Hh & Ha). apply result_bind_Ok in Ha as ([] & Hv & <-%Ok_inj).
  cbn. split_and!; [done..|]. by exists header.
Qed.

(** Opening a store with a valid header finds the arena as it was left. *)
Lemma open_config_wf cfg a :
  arena_wf cfg a →
  slice (da_arena_offset_bytes a) 4096 (st_bytes (da_store a)) =
    Some (encode_arena_header (arena_header_of a)) →
  open_config cfg (Some (da_store a)) = (Some (da_store a), Ok a).
Proof.
  intros W Hh. unfold open_config. rewrite (aw_layout _ _ W).
  change (open_data_file (Some (da_store a))) with (da_store a). cbv zeta.
  rewrite (aw_offset _ _ W), (aw_resolve _ _ W), (aw_id _ _ W).
  pose proof (aw_head_in _ _ W). pose proof (aw_head _ _ W). pose proof (aw_offset_nonneg _ _ W).
  rewrite bool_decide_eq_false_2 by done.
  destruct (Z.eqb_spec (len (st_bytes (da_store a))) 0); [lia|]. rewrite andb_false_r. cbn [orb].
  unfold read_arena_header. change FILE_HEADER_LEN with 4096.
  rewrite read_exact_at_aligned by done. unfold store_read. rewrite Hh. cbn [ok_or].
  rewrite result_bind_eq, decode_encode_arena_header by by eapply arena_header_of_wf.
  rewrite result_bind_eq, (validate_header_of _ _ W), result_bind_eq. by destruct a.
Qed.

(** Truncation inside a fixed span always succeeds. *)
Lemma truncate_to_ok cfg a l n :
  arena_wf cfg a → da_arena_len_bytes a = Some l → n mod 4096 = 0 → 4096 ≤ n ≤ l →
  ∃ a', truncate_to n a = (a', Ok tt).
Proof.
  intros W Hl Hm Hn. pose proof (aw_span _ _ W) as Hspan. rewrite Hl in Hspan.
  unfold truncate_to. change FILE_HEADER_LEN with 4096. rewrite Z.max_l, align_up_aligned by (done || lia).
  unfold mbind at 1, M_mbind at 1, lift at 1. unfold mbind at 1, M_mbind at 1, get_state at 1.
  rewrite Hl. unfold mbind at 1, M_mbind at 1, lift at 1, ensure.
  destruct (Z.leb_spec n l); [|lia]. unfold mbind at 1, M_mbind at 1, put_state at 1.
  unfold mbind at 1, M_mbind at 1. rewrite write_arena_header_run.
  cbn [da_store with_write_head da_arena_offset_bytes].
  rewrite store_write_in by (rewrite len_encode_arena_header; lia).
  unfold mbind at 1, M_mbind at 1, get_state at 1.
  cbn [da_arena_len_bytes with_store with_write_head]. rewrite Hl, bool_decide_eq_false_2, andb_false_r by done.
  by eexists.
Qed.

Lemma truncate_to_run n a a' :
  truncate_to n a = (a', Ok tt) →
  ∃ head s1, align_up_u64 (Z.max n 4096) KIX_IO_ALIGN = Ok head ∧
    match da_arena_len_bytes a with Some l => head ≤ l | None => True end ∧
    store_write (da_store a) (da_arena_offset_bytes a)
      (encode_arena_header (arena_header_new (da_drive_id a) (da_arena_len_bytes a) head)) = (s1, Ok tt) ∧
    a' = moved a
      (store_sync (if negb (st_block s1) && bool_decide (da_arena_len_bytes a = None)
                   then store_set_len s1 (da_arena_offset_bytes a + head) else s1)) head.
Proof.
  unfold truncate_to. change FILE_HEADER_LEN with 4096. intros Ht. inv_ok.
  rename x into head. destruct x3. rewrite write_arena_header_run in Hx3.
  cbn [da_store da_arena_offset_bytes with_write_head] in Hx3.
  destruct (store_write (da_store a) _ _) as [s1 r1] eqn:Hw. injection Hx3 as Hs ->. subst s3.
  exists head, s1. split; [done|]. split.
  { destruct (da_arena_len_bytes a); [|done]. by apply ensure_Ok, Z.leb_le in Hx1. }
  split; [done|]. cbn [da_store da_arena_len_bytes da_arena_offset_bytes with_store with_write_head] in *.
  unfold arena_sync_data in Ht. inv_ok. destruct (_ && _); inv_ok; done.
Qed.

(** The store [truncate_to] leaves: the header rewritten, a growing file cut. *)
Lemma truncated_store cfg s l base hdr head s1 :
  len hdr = 4096 → 0 ≤ base → 4096 ≤ head → len (st_bytes s) ≤ MAX_STORE_BYTES →
  cfg_arena_offset_bytes cfg = base →
  match l with Some _ => True | None => st_block s = false ∧ cfg_arena_len_bytes cfg = None end →
  base + head ≤ len (st_bytes s) →
  resolve_arena_len_bytes s base (cfg_arena_len_bytes cfg) = Ok l →
  store_write s base hdr = (s1, Ok tt) →
  let s2 := if negb (st_block s1) && bool_decide (l = None)
            then store_set_len s1 (base + head) else s1 in
  st_block s2 = st_block s ∧ base + head ≤ len (st_bytes s2) ≤ MAX_STORE_BYTES ∧
  (st_block s = true ∨ l ≠ None → len (st_bytes s2) = len (st_bytes s)) ∧
  slice base 4096 (st_bytes s2) = Some hdr ∧
  agree (base + 4096) (base + head) (st_bytes s) (st_bytes s2) ∧
  resolve_arena_len_bytes s2 base (cfg_arena_len_bytes cfg) = Ok l.
Proof.
  intros Hh H0 Hhead Hmax Hoff Hl Hin Hr Hw. pose proof Hw as [Hn Hag]%store_write_next; [|done..].
  apply store_write_Ok in Hw as (Hb1 & _ & Hl1 & Hs1 & _); [|done]. rewrite Hh in *.
  pose proof Hn as (_ & Hlen & _). cbv zeta. destruct l as [l|].
  - rewrite bool_decide_eq_false_2, andb_false_r by done. split_and!; try (done || lia).
    + apply Hag; lia.
    + by eapply resolve_next.
  - destruct Hl as [Hb Hnone]. rewrite Hb1, Hb, bool_decide_eq_true_2 by done. cbn [negb andb].
    destruct (store_set_len_spec s1 (base + head)) as (Hl2 & Hb2 & Hss); [lia|].
    split_and!; [congruence|lia|lia| | | |].
    + intros [?|?]; done.
    + rewrite Hss by lia. done.
    + intros o k ? ? ?. rewrite Hss by lia. apply (Hag o (o + k)); lia.
    + rewrite <-Hoff in *. apply resolve_none; [congruence|done|lia].
Qed.

(** Cutting the log back to a scanned prefix. *)
Lemma truncate_inv cfg a sc1 a' :
  config_wf cfg → len (st_bytes (da_store a)) ≤ MAX_STORE_BYTES →
  validate_io_layout cfg = Ok tt → cfg_id cfg = da_drive_id a →
  cfg_arena_offset_bytes cfg = da_arena_offset_bytes a →
  resolve_arena_len_bytes (da_store a) (cfg_arena_offset_bytes cfg) (cfg_arena_len_bytes cfg) =
    Ok (da_arena_len_bytes a) →
  4096 ≤ arena_avail a →
  scans (da_store a) (da_arena_offset_bytes a) (da_write_head a) (arena_avail a) scan_start sc1 →
  4096 ≤ da_write_head a → truncate_to (sc_offset sc1) a = (a', Ok tt) →
  arena_inv cfg a' (sc_entries sc1) (sc_applied_frames sc1).
Proof.
  intros Hcfg Hmax Hlay Hid Hoff Hr Hav4 Hsc Hwh (head & s1 & Hal & Hsp & Hw & ->)%truncate_to_run.
  pose proof (resolve_spec _ _ _ Hcfg Hmax Hr) as [Hle Hl]. pose proof Hcfg as (Hu & H0 & _).
  rewrite Hoff in *. rewrite Hid in Hu.
  pose proof (scans_offset _ _ _ _ _ _ Hsc) as (Hge & Hmod & Htc).
  change (sc_offset scan_start) with 4096 in Hge, Hmod. specialize (Hmod eq_refl).
  rewrite Z.max_l, align_up_aligned in Hal by done. apply Ok_inj in Hal as <-.
  pose proof (scans_bound _ _ _ _ _ _ Hsc Hwh Hav4) as [_ Hav].
  pose proof (available_span_bounds (da_store a) _ (da_arena_len_bytes a) (conj H0 Hle)) as Hav'.
  fold (arena_avail a) in Hav'.
  eapply (truncated_store cfg (da_store a) (da_arena_len_bytes a)) in Hw as (Hb2 & Hl2 & He2 & Hs2 & Hag2 & Hr2);
    [|apply len_encode_arena_header|done|exact Hge|done|done|by revert Hl; case_match|lia|done].
  set (s2 := if _ && _ then _ else _) in *.
  assert (arena_wf cfg (moved a (store_sync s2) (sc_offset sc1))) as W.
  { constructor; cbn [moved with_write_head with_store da_store da_drive_id da_arena_offset_bytes
      da_arena_len_bytes da_write_head store_sync st_bytes st_block]; try (done || lia).
    destruct (da_arena_len_bytes a); [|destruct Hl; congruence]. rewrite He2 by by right. lia. }
  constructor; [done|done|]. pose proof (arena_avail_bounds _ _ W) as [? _].
  replace (mkScan _ _ _ _) with sc1 by (destruct sc1; cbn in *; by rewrite Htc).
  eapply scans_mono; [exact Hsc|done|done|]. done.
Qed.

(** Opening an arena with a damaged or torn tail and truncating it to the length the
    scan replayed repairs it: the next recovery returns the same index and frame count,
    with no corruption left, and the arena accepts appends again. *)
Theorem truncate_repairs cfg s r file' a a' :
  config_wf cfg → len (st_bytes s) ≤ MAX_STORE_BYTES → len (st_bytes s) ≠ 0 →
  recover cfg (Some s) = Some (Ok r) → dr_rebuild_required r = false →
  open_config cfg (Some s) = (file', Ok a) → truncate_to (dr_replay_len r) a = (a', Ok tt) →
  arena_inv cfg a' (dr_entries r) (dr_applied_frames r) ∧
  recover cfg (Some (da_store a')) =
    Some (Ok (mkDriveRecovery (cfg_id cfg) (dr_entries r) (dr_replay_len r) false false
                (dr_applied_frames r))).
Proof.
  intros Hcfg Hmax Hne Hrec Hreb Hopen Htr.
  apply open_config_existing in Hopen as (Hlay & Hr & header & Hh & Hv & Ha); [|done].
  destruct (recover_cases cfg s _ Hcfg Hmax Hlay Hr) 
    as [(rb & Hrb & Hrec2)|(h2 & sc1 & sc & Hh2 & Hv2 & Hsc & He & Hrec2)];
    rewrite Hrec2 in Hrec; injection Hrec as <-; cbn in Hreb.
  { by specialize (Hrb Hreb). }
  rewrite Hh in Hh2. apply Ok_inj in Hh2 as <-.
  pose proof (resolve_spec _ _ _ Hcfg Hmax Hr) as [_ Hl].
  pose proof (read_header_avail cfg s _ _ Hl Hh) as Hav4. apply validate_header_head in Hv.
  cbn [dr_entries dr_applied_frames dr_replay_len] in *.
  destruct (scan_end_spec _ _ _ _ _ _ Hsc He) as (Ho & Hap & Hen). rewrite Ho, Hap, Hen in *.
  assert (arena_inv cfg a' (sc_entries sc1) (sc_applied_frames sc1)) as I.
  { pose proof (f_equal da_store Ha) as Es. pose proof (f_equal da_drive_id Ha) as Ei.
    pose proof (f_equal da_arena_offset_bytes Ha) as Eo. pose proof (f_equal da_write_head Ha) as Ew.
    cbn in Es, Ei, Eo, Ew.
    apply (truncate_inv cfg a sc1 a'); unfold arena_avail; rewrite ?Es, ?Ei, ?Eo, ?Ew; done. }
  split; [done|]. rewrite (recover_inv _ _ _ _ I), <-(aw_id _ _ (ai_wf _ _ _ _ I)).
  do 3 f_equal. pose proof (ai_scans _ _ _ _ I).
  apply truncate_to_run in Htr as (head & s1 & Hal & _ & _ & ->). cbn.
  pose proof (scans_offset _ _ _ _ _ _ Hsc) as (Hge & Hmod & _).
  change (sc_offset scan_start) with 4096 in *. rewrite Z.max_l, align_up_aligned in Hal by auto.
  by apply Ok_inj in Hal.
Qed.

(** ** Rebuild *)

Lemma insert_all_lookup es c r :
  NoDup es.*1 → insert_all es !! c = Some r ↔ (c, r) ∈ es.
Proof.
  unfold insert_all. assert (∀ m, NoDup es.*1 → (∀ x, x ∈ es.*1 → m !! x = None) →
    foldl (fun (m : IndexMap) item => <[item.1 := item.2]> m) m es !! c = Some r ↔
    m !! c = Some r ∨ (c, r) ∈ es) as Hgen.
  { induction es as [|[c' r'] es IH]; intros m Hnd Hm; cbn [foldl fst snd].
    - split; [by left|]. intros [?|Hin]; [done|]. by apply elem_of_nil in Hin.
    - apply NoDup_cons in Hnd as [Hni Hnd]. rewrite IH; [|done|].
      + assert (m !! c' = None) by (apply Hm, list_elem_of_here). rewrite elem_of_cons.
        destruct (decide (c = c')) as [->|Hne].
        * rewrite lookup_insert_eq. intuition (simplify_eq; auto).
        * rewrite lookup_insert_ne by done. intuition (simplify_eq; auto).
      + intros x Hx. rewrite lookup_insert_ne; [apply Hm; by apply list_elem_of_further|].
        intros ->. done. }
  intros Hnd. rewrite Hgen; [|done|done]. rewrite lookup_empty. intuition done.
Qed.

(** rebuilding an arena from a set of records, each chunk once, formats the span and
    leaves an arena whose recovery holds exactly those records, provided the checkpoint
    fits. *)
Theorem rebuild_from_entries_recovers cfg file f1 a entries :
  config_wf cfg → len (st_bytes (open_data_file file)) ≤ MAX_STORE_BYTES →
  reset_config cfg file = (f1, Ok a) → op_wf (OpCheckpoint entries) → NoDup entries.*1 →
  append_room a (len (checkpoint_payload entries)) →
  ∃ s r, rebuild_from_entries cfg entries file = (Some s, Some (Ok r)) ∧
    recover cfg (Some s) = Some (Ok r) ∧
    dr_tail_corruption r = false ∧ dr_rebuild_required r = false ∧
    ∀ c record, dr_entries r !! c = Some record ↔ (c, record) ∈ entries.
Proof.
  intros Hcfg Hmax Hreset Hwf Hnd Hroom. unfold rebuild_from_entries. rewrite Hreset.
  apply reset_config_inv in Hreset as [-> I]; [|done..]. case_bool_decide as He.
  - rewrite (recover_inv _ _ _ _ I). exists (da_store a). eexists. split_and!; try done.
    + by rewrite (recover_inv _ _ _ _ I).
    + intros c r. cbn. rewrite lookup_empty, He, elem_of_nil. done.
  - destruct (write_checkpoint entries a) as [a1 r1] eqn:Hw.
    pose proof (op_payload_len (OpCheckpoint entries) Hwf) as Hlen. cbn [op_payload] in Hlen.
    assert (r1 = Ok tt) as -> by (eapply append_frame_room; [exact I| | |exact Hroom|exact Hw]; lia).
    destruct (run_op_inv cfg a ∅ 0 (OpCheckpoint entries) a1 (Ok tt)) as [[_ I1]|[? _]]; try done.
    rewrite (recover_inv _ _ _ _ I1). exists (da_store a1). eexists. split_and!; try done.
    + by rewrite (recover_inv _ _ _ _ I1).
    + intros c r. by apply insert_all_lookup.
Qed.

(** ** Isolation *)

Lemma run_op_isolated cfg a m n op a' r l :
  arena_inv cfg a m n → op_wf op → da_arena_len_bytes a = Some l → run_op op a = (a', r) →
  da_arena_len_bytes a' = Some l ∧ da_arena_offset_bytes a' = da_arena_offset_bytes a ∧
  len (st_bytes (da_store a')) = len (st_bytes (da_store a)) ∧
  ∀ o k, 0 ≤ o → 0 ≤ k → o + k ≤ len (st_bytes (da_store a)) →
    o + k ≤ da_arena_offset_bytes a ∨ da_arena_offset_bytes a + l ≤ o →
    slice o k (st_bytes (da_store a')) = slice o k (st_bytes (da_store a)).
Proof.
  intros I Hop Hl. pose proof (op_payload_len op Hop). rewrite run_op_append, append_frame_eq.
  pose proof (ai_wf _ _ _ _ I) as W. pose proof (aw_span _ _ W) as Hsp. rewrite Hl in Hsp.
  pose proof (aw_head _ _ W). pose proof (aw_offset_nonneg _ _ W). pose proof (aw_capacity _ _ W).
  destruct (align_up_spec (len (op_payload op))) as (dlen & Hal & Hm & Hle); [lia|lia|].
  pose proof (len_frame_bytes (op_kind op) (op_payload op) dlen ltac:(lia)) as Hlf.
  destruct (append_frame_write (op_kind op) (op_payload op) a) as [a1 r1] eqn:Hw.
  destruct (append_frame_write_cases cfg a m n (op_kind op) (op_payload op) dlen a1 r1)
    as [[Hr ->]|[(s1 & Hr & -> & Hrm & Hw1)|(s1 & s2 & -> & -> & Hrm & Hrw & Hw1 & Hw2)]]; try (done || lia).
  - destruct r1; [done|]. intros [= <- <-]. done.
  - destruct r1; [done|]. intros [= <- <-]. unfold span_room in Hrm. rewrite Hl in Hrm.
    unfold uring_write_all in Hw1. rewrite wrap_small in Hw1 by (unfold fits; lia).
    destruct (_ <=? MAX_RW_COUNT).
    + rewrite take_ge, store_write_in in Hw1 by lia. done.
    + set (t := take _ _) in Hw1. assert (len t ≤ 4096 + dlen) by (unfold t; rewrite length_take; lia).
      rewrite store_write_in in Hw1 by lia. cbn [fst] in Hw1. injection Hw1 as <-.
      cbn. rewrite len_splice by lia. split_and!; try done. intros. apply slice_splice_ne; lia.
  - intros [= <- <-]. unfold span_room in Hrm. rewrite Hl in Hrm.
    rewrite store_write_in in Hw1 by lia. injection Hw1 as <-.
    pose proof (len_encode_arena_header (arena_header_new (da_drive_id a) (da_arena_len_bytes a)
      (da_write_head a + (4096 + dlen)))) as Hlh.
    cbn in Hw2. rewrite store_write_in in Hw2 by (cbn; rewrite len_splice; lia). injection Hw2 as <-.
    cbn. rewrite !len_splice by (rewrite ?len_splice; lia). split_and!; try done.
    intros. rewrite !slice_splice_ne by (rewrite ?len_splice; lia). done.
Qed.

(** an arena with a fixed span never touches a byte outside it.  Whatever operations
    run, acknowledged or refused, the rest of the device (the chunk media in front of the
    arena in particular) and its size stay as they were. *)
Theorem run_ops_isolated cfg a m n ops a' log l :
  arena_inv cfg a m n → Forall op_wf ops → da_arena_len_bytes a = Some l →
  run_ops ops a = (a', log) →
  len (st_bytes (da_store a')) = len (st_bytes (da_store a)) ∧
  ∀ o k, 0 ≤ o → 0 ≤ k → o + k ≤ len (st_bytes (da_store a)) →
    o + k ≤ da_arena_offset_bytes a ∨ da_arena_offset_bytes a + l ≤ o →
    slice o k (st_bytes (da_store a')) = slice o k (st_bytes (da_store a)).
Proof.
  intros I Hops. revert a m n I a' log. induction Hops as [|op ops Hop _ IH]; intros a m n I a' log Hl Hr.
  - injection Hr as <- <-. done.
  - cbn in Hr. destruct (run_op op a) as [a1 r] eqn:H1. destruct (run_ops ops a1) as [a2 lg] eqn:H2.
    injection Hr as <- <-. pose proof (run_op_isolated _ _ _ _ _ _ _ _ I Hop Hl H1) as (Hl1 & Ho1 & Hlen1 & Hs1).
    assert (∃ m1 n1, arena_inv cfg a1 m1 n1) as (m1 & n1 & I1).
    { destruct (run_op_inv _ _ _ _ _ _ _ I Hop H1) as [[_ I1]|[_ I1]]; eauto. }
    destruct (IH _ _ _ I1 _ _ Hl1 H2) as [Hlen2 Hs2]. rewrite Ho1, Hlen1 in *.
    split; [done|]. intros. rewrite Hs2, Hs1 by done. done.
Qed.
End open.
