(* ===== verification/ArenaCrash.v ===== *)
(** Power loss during an append to the KIX arena.

    The frame and the header that publishes it are written without a sync between them.
    On a tail that holds no stale frame, every image a power loss can leave recovers to
    the index before or after the append.  On a tail with a stale frame it can recover to
    neither. *)
From S2P Require Import Prelude Bytes Device KixTypes Arena ArenaCodec ArenaLog ArenaInv ArenaOps ArenaOpen.

(** ** Blocks and segments *)

Lemma slice_blocks_eq (b b' : list byte) lo (m : nat) :
  0 ≤ lo → len b' = len b →
  (∀ i, 0 ≤ i < Z.of_nat m → slice (lo + i * 4096) 4096 b' = slice (lo + i * 4096) 4096 b) →
  lo + Z.of_nat m * 4096 ≤ len b →
  slice lo (Z.of_nat m * 4096) b' = slice lo (Z.of_nat m * 4096) b.
Proof.
  intros Hlo Hl. induction m as [|m IH]; intros Hb Hlen.
  - rewrite !slice_nil by lia. done.
  - replace (Z.of_nat (S m) * 4096) with (Z.of_nat m * 4096 + 4096) by lia.
    destruct (slice_is_Some lo (Z.of_nat m * 4096) b) as (p & Hp & _); [lia..|].
    destruct (slice_is_Some (lo + Z.of_nat m * 4096) 4096 b) as (q & Hq & _); [lia..|].
    rewrite (slice_join _ _ _ b p q) by done. apply slice_join.
    + rewrite IH; [done|intros; apply Hb; lia|lia].
    + rewrite Hb; [done|lia].
Qed.

(** Agreement block by block is agreement. *)
Lemma agree_blocks (b b' : list byte) lo hi :
  0 ≤ lo → lo mod 4096 = 0 → hi mod 4096 = 0 → hi ≤ len b → len b' = len b →
  (∀ k, lo ≤ k * 4096 → (k + 1) * 4096 ≤ hi →
     slice (k * 4096) 4096 b' = slice (k * 4096) 4096 b) →
  agree lo hi b b'.
Proof.
  intros H0 Hlo Hhi Hlen Hlen' Hk o n Ho Hn Hon.
  pose proof (Z.div_mod lo 4096 ltac:(lia)). pose proof (Z.div_mod hi 4096 ltac:(lia)).
  destruct (decide (hi ≤ lo)).
  { assert (n = 0) as -> by lia. rewrite !slice_nil by lia. done. }
  assert (slice lo ((hi / 4096 - lo / 4096) * 4096) b' = slice lo ((hi / 4096 - lo / 4096) * 4096) b) as Hall.
  { rewrite <-(Z2Nat.id (hi / 4096 - lo / 4096)) by lia. apply slice_blocks_eq; try lia. intros i Hi.
    replace (lo + i * 4096) with ((lo / 4096 + i) * 4096) by lia. apply Hk; lia. }
  destruct (slice_is_Some lo ((hi / 4096 - lo / 4096) * 4096) b) as (p & Hp & Hpl); [lia..|].
  rewrite Hp in Hall. replace o with (lo + (o - lo)) by lia.
  rewrite <-(slice_slice _ _ (o - lo) n _ _ Hp) by lia.
  rewrite <-(slice_slice _ _ (o - lo) n _ _ Hall) by lia. done.
Qed.

Section crash.
Context `{Crc32}.

(** No frame header stands at the write head: the tail was never used, or holds anything
    that does not decode. *)
Definition fresh_tail (a : DriveArena) : Prop :=
  ∀ b, slice (da_arena_offset_bytes a + da_write_head a) 4096 (st_bytes (da_store a)) = Some b →
    decode_frame_header b = None.

(** Where a power loss after the two writes can differ from the image before them. *)
Lemma append_crash_blocks s base head frame fh hdr s1 s2 d :
  st_hist s = [] → 0 ≤ base → 4096 ≤ head → base mod 4096 = 0 → head mod 4096 = 0 →
  len frame mod 4096 = 0 → len fh = 4096 → slice 0 4096 frame = Some fh → len hdr = 4096 →
  base + head + len frame ≤ len (st_bytes s) →
  store_write s (base + head) frame = (s1, Ok tt) → store_write s1 base hdr = (s2, Ok tt) →
  crash_image s2 d →
  len d = len (st_bytes s) ∧
  agree (base + 4096) (base + head) (st_bytes s) d ∧
  (slice base 4096 d = slice base 4096 (st_bytes s) ∨ slice base 4096 d = Some hdr) ∧
  (slice (base + head) 4096 d = slice (base + head) 4096 (st_bytes s) ∨
   slice (base + head) 4096 d = Some fh).
Proof.
  intros Hh Hb0 Hh0 Hba Hha Hfa Hlfh Hfh Hlh Hin Hw1 Hw2 [Hlen Hcr].
  pose proof (proj1 (slice_Some _ _ _ _) Hfh) as (_ & _ & Hfl & _).
  apply store_write_Ok in Hw1 as (_ & Hh1 & Hl1 & Hs1 & Hf1); [|lia].
  apply store_write_Ok in Hw2 as (_ & Hh2 & Hl2 & Hs2 & Hf2); [|lia]. rewrite Hlh in *.
  rewrite Hh2, Hh1, Hh in Hcr. unfold BLOCK in Hcr.
  assert (∀ o, 0 ≤ o → o mod 4096 = 0 → o + 4096 ≤ len d →
    slice o 4096 d = slice o 4096 (st_bytes s2) ∨ slice o 4096 d = slice o 4096 (st_bytes s1) ∨
    slice o 4096 d = slice o 4096 (st_bytes s)) as Hk.
  { intros o ? Ho ?. pose proof (Z.div_mod o 4096 ltac:(lia)).
    replace o with (o / 4096 * 4096) by lia.
    destruct (Hcr (o / 4096)) as (img & Him & ->); [lia|lia|].
    rewrite !elem_of_cons, elem_of_nil in Him. destruct Him as [-> | [-> | [-> | ?]]]; auto. done. }
  assert ((base + head) mod 4096 = 0) by by apply aligned_add.
  split; [lia|]. split; [|split].
  - apply agree_blocks; try (done || lia); [by apply aligned_add|]. intros k ? ?.
    destruct (Hk (k * 4096)) as [-> | [-> | ->]]; [lia|by apply Z.mod_mul|lia| | |done].
    + rewrite Hf2, Hf1 by lia. done.
    + rewrite Hf1 by lia. done.
  - destruct (Hk base) as [-> | [-> | ->]]; [lia|done|lia|by right| |by left].
    left. apply Hf1; lia.
  - assert (slice (base + head) 4096 (st_bytes s1) = Some fh) as Hnew.
    { rewrite <-Hfh. replace (base + head) with (base + head + 0) at 1 by lia.
      symmetry. apply (slice_slice _ _ 0 4096 _ _ Hs1); lia. }
    destruct (Hk (base + head)) as [-> | [-> | ->]]; [lia|done|lia| |by right|by left].
    right. rewrite Hf2 by lia. done.
Qed.

Lemma validate_layout_aligned cfg :
  validate_io_layout cfg = Ok tt → cfg_arena_offset_bytes cfg mod 4096 = 0.
Proof.
  unfold validate_io_layout. destruct (is_aligned_u64 _ _) eqn:Ha; [|done].
  intros _. by apply is_aligned_iff.
Qed.

(** A frame accepted at the write head of a crash image is the appended one. *)
Lemma crash_frame_is_new s base head total avail m n sc' kind payload dlen :
  0 < len payload < 2 ^ 32 → align_up_u64 (len payload) KIX_IO_ALIGN = Ok dlen →
  len payload ≤ dlen → dlen mod 4096 = 0 → dlen ≤ MAX_RW_COUNT →
  (∀ b, slice (base + head) 4096 (st_bytes s) = Some b →
     decode_frame_header b = None ∨ b = encode_frame_header kind payload) →
  (∀ p, slice (base + head + 4096) (len payload) (st_bytes s) = Some p →
     crc32_ieee p = crc32_ieee payload → p = payload) →
  frame_step s base total avail (mkScan m head n false) sc' →
  slice (base + head) 4096 (st_bytes s) = Some (encode_frame_header kind payload) ∧
  ∃ pad, slice (base + head + 4096) dlen (st_bytes s) = Some (payload ++ pad).
Proof.
  intros Hp Hal Hle Hm Hrw Hhead Htear
    (k & plen & dl & hb & pb & _ & _ & _ & _ & Hal' & Hh & Hb & Hd & _). cbn [sc_offset] in *.
  rewrite read_exact_at_aligned in Hh by done. apply store_read_Ok in Hh.
  destruct (Hhead _ Hh) as [Hnone|Hhb]; [congruence|]. rewrite Hhb in Hd, Hh.
  rewrite decode_encode_frame_header in Hd by lia. injection Hd as <- <- Hcrc.
  rewrite Hal in Hal'. apply Ok_inj in Hal' as <-.
  rewrite read_exact_at_aligned in Hb by (done || lia). apply store_read_Ok in Hb.
  split; [done|]. pose proof (slice_len _ _ _ _ Hb) as Hbl.
  assert (slice (base + head + 4096) (len payload) (st_bytes s) =
          Some (take (Z.to_nat (len payload)) pb)) as Hpre.
  { rewrite <-(Z.add_0_r (base + head + 4096)), <-(slice_slice _ _ 0 (len payload) _ _ Hb) by lia.
    rewrite slice_ok by lia. done. }
  apply Htear in Hpre; [|by rewrite Hcrc].
  exists (drop (Z.to_nat (len payload)) pb). rewrite Hb. f_equal. rewrite <-Hpre at 1.
  by rewrite take_drop.
Qed.

(** With the new header on the device the scan goes one frame further or stops at the old
    write head. *)
Lemma crash_new_header cfg a m n op l dlen d :
  arena_inv cfg a m n → op_wf op → da_arena_len_bytes a = Some l →
  align_up_u64 (len (op_payload op)) KIX_IO_ALIGN = Ok dlen → dlen mod 4096 = 0 →
  len (op_payload op) ≤ dlen < len (op_payload op) + 4096 → dlen ≤ MAX_RW_COUNT →
  da_write_head a + (4096 + dlen) ≤ l → len d = len (st_bytes (da_store a)) →
  let base := da_arena_offset_bytes a in
  let sd := mkStore d (st_block (da_store a)) [] in
  store_next (da_store a) sd →
  agree (base + 4096) (base + da_write_head a) (st_bytes (da_store a)) d →
  slice base 4096 d = Some (encode_arena_header (arena_header_new (da_drive_id a)
    (da_arena_len_bytes a) (da_write_head a + (4096 + dlen)))) →
  (∀ b, slice (base + da_write_head a) 4096 d = Some b →
     decode_frame_header b = None ∨ b = encode_frame_header (op_kind op) (op_payload op)) →
  (∀ p, slice (base + da_write_head a + 4096) (len (op_payload op)) d = Some p →
     crc32_ieee p = crc32_ieee (op_payload op) → p = op_payload op) →
  ∃ r, recover cfg (Some sd) = Some (Ok r) ∧ dr_rebuild_required r = false ∧
    ((dr_entries r = m ∧ dr_applied_frames r = n ∧ dr_replay_len r = da_write_head a) ∨
     (dr_entries r = op_effect m op ∧ dr_applied_frames r = n + 1 ∧ dr_tail_corruption r = false)).
Proof.
  intros I Hop Hl Hal Hm Hle Hrw Hrm Hlen base sd Hn Hag Hhdr Hfh Htear.
  pose proof (ai_wf _ _ _ _ I) as W. pose proof (op_payload_len op Hop).
  pose proof (aw_head _ _ W). pose proof (aw_head_aligned _ _ W). pose proof (aw_offset_nonneg _ _ W).
  pose proof (aw_span _ _ W) as Hspan. rewrite Hl in Hspan.
  set (next := da_write_head a + (4096 + dlen)) in *. set (b := moved a sd next).
  assert (arena_wf cfg b) as W'.
  { apply arena_wf_moved; try done; [lia| |cbn; lia|by rewrite Hl]. by repeat apply aligned_add. }
  pose proof (arena_avail_bounds _ _ W') as [Hav1 Hav2]. cbn [b moved with_write_head da_write_head] in Hav1.
  assert (scans sd base next (arena_avail b) scan_start (mkScan m (da_write_head a) n false)) as Hsc.
  { eapply scans_mono; [exact (ai_scans _ _ _ _ I)|cbn; lia|cbn; lia|exact Hag]. }
  destruct (recover_step sd base next (arena_avail b) (mkScan m (da_write_head a) n false))
    as [[sc'|sc]|e] eqn:Hs.
  - apply recover_step_inl in Hs; [|cbn; lia].
    eapply (crash_frame_is_new _ _ _ _ _ _ _ _ (op_kind op) (op_payload op) dlen) in Hs as [Hnew [pad Hpad]]; [|lia|exact Hal|lia|done|done|done|done].
    assert (arena_inv cfg b (op_effect m op) (n + 1)) as I'.
    { eapply arena_inv_extend; try done; [lia|by rewrite Hl|cbn; lia|by apply op_payload_apply]. }
    eexists. split; [exact (recover_inv _ _ _ _ I')|]. cbn. auto.
  - assert (scan_end sd base next (arena_avail b) (mkScan m (da_write_head a) n false) sc) as He
      by (right; cbn; split; [lia|done]).
    pose proof (recover_scanned cfg b _ _ W' Hhdr Hsc He) as Hr.
    eexists. split; [exact Hr|]. cbn. split; [done|]. left.
    by destruct (scan_end_spec _ _ _ _ _ _ Hsc He) as (? & ? & ?).
  - apply recover_step_no_err in Hs; [done|done|cbn; lia|]. exact Hav2.
Qed.

(** The bytes an accepted append leaves, before its sync. *)
Lemma append_frame_write_bytes cfg a m n op l dlen a1 next :
  arena_inv cfg a m n → op_wf op → da_arena_len_bytes a = Some l →
  align_up_u64 (len (op_payload op)) KIX_IO_ALIGN = Ok dlen → dlen mod 4096 = 0 →
  len (op_payload op) ≤ dlen < len (op_payload op) + 4096 →
  append_frame_write (op_kind op) (op_payload op) a = (a1, Ok next) →
  let base := da_arena_offset_bytes a in
  let frame := frame_bytes (op_kind op) (op_payload op) dlen in
  let hdr := encode_arena_header (arena_header_new (da_drive_id a) (Some l)
    (da_write_head a + (4096 + dlen))) in
  next = da_write_head a + (4096 + dlen) ∧ da_write_head a + (4096 + dlen) ≤ l ∧
  a1 = with_store a (mkStore
    (splice base hdr (splice (base + da_write_head a) frame (st_bytes (da_store a))))
    (st_block (da_store a))
    (splice (base + da_write_head a) frame (st_bytes (da_store a)) ::
     st_bytes (da_store a) :: st_hist (da_store a))).
Proof.
  intros I Hop Hl Hal Hm Hle Hw base frame hdr. pose proof (op_payload_len op Hop).
  pose proof (ai_wf _ _ _ _ I) as W. pose proof (aw_head _ _ W). pose proof (aw_offset_nonneg _ _ W).
  pose proof (aw_span _ _ W) as Hspan. rewrite Hl in Hspan.
  pose proof (len_frame_bytes (op_kind op) (op_payload op) dlen ltac:(lia)) as Hlf. fold frame in Hlf.
  eapply append_frame_write_cases in Hw as
    [[? _]|[(? & ? & _)|(s1 & s2 & [= ->] & -> & Hrm & _ & Hw1 & Hw2)]]; try (done || lia).
  unfold span_room in Hrm. rewrite Hl in Hrm, Hw2. fold frame in Hw1. fold hdr in Hw2.
  assert (len hdr = 4096) as Hlh by apply len_encode_arena_header.
  rewrite store_write_in in Hw1 by lia. injection Hw1 as <-.
  rewrite store_write_in in Hw2 by (cbn; rewrite len_splice; lia). injection Hw2 as <-. done.
Qed.

(** A payload inside one block is on the device whole, or what was there before is. *)
Lemma one_block_payload cfg a m n op l a1 next d p :
  arena_inv cfg a m n → op_wf op → da_arena_len_bytes a = Some l → st_hist (da_store a) = [] →
  append_frame_write (op_kind op) (op_payload op) a = (a1, Ok next) → len (op_payload op) ≤ 4096 →
  let off := da_arena_offset_bytes a + da_write_head a + 4096 in
  crash_image (da_store a1) d → slice off (len (op_payload op)) d = Some p →
  p = op_payload op ∨ slice off (len (op_payload op)) (st_bytes (da_store a)) = Some p.
Proof.
  intros I Hop Hl Hhist Hw Hsmall off [Hlen Hcr] Hp. unfold BLOCK in Hcr.
  pose proof (op_payload_len op Hop). pose proof (ai_wf _ _ _ _ I) as W.
  pose proof (aw_head _ _ W). pose proof (aw_head_aligned _ _ W). pose proof (aw_offset_nonneg _ _ W).
  pose proof (aw_span _ _ W) as Hspan. rewrite Hl in Hspan.
  pose proof (validate_layout_aligned _ (aw_layout _ _ W)) as Hba. rewrite (aw_offset _ _ W) in Hba.
  destruct (align_up_spec (len (op_payload op))) as (dlen & Hal & Hm & Hle); [lia|lia|].
  pose proof (len_frame_bytes (op_kind op) (op_payload op) dlen ltac:(lia)) as Hlf.
  eapply append_frame_write_bytes in Hw as (_ & Hnl & Ha1); [|done..].
  rewrite Ha1 in Hlen, Hcr. cbn in Hlen, Hcr.
  set (frame := frame_bytes _ _ _) in *. set (hdr := encode_arena_header _) in *.
  assert (len hdr = 4096) as Hlh by apply len_encode_arena_header.
  rewrite !len_splice in Hlen by (rewrite ?len_splice; lia).
  assert (slice 4096 (len (op_payload op)) frame = Some (op_payload op)) as Hfp.
  { unfold frame, frame_bytes. pose proof (len_encode_frame_header (op_kind op) (op_payload op)) as Hfh.
    rewrite slice_app_r, Hfh by lia. rewrite slice_app_l by lia. by apply slice_full. }
  assert (off mod 4096 = 0) as Hoa by by repeat apply aligned_add.
  pose proof (Z.div_mod off 4096 ltac:(lia)). assert (0 < dlen) by lia.
  pose proof (aligned_le 0 dlen 4096 ltac:(lia) eq_refl Hm ltac:(lia)).
  destruct (Hcr (off / 4096)) as (img & Him & Hblk); [lia|lia|].
  replace (off / 4096 * 4096) with off in Hblk by lia.
  destruct (slice_is_Some off 4096 d) as (blk & Hd & _); [lia..|]. rewrite Hd in Hblk.
  assert (slice off (len (op_payload op)) img = Some p) as Hpi.
  { rewrite <-(Z.add_0_r off), <-(slice_slice _ _ 0 _ _ _ (eq_sym Hblk)) by lia.
    rewrite (slice_slice _ _ _ _ _ _ Hd), Z.add_0_r by lia. done. }
  rewrite Hhist in Him. rewrite !elem_of_cons, elem_of_nil in Him.
  destruct Him as [-> | [-> | [-> | []]]].
  - rewrite slice_splice_ne, slice_splice_in in Hpi by (rewrite ?len_splice; lia).
    replace (off - _) with 4096 in Hpi by lia. left. congruence.
  - rewrite slice_splice_in in Hpi by lia. replace (off - _) with 4096 in Hpi by lia. left. congruence.
  - by right.
Qed.

(** Torn payload bytes with the checksum of the payload: the one thing the frame's checksum
    does not tell from the payload. Of a payload within one block, only what was at its
    place before the append can be such. *)
Definition checksum_collision (before : list byte) (off : Z) (payload d : list byte) : Prop :=
  ∃ p, slice off (len payload) d = Some p ∧ p ≠ payload ∧ crc32_ieee p = crc32_ieee payload ∧
    (len payload ≤ 4096 → slice off (len payload) before = Some p).

Lemma collision_dec cfg a m n op l a1 next d :
  arena_inv cfg a m n → op_wf op → da_arena_len_bytes a = Some l → st_hist (da_store a) = [] →
  append_frame_write (op_kind op) (op_payload op) a = (a1, Ok next) → crash_image (da_store a1) d →
  let off := da_arena_offset_bytes a + da_write_head a + 4096 in
  checksum_collision (st_bytes (da_store a)) off (op_payload op) d ∨
  ∀ p, slice off (len (op_payload op)) d = Some p → crc32_ieee p = crc32_ieee (op_payload op) → p = op_payload op.
Proof.
  intros I Hop Hl Hhist Hw Hcr off. destruct (slice off (len (op_payload op)) d) as [p|] eqn:Hp; [|by right].
  destruct (decide (crc32_ieee p = crc32_ieee (op_payload op))) as [Hc|Hc]; [|right; by intros ? [= <-] ?].
  destruct (decide (p = op_payload op)) as [->|Hne]; [right; by intros ? [= <-] ?|].
  left. exists p. split_and!; [done..|]. intros Hs.
  by destruct (one_block_payload cfg a m n op l a1 next d p I Hop Hl Hhist Hw Hs Hcr Hp).
Qed.

(** C10: Power loss during an append is atomic. The arena has a fixed span, its store is
    synced, and the block at its write head decodes as no frame (a fresh tail). Whatever
    mix of the unsynced blocks reached the device, the recovery scan succeeds, asks for no
    rebuild, and returns the index before the append, or the index after it with no
    corruption reported; unless the blocks that reached the device hold, in the place of
    the payload, other bytes with the payload's CRC-32, which a payload within one block
    excludes when the bytes there before the append have another CRC-32. *)
Theorem append_crash_atomic cfg a m n op l a1 next d :
  arena_inv cfg a m n → op_wf op → da_arena_len_bytes a = Some l →
  st_hist (da_store a) = [] → fresh_tail a →
  append_frame_write (op_kind op) (op_payload op) a = (a1, Ok next) →
  crash_image (da_store a1) d →
  (∃ r, recover cfg (Some (mkStore d (st_block (da_store a)) [])) = Some (Ok r) ∧
    dr_rebuild_required r = false ∧
    ((dr_entries r = m ∧ dr_applied_frames r = n ∧ dr_replay_len r = da_write_head a) ∨
     (dr_entries r = op_effect m op ∧ dr_applied_frames r = n + 1 ∧ dr_tail_corruption r = false))) ∨
  checksum_collision (st_bytes (da_store a)) (da_arena_offset_bytes a + da_write_head a + 4096) (op_payload op) d.
Proof.
  intros I Hop Hl Hhist Hfresh Hw Hcr.
  destruct (collision_dec cfg a m n op l a1 next d I Hop Hl Hhist Hw Hcr) as [Hc|Htear]; [by right|left].
  pose proof (ai_wf _ _ _ _ I) as W.
  pose proof (op_payload_len op Hop). pose proof (aw_head _ _ W). pose proof (aw_head_aligned _ _ W).
  pose proof (aw_offset_nonneg _ _ W). pose proof (aw_capacity _ _ W).
  pose proof (aw_span _ _ W) as Hspan. rewrite Hl in Hspan.
  pose proof (validate_layout_aligned _ (aw_layout _ _ W)) as Hba. rewrite (aw_offset _ _ W) in Hba.
  destruct (align_up_spec (len (op_payload op))) as (dlen & Hal & Hm & Hle); [lia|lia|].
  pose proof (len_frame_bytes (op_kind op) (op_payload op) dlen ltac:(lia)) as Hlf.
  eapply append_frame_write_cases in Hw as
    [[? _]|[(? & ? & _)|(s1 & s2 & [= ->] & -> & Hrm & Hrw & Hw1 & Hw2)]]; try (done || lia).
  unfold span_room in Hrm. rewrite Hl in Hrm. cbn [with_store da_store] in *.
  destruct (append_crash_blocks (da_store a) (da_arena_offset_bytes a) (da_write_head a)
    (frame_bytes (op_kind op) (op_payload op) dlen) (encode_frame_header (op_kind op) (op_payload op))
    (encode_arena_header (arena_header_new (da_drive_id a) (da_arena_len_bytes a)
       (da_write_head a + (4096 + dlen)))) s1 s2 d) as (Hlen & Hag & Hhdr & Hfh); try (done || lia).
  { rewrite Hlf. by apply aligned_add. }
  { apply slice_0_app, len_encode_frame_header. }
  set (sd := mkStore d (st_block (da_store a)) []).
  assert (store_next (da_store a) sd) as Hn by (split_and!; cbn; lia || done).
  destruct Hhdr as [Hhdr|Hhdr].
  { pose proof (arena_inv_moved cfg a m n sd I Hn Hhdr Hag) as I'. pose proof (recover_inv _ _ _ _ I') as Hr.
    eexists. split; [exact Hr|]. cbn. auto. }
  apply (crash_new_header cfg a m n op l dlen d); try done.
  - intros b Hb. destruct Hfh as [Hfh|Hfh]; [left; apply Hfresh; congruence|right; congruence].
Qed.

Lemma block_disjoint k base :
  base mod 4096 = 0 → k * 4096 ≠ base → k * 4096 + 4096 ≤ base ∨ base + 4096 ≤ k * 4096.
Proof. intros Hb Hne. pose proof (Z.div_mod base 4096 ltac:(lia)). lia. Qed.

Lemma run_op_bytes cfg a m n op l dlen a' :
  arena_inv cfg a m n → op_wf op → da_arena_len_bytes a = Some l →
  align_up_u64 (len (op_payload op)) KIX_IO_ALIGN = Ok dlen → dlen mod 4096 = 0 →
  len (op_payload op) ≤ dlen < len (op_payload op) + 4096 →
  run_op op a = (a', Ok tt) →
  let base := da_arena_offset_bytes a in
  let frame := frame_bytes (op_kind op) (op_payload op) dlen in
  let hdr := encode_arena_header (arena_header_new (da_drive_id a) (Some l)
    (da_write_head a + (4096 + dlen))) in
  da_write_head a + (4096 + dlen) ≤ l ∧
  a' = mkDriveArena (da_drive_id a)
    (mkStore (splice base hdr (splice (base + da_write_head a) frame (st_bytes (da_store a))))
       (st_block (da_store a)) [])
    base (Some l) (da_write_head a + (4096 + dlen)).
Proof.
  intros I Hop Hl Hal Hm Hle Hrun base frame hdr. rewrite run_op_append, append_frame_eq in Hrun.
  destruct (append_frame_write _ _ a) as [a1 [next|]] eqn:Hw; [|done].
  eapply append_frame_write_bytes in Hw as (Hnx & Hnl & Ha1); [|done..].
  split; [done|]. injection Hrun as <-. rewrite Ha1, Hnx. unfold moved, with_store, with_write_head, store_sync. cbn.
  by rewrite Hl.
Qed.

Lemma crash_image_same_header s2 b base hdr hdr0 :
  base mod 4096 = 0 → 0 ≤ base → len hdr0 = 4096 → base + 4096 ≤ len b →
  slice base 4096 b = Some hdr → slice base 4096 (st_bytes s2) = Some hdr →
  len (st_bytes s2) = len b → splice base hdr0 b ∈ st_hist s2 →
  crash_image s2 b.
Proof.
  intros Hb H0 Hh0 Hin Hs Hs2 Hl Hhist. split; [done|]. unfold BLOCK.
  intros k Hk Hkl. destruct (decide (k * 4096 = base)) as [->|Hne].
  - exists (st_bytes s2). split; [apply list_elem_of_here|]. congruence.
  - exists (splice base hdr0 b). split; [by apply list_elem_of_further|].
    pose proof (block_disjoint k base Hb Hne). symmetry. apply slice_splice_ne; lia.
Qed.

(** C35: power loss is not atomic on a tail that still holds frames of an earlier log.  Append
    one operation to an arena at its first write head, format the arena again, and append
    a second operation with a payload of the same length: the image of the device before
    the re-format is one the power loss can leave, and it recovers, with no corruption
    reported, to the index of the first operation alone.  The header that reaches the
    device first publishes the stale frame in its place. *)
Theorem append_crash_replays_stale_frame cfg a m n opx ax l f1 a1 opy a2 next :
  config_wf cfg → arena_inv cfg a m n → da_arena_len_bytes a = Some l → da_write_head a = 4096 →
  op_wf opx → run_op opx a = (ax, Ok tt) →
  reset_config cfg (Some (da_store ax)) = (f1, Ok a1) →
  op_wf opy → len (op_payload opy) = len (op_payload opx) →
  append_frame_write (op_kind opy) (op_payload opy) a1 = (a2, Ok next) →
  crash_image (da_store a2) (st_bytes (da_store ax)) ∧
  recover cfg (Some (mkStore (st_bytes (da_store ax)) (st_block (da_store ax)) [])) =
    Some (Ok (mkDriveRecovery (cfg_id cfg) (op_effect m opx) (da_write_head ax) false false (n + 1))).
Proof.
  intros Hcfg I Hl Hwh Hopx Hrun Hreset Hopy Hlen Hw.
  pose proof (op_payload_len opx Hopx). pose proof (ai_wf _ _ _ _ I) as W.
  destruct (align_up_spec (len (op_payload opx))) as (dlen & Hal & Hm & Hle); [lia|lia|].
  destruct (run_op_inv _ _ _ _ _ _ _ I Hopx Hrun) as [[_ Ix]|[? _]]; [|done].
  pose proof (ai_wf _ _ _ _ Ix) as Wx. pose proof (aw_span _ _ W) as Hspan. rewrite Hl in Hspan.
  pose proof (aw_offset_nonneg _ _ W). pose proof (op_payload_len opy Hopy).
  pose proof (validate_layout_aligned _ (aw_layout _ _ W)) as Hba. rewrite (aw_offset _ _ W) in Hba.
  eapply run_op_bytes in Hrun as [Hnl Hax]; [|done..]. rewrite Hwh in Hnl, Hax.
  set (base := da_arena_offset_bytes a) in *. set (hdr := encode_arena_header _) in Hax.
  assert (len hdr = 4096) as Hlh by apply len_encode_arena_header.
  pose proof (len_frame_bytes (op_kind opx) (op_payload opx) dlen ltac:(lia)) as Hlf.
  split.
  2:{ pose proof (recover_inv _ _ _ _ Ix) as Hr. rewrite <-(aw_id _ _ Wx) in Hr.
      assert (st_hist (da_store ax) = []) as Hh by by rewrite Hax. rewrite <-Hh, <-Hr.
      by destruct (da_store ax). }
  assert (len (st_bytes (da_store ax)) = len (st_bytes (da_store a)) ∧
    slice base 4096 (st_bytes (da_store ax)) = Some hdr) as [Hlx Hsx].
  { rewrite Hax. cbn. rewrite !len_splice, slice_splice_eq by (rewrite ?len_splice; lia). done. }
  pose proof (aw_resolve _ _ Wx) as Hrx. pose proof (aw_offset _ _ Wx) as Hox. pose proof (aw_id _ _ Wx) as Hix.
  rewrite Hax in Hox, Hix. cbn in Hox, Hix. rewrite <-(aw_offset _ _ Wx) in Hrx.
  replace (da_arena_len_bytes ax) with (Some l) in Hrx by by rewrite Hax.
  pose proof (reset_config_ok cfg (da_store ax) l Hcfg (aw_capacity _ _ Wx) (aw_layout _ _ Wx) Hrx) as Hok.
  pose proof (reset_config_inv cfg (Some (da_store ax)) f1 a1 Hcfg (aw_capacity _ _ Wx) Hreset) as [_ I1].
  rewrite Hreset in Hok. injection Hok as Hf1 Ha1. rewrite Hox in Ha1.
  rewrite <-Hlen in Hal, Hle.
  eapply append_frame_write_bytes in Hw as (_ & _ & Ha2); [|exact I1|done|by rewrite Ha1|done..].
  pose proof (len_frame_bytes (op_kind opy) (op_payload opy) dlen ltac:(lia)) as Hlfy.
  set (hdr0 := encode_arena_header _) in Ha1.
  assert (len hdr0 = 4096) as Hlh0 by apply len_encode_arena_header.
  rewrite Ha1, Hix in Ha2. cbn in Ha2. fold hdr in Ha2.
  eapply (crash_image_same_header _ _ base hdr hdr0); try (done || lia); rewrite Ha2; cbn.
  - apply slice_splice_eq; rewrite ?len_splice; rewrite ?len_splice; lia.
  - rewrite !len_splice; [done|rewrite ?len_splice; rewrite ?len_splice; lia..].
  - apply list_elem_of_further, list_elem_of_here.
Qed.

(** The images an append leaves exposed: before it, with the frame, with the header. *)
Lemma append_frame_write_hist cfg a m n op a1 next :
  arena_inv cfg a m n → op_wf op →
  append_frame_write (op_kind op) (op_payload op) a = (a1, Ok next) →
  ∃ s1, st_hist (da_store a1) = s1 :: st_bytes (da_store a) :: st_hist (da_store a).
Proof.
  intros I Hop Hw. pose proof (op_payload_len op Hop). pose proof (ai_wf _ _ _ _ I) as W.
  pose proof (aw_head _ _ W). pose proof (aw_offset_nonneg _ _ W).
  destruct (align_up_spec (len (op_payload op))) as (dlen & Hal & Hm & Hle); [lia|lia|].
  eapply append_frame_write_cases in Hw as
    [[? _]|[(? & ? & _)|(s1 & s2 & _ & -> & _ & _ & Hw1 & Hw2)]]; try (done || lia).
  apply store_write_Ok in Hw1 as (_ & Hh1 & _); [|lia].
  apply store_write_Ok in Hw2 as (_ & Hh2 & _); [|lia].
  exists (st_bytes s1). cbn. by rewrite Hh2, Hh1.
Qed.
End crash.
