(* ===== verification/ArenaExamples.v ===== *)
(** A small device with a KIX arena on it: the arena theorems applied to it. *)
From S2P Require Import Prelude Bytes Device KixTypes Arena ArenaCodec ArenaLog ArenaInv ArenaOps ArenaOpen ArenaCrash.

#[local] Existing Instance crc32_software.

Opaque zeroed splice slice.

(** Eight blocks; the arena has six of them, behind one block of media. *)
Definition ex_config : DriveConfig := mkDriveConfig 3 4096 (Some 24576).
Definition ex_device : Store := mkStore (zeroed 32768) true [].

Definition ex_record (generation : Z) : LocationRecord :=
  location_extent 3 (4096 * generation) 700 700 generation 12345.
Definition ex_x : ChunkId := replicate 32 x11.
Definition ex_y : ChunkId := replicate 32 x22.

Definition ex_op_x : arena_op := OpDeltas [delta_upsert ex_x (ex_record 1)].
Definition ex_op_y : arena_op := OpDeltas [delta_upsert ex_y (ex_record 5)].
Definition ex_op_c : arena_op := OpCheckpoint [(ex_x, ex_record 1); (ex_y, ex_record 2)].

(** The device with an arena header for write head [head] and zeros behind it. *)
Definition ex_headed (head : Z) : DriveArena :=
  mkDriveArena 3
    (mkStore (splice 4096 (encode_arena_header (arena_header_new 3 (Some 24576) head)) (zeroed 32768))
       true []) 4096 (Some 24576) head.

Definition ex_formatted : DriveArena := ex_headed 4096.

Lemma ex_config_wf : config_wf ex_config.
Proof. by vm_compute. Qed.

Lemma ex_op_x_wf : op_wf ex_op_x.
Proof. split; [repeat constructor; by vm_compute|by vm_compute]. Qed.

Lemma ex_op_y_wf : op_wf ex_op_y.
Proof. split; [repeat constructor; by vm_compute|by vm_compute]. Qed.

Lemma ex_op_c_wf : op_wf ex_op_c.
Proof. split; [repeat constructor; by vm_compute|by vm_compute]. Qed.

Lemma ex_len head : len (st_bytes (da_store (ex_headed head))) = 32768.
Proof.
  cbn [ex_headed da_store st_bytes]. rewrite len_splice; rewrite ?len_encode_arena_header, ?len_zeroed; lia.
Qed.

Lemma ex_resolve s :
  len (st_bytes s) = 32768 → resolve_arena_len_bytes s 4096 (Some 24576) = Ok (Some 24576).
Proof. intros Hs. unfold resolve_arena_len_bytes, storage_capacity_bytes. by rewrite Hs. Qed.

Lemma ex_device_len : len (st_bytes ex_device) = 32768.
Proof. cbn [ex_device st_bytes]. by rewrite len_zeroed. Qed.

Lemma ex_device_small : len (st_bytes (open_data_file (Some ex_device))) ≤ MAX_STORE_BYTES.
Proof. change (open_data_file (Some ex_device)) with ex_device. by rewrite ex_device_len. Qed.

Lemma ex_reset :
  reset_config ex_config (Some ex_device) = (Some (da_store ex_formatted), Ok ex_formatted).
Proof. exact (reset_config_ok ex_config ex_device 24576 ex_config_wf ex_device_small eq_refl (ex_resolve _ ex_device_len)). Qed.

Lemma ex_headed_wf head :
  4096 ≤ head ≤ 24576 → head mod 4096 = 0 → arena_wf ex_config (ex_headed head).
Proof.
  intros Hh Hm. pose proof (ex_len head) as Hl. constructor.
  - reflexivity.
  - split; cbn; lia.
  - reflexivity.
  - cbn. lia.
  - reflexivity.
  - exact (ex_resolve _ Hl).
  - rewrite Hl. unfold MAX_STORE_BYTES. lia.
  - cbn. lia.
  - exact Hm.
  - rewrite Hl. cbn. lia.
  - cbn [da_arena_len_bytes ex_headed]. rewrite Hl. cbn. lia.
Qed.

Lemma ex_headed_header head :
  slice 4096 4096 (st_bytes (da_store (ex_headed head))) =
  Some (encode_arena_header (arena_header_of (ex_headed head))).
Proof.
  cbn [ex_headed da_store st_bytes]. apply slice_splice_eq; rewrite ?len_encode_arena_header, ?len_zeroed; lia.
Qed.

Lemma ex_inv : arena_inv ex_config ex_formatted ∅ 0.
Proof. exact (proj2 (reset_config_inv _ _ _ _ ex_config_wf ex_device_small ex_reset)). Qed.

(** The tail of the device is zeros, and zeros are no frame. *)
Lemma ex_tail head o n :
  8192 ≤ o → 0 ≤ n → o + n ≤ 32768 → slice o n (st_bytes (da_store (ex_headed head))) = Some (zeroed n).
Proof.
  intros. cbn [ex_headed da_store st_bytes].
  rewrite slice_splice_ne by (rewrite ?len_encode_arena_header, ?len_zeroed; lia).
  apply slice_zeroed; lia.
Qed.

Lemma zeros_no_frame : decode_frame_header (zeroed 4096) = None.
Proof. by vm_compute. Qed.

Lemma recover_replays_acknowledged_witness :
  let run := run_ops [ex_op_x; ex_op_c; ex_op_y] ex_formatted in
  recover ex_config (Some (da_store run.1)) =
  Some (Ok (mkDriveRecovery (cfg_id ex_config) (foldl op_effect ∅ (acknowledged run.2))
              (da_write_head run.1) false false (len (acknowledged run.2)))).
Proof.
  intros run. apply (recover_replays_acknowledged ex_config (Some ex_device) _ ex_formatted
    [ex_op_x; ex_op_c; ex_op_y] run.1 run.2 ex_config_wf ex_device_small ex_reset).
  - constructor; [apply ex_op_x_wf|]. constructor; [apply ex_op_c_wf|].
    constructor; [apply ex_op_y_wf|constructor].
  - apply surjective_pairing.
Defined.

Lemma append_with_room_succeeds_witness : (run_op ex_op_x ex_formatted).2 = Ok tt.
Proof.
  apply (append_with_room_succeeds ex_config (Some ex_device) _ ex_formatted [] ex_formatted []
    ex_op_x (run_op ex_op_x ex_formatted).1 _ ex_config_wf ex_device_small ex_reset).
  - constructor.
  - reflexivity.
  - apply ex_op_x_wf.
  - by vm_compute.
  - apply surjective_pairing.
Defined.

Lemma ex_run_x : run_op ex_op_x ex_formatted = ((run_op ex_op_x ex_formatted).1, Ok tt).
Proof.
  destruct (run_op ex_op_x ex_formatted) as [a r] eqn:Hr. cbn [fst]. f_equal.
  pose proof (op_payload_len ex_op_x ex_op_x_wf). rewrite run_op_append in Hr.
  eapply append_frame_room; [exact ex_inv| | | |exact Hr]; [lia|lia|by vm_compute].
Qed.

Lemma recover_total_witness :
  ∃ res, recover ex_config (Some ex_device) = Some res ∧
    (is_Ok res = true ↔ validate_io_layout ex_config = Ok tt ∧
       is_Ok (resolve_arena_len_bytes ex_device 4096 (Some 24576)) = true) ∧
    ∀ r, res = Ok r → dr_replay_len r mod 4096 = 0 ∧
      0 ≤ dr_replay_len r ∧ 4096 + dr_replay_len r ≤ len (st_bytes ex_device).
Proof. exact (recover_total ex_config ex_device ex_config_wf ex_device_small). Defined.

(** A header that publishes a frame which never reached the device. *)
Definition ex_torn : DriveArena := ex_headed 12288.

Lemma ex_torn_recover :
  recover ex_config (Some (da_store ex_torn)) =
  Some (Ok (mkDriveRecovery 3 ∅ 4096 true false 0)).
Proof.
  assert (arena_wf ex_config ex_torn) as W by by apply ex_headed_wf.
  apply (recover_scanned ex_config ex_torn scan_start (scan_tail scan_start) W); [apply ex_headed_header|constructor|].
  right. split; [reflexivity|]. rewrite (arena_avail_eq _ _ W). unfold recover_step. change FRAME_HEADER_LEN with 4096.
  cbn [scan_start sc_offset]. change FILE_HEADER_LEN with 4096.
  change (da_arena_len_bytes ex_torn) with (Some 24576). change (da_write_head ex_torn) with 12288.
  change (da_arena_offset_bytes ex_torn) with 4096. cbn iota.
  match goal with |- context [if ?b then _ else _] => replace b with false by reflexivity end.
  rewrite read_exact_at_aligned by done. unfold store_read.
  change (4096 + 4096) with 8192. rewrite (ex_tail 12288) by lia.
  cbn [ok_or]. rewrite result_bind_eq, zeros_no_frame. reflexivity.
Qed.

Lemma truncate_repairs_witness :
  ∃ a', truncate_to 4096 ex_torn = (a', Ok tt) ∧ arena_inv ex_config a' ∅ 0 ∧
    recover ex_config (Some (da_store a')) =
      Some (Ok (mkDriveRecovery (cfg_id ex_config) ∅ 4096 false false 0)).
Proof.
  assert (arena_wf ex_config ex_torn) as W by by apply ex_headed_wf.
  destruct (truncate_to_ok ex_config ex_torn 24576 4096 W) as [a' Ht]; [done|done|lia|].
  exists a'. split; [exact Ht|].
  apply (truncate_repairs ex_config (da_store ex_torn) (mkDriveRecovery 3 ∅ 4096 true false 0)
    (Some (da_store ex_torn)) ex_torn a' ex_config_wf).
  - unfold ex_torn. rewrite ex_len. done.
  - unfold ex_torn. rewrite ex_len. done.
  - apply ex_torn_recover.
  - done.
  - apply open_config_wf; [exact W|apply ex_headed_header].
  - exact Ht.
Defined.

Lemma rebuild_from_entries_recovers_witness :
  ∃ s r, rebuild_from_entries ex_config [(ex_x, ex_record 1); (ex_y, ex_record 2)] (Some ex_device) =
      (Some s, Some (Ok r)) ∧
    recover ex_config (Some s) = Some (Ok r) ∧
    dr_tail_corruption r = false ∧ dr_rebuild_required r = false ∧
    ∀ c record, dr_entries r !! c = Some record ↔ (c, record) ∈ [(ex_x, ex_record 1); (ex_y, ex_record 2)].
Proof.
  apply (rebuild_from_entries_recovers ex_config (Some ex_device) _ ex_formatted _
    ex_config_wf ex_device_small ex_reset).
  - apply ex_op_c_wf.
  - apply (bool_decide_unpack _). by vm_compute.
  - by vm_compute.
Defined.

Lemma run_ops_isolated_witness :
  let run := run_ops [ex_op_x] ex_formatted in
  len (st_bytes (da_store run.1)) = len (st_bytes (da_store ex_formatted)) ∧
  ∀ o k, 0 ≤ o → 0 ≤ k → o + k ≤ len (st_bytes (da_store ex_formatted)) →
    o + k ≤ 4096 ∨ 4096 + 24576 ≤ o →
    slice o k (st_bytes (da_store run.1)) = slice o k (st_bytes (da_store ex_formatted)).
Proof.
  intros run. apply (run_ops_isolated ex_config ex_formatted ∅ 0 [ex_op_x] run.1 run.2 24576 ex_inv).
  - constructor; [apply ex_op_x_wf|constructor].
  - reflexivity.
  - apply surjective_pairing.
Defined.

(** ** Power loss *)

Lemma ex_write_ok a m n op :
  arena_inv ex_config a m n → op_wf op → append_room a (len (op_payload op)) →
  ∃ a1 next, append_frame_write (op_kind op) (op_payload op) a = (a1, Ok next).
Proof.
  intros I Hop Hroom.
  destruct (append_frame_write (op_kind op) (op_payload op) a) as [a1 [next|e]] eqn:Hw;
    [by eexists _, _|exfalso].
  destruct (run_op op a) as [a' r] eqn:Hr.
  pose proof (op_payload_len op Hop). rewrite run_op_append in Hr.
  assert (r = Ok tt) as -> by (eapply append_frame_room; [exact I| | |exact Hroom|exact Hr]; lia).
  rewrite append_frame_eq, Hw in Hr. done.
Qed.

Lemma append_crash_atomic_witness :
  ∃ d r, recover ex_config (Some (mkStore d true [])) = Some (Ok r) ∧
    dr_rebuild_required r = false ∧
    ((dr_entries r = ∅ ∧ dr_applied_frames r = 0 ∧ dr_replay_len r = 4096) ∨
     (dr_entries r = op_effect ∅ ex_op_y ∧ dr_applied_frames r = 0 + 1 ∧ dr_tail_corruption r = false)).
Proof.
  destruct (ex_write_ok ex_formatted ∅ 0 ex_op_y ex_inv ex_op_y_wf) as (a1 & next & Hw);
    [by vm_compute|]. exists (st_bytes (da_store a1)).
  destruct (append_crash_atomic ex_config ex_formatted ∅ 0 ex_op_y 24576 a1 next
    (st_bytes (da_store a1)) ex_inv ex_op_y_wf eq_refl eq_refl) as [Hr|(p & _ & _ & Hcrc & Hold)].
  - intros b Hb. change (da_arena_offset_bytes ex_formatted + da_write_head ex_formatted) with 8192 in Hb.
    unfold ex_formatted in Hb. rewrite ex_tail in Hb by lia. injection Hb as <-. apply zeros_no_frame.
  - exact Hw.
  - split; [done|]. intros k _ _. exists (st_bytes (da_store a1)). split; [apply list_elem_of_here|done].
  - exact Hr.
  - exfalso. revert Hcrc. specialize (Hold ltac:(by vm_compute)).
    change (da_arena_offset_bytes ex_formatted + da_write_head ex_formatted + 4096) with 12288 in Hold.
    unfold ex_formatted in Hold. rewrite ex_tail in Hold by (lia || by vm_compute). injection Hold as <-. by vm_compute.
Defined.

Lemma append_crash_replays_stale_frame_witness :
  ∃ ax a2, op_effect ∅ ex_op_x !! ex_x = Some (ex_record 1) ∧
    crash_image (da_store a2) (st_bytes (da_store ax)) ∧
    recover ex_config (Some (mkStore (st_bytes (da_store ax)) (st_block (da_store ax)) [])) =
      Some (Ok (mkDriveRecovery (cfg_id ex_config) (op_effect ∅ ex_op_x) (da_write_head ax) false false (0 + 1))).
Proof.
  pose proof ex_run_x as Hrun. set (ax := (run_op ex_op_x ex_formatted).1) in *. clearbody ax.
  destruct (run_op_inv _ _ _ _ _ _ _ ex_inv ex_op_x_wf Hrun) as [[_ Ix]|[Hf _]]; [|discriminate Hf].
  pose proof (ai_wf _ _ _ _ Ix) as Wx.
  assert (len (st_bytes (da_store ax)) = 32768) as Hlen.
  { pose proof (run_op_isolated _ _ _ _ _ _ _ 24576 ex_inv ex_op_x_wf eq_refl Hrun) as (_ & _ & -> & _).
    apply ex_len. }
  pose proof (reset_config_ok ex_config (da_store ax) 24576 ex_config_wf (aw_capacity _ _ Wx) eq_refl
    (ex_resolve _ Hlen)) as Hreset.
  pose proof (reset_config_inv ex_config (Some (da_store ax)) _ _ ex_config_wf (aw_capacity _ _ Wx) Hreset)
    as [_ I1].
  destruct (ex_write_ok _ _ _ ex_op_y I1 ex_op_y_wf) as (a2 & next & Hw2);
    [split; [by vm_compute|cbn [da_arena_len_bytes da_write_head]; by vm_compute]|].
  exists ax, a2. split; [by vm_compute|].
  apply (append_crash_replays_stale_frame ex_config ex_formatted ∅ 0 ex_op_x ax 24576
    _ _ ex_op_y a2 next ex_config_wf ex_inv eq_refl eq_refl ex_op_x_wf Hrun Hreset ex_op_y_wf).
  - by vm_compute.
  - exact Hw2.
Defined.
