(* ===== verification/ChunkMedia.v ===== *)
(** Chunk media (poc/kix/crates/kix/src/chunk_media.rs): the slots of a media span, two
    publication lanes per slot, their self-describing headers, payload writes, tombstones
    and reads, and the rebuild scan that recovers the index from the media alone. *)
From S2P Require Import Prelude Bytes Device KixTypes.

Definition CHUNK_MEDIA_ALIGN_BYTES : Z := 4096.
Definition CHUNK_MEDIA_SUPERBLOCK_BYTES : Z := 4096.
Definition CHUNK_MEDIA_SLOT_HEADER_BYTES : Z := 4096.
Definition CHUNK_MEDIA_PUBLICATION_LANES : Z := 2.
Definition CHUNK_MEDIA_SUPERBLOCK_MAGIC : list byte := bstr "KIXMSB01".
Definition CHUNK_MEDIA_SLOT_MAGIC : list byte := bstr "KIXMSL01".
Definition CHUNK_MEDIA_VERSION : Z := 2.

(** ** Data *)

Inductive ChunkMediaLayoutKind : Type :=
| ExtentOnly
| PackedOnly
| Mixed.

Global Instance ChunkMediaLayoutKind_eq_dec : EqDecision ChunkMediaLayoutKind.
Proof. solve_decision. Defined.

Definition layout_kind_as_u8 (k : ChunkMediaLayoutKind) : Z :=
  match k with
  | ExtentOnly => 1
  | PackedOnly => 2
  | Mixed => 3
  end.

Definition layout_kind_from_u8 (value : Z) : option ChunkMediaLayoutKind :=
  if value =? 1 then Some ExtentOnly
  else if value =? 2 then Some PackedOnly
  else if value =? 3 then Some Mixed
  else None.

Record ChunkMediaLayoutSpec := mkLayout {
  layout_kind : ChunkMediaLayoutKind;
  extent_bytes : Z;
  packed_bytes : Z;
  key_slots : Z;
}.

Global Instance ChunkMediaLayoutSpec_eq_dec : EqDecision ChunkMediaLayoutSpec.
Proof. solve_decision. Defined.

Record ChunkMediaSpanConfig := mkSpan {
  span_offset_bytes : Z;
  span_len_bytes : option Z;
}.

Record ChunkMediaWriteConfig := mkWriteConfig {
  mc_drive_id : Z;
  mc_span : ChunkMediaSpanConfig;
  mc_layout : ChunkMediaLayoutSpec;
}.

Record ChunkMediaSuperblock := mkSuperblock {
  sb_version : Z;
  sb_layout : ChunkMediaLayoutSpec;
  sb_media_span_bytes : Z;
}.

Global Instance ChunkMediaSuperblock_eq_dec : EqDecision ChunkMediaSuperblock.
Proof. solve_decision. Defined.

Record ChunkSelfDescribingIdentity := mkIdentity {
  id_stripe : Z;
  id_object_id : Z;
  id_object_version : Z;
  id_frag : Z;
}.

Definition default_identity : ChunkSelfDescribingIdentity := mkIdentity 0 0 0 0.

Inductive ChunkMediaEntryState : Type :=
| Live
| Deleted.

Global Instance ChunkMediaEntryState_eq_dec : EqDecision ChunkMediaEntryState.
Proof. solve_decision. Defined.

Definition entry_state_as_u8 (s : ChunkMediaEntryState) : Z :=
  match s with
  | Live => 1
  | Deleted => 2
  end.

Definition entry_state_from_u8 (value : Z) : option ChunkMediaEntryState :=
  if value =? 1 then Some Live
  else if value =? 2 then Some Deleted
  else None.

(** The header's [drive_id] is written and read as the record's. *)
Record ChunkMediaSlotHeader := mkSlotHeader {
  sh_state : ChunkMediaEntryState;
  sh_chunk_id : ChunkId;
  sh_record : LocationRecord;
  sh_identity : ChunkSelfDescribingIdentity;
}.

Record SlotGeometry := mkGeometry {
  sg_slot_base_offset : Z;
  sg_payload_offset : Z;
  sg_location_kind : LocationKind;
  sg_logical_length : Z;
  sg_stored_length : Z;
}.

Record SlotAddress := mkAddress {
  sa_slot_index : Z;
  sa_publication_lane : Z;
}.

(** ** Geometry *)

Definition slot_bytes (payload_bytes : Z) : io_result Z :=
  ok_or (checked_add 64 CHUNK_MEDIA_SLOT_HEADER_BYTES payload_bytes) InvalidInput.

(** [payload_offset] is the unchecked [slot_base_offset + 4096]. *)
Definition geometry_at (slot_base_offset : Z) (kind : LocationKind) (bytes : Z) : SlotGeometry :=
  mkGeometry slot_base_offset (wrap 64 (slot_base_offset + CHUNK_MEDIA_SLOT_HEADER_BYTES))
    kind bytes bytes.

Definition slot_geometry (layout : ChunkMediaLayoutSpec) (key_seed publication_lane : Z) :
    io_result SlotGeometry :=
  if CHUNK_MEDIA_PUBLICATION_LANES <=? publication_lane then Err InvalidInput
  else
    extent_slot_bytes ← slot_bytes (extent_bytes layout);
    packed_slot_bytes ← slot_bytes (packed_bytes layout);
    match layout_kind layout with
    | ExtentOnly =>
        slot_stride ← ok_or (checked_mul 64 CHUNK_MEDIA_PUBLICATION_LANES extent_slot_bytes) InvalidInput;
        offset ← ok_or (checked_mul 64 key_seed slot_stride) InvalidInput;
        slot_base_offset ← ok_or (
          base ← checked_add 64 CHUNK_MEDIA_SUPERBLOCK_BYTES offset;
          lane ← checked_mul 64 publication_lane extent_slot_bytes;
          checked_add 64 base lane) InvalidInput;
        Ok (geometry_at slot_base_offset Extent (extent_bytes layout))
    | PackedOnly =>
        slot_stride ← ok_or (checked_mul 64 CHUNK_MEDIA_PUBLICATION_LANES packed_slot_bytes) InvalidInput;
        offset ← ok_or (checked_mul 64 key_seed slot_stride) InvalidInput;
        slot_base_offset ← ok_or (
          base ← checked_add 64 CHUNK_MEDIA_SUPERBLOCK_BYTES offset;
          lane ← checked_mul 64 publication_lane packed_slot_bytes;
          checked_add 64 base lane) InvalidInput;
        Ok (geometry_at slot_base_offset PackedContainer (packed_bytes layout))
    | Mixed =>
        extent_group_bytes ← ok_or (checked_mul 64 CHUNK_MEDIA_PUBLICATION_LANES extent_slot_bytes) InvalidInput;
        packed_group_bytes ← ok_or (checked_mul 64 CHUNK_MEDIA_PUBLICATION_LANES packed_slot_bytes) InvalidInput;
        pair_stride ← ok_or (checked_add 64 extent_group_bytes packed_group_bytes) InvalidInput;
        let pair_index := key_seed / 2 in
        offset ← ok_or (checked_mul 64 pair_index pair_stride) InvalidInput;
        pair_base ← ok_or (checked_add 64 CHUNK_MEDIA_SUPERBLOCK_BYTES offset) InvalidInput;
        if Z.land key_seed 1 =? 0 then
          lane ← ok_or (checked_mul 64 publication_lane extent_slot_bytes) InvalidInput;
          slot_base_offset ← ok_or (checked_add 64 pair_base lane) InvalidInput;
          Ok (geometry_at slot_base_offset Extent (extent_bytes layout))
        else
          slot_base_offset ← ok_or (
            base ← checked_add 64 pair_base extent_group_bytes;
            lane ← checked_mul 64 publication_lane packed_slot_bytes;
            checked_add 64 base lane) InvalidInput;
          Ok (geometry_at slot_base_offset PackedContainer (packed_bytes layout))
    end.

Definition validate_layout (layout : ChunkMediaLayoutSpec) : io_result unit :=
  if key_slots layout =? 0 then Ok tt
  else if negb (extent_bytes layout mod CHUNK_MEDIA_ALIGN_BYTES =? 0) then Err InvalidInput
  else if negb (packed_bytes layout mod CHUNK_MEDIA_ALIGN_BYTES =? 0) then Err InvalidInput
  else Ok tt.

Definition planned_chunk_media_span_bytes (layout : ChunkMediaLayoutSpec) : io_result Z :=
  _ ← validate_layout layout;
  if key_slots layout =? 0 then Ok CHUNK_MEDIA_SUPERBLOCK_BYTES
  else
    last ← slot_geometry layout (key_slots layout - 1) (CHUNK_MEDIA_PUBLICATION_LANES - 1);
    ok_or (checked_add 64 (sg_payload_offset last) (sg_stored_length last)) InvalidInput.

(** The lengths a record must have for a slot of [bytes]. *)
Definition record_fits (record : LocationRecord) (kind : LocationKind) (bytes : Z) : bool :=
  bool_decide (lr_location_kind record = kind) && negb (lr_logical_length record =? 0)
  && (lr_logical_length record <=? bytes) && (lr_stored_length record =? bytes).

(** Extent-only and packed-only layouts differ in the kind and the slot size. *)
Definition uniform_address (record : LocationRecord) (kind : LocationKind)
    (bytes slot_size relative_offset : Z) : io_result SlotAddress :=
  if negb (record_fits record kind bytes) then Err InvalidInput
  else if negb (relative_offset mod slot_size =? 0) then Err InvalidInput
  else
    let physical_slot := relative_offset / slot_size in
    Ok (mkAddress (physical_slot / CHUNK_MEDIA_PUBLICATION_LANES)
          (physical_slot mod CHUNK_MEDIA_PUBLICATION_LANES)).

Definition slot_address_for_record (layout : ChunkMediaLayoutSpec) (record : LocationRecord) :
    io_result SlotAddress :=
  _ ← validate_layout layout;
  if lr_physical_offset record <? CHUNK_MEDIA_SUPERBLOCK_BYTES + CHUNK_MEDIA_SLOT_HEADER_BYTES
  then Err InvalidInput
  else
    slot_base_offset ← ok_or (checked_sub (lr_physical_offset record) CHUNK_MEDIA_SLOT_HEADER_BYTES) InvalidInput;
    relative_offset ← ok_or (checked_sub slot_base_offset CHUNK_MEDIA_SUPERBLOCK_BYTES) InvalidInput;
    extent_slot_bytes ← slot_bytes (extent_bytes layout);
    packed_slot_bytes ← slot_bytes (packed_bytes layout);
    address ←
      match layout_kind layout with
      | ExtentOnly =>
          uniform_address record Extent (extent_bytes layout) extent_slot_bytes relative_offset
      | PackedOnly =>
          uniform_address record PackedContainer (packed_bytes layout) packed_slot_bytes relative_offset
      | Mixed =>
          extent_group_bytes ← ok_or (checked_mul 64 CHUNK_MEDIA_PUBLICATION_LANES extent_slot_bytes) InvalidInput;
          packed_group_bytes ← ok_or (checked_mul 64 CHUNK_MEDIA_PUBLICATION_LANES packed_slot_bytes) InvalidInput;
          pair_stride ← ok_or (checked_add 64 extent_group_bytes packed_group_bytes) InvalidInput;
          let pair_index := relative_offset / pair_stride in
          let pair_offset := relative_offset mod pair_stride in
          if record_fits record Extent (extent_bytes layout)
             && (pair_offset <? extent_group_bytes) && (pair_offset mod extent_slot_bytes =? 0)
          then
            slot_index ← ok_or (checked_mul 64 pair_index 2) InvalidInput;
            Ok (mkAddress slot_index (pair_offset / extent_slot_bytes))
          else if record_fits record PackedContainer (packed_bytes layout)
             && (extent_group_bytes <=? pair_offset)
             && ((pair_offset - extent_group_bytes) mod packed_slot_bytes =? 0)
          then
            let packed_offset := pair_offset - extent_group_bytes in
            slot_index ← ok_or (v ← checked_mul 64 pair_index 2; checked_add 64 v 1) InvalidInput;
            Ok (mkAddress slot_index (packed_offset / packed_slot_bytes))
          else Err InvalidInput
      end;
    if key_slots layout <=? sa_slot_index address then Err InvalidInput else Ok address.

Definition chunk_media_slot_index_for_record (layout : ChunkMediaLayoutSpec)
    (record : LocationRecord) : io_result Z :=
  address ← slot_address_for_record layout record; Ok (sa_slot_index address).

Definition slot_geometry_for_record (layout : ChunkMediaLayoutSpec) (record : LocationRecord) :
    io_result SlotGeometry :=
  address ← slot_address_for_record layout record;
  slot_geometry layout (sa_slot_index address) (sa_publication_lane address).

Definition publication_lane_for_generation (generation : Z) : Z :=
  saturating_sub generation 1 mod CHUNK_MEDIA_PUBLICATION_LANES.

Definition next_publication_lane (layout : ChunkMediaLayoutSpec) (slot_index : Z)
    (current_record : option LocationRecord) : io_result Z :=
  match current_record with
  | Some record =>
      address ← slot_address_for_record layout record;
      if sa_slot_index address =? slot_index
      then Ok ((sa_publication_lane address + 1) mod CHUNK_MEDIA_PUBLICATION_LANES)
      else Ok 0
  | None => Ok 0
  end.

(** The record a geometry gives rise to, before the payload is known. *)
Definition record_of_geometry (drive_id : Z) (g : SlotGeometry) (generation : Z) : LocationRecord :=
  match sg_location_kind g with
  | Extent =>
      location_extent drive_id (sg_payload_offset g) (sg_logical_length g) (sg_stored_length g) generation 0
  | PackedContainer =>
      location_packed drive_id (sg_payload_offset g) (sg_logical_length g) (sg_stored_length g) generation 0
  end.

Definition chunk_media_record_for_slot_to_lane (layout : ChunkMediaLayoutSpec)
    (drive_id slot_index publication_lane generation : Z) : io_result LocationRecord :=
  geometry ← slot_geometry layout slot_index publication_lane;
  Ok (record_of_geometry drive_id geometry generation).

Definition chunk_media_record_for_key (layout : ChunkMediaLayoutSpec)
    (drive_id key_seed generation : Z) : io_result LocationRecord :=
  chunk_media_record_for_slot_to_lane layout drive_id key_seed
    (publication_lane_for_generation generation) generation.

Definition chunk_media_record_for_slot_against_current (layout : ChunkMediaLayoutSpec)
    (drive_id slot_index : Z) (current_record : option LocationRecord) (generation : Z) :
    io_result LocationRecord :=
  lane ← next_publication_lane layout slot_index current_record;
  chunk_media_record_for_slot_to_lane layout drive_id slot_index lane generation.

(** ** Spans and offsets *)

Definition validate_offset_alignment (value : Z) : io_result unit :=
  if negb (value mod CHUNK_MEDIA_ALIGN_BYTES =? 0) then Err InvalidInput else Ok tt.

Definition absolute_chunk_media_offset (span : ChunkMediaSpanConfig) (local_offset : Z) : io_result Z :=
  ok_or (checked_add 64 (span_offset_bytes span) local_offset) InvalidInput.

Definition resolve_effective_span_bytes (s : Store) (offset_bytes : Z) (len_bytes : option Z) :
    io_result Z :=
  _ ← validate_offset_alignment offset_bytes;
  let total_bytes := storage_capacity_bytes s in
  if total_bytes <? offset_bytes then Err InvalidInput
  else
    let effective := default (total_bytes - offset_bytes) len_bytes in
    if effective =? 0 then Err InvalidInput
    else
      _ ← validate_offset_alignment effective;
      end_ ← ok_or (checked_add 64 offset_bytes effective) InvalidInput;
      if total_bytes <? end_ then Err InvalidInput else Ok effective.

Definition is_zero_block (block : list byte) : bool :=
  forallb (fun b => bool_decide (b = x00)) block.

(** [AlignedIoBuffer::zeroed]; allocation does not fail. *)
Definition aligned_zeroed (n : Z) : io_result (list byte) :=
  if n =? 0 then Err InvalidInput else Ok (zeroed n).

(** [direct_write_exact]: whatever stops it short is an OS error. *)
Definition direct_write_exact (offset : Z) (buffer : list byte) : M Store io_error_kind unit :=
  fun s => let '(s', r) := store_write s offset buffer in (s', map_err (fun _ => OtherError) r).

(** [direct_read_exact] *)
Definition direct_read_exact (s : Store) (offset n : Z) : io_result (list byte) :=
  store_read s offset n.

Definition direct_fdatasync : M Store io_error_kind unit := fun s => (store_sync s, Ok tt).

Section media.
Context `{Crc32}.

(** ** The superblock *)

Definition superblock_prefix (sb : ChunkMediaSuperblock) : list byte :=
  CHUNK_MEDIA_SUPERBLOCK_MAGIC ++ le_bytes 2 (sb_version sb) ++
  le_bytes 1 (layout_kind_as_u8 (layout_kind (sb_layout sb))) ++ le_bytes 1 0 ++
  le_bytes 4 (extent_bytes (sb_layout sb)) ++ le_bytes 4 (packed_bytes (sb_layout sb)) ++
  le_bytes 8 (key_slots (sb_layout sb)) ++ le_bytes 8 (sb_media_span_bytes sb) ++
  le_bytes 4 CHUNK_MEDIA_SUPERBLOCK_BYTES ++ le_bytes 4 CHUNK_MEDIA_SLOT_HEADER_BYTES.

(** The buffer is cleared, then the fields and the CRC of the first 44 bytes are set. *)
Definition encode_superblock (buffer : list byte) (sb : ChunkMediaSuperblock) : io_result (list byte) :=
  if len buffer <? CHUNK_MEDIA_SUPERBLOCK_BYTES then Err InvalidInput
  else
    let prefix := superblock_prefix sb in
    Ok (prefix ++ le_bytes 4 (crc32_ieee prefix) ++ zeroed (len buffer - 48)).

Definition decode_superblock (buffer : list byte) : option ChunkMediaSuperblock :=
  if len buffer <? CHUNK_MEDIA_SUPERBLOCK_BYTES then None
  else
    magic ← slice 0 8 buffer;
    if negb (bool_decide (magic = CHUNK_MEDIA_SUPERBLOCK_MAGIC)) then None
    else
      expected_crc ← get_le 44 4 buffer;
      covered ← slice 0 44 buffer;
      if negb (expected_crc =? crc32_ieee covered) then None
      else
        version ← get_le 8 2 buffer;
        if negb (version =? CHUNK_MEDIA_VERSION) then None
        else
          kind ← get_le 10 1 buffer;
          layout_kind ← layout_kind_from_u8 kind;
          extent_bytes ← get_le 12 4 buffer;
          packed_bytes ← get_le 16 4 buffer;
          key_slots ← get_le 20 8 buffer;
          media_span_bytes ← get_le 28 8 buffer;
          Some (mkSuperblock version (mkLayout layout_kind extent_bytes packed_bytes key_slots)
                  media_span_bytes).

Definition ensure_chunk_media_superblock (config : ChunkMediaWriteConfig) :
    M Store io_error_kind ChunkMediaSuperblock :=
  _ ← lift (validate_layout (mc_layout config));
  s ← get_state;
  span_bytes ← lift (resolve_effective_span_bytes s (span_offset_bytes (mc_span config))
                       (span_len_bytes (mc_span config)));
  required_span ← lift (planned_chunk_media_span_bytes (mc_layout config));
  if span_bytes <? required_span then lift (Err InvalidInput)
  else
    let superblock := mkSuperblock CHUNK_MEDIA_VERSION (mc_layout config) span_bytes in
    block ← lift (direct_read_exact s (span_offset_bytes (mc_span config)) CHUNK_MEDIA_ALIGN_BYTES);
    match decode_superblock block with
    | Some existing =>
        if bool_decide (existing = superblock) then mret existing else lift (Err InvalidData)
    | None =>
        encoded ← lift (encode_superblock block superblock);
        _ ← direct_write_exact (span_offset_bytes (mc_span config)) encoded;
        _ ← direct_fdatasync;
        mret superblock
    end.

Definition read_chunk_media_superblock (s : Store) (span : ChunkMediaSpanConfig) :
    io_result ChunkMediaSuperblock :=
  _ ← resolve_effective_span_bytes s (span_offset_bytes span) (span_len_bytes span);
  block ← direct_read_exact s (span_offset_bytes span) CHUNK_MEDIA_ALIGN_BYTES;
  ok_or (decode_superblock block) InvalidData.

(** ** Slot headers *)

Definition slot_header_prefix (h : ChunkMediaSlotHeader) : list byte :=
  let r := sh_record h in
  CHUNK_MEDIA_SLOT_MAGIC ++ le_bytes 2 CHUNK_MEDIA_VERSION ++
  le_bytes 1 (entry_state_as_u8 (sh_state h)) ++ le_bytes 1 (location_kind_byte (lr_location_kind r)) ++
  le_bytes 2 (lr_drive_id r) ++ le_bytes 2 (id_stripe (sh_identity h)) ++
  sh_chunk_id h ++ le_bytes 8 (lr_physical_offset r) ++
  le_bytes 4 (lr_logical_length r) ++ le_bytes 4 (lr_stored_length r) ++
  le_bytes 4 (lr_generation r) ++ le_bytes 4 (lr_checksum r) ++
  le_bytes 4 (id_object_id (sh_identity h)) ++ le_bytes 2 (id_object_version (sh_identity h)) ++
  le_bytes 2 (id_frag (sh_identity h)).

Definition encode_slot_header (buffer : list byte) (h : ChunkMediaSlotHeader) : io_result (list byte) :=
  if len buffer <? CHUNK_MEDIA_SLOT_HEADER_BYTES then Err InvalidInput
  else
    let prefix := slot_header_prefix h in
    Ok (prefix ++ le_bytes 4 (crc32_ieee prefix) ++ zeroed (len buffer - 84)).

Definition decode_slot_header (buffer : list byte) : option ChunkMediaSlotHeader :=
  if len buffer <? CHUNK_MEDIA_SLOT_HEADER_BYTES then None
  else
    magic ← slice 0 8 buffer;
    if negb (bool_decide (magic = CHUNK_MEDIA_SLOT_MAGIC)) then None
    else
      version ← get_le 8 2 buffer;
      if negb (version =? CHUNK_MEDIA_VERSION) then None
      else
        expected_crc ← get_le 80 4 buffer;
        covered ← slice 0 80 buffer;
        if negb (expected_crc =? crc32_ieee covered) then None
        else
          state_byte ← get_le 10 1 buffer;
          state ← entry_state_from_u8 state_byte;
          kind_byte ← get_le 11 1 buffer;
          location_kind ← location_kind_from_byte kind_byte;
          drive_id ← get_le 12 2 buffer;
          chunk_id ← slice 16 32 buffer;
          physical_offset ← get_le 48 8 buffer;
          logical_length ← get_le 56 4 buffer;
          stored_length ← get_le 60 4 buffer;
          generation ← get_le 64 4 buffer;
          checksum ← get_le 68 4 buffer;
          stripe ← get_le 14 2 buffer;
          object_id ← get_le 72 4 buffer;
          object_version ← get_le 76 2 buffer;
          frag ← get_le 78 2 buffer;
          Some (mkSlotHeader state chunk_id
                  (mkLocationRecord drive_id location_kind physical_offset logical_length
                     stored_length generation checksum)
                  (mkIdentity stripe object_id object_version frag)).

Definition slot_header_matches_geometry (h : ChunkMediaSlotHeader) (g : SlotGeometry) : bool :=
  bool_decide (lr_location_kind (sh_record h) = sg_location_kind g)
  && (lr_physical_offset (sh_record h) =? sg_payload_offset g)
  && (0 <? lr_logical_length (sh_record h))
  && (lr_logical_length (sh_record h) <=? sg_logical_length g)
  && (lr_stored_length (sh_record h) =? sg_stored_length g).

(** ** Writes *)

Inductive PublicationLaneSelector : Type :=
| AgainstCurrent (current_record : option LocationRecord)
| Explicit (publication_lane : Z).

Inductive WriteDurability : Type :=
| Barrier
| Deferred.

Definition with_payload (r : LocationRecord) (payload : list byte) : LocationRecord :=
  mkLocationRecord (lr_drive_id r) (lr_location_kind r) (lr_physical_offset r)
    (wrap 32 (len payload)) (lr_stored_length r) (lr_generation r) (crc32_ieee payload).

(** The prepared write: the record to publish, the absolute offset and the bytes, the
    header block followed by the payload, rounded up to whole blocks but never past the
    slot. *)
Definition prepare_payload_write (config : ChunkMediaWriteConfig) (superblock : ChunkMediaSuperblock)
    (slot_index : Z) (lane : PublicationLaneSelector) (chunk_id : ChunkId) (generation : Z)
    (identity : ChunkSelfDescribingIdentity) (payload : list byte) :
    io_result (LocationRecord * Z * list byte) :=
  if key_slots (sb_layout superblock) <=? slot_index then Err InvalidInput
  else
    record ←
      match lane with
      | AgainstCurrent current_record =>
          chunk_media_record_for_slot_against_current (sb_layout superblock) (mc_drive_id config)
            slot_index current_record generation
      | Explicit publication_lane =>
          chunk_media_record_for_slot_to_lane (sb_layout superblock) (mc_drive_id config)
            slot_index publication_lane generation
      end;
    if (len payload =? 0) || (lr_stored_length record <? len payload) then Err InvalidInput
    else
      let record := with_payload record payload in
      geometry ← slot_geometry_for_record (sb_layout superblock) record;
      slot_len ← ok_or (checked_add 64 CHUNK_MEDIA_SLOT_HEADER_BYTES (lr_stored_length record)) InvalidInput;
      payload_span ← ok_or (checked_add 64 CHUNK_MEDIA_SLOT_HEADER_BYTES (len payload)) InvalidInput;
      let write_len := Z.min (saturating_mul 64 (div_ceil payload_span CHUNK_MEDIA_ALIGN_BYTES)
                                CHUNK_MEDIA_ALIGN_BYTES) slot_len in
      block ← aligned_zeroed write_len;
      block ← encode_slot_header block (mkSlotHeader Live chunk_id record identity);
      let block := splice CHUNK_MEDIA_SLOT_HEADER_BYTES payload block in
      offset ← absolute_chunk_media_offset (mc_span config) (sg_slot_base_offset geometry);
      Ok (record, offset, block).

Definition write_chunk_media_payload_with_file (config : ChunkMediaWriteConfig)
    (superblock : ChunkMediaSuperblock) (slot_index : Z) (lane : PublicationLaneSelector)
    (chunk_id : ChunkId) (generation : Z) (identity : ChunkSelfDescribingIdentity)
    (payload : list byte) (durability : WriteDurability) : M Store io_error_kind LocationRecord :=
  '(record, offset, block) ← lift (prepare_payload_write config superblock slot_index lane
                                     chunk_id generation identity payload);
  _ ← direct_write_exact offset block;
  _ ← match durability with
      | Barrier => direct_fdatasync
      | Deferred => mret tt
      end;
  mret record.

Definition with_generation (r : LocationRecord) (generation : Z) : LocationRecord :=
  mkLocationRecord (lr_drive_id r) (lr_location_kind r) (lr_physical_offset r)
    (lr_logical_length r) (lr_stored_length r) generation (lr_checksum r).

Definition write_chunk_media_tombstone_with_file (config : ChunkMediaWriteConfig)
    (superblock : ChunkMediaSuperblock) (chunk_id : ChunkId) (record : LocationRecord)
    (generation : Z) : M Store io_error_kind unit :=
  let tombstone_record := with_generation record generation in
  geometry ← lift (slot_geometry_for_record (sb_layout superblock) tombstone_record);
  block ← lift (aligned_zeroed CHUNK_MEDIA_SLOT_HEADER_BYTES);
  block ← lift (encode_slot_header block
                  (mkSlotHeader Deleted chunk_id tombstone_record default_identity));
  offset ← lift (absolute_chunk_media_offset (mc_span config) (sg_slot_base_offset geometry));
  _ ← direct_write_exact offset block;
  direct_fdatasync.

(** [write_chunk_media_payload] and [write_chunk_media_tombstone] of a path: the
    superblock is ensured first. *)
Definition write_chunk_media_payload (config : ChunkMediaWriteConfig) (slot_index : Z)
    (chunk_id : ChunkId) (generation : Z) (payload : list byte) :
    M Store io_error_kind LocationRecord :=
  superblock ← ensure_chunk_media_superblock config;
  write_chunk_media_payload_with_file config superblock slot_index (AgainstCurrent None)
    chunk_id generation default_identity payload Barrier.

Definition write_chunk_media_tombstone (config : ChunkMediaWriteConfig) (chunk_id : ChunkId)
    (record : LocationRecord) (generation : Z) : M Store io_error_kind unit :=
  superblock ← ensure_chunk_media_superblock config;
  write_chunk_media_tombstone_with_file config superblock chunk_id record generation.

(** ** Reads *)

Definition read_validated_live_header (s : Store) (span : ChunkMediaSpanConfig)
    (chunk_id : ChunkId) (record : LocationRecord) : io_result ChunkMediaSlotHeader :=
  if lr_physical_offset record <? CHUNK_MEDIA_SLOT_HEADER_BYTES then Err InvalidInput
  else
    base ← ok_or (checked_sub (lr_physical_offset record) CHUNK_MEDIA_SLOT_HEADER_BYTES) InvalidInput;
    header_offset ← absolute_chunk_media_offset span base;
    header_block ← direct_read_exact s header_offset CHUNK_MEDIA_SLOT_HEADER_BYTES;
    if is_zero_block header_block then Err NotFound
    else
      header ← ok_or (decode_slot_header header_block) InvalidData;
      if negb (bool_decide (sh_state header = Live)) then Err NotFound
      else if negb (bool_decide (sh_chunk_id header = chunk_id)) then Err InvalidData
      else if negb (bool_decide (sh_record header = record)) then Err InvalidData
      else Ok header.

Definition clamp (x lo hi : Z) : Z := if x <? lo then lo else if hi <? x then hi else x.

Definition read_chunk_media_payload_with_file (s : Store) (span : ChunkMediaSpanConfig)
    (chunk_id : ChunkId) (record : LocationRecord) : io_result (list byte) :=
  _ ← read_validated_live_header s span chunk_id record;
  let logical_len := Z.min (lr_logical_length record) (lr_stored_length record) in
  let read_len := clamp (saturating_mul 64 (div_ceil logical_len CHUNK_MEDIA_ALIGN_BYTES)
                           CHUNK_MEDIA_ALIGN_BYTES)
                    CHUNK_MEDIA_ALIGN_BYTES
                    (Z.max (lr_stored_length record) CHUNK_MEDIA_ALIGN_BYTES) in
  _ ← aligned_zeroed read_len;
  offset ← absolute_chunk_media_offset span (lr_physical_offset record);
  buffer ← direct_read_exact s offset read_len;
  let payload := take (Z.to_nat logical_len) buffer in
  if negb (crc32_ieee payload =? lr_checksum record) then Err InvalidData
  else Ok payload.

(** [ChunkMediaHandle::read_identity] *)
Definition read_identity (s : Store) (span : ChunkMediaSpanConfig) (chunk_id : ChunkId)
    (record : LocationRecord) : io_result ChunkSelfDescribingIdentity :=
  header ← read_validated_live_header s span chunk_id record;
  Ok (sh_identity header).

(** ** Rebuild *)

Record ChunkMediaRebuildSummary := mkSummary {
  scanned_slots : Z;
  live_entries : Z;
  tombstones : Z;
  empty_slots : Z;
  corrupt_headers : Z;
  corrupt_payloads : Z;
  layout_mismatches : Z;
}.

(** What the scan finds in one lane of one slot. *)
Inductive LaneContent : Type :=
| LaneEmpty
| LaneCorruptHeader
| LaneMismatch
| LaneCorruptPayload
| LaneHeader (header : ChunkMediaSlotHeader).

Definition count_lane (c : LaneContent) (m : ChunkMediaRebuildSummary) : ChunkMediaRebuildSummary :=
  let '(mkSummary sc li to em ch cp lm) := m in
  match c with
  | LaneEmpty => mkSummary (sc + 1) li to (em + 1) ch cp lm
  | LaneCorruptHeader => mkSummary (sc + 1) li to em (ch + 1) cp lm
  | LaneMismatch => mkSummary (sc + 1) li to em ch cp (lm + 1)
  | LaneCorruptPayload => mkSummary (sc + 1) li to em ch (cp + 1) lm
  | LaneHeader h =>
      match sh_state h with
      | Deleted => mkSummary (sc + 1) li (to + 1) em ch cp lm
      | Live => mkSummary (sc + 1) (li + 1) to em ch cp lm
      end
  end.

Definition scan_lane (s : Store) (span : ChunkMediaSpanConfig) (layout : ChunkMediaLayoutSpec)
    (key_seed publication_lane : Z) : io_result LaneContent :=
  geometry ← slot_geometry layout key_seed publication_lane;
  header_offset ← absolute_chunk_media_offset span (sg_slot_base_offset geometry);
  header_block ← direct_read_exact s header_offset CHUNK_MEDIA_SLOT_HEADER_BYTES;
  if is_zero_block header_block then Ok LaneEmpty
  else
    match decode_slot_header header_block with
    | None => Ok LaneCorruptHeader
    | Some header =>
        if negb (slot_header_matches_geometry header geometry) then Ok LaneMismatch
        else
          match sh_state header with
          | Deleted => Ok (LaneHeader header)
          | Live =>
              _ ← aligned_zeroed (lr_stored_length (sh_record header));
              offset ← absolute_chunk_media_offset span (lr_physical_offset (sh_record header));
              payload ← direct_read_exact s offset (lr_stored_length (sh_record header));
              let logical_len := Z.min (lr_logical_length (sh_record header)) (len payload) in
              if negb (crc32_ieee (take (Z.to_nat logical_len) payload) =? lr_checksum (sh_record header))
              then Ok LaneCorruptPayload
              else Ok (LaneHeader header)
          end
    end.

Definition update_latest_header (latest : gmap ChunkId ChunkMediaSlotHeader)
    (candidate : ChunkMediaSlotHeader) : gmap ChunkId ChunkMediaSlotHeader :=
  match latest !! sh_chunk_id candidate with
  | Some existing =>
      if (lr_generation (sh_record candidate) <? lr_generation (sh_record existing))
         || ((lr_generation (sh_record existing) =? lr_generation (sh_record candidate))
             && bool_decide (sh_state existing = Deleted) && bool_decide (sh_state candidate = Live))
      then latest
      else <[sh_chunk_id candidate := candidate]> latest
  | None => <[sh_chunk_id candidate := candidate]> latest
  end.

Definition rebuild_lane (s : Store) (span : ChunkMediaSpanConfig) (layout : ChunkMediaLayoutSpec)
    (acc : ChunkMediaRebuildSummary * gmap ChunkId ChunkMediaSlotHeader) (at_ : Z * Z) :
    io_result (ChunkMediaRebuildSummary * gmap ChunkId ChunkMediaSlotHeader) :=
  content ← scan_lane s span layout at_.1 at_.2;
  Ok (count_lane content acc.1,
      match content with
      | LaneHeader header => update_latest_header acc.2 header
      | _ => acc.2
      end).

(** The lanes in the order of the two nested loops. *)
Definition all_lanes (key_slots : Z) : list (Z * Z) :=
  seqZ 0 key_slots ≫= fun key_seed =>
    (fun lane => (key_seed, lane)) <$> seqZ 0 CHUNK_MEDIA_PUBLICATION_LANES.

Record ChunkMediaRebuildResult := mkRebuildResult {
  rr_superblock : ChunkMediaSuperblock;
  rr_entries : gmap ChunkId LocationRecord;
  rr_identities : gmap ChunkId ChunkSelfDescribingIdentity;
  rr_summary : ChunkMediaRebuildSummary;
}.

Definition if_live {A} (f : ChunkMediaSlotHeader → A) (h : ChunkMediaSlotHeader) : option A :=
  if bool_decide (sh_state h = Live) then Some (f h) else None.

Definition rebuild_from_chunk_media (s : Store) (span : ChunkMediaSpanConfig) :
    io_result ChunkMediaRebuildResult :=
  superblock ← read_chunk_media_superblock s span;
  '(summary, latest_headers) ← try_fold (rebuild_lane s span (sb_layout superblock))
                                 (mkSummary 0 0 0 0 0 0 0, ∅)
                                 (all_lanes (key_slots (sb_layout superblock)));
  Ok (mkRebuildResult superblock (omap (if_live sh_record) latest_headers)
        (omap (if_live sh_identity) latest_headers) summary).

End media.
