(* ===== verification/ChunkMediaGeo.v ===== *)
(** Geometry of the chunk media: the lanes of all slots tile the span behind the
    superblock, [slot_geometry] computes their positions and [slot_address_for_record]
    is its inverse. *)
From S2P Require Import Prelude Bytes Device KixTypes ChunkMedia.

(** ** Reference positions *)

Definition slot_kind (layout : ChunkMediaLayoutSpec) (slot : Z) : LocationKind :=
  match layout_kind layout with
  | ExtentOnly => Extent
  | PackedOnly => PackedContainer
  | Mixed => if Z.even slot then Extent else PackedContainer
  end.

Definition slot_capacity (layout : ChunkMediaLayoutSpec) (slot : Z) : Z :=
  match slot_kind layout slot with
  | Extent => extent_bytes layout
  | PackedContainer => packed_bytes layout
  end.

(** The first byte of a lane and the byte after its last one. *)
Definition lane_base (layout : ChunkMediaLayoutSpec) (slot lane : Z) : Z :=
  let es := 4096 + extent_bytes layout in
  let ps := 4096 + packed_bytes layout in
  match layout_kind layout with
  | ExtentOnly => 4096 + (slot * 2 + lane) * es
  | PackedOnly => 4096 + (slot * 2 + lane) * ps
  | Mixed =>
      4096 + slot / 2 * (2 * es + 2 * ps) + (if Z.even slot then lane * es else 2 * es + lane * ps)
  end.

Definition lane_end (layout : ChunkMediaLayoutSpec) (slot lane : Z) : Z :=
  lane_base layout slot lane + 4096 + slot_capacity layout slot.

Definition layout_wf (layout : ChunkMediaLayoutSpec) : Prop :=
  is_u32 (extent_bytes layout) ∧ is_u32 (packed_bytes layout) ∧ is_u64 (key_slots layout).

(** The last lane ends inside the 64-bit offsets. *)
Definition layout_fits (layout : ChunkMediaLayoutSpec) : Prop :=
  layout_wf layout ∧ validate_layout layout = Ok tt ∧
  (0 < key_slots layout → lane_end layout (key_slots layout - 1) 1 < 2 ^ 64).

Definition lane_in (layout : ChunkMediaLayoutSpec) (slot lane : Z) : Prop :=
  0 ≤ slot < key_slots layout ∧ 0 ≤ lane < 2.

Definition lane_geometry (layout : ChunkMediaLayoutSpec) (slot lane : Z) : SlotGeometry :=
  mkGeometry (lane_base layout slot lane) (lane_base layout slot lane + 4096)
    (slot_kind layout slot) (slot_capacity layout slot) (slot_capacity layout slot).

(** ** Tiling *)

Lemma even_div2 n : n = 2 * (n / 2) + (if Z.even n then 0 else 1).
Proof.
  rewrite (Z.div_mod n 2) at 1 by lia. rewrite Zmod_even. by destruct (Z.even n).
Qed.

Lemma slot_capacity_u32 layout slot : layout_wf layout → is_u32 (slot_capacity layout slot).
Proof. intros (? & ? & _). unfold slot_capacity. by destruct (slot_kind _ _). Qed.

(** Lane 1 starts where lane 0 ends, and the next slot where lane 1 ends. *)
Lemma lane_next layout slot : lane_end layout slot 0 = lane_base layout slot 1.
Proof.
  unfold lane_end, lane_base, slot_capacity, slot_kind.
  destruct (layout_kind layout); [lia|lia|]. destruct (Z.even slot); lia.
Qed.

Lemma slot_next layout slot : lane_end layout slot 1 = lane_base layout (slot + 1) 0.
Proof.
  unfold lane_end, lane_base, slot_capacity, slot_kind.
  destruct (layout_kind layout); [lia|lia|].
  pose proof (even_div2 slot) as E1. pose proof (even_div2 (slot + 1)) as E2.
  rewrite Z.even_add in *. cbn in *.
  destruct (Z.even slot); cbn in *.
  - assert ((slot + 1) / 2 = slot / 2) as -> by lia. lia.
  - assert ((slot + 1) / 2 = slot / 2 + 1) as -> by lia. lia.
Qed.

Lemma lane_end_gt layout slot lane :
  layout_wf layout → lane_base layout slot lane + 4096 ≤ lane_end layout slot lane.
Proof. intros [? ?]%(slot_capacity_u32 _ slot). unfold lane_end. lia. Qed.

Lemma slot_base_mono layout slot slot' :
  layout_wf layout → slot ≤ slot' → lane_base layout slot 0 ≤ lane_base layout slot' 0.
Proof.
  intros Hwf Hle. replace slot' with (slot + Z.of_nat (Z.to_nat (slot' - slot))) by lia.
  induction (Z.to_nat (slot' - slot)) as [|n IH]; [rewrite Z.add_0_r; lia|].
  replace (slot + Z.of_nat (S n)) with (slot + Z.of_nat n + 1) by lia.
  rewrite <-slot_next.
  pose proof (lane_end_gt layout (slot + Z.of_nat n) 0 Hwf).
  pose proof (lane_end_gt layout (slot + Z.of_nat n) 1 Hwf).
  rewrite lane_next in *. lia.
Qed.

Lemma lane_cases lane : 0 ≤ lane < 2 → lane = 0 ∨ lane = 1.
Proof. lia. Qed.

Lemma lane_within layout slot lane :
  layout_wf layout → 0 ≤ lane < 2 →
  lane_base layout slot 0 ≤ lane_base layout slot lane ∧
  lane_end layout slot lane ≤ lane_base layout (slot + 1) 0.
Proof.
  intros Hwf [-> | ->]%lane_cases; rewrite <-slot_next;
    pose proof (lane_end_gt layout slot 0 Hwf); pose proof (lane_end_gt layout slot 1 Hwf);
    rewrite lane_next in *; lia.
Qed.

Lemma lane_order layout slot lane slot' lane' :
  layout_wf layout → 0 ≤ lane < 2 → 0 ≤ lane' < 2 → slot < slot' ∨ (slot = slot' ∧ lane < lane') →
  lane_end layout slot lane ≤ lane_base layout slot' lane'.
Proof.
  intros Hwf Hl Hl' [Hlt | [<- Hlt]].
  - pose proof (slot_base_mono layout (slot + 1) slot' Hwf ltac:(lia)).
    pose proof (lane_within layout slot lane Hwf Hl) as [_ ?].
    pose proof (lane_within layout slot' lane' Hwf Hl') as [? _]. lia.
  - assert (lane = 0) as -> by lia. assert (lane' = 1) as -> by lia. by rewrite lane_next.
Qed.

Lemma lane_base_min layout slot lane :
  layout_wf layout → 0 ≤ slot → 0 ≤ lane < 2 → 4096 ≤ lane_base layout slot lane.
Proof.
  intros Hwf Hs Hl. pose proof (lane_within layout slot lane Hwf Hl) as [? _].
  pose proof (slot_base_mono layout 0 slot Hwf Hs) as H0.
  assert (lane_base layout 0 0 = 4096) as E.
  { unfold lane_base. change (0 / 2) with 0. change (Z.even 0) with true.
    destruct (layout_kind layout); lia. }
  lia.
Qed.

(** Every lane ends before the last one does. *)
Lemma lane_end_max layout slot lane :
  layout_wf layout → lane_in layout slot lane →
  lane_end layout slot lane ≤ lane_end layout (key_slots layout - 1) 1.
Proof.
  intros Hwf [Hs Hl]. destruct (decide (slot = key_slots layout - 1 ∧ lane = 1)) as [[-> ->]|]; [done|].
  pose proof (lane_order layout slot lane (key_slots layout - 1) 1 Hwf Hl ltac:(lia) ltac:(lia)).
  pose proof (lane_end_gt layout (key_slots layout - 1) 1 Hwf). lia.
Qed.

Lemma lane_end_u64 layout slot lane :
  layout_fits layout → lane_in layout slot lane → lane_end layout slot lane < 2 ^ 64.
Proof.
  intros (Hwf & _ & Hfit) Hin. pose proof (lane_end_max layout slot lane Hwf Hin).
  destruct Hin. specialize (Hfit ltac:(lia)). lia.
Qed.

(** ** The computed geometry *)

Lemma land_1_even n : (Z.land n 1 =? 0) = Z.even n.
Proof.
  change 1 with (Z.ones 1). rewrite Z.land_ones by lia. change (2 ^ 1) with 2.
  rewrite Zmod_even. by destruct (Z.even n).
Qed.

Lemma slot_bytes_ok b : is_u32 b → slot_bytes b = Ok (4096 + b).
Proof.
  intros [? ?]. unfold slot_bytes, CHUNK_MEDIA_SLOT_HEADER_BYTES.
  rewrite checked_add_ok by lia. done.
Qed.

(** Evaluates the checked arithmetic of a computation whose results are in range. *)
Ltac checked :=
  repeat (first
    [ rewrite checked_mul_ok by nia
    | rewrite checked_add_ok by nia
    | rewrite checked_sub_ok by nia ];
    cbn [mbind option_bind ok_or result_mbind result_bind]).

Lemma slot_geometry_ok layout slot lane :
  layout_fits layout → lane_in layout slot lane →
  slot_geometry layout slot lane = Ok (lane_geometry layout slot lane).
Proof.
  intros Hfit Hin. pose proof (lane_end_u64 layout slot lane Hfit Hin) as Hend.
  destruct Hfit as ((He & Hp & Hk) & _ & _), Hin as [Hs Hl].
  unfold slot_geometry, CHUNK_MEDIA_PUBLICATION_LANES.
  destruct (Z.leb_spec 2 lane) as [?|_]; [lia|].
  rewrite !slot_bytes_ok, !result_bind_eq by done.
  unfold geometry_at, lane_geometry, CHUNK_MEDIA_SUPERBLOCK_BYTES, CHUNK_MEDIA_SLOT_HEADER_BYTES.
  unfold lane_end in Hend. unfold slot_kind, slot_capacity, slot_kind, lane_base in *.
  destruct He as [He0 He], Hp as [Hp0 Hp].
  destruct (layout_kind layout).
  - checked. rewrite wrap_small by (unfold fits; nia). do 2 f_equal; nia.
  - checked. rewrite wrap_small by (unfold fits; nia). do 2 f_equal; nia.
  - rewrite land_1_even. assert (0 ≤ slot / 2) by (apply Z.div_pos; lia).
    destruct (Z.even slot).
    + checked. rewrite wrap_small by (unfold fits; nia). do 2 f_equal; nia.
    + checked. rewrite wrap_small by (unfold fits; nia). do 2 f_equal; nia.
Qed.

Lemma planned_span_ok layout :
  layout_fits layout → 0 < key_slots layout →
  planned_chunk_media_span_bytes layout = Ok (lane_end layout (key_slots layout - 1) 1).
Proof.
  intros Hfit Hk. pose proof Hfit as (Hwf & Hv & Hend). specialize (Hend Hk).
  unfold planned_chunk_media_span_bytes. rewrite Hv, result_bind_eq.
  destruct (Z.eqb_spec (key_slots layout) 0); [lia|].
  unfold CHUNK_MEDIA_PUBLICATION_LANES. rewrite slot_geometry_ok; [|done|split; lia].
  rewrite result_bind_eq. cbn [sg_payload_offset sg_stored_length lane_geometry].
  unfold lane_end in *. by rewrite checked_add_ok.
Qed.

(** ** The address of a record *)

Lemma mkAddress_Ok a b c d :
  Ok (E:=io_error_kind) (mkAddress a b) = Ok (mkAddress c d) ↔ a = c ∧ b = d.
Proof. split; [intros [=]; done|intros [-> ->]; done]. Qed.

Lemma uniform_address_iff r kind bytes size rel slot lane :
  0 < size →
  uniform_address r kind bytes size rel = Ok (mkAddress slot lane) ↔
  record_fits r kind bytes = true ∧ 0 ≤ lane < 2 ∧ rel = (slot * 2 + lane) * size.
Proof.
  intros Hs. unfold uniform_address, CHUNK_MEDIA_PUBLICATION_LANES.
  destruct (record_fits r kind bytes); cbn [negb]; [|by split; [|intros [? _]]].
  destruct (Z.eqb_spec (rel mod size) 0) as [Hm|Hm]; cbn [negb].
  - rewrite mkAddress_Ok. apply Z.div_exact in Hm; [|lia].
    set (p := rel / size) in *. pose proof (Z.div_mod p 2 ltac:(lia)).
    pose proof (Z.mod_pos_bound p 2 ltac:(lia)). split.
    + intros [<- <-]. split_and!; [done|lia|lia|]. rewrite Hm, H at 1. lia.
    + intros (_ & ? & Hr). assert (p = slot * 2 + lane) as ->.
      { subst p. rewrite Hr. apply Z.div_mul. lia. }
      by rewrite mul_add_div, mul_add_mod.
  - split; [done|]. intros (_ & _ & ->). destruct Hm. apply Z.mod_mul. lia.
Qed.

Lemma record_fits_iff r kind bytes :
  record_fits r kind bytes = true ↔
  lr_location_kind r = kind ∧ lr_logical_length r ≠ 0 ∧ lr_logical_length r ≤ bytes ∧
  lr_stored_length r = bytes.
Proof.
  unfold record_fits. rewrite !andb_true_iff, bool_decide_eq_true, negb_true_iff.
  rewrite Z.eqb_neq, Z.leb_le, Z.eqb_eq. tauto.
Qed.

Lemma even_double a b : 0 ≤ b < 2 → Z.even (a * 2 + b) = (b =? 0) ∧ (a * 2 + b) / 2 = a.
Proof.
  intros Hb. split; [|by apply mul_add_div].
  rewrite Z.even_add, Z.even_mul, orb_true_r.
  assert (b = 0 ∨ b = 1) as [-> | ->] by lia; done.
Qed.

(** A multiple of [a] below [2 * a] is one of two. *)
Lemma two_multiples x a : 0 < a → 0 ≤ x < 2 * a → x mod a = 0 → x = x / a * a ∧ 0 ≤ x / a < 2.
Proof.
  intros Ha Hx Hm. apply Z.div_exact in Hm; [|lia]. split; [lia|].
  split; [apply Z.div_pos; lia|]. apply Z.div_lt_upper_bound; lia.
Qed.

(** The pair-wise search of the mixed layout. *)
Definition mixed_address (r : LocationRecord) (eb pb rel : Z) : io_result SlotAddress :=
  let es := 4096 + eb in
  let ps := 4096 + pb in
  let pair_index := rel / (2 * es + 2 * ps) in
  let pair_offset := rel mod (2 * es + 2 * ps) in
  if record_fits r Extent eb && (pair_offset <? 2 * es) && (pair_offset mod es =? 0) then
    slot_index ← ok_or (checked_mul 64 pair_index 2) InvalidInput;
    Ok (mkAddress slot_index (pair_offset / es))
  else if record_fits r PackedContainer pb && (2 * es <=? pair_offset)
          && ((pair_offset - 2 * es) mod ps =? 0) then
    slot_index ← ok_or (v ← checked_mul 64 pair_index 2; checked_add 64 v 1) InvalidInput;
    Ok (mkAddress slot_index ((pair_offset - 2 * es) / ps))
  else Err InvalidInput.

Lemma mixed_address_sound r eb pb rel slot lane :
  0 ≤ eb → 0 ≤ pb → 0 ≤ rel →
  mixed_address r eb pb rel = Ok (mkAddress slot lane) →
  0 ≤ slot ∧ 0 ≤ lane < 2 ∧
  (if Z.even slot then record_fits r Extent eb = true else record_fits r PackedContainer pb = true) ∧
  rel = slot / 2 * (2 * (4096 + eb) + 2 * (4096 + pb)) +
        (if Z.even slot then lane * (4096 + eb) else 2 * (4096 + eb) + lane * (4096 + pb)).
Proof.
  intros He Hp Hr. unfold mixed_address.
  set (es := 4096 + eb). set (ps := 4096 + pb). set (st := 2 * es + 2 * ps).
  pose proof (Z.div_mod rel st ltac:(lia)) as Hrel.
  pose proof (Z.mod_pos_bound rel st ltac:(lia)) as Hmod.
  pose proof (Z.div_pos rel st Hr ltac:(lia)) as Hpair.
  set (pi := rel / st) in *. set (po := rel mod st) in *. clearbody pi po.
  destruct (record_fits r Extent eb && (po <? 2 * es) && (po mod es =? 0)) eqn:E1;
    [|destruct (record_fits r PackedContainer pb && (2 * es <=? po) && ((po - 2 * es) mod ps =? 0))
        eqn:E2; [|done]]; bools; intros Ha; inv_ok.
  - injection Ha as <- <-. pose proof (two_multiples po es ltac:(lia) ltac:(lia) ltac:(done)) as [? ?].
    pose proof (even_double pi 0 ltac:(lia)) as [Hev Hd]. rewrite Z.add_0_r in Hev, Hd.
    rewrite Hev, Hd. cbn. split_and!; [lia..|done|lia].
  - injection Ha as <- <-.
    pose proof (two_multiples (po - 2 * es) ps ltac:(lia) ltac:(lia) ltac:(done)) as [? ?].
    pose proof (even_double pi 1 ltac:(lia)) as [Hev Hd].
    rewrite Hev, Hd. cbn. split_and!; [lia..|done|lia].
Qed.

Lemma record_fits_kind r eb pb :
  record_fits r PackedContainer pb = true → record_fits r Extent eb = false.
Proof.
  intros [Hk _]%record_fits_iff. apply not_true_iff_false. rewrite record_fits_iff, Hk. by intros [? _].
Qed.

Lemma mixed_address_complete r eb pb slot lane :
  0 ≤ eb → 0 ≤ pb → 0 ≤ slot < 2 ^ 64 → 0 ≤ lane < 2 →
  (if Z.even slot then record_fits r Extent eb = true else record_fits r PackedContainer pb = true) →
  mixed_address r eb pb
    (slot / 2 * (2 * (4096 + eb) + 2 * (4096 + pb)) +
     (if Z.even slot then lane * (4096 + eb) else 2 * (4096 + eb) + lane * (4096 + pb)))
  = Ok (mkAddress slot lane).
Proof.
  intros He Hp Hs Hl Hfits. unfold mixed_address.
  pose proof (even_div2 slot) as Hdiv. destruct (Z.even slot).
  - rewrite mul_add_div, mul_add_mod by nia. rewrite Hfits, Z.mod_mul, Z.div_mul by lia.
    destruct (Z.ltb_spec (lane * (4096 + eb)) (2 * (4096 + eb))); [|nia]. cbn [andb Z.eqb].
    rewrite checked_mul_ok by lia. cbn. do 2 f_equal; lia.
  - rewrite mul_add_div, mul_add_mod by nia. rewrite (record_fits_kind r eb pb Hfits), Hfits. cbn [andb].
    replace (2 * (4096 + eb) + lane * (4096 + pb) - 2 * (4096 + eb)) with (lane * (4096 + pb)) by lia.
    rewrite Z.mod_mul, Z.div_mul by lia.
    destruct (Z.leb_spec (2 * (4096 + eb)) (2 * (4096 + eb) + lane * (4096 + pb))); [|nia].
    cbn [Z.eqb]. rewrite checked_mul_ok by lia. cbn [mbind option_bind].
    rewrite checked_add_ok by lia. cbn. do 2 f_equal; lia.
Qed.

Lemma address_kinds layout r slot lane rel :
  0 ≤ extent_bytes layout → 0 ≤ packed_bytes layout → key_slots layout < 2 ^ 64 →
  8192 ≤ lr_physical_offset r → rel = lr_physical_offset r - 4096 - 4096 →
  (match layout_kind layout with
   | ExtentOnly => uniform_address r Extent (extent_bytes layout) (4096 + extent_bytes layout) rel
   | PackedOnly => uniform_address r PackedContainer (packed_bytes layout) (4096 + packed_bytes layout) rel
   | Mixed => mixed_address r (extent_bytes layout) (packed_bytes layout) rel
   end = Ok (mkAddress slot lane) ∧ slot < key_slots layout) ↔
  lane_in layout slot lane ∧ lr_physical_offset r = lane_base layout slot lane + 4096 ∧
  record_fits r (slot_kind layout slot) (slot_capacity layout slot) = true.
Proof.
  intros He Hp Hk Ho Hrel. unfold lane_in, lane_base, slot_capacity, slot_kind.
  destruct (layout_kind layout).
  - rewrite uniform_address_iff by lia. split.
    + intros ((Hrf & Hl & Hr) & Hlt). split_and!; [nia|done|lia..|done].
    + intros ((Hs & Hl) & Hr & Hrf). split_and!; [done|lia..].
  - rewrite uniform_address_iff by lia. split.
    + intros ((Hrf & Hl & Hr) & Hlt). split_and!; [nia|done|lia..|done].
    + intros ((Hs & Hl) & Hr & Hrf). split_and!; [done|lia..].
  - split.
    + intros (Ha & Hlt). apply mixed_address_sound in Ha as (Hs & Hl & Hrf & Hr); [|lia..].
      split_and!; [lia..|by destruct (Z.even slot)].
    + intros ((Hs & Hl) & Hr & Hrf). split; [|lia].
      assert (rel = slot / 2 * (2 * (4096 + extent_bytes layout) + 2 * (4096 + packed_bytes layout)) +
        (if Z.even slot then lane * (4096 + extent_bytes layout)
         else 2 * (4096 + extent_bytes layout) + lane * (4096 + packed_bytes layout))) as -> by lia.
      apply mixed_address_complete; [lia..|by destruct (Z.even slot)].
Qed.

(** The two layouts' searches as one: the position and the lengths decide. *)
Lemma slot_address_positions layout r slot lane :
  layout_fits layout → is_u64 (lr_physical_offset r) →
  slot_address_for_record layout r = Ok (mkAddress slot lane) ↔
  lane_in layout slot lane ∧ lr_physical_offset r = lane_base layout slot lane + 4096 ∧
  record_fits r (slot_kind layout slot) (slot_capacity layout slot) = true.
Proof.
  intros Hfit Hu. pose proof Hfit as (Hwf & Hv & _). pose proof Hwf as (He & Hp & Hk).
  unfold slot_address_for_record. rewrite Hv, result_bind_eq.
  unfold CHUNK_MEDIA_SUPERBLOCK_BYTES, CHUNK_MEDIA_SLOT_HEADER_BYTES.
  destruct (Z.ltb_spec (lr_physical_offset r) (4096 + 4096)) as [Hlt|Hge].
  { split; [done|]. intros ([Hs Hl] & Ho & _).
    pose proof (lane_base_min layout slot lane Hwf ltac:(lia) Hl). lia. }
  rewrite checked_sub_ok by lia. cbn [ok_or]. rewrite result_bind_eq.
  rewrite checked_sub_ok by lia. cbn [ok_or]. rewrite result_bind_eq.
  rewrite !slot_bytes_ok, !result_bind_eq by done.
  set (rel := lr_physical_offset r - 4096 - 4096).
  destruct He as [He0 He], Hp as [Hp0 Hp].
  assert (Haddr : (match layout_kind layout with
      | ExtentOnly => uniform_address r Extent (extent_bytes layout) (4096 + extent_bytes layout) rel
      | PackedOnly => uniform_address r PackedContainer (packed_bytes layout) (4096 + packed_bytes layout) rel
      | Mixed => mixed_address r (extent_bytes layout) (packed_bytes layout) rel
      end = Ok (mkAddress slot lane) ∧ slot < key_slots layout) ↔
    lane_in layout slot lane ∧ lr_physical_offset r = lane_base layout slot lane + 4096 ∧
    record_fits r (slot_kind layout slot) (slot_capacity layout slot) = true).
  { apply address_kinds; first [done | lia | by destruct Hk]. }
  rewrite <-Haddr. clear Haddr. rewrite result_bind_Ok.
  assert (∀ m1 m2 : io_result SlotAddress, m1 = m2 →
    (∃ a, m1 = Ok a ∧ (if key_slots layout <=? sa_slot_index a then Err InvalidInput else Ok a)
       = Ok (mkAddress slot lane)) ↔ m2 = Ok (mkAddress slot lane) ∧ slot < key_slots layout) as Hx.
  { intros m1 m2 <-. split.
    - intros (a & -> & Ha). destruct (Z.leb_spec (key_slots layout) (sa_slot_index a)); [done|].
      apply Ok_inj in Ha as ->. done.
    - intros [-> Hlt]. eexists. split; [done|]. cbn [sa_slot_index].
      by destruct (Z.leb_spec (key_slots layout) slot); [lia|]. }
  apply Hx. destruct (layout_kind layout); [done|done|].
  unfold mixed_address, CHUNK_MEDIA_PUBLICATION_LANES. checked. done.
Qed.

(** [slot_address_for_record] inverts [slot_geometry]: a record has the address of a
    lane exactly when the lane exists, the record points at the payload area of that
    lane, and its kind and lengths are those the lane holds. *)
Theorem slot_address_for_record_iff layout r slot lane :
  layout_fits layout → is_u64 (lr_physical_offset r) →
  slot_address_for_record layout r = Ok (mkAddress slot lane) ↔
  lane_in layout slot lane ∧
  ∃ g, slot_geometry layout slot lane = Ok g ∧
    lr_physical_offset r = sg_payload_offset g ∧
    record_fits r (sg_location_kind g) (sg_stored_length g) = true.
Proof.
  intros Hfit Hu. rewrite slot_address_positions by done. split.
  - intros (Hin & Hoff & Hrf). split; [done|].
    eexists. split; [by apply slot_geometry_ok|]. done.
  - intros (Hin & g & Hg & Hoff & Hrf). rewrite slot_geometry_ok in Hg by done.
    apply Ok_inj in Hg as <-. done.
Qed.

(** The lanes are laid out without overlap: each has a geometry, its header block is
    followed directly by its payload area, it lies between the superblock and the planned
    end of the span, and two different lanes share no byte. *)
Theorem slot_geometry_disjoint layout slot lane slot' lane' :
  layout_fits layout → lane_in layout slot lane → lane_in layout slot' lane' →
  ∃ g g' span,
    slot_geometry layout slot lane = Ok g ∧ slot_geometry layout slot' lane' = Ok g' ∧
    planned_chunk_media_span_bytes layout = Ok span ∧
    4096 ≤ sg_slot_base_offset g ∧ sg_payload_offset g = sg_slot_base_offset g + 4096 ∧
    sg_payload_offset g + sg_stored_length g ≤ span ∧
    ((slot, lane) ≠ (slot', lane') →
     sg_payload_offset g + sg_stored_length g ≤ sg_slot_base_offset g' ∨
     sg_payload_offset g' + sg_stored_length g' ≤ sg_slot_base_offset g).
Proof.
  intros Hfit Hin Hin'. pose proof Hfit as (Hwf & _ & _).
  exists (lane_geometry layout slot lane), (lane_geometry layout slot' lane'),
    (lane_end layout (key_slots layout - 1) 1).
  rewrite !slot_geometry_ok by done. destruct Hin as [Hs Hl] eqn:E, Hin' as [Hs' Hl'].
  rewrite planned_span_ok by (done || lia). split_and!; [done..| | | |].
  - apply lane_base_min; [done|lia|done].
  - done.
  - apply (lane_end_max layout slot lane); done.
  - intros Hne.
    destruct (decide (slot < slot' ∨ slot = slot' ∧ lane < lane')) as [Hlt|Hge].
    + left. by apply lane_order.
    + right. apply lane_order; [done..|].
      destruct (decide (slot' < slot)); [by left|]. right.
      assert (slot = slot') by lia. split; [done|]. assert (lane ≠ lane') by congruence. lia.
Qed.

(** The span planner does not bound its own arithmetic: the unchecked addition of the
    header size wraps for the last lane of this layout, and the plan for 2^50 slots of
    4 KiB asks for a span of a single block. *)
Theorem planned_span_wraps :
  planned_chunk_media_span_bytes (mkLayout ExtentOnly 4096 4096 (2 ^ 50)) = Ok 4096 ∧
  slot_geometry (mkLayout ExtentOnly 4096 4096 (2 ^ 50)) (2 ^ 50 - 1) 1
  = Ok (mkGeometry (2 ^ 64 - 4096) 0 Extent 4096 4096).
Proof. split; reflexivity. Qed.
