(* ===== verification/ChunkMediaIO.v ===== *)
(** Codecs and I/O of the chunk media: superblock and slot headers round-trip, the state
    of an opened media span, and what each operation does to the lanes. *)
From S2P Require Import Prelude Bytes Device KixTypes ChunkMedia ChunkMediaGeo.

Definition identity_wf (i : ChunkSelfDescribingIdentity) : Prop :=
  is_u16 (id_stripe i) ∧ is_u32 (id_object_id i) ∧ is_u16 (id_object_version i) ∧ is_u16 (id_frag i).

Definition header_wf (h : ChunkMediaSlotHeader) : Prop :=
  chunk_id_wf (sh_chunk_id h) ∧ location_record_wf (sh_record h) ∧ identity_wf (sh_identity h).

Section codec.
Context `{Crc32}.

(** ** Slot headers *)

(** The header block as it lies on the media. *)
Definition slot_block (h : ChunkMediaSlotHeader) : list byte :=
  slot_header_prefix h ++ le_bytes 4 (crc32_ieee (slot_header_prefix h)) ++ zeroed 4012.

Lemma length_slot_header_prefix h : chunk_id_wf (sh_chunk_id h) → len (slot_header_prefix h) = 80.
Proof.
  intros Hc. unfold chunk_id_wf in Hc. unfold slot_header_prefix. autorewrite with len.
  change (length CHUNK_MEDIA_SLOT_MAGIC) with 8%nat. lia.
Qed.

Lemma len_slot_block h : chunk_id_wf (sh_chunk_id h) → len (slot_block h) = 4096.
Proof.
  intros Hc%length_slot_header_prefix. unfold slot_block. autorewrite with len.
  pose proof (len_zeroed 4012). lia.
Qed.

Lemma zeroed_app a b : 0 ≤ a → 0 ≤ b → zeroed (a + b) = zeroed a ++ zeroed b.
Proof. intros. unfold zeroed. by rewrite Z2Nat.inj_add, replicate_add. Qed.

(** Encoding into a longer buffer is the header block followed by zeros. *)
Lemma encode_slot_header_eq n h :
  4096 ≤ n → encode_slot_header (zeroed n) h = Ok (slot_block h ++ zeroed (n - 4096)).
Proof.
  intros Hn. unfold encode_slot_header, CHUNK_MEDIA_SLOT_HEADER_BYTES. rewrite len_zeroed by lia.
  destruct (Z.ltb_spec n 4096); [lia|]. unfold slot_block. rewrite <-!app_assoc.
  replace (n - 84) with (4012 + (n - 4096)) by lia. by rewrite zeroed_app by lia.
Qed.

Lemma entry_state_from_to st : entry_state_from_u8 (entry_state_as_u8 st) = Some st.
Proof. by destruct st. Qed.

Lemma decode_slot_block h : header_wf h → decode_slot_header (slot_block h) = Some h.
Proof.
  intros (Hc & (? & ? & ? & ? & ? & ?) & (? & ? & ? & ?)).
  pose proof (len_slot_block h Hc) as Hl. pose proof (length_slot_header_prefix h Hc) as Hlp.
  unfold decode_slot_header, CHUNK_MEDIA_SLOT_HEADER_BYTES. rewrite Hl. cbn [Z.ltb Z.compare Pos.compare Pos.compare_cont].
  pose proof (crc32_ieee_u32 (slot_header_prefix h)) as Hcrc.
  assert (slice 0 80 (slot_block h) = Some (slot_header_prefix h)) as E80 by by apply slice_0_app.
  assert (get_le 80 4 (slot_block h) = Some (crc32_ieee (slot_header_prefix h))) as Ecrc.
  { unfold get_le, slot_block. rewrite slice_app_r, Hlp by lia. change (80 - 80) with 0.
    rewrite slice_0_app by (autorewrite with len; lia). cbn [fmap option_fmap option_map].
    by rewrite of_le_small. }
  rewrite E80, Ecrc. unfold slot_block, slot_header_prefix. cbv zeta.
  assert (is_u8 (entry_state_as_u8 (sh_state h))) by by destruct (sh_state h).
  pose proof (location_kind_byte_u8 (lr_location_kind (sh_record h))).
  assert (length (sh_chunk_id h) = 32%nat) by (unfold chunk_id_wf in Hc; lia).
  assert (is_u16 CHUNK_MEDIA_VERSION) by done.
  assert (length CHUNK_MEDIA_SLOT_MAGIC = 8%nat) by done.
  clear E80 Ecrc Hl Hlp.
  rewrite <-!app_assoc. rewrite slice_0_app by lia. cbn [mbind option_bind].
  rewrite bool_decide_eq_true_2 by done. cbn [negb].
  get_fields. rewrite Z.eqb_refl. cbn [negb]. rewrite Z.eqb_refl. cbn [negb].
  rewrite entry_state_from_to, location_kind_from_to. cbn [mbind option_bind].
  slices. cbn [mbind option_bind]. by destruct h as [? ? [] []].
Qed.

Lemma zero_block_prefix a l : is_zero_block (a :: l) = true → a = x00.
Proof. unfold is_zero_block. cbn. intros [? _]%andb_prop. by bools. Qed.

Lemma slot_block_not_zero h : is_zero_block (slot_block h) = false.
Proof.
  apply not_true_iff_false. intros Hz. unfold slot_block, slot_header_prefix in Hz. cbv zeta in Hz.
  rewrite <-!app_assoc in Hz. change (bstr "KIXMSL01") with (byte_of_Z 75 :: bstr "IXMSL01") in Hz.
  apply zero_block_prefix in Hz. discriminate.
Qed.

(** ** The superblock *)

Definition superblock_wf (sb : ChunkMediaSuperblock) : Prop :=
  sb_version sb = CHUNK_MEDIA_VERSION ∧ layout_wf (sb_layout sb) ∧ is_u64 (sb_media_span_bytes sb).

Definition superblock_block (sb : ChunkMediaSuperblock) : list byte :=
  superblock_prefix sb ++ le_bytes 4 (crc32_ieee (superblock_prefix sb)) ++ zeroed 4048.

Lemma length_superblock_prefix sb : len (superblock_prefix sb) = 44.
Proof.
  unfold superblock_prefix. autorewrite with len.
  change (length CHUNK_MEDIA_SUPERBLOCK_MAGIC) with 8%nat. lia.
Qed.

Lemma len_superblock_block sb : len (superblock_block sb) = 4096.
Proof.
  pose proof (length_superblock_prefix sb). unfold superblock_block. autorewrite with len.
  pose proof (len_zeroed 4048). lia.
Qed.

Lemma layout_kind_from_to k : layout_kind_from_u8 (layout_kind_as_u8 k) = Some k.
Proof. by destruct k. Qed.

Lemma encode_superblock_eq b sb : len b = 4096 → encode_superblock b sb = Ok (superblock_block sb).
Proof. intros Hl. unfold encode_superblock. by rewrite Hl. Qed.

Lemma decode_superblock_block sb :
  superblock_wf sb → decode_superblock (superblock_block sb) = Some sb.
Proof.
  intros (Hv & (? & ? & ?) & ?).
  pose proof (len_superblock_block sb) as Hl. pose proof (length_superblock_prefix sb) as Hlp.
  unfold decode_superblock, CHUNK_MEDIA_SUPERBLOCK_BYTES. rewrite Hl.
  cbn [Z.ltb Z.compare Pos.compare Pos.compare_cont].
  pose proof (crc32_ieee_u32 (superblock_prefix sb)) as Hcrc.
  assert (slice 0 44 (superblock_block sb) = Some (superblock_prefix sb)) as E44 by by apply slice_0_app.
  assert (get_le 44 4 (superblock_block sb) = Some (crc32_ieee (superblock_prefix sb))) as Ecrc.
  { unfold get_le, superblock_block. rewrite slice_app_r, Hlp by lia. change (44 - 44) with 0.
    rewrite slice_0_app by (autorewrite with len; lia). cbn [fmap option_fmap option_map].
    by rewrite of_le_small. }
  rewrite E44, Ecrc. unfold superblock_block, superblock_prefix.
  assert (is_u8 (layout_kind_as_u8 (layout_kind (sb_layout sb)))) by by destruct (layout_kind _).
  assert (is_u16 (sb_version sb)) by by rewrite Hv.
  assert (length CHUNK_MEDIA_SUPERBLOCK_MAGIC = 8%nat) by done.
  clear E44 Ecrc Hl Hlp.
  rewrite <-!app_assoc. rewrite slice_0_app by lia. cbn [mbind option_bind].
  rewrite bool_decide_eq_true_2 by done. cbn [negb]. rewrite Z.eqb_refl. cbn [negb].
  get_fields. rewrite Hv, Z.eqb_refl. cbn [negb].
  rewrite layout_kind_from_to. cbn [mbind option_bind]. destruct sb as [? [] ?]. cbn in *. by subst.
Qed.

(** ** Prepared writes *)

(** Blocks of payload: whole blocks, at least the payload, at most the lane. *)
Definition round_up (n : Z) : Z := div_ceil n 4096 * 4096.

Lemma round_up_bounds n : n ≤ round_up n < n + 4096.
Proof.
  unfold round_up, div_ceil. pose proof (Z.div_mod (n + 4096 - 1) 4096 ltac:(lia)).
  pose proof (Z.mod_pos_bound (n + 4096 - 1) 4096 ltac:(lia)). lia.
Qed.

Lemma round_up_le n c : c mod 4096 = 0 → n ≤ c → round_up n ≤ c.
Proof.
  intros Hc Hn. apply Z.div_exact in Hc; [|lia]. pose proof (round_up_bounds n).
  unfold round_up in *. assert (div_ceil n 4096 < c / 4096 + 1) by lia. lia.
Qed.

Lemma round_up_header n : div_ceil (4096 + n) 4096 * 4096 = 4096 + round_up n.
Proof.
  unfold round_up, div_ceil. replace (4096 + n + 4096 - 1) with (1 * 4096 + (n + 4096 - 1)) by lia.
  rewrite Z.div_add_l by lia. lia.
Qed.

Lemma layout_capacity_aligned layout slot :
  validate_layout layout = Ok tt → 0 < key_slots layout → slot_capacity layout slot mod 4096 = 0.
Proof.
  unfold validate_layout, CHUNK_MEDIA_ALIGN_BYTES, slot_capacity. intros Hv Hk.
  destruct (Z.eqb_spec (key_slots layout) 0); [lia|].
  destruct (Z.eqb_spec (extent_bytes layout mod 4096) 0); [|done].
  destruct (Z.eqb_spec (packed_bytes layout mod 4096) 0); [|done].
  by destruct (slot_kind layout slot).
Qed.

(** The lane a write targets. *)
Definition target_lane (layout : ChunkMediaLayoutSpec) (slot : Z) (sel : PublicationLaneSelector) :
    io_result Z :=
  match sel with
  | AgainstCurrent current => next_publication_lane layout slot current
  | Explicit lane => Ok lane
  end.

Definition payload_record (layout : ChunkMediaLayoutSpec) (drive_id slot lane generation : Z)
    (payload : list byte) : LocationRecord :=
  mkLocationRecord drive_id (slot_kind layout slot) (lane_base layout slot lane + 4096)
    (len payload) (slot_capacity layout slot) generation (crc32_ieee payload).

Definition payload_block (h : ChunkMediaSlotHeader) (payload : list byte) : list byte :=
  slot_block h ++ payload ++ zeroed (round_up (len payload) - len payload).

Lemma splice_payload h payload n :
  chunk_id_wf (sh_chunk_id h) → len payload ≤ n →
  splice 4096 payload (slot_block h ++ zeroed n) = slot_block h ++ payload ++ zeroed (n - len payload).
Proof.
  intros Hc Hn. pose proof (len_slot_block h Hc) as Hl. unfold splice.
  rewrite take_app_length' by lia. f_equal. f_equal.
  rewrite drop_app_ge by lia. unfold zeroed. rewrite drop_replicate. f_equal. lia.
Qed.

(** A freshly addressed record finds its own lane again. *)
Lemma payload_record_address layout drive_id slot lane generation payload :
  layout_fits layout → lane_in layout slot lane → 0 < len payload ≤ slot_capacity layout slot →
  slot_address_for_record layout (payload_record layout drive_id slot lane generation payload)
  = Ok (mkAddress slot lane).
Proof.
  intros Hfit Hin Hp. pose proof (lane_end_u64 layout slot lane Hfit Hin) as Hend.
  pose proof Hfit as (Hwf & _). pose proof (lane_end_gt layout slot lane Hwf).
  pose proof (lane_base_min layout slot lane Hwf ltac:(apply Hin) ltac:(apply Hin)).
  apply slot_address_positions; [done| |].
  - cbn. unfold fits. lia.
  - split_and!; [done|done|]. apply record_fits_iff. cbn. split_and!; [done|lia|lia|done].
Qed.

Lemma record_of_geometry_eq drive_id g generation :
  record_of_geometry drive_id g generation =
  mkLocationRecord drive_id (sg_location_kind g) (sg_payload_offset g) (sg_logical_length g)
    (sg_stored_length g) generation 0.
Proof. unfold record_of_geometry. by destruct (sg_location_kind g). Qed.

Lemma selected_record_ok layout drive_id slot sel lane generation :
  layout_fits layout → lane_in layout slot lane → target_lane layout slot sel = Ok lane →
  match sel with
  | AgainstCurrent current_record =>
      chunk_media_record_for_slot_against_current layout drive_id slot current_record generation
  | Explicit publication_lane =>
      chunk_media_record_for_slot_to_lane layout drive_id slot publication_lane generation
  end = Ok (record_of_geometry drive_id (lane_geometry layout slot lane) generation).
Proof.
  intros Hfit Hin Ht.
  unfold chunk_media_record_for_slot_against_current, chunk_media_record_for_slot_to_lane.
  destruct sel as [cur|l]; cbn [target_lane] in Ht.
  - rewrite Ht, result_bind_eq. cbv beta. by rewrite slot_geometry_ok, result_bind_eq.
  - apply Ok_inj in Ht as ->. by rewrite slot_geometry_ok, result_bind_eq.
Qed.

Lemma prepare_payload_write_eq config sb slot sel lane c generation i payload :
  layout_fits (sb_layout sb) → lane_in (sb_layout sb) slot lane → chunk_id_wf c →
  target_lane (sb_layout sb) slot sel = Ok lane →
  0 < len payload ≤ slot_capacity (sb_layout sb) slot →
  prepare_payload_write config sb slot sel c generation i payload =
    let r := payload_record (sb_layout sb) (mc_drive_id config) slot lane generation payload in
    offset ← absolute_chunk_media_offset (mc_span config) (lane_base (sb_layout sb) slot lane);
    Ok (r, offset, payload_block (mkSlotHeader Live c r i) payload).
Proof.
  intros Hfit Hin Hc Ht Hp. pose proof Hfit as (Hwf & Hv & _).
  pose proof (slot_capacity_u32 (sb_layout sb) slot Hwf) as [_ Hcap].
  pose proof (layout_capacity_aligned _ slot Hv ltac:(destruct Hin; lia)) as Hal.
  unfold prepare_payload_write. destruct (Z.leb_spec (key_slots (sb_layout sb)) slot); [destruct Hin; lia|].
  rewrite (selected_record_ok _ _ _ _ lane) by done. rewrite result_bind_eq. cbv zeta.
  rewrite record_of_geometry_eq. cbn [lr_stored_length lane_geometry sg_stored_length].
  destruct (Z.eqb_spec (len payload) 0); [lia|].
  destruct (Z.ltb_spec (slot_capacity (sb_layout sb) slot) (len payload)); [lia|]. cbn [orb].
  set (r := payload_record (sb_layout sb) (mc_drive_id config) slot lane generation payload).
  match goal with |- context [with_payload ?x payload] => assert (with_payload x payload = r) as -> end.
  { unfold with_payload, r, payload_record. rewrite wrap_small by (unfold fits; lia). done. }
  unfold slot_geometry_for_record.
  rewrite (payload_record_address _ (mc_drive_id config) slot lane generation payload Hfit Hin Hp
    : slot_address_for_record _ r = _).
  rewrite result_bind_eq. cbn [sa_slot_index sa_publication_lane].
  rewrite slot_geometry_ok, result_bind_eq by done.
  unfold CHUNK_MEDIA_SLOT_HEADER_BYTES, CHUNK_MEDIA_ALIGN_BYTES.
  change (lr_stored_length r) with (slot_capacity (sb_layout sb) slot).
  rewrite !checked_add_ok by lia. cbn [ok_or]. rewrite !result_bind_eq.
  pose proof (round_up_le _ _ Hal (proj2 Hp)). pose proof (round_up_bounds (len payload)).
  assert (Z.min (saturating_mul 64 (div_ceil (4096 + len payload) 4096) 4096)
            (4096 + slot_capacity (sb_layout sb) slot) = 4096 + round_up (len payload)) as ->.
  { unfold saturating_mul. rewrite round_up_header. lia. }
  unfold aligned_zeroed. destruct (Z.eqb_spec (4096 + round_up (len payload)) 0); [lia|].
  rewrite result_bind_eq, encode_slot_header_eq, result_bind_eq by lia.
  rewrite splice_payload by (done || lia). cbn [sg_slot_base_offset lane_geometry].
  unfold payload_block. do 2 f_equal.
  replace (4096 + round_up (len payload) - 4096 - len payload)
    with (round_up (len payload) - len payload) by lia. done.
Qed.

Definition selector_wf (sel : PublicationLaneSelector) : Prop :=
  match sel with
  | AgainstCurrent _ => True
  | Explicit lane => is_u64 lane
  end.

Lemma next_publication_lane_range layout slot current lane :
  next_publication_lane layout slot current = Ok lane → 0 ≤ lane < 2.
Proof.
  unfold next_publication_lane, CHUNK_MEDIA_PUBLICATION_LANES. intros Hn.
  destruct current as [r|]; [|inv_ok; lia]. inv_ok.
  destruct (_ =? _); inv_ok; [|lia]. apply Z.mod_pos_bound. lia.
Qed.

Lemma slot_geometry_lane layout slot lane g : slot_geometry layout slot lane = Ok g → lane < 2.
Proof.
  unfold slot_geometry, CHUNK_MEDIA_PUBLICATION_LANES. by destruct (Z.leb_spec 2 lane).
Qed.

(** A prepared write has a lane, and its payload is not empty and fits. *)
Lemma prepare_payload_write_inv config sb slot sel c generation i payload x :
  layout_fits (sb_layout sb) → 0 ≤ slot → selector_wf sel →
  prepare_payload_write config sb slot sel c generation i payload = Ok x →
  ∃ lane, target_lane (sb_layout sb) slot sel = Ok lane ∧ lane_in (sb_layout sb) slot lane ∧
    0 < len payload ≤ slot_capacity (sb_layout sb) slot.
Proof.
  intros Hfit Hs Hsel. unfold prepare_payload_write.
  destruct (Z.leb_spec (key_slots (sb_layout sb)) slot); [done|].
  intros (r & Hr & Hrest)%result_bind_Ok.
  assert (∃ lane g, target_lane (sb_layout sb) slot sel = Ok lane ∧ 0 ≤ lane ∧
    slot_geometry (sb_layout sb) slot lane = Ok g ∧
    r = record_of_geometry (mc_drive_id config) g generation) as (lane & g & Ht & Hl & Hg & ->).
  { destruct sel as [cur|lane]; cbn [target_lane] in *;
      unfold chunk_media_record_for_slot_against_current, chunk_media_record_for_slot_to_lane in Hr;
      inv_ok; eexists _, _; split_and!; [done| |done|done|done| |done|done].
    - by eapply next_publication_lane_range.
    - apply Hsel. }
  pose proof (slot_geometry_lane _ _ _ _ Hg).
  assert (lane_in (sb_layout sb) slot lane) as Hin by (split; lia).
  exists lane. split_and!; [done|done|..]; rewrite slot_geometry_ok in Hg by done;
    apply Ok_inj in Hg as <-; rewrite record_of_geometry_eq in Hrest;
    cbn [lr_stored_length sg_stored_length lane_geometry] in Hrest;
    destruct (Z.eqb_spec (len payload) 0); try done;
    destruct (Z.ltb_spec (slot_capacity (sb_layout sb) slot) (len payload)); try done; lia.
Qed.

End codec.
