(* ===== verification/ChunkMediaState.v ===== *)
(** The chunk media as a store of lanes: the invariant of an opened span, what a payload
    write and a tombstone do to the lane they target, and that they touch no other. *)
From S2P Require Import Prelude Bytes Device KixTypes ChunkMedia ChunkMediaGeo ChunkMediaIO.

Section state.
Context `{Crc32}.

(** An opened span: the superblock on the media is the one the handle holds, the
    requested layout is the one it records, and every lane lies inside the store. *)
Record media_inv (s : Store) (config : ChunkMediaWriteConfig) (sb : ChunkMediaSuperblock) : Prop := {
  mi_layout : layout_fits (sb_layout sb);
  mi_config : mc_layout config = sb_layout sb;
  mi_superblock : superblock_wf sb;
  mi_offset : 0 ≤ span_offset_bytes (mc_span config);
  mi_size : len (st_bytes s) ≤ MAX_STORE_BYTES;
  mi_span : resolve_effective_span_bytes s (span_offset_bytes (mc_span config))
              (span_len_bytes (mc_span config)) = Ok (sb_media_span_bytes sb);
  mi_end : span_offset_bytes (mc_span config) + sb_media_span_bytes sb ≤ len (st_bytes s);
  mi_lanes : 0 < key_slots (sb_layout sb) →
             lane_end (sb_layout sb) (key_slots (sb_layout sb) - 1) 1 ≤ sb_media_span_bytes sb;
  mi_block : slice (span_offset_bytes (mc_span config)) 4096 (st_bytes s) ≫= decode_superblock = Some sb;
}.

(** The segment of the store that a lane occupies, and that it is the same in two
    stores. *)
Definition lane_lo (config : ChunkMediaWriteConfig) (sb : ChunkMediaSuperblock) (slot lane : Z) : Z :=
  span_offset_bytes (mc_span config) + lane_base (sb_layout sb) slot lane.
Definition lane_hi (config : ChunkMediaWriteConfig) (sb : ChunkMediaSuperblock) (slot lane : Z) : Z :=
  span_offset_bytes (mc_span config) + lane_end (sb_layout sb) slot lane.

Definition same_lane (config : ChunkMediaWriteConfig) (sb : ChunkMediaSuperblock) (slot lane : Z)
    (s s' : Store) : Prop :=
  ∀ o n, 0 ≤ n → lane_lo config sb slot lane ≤ o → o + n ≤ lane_hi config sb slot lane →
    slice o n (st_bytes s') = slice o n (st_bytes s).

Lemma media_lane s config sb slot lane :
  media_inv s config sb → lane_in (sb_layout sb) slot lane →
  4096 ≤ lane_base (sb_layout sb) slot lane ∧
  lane_hi config sb slot lane = lane_lo config sb slot lane + 4096 + slot_capacity (sb_layout sb) slot ∧
  lane_hi config sb slot lane ≤ len (st_bytes s) ∧ lane_hi config sb slot lane < 2 ^ 63.
Proof.
  intros [Hfit _ _ Hoff Hsz _ Hend Hlanes _] Hin. pose proof Hfit as (Hwf & _).
  pose proof (lane_end_max _ slot lane Hwf Hin). destruct Hin as [Hs Hl].
  specialize (Hlanes ltac:(lia)). unfold lane_hi, lane_lo, MAX_STORE_BYTES in *.
  split_and!; [apply lane_base_min; [done|lia|done]|unfold lane_end; lia|lia..].
Qed.

(** Offsets inside a lane are representable. *)
Lemma absolute_ok span o :
  span_offset_bytes span + o < 2 ^ 64 →
  absolute_chunk_media_offset span o = Ok (span_offset_bytes span + o).
Proof. intros. unfold absolute_chunk_media_offset. by rewrite checked_add_ok. Qed.

Lemma slot_capacity_pos layout slot r :
  layout_wf layout → record_fits r (slot_kind layout slot) (slot_capacity layout slot) = true →
  0 ≤ lr_logical_length r → 0 < lr_logical_length r ≤ slot_capacity layout slot ∧
  lr_stored_length r = slot_capacity layout slot.
Proof. intros _ (_ & ? & ? & ?)%record_fits_iff ?. lia. Qed.

Lemma matches_geometry_iff h layout slot lane :
  slot_header_matches_geometry h (lane_geometry layout slot lane) = true ↔
  lr_location_kind (sh_record h) = slot_kind layout slot ∧
  lr_physical_offset (sh_record h) = lane_base layout slot lane + 4096 ∧
  0 < lr_logical_length (sh_record h) ≤ slot_capacity layout slot ∧
  lr_stored_length (sh_record h) = slot_capacity layout slot.
Proof.
  unfold slot_header_matches_geometry. cbn [sg_location_kind sg_payload_offset sg_logical_length
    sg_stored_length lane_geometry].
  rewrite !andb_true_iff, bool_decide_eq_true, Z.ltb_lt, Z.leb_le, !Z.eqb_eq. tauto.
Qed.

(** ** Scanning a lane *)

(** The scan in terms of the two reads it makes. *)
Definition lane_content (s : Store) (config : ChunkMediaWriteConfig) (sb : ChunkMediaSuperblock)
    (slot lane : Z) : LaneContent :=
  let hd := default [] (slice (lane_lo config sb slot lane) 4096 (st_bytes s)) in
  let data := default [] (slice (lane_lo config sb slot lane + 4096) (slot_capacity (sb_layout sb) slot) (st_bytes s)) in
  if is_zero_block hd then LaneEmpty
  else
    match decode_slot_header hd with
    | None => LaneCorruptHeader
    | Some h =>
        if negb (slot_header_matches_geometry h (lane_geometry (sb_layout sb) slot lane)) then LaneMismatch
        else
          match sh_state h with
          | Deleted => LaneHeader h
          | Live =>
              if negb (crc32_ieee (take (Z.to_nat (lr_logical_length (sh_record h))) data)
                       =? lr_checksum (sh_record h))
              then LaneCorruptPayload
              else LaneHeader h
          end
    end.

(** The scan of a lane of an opened span never fails. *)
Lemma scan_lane_eq s config sb slot lane :
  media_inv s config sb → lane_in (sb_layout sb) slot lane →
  scan_lane s (mc_span config) (sb_layout sb) slot lane = Ok (lane_content s config sb slot lane).
Proof.
  intros Hinv Hin. pose proof (media_lane _ _ _ _ _ Hinv Hin) as (Hb & Hhi & Hlen & Hbig).
  pose proof (mi_layout _ _ _ Hinv) as Hfit. pose proof Hfit as (Hwf & _).
  pose proof (slot_capacity_u32 _ slot Hwf) as [Hcap0 _]. pose proof (mi_offset _ _ _ Hinv) as Hoff.
  unfold scan_lane, CHUNK_MEDIA_SLOT_HEADER_BYTES, direct_read_exact, store_read.
  rewrite slot_geometry_ok, result_bind_eq by done. cbn [sg_slot_base_offset lane_geometry].
  assert (lane_lo config sb slot lane = span_offset_bytes (mc_span config)
    + lane_base (sb_layout sb) slot lane) as Elo by done.
  rewrite absolute_ok, result_bind_eq by lia. rewrite <-Elo. unfold lane_content. cbv zeta.
  destruct (slice_is_Some (lane_lo config sb slot lane) 4096 (st_bytes s)) as (hd & Hhd & _); [lia..|].
  rewrite Hhd. cbn [ok_or from_option id]. rewrite result_bind_eq. destruct (is_zero_block hd); [done|].
  destruct (decode_slot_header hd) as [h|]; [|done].
  destruct (slot_header_matches_geometry h _) eqn:Hm; cbn [negb]; [|done].
  apply matches_geometry_iff in Hm as (_ & Ho & Hl & Hst). destruct (sh_state h); [|done].
  unfold aligned_zeroed. rewrite Hst, Ho. destruct (Z.eqb_spec (slot_capacity (sb_layout sb) slot) 0); [lia|].
  rewrite result_bind_eq, absolute_ok, result_bind_eq by lia.
  replace (span_offset_bytes (mc_span config) + (lane_base (sb_layout sb) slot lane + 4096))
    with (lane_lo config sb slot lane + 4096) by lia.
  destruct (slice_is_Some (lane_lo config sb slot lane + 4096) (slot_capacity (sb_layout sb) slot) (st_bytes s))
    as (d & Hd & Hdl); [lia..|].
  rewrite Hd. cbn [ok_or from_option id]. rewrite result_bind_eq, Hdl.
  replace (Z.min (lr_logical_length (sh_record h)) (slot_capacity (sb_layout sb) slot))
    with (lr_logical_length (sh_record h)) by lia.
  by destruct (_ =? _).
Qed.

Lemma lane_content_same s s' config sb slot lane :
  media_inv s config sb → lane_in (sb_layout sb) slot lane → same_lane config sb slot lane s s' →
  lane_content s' config sb slot lane = lane_content s config sb slot lane.
Proof.
  intros Hinv Hin Hsame. pose proof (media_lane _ _ _ _ _ Hinv Hin) as (_ & Hhi & _).
  pose proof (mi_layout _ _ _ Hinv) as (Hwf & _). pose proof (slot_capacity_u32 _ slot Hwf) as [Hcap _].
  unfold lane_content. by rewrite !Hsame by lia.
Qed.

(** ** Reading a record of a lane *)

Definition at_lane (sb : ChunkMediaSuperblock) (r : LocationRecord) (slot lane : Z) : Prop :=
  lane_in (sb_layout sb) slot lane ∧
  lr_physical_offset r = lane_base (sb_layout sb) slot lane + 4096 ∧
  lr_location_kind r = slot_kind (sb_layout sb) slot ∧
  0 < lr_logical_length r ≤ slot_capacity (sb_layout sb) slot ∧
  lr_stored_length r = slot_capacity (sb_layout sb) slot.

Lemma address_at_lane sb r slot lane :
  layout_fits (sb_layout sb) → is_u64 (lr_physical_offset r) → 0 ≤ lr_logical_length r →
  slot_address_for_record (sb_layout sb) r = Ok (mkAddress slot lane) → at_lane sb r slot lane.
Proof.
  intros Hfit Hu Hl (Hin & Ho & (? & ? & ? & ?)%record_fits_iff)%slot_address_positions; [|done..].
  split_and!; done || lia.
Qed.

Lemma at_lane_address sb r slot lane :
  layout_fits (sb_layout sb) → is_u64 (lr_physical_offset r) → at_lane sb r slot lane →
  slot_address_for_record (sb_layout sb) r = Ok (mkAddress slot lane).
Proof.
  intros Hfit Hu (Hin & Ho & Hk & Hl & Hst). apply slot_address_positions; [done..|].
  split_and!; [done..|]. apply record_fits_iff. split_and!; [done|lia|lia|done].
Qed.

(** A lane whose record is not empty holds whole blocks. *)
Lemma at_lane_blocks sb r slot lane :
  layout_fits (sb_layout sb) → at_lane sb r slot lane →
  4096 ≤ slot_capacity (sb_layout sb) slot ∧
  round_up (lr_logical_length r) ≤ slot_capacity (sb_layout sb) slot.
Proof.
  intros (_ & Hv & _) ([Hs _] & _ & _ & Hl & _).
  pose proof (layout_capacity_aligned _ slot Hv ltac:(lia)) as Hal.
  split; [|apply round_up_le; [done|lia]].
  apply (aligned_le 0 _ 4096); [lia|done|done|lia].
Qed.

(** The header a read of the record validates, in terms of the bytes of the lane. *)
Definition live_header (hd : list byte) (c : ChunkId) (r : LocationRecord) : io_result ChunkMediaSlotHeader :=
  if is_zero_block hd then Err NotFound
  else
    header ← ok_or (decode_slot_header hd) InvalidData;
    if negb (bool_decide (sh_state header = Live)) then Err NotFound
    else if negb (bool_decide (sh_chunk_id header = c)) then Err InvalidData
    else if negb (bool_decide (sh_record header = r)) then Err InvalidData
    else Ok header.

Lemma read_validated_eq s config sb slot lane c r hd :
  media_inv s config sb → at_lane sb r slot lane →
  slice (lane_lo config sb slot lane) 4096 (st_bytes s) = Some hd →
  read_validated_live_header s (mc_span config) c r = live_header hd c r.
Proof.
  intros Hinv (Hin & Ho & _ & _ & _) Hhd.
  pose proof (media_lane _ _ _ _ _ Hinv Hin) as (Hb & Hhi & Hlen & Hbig).
  pose proof (slot_capacity_u32 _ slot (proj1 (mi_layout _ _ _ Hinv))) as [Hcap0 _].
  unfold read_validated_live_header, CHUNK_MEDIA_SLOT_HEADER_BYTES, direct_read_exact, store_read.
  rewrite Ho. destruct (Z.ltb_spec (lane_base (sb_layout sb) slot lane + 4096) 4096); [lia|].
  rewrite checked_sub_ok by lia. cbn [ok_or]. rewrite result_bind_eq.
  replace (lane_base (sb_layout sb) slot lane + 4096 - 4096) with (lane_base (sb_layout sb) slot lane) by lia.
  rewrite absolute_ok, result_bind_eq by (unfold lane_lo in *; lia).
  unfold lane_lo in Hhd. by rewrite Hhd.
Qed.

Definition read_length (r : LocationRecord) : Z := Z.max 4096 (round_up (lr_logical_length r)).

Lemma read_payload_eq s config sb slot lane c r hd data :
  media_inv s config sb → at_lane sb r slot lane →
  slice (lane_lo config sb slot lane) 4096 (st_bytes s) = Some hd →
  slice (lane_lo config sb slot lane + 4096) (read_length r) (st_bytes s) = Some data →
  read_chunk_media_payload_with_file s (mc_span config) c r =
    _ ← live_header hd c r;
    let payload := take (Z.to_nat (lr_logical_length r)) data in
    if negb (crc32_ieee payload =? lr_checksum r) then Err InvalidData else Ok payload.
Proof.
  intros Hinv Hat Hhd Hd. pose proof Hat as (Hin & Ho & _ & Hl & Hst).
  pose proof (mi_layout _ _ _ Hinv) as Hfit.
  pose proof (media_lane _ _ _ _ _ Hinv Hin) as (Hb & Hhi & Hlen & Hbig).
  pose proof (at_lane_blocks _ _ _ _ Hfit Hat) as [Hcap Hru].
  pose proof (slot_capacity_u32 _ slot (proj1 Hfit)) as [_ Hcap32].
  pose proof (round_up_bounds (lr_logical_length r)).
  unfold read_chunk_media_payload_with_file.
  rewrite (read_validated_eq _ _ _ slot lane c r hd) by done.
  destruct (live_header hd c r) as [h|e]; [|done]. rewrite !result_bind_eq. cbv zeta.
  unfold CHUNK_MEDIA_ALIGN_BYTES. rewrite Hst.
  replace (Z.min (lr_logical_length r) (slot_capacity (sb_layout sb) slot)) with (lr_logical_length r) by lia.
  assert (clamp (saturating_mul 64 (div_ceil (lr_logical_length r) 4096) 4096) 4096
    (Z.max (slot_capacity (sb_layout sb) slot) 4096) = read_length r) as ->.
  { unfold saturating_mul. fold (round_up (lr_logical_length r)). unfold clamp, read_length.
    rewrite (Z.min_r _ (round_up _)) by lia.
    destruct (Z.ltb_spec (round_up (lr_logical_length r)) 4096); [lia|].
    destruct (Z.ltb_spec (Z.max (slot_capacity (sb_layout sb) slot) 4096) (round_up (lr_logical_length r))); lia. }
  unfold aligned_zeroed. destruct (Z.eqb_spec (read_length r) 0); [unfold read_length in *; lia|].
  rewrite result_bind_eq, Ho, absolute_ok, result_bind_eq by (unfold lane_lo in *; lia).
  unfold direct_read_exact, store_read.
  replace (span_offset_bytes (mc_span config) + (lane_base (sb_layout sb) slot lane + 4096))
    with (lane_lo config sb slot lane + 4096) by (unfold lane_lo; lia).
  by rewrite Hd.
Qed.

(** The bytes a read looks at exist. *)
Lemma lane_slices s config sb slot lane r :
  media_inv s config sb → at_lane sb r slot lane →
  lane_lo config sb slot lane + 4096 + read_length r ≤ lane_hi config sb slot lane ∧
  0 ≤ lane_lo config sb slot lane ∧ 0 ≤ read_length r ∧
  ∃ hd data, slice (lane_lo config sb slot lane) 4096 (st_bytes s) = Some hd ∧
    slice (lane_lo config sb slot lane + 4096) (read_length r) (st_bytes s) = Some data.
Proof.
  intros Hinv Hat. pose proof Hat as (Hin & _).
  pose proof (media_lane _ _ _ _ _ Hinv Hin) as (Hb & Hhi & Hlen & Hbig).
  pose proof (at_lane_blocks _ _ _ _ (mi_layout _ _ _ Hinv) Hat) as [Hcap Hru].
  pose proof (mi_offset _ _ _ Hinv). unfold read_length in *.
  assert (0 ≤ lane_lo config sb slot lane) by (unfold lane_lo; lia).
  destruct (slice_is_Some (lane_lo config sb slot lane) 4096 (st_bytes s)) as (hd & Hhd & _); [lia..|].
  destruct (slice_is_Some (lane_lo config sb slot lane + 4096)
    (Z.max 4096 (round_up (lr_logical_length r))) (st_bytes s)) as (d & Hd & _); [lia..|].
  split_and!; [lia..|]. eauto.
Qed.

Lemma read_payload_same s s' config sb slot lane c r :
  media_inv s config sb → media_inv s' config sb → at_lane sb r slot lane →
  same_lane config sb slot lane s s' →
  read_chunk_media_payload_with_file s' (mc_span config) c r
  = read_chunk_media_payload_with_file s (mc_span config) c r.
Proof.
  intros Hinv Hinv' Hat Hsame.
  destruct (lane_slices s config sb slot lane r Hinv Hat) as (Hle & Hlo & Hrl & hd & d & Hhd & Hd).
  rewrite (read_payload_eq s config sb slot lane c r hd d) by done.
  apply read_payload_eq with (slot := slot) (lane := lane) (sb := sb); [done..| |];
    rewrite Hsame; done || lia.
Qed.

(** ** Writing into a lane *)

Lemma resolve_len s s' o l :
  len (st_bytes s') = len (st_bytes s) →
  resolve_effective_span_bytes s' o l = resolve_effective_span_bytes s o l.
Proof. intros Hl. unfold resolve_effective_span_bytes, storage_capacity_bytes. by rewrite Hl. Qed.

Lemma media_inv_same s s' config sb :
  media_inv s config sb → len (st_bytes s') = len (st_bytes s) →
  slice (span_offset_bytes (mc_span config)) 4096 (st_bytes s')
    = slice (span_offset_bytes (mc_span config)) 4096 (st_bytes s) →
  media_inv s' config sb.
Proof.
  intros [] Hl Hsl. split; try done; [by rewrite Hl|by rewrite (resolve_len s)|by rewrite Hl|by rewrite Hsl].
Qed.

Lemma media_inv_sync s config sb : media_inv (store_sync s) config sb ↔ media_inv s config sb.
Proof. split; intros Hi; by apply (media_inv_same _ _ _ _ Hi). Qed.

(** A write that stays inside a lane succeeds, keeps the span open and the other lanes. *)
Lemma lane_write s config sb slot lane buf :
  media_inv s config sb → lane_in (sb_layout sb) slot lane →
  len buf ≤ 4096 + slot_capacity (sb_layout sb) slot →
  ∃ s', direct_write_exact (lane_lo config sb slot lane) buf s = (s', Ok tt) ∧
    media_inv s' config sb ∧
    slice (lane_lo config sb slot lane) (len buf) (st_bytes s') = Some buf ∧
    (∀ slot' lane', lane_in (sb_layout sb) slot' lane' → (slot', lane') ≠ (slot, lane) →
       same_lane config sb slot' lane' s s').
Proof.
  intros Hinv Hin Hle. pose proof (media_lane _ _ _ _ _ Hinv Hin) as (Hb & Hhi & Hlen & Hbig).
  pose proof (mi_offset _ _ _ Hinv) as Hoff. pose proof (mi_layout _ _ _ Hinv) as (Hwf & _).
  assert (0 ≤ lane_lo config sb slot lane) as Hlo by (unfold lane_lo; lia).
  unfold direct_write_exact. rewrite store_write_in by lia. eexists. split; [done|]. split_and!.
  - apply (media_inv_same _ _ _ _ Hinv); cbn [st_bytes store_update].
    + by rewrite len_splice by lia.
    + apply slice_splice_ne; [lia..|]. unfold lane_lo. lia.
  - cbn [st_bytes store_update]. apply slice_splice_eq; lia.
  - intros slot' lane' Hin' Hne o n Hn Ho Hon. cbn [st_bytes store_update].
    pose proof (media_lane _ _ _ _ _ Hinv Hin') as (Hb' & Hhi' & Hlen' & _).
    destruct Hin as [Hs Hl], Hin' as [Hs' Hl'].
    assert (lane_end (sb_layout sb) slot lane ≤ lane_base (sb_layout sb) slot' lane' ∨
            lane_end (sb_layout sb) slot' lane' ≤ lane_base (sb_layout sb) slot lane) as Hdis.
    { destruct (decide (slot < slot' ∨ slot = slot' ∧ lane < lane')) as [?|?].
      - left. by apply lane_order.
      - right. apply lane_order; [done..|]. destruct (decide (slot' < slot)); [by left|].
        assert (slot = slot') by lia. right. split; [done|]. assert (lane ≠ lane') by congruence. lia. }
    unfold lane_lo, lane_hi in *. apply slice_splice_ne; lia.
Qed.

(** ** Payload writes *)

Definition write_wf (config : ChunkMediaWriteConfig) (slot : Z) (sel : PublicationLaneSelector)
    (c : ChunkId) (generation : Z) (i : ChunkSelfDescribingIdentity) : Prop :=
  is_u16 (mc_drive_id config) ∧ is_u64 slot ∧ selector_wf sel ∧ chunk_id_wf c ∧ is_u32 generation ∧
  identity_wf i.

Lemma payload_header_wf s config sb slot lane sel c generation i payload :
  media_inv s config sb → write_wf config slot sel c generation i → lane_in (sb_layout sb) slot lane →
  0 < len payload ≤ slot_capacity (sb_layout sb) slot →
  header_wf (mkSlotHeader Live c
    (payload_record (sb_layout sb) (mc_drive_id config) slot lane generation payload) i).
Proof.
  intros Hinv (? & ? & ? & ? & ? & ?) Hin Hp.
  pose proof (lane_end_u64 _ slot lane (mi_layout _ _ _ Hinv) Hin) as Hend.
  pose proof (media_lane _ _ _ _ _ Hinv Hin) as (Hb & _ & _ & _).
  pose proof (slot_capacity_u32 _ slot (proj1 (mi_layout _ _ _ Hinv))) as [Hc0 Hc].
  unfold lane_end in Hend. split; [done|]. split; [|done].
  unfold payload_record, location_record_wf; cbn.
  split_and!; try done; try (unfold fits; lia). apply crc32_ieee_u32.
Qed.

Lemma payload_at_lane sb drive_id slot lane generation payload :
  lane_in (sb_layout sb) slot lane → 0 < len payload ≤ slot_capacity (sb_layout sb) slot →
  at_lane sb (payload_record (sb_layout sb) drive_id slot lane generation payload) slot lane.
Proof. intros Hin Hp. unfold at_lane. cbn. split_and!; first [done | lia]. Qed.

(** The state a payload write leaves: the target lane holds the header and the payload,
    and no other lane changed. *)
Definition wrote (config : ChunkMediaWriteConfig) (sb : ChunkMediaSuperblock) (slot lane : Z)
    (h : ChunkMediaSlotHeader) (payload : list byte) (s s' : Store) : Prop :=
  media_inv s' config sb ∧
  slice (lane_lo config sb slot lane) 4096 (st_bytes s') = Some (slot_block h) ∧
  slice (lane_lo config sb slot lane + 4096) (round_up (len payload)) (st_bytes s')
    = Some (payload ++ zeroed (round_up (len payload) - len payload)) ∧
  (∀ slot' lane', lane_in (sb_layout sb) slot' lane' → (slot', lane') ≠ (slot, lane) →
     same_lane config sb slot' lane' s s').

Lemma write_payload_wrote s config sb slot sel lane c generation i payload durability :
  media_inv s config sb → write_wf config slot sel c generation i →
  target_lane (sb_layout sb) slot sel = Ok lane → lane_in (sb_layout sb) slot lane →
  0 < len payload ≤ slot_capacity (sb_layout sb) slot →
  let r := payload_record (sb_layout sb) (mc_drive_id config) slot lane generation payload in
  ∃ s', write_chunk_media_payload_with_file config sb slot sel c generation i payload durability s
          = (s', Ok r) ∧
    wrote config sb slot lane (mkSlotHeader Live c r i) payload s s'.
Proof.
  intros Hinv Hw Ht Hin Hp r. pose proof Hw as (_ & _ & _ & Hc & _ & _).
  pose proof (mi_layout _ _ _ Hinv) as Hfit. pose proof (proj1 (proj2 Hfit)) as Hv.
  pose proof (media_lane _ _ _ _ _ Hinv Hin) as (Hb & Hhi & Hlen & Hbig).
  pose proof (round_up_le (len payload) _ (layout_capacity_aligned _ slot Hv ltac:(destruct Hin; lia))
    (proj2 Hp)) as Hru. pose proof (round_up_bounds (len payload)) as Hrb.
  set (h := mkSlotHeader Live c r i).
  assert (len (slot_block h) = 4096) as Hlh by by apply len_slot_block.
  assert (len (payload_block h payload) = 4096 + round_up (len payload)) as Hlb.
  { unfold payload_block. autorewrite with len. rewrite !Nat2Z.inj_add, Hlh.
    rewrite len_zeroed by lia. lia. }
  destruct (lane_write s config sb slot lane (payload_block h payload) Hinv Hin) as (s1 & E1 & Hi1 & Hs1 & Ho1);
    [lia|].
  assert (wrote config sb slot lane h payload s s1) as Hwr.
  { split_and!; [done| | |done].
    - rewrite <-(Z.add_0_r (lane_lo _ _ _ _)). rewrite <-(slice_slice _ _ 0 4096 _ _ Hs1) by lia.
      unfold payload_block. by apply slice_0_app.
    - rewrite <-(slice_slice _ _ 4096 (round_up (len payload)) _ _ Hs1) by lia.
      unfold payload_block. rewrite slice_app_r, Hlh by lia. apply slice_full.
      rewrite length_app, Nat2Z.inj_add, len_zeroed by lia. lia. }
  assert (prepare_payload_write config sb slot sel c generation i payload
    = Ok (r, lane_lo config sb slot lane, payload_block h payload)) as Eprep.
  { rewrite (prepare_payload_write_eq _ _ _ _ lane) by done. cbv zeta.
    rewrite absolute_ok by (unfold lane_hi, lane_lo, lane_end in *; lia). done. }
  exists (match durability with Barrier => store_sync s1 | Deferred => s1 end). split.
  - unfold write_chunk_media_payload_with_file. rewrite Eprep.
    rewrite (M_bind_run _ _ s s (r, lane_lo config sb slot lane, payload_block h payload)) by done.
    rewrite (M_bind_run _ _ s s1 tt) by done. by destruct durability.
  - destruct durability; [|done]. destruct Hwr as (? & ? & ? & ?). split_and!; try done.
    by apply media_inv_sync.
Qed.

(** Any successful write is of that form, and a refused write leaves the media alone. *)
Lemma write_payload_inv s config sb slot sel c generation i payload durability s' r :
  media_inv s config sb → write_wf config slot sel c generation i →
  write_chunk_media_payload_with_file config sb slot sel c generation i payload durability s = (s', Ok r) →
  ∃ lane, target_lane (sb_layout sb) slot sel = Ok lane ∧ lane_in (sb_layout sb) slot lane ∧
    0 < len payload ≤ slot_capacity (sb_layout sb) slot ∧
    r = payload_record (sb_layout sb) (mc_drive_id config) slot lane generation payload ∧
    wrote config sb slot lane (mkSlotHeader Live c r i) payload s s'.
Proof.
  intros Hinv Hw Hok. pose proof Hw as (_ & [Hs _] & Hsel & _).
  assert (∃ x, prepare_payload_write config sb slot sel c generation i payload = Ok x) as [x Hx].
  { unfold write_chunk_media_payload_with_file in Hok. apply M_bind_Ok in Hok as (? & x & Hx & _).
    apply lift_Ok in Hx as [_ Hx]. eauto. }
  apply prepare_payload_write_inv in Hx as (lane & Ht & Hin & Hp); [|apply Hinv|done..].
  destruct (write_payload_wrote s config sb slot sel lane c generation i payload durability)
    as (s1 & E1 & Hwr); [done..|].
  rewrite Hok in E1. injection E1 as <- ->. exists lane. split_and!; done || lia.
Qed.

Lemma write_payload_refused s config sb slot sel c generation i payload durability s' e :
  media_inv s config sb → write_wf config slot sel c generation i →
  write_chunk_media_payload_with_file config sb slot sel c generation i payload durability s = (s', Err e) →
  s' = s ∧ prepare_payload_write config sb slot sel c generation i payload = Err e.
Proof.
  intros Hinv Hw Hok. pose proof Hw as (_ & [Hs _] & Hsel & _).
  destruct (prepare_payload_write config sb slot sel c generation i payload) as [x|e'] eqn:Hx.
  - apply prepare_payload_write_inv in Hx as (lane & Ht & Hin & Hp); [|apply Hinv|done..].
    destruct (write_payload_wrote s config sb slot sel lane c generation i payload durability)
      as (s1 & E1 & Hwr); [done..|]. rewrite Hok in E1. discriminate.
  - unfold write_chunk_media_payload_with_file in Hok. rewrite Hx in Hok.
    cbn in Hok. by injection Hok as <- <-.
Qed.

Lemma wrote_live_header c r i :
  header_wf (mkSlotHeader Live c r i) →
  live_header (slot_block (mkSlotHeader Live c r i)) c r = Ok (mkSlotHeader Live c r i).
Proof.
  intros Hwf. unfold live_header. rewrite slot_block_not_zero, decode_slot_block by done.
  cbn [ok_or]. rewrite result_bind_eq. cbn [sh_state sh_chunk_id sh_record].
  by rewrite !bool_decide_eq_true_2 by done.
Qed.

(** What was written reads back, with the identity it was written under. *)
Lemma wrote_read config sb slot lane c generation i payload s s' :
  let r := payload_record (sb_layout sb) (mc_drive_id config) slot lane generation payload in
  header_wf (mkSlotHeader Live c r i) → lane_in (sb_layout sb) slot lane →
  0 < len payload ≤ slot_capacity (sb_layout sb) slot →
  wrote config sb slot lane (mkSlotHeader Live c r i) payload s s' →
  read_chunk_media_payload_with_file s' (mc_span config) c r = Ok payload ∧
  read_identity s' (mc_span config) c r = Ok i.
Proof.
  intros r Hwf Hin Hp (Hinv & Hhd & Hd & _).
  assert (at_lane sb r slot lane) as Hat by by apply payload_at_lane.
  assert (read_length r = round_up (len payload)) as Erl.
  { unfold read_length. cbn [lr_logical_length r payload_record]. pose proof (round_up_bounds (len payload)).
    unfold round_up, div_ceil in *.
    assert (1 ≤ (len payload + 4096 - 1) / 4096) by (apply Z.div_le_lower_bound; lia). lia. }
  split.
  - rewrite (read_payload_eq _ _ sb slot lane c r (slot_block (mkSlotHeader Live c r i))
      (payload ++ zeroed (round_up (len payload) - len payload))) by (rewrite ?Erl; done).
    rewrite wrote_live_header, result_bind_eq by done. cbv zeta. cbn [lr_logical_length lr_checksum r payload_record].
    rewrite take_app_length' by lia. rewrite Z.eqb_refl. done.
  - unfold read_identity.
    rewrite (read_validated_eq _ _ sb slot lane c r (slot_block (mkSlotHeader Live c r i))) by done.
    by rewrite wrote_live_header, result_bind_eq.
Qed.

(** The scan finds what was written. *)
Lemma wrote_content config sb slot lane c generation i payload s s' :
  let r := payload_record (sb_layout sb) (mc_drive_id config) slot lane generation payload in
  header_wf (mkSlotHeader Live c r i) → lane_in (sb_layout sb) slot lane →
  0 < len payload ≤ slot_capacity (sb_layout sb) slot →
  wrote config sb slot lane (mkSlotHeader Live c r i) payload s s' →
  lane_content s' config sb slot lane = LaneHeader (mkSlotHeader Live c r i).
Proof.
  intros r Hwf Hin Hp (Hinv & Hhd & Hd & _).
  pose proof (media_lane _ _ _ _ _ Hinv Hin) as (Hb & Hhi & Hlen & _).
  pose proof (mi_offset _ _ _ Hinv). pose proof (round_up_bounds (len payload)) as Hrb.
  unfold lane_content. rewrite Hhd. cbn [from_option id].
  rewrite slot_block_not_zero, decode_slot_block by done.
  assert (slot_header_matches_geometry (mkSlotHeader Live c r i)
    (lane_geometry (sb_layout sb) slot lane) = true) as ->.
  { apply matches_geometry_iff. cbn. split_and!; first [done | lia]. }
  cbn [negb sh_state sh_record r payload_record lr_logical_length lr_checksum].
  destruct (slice_is_Some (lane_lo config sb slot lane + 4096) (slot_capacity (sb_layout sb) slot) (st_bytes s'))
    as (d & Hdd & Hdl); [unfold lane_lo; lia|lia|lia|].
  rewrite Hdd. cbn [from_option id].
  assert (slice 0 (len payload) d = Some payload) as Hpre.
  { rewrite (slice_slice _ _ 0 (len payload) _ _ Hdd) by lia. rewrite Z.add_0_r.
    rewrite <-(Z.add_0_r (lane_lo config sb slot lane + 4096)).
    rewrite <-(slice_slice _ _ 0 (len payload) _ _ Hd) by lia. by apply slice_0_app. }
  apply slice_Some in Hpre as (_ & _ & _ & Hpre). rewrite drop_0 in Hpre.
  rewrite <-Hpre, Z.eqb_refl. done.
Qed.

(** ** Tombstones *)

Definition tombstone_header (c : ChunkId) (r : LocationRecord) (generation : Z) : ChunkMediaSlotHeader :=
  mkSlotHeader Deleted c (with_generation r generation) default_identity.

Lemma write_tombstone_ok s config sb slot lane c r generation :
  media_inv s config sb → at_lane sb r slot lane → location_record_wf r → chunk_id_wf c →
  is_u32 generation →
  ∃ s', write_chunk_media_tombstone_with_file config sb c r generation s = (s', Ok tt) ∧
    media_inv s' config sb ∧
    lane_content s' config sb slot lane = LaneHeader (tombstone_header c r generation) ∧
    (∀ c' r', at_lane sb r' slot lane →
       read_chunk_media_payload_with_file s' (mc_span config) c' r' = Err NotFound) ∧
    (∀ slot' lane', lane_in (sb_layout sb) slot' lane' → (slot', lane') ≠ (slot, lane) →
       same_lane config sb slot' lane' s s').
Proof.
  intros Hinv Hat Hr Hc Hg. pose proof Hat as (Hin & Ho & Hk & Hl & Hst).
  pose proof (mi_layout _ _ _ Hinv) as Hfit.
  pose proof (media_lane _ _ _ _ _ Hinv Hin) as (Hb & Hhi & Hlen & Hbig).
  set (h := tombstone_header c r generation).
  assert (header_wf h) as Hwf.
  { destruct Hr as (? & ? & ? & ? & ? & ?). split_and!; done. }
  assert (len (slot_block h) = 4096) as Hlh by by apply len_slot_block.
  destruct (lane_write s config sb slot lane (slot_block h) Hinv Hin) as (s1 & E1 & Hi1 & Hs1 & Ho1).
  { pose proof (slot_capacity_u32 _ slot (proj1 Hfit)) as [? _]. lia. }
  rewrite Hlh in Hs1. exists (store_sync s1). split_and!.
  - unfold write_chunk_media_tombstone_with_file, slot_geometry_for_record.
    rewrite (at_lane_address sb (with_generation r generation) slot lane); [|done|apply Hr|done].
    rewrite result_bind_eq. cbn [sa_slot_index sa_publication_lane]. rewrite slot_geometry_ok by done.
    rewrite (M_bind_run _ _ s s (lane_geometry (sb_layout sb) slot lane)) by done.
    rewrite (M_bind_run _ _ s s (zeroed 4096)) by done.
    rewrite encode_slot_header_eq by lia.
    rewrite (M_bind_run _ _ s s (slot_block h ++ zeroed (4096 - 4096))) by done.
    cbn [sg_slot_base_offset lane_geometry].
    rewrite absolute_ok by (unfold lane_hi, lane_lo, lane_end in *; lia).
    rewrite (M_bind_run _ _ s s (lane_lo config sb slot lane)) by done.
    change (zeroed (4096 - 4096)) with (@nil byte). rewrite app_nil_r.
    by rewrite (M_bind_run _ _ s s1 tt).
  - by apply media_inv_sync.
  - unfold lane_content. cbn [st_bytes store_sync]. rewrite Hs1. cbn [from_option id].
    rewrite slot_block_not_zero, decode_slot_block by done.
    assert (slot_header_matches_geometry h (lane_geometry (sb_layout sb) slot lane) = true) as ->.
    { apply matches_geometry_iff. cbn. split_and!; first [done | lia]. }
    done.
  - intros c' r' Hat'. apply media_inv_sync in Hi1.
    destruct (lane_slices _ _ _ _ _ _ Hi1 Hat') as (_ & _ & _ & hd & d & Hhd & Hd).
    rewrite (read_payload_eq _ _ sb slot lane c' r' hd d) by done.
    cbn [st_bytes store_sync] in Hhd. rewrite Hs1 in Hhd. injection Hhd as <-.
    unfold live_header. rewrite slot_block_not_zero, decode_slot_block by done. done.
  - done.
Qed.

(** ** Opening *)

Lemma resolve_bounds s o l n :
  resolve_effective_span_bytes s o l = Ok n → o + n ≤ len (st_bytes s) ∧ n ≠ 0 ∧ n mod 4096 = 0.
Proof.
  unfold resolve_effective_span_bytes, storage_capacity_bytes, validate_offset_alignment, CHUNK_MEDIA_ALIGN_BYTES.
  intros Hr. inv_ok. destruct (Z.ltb_spec (len (st_bytes s)) o); [done|].
  destruct (Z.eqb_spec (default (len (st_bytes s) - o) l) 0); [done|]. inv_ok.
  destruct (Z.eqb_spec (default (len (st_bytes s) - o) l mod 4096) 0); [|done].
  destruct (Z.ltb_spec (len (st_bytes s)) (o + default (len (st_bytes s) - o) l)); inv_ok. done.
Qed.

Definition media_config_wf (s : Store) (config : ChunkMediaWriteConfig) : Prop :=
  layout_fits (mc_layout config) ∧ is_u64 (span_offset_bytes (mc_span config)) ∧
  (∀ n, span_len_bytes (mc_span config) = Some n → is_u64 n) ∧ len (st_bytes s) ≤ MAX_STORE_BYTES.

Lemma resolve_u64 s config n :
  media_config_wf s config →
  resolve_effective_span_bytes s (span_offset_bytes (mc_span config)) (span_len_bytes (mc_span config)) = Ok n →
  4096 ≤ n < 2 ^ 63 ∧ span_offset_bytes (mc_span config) + n ≤ len (st_bytes s).
Proof.
  intros (_ & [Ho _] & Hn & Hsz) Hr. pose proof (resolve_bounds _ _ _ _ Hr) as (Hb & Hnz & Hal).
  assert (0 ≤ n) as Hpos.
  { unfold resolve_effective_span_bytes, storage_capacity_bytes in Hr. inv_ok.
    destruct (Z.ltb_spec (len (st_bytes s)) (span_offset_bytes (mc_span config))); [done|].
    destruct (_ =? 0); [done|]. inv_ok. destruct (_ <? _); inv_ok.
    destruct (span_len_bytes (mc_span config)) as [m|]; cbn [from_option id] in *; [|lia].
    by destruct (Hn m eq_refl). }
  pose proof (aligned_le 0 n 4096 ltac:(lia) eq_refl Hal ltac:(lia)).
  unfold MAX_STORE_BYTES in *. lia.
Qed.

Lemma opened_inv s config sb span :
  media_config_wf s config →
  resolve_effective_span_bytes s (span_offset_bytes (mc_span config)) (span_len_bytes (mc_span config)) = Ok span →
  (∀ n, planned_chunk_media_span_bytes (mc_layout config) = Ok n → n ≤ span) →
  sb = mkSuperblock CHUNK_MEDIA_VERSION (mc_layout config) span →
  slice (span_offset_bytes (mc_span config)) 4096 (st_bytes s) ≫= decode_superblock = Some sb →
  media_inv s config sb.
Proof.
  intros Hwf Hr Hplan -> Hblk. pose proof (resolve_u64 _ _ _ Hwf Hr) as [Hsp Hend].
  destruct Hwf as (Hfit & [Ho _] & _ & Hsz). split; cbn [sb_layout sb_media_span_bytes sb_version]; try done.
  - split_and!; [done|apply Hfit|]. cbn. unfold fits. lia.
  - intros Hk. apply Hplan. by apply planned_span_ok.
Qed.

(** The span of an opened medium covers what its layout plans. *)
Lemma opened_planned s config sb :
  media_inv s config sb →
  ∃ n, planned_chunk_media_span_bytes (sb_layout sb) = Ok n ∧ n ≤ sb_media_span_bytes sb.
Proof.
  intros Hinv. destruct (decide (0 < key_slots (sb_layout sb))) as [Hk|Hk].
  - eexists. split; [apply planned_span_ok; [apply Hinv|done]|]. by apply Hinv.
  - pose proof (mi_layout _ _ _ Hinv) as ((_ & _ & [? _]) & Hv & _).
    unfold planned_chunk_media_span_bytes. rewrite Hv, result_bind_eq.
    destruct (Z.eqb_spec (key_slots (sb_layout sb)) 0); [|lia]. eexists. split; [done|].
    pose proof (resolve_bounds _ _ _ _ (mi_span _ _ _ Hinv)) as (_ & Hnz & Hal).
    pose proof (mi_superblock _ _ _ Hinv) as (_ & _ & [Hsp _]). unfold CHUNK_MEDIA_SUPERBLOCK_BYTES.
    pose proof (aligned_le 0 (sb_media_span_bytes sb) 4096 ltac:(lia) eq_refl Hal ltac:(lia)). lia.
Qed.

(** Opening an opened span again changes nothing. *)
Lemma ensure_opened s config sb :
  media_inv s config sb → ensure_chunk_media_superblock config s = (s, Ok sb).
Proof.
  intros Hinv. destruct (opened_planned _ _ _ Hinv) as (n & Hp & Hn).
  pose proof (mi_layout _ _ _ Hinv) as (_ & Hv & _). pose proof (mi_block _ _ _ Hinv) as Hblk.
  unfold ensure_chunk_media_superblock. rewrite (mi_config _ _ _ Hinv), Hv, Hp.
  rewrite (M_bind_run _ _ s s tt) by done. rewrite (M_bind_run _ _ s s s) by done.
  rewrite (mi_span _ _ _ Hinv).
  rewrite (M_bind_run _ _ s s (sb_media_span_bytes sb)) by done. rewrite (M_bind_run _ _ s s n) by done.
  destruct (Z.ltb_spec (sb_media_span_bytes sb) n); [lia|].
  unfold direct_read_exact, store_read, CHUNK_MEDIA_ALIGN_BYTES.
  destruct (slice (span_offset_bytes (mc_span config)) 4096 (st_bytes s)) as [b|]; [|done].
  cbn [mbind option_bind] in Hblk. rewrite (M_bind_run _ _ s s b) by done. rewrite Hblk.
  pose proof (mi_superblock _ _ _ Hinv) as (Hver & _ & _). rewrite bool_decide_eq_true_2; [done|].
  destruct sb; cbn in *. by subst.
Qed.

(** Asking an opened span for another layout is refused and writes nothing. *)
Lemma ensure_other_layout s config config' sb s' r :
  media_inv s config sb → mc_span config' = mc_span config → mc_layout config' ≠ sb_layout sb →
  ensure_chunk_media_superblock config' s = (s', r) → s' = s ∧ ∃ e, r = Err e.
Proof.
  intros Hinv Hspan Hne. pose proof (mi_block _ _ _ Hinv) as Hblk.
  unfold ensure_chunk_media_superblock. rewrite Hspan.
  destruct (validate_layout (mc_layout config')) as [[]|e];
    [rewrite (M_bind_run _ _ s s tt) by done|rewrite (M_bind_Err _ _ s s e) by done; intros [= <- <-]; eauto].
  rewrite (M_bind_run _ _ s s s) by done. rewrite (mi_span _ _ _ Hinv).
  rewrite (M_bind_run _ _ s s (sb_media_span_bytes sb)) by done.
  destruct (planned_chunk_media_span_bytes (mc_layout config')) as [n|e];
    [rewrite (M_bind_run _ _ s s n) by done|rewrite (M_bind_Err _ _ s s e) by done; intros [= <- <-]; eauto].
  destruct (_ <? n); [intros [= <- <-]; eauto|].
  unfold direct_read_exact, store_read, CHUNK_MEDIA_ALIGN_BYTES.
  destruct (slice (span_offset_bytes (mc_span config)) 4096 (st_bytes s)) as [b|]; [|done].
  cbn [mbind option_bind] in Hblk. rewrite (M_bind_run _ _ s s b) by done. rewrite Hblk.
  rewrite bool_decide_eq_false_2; [intros [= <- <-]; eauto|].
  intros E. apply (f_equal sb_layout) in E. done.
Qed.

(** What a successful open does. *)
Lemma ensure_inv s config s' sb :
  media_config_wf s config → ensure_chunk_media_superblock config s = (s', Ok sb) →
  media_inv s' config sb ∧
  (∀ o n, 0 ≤ o → 0 ≤ n → o + n ≤ span_offset_bytes (mc_span config) ∨
     span_offset_bytes (mc_span config) + 4096 ≤ o →
     slice o n (st_bytes s') = slice o n (st_bytes s)).
Proof.
  intros Hwf Hok. unfold ensure_chunk_media_superblock in Hok. inv_ok.
  destruct (Z.ltb_spec x1 x2) as [|Hge]; [done|]. inv_ok.
  rename x1 into span, Hx1 into Hres, Hx2 into Hplan, x0 into b, Hx0 into Hb.
  unfold direct_read_exact in Hb. apply store_read_Ok in Hb.
  pose proof (resolve_u64 _ _ _ Hwf Hres) as [Hsp Hend].
  pose proof (slice_len _ _ _ _ Hb) as Hlb. unfold CHUNK_MEDIA_ALIGN_BYTES in *.
  pose proof Hwf as (Hfit & Hou & Hln & Hsz). pose proof (proj1 Hou) as Ho.
  destruct (decode_superblock b) as [ex|] eqn:Hdec.
  - case_bool_decide as Heq; [|done]. injection Hok as <- <-. split; [|done].
    eapply opened_inv; [done|done| |done|by rewrite Hb].
    intros n Hn. rewrite Hn in Hplan. inv_ok. done.
  - rewrite encode_superblock_eq in Hok by done. rewrite (M_bind_run _ _ s s _ eq_refl) in Hok.
    apply M_bind_Ok in Hok as (s1 & [] & Hw & Hok). unfold direct_write_exact in Hw.
    rewrite store_write_in in Hw by (rewrite len_superblock_block; lia).
    apply (f_equal fst) in Hw. cbn [fst] in Hw. subst s1.
    rewrite (M_bind_run direct_fdatasync _ _ _ tt eq_refl) in Hok. apply pair_equal_spec in Hok as [<- Hok].
    apply Ok_inj in Hok as <-.
    assert (len (superblock_block (mkSuperblock CHUNK_MEDIA_VERSION (mc_layout config) span)) = 4096)
      as Hl by apply len_superblock_block.
    split.
    + eapply opened_inv; [| | |done|].
      * split_and!; [done..|]. cbn [st_bytes store_sync store_update].
        rewrite len_splice by lia. done.
      * rewrite <-Hres. apply resolve_len. cbn [st_bytes store_sync store_update].
        rewrite len_splice by lia. done.
      * intros n Hn. rewrite Hn in Hplan. inv_ok. done.
      * cbn [st_bytes store_sync store_update]. rewrite slice_splice_eq by lia.
        cbn [mbind option_bind]. apply decode_superblock_block. split_and!; [done|apply Hfit|].
        cbn. unfold fits. lia.
    + intros o n ? ? Hdis. cbn [st_bytes store_sync store_update]. apply slice_splice_ne; lia.
Qed.

End state.
