(* ===== verification/ChunkMediaRebuild.v ===== *)
(** What the chunk media promises: opening pins the layout, a payload write reads back
    and leaves every other lane alone, a tombstone hides its lane, and the rebuild scan
    recovers for each chunk the header of the highest generation. *)
From S2P Require Import Prelude Bytes Device KixTypes ChunkMedia ChunkMediaGeo ChunkMediaIO ChunkMediaState.

Section rebuild.
Context `{Crc32}.

(** ** The scan as a fold over the headers *)

Definition content_header (c : LaneContent) : option ChunkMediaSlotHeader :=
  match c with
  | LaneHeader h => Some h
  | _ => None
  end.

(** The headers the scan accepts, in scan order. *)
Definition media_headers (s : Store) (config : ChunkMediaWriteConfig) (sb : ChunkMediaSuperblock) :
    list ChunkMediaSlotHeader :=
  omap (fun at_ => content_header (lane_content s config sb at_.1 at_.2)) (all_lanes (key_slots (sb_layout sb))).

Lemma elem_of_all_lanes k slot lane : (slot, lane) ∈ all_lanes k ↔ 0 ≤ slot < k ∧ 0 ≤ lane < 2.
Proof.
  unfold all_lanes, CHUNK_MEDIA_PUBLICATION_LANES. rewrite list_elem_of_bind. split.
  - intros (x & (l & [= -> ->] & Hl)%list_elem_of_fmap & Hx). rewrite elem_of_seqZ in Hx, Hl. lia.
  - intros [? ?]. exists slot. split; [|apply elem_of_seqZ; lia].
    apply list_elem_of_fmap. exists lane. split; [done|]. apply elem_of_seqZ. lia.
Qed.

Lemma elem_of_media_headers s config sb h :
  h ∈ media_headers s config sb ↔
  ∃ slot lane, lane_in (sb_layout sb) slot lane ∧ lane_content s config sb slot lane = LaneHeader h.
Proof.
  unfold media_headers. rewrite list_elem_of_omap. split.
  - intros ([slot lane] & Hin%elem_of_all_lanes & Hc). exists slot, lane. split; [done|].
    cbn in Hc. destruct (lane_content _ _ _ _ _); cbn in Hc; congruence.
  - intros (slot & lane & Hin & Hc). exists (slot, lane). split; [by apply elem_of_all_lanes|].
    cbn. by rewrite Hc.
Qed.

(** Generations first; a tombstone outranks a live header of its own generation. *)
Definition rank (h : ChunkMediaSlotHeader) : Z :=
  2 * lr_generation (sh_record h) + (if bool_decide (sh_state h = Deleted) then 1 else 0).

Lemma update_latest_header_eq latest h :
  update_latest_header latest h =
  match latest !! sh_chunk_id h with
  | Some e => if rank h <? rank e then latest else <[sh_chunk_id h := h]> latest
  | None => <[sh_chunk_id h := h]> latest
  end.
Proof.
  unfold update_latest_header. destruct (latest !! sh_chunk_id h) as [e|]; [|done].
  assert ((lr_generation (sh_record h) <? lr_generation (sh_record e))
    || ((lr_generation (sh_record e) =? lr_generation (sh_record h))
        && bool_decide (sh_state e = Deleted) && bool_decide (sh_state h = Live)) = (rank h <? rank e)) as ->; [|done].
  unfold rank. apply eq_true_iff_eq.
  rewrite orb_true_iff, !andb_true_iff, !Z.ltb_lt, Z.eqb_eq, !bool_decide_eq_true.
  split.
  - intros [? | [[? ->] ->]]; repeat case_bool_decide; done || lia.
  - intros Hlt. destruct (decide (lr_generation (sh_record h) < lr_generation (sh_record e))); [by left|right].
    destruct (sh_state e), (sh_state h); repeat case_bool_decide; try done; try lia.
    split_and!; done || lia.
Qed.

Lemma update_latest_lookup latest h c :
  update_latest_header latest h !! c =
  if bool_decide (sh_chunk_id h = c) then
    match latest !! c with
    | Some e => if rank h <? rank e then Some e else Some h
    | None => Some h
    end
  else latest !! c.
Proof.
  rewrite update_latest_header_eq. case_bool_decide as Hc.
  - subst c. destruct (latest !! sh_chunk_id h) as [e|] eqn:E; [|by rewrite lookup_insert_eq].
    destruct (_ <? _); [done|by rewrite lookup_insert_eq].
  - destruct (latest !! sh_chunk_id h) as [e|]; [destruct (_ <? _); [done|]|];
      by rewrite lookup_insert_ne.
Qed.

(** The latest headers after a scan are of maximal rank among those of their chunk. *)
Lemma latest_spec l c :
  match foldl update_latest_header ∅ l !! c with
  | Some h => h ∈ l ∧ sh_chunk_id h = c ∧ ∀ h', h' ∈ l → sh_chunk_id h' = c → rank h' ≤ rank h
  | None => ∀ h', h' ∈ l → sh_chunk_id h' ≠ c
  end.
Proof.
  induction l as [|h l IH] using rev_ind; [cbn [foldl]; rewrite lookup_empty; by intros h' ?%not_elem_of_nil|].
  rewrite foldl_app. cbn [foldl]. rewrite update_latest_lookup.
  set (m := foldl update_latest_header ∅ l) in *. case_bool_decide as Hc.
  - destruct (m !! c) as [e|]; [destruct IH as (He & Hec & Hmax)|].
    + destruct (Z.ltb_spec (rank h) (rank e)); (split_and!; [set_solver|done|]);
        intros h' [Hin | ->%list_elem_of_singleton]%elem_of_app Hid; try lia;
        specialize (Hmax h' Hin Hid); lia.
    + split_and!; [set_solver|done|].
      intros h' [Hin | ->%list_elem_of_singleton]%elem_of_app Hid; [|lia]. by destruct (IH h' Hin).
  - destruct (m !! c) as [e|]; [destruct IH as (He & Hec & Hmax); split_and!; [set_solver|done|]|];
      intros h' [Hin | ->%list_elem_of_singleton]%elem_of_app; done || auto.
Qed.

Lemma rebuild_lane_eq s config sb acc slot lane :
  media_inv s config sb → lane_in (sb_layout sb) slot lane →
  rebuild_lane s (mc_span config) (sb_layout sb) acc (slot, lane)
  = Ok (count_lane (lane_content s config sb slot lane) acc.1,
        match content_header (lane_content s config sb slot lane) with
        | Some h => update_latest_header acc.2 h
        | None => acc.2
        end).
Proof.
  intros Hinv Hin. unfold rebuild_lane. cbn [fst snd]. rewrite (scan_lane_eq _ _ _ slot lane Hinv Hin).
  rewrite result_bind_eq. by destruct (lane_content s config sb slot lane).
Qed.

Lemma rebuild_fold s config sb acc lanes :
  media_inv s config sb → (∀ at_, at_ ∈ lanes → lane_in (sb_layout sb) at_.1 at_.2) →
  ∃ summary, try_fold (rebuild_lane s (mc_span config) (sb_layout sb)) acc lanes
  = Ok (summary, foldl update_latest_header acc.2
          (omap (fun at_ => content_header (lane_content s config sb at_.1 at_.2)) lanes)).
Proof.
  intros Hinv. revert acc. induction lanes as [|[slot lane] lanes IH]; intros acc Hin.
  { exists acc.1. by destruct acc. }
  cbn [try_fold]. rewrite (rebuild_lane_eq _ _ _ _ _ _ Hinv (Hin (slot, lane) ltac:(set_solver))).
  rewrite result_bind_eq.
  edestruct IH as [summary E]; [|exists summary; rewrite E]; [set_solver|].
  cbn [omap list_omap fst snd]. by destruct (content_header (lane_content s config sb slot lane)).
Qed.

(** On an opened span the rebuild always succeeds, with the latest headers that are live. *)
Lemma rebuild_eq s config sb :
  media_inv s config sb →
  ∃ summary, rebuild_from_chunk_media s (mc_span config) = Ok
    (let latest := foldl update_latest_header ∅ (media_headers s config sb) in
     mkRebuildResult sb (omap (if_live sh_record) latest) (omap (if_live sh_identity) latest) summary).
Proof.
  intros Hinv.
  destruct (rebuild_fold s config sb (mkSummary 0 0 0 0 0 0 0, ∅) (all_lanes (key_slots (sb_layout sb))) Hinv)
    as [summary E]; [by intros [] ?%elem_of_all_lanes|].
  exists summary. unfold rebuild_from_chunk_media, read_chunk_media_superblock.
  rewrite (mi_span _ _ _ Hinv), result_bind_eq.
  pose proof (mi_block _ _ _ Hinv) as Hblk. unfold direct_read_exact, store_read, CHUNK_MEDIA_ALIGN_BYTES.
  destruct (slice (span_offset_bytes (mc_span config)) 4096 (st_bytes s)) as [b|]; [|done].
  cbn [mbind option_bind] in Hblk. cbn [ok_or]. rewrite result_bind_eq, Hblk. cbn [ok_or].
  rewrite result_bind_eq, E, result_bind_eq. done.
Qed.

Lemma if_live_Some {A} (f : ChunkMediaSlotHeader → A) h a :
  if_live f h = Some a ↔ sh_state h = Live ∧ f h = a.
Proof. unfold if_live. case_bool_decide; split; [intros [= <-]; done|intros [_ <-]; done|done|by intros [? _]]. Qed.

(** ** Which headers a chunk's entry depends on *)

Definition pick (c : ChunkId) (o : option ChunkMediaSlotHeader) (h : ChunkMediaSlotHeader) :
    option ChunkMediaSlotHeader :=
  if bool_decide (sh_chunk_id h = c) then
    match o with
    | Some e => if rank h <? rank e then Some e else Some h
    | None => Some h
    end
  else o.

Lemma latest_pick l m c :
  foldl update_latest_header m l !! c = foldl (pick c) (m !! c) l.
Proof.
  revert m. induction l as [|h l IH]; intros m; [done|].
  cbn [foldl]. by rewrite IH, update_latest_lookup.
Qed.

(** Lanes that hold the same headers of [c] give [c] the same entry. *)
Lemma latest_same s s' config sb c :
  (∀ slot lane, lane_in (sb_layout sb) slot lane →
     lane_content s' config sb slot lane = lane_content s config sb slot lane ∨
     (∀ h, content_header (lane_content s config sb slot lane) = Some h → sh_chunk_id h ≠ c) ∧
     (∀ h, content_header (lane_content s' config sb slot lane) = Some h → sh_chunk_id h ≠ c)) →
  foldl update_latest_header ∅ (media_headers s' config sb) !! c
  = foldl update_latest_header ∅ (media_headers s config sb) !! c.
Proof.
  intros Hl. rewrite !latest_pick. unfold media_headers.
  assert (∀ at_, at_ ∈ all_lanes (key_slots (sb_layout sb)) → lane_in (sb_layout sb) at_.1 at_.2) as Hin
    by (by intros [] ?%elem_of_all_lanes).
  generalize ((∅ : gmap ChunkId ChunkMediaSlotHeader) !! c).
  induction (all_lanes (key_slots (sb_layout sb))) as [|[slot lane] lanes IH]; [done|]. intros o.
  cbn [omap list_omap fst snd].
  destruct (Hl slot lane (Hin (slot, lane) ltac:(set_solver))) as [-> | [Hs Hs']].
  - destruct (content_header (lane_content s config sb slot lane)); cbn [foldl]; apply IH; set_solver.
  - assert (∀ co l o, (∀ h, content_header co = Some h → sh_chunk_id h ≠ c) →
      foldl (pick c) o (match content_header co with Some h => h :: l | None => l end)
      = foldl (pick c) o l) as Hskip.
    { intros co l o' Hne. destruct (content_header co) as [h|]; [|done]. cbn [foldl]. unfold pick at 2.
      rewrite bool_decide_eq_false_2 by by apply Hne. done. }
    rewrite !Hskip by done. apply IH. set_solver.
Qed.

(** A header that outranks all others of its chunk is the latest. *)
Lemma latest_max l h :
  h ∈ l → (∀ h', h' ∈ l → sh_chunk_id h' = sh_chunk_id h → h' = h ∨ rank h' < rank h) →
  foldl update_latest_header ∅ l !! sh_chunk_id h = Some h.
Proof.
  intros Hin Hmax. pose proof (latest_spec l (sh_chunk_id h)) as Hs.
  destruct (foldl update_latest_header ∅ l !! sh_chunk_id h) as [e|].
  - destruct Hs as (He & Hid & Hge). destruct (Hmax e He Hid) as [-> | Hlt]; [done|].
    specialize (Hge h Hin eq_refl). lia.
  - by destruct (Hs h Hin).
Qed.

(** ** What the chunk media promises *)

(** Opening a span pins its layout: a successful open leaves an opened span, touches
    nothing outside the superblock block, is repeated without effect, and from then on
    any other layout is refused without writing. *)
Theorem ensure_superblock_opens s config s' sb :
  media_config_wf s config → ensure_chunk_media_superblock config s = (s', Ok sb) →
  media_inv s' config sb ∧
  ensure_chunk_media_superblock config s' = (s', Ok sb) ∧
  (∀ config' s'' r, mc_span config' = mc_span config → mc_layout config' ≠ mc_layout config →
     ensure_chunk_media_superblock config' s' = (s'', r) → s'' = s' ∧ ∃ e, r = Err e) ∧
  (∀ o n, 0 ≤ o → 0 ≤ n → o + n ≤ span_offset_bytes (mc_span config) ∨
     span_offset_bytes (mc_span config) + 4096 ≤ o →
     slice o n (st_bytes s') = slice o n (st_bytes s)).
Proof.
  intros Hwf Hok. apply ensure_inv in Hok as [Hinv Hframe]; [|done]. split_and!; [done| | |done].
  - by apply ensure_opened.
  - intros config' s'' r Hspan Hne. rewrite (mi_config _ _ _ Hinv) in Hne. by eapply ensure_other_layout.
Qed.

(** C30: A payload written to a lane reads back with the identity it was written under,
    the record names the written slot and generation, the span stays open, and every
    record of another lane reads as before; a refused write changes no byte. *)
Theorem write_payload_reads_back s config sb slot sel c generation i payload durability :
  media_inv s config sb → write_wf config slot sel c generation i →
  match write_chunk_media_payload_with_file config sb slot sel c generation i payload durability s with
  | (s', Ok r) =>
      media_inv s' config sb ∧
      read_chunk_media_payload_with_file s' (mc_span config) c r = Ok payload ∧
      read_identity s' (mc_span config) c r = Ok i ∧
      lr_generation r = generation ∧
      ∃ lane, target_lane (sb_layout sb) slot sel = Ok lane ∧ at_lane sb r slot lane ∧
        ∀ c' r' slot' lane', at_lane sb r' slot' lane' → (slot', lane') ≠ (slot, lane) →
          read_chunk_media_payload_with_file s' (mc_span config) c' r'
          = read_chunk_media_payload_with_file s (mc_span config) c' r'
  | (s', Err _) => s' = s
  end.
Proof.
  intros Hinv Hw.
  destruct (write_chunk_media_payload_with_file config sb slot sel c generation i payload durability s)
    as [s' [r|e]] eqn:Hok; [|by eapply write_payload_refused].
  apply write_payload_inv in Hok as (lane & Ht & Hin & Hp & -> & Hwr); [|done..].
  pose proof (payload_header_wf _ _ _ _ _ _ _ _ _ _ Hinv Hw Hin Hp) as Hwf.
  pose proof Hwr as (Hinv' & _ & _ & Hsame).
  destruct (wrote_read _ _ _ _ _ _ _ _ _ _ Hwf Hin Hp Hwr) as [Hread Hid].
  split_and!; [done..|]. exists lane. split_and!; [done|by apply payload_at_lane|].
  intros c' r' slot' lane' Hat Hne. eapply read_payload_same; [done..|]. apply Hsame; [apply Hat|done].
Qed.

(** Every payload that is not empty and fits the slot can be written to either lane
    of every slot, and the write succeeds. *)
Theorem write_payload_succeeds s config sb slot sel lane c generation i payload durability :
  media_inv s config sb → write_wf config slot sel c generation i →
  target_lane (sb_layout sb) slot sel = Ok lane → lane_in (sb_layout sb) slot lane →
  0 < len payload ≤ slot_capacity (sb_layout sb) slot →
  ∃ s' r, write_chunk_media_payload_with_file config sb slot sel c generation i payload durability s
          = (s', Ok r).
Proof.
  intros Hinv Hw Ht Hin Hp.
  destruct (write_payload_wrote s config sb slot sel lane c generation i payload durability)
    as (s' & E & _); eauto.
Qed.

(** C18: The rebuild of an opened span always succeeds. A chunk is in the rebuilt index
    with a record exactly when the header of the highest generation the media holds for
    it is a live one, a tombstone winning over a live header of its own generation. *)
Theorem rebuild_latest s config sb :
  media_inv s config sb →
  ∃ rr, rebuild_from_chunk_media s (mc_span config) = Ok rr ∧ rr_superblock rr = sb ∧
  ∀ c, match rr_entries rr !! c with
       | Some r => ∃ h, h ∈ media_headers s config sb ∧ sh_chunk_id h = c ∧ sh_state h = Live ∧
           sh_record h = r ∧ rr_identities rr !! c = Some (sh_identity h) ∧
           ∀ h', h' ∈ media_headers s config sb → sh_chunk_id h' = c → rank h' ≤ rank h
       | None => rr_identities rr !! c = None ∧
           ((∀ h', h' ∈ media_headers s config sb → sh_chunk_id h' ≠ c) ∨
            ∃ h, h ∈ media_headers s config sb ∧ sh_chunk_id h = c ∧ sh_state h = Deleted ∧
              ∀ h', h' ∈ media_headers s config sb → sh_chunk_id h' = c → rank h' ≤ rank h)
       end.
Proof.
  intros Hinv. destruct (rebuild_eq s config sb Hinv) as [summary E].
  eexists. split; [exact E|]. split; [done|]. intros c. cbn [rr_entries rr_identities].
  rewrite !lookup_omap. pose proof (latest_spec (media_headers s config sb) c) as Hs.
  destruct (foldl update_latest_header ∅ (media_headers s config sb) !! c) as [h|]; cbn [mbind option_bind].
  - destruct Hs as (Hin & Hid & Hmax). unfold if_live. case_bool_decide as Hst.
    + exists h. split_and!; done.
    + split; [done|]. right. exists h. split_and!; try done. by destruct (sh_state h).
  - split; [done|]. by left.
Qed.

(** ** The rebuilt index after a write or a tombstone *)

Lemma rebuild_entry s config sb :
  media_inv s config sb →
  ∃ rr, rebuild_from_chunk_media s (mc_span config) = Ok rr ∧
    ∀ c, rr_entries rr !! c
         = foldl update_latest_header ∅ (media_headers s config sb) !! c ≫= if_live sh_record.
Proof.
  intros Hinv. destruct (rebuild_eq s config sb Hinv) as [summary E]. eexists. split; [exact E|].
  intros c. cbn [rr_entries]. by rewrite lookup_omap.
Qed.

(** A lane took a header; the others are as before. *)
Definition lane_set (config : ChunkMediaWriteConfig) (sb : ChunkMediaSuperblock) (slot lane : Z)
    (h : ChunkMediaSlotHeader) (s s' : Store) : Prop :=
  media_inv s config sb ∧ media_inv s' config sb ∧ lane_in (sb_layout sb) slot lane ∧
  lane_content s' config sb slot lane = LaneHeader h ∧
  (∀ slot' lane', lane_in (sb_layout sb) slot' lane' → (slot', lane') ≠ (slot, lane) →
     lane_content s' config sb slot' lane' = lane_content s config sb slot' lane').

Lemma write_payload_lane_set s config sb slot sel c generation i payload durability s' r :
  media_inv s config sb → write_wf config slot sel c generation i →
  write_chunk_media_payload_with_file config sb slot sel c generation i payload durability s = (s', Ok r) →
  ∃ lane, target_lane (sb_layout sb) slot sel = Ok lane ∧ at_lane sb r slot lane ∧
    lr_generation r = generation ∧ location_record_wf r ∧
    lane_set config sb slot lane (mkSlotHeader Live c r i) s s'.
Proof.
  intros Hinv Hw Hok. apply write_payload_inv in Hok as (lane & Ht & Hin & Hp & -> & Hwr); [|done..].
  pose proof (payload_header_wf _ _ _ _ _ _ _ _ _ _ Hinv Hw Hin Hp) as Hwf.
  pose proof Hwr as (Hinv' & _ & _ & Hsame). exists lane.
  split_and!; [done|by apply payload_at_lane|done|apply Hwf|]. split_and!; [done..| |].
  - by eapply wrote_content.
  - intros slot' lane' Hin' Hne. apply lane_content_same; [done..|]. by apply Hsame.
Qed.

Lemma tombstone_lane_set s config sb slot lane c r generation :
  media_inv s config sb → at_lane sb r slot lane → location_record_wf r → chunk_id_wf c →
  is_u32 generation →
  ∃ s', write_chunk_media_tombstone_with_file config sb c r generation s = (s', Ok tt) ∧
    lane_set config sb slot lane (tombstone_header c r generation) s s'.
Proof.
  intros Hinv Hat Hr Hc Hg.
  destruct (write_tombstone_ok s config sb slot lane c r generation)
    as (s' & E & Hinv' & Hct & _ & Hsame); [done..|].
  exists s'. split; [done|]. split_and!; [done|done|apply Hat|done|].
  intros slot' lane' Hin' Hne. apply lane_content_same; [done..|]. by apply Hsame.
Qed.

Lemma lane_set_headers config sb slot lane h s s' h' :
  lane_set config sb slot lane h s s' → h' ∈ media_headers s' config sb →
  h' = h ∨ h' ∈ media_headers s config sb.
Proof.
  intros (_ & _ & Hin & Hc & Hsame) (slot' & lane' & Hin' & Hc')%elem_of_media_headers.
  destruct (decide ((slot', lane') = (slot, lane))) as [[= -> ->]|Hne].
  - left. congruence.
  - right. apply elem_of_media_headers. exists slot', lane'. split; [done|].
    by rewrite Hsame in Hc' by done.
Qed.

Lemma lane_set_in config sb slot lane h s s' :
  lane_set config sb slot lane h s s' → h ∈ media_headers s' config sb.
Proof. intros (_ & _ & Hin & Hc & _). apply elem_of_media_headers. eauto. Qed.

Lemma lane_set_latest config sb slot lane h s s' :
  lane_set config sb slot lane h s s' →
  (∀ h', h' ∈ media_headers s config sb → sh_chunk_id h' = sh_chunk_id h → rank h' < rank h) →
  foldl update_latest_header ∅ (media_headers s' config sb) !! sh_chunk_id h = Some h.
Proof.
  intros Hset Hmax. apply latest_max; [by eapply lane_set_in|].
  intros h' [-> | Hin]%(lane_set_headers _ _ _ _ _ _ _ _ Hset) Hid; [by left|]. right. by apply Hmax.
Qed.

(** Only the chunk written and the chunk whose header was overwritten are affected. *)
Lemma lane_set_other config sb slot lane h s s' c :
  lane_set config sb slot lane h s s' → c ≠ sh_chunk_id h →
  (∀ h', lane_content s config sb slot lane = LaneHeader h' → sh_chunk_id h' ≠ c) →
  foldl update_latest_header ∅ (media_headers s' config sb) !! c
  = foldl update_latest_header ∅ (media_headers s config sb) !! c.
Proof.
  intros (_ & _ & Hin & Hc & Hsame) Hne Hold. apply latest_same. intros slot' lane' Hin'.
  destruct (decide ((slot', lane') = (slot, lane))) as [[= -> ->]|Hd]; [right|left; by apply Hsame].
  rewrite Hc. split.
  - intros h' Hh'. apply Hold. destruct (lane_content s config sb slot lane); cbn in Hh'; congruence.
  - by intros h' [= <-].
Qed.

(** A chunk written under a generation above all the media holds for it is in the
    index a rebuild recovers, with the record just published; the entry of every chunk
    that had no header in the overwritten lane is unchanged. *)
Theorem rebuild_after_write s config sb slot sel c generation i payload durability s' r :
  media_inv s config sb → write_wf config slot sel c generation i →
  write_chunk_media_payload_with_file config sb slot sel c generation i payload durability s = (s', Ok r) →
  (∀ h, h ∈ media_headers s config sb → sh_chunk_id h = c → lr_generation (sh_record h) < generation) →
  ∃ rr rr' lane, rebuild_from_chunk_media s (mc_span config) = Ok rr ∧
    rebuild_from_chunk_media s' (mc_span config) = Ok rr' ∧
    target_lane (sb_layout sb) slot sel = Ok lane ∧
    rr_entries rr' !! c = Some r ∧
    ∀ c', c' ≠ c → (∀ h, lane_content s config sb slot lane = LaneHeader h → sh_chunk_id h ≠ c') →
      rr_entries rr' !! c' = rr_entries rr !! c'.
Proof.
  intros Hinv Hw Hok Hgen. apply write_payload_lane_set in Hok as (lane & Ht & _ & Hg & _ & Hset); [|done..].
  pose proof Hset as (_ & Hinv' & _).
  destruct (rebuild_entry s config sb Hinv) as (rr & E & Hent).
  destruct (rebuild_entry s' config sb Hinv') as (rr' & E' & Hent').
  exists rr, rr', lane. split_and!; [done..| |].
  - rewrite Hent'. change c with (sh_chunk_id (mkSlotHeader Live c r i)).
    rewrite (lane_set_latest _ _ _ _ _ _ _ Hset); [done|].
    intros h Hin Hid. specialize (Hgen h Hin Hid). unfold rank. cbn [sh_record sh_state]. rewrite Hg.
    repeat case_bool_decide; done || lia.
  - intros c' Hne Hold. rewrite Hent, Hent'. by rewrite (lane_set_other _ _ _ _ _ _ _ _ Hset).
Qed.

(** A tombstone always succeeds on a record of an opened span: its lane no longer
    reads, other lanes read as before, and if no header of the chunk has a higher
    generation a rebuild no longer finds the chunk. *)
Theorem tombstone_hides s config sb slot lane c r generation :
  media_inv s config sb → at_lane sb r slot lane → location_record_wf r → chunk_id_wf c →
  is_u32 generation →
  ∃ s', write_chunk_media_tombstone_with_file config sb c r generation s = (s', Ok tt) ∧
    media_inv s' config sb ∧
    (∀ c' r', at_lane sb r' slot lane →
       read_chunk_media_payload_with_file s' (mc_span config) c' r' = Err NotFound) ∧
    (∀ c' r' slot' lane', at_lane sb r' slot' lane' → (slot', lane') ≠ (slot, lane) →
       read_chunk_media_payload_with_file s' (mc_span config) c' r'
       = read_chunk_media_payload_with_file s (mc_span config) c' r') ∧
    ((∀ h, h ∈ media_headers s config sb → sh_chunk_id h = c →
        h = tombstone_header c r generation ∨ rank h < rank (tombstone_header c r generation)) →
     ∃ rr, rebuild_from_chunk_media s' (mc_span config) = Ok rr ∧ rr_entries rr !! c = None).
Proof.
  intros Hinv Hat Hr Hc Hg.
  destruct (write_tombstone_ok s config sb slot lane c r generation)
    as (s' & E & Hinv' & _ & Hread & Hsame); [done..|].
  destruct (tombstone_lane_set s config sb slot lane c r generation) as (s2 & E2 & Hset); [done..|].
  rewrite E in E2. injection E2 as <-. exists s'. split_and!; [done..| |].
  - intros c' r' slot' lane' Hat' Hne. eapply read_payload_same; [done..|]. apply Hsame; [apply Hat'|done].
  - intros Hmax. destruct (rebuild_entry s' config sb Hinv') as (rr & Err & Hent). exists rr. split; [done|].
    rewrite Hent. change c with (sh_chunk_id (tombstone_header c r generation)).
    rewrite latest_max; [done|by eapply lane_set_in|].
    intros h [-> | Hin]%(lane_set_headers _ _ _ _ _ _ _ _ Hset) Hid; [by left|]. by apply Hmax.
Qed.

(** ** A deleted chunk that comes back *)

Lemma next_lane_flip sb slot lane r :
  layout_fits (sb_layout sb) → is_u64 (lr_physical_offset r) → at_lane sb r slot lane →
  next_publication_lane (sb_layout sb) slot (Some r) = Ok ((lane + 1) mod 2).
Proof.
  intros Hfit Hu Hat. unfold next_publication_lane. rewrite (at_lane_address _ _ _ _ Hfit Hu Hat).
  rewrite result_bind_eq. cbn [sa_slot_index sa_publication_lane]. by rewrite Z.eqb_refl.
Qed.

(** The header left in the other lane survives a write and a tombstone. *)
Lemma lane_set_keeps config sb slot lane lane' h h' s s' :
  lane_set config sb slot lane h s s' → lane_in (sb_layout sb) slot lane' → lane' ≠ lane →
  lane_content s config sb slot lane' = LaneHeader h' →
  lane_content s' config sb slot lane' = LaneHeader h'.
Proof. intros (_ & _ & _ & _ & Hsame) Hin Hne Hc. rewrite Hsame; [done..|congruence]. Qed.

Lemma lane_set_elsewhere config sb slot lane h s s' slot' lane' :
  lane_set config sb slot lane h s s' → lane_in (sb_layout sb) slot' lane' → slot' ≠ slot →
  lane_content s' config sb slot' lane' = lane_content s config sb slot' lane'.
Proof. intros (_ & _ & _ & _ & Hsame) Hin Hne. apply Hsame; [done|congruence]. Qed.

(** A write against the current record goes to the other lane of its slot. *)
Lemma write_against_current s config sb slot c c' generation i payload d s' r cur lane :
  media_inv s config sb → write_wf config slot (AgainstCurrent cur) c generation i →
  match cur with
  | Some r0 => at_lane sb r0 slot lane ∧ location_record_wf r0
  | None => lane = 1
  end →
  write_chunk_media_payload_with_file config sb slot (AgainstCurrent cur) c generation i payload d s
    = (s', Ok r) →
  c' = c → at_lane sb r slot ((lane + 1) mod 2) ∧ location_record_wf r ∧
  lane_set config sb slot ((lane + 1) mod 2) (mkSlotHeader Live c' r i) s s'.
Proof.
  intros Hinv Hw Hcur Hok ->. apply write_payload_lane_set in Hok as (l & Ht & Hat & _ & Hr & Hset); [|done..].
  cbn [target_lane] in Ht. destruct cur as [r0|].
  - destruct Hcur as [Hat0 Hr0]. rewrite (next_lane_flip sb slot lane) in Ht; [|apply Hinv|apply Hr0|done].
    apply Ok_inj in Ht as <-. done.
  - subst lane. by injection Ht as <-.
Qed.

(** C36: Deletes are not durable against a rebuild: a chunk written three times to a slot
    and then deleted leaves its second version live in the other lane, guarded only by
    the tombstone. The next chunk published in the slot overwrites the tombstone, and a
    rebuild returns the deleted chunk, in the slot of the new one. *)
Theorem deleted_chunk_resurrected s0 s1 s2 s3 s4 s5 config sb slot x y i
    g1 g2 g3 g4 g5 p1 p2 p3 p5 d r1 r2 r3 r5 :
  media_inv s0 config sb → x ≠ y →
  (∀ h, h ∈ media_headers s0 config sb → sh_chunk_id h ≠ x) →
  Forall (fun g => is_u32 g) [g1; g2; g3; g4; g5] → is_u16 (mc_drive_id config) → is_u64 slot →
  chunk_id_wf x → chunk_id_wf y → identity_wf i →
  let write sel c g p := write_chunk_media_payload_with_file config sb slot sel c g i p d in
  write (AgainstCurrent None) x g1 p1 s0 = (s1, Ok r1) →
  write (AgainstCurrent (Some r1)) x g2 p2 s1 = (s2, Ok r2) →
  write (AgainstCurrent (Some r2)) x g3 p3 s2 = (s3, Ok r3) →
  write_chunk_media_tombstone_with_file config sb x r3 g4 s3 = (s4, Ok tt) →
  write (AgainstCurrent None) y g5 p5 s4 = (s5, Ok r5) →
  ∃ rr, rebuild_from_chunk_media s5 (mc_span config) = Ok rr ∧ rr_entries rr !! x = Some r2 ∧
    chunk_media_slot_index_for_record (sb_layout sb) r2
    = chunk_media_slot_index_for_record (sb_layout sb) r5.
Proof.
  intros Hinv Hxy Hfresh Hg Hd Hs Hx Hy Hi write W1 W2 W3 T4 W5. subst write. cbv beta in *.
  repeat (apply Forall_cons in Hg as [? Hg]).
  pose proof (mi_layout _ _ _ Hinv) as Hfit.
  eapply (write_against_current _ _ _ _ _ x _ _ _ _ _ _ _ 1) in W1 as (Hat1 & Hr1 & Hset1); [|done|by split_and!|done..].
  pose proof Hset1 as (_ & Hinv1 & _).
  eapply (write_against_current _ _ _ _ _ x) in W2 as (Hat2 & Hr2 & Hset2); [|done|by split_and!|done..].
  pose proof Hset2 as (_ & Hinv2 & Hin2 & Hc2 & _).
  eapply (write_against_current _ _ _ _ _ x) in W3 as (Hat3 & Hr3 & Hset3); [|done|by split_and!|done..].
  pose proof Hset3 as (_ & Hinv3 & _).
  destruct (tombstone_lane_set s3 config sb slot 0 x r3 g4) as (s4' & T4' & Hset4); [done..|].
  rewrite T4 in T4'. injection T4' as <-. pose proof Hset4 as (_ & Hinv4 & _).
  eapply (write_against_current _ _ _ _ _ y _ _ _ _ _ _ _ 1) in W5 as (Hat5 & Hr5 & Hset5); [|done|by split_and!|done..].
  pose proof Hset5 as (_ & Hinv5 & Hin5 & Hc5 & _).
  change (((1 + 1) mod 2 + 1) mod 2) with 1 in *. change ((1 + 1) mod 2) with 0 in *.
  apply (lane_set_keeps _ _ _ _ _ _ _ _ _ Hset3 Hin2) in Hc2; [|done].
  apply (lane_set_keeps _ _ _ _ _ _ _ _ _ Hset4 Hin2) in Hc2; [|done].
  apply (lane_set_keeps _ _ _ _ _ _ _ _ _ Hset5 Hin2) in Hc2; [|done].
  destruct (rebuild_entry s5 config sb Hinv5) as (rr & E & Hent). exists rr. split_and!; [done| |].
  - rewrite Hent. change x with (sh_chunk_id (mkSlotHeader Live x r2 i)).
    rewrite latest_max; [done|apply elem_of_media_headers; eauto|].
    intros h (slot' & lane' & Hin' & Hc')%elem_of_media_headers Hid. left. cbn in Hid.
    assert (slot' = slot ∧ lane' = 1 ∨ slot' = slot ∧ lane' = 0 ∨ slot' ≠ slot) as [[-> ->] | [[-> ->] | Hne]]
      by (destruct Hin'; lia); [congruence|rewrite Hc5 in Hc'; injection Hc' as <-; done|].
    exfalso. apply (Hfresh h); [|done]. apply elem_of_media_headers. exists slot', lane'. split; [done|].
    rewrite <-Hc'. symmetry.
    rewrite (lane_set_elsewhere _ _ _ _ _ _ _ _ _ Hset5 Hin' Hne), (lane_set_elsewhere _ _ _ _ _ _ _ _ _ Hset4 Hin' Hne),
      (lane_set_elsewhere _ _ _ _ _ _ _ _ _ Hset3 Hin' Hne), (lane_set_elsewhere _ _ _ _ _ _ _ _ _ Hset2 Hin' Hne).
    apply (lane_set_elsewhere _ _ _ _ _ _ _ _ _ Hset1 Hin' Hne).
  - unfold chunk_media_slot_index_for_record.
    rewrite (at_lane_address _ _ _ _ Hfit (proj1 (proj2 Hr2)) Hat2).
    by rewrite (at_lane_address _ _ _ _ Hfit (proj1 (proj2 Hr5)) Hat5).
Qed.

End rebuild.
