(* ===== verification/ChunkMediaExamples.v ===== *)
(** Concrete instances of the chunk-media theorems: a span of one slot in a zeroed file,
    opened, written, deleted and rebuilt with the bitwise CRC-32. *)
From S2P Require Import Prelude Bytes Device KixTypes ChunkMedia ChunkMediaGeo ChunkMediaIO ChunkMediaState ChunkMediaRebuild.

Local Existing Instance crc32_software.
Opaque zeroed splice slice.

Definition cm_layout : ChunkMediaLayoutSpec := mkLayout ExtentOnly 4096 4096 1.
Definition cm_config : ChunkMediaWriteConfig := mkWriteConfig 7 (mkSpan 0 None) cm_layout.
Definition cm_store : Store := mkStore (zeroed 20480) false [].
Definition cm_sb : ChunkMediaSuperblock := mkSuperblock CHUNK_MEDIA_VERSION cm_layout 20480.
Definition cm_chunk (b : byte) : ChunkId := replicate 32 b.

Lemma cm_layout_fits : layout_fits cm_layout.
Proof. split_and!; done. Qed.

Lemma cm_size : len (st_bytes cm_store) = 20480.
Proof. by apply len_zeroed. Qed.

Lemma cm_config_wf : media_config_wf cm_store cm_config.
Proof. split_and!; [apply cm_layout_fits|done..|by rewrite cm_size]. Qed.

Lemma cm_resolve : resolve_effective_span_bytes cm_store 0 None = Ok 20480.
Proof. unfold resolve_effective_span_bytes, storage_capacity_bytes. by rewrite cm_size. Qed.

Lemma zero_superblock : decode_superblock (zeroed 4096) = None.
Proof.
  unfold decode_superblock. rewrite len_zeroed by lia.
  change (4096 <? CHUNK_MEDIA_SUPERBLOCK_BYTES) with false. cbv iota. rewrite (slice_zeroed 0 8) by lia.
  cbn [mbind option_bind]. rewrite bool_decide_eq_false_2; [done|]. Transparent zeroed. discriminate.
Qed.

Lemma cm_opens : ∃ s, ensure_chunk_media_superblock cm_config cm_store = (s, Ok cm_sb).
Proof.
  unfold ensure_chunk_media_superblock. cbn [mc_layout mc_span cm_config span_offset_bytes span_len_bytes].
  rewrite (M_bind_run _ _ cm_store cm_store tt) by done.
  rewrite (M_bind_run _ _ cm_store cm_store cm_store) by done. rewrite cm_resolve.
  rewrite (M_bind_run _ _ cm_store cm_store 20480) by done.
  rewrite (M_bind_run _ _ cm_store cm_store 20480) by done. cbn [Z.ltb Z.compare Pos.compare Pos.compare_cont].
  unfold direct_read_exact, store_read. cbn [st_bytes cm_store]. rewrite slice_zeroed by done.
  rewrite (M_bind_run _ _ cm_store cm_store (zeroed 4096)) by done. rewrite zero_superblock.
  rewrite encode_superblock_eq by by apply len_zeroed.
  rewrite (M_bind_run _ _ cm_store cm_store (superblock_block cm_sb)) by done.
  unfold direct_write_exact. eexists.
  rewrite (M_bind_run _ _ cm_store (store_update cm_store (splice 0 (superblock_block cm_sb) (zeroed 20480))) tt).
  2: { rewrite store_write_in; [done|]. by rewrite len_superblock_block, cm_size. }
  rewrite (M_bind_run direct_fdatasync _ _ _ tt eq_refl). done.
Qed.

Lemma zero_block_zeroed n : is_zero_block (zeroed n) = true.
Proof.
  Transparent zeroed. unfold is_zero_block, zeroed. Opaque zeroed.
  induction (Z.to_nat n) as [|k IH]; [done|]. cbn [replicate forallb]. by rewrite IH.
Qed.

(** The opened span holds no header. *)
Lemma cm_opened :
  ∃ s, media_inv s cm_config cm_sb ∧ ∀ h, h ∉ media_headers s cm_config cm_sb.
Proof.
  destruct cm_opens as [s Hok].
  apply ensure_inv in Hok as [Hinv Hframe]; [|apply cm_config_wf]. exists s. split; [done|].
  intros h (slot & lane & Hin & Hc)%elem_of_media_headers.
  pose proof (media_lane _ _ _ _ _ Hinv Hin) as (Hb & Hhi & Hlen & _).
  assert (lane_end cm_layout slot lane ≤ 20480) as Hend
    by (apply (lane_end_max cm_layout slot lane); [apply cm_layout_fits|done]).
  unfold lane_content in Hc.
  rewrite (Hframe (lane_lo cm_config cm_sb slot lane) 4096) in Hc.
  - change (st_bytes cm_store) with (zeroed 20480) in Hc.
    rewrite slice_zeroed in Hc; [|unfold lane_lo in *; cbn in *; lia..|].
    + cbn [from_option id] in Hc. by rewrite zero_block_zeroed in Hc.
    + pose proof (lane_end_gt cm_layout slot lane (proj1 cm_layout_fits)). unfold lane_lo. cbn in *. lia.
  - unfold lane_lo. cbn in *. lia.
  - lia.
  - right. unfold lane_lo. cbn in *. lia.
Qed.

Definition cm_payload : list byte := [x01; x02; x03].

Lemma cm_lane lane : 0 ≤ lane < 2 → lane_in (sb_layout cm_sb) 0 lane.
Proof. intros. split; [done|lia]. Qed.

Lemma cm_write_wf sel b g : selector_wf sel → is_u32 g → write_wf cm_config 0 sel (cm_chunk b) g default_identity.
Proof. intros. by split_and!. Qed.

Lemma cm_u32 : Forall (fun g => is_u32 g) [1; 2; 3; 4; 1].
Proof. repeat constructor; by vm_compute. Qed.

Lemma cm_small : is_u16 (mc_drive_id cm_config) ∧ is_u64 0 ∧ identity_wf default_identity ∧ is_u32 1 ∧ is_u32 2 ∧ is_u32 3 ∧ is_u32 4.
Proof. split_and!; by vm_compute. Qed.

Lemma cm_chunk_wf b : chunk_id_wf (cm_chunk b).
Proof. reflexivity. Qed.

(** A write against the current record in the only slot always succeeds. *)
Lemma cm_write s cur lane b g :
  media_inv s cm_config cm_sb → target_lane cm_layout 0 (AgainstCurrent cur) = Ok lane → 0 ≤ lane < 2 →
  is_u32 g →
  ∃ s' r, write_chunk_media_payload_with_file cm_config cm_sb 0 (AgainstCurrent cur) (cm_chunk b) g
            default_identity cm_payload Barrier s = (s', Ok r) ∧
    media_inv s' cm_config cm_sb ∧ at_lane cm_sb r 0 lane ∧ location_record_wf r.
Proof.
  intros Hinv Ht Hl Hg.
  destruct (write_payload_wrote s cm_config cm_sb 0 (AgainstCurrent cur) lane (cm_chunk b) g
    default_identity cm_payload Barrier Hinv (cm_write_wf (AgainstCurrent cur) b g I Hg) Ht (cm_lane lane Hl))
    as (s' & E & Hwr); [done|].
  eexists s', _. split; [exact E|]. split; [apply Hwr|]. split.
  - apply payload_at_lane; [by apply cm_lane|done].
  - eapply (payload_header_wf s cm_config cm_sb 0 lane (AgainstCurrent cur) (cm_chunk b) g default_identity);
      [done|by apply cm_write_wf|by apply cm_lane|done].
Qed.

Lemma slot_address_for_record_iff_witness :
  slot_address_for_record (mkLayout Mixed 8192 4096 5) (mkLocationRecord 7 PackedContainer 73728 100 4096 1 0)
  = Ok (mkAddress 3 0).
Proof.
  apply slot_address_for_record_iff; [by split_and!|done|]. split; [by split|].
  eexists. split; [reflexivity|]. by split.
Defined.

Lemma slot_geometry_disjoint_witness :
  ∃ g g' span, slot_geometry (mkLayout Mixed 8192 4096 5) 2 1 = Ok g ∧
    slot_geometry (mkLayout Mixed 8192 4096 5) 3 0 = Ok g' ∧
    planned_chunk_media_span_bytes (mkLayout Mixed 8192 4096 5) = Ok span.
Proof.
  destruct (slot_geometry_disjoint (mkLayout Mixed 8192 4096 5) 2 1 3 0) as (g & g' & span & ? & ? & ? & _);
    [by split_and!|by split|by split|].
  by exists g, g', span.
Defined.

Lemma ensure_superblock_opens_witness :
  ∃ s, ensure_chunk_media_superblock cm_config cm_store = (s, Ok cm_sb) ∧
    ensure_chunk_media_superblock cm_config s = (s, Ok cm_sb).
Proof.
  destruct cm_opens as [s E]. exists s. split; [done|].
  destruct (ensure_superblock_opens cm_store cm_config s cm_sb cm_config_wf E) as (_ & E2 & _). done.
Defined.

Lemma write_payload_reads_back_witness :
  ∃ s s' r, media_inv s cm_config cm_sb ∧
    write_chunk_media_payload_with_file cm_config cm_sb 0 (Explicit 1) (cm_chunk x05) 9 default_identity
      cm_payload Deferred s = (s', Ok r) ∧
    read_chunk_media_payload_with_file s' (mc_span cm_config) (cm_chunk x05) r = Ok cm_payload.
Proof.
  destruct cm_opened as (s & Hinv & _).
  destruct (write_payload_wrote s cm_config cm_sb 0 (Explicit 1) 1 (cm_chunk x05) 9 default_identity cm_payload
    Deferred Hinv (cm_write_wf (Explicit 1) x05 9 ltac:(done) ltac:(done)) eq_refl (cm_lane 1 ltac:(lia))) as (s' & E & _); [done|].
  pose proof (write_payload_reads_back s cm_config cm_sb 0 (Explicit 1) (cm_chunk x05) 9 default_identity
    cm_payload Deferred Hinv (cm_write_wf (Explicit 1) x05 9 ltac:(done) ltac:(done))) as Hrb.
  rewrite E in Hrb. destruct Hrb as (_ & Hread & _). eexists s, s', _. split; [done|]. split; [exact E|exact Hread].
Defined.

Lemma write_payload_succeeds_witness :
  ∃ s s' r, media_inv s cm_config cm_sb ∧
    write_chunk_media_payload_with_file cm_config cm_sb 0 (Explicit 1) (cm_chunk x05) 9 default_identity
      cm_payload Deferred s = (s', Ok r).
Proof.
  destruct cm_opened as (s & Hinv & _).
  destruct (write_payload_succeeds s cm_config cm_sb 0 (Explicit 1) 1 (cm_chunk x05) 9 default_identity cm_payload
    Deferred Hinv (cm_write_wf (Explicit 1) x05 9 ltac:(done) ltac:(done)) eq_refl (cm_lane 1 ltac:(lia))) as (s' & r & E); [done|].
  exists s, s', r. split; assumption.
Defined.

Lemma rebuild_latest_witness :
  ∃ s rr, media_inv s cm_config cm_sb ∧ rebuild_from_chunk_media s (mc_span cm_config) = Ok rr.
Proof.
  destruct cm_opened as (s & Hinv & _).
  destruct (rebuild_latest s cm_config cm_sb Hinv) as (rr & E & _). by exists s, rr.
Defined.

Lemma rebuild_after_write_witness :
  ∃ s rr r, rebuild_from_chunk_media s (mc_span cm_config) = Ok rr ∧ rr_entries rr !! cm_chunk x05 = Some r.
Proof.
  destruct cm_opened as (s & Hinv & Hnone).
  destruct (cm_write s None 0 x05 9 Hinv eq_refl ltac:(lia) ltac:(done)) as (s' & r & E & _).
  destruct (rebuild_after_write s cm_config cm_sb 0 (AgainstCurrent None) (cm_chunk x05) 9 default_identity cm_payload
    Barrier s' r Hinv (cm_write_wf (AgainstCurrent None) x05 9 I ltac:(done)) E) as (rr & rr' & lane & _ & Erb & _ & Hent & _).
  { intros h Hh. by destruct (Hnone h). }
  exists s', rr', r. split; assumption.
Defined.

Lemma tombstone_hides_witness :
  ∃ s r s', media_inv s cm_config cm_sb ∧
    write_chunk_media_tombstone_with_file cm_config cm_sb (cm_chunk x05) r 10 s = (s', Ok tt) ∧
    read_chunk_media_payload_with_file s' (mc_span cm_config) (cm_chunk x05) r = Err NotFound.
Proof.
  destruct cm_opened as (s & Hinv & Hnone).
  destruct (cm_write s None 0 x05 9 Hinv eq_refl ltac:(lia) ltac:(done)) as (s' & r & E & Hinv' & Hat & Hr).
  destruct (tombstone_hides s' cm_config cm_sb 0 0 (cm_chunk x05) r 10 Hinv' Hat Hr ltac:(done) ltac:(done))
    as (s'' & Et & _ & Hread & _).
  exists s', r, s''. split; [done|]. split; [done|]. by apply Hread.
Defined.

Lemma deleted_chunk_resurrected_witness :
  ∃ s rr r, rebuild_from_chunk_media s (mc_span cm_config) = Ok rr ∧ rr_entries rr !! cm_chunk x05 = Some r.
Proof.
  destruct cm_opened as (s0 & Hinv0 & Hnone). destruct cm_small as (U16 & U64 & Hid & G1 & G2 & G3 & G4).
  destruct (cm_write s0 None 0 x05 1 Hinv0 eq_refl ltac:(lia) G1) as (s1 & r1 & E1 & Hinv1 & Hat1 & Hr1).
  destruct (cm_write s1 (Some r1) 1 x05 2 Hinv1) as (s2 & r2 & E2 & Hinv2 & Hat2 & Hr2);
    [exact (next_lane_flip cm_sb 0 0 r1 cm_layout_fits ltac:(apply Hr1) Hat1)|lia|exact G2|].
  destruct (cm_write s2 (Some r2) 0 x05 3 Hinv2) as (s3 & r3 & E3 & Hinv3 & Hat3 & Hr3);
    [exact (next_lane_flip cm_sb 0 1 r2 cm_layout_fits ltac:(apply Hr2) Hat2)|lia|exact G3|].
  destruct (tombstone_lane_set s3 cm_config cm_sb 0 0 (cm_chunk x05) r3 4 Hinv3 Hat3 Hr3 (cm_chunk_wf x05) G4)
    as (s4 & E4 & _ & Hinv4 & _).
  destruct (cm_write s4 None 0 x06 1 Hinv4 eq_refl ltac:(lia) G1) as (s5 & r5 & E5 & _).
  destruct (deleted_chunk_resurrected s0 s1 s2 s3 s4 s5 cm_config cm_sb 0 (cm_chunk x05) (cm_chunk x06)
    default_identity 1 2 3 4 1 cm_payload cm_payload cm_payload cm_payload Barrier r1 r2 r3 r5
    Hinv0 ltac:(done)) as (rr & E & Hent & _);
    [intros h Hh; by destruct (Hnone h)|exact cm_u32|exact U16|exact U64|apply cm_chunk_wf|apply cm_chunk_wf|exact Hid|exact E1|exact E2|exact E3|exact E4|exact E5|].
  exists s5, rr, r2. split; [exact E|exact Hent].
Defined.
