(* ===== verification/WorkQueue.v ===== *)
(** The queues of the KIX workers (WorkQueue in poc/kix/crates/kix/src/engine/runtime.rs):
    senders, one receiver and a closing thread as interleaved steps over the shared
    queue, the alive flag and the condition variable. A step is one access to shared
    state, in the order of the code. *)
From S2P Require Import Prelude.

Section workqueue.
Context {T : Type}.

Inductive WorkerMode : Set :=
| Interrupt
| BusyPoll.

(** Where the receiver is in [recv_with_mode]. [RxIsEmpty] and [RxIsAlive] are the two
    loads of the wait loop's condition, made with the wait lock held. *)
Inductive RxPc : Set :=
| RxPop
| RxAlive
| RxIsEmpty
| RxIsAlive
| RxWaiting
| RxReturnedNone.

(** Where another thread is: in [send], in [close], or returned. *)
Inductive TxPc : Type :=
| TxAlive (item : T)
| TxPush (item : T)
| TxNotify (item : T)
| TxSent (item : T)
| TxChannelClosed (item : T)
| ClStore
| ClNotifyAll
| ClDone.

(** [wq_pushed] and [wq_received] record the pushes and the pops of the whole run. *)
Record WorkQueue := mkWorkQueue {
  wq_queue : list T;
  wq_alive : bool;
  wq_rx : RxPc;
  wq_threads : list TxPc;
  wq_pushed : list T;
  wq_received : list T;
}.

Definition with_capacity (threads : list TxPc) : WorkQueue := mkWorkQueue [] true RxPop threads [] [].

(** One step of the receiver; a received item is handed to the worker, which calls again.
    A thread that waits on the condition variable has no step of its own. *)
Definition rx_step (mode : WorkerMode) (s : WorkQueue) : option WorkQueue :=
  let 'mkWorkQueue queue alive rx threads pushed received := s in
  match rx with
  | RxPop =>
      match queue with
      | item :: queue' => Some (mkWorkQueue queue' alive RxPop threads pushed (received ++ [item]))
      | [] => Some (mkWorkQueue queue alive RxAlive threads pushed received)
      end
  | RxAlive =>
      let next := if alive then match mode with Interrupt => RxIsEmpty | BusyPoll => RxPop end
                  else RxReturnedNone in
      Some (mkWorkQueue queue alive next threads pushed received)
  | RxIsEmpty =>
      Some (mkWorkQueue queue alive (match queue with [] => RxIsAlive | _ => RxPop end) threads pushed received)
  | RxIsAlive =>
      Some (mkWorkQueue queue alive (if alive then RxWaiting else RxPop) threads pushed received)
  | RxWaiting | RxReturnedNone => None
  end.

(** A notification wakes the receiver when it waits, and is lost when it does not. *)
Definition notify (rx : RxPc) : RxPc :=
  match rx with
  | RxWaiting => RxIsEmpty
  | _ => rx
  end.

(** One step of another thread: [send] retries while the queue is full. *)
Definition tx_step (capacity : nat) (i : nat) (s : WorkQueue) : option WorkQueue :=
  let 'mkWorkQueue queue alive rx threads pushed received := s in
  match threads !! i with
  | Some (TxAlive item) =>
      Some (mkWorkQueue queue alive rx
              (<[i := if alive then TxPush item else TxChannelClosed item]> threads) pushed received)
  | Some (TxPush item) =>
      if decide (length queue < Nat.max capacity 1)%nat
      then Some (mkWorkQueue (queue ++ [item]) alive rx (<[i := TxNotify item]> threads) (pushed ++ [item]) received)
      else Some (mkWorkQueue queue alive rx (<[i := TxAlive item]> threads) pushed received)
  | Some (TxNotify item) =>
      Some (mkWorkQueue queue alive (notify rx) (<[i := TxSent item]> threads) pushed received)
  | Some ClStore => Some (mkWorkQueue queue false rx (<[i := ClNotifyAll]> threads) pushed received)
  | Some ClNotifyAll => Some (mkWorkQueue queue alive (notify rx) (<[i := ClDone]> threads) pushed received)
  | _ => None
  end.

Inductive wq_step (capacity : nat) (mode : WorkerMode) : WorkQueue → WorkQueue → Prop :=
| step_rx s s' : rx_step mode s = Some s' → wq_step capacity mode s s'
| step_tx i s s' : tx_step capacity i s = Some s' → wq_step capacity mode s s'.

(** ** Delivery *)

(** The items whose push has succeeded. *)
Definition pushed_item (t : TxPc) : option T :=
  match t with
  | TxNotify item | TxSent item => Some item
  | _ => None
  end.

(** A receiver that never waits. *)
Definition rx_polls (rx : RxPc) : Prop :=
  match rx with
  | RxPop | RxAlive | RxReturnedNone => True
  | _ => False
  end.

Record wq_inv (capacity : nat) (mode : WorkerMode) (s : WorkQueue) : Prop := {
  wqi_fifo : wq_pushed s = wq_received s ++ wq_queue s;
  wqi_bound : (length (wq_queue s) ≤ Nat.max capacity 1)%nat;
  wqi_pushed : wq_pushed s ≡ₚ omap pushed_item (wq_threads s);
  wqi_none : wq_rx s = RxReturnedNone → wq_alive s = false;
  wqi_polls : mode = BusyPoll → rx_polls (wq_rx s);
}.

Lemma omap_insert_same (ts : list TxPc) (i : nat) t t' :
  ts !! i = Some t → pushed_item t' = pushed_item t →
  omap pushed_item (<[i := t']> ts) = omap pushed_item ts.
Proof.
  revert i. induction ts as [|u ts IH]; intros [|i] Hi Ht; cbn in *; simplify_eq; [by rewrite Ht|].
  destruct (pushed_item u); [f_equal|]; apply (IH i Hi Ht).
Qed.

Lemma omap_insert_push (ts : list TxPc) (i : nat) item :
  ts !! i = Some (TxPush item) →
  omap pushed_item (<[i := TxNotify item]> ts) ≡ₚ omap pushed_item ts ++ [item].
Proof.
  revert i. induction ts as [|u ts IH]; intros [|i] Hi; cbn in *; simplify_eq.
  - cbn. by rewrite Permutation_app_comm.
  - destruct (pushed_item u); [apply Permutation_skip|]; apply (IH i Hi).
Qed.

Lemma notify_none rx : notify rx = RxReturnedNone → rx = RxReturnedNone.
Proof. by destruct rx. Qed.

Lemma notify_polls mode rx :
  (mode = BusyPoll → rx_polls rx) → mode = BusyPoll → rx_polls (notify rx).
Proof. intros Hrx Hm. specialize (Hrx Hm). by destruct rx. Qed.

Lemma rx_step_inv capacity mode s s' :
  wq_inv capacity mode s → rx_step mode s = Some s' → wq_inv capacity mode s'.
Proof.
  intros [Hf Hb Hp Hn Hm] Hs. destruct s as [queue alive rx threads pushed received].
  cbn [wq_queue wq_alive wq_rx wq_threads wq_pushed wq_received] in *. unfold rx_step in Hs.
  destruct rx; try discriminate; [destruct queue|destruct alive, mode|destruct queue|destruct alive];
    simplify_eq; constructor; cbn in *; try done; try lia.
  by rewrite <-app_assoc.
Qed.

Lemma tx_step_inv capacity mode i s s' :
  wq_inv capacity mode s → tx_step capacity i s = Some s' → wq_inv capacity mode s'.
Proof.
  intros [Hf Hb Hp Hn Hm] Hs. destruct s as [queue alive rx threads pushed received].
  cbn [wq_queue wq_alive wq_rx wq_threads wq_pushed wq_received] in *. unfold tx_step in Hs.
  destruct (threads !! i) as [t|] eqn:Ei; [|done].
  destruct t as [item|item|item|item|item| | |]; try discriminate; [|case_decide| | |]; simplify_eq;
    constructor; cbn [wq_queue wq_alive wq_rx wq_threads wq_pushed wq_received];
    try done; try (by intros ?%notify_none; auto); try (by apply notify_polls);
    try (by rewrite (omap_insert_same _ _ _ _ Ei) by (by try destruct alive)).
  - by rewrite app_assoc.
  - rewrite length_app. cbn [length]. lia.
  - by rewrite (omap_insert_push _ _ _ Ei), Hp.
Qed.

Lemma wq_run_inv capacity mode s s' :
  rtc (wq_step capacity mode) s s' → wq_inv capacity mode s → wq_inv capacity mode s'.
Proof.
  induction 1 as [|s1 s2 s3 [? ? Hs|? ? ? Hs] _ IH]; intros Hinv; [done|..]; apply IH.
  - by eapply rx_step_inv.
  - by eapply tx_step_inv.
Qed.

(** A thread at the start of a call of [send] or [close]. *)
Definition calling (t : TxPc) : Prop :=
  match t with
  | TxAlive _ | ClStore => True
  | _ => False
  end.

Lemma wq_inv_init capacity mode threads :
  Forall calling threads → wq_inv capacity mode (with_capacity threads).
Proof.
  intros Hc. constructor; cbn; try done; [lia|].
  induction Hc as [|t ts Ht _ IH]; [done|]. by destruct t.
Qed.

(** C22: The worker queue is first in, first out, and bounded. However senders, receiver and
    a closing thread are interleaved, the items received followed by the items still queued
    are the items pushed, in push order, and these are exactly the items of the sends that
    got past their push: none is lost from the queue, none is received twice, none is made
    up. The queue stays within its capacity. The receiver gives up only after the queue was
    closed; what is queued then stays there. While the queue is open a polling receiver is
    never blocked, and takes the head of a non-empty queue within two of its own steps. *)
Theorem work_queue_fifo capacity mode threads s :
  Forall calling threads → rtc (wq_step capacity mode) (with_capacity threads) s →
  wq_pushed s = wq_received s ++ wq_queue s ∧
  wq_pushed s ≡ₚ omap pushed_item (wq_threads s) ∧
  (length (wq_queue s) ≤ Nat.max capacity 1)%nat ∧
  (wq_rx s = RxReturnedNone → wq_alive s = false ∧ rx_step mode s = None) ∧
  (mode = BusyPoll → wq_alive s = true →
   ∃ s1, rx_step mode s = Some s1 ∧
     (∀ item rest, wq_queue s = item :: rest →
        wq_received s1 = wq_received s ++ [item] ∨
        ∃ s2, rx_step mode s1 = Some s2 ∧ wq_received s2 = wq_received s ++ [item])).
Proof.
  intros Hc Hrun. destruct (wq_run_inv _ _ _ _ Hrun (wq_inv_init capacity mode threads Hc)) as [Hf Hb Hp Hn Hm].
  split_and!; [done..| |].
  { intros Hrx. split; [by apply Hn|]. destruct s. cbn in *. by subst. }
  intros Hmode Halive. specialize (Hm Hmode).
  destruct s as [queue alive rx ts pushed received]. cbn in *. subst mode alive.
  destruct rx; try done.
  - destruct queue as [|item' queue]; eexists; (split; [done|]); intros item rest Hq; simplify_eq. by left.
  - eexists. split; [done|]. intros item rest ->. right. eexists. by split.
  - by specialize (Hn eq_refl).
Qed.

(** C37: An interrupt-driven worker can miss its wake-up. [send] notifies without taking the
    wait lock, so its push and its notification can fall between the receiver's check
    that the queue is empty and its wait: the send has returned, the item is in the
    queue, the receiver waits, and no thread has a step left. *)
Theorem interrupt_worker_misses_wakeup capacity item :
  ∃ s, rtc (wq_step capacity Interrupt) (with_capacity [TxAlive item]) s ∧
    wq_threads s = [TxSent item] ∧ wq_queue s = [item] ∧ wq_rx s = RxWaiting ∧ wq_received s = [] ∧
    ∀ s', ¬ wq_step capacity Interrupt s s'.
Proof.
  exists (mkWorkQueue [item] true RxWaiting [TxSent item] [item] []). split_and!; [|done..|].
  - apply (rtc_l _ _ (mkWorkQueue [] true RxAlive [TxAlive item] [] [])); [by apply step_rx|].
    apply (rtc_l _ _ (mkWorkQueue [] true RxIsEmpty [TxAlive item] [] [])); [by apply step_rx|].
    apply (rtc_l _ _ (mkWorkQueue [] true RxIsAlive [TxAlive item] [] [])); [by apply step_rx|].
    apply (rtc_l _ _ (mkWorkQueue [] true RxIsAlive [TxPush item] [] [])); [by apply (step_tx _ _ 0)|].
    apply (rtc_l _ _ (mkWorkQueue [item] true RxIsAlive [TxNotify item] [item] [])).
    { apply (step_tx _ _ 0). cbn. by rewrite decide_True by lia. }
    apply (rtc_l _ _ (mkWorkQueue [item] true RxIsAlive [TxSent item] [item] [])); [by apply (step_tx _ _ 0)|].
    apply rtc_once. by apply step_rx.
  - intros s' Hstep. inversion Hstep as [? ? Hs|i ? ? Hs]; subst; [done|]. by destruct i as [|i].
Qed.

(** A close between the receiver's last pop and its test of the flag leaves an item behind:
    the send has returned, the item is in the queue, and the receiver has given up. *)
Lemma close_strands_item capacity mode item :
  rtc (wq_step capacity mode) (with_capacity [TxAlive item; ClStore])
    (mkWorkQueue [item] false RxReturnedNone [TxSent item; ClNotifyAll] [item] []).
Proof.
  apply (rtc_l _ _ (mkWorkQueue [] true RxAlive [TxAlive item; ClStore] [] [])); [by apply step_rx|].
  apply (rtc_l _ _ (mkWorkQueue [] true RxAlive [TxPush item; ClStore] [] [])); [by apply (step_tx _ _ 0)|].
  apply (rtc_l _ _ (mkWorkQueue [item] true RxAlive [TxNotify item; ClStore] [item] [])).
  { apply (step_tx _ _ 0). cbn. by rewrite decide_True by lia. }
  apply (rtc_l _ _ (mkWorkQueue [item] true RxAlive [TxSent item; ClStore] [item] [])); [by apply (step_tx _ _ 0)|].
  apply (rtc_l _ _ (mkWorkQueue [item] false RxAlive [TxSent item; ClNotifyAll] [item] [])); [by apply (step_tx _ _ 1)|].
  apply rtc_once. by apply step_rx.
Qed.

End workqueue.

Arguments TxPc : clear implicits.
Arguments WorkQueue : clear implicits.

Lemma work_queue_fifo_witness :
  ∃ s : WorkQueue Z, rtc (wq_step 1 BusyPoll) (with_capacity [TxAlive 5; TxAlive 6; ClStore]) s ∧
    wq_received s = [5] ∧ wq_queue s = [6] ∧ wq_pushed s = wq_received s ++ wq_queue s ∧
    wq_pushed s ≡ₚ omap pushed_item (wq_threads s).
Proof.
  exists (mkWorkQueue [6] true RxPop [TxNotify 5; TxNotify 6; ClStore] [5; 6] [5]).
  assert (rtc (wq_step 1 BusyPoll) (with_capacity [TxAlive 5; TxAlive 6; ClStore])
    (mkWorkQueue [6] true RxPop [TxNotify 5; TxNotify 6; ClStore] [5; 6] [5])) as Hrun.
  { apply (rtc_l _ _ (mkWorkQueue [] true RxPop [TxPush 5; TxAlive 6; ClStore] [] [])); [by apply (step_tx _ _ 0)|].
    apply (rtc_l _ _ (mkWorkQueue [] true RxPop [TxPush 5; TxPush 6; ClStore] [] [])); [by apply (step_tx _ _ 1)|].
    apply (rtc_l _ _ (mkWorkQueue [5] true RxPop [TxNotify 5; TxPush 6; ClStore] [5] [])); [by apply (step_tx _ _ 0)|].
    apply (rtc_l _ _ (mkWorkQueue [] true RxPop [TxNotify 5; TxPush 6; ClStore] [5] [5])); [by apply step_rx|].
    apply rtc_once. by apply (step_tx _ _ 1). }
  destruct (work_queue_fifo 1 BusyPoll [TxAlive 5; TxAlive 6; ClStore] _ ltac:(by repeat constructor) Hrun) as (H1 & H2 & _).
  split; [exact Hrun|]. split; [reflexivity|]. split; [reflexivity|]. split; [exact H1|exact H2].
Defined.
