(* ===== verification/Engine.v ===== *)
(** The KIX engine (poc/kix/crates/kix/src/engine.rs, engine/runtime.rs): the sharded live
    index, the granule inverse, the drive appender that batches deltas, and the client
    operations that log first and then update memory.

    The engine sees a drive's arena through the class [DeltaLog]: appending and
    checkpointing, and the index a recovery would return. *)
From stdpp Require Import sorting.
From S2P Require Import Prelude Bytes Device KixTypes Arena ArenaCodec ArenaInv ArenaOps.

(** ** What an arena promises to the engine *)

Class DeltaLog (A : Type) := {
  dl_append : list DeltaEntry → M A io_error_kind unit;
  dl_checkpoint : list (ChunkId * LocationRecord) → M A io_error_kind unit;
  (** The log configured by [cfg] is intact and recovering it returns the index [m]. *)
  dl_holds : DriveConfig → A → IndexMap → Prop;
  dl_append_spec : ∀ cfg a m ds a' r,
    dl_holds cfg a m → op_wf (OpDeltas ds) → dl_append ds a = (a', r) →
    (r = Ok tt ∧ dl_holds cfg a' (foldl apply_delta m ds)) ∨ (is_Ok r = false ∧ dl_holds cfg a' m);
  dl_checkpoint_spec : ∀ cfg a m es a' r,
    dl_holds cfg a m → op_wf (OpCheckpoint es) → dl_checkpoint es a = (a', r) →
    (r = Ok tt ∧ dl_holds cfg a' (insert_all es)) ∨ (is_Ok r = false ∧ dl_holds cfg a' m);
}.

#[export] Program Instance arena_delta_log `{Crc32} : DeltaLog DriveArena := {
  dl_append := append_delta_batch;
  dl_checkpoint := write_checkpoint;
  dl_holds cfg a m := ∃ n, arena_inv cfg a m n;
}.
Next Obligation.
  intros ? cfg a m ds a' r (n & I) Hwf Hr.
  destruct (run_op_inv cfg a m n (OpDeltas ds) a' r I Hwf Hr) as [[-> ?]|[? ?]]; [left|right]; eauto.
Qed.
Next Obligation.
  intros ? cfg a m es a' r (n & I) Hwf Hr.
  destruct (run_op_inv cfg a m n (OpCheckpoint es) a' r I Hwf Hr) as [[-> ?]|[? ?]]; [left|right]; eauto.
Qed.

(** ** The drive appender *)

Definition DRIVE_APPEND_BATCH_LIMIT : nat := 128.
Definition DRIVE_APPEND_COALESCE_SPINS : nat := 256.

Inductive DriveRequest : Type :=
| ReqAppend (delta : DeltaEntry)
| ReqCheckpoint (entries : list (ChunkId * LocationRecord))
| ReqStop.

(** What the worker's polls of its queue return, in order: a request, or [None] when the
    queue is empty at that moment. After the last poll of the list nothing arrives. *)
Abbreviation polls := (list (option DriveRequest)).

(** The collection of a batch: [spinning] is the number of empty polls since the queue
    ran dry, [None] outside the spin loop. A request that is not an append is put aside;
    the spin loop then returns to polling. *)
Fixpoint collect (spinning : option nat) (deltas : list DeltaEntry) (deferred : option DriveRequest)
    (ps : polls) : list DeltaEntry * option DriveRequest * polls :=
  match ps with
  | [] => (deltas, deferred, [])
  | p :: ps' =>
      if decide (DRIVE_APPEND_BATCH_LIMIT ≤ length deltas)%nat then (deltas, deferred, ps)
      else
        match spinning, p with
        | _, Some (ReqAppend delta) => collect None (deltas ++ [delta]) deferred ps'
        | None, Some other => (deltas, Some other, ps')
        | None, None => collect (Some 0%nat) deltas deferred ps'
        | Some _, Some other => collect None deltas (Some other) ps'
        | Some spins, None =>
            if decide (S spins < DRIVE_APPEND_COALESCE_SPINS)%nat
            then collect (Some (S spins)) deltas deferred ps'
            else (deltas, deferred, ps')
        end
  end.

(** The blocking receive: polls until a request comes. *)
Fixpoint recv (ps : polls) : option (DriveRequest * polls) :=
  match ps with
  | [] => None
  | Some request :: ps' => Some (request, ps')
  | None :: ps' => recv ps'
  end.

Section appender.
Context `{DeltaLog A}.

(** The worker loop, with the replies it sends; a request put aside and then replaced is
    dropped without a reply. *)
Fixpoint drive_main (fuel : nat) (deferred : option DriveRequest) (ps : polls) (arena : A) :
    A * list (DriveRequest * io_result unit) :=
  match fuel with
  | O => (arena, [])
  | S fuel' =>
      match match deferred with
            | Some request => Some (request, ps)
            | None => recv ps
            end with
      | None => (arena, [])
      | Some (ReqAppend delta, ps) =>
          let '(deltas, deferred, ps) := collect None [delta] None ps in
          let '(arena, reply) := dl_append deltas arena in
          let '(arena, replies) := drive_main fuel' deferred ps arena in
          (arena, ((fun d => (ReqAppend d, reply)) <$> deltas) ++ replies)
      | Some (ReqCheckpoint entries, ps) =>
          let '(arena, reply) := dl_checkpoint entries arena in
          let '(arena, replies) := drive_main fuel' None ps arena in
          (arena, (ReqCheckpoint entries, reply) :: replies)
      | Some (ReqStop, _) => (arena, [])
      end
  end.

End appender.

(** ** Shards *)

Abbreviation ShardState := (gmap ChunkId LocationRecord).

(** [ShardState::new] *)
Definition shard_new (initial_entries : list (ChunkId * LocationRecord)) : ShardState :=
  foldl (fun live e => <[e.1 := e.2]> live) ∅ initial_entries.

(** [ShardState::upsert] *)
Definition shard_upsert (live : ShardState) (chunk_id : ChunkId) (record : LocationRecord) : ShardState :=
  match live !! chunk_id with
  | Some existing =>
      if lr_generation existing <=? lr_generation record then <[chunk_id := record]> live else live
  | None => <[chunk_id := record]> live
  end.

(** [ShardState::drive_id_for] *)
Definition drive_id_for (live : ShardState) (chunk_id : ChunkId) : option Z :=
  lr_drive_id <$> live !! chunk_id.

(** [shard_for]: the first eight bytes, little-endian, modulo the number of shards. *)
Definition shard_for (chunk_id : ChunkId) (shard_count : Z) : Z :=
  of_le (take 8 chunk_id) mod shard_count.

(** ** The client *)

Inductive KixError : Type :=
| KixIo (kind : io_error_kind)
| ChannelClosed.

Record GranuleOwner := mkGranuleOwner {
  go_chunk_id : ChunkId;
  go_generation : Z;
}.

(** The arena of a drive whose appender failed to open is [None]: its queue is closed. *)
Record Kix (A : Type) := mkKix {
  kx_shards : list ShardState;
  kx_arenas : gmap Z (option A);
  kx_inverse : gmap Z (gmap Z GranuleOwner);
}.
Arguments mkKix {A}.
Arguments kx_shards {A}.
Arguments kx_arenas {A}.
Arguments kx_inverse {A}.

Section client.
Context `{DeltaLog A}.

Definition shard_index_for (k : Kix A) (chunk_id : ChunkId) : result KixError nat :=
  let shard := Z.to_nat (shard_for chunk_id (len (kx_shards k))) in
  match kx_shards k !! shard with
  | Some _ => Ok shard
  | None => Err ChannelClosed
  end.

Definition shard_live (k : Kix A) (shard : nat) : ShardState := default ∅ (kx_shards k !! shard).

Definition set_shard (k : Kix A) (shard : nat) (live : ShardState) : Kix A :=
  mkKix (<[shard := live]> (kx_shards k)) (kx_arenas k) (kx_inverse k).

(** [KixClient::get] *)
Definition kix_get (k : Kix A) (chunk_id : ChunkId) : result KixError (option LocationRecord) :=
  shard ← shard_index_for k chunk_id;
  Ok (shard_live k shard !! chunk_id).

(** [DriveArenaSet::append_delta] and [DriveArenaSet::write_checkpoint]: the request goes
    through the drive's queue and the caller waits for the reply. *)
Definition drive_request (drive_id : Z) (request : M A io_error_kind unit) : M (Kix A) KixError unit :=
  fun k =>
    match kx_arenas k !! drive_id with
    | None => (k, Err (KixIo NotFound))
    | Some None => (k, Err ChannelClosed)
    | Some (Some arena) =>
        let '(arena, reply) := request arena in
        (mkKix (kx_shards k) (<[drive_id := Some arena]> (kx_arenas k)) (kx_inverse k),
         map_err (fun _ => KixIo OtherError) reply)
    end.

(** [KixClient::update_inverse], generation-fenced. *)
Definition update_inverse (drive_id slot_index : Z) (chunk_id : ChunkId) (generation : Z)
    (k : Kix A) : Kix A :=
  match kx_inverse k !! drive_id with
  | None => k
  | Some inverse =>
      let owner := mkGranuleOwner chunk_id generation in
      let inverse' :=
        match inverse !! slot_index with
        | Some existing =>
            if go_generation existing <=? generation then <[slot_index := owner]> inverse else inverse
        | None => <[slot_index := owner]> inverse
        end in
      mkKix (kx_shards k) (kx_arenas k) (<[drive_id := inverse']> (kx_inverse k))
  end.

(** [KixClient::upsert]: the delta is durable before the index shows it. *)
Definition kix_upsert (chunk_id : ChunkId) (slot_index : Z) (record : LocationRecord) :
    M (Kix A) KixError unit :=
  k ← get_state;
  shard ← lift (shard_index_for k chunk_id);
  _ ← drive_request (lr_drive_id record) (dl_append [delta_upsert chunk_id record]);
  k ← get_state;
  put_state (update_inverse (lr_drive_id record) slot_index chunk_id (lr_generation record)
    (set_shard k shard (shard_upsert (shard_live k shard) chunk_id record))).

(** [KixClient::delete]: the delta goes to the drive of the live record. *)
Definition kix_delete (chunk_id : ChunkId) : M (Kix A) KixError unit :=
  k ← get_state;
  shard ← lift (shard_index_for k chunk_id);
  match drive_id_for (shard_live k shard) chunk_id with
  | Some drive_id =>
      _ ← drive_request drive_id (dl_append [delta_delete chunk_id]);
      k ← get_state;
      put_state (set_shard k shard (delete chunk_id (shard_live k shard)))
  | None => mret tt
  end.

(** [KixClient::lookup_granule_chunk] *)
Definition lookup_granule_chunk (k : Kix A) (drive_id slot_index : Z) : option (ChunkId * Z) :=
  inverse ← kx_inverse k !! drive_id;
  owner ← inverse !! slot_index;
  Some (go_chunk_id owner, go_generation owner).

(** [KixClient::clear_granule_inverse] *)
Definition clear_granule_inverse (drive_id slot_index : Z) (k : Kix A) : Kix A :=
  match kx_inverse k !! drive_id with
  | Some inverse =>
      mkKix (kx_shards k) (kx_arenas k) (<[drive_id := delete slot_index inverse]> (kx_inverse k))
  | None => k
  end.

(** [KixClient::occupied_granules]: sorted by slot. *)
Definition granule_le (a b : Z * ChunkId * Z) : Prop := a.1.1 ≤ b.1.1.
Global Instance granule_le_dec : RelDecision granule_le.
Proof. intros a b. unfold granule_le. apply _. Defined.

Definition occupied_granules (k : Kix A) (drive_id : Z) : list (Z * ChunkId * Z) :=
  match kx_inverse k !! drive_id with
  | Some inverse =>
      merge_sort granule_le
        ((fun e => (e.1, go_chunk_id e.2, go_generation e.2)) <$> map_to_list inverse)
  | None => []
  end.

(** [KixEngine::snapshot_entries] *)
Definition snapshot_entries (k : Kix A) : list (ChunkId * LocationRecord) :=
  kx_shards k ≫= map_to_list.

(** The entries grouped by the drive of their record. *)
Definition drive_entries (k : Kix A) (drive_id : Z) : list (ChunkId * LocationRecord) :=
  filter (fun e => lr_drive_id e.2 = drive_id) (snapshot_entries k).

(** [KixEngine::checkpoint_all]: the drives that own an entry, in the order [drives] the
    grouping map iterates them, stopping at the first error. *)
Fixpoint checkpoint_drives (k0 : Kix A) (drives : list Z) : M (Kix A) KixError unit :=
  match drives with
  | [] => mret tt
  | drive_id :: drives' =>
      _ ← drive_request drive_id (dl_checkpoint (drive_entries k0 drive_id));
      checkpoint_drives k0 drives'
  end.

Definition checkpoint_all (order : gset Z → list Z) : M (Kix A) KixError unit :=
  k ← get_state;
  checkpoint_drives k (order (list_to_set (lr_drive_id <$> (snapshot_entries k).*2))).

End client.

(** ** Opening *)

Section open.
Context `{Crc32}.

(** [open_drive_writer] for the plan that recovery dictates: an arena to be rebuilt is
    reset, a damaged tail is cut off.  The file is what the attempt leaves behind. *)
Definition open_drive_writer (cfg : DriveConfig) (file : option Store) (recovery : DriveRecovery) :
    option Store * io_result DriveArena :=
  let '(file, writer) :=
    if dr_rebuild_required recovery then reset_config cfg file else open_config cfg file in
  match writer with
  | Err e => (file, Err e)
  | Ok writer =>
      if dr_tail_corruption recovery then
        let '(writer, r) := truncate_to (dr_replay_len recovery) writer in
        (Some (da_store writer), _ ← r; Ok writer)
      else (file, Ok writer)
  end.

(** One drive of [DriveArenaSet::open]. Recovery always returns ([recover_total]); a
    writer that cannot be opened leaves a closed queue, not an error. *)
Definition open_drive (drive : DriveConfig * option Store) :
    io_result (DriveRecovery * option DriveArena) :=
  recovery ← default (Err OtherError) (recover drive.1 drive.2);
  Ok (recovery, result_ok (open_drive_writer drive.1 drive.2 recovery).2).

Definition push_entry (shard_count : Z) (shards : list (list (ChunkId * LocationRecord)))
    (e : ChunkId * LocationRecord) : list (list (ChunkId * LocationRecord)) :=
  alter (fun l => l ++ [e]) (Z.to_nat (shard_for e.1 shard_count)) shards.

(** [KixEngine::open]: the entries of all recoveries, in drive order, distributed over
    the shards; the drives that need a rebuild are reported. *)
Definition engine_open (shard_count : Z) (drives : list (DriveConfig * option Store)) :
    result KixError (Kix DriveArena * list Z) :=
  if shard_count =? 0 then Err (KixIo InvalidInput)
  else if bool_decide (drives = []) then Err (KixIo InvalidInput)
  else if negb (bool_decide (NoDup (cfg_id <$> drives.*1))) then Err (KixIo InvalidInput)
  else
    opened ← map_err KixIo (try_map open_drive drives);
    let recoveries := opened.*1 in
    let entries := recoveries ≫= fun r => map_to_list (dr_entries r) in
    let initial_shards := foldl (push_entry shard_count) (replicate (Z.to_nat shard_count) []) entries in
    Ok (mkKix (shard_new <$> initial_shards)
          (list_to_map (zip (cfg_id <$> drives.*1) opened.*2))
          (list_to_map ((fun id => (id, ∅)) <$> (cfg_id <$> drives.*1))),
        dr_drive_id <$> filter (fun r => dr_rebuild_required r = true) recoveries).

End open.
