(* ===== verification/EngineProps.v ===== *)
(** Properties of the KIX engine: batching of the drive appender is invisible, and the
    sharded live index is always what recovering the logs would return. *)
From S2P Require Import Prelude Bytes Device KixTypes Arena ArenaCodec ArenaInv ArenaOps ArenaOpen Engine.

(** ** The drive appender *)

(** The requests a sequence of polls delivers. *)
Definition requests (ps : polls) : list DriveRequest := omap id ps.

(** The load of a running engine: appends, and a stop at the end. *)
Definition appends_then_stop (rs : list DriveRequest) (ds : list DeltaEntry) : Prop :=
  rs = ReqAppend <$> ds ∨ rs = (ReqAppend <$> ds) ++ [ReqStop].

Definition acked (replies : list (DriveRequest * io_result unit)) : list DriveRequest :=
  (filter (fun e => is_Ok e.2 = true) replies).*1.

Definition req_effect (m : IndexMap) (q : DriveRequest) : IndexMap :=
  match q with
  | ReqAppend d => apply_delta m d
  | ReqCheckpoint es => insert_all es
  | ReqStop => m
  end.

Lemma appends_then_stop_cons d rs ds :
  appends_then_stop (ReqAppend d :: rs) ds → ∃ ds', ds = d :: ds' ∧ appends_then_stop rs ds'.
Proof.
  intros [E | E]; destruct ds as [|d' ds]; try discriminate; injection E as -> ->; exists ds;
    (split; [done|]); [by left|by right].
Qed.

Lemma appends_then_stop_end r rs ds :
  appends_then_stop (r :: rs) ds → (∀ d, r ≠ ReqAppend d) → r = ReqStop ∧ rs = [] ∧ ds = [].
Proof.
  intros [E | E] Hr; destruct ds as [|d' ds]; try discriminate.
  - injection E as -> _. by destruct (Hr d').
  - injection E as -> ->. done.
  - injection E as -> _. by destruct (Hr d').
Qed.

(** A batch takes a prefix of a load of appends, and puts aside at most its stop. *)
Definition took (n : nat) (ds deltas : list DeltaEntry)
    (r : list DeltaEntry * option DriveRequest * polls) : Prop :=
  ∃ taken rest, ds = taken ++ rest ∧ r.1.1 = deltas ++ taken ∧
    (length r.1.1 ≤ Nat.max DRIVE_APPEND_BATCH_LIMIT (length deltas))%nat ∧ (length r.2 ≤ n)%nat ∧
    ((r.1.2 = None ∧ appends_then_stop (requests r.2) rest) ∨
     (r.1.2 = Some ReqStop ∧ requests r.2 = [] ∧ rest = [])).

Lemma took_nothing ps ds deltas :
  appends_then_stop (requests ps) ds → took (length ps) ds deltas (deltas, None, ps).
Proof. intros Hps. exists [], ds. cbn. rewrite app_nil_r. split_and!; [done..|lia|lia|by left]. Qed.

Lemma took_push n d ds deltas r :
  (length deltas < DRIVE_APPEND_BATCH_LIMIT)%nat →
  took n ds (deltas ++ [d]) r → took (S n) (d :: ds) deltas r.
Proof.
  intros Hlim (taken & rest & -> & Hr & Hlen & Hn & Hdef). exists (d :: taken), rest.
  rewrite Hr in *. rewrite <-app_assoc in *. rewrite !length_app in *. cbn [length] in *.
  split_and!; [done..|lia|lia|done].
Qed.

Lemma took_weaken n m ds deltas r : (n ≤ m)%nat → took n ds deltas r → took m ds deltas r.
Proof. intros Hnm (taken & rest & ? & ? & ? & ? & ?). exists taken, rest. split_and!; [done..|lia|done]. Qed.

(** Once nothing but empty polls are left, the batch and what was put aside stay. *)
Lemma collect_quiet ps spinning deltas deferred :
  requests ps = [] →
  ∃ ps', collect spinning deltas deferred ps = (deltas, deferred, ps') ∧ requests ps' = [] ∧
    (length ps' ≤ length ps)%nat.
Proof.
  revert spinning. induction ps as [|[p|] ps IH]; intros spinning Hps; cbn [collect].
  - by exists [].
  - done.
  - case_decide; [by exists (None :: ps)|].
    assert (∀ sp, ∃ ps', collect sp deltas deferred ps = (deltas, deferred, ps') ∧ requests ps' = [] ∧
      (length ps' ≤ length (@None DriveRequest :: ps))%nat) as Hrec.
    { intros sp. destruct (IH sp Hps) as (ps' & ? & ? & ?). exists ps'. cbn [length]. auto with lia. }
    destruct spinning as [spins|]; [case_decide|]; [apply Hrec| |apply Hrec].
    exists ps. cbn [length]. auto with lia.
Qed.

Lemma collect_took ps spinning deltas ds :
  appends_then_stop (requests ps) ds → took (length ps) ds deltas (collect spinning deltas None ps).
Proof.
  revert spinning deltas ds. induction ps as [|p ps IH]; intros spinning deltas ds Hps; cbn [collect].
  { by apply (took_nothing []). }
  case_decide as Hlim; [by apply took_nothing|]. apply Nat.nle_gt in Hlim.
  assert (∀ sp, p = None → took (S (length ps)) ds deltas (collect sp deltas None ps)) as Hnone.
  { intros sp ->. apply (took_weaken (length ps)); [lia|]. by apply IH. }
  assert (∀ other, p = Some other → (∀ d, other ≠ ReqAppend d) →
    other = ReqStop ∧ requests ps = [] ∧ ds = []) as Hother.
  { intros other -> Hna. by apply appends_then_stop_end in Hps. }
  assert (∀ ps', requests ps' = [] → (length ps' ≤ length ps)%nat → ds = [] →
    took (S (length ps)) ds deltas (deltas, Some ReqStop, ps')) as Hstop.
  { intros ps' Hq Hlen ->. exists [], []. cbn. rewrite app_nil_r. split_and!; [done..|lia|lia|by right]. }
  destruct p as [other|].
  2:{ destruct spinning as [spins|]; [|by apply Hnone]. case_decide; [by apply Hnone|].
      apply (took_weaken (length ps)); [cbn [length]; lia|]. by apply took_nothing. }
  destruct (match other with ReqAppend d => inl d | o => inr o end) as [d|o] eqn:Eo.
  - destruct other; try discriminate. injection Eo as ->.
    assert (∃ ds', ds = d :: ds' ∧ appends_then_stop (requests ps) ds') as (ds' & -> & Hps')
      by (by apply appends_then_stop_cons).
    destruct spinning; apply took_push; auto.
  - destruct (Hother other) as (-> & Hq & Hds); [done|by destruct other|].
    destruct spinning as [spins|]; [|by apply Hstop].
    destruct (collect_quiet ps None deltas (Some ReqStop) Hq) as (ps' & -> & Hq' & Hlen). by apply Hstop.
Qed.

(** For any load: the batch, what is put aside and what is left are requests that came. *)
Lemma requests_app p ps : requests (p :: ps) = option_list p ++ requests ps.
Proof. by destruct p. Qed.

Definition collected (deltas : list DeltaEntry) (deferred : option DriveRequest) (ps : polls)
    (r : list DeltaEntry * option DriveRequest * polls) : Prop :=
  ∃ taken, r.1.1 = deltas ++ taken ∧
    (ReqAppend <$> taken) ++ option_list r.1.2 ++ requests r.2 ⊆+ option_list deferred ++ requests ps ∧
    (length r.1.1 ≤ Nat.max DRIVE_APPEND_BATCH_LIMIT (length deltas))%nat ∧
    (length r.2 + length (option_list r.1.2) ≤ length ps + length (option_list deferred))%nat.

Lemma collected_stop deltas deferred ps : collected deltas deferred ps (deltas, deferred, ps).
Proof. exists []. cbn [fst snd fmap list_fmap app]. rewrite app_nil_r. split_and!; [done..|lia|lia]. Qed.

Lemma collected_skip deltas deferred p ps r :
  collected deltas deferred ps r → collected deltas deferred (p :: ps) r.
Proof.
  intros (taken & ? & Hsub & ? & ?). exists taken. cbn [length]. split_and!; [done| |done|lia].
  etrans; [exact Hsub|]. rewrite requests_app. apply submseteq_app; [done|]. by apply submseteq_inserts_l.
Qed.

Lemma collected_defer deltas deferred other ps r :
  collected deltas (Some other) ps r → collected deltas deferred (Some other :: ps) r.
Proof.
  intros (taken & ? & Hsub & ? & ?). exists taken. cbn [length] in *. split_and!; [done| |done|].
  - etrans; [exact Hsub|]. rewrite requests_app. by apply submseteq_inserts_l.
  - change (option_list (Some other)) with [other] in *. cbn [length] in *. lia.
Qed.

Lemma collected_push deltas deferred d ps r :
  (length deltas < DRIVE_APPEND_BATCH_LIMIT)%nat →
  collected (deltas ++ [d]) deferred ps r → collected deltas deferred (Some (ReqAppend d) :: ps) r.
Proof.
  intros Hlim (taken & Hr & Hsub & Hlen & Hps). exists (d :: taken). rewrite Hr in *. rewrite <-app_assoc in *.
  rewrite !length_app in *. cbn [length] in *. split_and!; [done| |lia|lia].
  rewrite requests_app. change (option_list (Some (ReqAppend d))) with [ReqAppend d]. cbn [fmap list_fmap app].
  rewrite <-Permutation_middle. by apply submseteq_skip.
Qed.

Lemma collect_collected ps spinning deltas deferred :
  collected deltas deferred ps (collect spinning deltas deferred ps).
Proof.
  revert spinning deltas deferred. induction ps as [|p ps IH]; intros spinning deltas deferred; cbn [collect].
  { apply collected_stop. }
  case_decide as Hlim; [apply collected_stop|]. apply Nat.nle_gt in Hlim.
  destruct spinning as [spins|]; destruct p as [[d|es|]|]; try case_decide;
    first [by apply collected_push, IH | by apply collected_skip, IH | by apply collected_defer, IH
          | apply collected_defer, collected_stop | apply collected_skip, collected_stop].
Qed.

Lemma recv_spec ps :
  match recv ps with
  | Some (request, ps') => requests ps = request :: requests ps' ∧ (length ps' < length ps)%nat
  | None => requests ps = []
  end.
Proof.
  induction ps as [|[request|] ps IH]; cbn [recv]; [done| |].
  - cbn. split; [done|lia].
  - destruct (recv ps) as [[request ps']|]; [|done]. destruct IH. cbn [length]. split; [done|lia].
Qed.

Definition req_wf (q : DriveRequest) : Prop :=
  match q with
  | ReqAppend d => delta_wf d
  | ReqCheckpoint es => op_wf (OpCheckpoint es)
  | ReqStop => True
  end.

Lemma acked_batch ds (r : io_result unit) l :
  acked (((fun d => (ReqAppend d, r)) <$> ds) ++ l)
  = (if is_Ok r then ReqAppend <$> ds else []) ++ acked l.
Proof.
  unfold acked. induction ds as [|d ds IH]; [by destruct r|].
  cbn [fmap list_fmap app]. rewrite filter_cons. cbn [snd].
  destruct r as [[]|e]; cbn [is_Ok] in *; [rewrite decide_True by done|rewrite decide_False by done].
  - cbn. by rewrite IH.
  - by rewrite IH.
Qed.

Lemma fold_appends m ds : foldl req_effect m (ReqAppend <$> ds) = foldl apply_delta m ds.
Proof. revert m. induction ds as [|d ds IH]; intros m; [done|]. cbn. apply IH. Qed.

Section appender.
Context `{DeltaLog A}.

Lemma dl_append_batch cfg a m ds a' r :
  dl_holds cfg a m → Forall req_wf (ReqAppend <$> ds) → (length ds ≤ DRIVE_APPEND_BATCH_LIMIT)%nat →
  dl_append ds a = (a', r) →
  dl_holds cfg a' (foldl req_effect m (if is_Ok r then ReqAppend <$> ds else [])).
Proof.
  intros Ha Hwf Hlen Hr. rewrite Forall_fmap in Hwf.
  assert (op_wf (OpDeltas ds)) as Hop.
  { split; [exact Hwf|]. unfold DRIVE_APPEND_BATCH_LIMIT, DELTA_ENTRY_LEN, LOCATION_ENCODED_LEN in *. lia. }
  destruct (dl_append_spec cfg a m ds a' r Ha Hop Hr) as [[-> ?]|[-> ?]]; [|done].
  cbn [is_Ok]. by rewrite fold_appends.
Qed.

(** The requests the worker starts from: the one put aside, then the polls. *)
Lemma next_request deferred ps :
  match match deferred with Some request => Some (request, ps) | None => recv ps end with
  | Some (request, ps') => option_list deferred ++ requests ps = request :: requests ps' ∧
      (S (length ps') ≤ length ps + length (option_list deferred))%nat
  | None => option_list deferred ++ requests ps = []
  end.
Proof.
  destruct deferred as [request|]; [change (option_list (Some request)) with [request]; cbn; split; [done|lia]|].
  pose proof (recv_spec ps) as Hr. destruct (recv ps) as [[request ps']|]; [|done].
  destruct Hr. change (option_list None) with (@nil DriveRequest). cbn. split; [done|lia].
Qed.

Lemma drive_main_log cfg fuel deferred ps a m a' replies :
  dl_holds cfg a m → Forall req_wf (option_list deferred ++ requests ps) →
  drive_main fuel deferred ps a = (a', replies) →
  replies.*1 ⊆+ option_list deferred ++ requests ps ∧ dl_holds cfg a' (foldl req_effect m (acked replies)).
Proof.
  revert deferred ps a m a' replies.
  induction fuel as [|fuel IH]; intros deferred ps a m a' replies Ha Hwf Hr; cbn [drive_main] in Hr.
  { injection Hr as <- <-. split; [apply submseteq_nil_l|done]. }
  pose proof (next_request deferred ps) as Hn.
  destruct (match deferred with Some request => Some (request, ps) | None => recv ps end)
    as [[request ps1]|]; [|injection Hr as <- <-; split; [apply submseteq_nil_l|done]].
  destruct Hn as [Hn _]. rewrite Hn in Hwf |- *. apply Forall_cons in Hwf as [Hreq Hwf].
  destruct request as [d|es|]; [| |injection Hr as <- <-; split; [apply submseteq_nil_l|done]].
  - destruct (collect_collected ps1 None [d] None) as (taken & Htk & Hsub & Hlen & _).
    destruct (collect None [d] None ps1) as [[deltas deferred1] ps2]. cbn [fst snd] in *. subst deltas.
    destruct (dl_append ([d] ++ taken) a) as [a1 r1] eqn:E1.
    destruct (drive_main fuel deferred1 ps2 a1) as [a2 rs] eqn:E2. apply pair_equal_spec in Hr as [<- <-].
    assert (Forall req_wf ((ReqAppend <$> taken) ++ option_list deferred1 ++ requests ps2)) as Hwf2.
    { rewrite Forall_forall in Hwf |- *. intros q Hq. apply Hwf. by eapply elem_of_submseteq. }
    apply Forall_app in Hwf2 as [Htaken Hwf2].
    destruct (IH _ _ _ _ _ _ (dl_append_batch cfg a m ([d] ++ taken) a1 r1 Ha ltac:(by constructor) Hlen E1)
      Hwf2 E2) as [Hperm Hlog].
    split.
    + rewrite fmap_app, <-list_fmap_compose. cbn [fmap list_fmap app compose].
      apply submseteq_skip. etrans; [|exact Hsub]. by apply submseteq_app.
    + by rewrite acked_batch, foldl_app.
  - destruct (dl_checkpoint es a) as [a1 r1] eqn:E1.
    destruct (drive_main fuel None ps1 a1) as [a2 rs] eqn:E2. injection Hr as <- <-.
    destruct (dl_checkpoint_spec cfg a m es a1 r1 Ha Hreq E1) as [[-> H1]|[Hf H1]];
      destruct (IH None ps1 a1 _ _ _ H1 Hwf E2) as [Hperm Hlog];
      (split; [by apply submseteq_skip|]); unfold acked in *; rewrite filter_cons; cbn [snd].
    + rewrite decide_True by done. exact Hlog.
    + rewrite decide_False by (by rewrite Hf). exact Hlog.
Qed.

Lemma drive_main_order fuel deferred ps a ds a' replies :
  (deferred = None ∧ appends_then_stop (requests ps) ds ∨
   deferred = Some ReqStop ∧ requests ps = [] ∧ ds = []) →
  (length ps ≤ fuel)%nat → drive_main fuel deferred ps a = (a', replies) →
  replies.*1 = ReqAppend <$> ds.
Proof.
  revert deferred ps a ds a' replies.
  induction fuel as [|fuel IH]; intros deferred ps a ds a' replies Hload Hf Hr; cbn [drive_main] in Hr.
  { injection Hr as _ <-. destruct Hload as [[_ Hl]|(_ & _ & ->)]; [|done].
    destruct ps; [|cbn in Hf; lia]. destruct Hl as [E|E]; destruct ds; by try discriminate. }
  destruct Hload as [[-> Hl]|(-> & Hq & ->)]; [|by injection Hr as _ <-].
  pose proof (recv_spec ps) as Hn. destruct (recv ps) as [[request ps1]|].
  2:{ injection Hr as _ <-. rewrite Hn in Hl. destruct Hl as [E|E]; destruct ds; by try discriminate. }
  destruct Hn as [Hn Hlen]. rewrite Hn in Hl.
  destruct request as [d|es|].
  - apply appends_then_stop_cons in Hl as (ds1 & -> & Hl).
    destruct (collect_took ps1 None [d] ds1 Hl) as (taken & rest & -> & Htk & _ & Hps & Hnext).
    destruct (collect None [d] None ps1) as [[deltas deferred1] ps2]. cbn [fst snd] in *. subst deltas.
    destruct (dl_append ([d] ++ taken) a) as [a1 r1] eqn:E1.
    destruct (drive_main fuel deferred1 ps2 a1) as [a2 rs] eqn:E2. apply pair_equal_spec in Hr as [_ <-].
    rewrite fmap_app, <-list_fmap_compose, (IH _ _ _ rest _ _ Hnext ltac:(lia) E2).
    cbn [fmap list_fmap app compose]. by rewrite fmap_app.
  - by apply appends_then_stop_end in Hl as [? _].
  - apply appends_then_stop_end in Hl as (_ & _ & ->); [|done]. by injection Hr as _ <-.
Qed.

(** C31: Coalescing appends into batches. Whatever requests the worker finds together in
    its queue, it answers only requests that were sent and the log holds the replay, one
    request at a time and in the order of the replies, of exactly those it acknowledged;
    when the requests are appends with at most a stop at the end, every append before the
    stop is answered exactly once and in the order it was sent. *)
Theorem drive_main_coalesces cfg fuel ps arena m arena' replies :
  dl_holds cfg arena m → Forall req_wf (requests ps) → (length ps ≤ fuel)%nat →
  drive_main fuel None ps arena = (arena', replies) →
  replies.*1 ⊆+ requests ps ∧
  dl_holds cfg arena' (foldl req_effect m (acked replies)) ∧
  ∀ ds, appends_then_stop (requests ps) ds → replies.*1 = ReqAppend <$> ds.
Proof.
  intros Ha Hwf Hf Hr. destruct (drive_main_log cfg fuel None ps arena m arena' replies Ha Hwf Hr) as [? ?].
  split_and!; [done..|]. intros ds Hds. eapply drive_main_order; [by left|exact Hf|exact Hr].
Qed.

(** A checkpoint found while the worker spins on an empty queue is put aside, and the
    batch goes on: an append sent after the checkpoint is logged before it, and when both
    succeed the acknowledged append is not in the index the log recovers to; a second
    request put aside replaces the first, which is never executed or answered. *)
Theorem drive_main_reorders cfg arena m d1 d2 es es2 arena' replies arena2 replies2 :
  dl_holds cfg arena m → Forall req_wf [ReqAppend d1; ReqCheckpoint es; ReqAppend d2] →
  drive_main 4 None [Some (ReqAppend d1); None; Some (ReqCheckpoint es); Some (ReqAppend d2)] arena
  = (arena', replies) →
  drive_main 4 None [Some (ReqAppend d1); None; Some (ReqCheckpoint es2); Some (ReqCheckpoint es)] arena
  = (arena2, replies2) →
  replies.*1 = [ReqAppend d1; ReqAppend d2; ReqCheckpoint es] ∧
  (Forall (fun e => e.2 = Ok tt) replies → dl_holds cfg arena' (insert_all es)) ∧
  replies2.*1 = [ReqAppend d1; ReqCheckpoint es].
Proof.
  intros Ha Hwf Hr Hr2.
  assert (Forall req_wf (requests [Some (ReqAppend d1); None; Some (ReqCheckpoint es); Some (ReqAppend d2)]))
    as Hwf' by exact Hwf.
  destruct (drive_main_log cfg 4 None _ arena m arena' replies Ha Hwf' Hr) as [_ Hlog].
  assert (¬ (DRIVE_APPEND_BATCH_LIMIT ≤ 1)%nat) as Hlim by (unfold DRIVE_APPEND_BATCH_LIMIT; lia).
  cbn in Hr, Hr2. rewrite !(decide_False (P := (_ ≤ 1)%nat)) in Hr, Hr2 by exact Hlim.
  destruct (dl_append [d1; d2] arena) as [a1 r1]. destruct (dl_checkpoint es a1) as [a2 r2].
  destruct (dl_append [d1] arena) as [b1 s1]. destruct (dl_checkpoint es b1) as [b2 s2].
  injection Hr as -> <-. injection Hr2 as -> <-. split_and!; [done| |done].
  intros Hok. rewrite !Forall_cons in Hok. cbn [snd] in Hok. destruct Hok as (-> & _ & -> & _). exact Hlog.
Qed.

End appender.

(** ** The live index *)

Section index.
Context `{DeltaLog A}.

Definition shard_of (k : Kix A) (c : ChunkId) : nat := Z.to_nat (shard_for c (len (kx_shards k))).

(** The live index as one map. *)
Definition live (k : Kix A) (c : ChunkId) : option LocationRecord := shard_live k (shard_of k c) !! c.

Lemma shard_of_lt k c : kx_shards k ≠ [] → (shard_of k c < length (kx_shards k))%nat.
Proof.
  intros Hne. unfold shard_of, shard_for. destruct (kx_shards k) as [|s l]; [done|]. cbn [length].
  pose proof (Z.mod_pos_bound (of_le (take 8 c)) (Z.of_nat (S (length l))) ltac:(lia)). lia.
Qed.

Lemma shard_index_for_ok k c : kx_shards k ≠ [] → shard_index_for k c = Ok (shard_of k c).
Proof.
  intros Hne. unfold shard_index_for. fold (shard_of k c).
  destruct (lookup_lt_is_Some_2 (kx_shards k) (shard_of k c)) as [s Hs]; [by apply shard_of_lt|].
  by rewrite Hs.
Qed.

Lemma kix_get_live k c : kx_shards k ≠ [] → kix_get k c = Ok (live k c).
Proof. intros Hne. unfold kix_get. by rewrite shard_index_for_ok, result_bind_eq. Qed.

Lemma live_set_shard k c s c' :
  kx_shards k ≠ [] →
  live (set_shard k (shard_of k c) s) c' = if decide (shard_of k c' = shard_of k c) then s !! c' else live k c'.
Proof.
  intros Hne. unfold live at 1, shard_live, shard_of at 1, set_shard. cbn [kx_shards].
  rewrite length_insert. fold (shard_of k c'). case_decide as Heq.
  - rewrite Heq, list_lookup_insert_eq by by apply shard_of_lt. done.
  - by rewrite list_lookup_insert_ne.
Qed.

(** The generation fence of [ShardState::upsert] and of the log's replay. *)
Definition fenced (old : option LocationRecord) (r : LocationRecord) : option LocationRecord :=
  match old with
  | Some e => if lr_generation e <=? lr_generation r then Some r else Some e
  | None => Some r
  end.

Lemma shard_upsert_lookup (s : ShardState) c r c' :
  shard_upsert s c r !! c' = if decide (c' = c) then fenced (s !! c) r else s !! c'.
Proof.
  unfold shard_upsert, fenced. case_decide as Hc.
  - subst c'. destruct (s !! c) as [e|] eqn:E; [|by rewrite lookup_insert_eq].
    destruct (_ <=? _); [by rewrite lookup_insert_eq|done].
  - destruct (s !! c) as [e|]; [destruct (_ <=? _); [|done]|]; by rewrite lookup_insert_ne.
Qed.

Lemma apply_upsert_lookup m c r c' :
  apply_delta m (delta_upsert c r) !! c' = if decide (c' = c) then fenced (m !! c) r else m !! c'.
Proof.
  rewrite <-shard_upsert_lookup. unfold apply_delta, delta_upsert, shard_upsert. cbn.
  destruct (m !! c) as [e|]; [|done].
  destruct (Z.ltb_spec (lr_generation r) (lr_generation e)), (Z.leb_spec (lr_generation e) (lr_generation r));
    done || lia.
Qed.

Lemma live_upsert k c r c' :
  kx_shards k ≠ [] →
  live (set_shard k (shard_of k c) (shard_upsert (shard_live k (shard_of k c)) c r)) c'
  = if decide (c' = c) then fenced (live k c) r else live k c'.
Proof.
  intros Hne. rewrite live_set_shard, shard_upsert_lookup by done.
  destruct (decide (c' = c)) as [-> | Hc]; [by rewrite decide_True|].
  case_decide as Heq; [|done]. unfold live. by rewrite Heq.
Qed.

Lemma live_delete k c c' :
  kx_shards k ≠ [] →
  live (set_shard k (shard_of k c) (delete c (shard_live k (shard_of k c)))) c'
  = if decide (c' = c) then None else live k c'.
Proof.
  intros Hne. rewrite live_set_shard by done. case_decide as Heq.
  - destruct (decide (c' = c)) as [-> | Hc]; [by rewrite lookup_delete_eq|].
    rewrite lookup_delete_ne by done. unfold live. by rewrite Heq.
  - destruct (decide (c' = c)) as [-> | Hc]; [done|done].
Qed.

(** ** The invariant *)

(** Every drive's log recovers to the part of the index [lv] that is homed on it. *)
Definition logs_inv (home : ChunkId → Z) (cfgs : list DriveConfig) (arenas : gmap Z (option A))
    (lv : ChunkId → option LocationRecord) : Prop :=
  ∀ d o, arenas !! d = Some o → ∃ cfg a m, cfg ∈ cfgs ∧ cfg_id cfg = d ∧ o = Some a ∧ dl_holds cfg a m ∧
    ∀ c, m !! c = if decide (home c = d) then lv c else None.

Definition entry_ok (home : ChunkId → Z) (arenas : gmap Z (option A)) (c : ChunkId) (r : LocationRecord) : Prop :=
  chunk_id_wf c ∧ location_record_wf r ∧ lr_drive_id r = home c ∧ is_Some (arenas !! home c).

Record engine_inv (home : ChunkId → Z) (cfgs : list DriveConfig) (k : Kix A) : Prop := {
  ei_shards : kx_shards k ≠ [];
  ei_placed : ∀ i s c r, kx_shards k !! i = Some s → s !! c = Some r →
    shard_of k c = i ∧ entry_ok home (kx_arenas k) c r;
  ei_logs : logs_inv home cfgs (kx_arenas k) (live k);
  ei_drives : ∀ cfg, cfg ∈ cfgs → is_Some (kx_arenas k !! cfg_id cfg);
}.

Lemma logs_inv_ext home cfgs arenas lv lv' :
  (∀ c, lv' c = lv c) → logs_inv home cfgs arenas lv → logs_inv home cfgs arenas lv'.
Proof.
  intros He Hl d o Ho. destruct (Hl d o Ho) as (cfg & a & m & ? & ? & ? & ? & Hm).
  exists cfg, a, m. split_and!; [done..|]. intros c. by rewrite Hm, He.
Qed.

(** A request that changes the part of the index homed on its drive as it changes the
    drive's log, or fails and changes neither. *)
Lemma drive_request_spec home cfgs k d (req : M A io_error_kind unit) eff lv lv' k' r :
  logs_inv home cfgs (kx_arenas k) lv →
  (∀ cfg a m a' r, (∀ c, m !! c = if decide (home c = d) then lv c else None) →
     dl_holds cfg a m → req a = (a', r) →
     (r = Ok tt ∧ dl_holds cfg a' (eff m)) ∨ (is_Ok r = false ∧ dl_holds cfg a' m)) →
  (∀ m, (∀ c, m !! c = if decide (home c = d) then lv c else None) →
     ∀ c, eff m !! c = if decide (home c = d) then lv' c else None) →
  (∀ c, home c ≠ d → lv' c = lv c) →
  drive_request d req k = (k', r) →
  kx_shards k' = kx_shards k ∧ kx_inverse k' = kx_inverse k ∧
  (∀ d', is_Some (kx_arenas k' !! d') ↔ is_Some (kx_arenas k !! d')) ∧
  ((r = Ok tt ∧ is_Some (kx_arenas k !! d) ∧ logs_inv home cfgs (kx_arenas k') lv') ∨
   (is_Ok r = false ∧ logs_inv home cfgs (kx_arenas k') lv)).
Proof.
  intros Hl Hreq Heff Hother. unfold drive_request.
  destruct (kx_arenas k !! d) as [[a|]|] eqn:Hd; [|intros [= <- <-]; split_and!; [done..|]; by right..].
  destruct (req a) as [a' ra] eqn:Ea. intros [= <- <-]. cbn [kx_shards kx_inverse kx_arenas].
  destruct (Hl d (Some a) Hd) as (cfg & a0 & m & Hin & Hid & [= <-] & Hh & Hm).
  assert (∀ m' lv'', dl_holds cfg a' m' → (∀ c, m' !! c = if decide (home c = d) then lv'' c else None) →
    (∀ c, home c ≠ d → lv'' c = lv c) → logs_inv home cfgs (<[d:=Some a']> (kx_arenas k)) lv'') as Hnew.
  { intros m' lv'' Hh' Hm' Hoth d' o Ho. destruct (decide (d' = d)) as [-> | Hne].
    - rewrite lookup_insert_eq in Ho. injection Ho as <-. by exists cfg, a', m'.
    - rewrite lookup_insert_ne in Ho by done. destruct (Hl d' o Ho) as (cfg2 & a2 & m2 & ? & ? & ? & ? & Hm2).
      exists cfg2, a2, m2. split_and!; [done..|]. intros c. rewrite Hm2. case_decide; [|done].
      symmetry. apply Hoth. congruence. }
  split_and!; [done..| |].
  - intros d'. destruct (decide (d' = d)) as [-> | Hne]; [rewrite lookup_insert_eq, Hd; split; eauto|].
    by rewrite lookup_insert_ne.
  - destruct (Hreq cfg a m a' ra Hm Hh Ea) as [[-> Hh']|[Hra Hh']].
    + left. split_and!; [done|eauto|]. eapply Hnew; [done|by apply Heff|done].
    + right. split; [by destruct ra|]. eapply Hnew; [done|done|done].
Qed.

Lemma entry_ok_mono home (arenas arenas' : gmap Z (option A)) c r :
  (∀ d, is_Some (arenas !! d) → is_Some (arenas' !! d)) → entry_ok home arenas c r → entry_ok home arenas' c r.
Proof. intros Hd (? & ? & ? & ?). split_and!; auto. Qed.

(** Replacing a shard by one whose entries belong there. *)
Lemma engine_inv_set home cfgs k k1 c s :
  engine_inv home cfgs k → kx_shards k1 = kx_shards k →
  (∀ d, is_Some (kx_arenas k !! d) → is_Some (kx_arenas k1 !! d)) →
  (∀ c' r, s !! c' = Some r → shard_of k c' = shard_of k c ∧ entry_ok home (kx_arenas k1) c' r) →
  logs_inv home cfgs (kx_arenas k1) (live (set_shard k1 (shard_of k c) s)) →
  engine_inv home cfgs (set_shard k1 (shard_of k c) s).
Proof.
  intros [Hne Hpl _ Hdr] Es Hdom Hs Hl. split; [| |done|by intros; apply Hdom, Hdr].
  - cbn. rewrite Es. intros E. apply Hne. apply length_zero_iff_nil. rewrite <-(length_insert _ (shard_of k c) s).
    by rewrite E.
  - intros i s' c' r. cbn [set_shard kx_shards kx_arenas]. rewrite Es.
    assert (shard_of (set_shard k1 (shard_of k c) s) c' = shard_of k c') as ->.
    { unfold shard_of at 1. cbn [set_shard kx_shards]. by rewrite length_insert, Es. }
    intros Hi Hc'. destruct (decide (i = shard_of k c)) as [-> | Hi'].
    + rewrite list_lookup_insert_eq in Hi by by apply shard_of_lt. injection Hi as <-. by apply Hs.
    + rewrite list_lookup_insert_ne in Hi by done. destruct (Hpl _ _ _ _ Hi Hc') as [? ?].
      split; [done|]. by eapply entry_ok_mono.
Qed.

Lemma shard_live_entries home cfgs k c c' r :
  engine_inv home cfgs k → shard_live k (shard_of k c) !! c' = Some r →
  shard_of k c' = shard_of k c ∧ entry_ok home (kx_arenas k) c' r.
Proof.
  intros Hinv. unfold shard_live. destruct (kx_shards k !! shard_of k c) as [s|] eqn:Hs; cbn.
  - intros Hc'. by eapply (ei_placed _ _ _ Hinv).
  - by rewrite lookup_empty.
Qed.

Lemma engine_inv_same home cfgs k k' :
  engine_inv home cfgs k → kx_shards k' = kx_shards k →
  (∀ d, is_Some (kx_arenas k !! d) → is_Some (kx_arenas k' !! d)) →
  logs_inv home cfgs (kx_arenas k') (live k) → engine_inv home cfgs k' ∧ ∀ c, live k' c = live k c.
Proof.
  intros [Hne Hpl _ Hdr] Es Hdom Hl.
  assert (∀ c, live k' c = live k c) as Hlive.
  { intros c. unfold live, shard_live, shard_of. by rewrite Es. }
  split; [|done]. split; [by rewrite Es| |by eapply logs_inv_ext|by intros; apply Hdom, Hdr].
  intros i s c r Hi Hc. rewrite Es in Hi. destruct (Hpl _ _ _ _ Hi Hc) as [? ?].
  split; [unfold shard_of; by rewrite Es|by eapply entry_ok_mono].
Qed.

(** An update of one chunk: [f] gives its new entry from the old one. *)
Definition update_at (c : ChunkId) (f : option LocationRecord → option LocationRecord)
    (lv : ChunkId → option LocationRecord) : ChunkId → option LocationRecord :=
  fun c' => if decide (c' = c) then f (lv c) else lv c'.

Lemma live_update (k : Kix A) (c : ChunkId) (s : ShardState) f (c' : ChunkId) :
  kx_shards k ≠ [] →
  (∀ c', s !! c' = update_at c f (live k) c' ∨ shard_of k c' ≠ shard_of k c) →
  live (set_shard k (shard_of k c) s) c' = update_at c f (live k) c'.
Proof.
  intros Hne Hs. rewrite live_set_shard by done. case_decide as Heq.
  - destruct (Hs c') as [-> | ?]; [|done]. done.
  - unfold update_at. case_decide; [|done]. subst. done.
Qed.

Lemma update_shard_at (k : Kix A) (c : ChunkId) (upd : ShardState → ShardState) f :
  (∀ s c', upd s !! c' = if decide (c' = c) then f (s !! c) else s !! c') →
  ∀ c', upd (shard_live k (shard_of k c)) !! c' = update_at c f (live k) c' ∨ shard_of k c' ≠ shard_of k c.
Proof.
  intros Hupd c'. destruct (decide (shard_of k c' = shard_of k c)) as [Heq|Hneq]; [left|by right].
  rewrite Hupd. unfold update_at. case_decide; [done|]. unfold live. by rewrite Heq.
Qed.

(** The client's updates: log the delta, then change the shard (and what [post] keeps
    besides the index); on an error nothing changes. *)
Definition logged_update (shard : nat) (d : Z) (delta : DeltaEntry) (upd : ShardState → ShardState)
    (post : Kix A → Kix A) : M (Kix A) KixError unit :=
  _ ← drive_request d (dl_append [delta]);
  k ← get_state;
  put_state (post (set_shard k shard (upd (shard_live k shard)))).

Lemma logged_update_inv home cfgs k c delta upd post f k' res :
  engine_inv home cfgs k → op_wf (OpDeltas [delta]) →
  (∀ k, kx_shards (post k) = kx_shards k ∧ kx_arenas (post k) = kx_arenas k) →
  (∀ s c', upd s !! c' = if decide (c' = c) then f (s !! c) else s !! c') →
  (∀ m c', apply_delta m delta !! c' = if decide (c' = c) then f (m !! c) else m !! c') →
  (∀ r, f (live k c) = Some r → chunk_id_wf c ∧ location_record_wf r ∧ lr_drive_id r = home c) →
  logged_update (shard_of k c) (home c) delta upd post k = (k', res) →
  engine_inv home cfgs k' ∧
  ((res = Ok tt ∧ ∀ c', live k' c' = update_at c f (live k) c') ∨
   (is_Ok res = false ∧ ∀ c', live k' c' = live k c')).
Proof.
  intros Hinv Hop Hpost Hupd Happ Hf. pose proof (ei_shards _ _ _ Hinv) as Hne. unfold logged_update.
  destruct (drive_request (home c) (dl_append [delta]) k) as [k1 r1] eqn:E1. pose proof E1 as E0.
  apply (drive_request_spec home cfgs _ _ _ (fun m => apply_delta m delta) (live k)
    (update_at c f (live k))) in E1 as (Es & Ei & Hdom & Hcase).
  - destruct Hcase as [(-> & Hsome & Hl)|[Hr1 Hl]].
    + rewrite (M_bind_run _ _ k k1 tt) by done. rewrite (M_bind_run _ _ k1 k1 k1) by done. intros [= <- <-].
      set (k2 := set_shard k1 (shard_of k c) (upd (shard_live k1 (shard_of k c)))).
      assert (∀ c', shard_of k1 c' = shard_of k c') as Esh by (intros c'; unfold shard_of; by rewrite Es).
      assert (∀ i, shard_live k1 i = shard_live k i) as Esl by (intros i; unfold shard_live; by rewrite Es).
      assert (∀ c', live k1 c' = live k c') as Elv by (intros c'; unfold live; by rewrite Esh, Esl).
      assert (∀ c', live k2 c' = update_at c f (live k) c') as Hlive.
      { intros c'. subst k2. rewrite <-Esh. rewrite (live_update k1 c _ f); [|by rewrite Es|by apply update_shard_at].
        unfold update_at. case_decide; by rewrite Elv. }
      assert (engine_inv home cfgs k2) as Hset.
      { apply (engine_inv_set home cfgs k k1); [done|done|by intros d; apply Hdom| |by eapply logs_inv_ext].
        intros c' r'. rewrite Hupd, Esl. case_decide as Hcc.
        - subst c'. intros Hr'. split; [done|]. destruct (Hf r' Hr') as (? & ? & ?).
          split_and!; [done..|]. by apply Hdom.
        - intros Hc'. destruct (shard_live_entries _ _ _ _ _ _ Hinv Hc') as [? ?]. split; [done|].
          eapply entry_ok_mono; [|done]. intros d. apply Hdom. }
      destruct (Hpost k2) as [Eps Epa].
      destruct (engine_inv_same home cfgs k2 (post k2) Hset Eps) as [Hfin Hlv]; [by rewrite Epa|rewrite Epa; apply Hset|].
      split; [done|]. left. split; [done|]. intros c'. by rewrite Hlv.
    + destruct r1 as [|e]; [done|]. rewrite (M_bind_Err _ _ k k1 e) by done. intros [= <- <-].
      destruct (engine_inv_same home cfgs k k1 Hinv Es) as [? ?]; [by intros d; apply Hdom|done|].
      split; [done|]. by right.
  - apply Hinv.
  - intros cfg a m a' ra _ Hh Ea. by eapply (dl_append_spec cfg a m [delta]).
  - intros m Hm c'. rewrite Happ. unfold update_at. rewrite !Hm.
    destruct (decide (c' = c)) as [-> | Hcc]; [by rewrite !decide_True|done].
  - intros c' Hc'. unfold update_at. case_decide; [|done]. congruence.
Qed.

(** ** The client operations *)

(** The inverse is not part of the index. *)
Lemma update_inverse_index d slot c g (k : Kix A) :
  kx_shards (update_inverse d slot c g k) = kx_shards k ∧ kx_arenas (update_inverse d slot c g k) = kx_arenas k.
Proof. unfold update_inverse. by destruct (kx_inverse k !! d). Qed.

Lemma kix_upsert_inv home cfgs k c slot r k' res :
  engine_inv home cfgs k → chunk_id_wf c → location_record_wf r → lr_drive_id r = home c →
  kix_upsert c slot r k = (k', res) →
  engine_inv home cfgs k' ∧
  ((res = Ok tt ∧ ∀ c', live k' c' = update_at c (fun o => fenced o r) (live k) c') ∨
   (is_Ok res = false ∧ ∀ c', live k' c' = live k c')).
Proof.
  intros Hinv Hc Hr Hhome. pose proof (ei_shards _ _ _ Hinv) as Hne. unfold kix_upsert.
  rewrite (M_bind_run _ _ k k k) by done. rewrite shard_index_for_ok by done.
  rewrite (M_bind_run _ _ k k (shard_of k c)) by done. rewrite Hhome. intros Hrun.
  apply (logged_update_inv home cfgs k c (delta_upsert c r) (fun s => shard_upsert s c r)
    (update_inverse (home c) slot c (lr_generation r)) (fun o => fenced o r)); try done.
  - split; [by apply Forall_singleton|done].
  - intros k0. apply update_inverse_index.
  - intros s c'. apply shard_upsert_lookup.
  - intros m c'. apply apply_upsert_lookup.
  - intros r' Hf. unfold fenced in Hf. destruct (live k c) as [e|] eqn:Ee; [|by injection Hf as <-].
    destruct (_ <=? _); injection Hf as <-; [done|].
    destruct (shard_live_entries _ _ _ c c e Hinv Ee) as [_ (? & ? & ? & _)]. done.
Qed.

Lemma kix_delete_inv home cfgs k c k' res :
  engine_inv home cfgs k → kix_delete c k = (k', res) →
  engine_inv home cfgs k' ∧
  ((res = Ok tt ∧ ∀ c', live k' c' = update_at c (fun _ => None) (live k) c') ∨
   (is_Ok res = false ∧ ∀ c', live k' c' = live k c')).
Proof.
  intros Hinv. pose proof (ei_shards _ _ _ Hinv) as Hne. unfold kix_delete.
  rewrite (M_bind_run _ _ k k k) by done. rewrite shard_index_for_ok by done.
  rewrite (M_bind_run _ _ k k (shard_of k c)) by done. unfold drive_id_for.
  destruct (shard_live k (shard_of k c) !! c) as [e|] eqn:Ee; cbn [fmap option_fmap option_map].
  - destruct (shard_live_entries _ _ _ c c e Hinv Ee) as [_ (Hc & Hr & Hhome & _)]. rewrite Hhome. intros Hrun.
    apply (logged_update_inv home cfgs k c (delta_delete c) (delete c) id (fun _ => None)); try done.
    + split; [by apply Forall_singleton|done].
    + intros s c'. case_decide as Hcc; [subst; by rewrite lookup_delete_eq|by rewrite lookup_delete_ne].
    + intros m c'. unfold apply_delta, delta_delete. cbn.
      case_decide as Hcc; [subst; by rewrite lookup_delete_eq|by rewrite lookup_delete_ne].
  - intros [= <- <-]. split; [done|]. left. split; [done|]. intros c'. unfold update_at.
    case_decide; [subst; done|done].
Qed.

(** ** Checkpoints *)

Lemma insert_all_Some (es : list (ChunkId * LocationRecord)) c r : insert_all es !! c = Some r → (c, r) ∈ es.
Proof.
  unfold insert_all. induction es as [|[c' r'] es IH] using rev_ind; [cbn [foldl]; by rewrite lookup_empty|].
  rewrite foldl_app. cbn [foldl fst snd]. destruct (decide (c = c')) as [-> | Hne].
  - rewrite lookup_insert_eq. intros [= ->]. set_solver.
  - rewrite lookup_insert_ne by done. set_solver.
Qed.

Lemma insert_all_None (es : list (ChunkId * LocationRecord)) c r : insert_all es !! c = None → (c, r) ∉ es.
Proof.
  unfold insert_all. induction es as [|[c' r'] es IH] using rev_ind; [intros _ Hin; by apply elem_of_nil in Hin|].
  rewrite foldl_app. cbn [foldl fst snd]. destruct (decide (c = c')) as [-> | Hne].
  - by rewrite lookup_insert_eq.
  - rewrite lookup_insert_ne by done. intros Hn [Hin | [= -> ->]%list_elem_of_singleton]%elem_of_app; [|done].
    by apply IH in Hn.
Qed.

(** A list that is the graph of [lv] builds the map [lv]. *)
Lemma insert_all_graph (es : list (ChunkId * LocationRecord)) (lv : ChunkId → option LocationRecord) :
  (∀ c r, (c, r) ∈ es ↔ lv c = Some r) → ∀ c, insert_all es !! c = lv c.
Proof.
  intros Hes c. destruct (insert_all es !! c) as [r|] eqn:E.
  - symmetry. apply Hes. by apply insert_all_Some.
  - destruct (lv c) as [r|] eqn:El; [|done]. apply Hes in El. by apply (insert_all_None _ _ r) in E.
Qed.

Lemma snapshot_graph home cfgs (k : Kix A) c r :
  engine_inv home cfgs k → (c, r) ∈ snapshot_entries k ↔ live k c = Some r.
Proof.
  intros Hinv. unfold snapshot_entries. rewrite list_elem_of_bind. split.
  - intros (s & Hc%elem_of_map_to_list & [i Hi]%list_elem_of_lookup).
    destruct (ei_placed _ _ _ Hinv _ _ _ _ Hi Hc) as [Hsh _]. unfold live, shard_live. by rewrite Hsh, Hi.
  - unfold live, shard_live. intros Hc. destruct (kx_shards k !! shard_of k c) as [s|] eqn:Hs; cbn in Hc;
      [|by rewrite lookup_empty in Hc].
    exists s. split; [by apply elem_of_map_to_list|]. by eapply list_elem_of_lookup_2.
Qed.

Lemma drive_entries_graph home cfgs (k : Kix A) d c :
  engine_inv home cfgs k →
  insert_all (drive_entries k d) !! c = if decide (home c = d) then live k c else None.
Proof.
  intros Hinv. set (lv := fun c => if decide (home c = d) then live k c else None).
  change (insert_all (drive_entries k d) !! c = lv c). apply insert_all_graph. subst lv. intros c' r. unfold drive_entries. rewrite list_elem_of_filter, (snapshot_graph home cfgs) by done. cbn [snd].
  split.
  - intros [Hd Hl]. destruct (shard_live_entries _ _ _ c' c' r Hinv Hl) as [_ (_ & _ & Hh & _)].
    by rewrite decide_True by congruence.
  - case_decide as Hd; [|done]. intros Hl.
    destruct (shard_live_entries _ _ _ c' c' r Hinv Hl) as [_ (_ & _ & Hh & _)]. split; [congruence|done].
Qed.

(** An index whose checkpoint stays below the 4 GiB a frame can describe. *)
Definition index_small (k : Kix A) : Prop := len (snapshot_entries k) * CHECKPOINT_ENTRY_LEN + 8196 ≤ 2 ^ 32.

Lemma drive_entries_wf home cfgs (k : Kix A) d :
  engine_inv home cfgs k → index_small k → op_wf (OpCheckpoint (drive_entries k d)).
Proof.
  intros Hinv Hsmall. split.
  - apply Forall_forall. intros [c r] [_ Hin]%list_elem_of_filter.
    apply (snapshot_graph home cfgs) in Hin; [|done].
    destruct (shard_live_entries _ _ _ c c r Hinv Hin) as [_ (? & ? & _)]. done.
  - pose proof (length_filter (fun e : ChunkId * LocationRecord => lr_drive_id e.2 = d) (snapshot_entries k)) as Hl.
    unfold index_small, drive_entries, CHECKPOINT_ENTRY_LEN, LOCATION_ENCODED_LEN in *. lia.
Qed.

Lemma checkpoint_drives_inv home cfgs k0 drives k k' res :
  engine_inv home cfgs k0 → index_small k0 → engine_inv home cfgs k → kx_shards k = kx_shards k0 →
  checkpoint_drives k0 drives k = (k', res) →
  engine_inv home cfgs k' ∧ ∀ c, live k' c = live k0 c.
Proof.
  intros Hinv0 Hsmall. revert k. induction drives as [|d drives IH]; intros k Hinv Es.
  { intros [= <- <-]. split; [done|]. intros c. unfold live, shard_live, shard_of. by rewrite Es. }
  cbn [checkpoint_drives].
  destruct (drive_request d (dl_checkpoint (drive_entries k0 d)) k) as [k1 r1] eqn:E1. pose proof E1 as E0.
  assert (∀ c, live k c = live k0 c) as Hlive by (intros c; unfold live, shard_live, shard_of; by rewrite Es).
  apply (drive_request_spec home cfgs _ _ _ (fun _ => insert_all (drive_entries k0 d)) (live k) (live k))
    in E1 as (Es1 & _ & Hdom & Hcase).
  - destruct (engine_inv_same home cfgs k k1 Hinv Es1) as [Hinv1 Hl1]; [by intros d'; apply Hdom|by destruct Hcase as [(_ & _ & ?)|[_ ?]]|].
    destruct r1 as [[]|e].
    + rewrite (M_bind_run _ _ k k1 tt) by done. apply IH; [done|congruence].
    + rewrite (M_bind_Err _ _ k k1 e) by done. intros [= <- <-]. split; [done|]. intros c. by rewrite Hl1.
  - apply Hinv.
  - intros cfg a m a' ra _ Hh Ea. eapply dl_checkpoint_spec; [done|by eapply drive_entries_wf|done].
  - intros m Hm c. rewrite (drive_entries_graph home cfgs) by done. by rewrite Hlive.
  - done.
Qed.

(** ** Runs of the client *)

(** One operation of a client, with whatever answer it gets. Chunks keep their home
    drive. *)
Inductive client_step (home : ChunkId → Z) : Kix A → Kix A → Prop :=
| step_upsert k c slot r k' res :
    chunk_id_wf c → location_record_wf r → lr_drive_id r = home c →
    kix_upsert c slot r k = (k', res) → client_step home k k'
| step_delete k c k' res : kix_delete c k = (k', res) → client_step home k k'
| step_checkpoint k order k' res :
    index_small k → checkpoint_all order k = (k', res) → client_step home k k'
| step_seed k d slot c generation : client_step home k (update_inverse d slot c generation k)
| step_clear k d slot : client_step home k (clear_granule_inverse d slot k).

Lemma client_step_inv home cfgs k k' :
  engine_inv home cfgs k → client_step home k k' → engine_inv home cfgs k'.
Proof.
  intros Hinv Hs. destruct Hs as [k c slot r k' res Hc Hr Hh Hrun|k c k' res Hrun|k order k' res Hsmall Hrun|k d slot c g|k d slot].
  - by eapply kix_upsert_inv.
  - by eapply kix_delete_inv.
  - unfold checkpoint_all in Hrun. rewrite (M_bind_run _ _ k k k) in Hrun by done.
    by eapply checkpoint_drives_inv.
  - destruct (update_inverse_index d slot c g k) as [Es Ea].
    eapply engine_inv_same; [done|done|by rewrite Ea|rewrite Ea; apply Hinv].
  - assert (kx_shards (clear_granule_inverse d slot k) = kx_shards k ∧
      kx_arenas (clear_granule_inverse d slot k) = kx_arenas k) as [Es Ea]
      by (unfold clear_granule_inverse; by destruct (kx_inverse k !! d)).
    eapply engine_inv_same; [done|done|by rewrite Ea|rewrite Ea; apply Hinv].
Qed.

Lemma client_run_inv home cfgs k k' :
  engine_inv home cfgs k → rtc (client_step home) k k' → engine_inv home cfgs k'.
Proof. intros Hinv Hr. induction Hr as [|k k1 k' Hs _ IH]; [done|]. apply IH. by eapply client_step_inv. Qed.

End index.

(** ** Restart *)

Section restart.
Context `{Crc32}.

(** The files a stopped engine leaves behind. *)
Definition stopped_drives (k : Kix DriveArena) (cfgs : list DriveConfig) : list (DriveConfig * option Store) :=
  (fun cfg => (cfg, da_store <$> mjoin (kx_arenas k !! cfg_id cfg))) <$> cfgs.

Lemma open_drive_inv cfg a m n :
  arena_inv cfg a m n →
  open_drive (cfg, Some (da_store a))
  = Ok (mkDriveRecovery (da_drive_id a) m (da_write_head a) false false n, Some a).
Proof.
  intros I. unfold open_drive. cbn [fst snd]. rewrite (recover_inv _ _ _ _ I). cbn [from_option id].
  rewrite result_bind_eq. unfold open_drive_writer. cbn [dr_rebuild_required dr_tail_corruption].
  rewrite open_config_wf; [done|apply I..].
Qed.

(** What reopening finds for one configured drive of [k]. *)
Definition reopened (home : ChunkId → Z) (k : Kix DriveArena) (cfg : DriveConfig)
    (p : DriveRecovery * option DriveArena) : Prop :=
  ∃ a m n, kx_arenas k !! cfg_id cfg = Some (Some a) ∧ arena_inv cfg a m n ∧ p.2 = Some a ∧
    dr_entries p.1 = m ∧ dr_rebuild_required p.1 = false ∧
    ∀ c, m !! c = if decide (home c = cfg_id cfg) then live k c else None.

Lemma cfg_unique (cfgs : list DriveConfig) cfg1 cfg2 :
  NoDup (cfg_id <$> cfgs) → cfg1 ∈ cfgs → cfg2 ∈ cfgs → cfg_id cfg1 = cfg_id cfg2 → cfg1 = cfg2.
Proof.
  intros Hnd [i Hi]%list_elem_of_lookup [j Hj]%list_elem_of_lookup Heq.
  assert (i = j) as <-.
  { apply (NoDup_lookup (cfg_id <$> cfgs) i j (cfg_id cfg1)); [done|by rewrite list_lookup_fmap, Hi|].
    by rewrite list_lookup_fmap, Hj, Heq. }
  congruence.
Qed.

Lemma reopen_drives home cfgs k cfgs' :
  engine_inv home cfgs k → NoDup (cfg_id <$> cfgs) → (∀ cfg, cfg ∈ cfgs' → cfg ∈ cfgs) →
  ∃ opened, try_map open_drive (stopped_drives k cfgs') = Ok opened ∧ Forall2 (reopened home k) cfgs' opened.
Proof.
  intros Hinv Hnd. induction cfgs' as [|cfg cfgs' IH]; intros Hsub; [by exists []|].
  destruct IH as (opened & E & Hf); [set_solver|].
  destruct (ei_drives _ _ _ Hinv cfg ltac:(set_solver)) as [o Ho].
  destruct (ei_logs _ _ _ Hinv _ _ Ho) as (cfg2 & a & m & Hin2 & Hid & -> & [n I] & Hm).
  assert (cfg2 = cfg) as -> by (eapply cfg_unique; [done|done|set_solver|done]).
  eexists (_ :: opened). split.
  - cbn [stopped_drives fmap list_fmap try_map]. rewrite Ho. cbn [mjoin option_join fmap option_fmap option_map].
    rewrite (open_drive_inv _ _ _ _ I), result_bind_eq. fold (stopped_drives k cfgs'). by rewrite E.
  - constructor; [|done]. exists a, m, n. split_and!; done.
Qed.

Lemma foldl_push count es shards i l :
  shards !! i = Some l →
  foldl (push_entry count) shards es !! i
  = Some (l ++ filter (fun e => Z.to_nat (shard_for e.1 count) = i) es).
Proof.
  revert shards l. induction es as [|e es IH]; intros shards l Hi; [by rewrite app_nil_r|].
  cbn [foldl]. rewrite filter_cons. destruct (decide (Z.to_nat (shard_for e.1 count) = i)) as [Heq|Hne].
  - rewrite (IH _ (l ++ [e])); [by rewrite <-app_assoc|]. unfold push_entry. rewrite Heq, list_lookup_alter_eq, Hi. done.
  - apply IH. unfold push_entry. by rewrite list_lookup_alter_ne.
Qed.

Lemma foldl_push_length count es shards : length (foldl (push_entry count) shards es) = length shards.
Proof.
  revert shards. induction es as [|e es IH]; intros shards; [done|]. cbn [foldl]. rewrite IH. apply length_alter.
Qed.

Lemma reopened_entries home cfgs k opened c r :
  engine_inv home cfgs k → Forall2 (reopened home k) cfgs opened →
  (c, r) ∈ (opened.*1 ≫= fun rec => map_to_list (dr_entries rec)) ↔ live k c = Some r.
Proof.
  intros Hinv Hf. rewrite list_elem_of_bind. split.
  - intros (rec & Hc%elem_of_map_to_list & (p & -> & Hp)%list_elem_of_fmap).
    apply list_elem_of_lookup in Hp as [i Hi]. destruct (Forall2_lookup_r _ _ _ _ _ Hf Hi) as (cfg & _ & Hr).
    destruct Hr as (a & m & n & _ & _ & _ & <- & _ & Hm). rewrite Hm in Hc. by case_decide.
  - intros Hl. destruct (shard_live_entries _ _ _ c c r Hinv Hl) as [_ (_ & _ & _ & [o Ho])].
    destruct (ei_logs _ _ _ Hinv _ _ Ho) as (cfg & _ & _ & Hin & Hid & _).
    apply list_elem_of_lookup in Hin as [i Hi]. destruct (Forall2_lookup_l _ _ _ _ _ Hf Hi) as (p & Hp & Hr).
    destruct Hr as (a & m & n & _ & _ & _ & Hmm & _ & Hm). exists p.1. split.
    + apply elem_of_map_to_list. rewrite Hmm, Hm. by rewrite decide_True.
    + apply list_elem_of_fmap. exists p. split; [done|]. by eapply list_elem_of_lookup_2.
Qed.

Lemma reopened_arenas home k cfgs opened d o :
  NoDup (cfg_id <$> cfgs) → Forall2 (reopened home k) cfgs opened →
  (list_to_map (zip (cfg_id <$> cfgs) opened.*2) : gmap Z (option DriveArena)) !! d = Some o ↔
  ∃ cfg p, reopened home k cfg p ∧ cfg ∈ cfgs ∧ cfg_id cfg = d ∧ o = p.2.
Proof.
  intros Hnd Hf. pose proof (Forall2_length _ _ _ Hf) as Hlen.
  rewrite <-elem_of_list_to_map by (rewrite fst_zip; [done|rewrite !length_fmap; lia]). split.
  - intros [i Hi]%list_elem_of_lookup. apply lookup_zip_with_Some in Hi as (d' & o' & [= <- <-] & Hd & Ho).
    apply list_lookup_fmap_Some in Hd as (cfg & -> & Hcfg). apply list_lookup_fmap_Some in Ho as (p & -> & Hp).
    exists cfg, p. split_and!; [|by eapply list_elem_of_lookup_2|done|done]. by eapply Forall2_lookup_lr.
  - intros (cfg & p & Hr & [i Hi]%list_elem_of_lookup & <- & ->).
    destruct (Forall2_lookup_l _ _ _ _ _ Hf Hi) as (p' & Hp' & Hr').
    assert (p'.2 = p.2) as <-.
    { destruct Hr as (a & _ & _ & Ha & _ & -> & _), Hr' as (a' & _ & _ & Ha' & _ & -> & _). congruence. }
    eapply list_elem_of_lookup_2. apply lookup_zip_with_Some. exists (cfg_id cfg), p'.2. split; [done|].
    split; [by rewrite list_lookup_fmap, Hi|by rewrite list_lookup_fmap, Hp'].
Qed.

(** The shards built at open hold exactly the recovered entries. *)
Lemma opened_live count es arenas inverse (lv : ChunkId → option LocationRecord) c :
  0 < count → (∀ c r, (c, r) ∈ es ↔ lv c = Some r) →
  let k := mkKix (A:=DriveArena) (shard_new <$> foldl (push_entry count) (replicate (Z.to_nat count) []) es) arenas inverse in
  len (kx_shards k) = count ∧ live k c = lv c ∧
  ∀ i s c r, kx_shards k !! i = Some s → s !! c = Some r → shard_of k c = i ∧ lv c = Some r.
Proof.
  intros Hcount Hes k.
  assert (len (kx_shards k) = count) as Hlen.
  { cbn. rewrite length_fmap, foldl_push_length, length_replicate. lia. }
  assert (∀ i s, kx_shards k !! i = Some s →
    ∀ c, s !! c = if decide (Z.to_nat (shard_for c count) = i) then lv c else None) as Hsh.
  { intros i s Hi c'. cbn in Hi. apply list_lookup_fmap_Some in Hi as (l & -> & Hl).
    assert (i < Z.to_nat count)%nat as Hlt.
    { apply lookup_lt_Some in Hl. by rewrite foldl_push_length, length_replicate in Hl. }
    rewrite (foldl_push _ _ _ _ []) in Hl by (by apply lookup_replicate_2). injection Hl as <-.
    change (shard_new ?l) with (insert_all l).
    set (lv' := fun c => if decide (Z.to_nat (shard_for c count) = i) then lv c else None).
    change (insert_all ([] ++ filter (fun e => Z.to_nat (shard_for e.1 count) = i) es) !! c' = lv' c').
    apply insert_all_graph. intros c2 r2. cbn [app]. rewrite list_elem_of_filter, Hes. subst lv'. cbn [fst].
    case_decide; [|by split; [intros [? _]|]]. split; [by intros [_ ?]|done]. }
  assert (∀ c, shard_of k c = Z.to_nat (shard_for c count)) as Hso by (intros c'; unfold shard_of; by rewrite Hlen).
  split_and!; [done| |].
  - unfold live, shard_live. destruct (lookup_lt_is_Some_2 (kx_shards k) (shard_of k c)) as [s Hs].
    { apply shard_of_lt. intros E. rewrite E in Hlen. cbn in Hlen. lia. }
    rewrite Hs. cbn [from_option id]. rewrite (Hsh _ _ Hs), Hso. by rewrite decide_True.
  - intros i s c' r Hi Hc. rewrite (Hsh _ _ Hi) in Hc. case_decide as Hd; [|done]. by rewrite Hso.
Qed.

Lemma reopened_no_rebuild home k cfgs opened :
  Forall2 (reopened home k) cfgs opened → filter (fun r => dr_rebuild_required r = true) opened.*1 = [].
Proof.
  induction 1 as [|cfg p cfgs opened (a & m & n & _ & _ & _ & _ & Hrb & _) _ IH]; [done|].
  cbn [fmap list_fmap]. rewrite filter_cons, decide_False by (by rewrite Hrb). done.
Qed.

(** A stopped engine reopens with the same index and an empty granule inverse. *)
Lemma engine_reopens home cfgs k count :
  engine_inv home cfgs k → NoDup (cfg_id <$> cfgs) → cfgs ≠ [] → 0 < count →
  ∃ k', engine_open count (stopped_drives k cfgs) = Ok (k', []) ∧ engine_inv home cfgs k' ∧
    (∀ c, live k' c = live k c) ∧ kx_inverse k' = list_to_map ((fun id => (id, ∅)) <$> (cfg_id <$> cfgs)).
Proof.
  intros Hinv Hnd Hne Hcount.
  destruct (reopen_drives home cfgs k cfgs Hinv Hnd) as (opened & E & Hf); [done|].
  assert ((stopped_drives k cfgs).*1 = cfgs) as Efst.
  { unfold stopped_drives. rewrite <-list_fmap_compose. apply list_fmap_id. }
  unfold engine_open. destruct (Z.eqb_spec count 0) as [|_]; [lia|].
  rewrite bool_decide_eq_false_2 by (by destruct cfgs). rewrite Efst.
  rewrite (bool_decide_eq_true_2 (NoDup _)) by done. cbn [negb]. rewrite E. cbn [map_err]. rewrite result_bind_eq.
  pose proof (fun c r => reopened_entries home cfgs k opened c r Hinv Hf) as Hes.
  rewrite (reopened_no_rebuild _ _ _ _ Hf). eexists. split; [done|].
  set (k' := mkKix _ _ _).
  pose proof (fun c => opened_live count _ (kx_arenas k') (kx_inverse k') (live k) c Hcount Hes) as Hopen.
  destruct (Hopen []) as (Hlen & _ & Hpl).
  assert (kx_shards k' ≠ []) as Hsh by (intros E2; change (len (kx_shards k') = count) in Hlen; rewrite E2 in Hlen; cbn in Hlen; lia).
  assert (∀ d o, kx_arenas k' !! d = Some o ↔ ∃ cfg p, reopened home k cfg p ∧ cfg ∈ cfgs ∧ cfg_id cfg = d ∧ o = p.2)
    as Har by (intros d o; by apply reopened_arenas).
  assert (∀ cfg, cfg ∈ cfgs → is_Some (kx_arenas k' !! cfg_id cfg)) as Hdr.
  { intros cfg [i Hi]%list_elem_of_lookup. destruct (Forall2_lookup_l _ _ _ _ _ Hf Hi) as (p & Hp & Hr).
    exists p.2. apply Har. exists cfg, p. split_and!; [done|by eapply list_elem_of_lookup_2|done|done]. }
  split; [split; [done| | |done]|split; [|done]].
  - intros i s c r Hi Hc. destruct (Hpl i s c r Hi Hc) as [Hso Hl]. split; [done|].
    destruct (shard_live_entries _ _ _ c c r Hinv Hl) as [_ (? & ? & ? & [o Ho])]. split_and!; [done..|].
    destruct (ei_logs _ _ _ Hinv _ _ Ho) as (cfg & _ & _ & Hin & <- & _). by apply Hdr.
  - intros d o (cfg & p & (a & m & n & Ha & I & Hp2 & _ & _ & Hm) & Hin & <- & ->)%Har.
    exists cfg, a, m. split_and!; [done..|by exists n|]. intros c. rewrite Hm. case_decide; [|done].
    symmetry. apply (proj1 (proj2 (Hopen c))).
  - intros c. apply (proj1 (proj2 (Hopen c))).
Qed.

(** C17: Restarting never changes the index: from any state the engine reaches by
    upserts, deletes, checkpoints and inverse updates, successful or refused, reopening
    the drives with any number of shards succeeds, asks for no rebuild and answers every
    lookup as before. Each chunk is only ever upserted on its home drive, and a checkpoint
    is taken when the index fits one checkpoint frame ([client_step]). *)
Theorem engine_restart home cfgs k0 k count :
  engine_inv home cfgs k0 → rtc (client_step home) k0 k →
  NoDup (cfg_id <$> cfgs) → cfgs ≠ [] → 0 < count →
  ∃ k', engine_open count (stopped_drives k cfgs) = Ok (k', []) ∧
    engine_inv home cfgs k' ∧ ∀ c, kix_get k' c = kix_get k c.
Proof.
  intros Hinv0 Hrun Hnd Hne Hcount. pose proof (client_run_inv _ _ _ _ Hinv0 Hrun) as Hinv.
  destruct (engine_reopens home cfgs k count Hinv Hnd Hne Hcount) as (k' & E & Hinv' & Hl & _).
  exists k'. split_and!; [done..|]. intros c. rewrite !kix_get_live by (apply Hinv || apply Hinv'). by rewrite Hl.
Qed.

End restart.
