(* ===== verification/EngineExamples.v ===== *)
(** The engine theorems applied to one drive with a freshly formatted arena. *)
From S2P Require Import Prelude Bytes Device KixTypes Arena ArenaCodec ArenaInv ArenaOps ArenaOpen ArenaExamples Engine EngineProps.

#[local] Existing Instance crc32_software.

Opaque zeroed splice slice.

Definition en_home (c : ChunkId) : Z := 3.
Definition en_kix : Kix DriveArena :=
  mkKix [∅; ∅; ∅] {[3 := Some ex_formatted]} {[3 := ∅]}.

Lemma en_inv : engine_inv en_home [ex_config] en_kix.
Proof.
  assert (∀ c, live en_kix c = None) as Hlive.
  { intros c. unfold live, shard_live. cbn [kx_shards en_kix].
    destruct (shard_of en_kix c) as [|[|[|i]]]; cbn; apply lookup_empty. }
  split.
  - done.
  - intros i s c r Hi Hc. assert (s = ∅) as ->.
    { destruct i as [|[|[|i]]]; cbn in Hi; by simplify_eq. }
    by rewrite lookup_empty in Hc.
  - intros d o Ho. cbn in Ho. apply lookup_singleton_Some in Ho as [<- <-].
    exists ex_config, ex_formatted, ∅. split_and!; [set_solver|done|done| |].
    + exists 0. apply ex_inv.
    + intros c. rewrite lookup_empty, Hlive. by case_decide.
  - intros cfg ->%list_elem_of_singleton. cbn. rewrite lookup_singleton_eq. eauto.
Qed.

Lemma en_holds : dl_holds ex_config ex_formatted ∅.
Proof. exists 0. apply ex_inv. Qed.

Definition en_dx : DeltaEntry := delta_upsert ex_x (ex_record 1).
Definition en_dy : DeltaEntry := delta_upsert ex_y (ex_record 5).

(** Two appends with an empty poll between them, and a stop. *)
Definition en_polls : polls := [Some (ReqAppend en_dx); None; Some (ReqAppend en_dy); Some ReqStop].

Lemma drive_main_coalesces_witness :
  ∃ a replies, drive_main 4 None en_polls ex_formatted = (a, replies) ∧
    replies.*1 = [ReqAppend en_dx; ReqAppend en_dy].
Proof.
  destruct (drive_main 4 None en_polls ex_formatted) as [a replies] eqn:E.
  destruct (drive_main_coalesces ex_config 4 en_polls ex_formatted ∅ a replies en_holds
    ltac:(repeat constructor; by vm_compute) ltac:(cbn; lia) E) as (_ & _ & Hr).
  exists a, replies. split; [reflexivity|]. apply (Hr [en_dx; en_dy]). right. reflexivity.
Defined.

Lemma drive_main_reorders_witness :
  ∃ a replies, drive_main 4 None [Some (ReqAppend en_dx); None; Some (ReqCheckpoint [(ex_x, ex_record 1)]);
      Some (ReqAppend en_dy)] ex_formatted = (a, replies) ∧
    replies.*1 = [ReqAppend en_dx; ReqAppend en_dy; ReqCheckpoint [(ex_x, ex_record 1)]].
Proof.
  destruct (drive_main 4 None [Some (ReqAppend en_dx); None; Some (ReqCheckpoint [(ex_x, ex_record 1)]);
      Some (ReqAppend en_dy)] ex_formatted) as [a replies] eqn:E.
  destruct (drive_main 4 None [Some (ReqAppend en_dx); None; Some (ReqCheckpoint []);
      Some (ReqCheckpoint [(ex_x, ex_record 1)])] ex_formatted) as [a2 replies2] eqn:E2.
  destruct (drive_main_reorders ex_config ex_formatted ∅ en_dx en_dy [(ex_x, ex_record 1)] [] a replies a2 replies2
    en_holds ltac:(repeat constructor; by vm_compute) E E2) as (Hr & _).
  exists a, replies. split; [reflexivity|exact Hr].
Defined.

Lemma en_x_wf : chunk_id_wf ex_x.
Proof. reflexivity. Qed.

Lemma en_record_wf : location_record_wf (ex_record 1).
Proof. by vm_compute. Qed.

Lemma engine_restart_witness :
  ∃ k k', client_step en_home en_kix k ∧ engine_open 5 (stopped_drives k [ex_config]) = Ok (k', []) ∧
    kix_get k' ex_x = kix_get k ex_x.
Proof.
  destruct (kix_upsert ex_x 4 (ex_record 1) en_kix) as [k res] eqn:E.
  assert (client_step en_home en_kix k) as Hs
    by exact (step_upsert en_home en_kix ex_x 4 (ex_record 1) k res en_x_wf en_record_wf eq_refl E).
  destruct (engine_restart en_home [ex_config] en_kix k 5 en_inv (rtc_once _ _ Hs)) as (k' & E' & _ & Hg);
    [by repeat constructor; intros ?%elem_of_nil|done|lia|].
  exists k, k'. split_and!; [done|exact E'|apply Hg].
Defined.
