(* ===== verification/Kst.v ===== *)
(** The storage target service (poc/kst/src/service.rs): the granule allocator, the
    per-slot publication state, and the request handlers that write, read, list and
    delete chunks on one drive.

    A handler is a function on the target's state that returns a response or an error
    status. Requests that run alone see no busy slot; a caller that finds one waits, which
    the model reports as [WouldBlock]. The index is seen through the class [ChunkIndex],
    the media through the operations of [ChunkMedia]. The outcome of a durability barrier
    is an argument of the handlers that issue one. *)
From S2P Require Import Prelude Bytes Device KixTypes Kp2 Kp2Http ChunkMedia Engine.

(** ** What the index offers to the target *)

Class ChunkIndex (K : Type) := {
  ix_get : K → ChunkId → result KixError (option LocationRecord);
  ix_upsert : ChunkId → Z → LocationRecord → M K KixError unit;
  ix_delete : ChunkId → M K KixError unit;
  ix_owner : K → Z → Z → option (ChunkId * Z);
  ix_clear : Z → Z → K → K;
  ix_seed : Z → Z → ChunkId → Z → K → K;
  ix_occupied : K → Z → list (Z * ChunkId * Z);
}.

#[export] Instance kix_chunk_index `{DeltaLog A} : ChunkIndex (Kix A) := {
  ix_get := kix_get;
  ix_upsert := kix_upsert;
  ix_delete := kix_delete;
  ix_owner := lookup_granule_chunk;
  ix_clear := clear_granule_inverse;
  ix_seed := update_inverse;
  ix_occupied := occupied_granules;
}.

(** ** The granule allocator *)

Record GranuleAllocator := mkGranuleAllocator {
  ga_key_slots : Z;
  ga_cursor : Z;
  ga_pending : gset Z;
}.

(** [GranuleAllocator::new] *)
Definition allocator_new (key_slots : Z) : GranuleAllocator := mkGranuleAllocator key_slots 0 ∅.

(** The scan of [allocate], at most [n] slots from the cursor on. *)
Fixpoint allocate_scan (n : nat) (is_occupied : Z → bool) (a : GranuleAllocator) :
    GranuleAllocator * option Z :=
  match n with
  | O => (a, None)
  | S n' =>
      let slot := ga_cursor a in
      let cursor := (ga_cursor a + 1) mod ga_key_slots a in
      if negb (bool_decide (slot ∈ ga_pending a)) && negb (is_occupied slot)
      then (mkGranuleAllocator (ga_key_slots a) cursor ({[slot]} ∪ ga_pending a), Some slot)
      else allocate_scan n' is_occupied (mkGranuleAllocator (ga_key_slots a) cursor (ga_pending a))
  end.

(** [GranuleAllocator::allocate] *)
Definition allocate (is_occupied : Z → bool) (a : GranuleAllocator) : GranuleAllocator * option Z :=
  if ga_key_slots a =? 0 then (a, None)
  else allocate_scan (Z.to_nat (ga_key_slots a)) is_occupied a.

(** [GranuleAllocator::release] *)
Definition release (slot : Z) (a : GranuleAllocator) : GranuleAllocator :=
  mkGranuleAllocator (ga_key_slots a) (ga_cursor a) (ga_pending a ∖ {[slot]}).

(** ** Slot publications *)

Record PublishedSlotOwner := mkOwner {
  po_chunk_id : ChunkId;
  po_record : LocationRecord;
}.

Record SlotPublicationState := mkSlotState {
  sp_current : option PublishedSlotOwner;
  sp_busy : bool;
}.

Definition slot_state_default : SlotPublicationState := mkSlotState None false.

Record SlotPublicationReservation := mkReservation {
  rv_lane : Z;
  rv_current : option PublishedSlotOwner;
}.

(** ** The target *)

Record Kst (K : Type) := mkKst {
  ks_index : K;
  ks_media : Store;
  ks_slots : list SlotPublicationState;
  ks_allocator : GranuleAllocator;
}.
Arguments mkKst {K}.
Arguments ks_index {K}.
Arguments ks_media {K}.
Arguments ks_slots {K}.
Arguments ks_allocator {K}.

(** A [ServiceError] with its status, or a wait for a slot that another request holds. *)
Inductive ServiceStop : Set :=
| ServiceError (status : Z)
| WouldBlock.

(** [LocationRecordDocument] *)
Record LocationRecordDocument := mkLocationDocument {
  ld_record : LocationRecord;
  ld_slot_index : Z;
}.

(** A response: status, location headers, body. JSON documents are kept as values. *)
Record OccupiedGranuleDocument := mkOccupiedGranule {
  og_slot : Z;
  og_chunk_id : ChunkId;
  og_generation : Z;
  og_identity : ChunkSelfDescribingIdentity;
}.

Inductive ResponseBody : Type :=
| NoBody
| Octets (payload : list byte)
| DeleteChunkDocument (deleted : bool) (tombstone_generation : Z)
| OccupiedGranulesPage (entries : list OccupiedGranuleDocument) (next_cursor : option Z)
| Kp2Body (payload : list byte).

Record ServiceResponse := mkResponse {
  sr_status : Z;
  sr_location : option LocationRecordDocument;
  sr_body : ResponseBody;
}.

(** [map_media_error] and [publication_retryable] *)
Definition map_media_error (e : io_error_kind) : ServiceStop :=
  ServiceError match e with
               | InvalidInput => 400
               | NotFound => 404
               | InvalidData => 412
               | _ => 500
               end.

Definition publication_retryable (e : io_error_kind) : bool :=
  match e with
  | InvalidData | NotFound => true
  | _ => false
  end.

Definition kp2_request_error (e : io_error_kind) : ServiceStop :=
  ServiceError match e with
               | InvalidInput | InvalidData => 400
               | _ => 500
               end.

Definition kp2_internal_error (e : io_error_kind) : ServiceStop := ServiceError 500.

Definition PUBLICATION_RETRY_LIMIT : nat := 2.

(** Runs [m] and hands its result to the caller, error or not. *)
Definition attempt {S E F A : Type} (m : M S E A) : M S F (result E A) :=
  fun s => let '(s', r) := m s in (s', Ok r).

Section service.
Context `{Crc32} {K : Type} `{ChunkIndex K}.

(** The media handle: its configuration and the superblock read when it was opened. *)
Context (config : ChunkMediaWriteConfig) (sb : ChunkMediaSuperblock).

Abbreviation kst_op := (M (Kst K) ServiceStop).
Abbreviation drive_id := (mc_drive_id config).
Abbreviation layout := (sb_layout sb).

(** *** Access to the parts of the state *)

Definition on_index {A} (op : M K KixError A) : kst_op A := fun k =>
  let '(ix, r) := op (ks_index k) in
  (mkKst ix (ks_media k) (ks_slots k) (ks_allocator k), map_err (fun _ => ServiceError 500) r).

Definition on_media {A} (op : M Store io_error_kind A) : M (Kst K) io_error_kind A := fun k =>
  let '(media, r) := op (ks_media k) in
  (mkKst (ks_index k) media (ks_slots k) (ks_allocator k), r).

Definition set_slot (slot_index : Z) (state : SlotPublicationState) (k : Kst K) : Kst K :=
  mkKst (ks_index k) (ks_media k) (<[Z.to_nat slot_index := state]> (ks_slots k)) (ks_allocator k).

Definition set_allocator (a : GranuleAllocator) (k : Kst K) : Kst K :=
  mkKst (ks_index k) (ks_media k) (ks_slots k) a.

(** [kix_lookup] *)
Definition kix_lookup (k : Kst K) (chunk_id : ChunkId) : result ServiceStop (option LocationRecord) :=
  map_err (fun _ => ServiceError 500) (ix_get (ks_index k) chunk_id).

(** [slot_publication] *)
Definition slot_publication (k : Kst K) (slot_index : Z) : result ServiceStop SlotPublicationState :=
  ok_or (ks_slots k !! Z.to_nat slot_index) (ServiceError 400).

(** [SlotPublication::reserve] *)
Definition reserve (slot_index : Z) (fresh_lane : option LocationRecord → result ServiceStop Z) :
    kst_op SlotPublicationReservation :=
  k ← get_state;
  state ← lift (slot_publication k slot_index);
  if sp_busy state then lift (Err WouldBlock)
  else
    lane ← lift (fresh_lane (po_record <$> sp_current state));
    _ ← put_state (set_slot slot_index (mkSlotState (sp_current state) true) k);
    mret (mkReservation lane (sp_current state)).

(** [SlotPublication::commit]: a newer generation in the slot stays. *)
Definition commit_state (state : SlotPublicationState) (owner : PublishedSlotOwner) : SlotPublicationState :=
  let install :=
    match sp_current state with
    | Some existing => lr_generation (po_record existing) <=? lr_generation (po_record owner)
    | None => true
    end in
  mkSlotState (if install then Some owner else sp_current state) false.

Definition update_slot (slot_index : Z) (f : SlotPublicationState → SlotPublicationState) : kst_op unit :=
  k ← get_state;
  put_state (mkKst (ks_index k) (ks_media k) (alter f (Z.to_nat slot_index) (ks_slots k)) (ks_allocator k)).

Definition commit (slot_index : Z) (owner : PublishedSlotOwner) : kst_op unit :=
  update_slot slot_index (fun state => commit_state state owner).

(** [SlotPublication::rollback] *)
Definition rollback (slot_index : Z) : kst_op unit :=
  update_slot slot_index (fun state => mkSlotState (sp_current state) false).

(** [SlotPublication::begin_delete] *)
Definition begin_delete (slot_index : Z) : kst_op (option PublishedSlotOwner) :=
  k ← get_state;
  state ← lift (slot_publication k slot_index);
  if sp_busy state then lift (Err WouldBlock)
  else
    _ ← put_state (set_slot slot_index (mkSlotState (sp_current state) true) k);
    mret (sp_current state).

(** [SlotPublication::finish_delete] *)
Definition finish_delete (slot_index : Z) (cleared : bool) : kst_op unit :=
  update_slot slot_index (fun state => mkSlotState (if cleared then None else sp_current state) false).

(** [fresh_publication_lane] *)
Definition fresh_publication_lane (slot_index : Z) (current_record : option LocationRecord) :
    result ServiceStop Z :=
  map_err (fun _ => ServiceError 412) (next_publication_lane layout slot_index current_record).

(** The lane choice of a write: against the slot's current record, else against the
    chunk's own record when it maps to the slot. *)
Definition write_baseline (slot_index : Z) (current_record current_slot_record : option LocationRecord) :
    option LocationRecord :=
  match current_slot_record with
  | Some record => Some record
  | None =>
      match current_record with
      | Some record =>
          match chunk_media_slot_index_for_record layout record with
          | Ok mapped_slot => if mapped_slot =? slot_index then Some record else None
          | Err _ => None
          end
      | None => None
      end
  end.

Definition reserve_for_write (chunk_id : ChunkId) (slot_index : Z) : kst_op SlotPublicationReservation :=
  k ← get_state;
  _ ← lift (slot_publication k slot_index);
  current_record ← lift (kix_lookup k chunk_id);
  reserve slot_index (fun current_slot_record =>
    fresh_publication_lane slot_index (write_baseline slot_index current_record current_slot_record)).

(** *** Writing one chunk *)

(** The outcome of [fdatasync]. *)
Definition media_fdatasync (sync : io_result unit) : M (Kst K) io_error_kind unit :=
  match sync with
  | Ok _ => on_media direct_fdatasync
  | Err e => lift (Err e)
  end.

Definition write_lane (slot_index lane : Z) (chunk_id : ChunkId) (generation : Z)
    (identity : ChunkSelfDescribingIdentity) (body : list byte) : M (Kst K) io_error_kind LocationRecord :=
  on_media (write_chunk_media_payload_with_file config sb slot_index (Explicit lane) chunk_id
              generation identity body Deferred).

(** [?] after [map_err] *)
Definition or_fail {E A} (f : E → ServiceStop) (m : M (Kst K) E A) : kst_op A := fun k =>
  let '(k', r) := m k in (k', map_err f r).

Definition other_owner (chunk_id : ChunkId) (current : option PublishedSlotOwner) : option ChunkId :=
  owner ← current;
  if bool_decide (po_chunk_id owner = chunk_id) then None else Some (po_chunk_id owner).

(** [publish_reserved] *)
Definition publish_reserved (chunk_id : ChunkId) (slot_index generation : Z)
    (identity : ChunkSelfDescribingIdentity) (body : list byte)
    (reservation : SlotPublicationReservation) (sync : io_result unit) : kst_op LocationRecord :=
  record ← or_fail map_media_error (write_lane slot_index (rv_lane reservation) chunk_id generation identity body);
  _ ← or_fail map_media_error (media_fdatasync sync);
  _ ← on_index (ix_upsert chunk_id slot_index record);
  _ ← match other_owner chunk_id (rv_current reservation) with
      | Some owner => on_index (ix_delete owner)
      | None => mret tt
      end;
  mret record.

(** The durable Guard D: the granule inverse names another chunk that is still live. *)
Definition durable_conflict (k : Kst K) (chunk_id : ChunkId) (slot_index : Z) : bool :=
  match ix_owner (ks_index k) drive_id slot_index with
  | Some (owner_chunk, _) =>
      negb (bool_decide (owner_chunk = chunk_id)) &&
      match ix_get (ks_index k) owner_chunk with
      | Ok (Some _) => true
      | _ => false
      end
  | None => false
  end.

(** [write_chunk_to_slot] *)
Definition write_chunk_to_slot (chunk_id : ChunkId) (slot_index generation : Z)
    (identity : ChunkSelfDescribingIdentity) (body : list byte) (sync : io_result unit) :
    kst_op ServiceResponse :=
  reservation ← reserve_for_write chunk_id slot_index;
  k ← get_state;
  if bool_decide (is_Some (other_owner chunk_id (rv_current reservation)))
     || durable_conflict k chunk_id slot_index
  then
    _ ← rollback slot_index;
    lift (Err (ServiceError 409))
  else
    published ← attempt (publish_reserved chunk_id slot_index generation identity body reservation sync);
    match published with
    | Ok record =>
        _ ← commit slot_index (mkOwner chunk_id record);
        mret (mkResponse 201 (Some (mkLocationDocument record slot_index)) NoBody)
    | Err e =>
        _ ← rollback slot_index;
        lift (Err e)
    end.

(** [allocate_granule] *)
Definition allocate_granule : kst_op (option Z) :=
  k ← get_state;
  let '(allocator, slot) :=
    allocate (fun slot => bool_decide (is_Some (ix_owner (ks_index k) drive_id slot))) (ks_allocator k) in
  _ ← put_state (set_allocator allocator k);
  mret slot.

Definition release_granule (slot_index : Z) : kst_op unit :=
  k ← get_state;
  put_state (set_allocator (release slot_index (ks_allocator k)) k).

(** [write_chunk_with_payload] *)
Definition write_chunk_with_payload (chunk_id : ChunkId) (slot_index generation : Z)
    (identity : ChunkSelfDescribingIdentity) (body : list byte) (sync : io_result unit) :
    kst_op ServiceResponse :=
  if slot_index =? GRANULE_ALLOCATE then
    allocated ← allocate_granule;
    slot_index ← lift (ok_or allocated (ServiceError 507));
    result ← attempt (write_chunk_to_slot chunk_id slot_index generation identity body sync);
    _ ← release_granule slot_index;
    lift result
  else write_chunk_to_slot chunk_id slot_index generation identity body sync.

(** *** Reading

    Readers take no slot: [now i] is the state of the target at the [i]-th access the
    reader makes, which other requests may have changed in between. *)

Definition location_document (record : LocationRecord) : result ServiceStop LocationRecordDocument :=
  slot_index ← map_err (fun _ => ServiceError 412) (chunk_media_slot_index_for_record layout record);
  Ok (mkLocationDocument record slot_index).

(** The retry loop of [resolve_published_record_for_head] and [read_published_payload]: the
    record is read again from the index when the media does not show it. *)
Fixpoint publication_loop {A} (access : Store → ChunkId → LocationRecord → io_result A) (retries : nat)
    (now : nat → Kst K) (chunk_id : ChunkId) (record : LocationRecord) :
    result ServiceStop (option (LocationRecord * A)) :=
  match access (ks_media (now 0%nat)) chunk_id record with
  | Ok payload => Ok (Some (record, payload))
  | Err e =>
      match publication_retryable e, retries with
      | true, S retries' =>
          found ← kix_lookup (now 1%nat) chunk_id;
          match found with
          | None => Ok None
          | Some latest =>
              if bool_decide (latest = record) then Err (map_media_error e)
              else publication_loop access retries' (fun i => now (S (S i))) chunk_id latest
          end
      | _, _ => if bool_decide (e = NotFound) then Ok None else Err (map_media_error e)
      end
  end.

Definition resolve_published_record_for_head (now : nat → Kst K) (chunk_id : ChunkId)
    (initial_record : LocationRecord) : result ServiceStop (option (LocationRecord * unit)) :=
  publication_loop (fun media chunk_id record =>
    _ ← read_validated_live_header media (mc_span config) chunk_id record; Ok tt)
    PUBLICATION_RETRY_LIMIT now chunk_id initial_record.

Definition read_published_payload (now : nat → Kst K) (chunk_id : ChunkId)
    (initial_record : LocationRecord) : result ServiceStop (option (LocationRecord * list byte)) :=
  publication_loop (fun media => read_chunk_media_payload_with_file media (mc_span config))
    PUBLICATION_RETRY_LIMIT now chunk_id initial_record.

(** [handle_head] *)
Definition handle_head (now : nat → Kst K) (chunk_id : ChunkId) (body : list byte) :
    result ServiceStop ServiceResponse :=
  if negb (bool_decide (body = [])) then Err (ServiceError 400)
  else
    found ← kix_lookup (now 0%nat) chunk_id;
    match found with
    | None => Ok (mkResponse 404 None NoBody)
    | Some record =>
        resolved ← resolve_published_record_for_head (fun i => now (S i)) chunk_id record;
        match resolved with
        | None => Ok (mkResponse 404 None NoBody)
        | Some (record, _) =>
            location ← location_document record;
            Ok (mkResponse 200 (Some location) NoBody)
        end
    end.

(** [handle_read] *)
Definition handle_read (now : nat → Kst K) (chunk_id : ChunkId) (body : list byte) :
    result ServiceStop ServiceResponse :=
  if negb (bool_decide (body = [])) then Err (ServiceError 400)
  else
    found ← kix_lookup (now 0%nat) chunk_id;
    match found with
    | None => Ok (mkResponse 404 None NoBody)
    | Some record =>
        read ← read_published_payload (fun i => now (S i)) chunk_id record;
        match read with
        | None => Ok (mkResponse 404 None NoBody)
        | Some (record, payload) =>
            location ← location_document record;
            Ok (mkResponse 200 (Some location) (Octets payload))
        end
    end.

(** *** Deleting *)

(** [tombstone_and_retire] *)
Definition tombstone_and_retire (chunk_id : ChunkId) (record : LocationRecord) (tombstone_generation : Z) :
    kst_op unit :=
  _ ← or_fail map_media_error
        (on_media (write_chunk_media_tombstone_with_file config sb chunk_id record tombstone_generation));
  on_index (ix_delete chunk_id).

Definition not_deleted : ServiceResponse := mkResponse 200 None (DeleteChunkDocument false 0).

(** The granule still holds exactly the chunk and generation the caller observed. *)
Definition generation_fence (k : Kst K) (chunk_id : ChunkId) (slot_index : Z)
    (expected_generation : option Z) : bool :=
  match expected_generation with
  | None => true
  | Some expected =>
      match ix_owner (ks_index k) drive_id slot_index with
      | Some (owner_chunk, owner_generation) =>
          bool_decide (owner_chunk = chunk_id) && (owner_generation =? expected)
      | None => false
      end
  end.

(** [handle_delete] *)
Definition handle_delete (chunk_id : ChunkId) (expected_generation : option Z) (body : list byte) :
    kst_op ServiceResponse :=
  if negb (bool_decide (body = [])) then lift (Err (ServiceError 400))
  else
    k ← get_state;
    found ← lift (kix_lookup k chunk_id);
    match found with
    | None => mret not_deleted
    | Some record =>
        tombstone_generation ← lift (ok_or (checked_add 32 (lr_generation record) 1) (ServiceError 412));
        slot_index ← lift (map_err (fun _ => ServiceError 412)
                            (chunk_media_slot_index_for_record layout record));
        if negb (generation_fence k chunk_id slot_index expected_generation) then mret not_deleted
        else
          current_owner ← begin_delete slot_index;
          match other_owner chunk_id current_owner with
          | Some _ =>
              _ ← finish_delete slot_index false;
              lift (Err (ServiceError 409))
          | None =>
              delete_result ← attempt (tombstone_and_retire chunk_id record tombstone_generation);
              k ← get_state;
              _ ← put_state (if is_Ok delete_result
                             then mkKst (ix_clear drive_id slot_index (ks_index k)) (ks_media k)
                                    (ks_slots k) (ks_allocator k)
                             else k);
              _ ← finish_delete slot_index (is_Ok delete_result);
              _ ← lift delete_result;
              mret (mkResponse 200 None (DeleteChunkDocument true tombstone_generation))
          end
    end.

(** *** Listing occupied granules *)

Definition DEFAULT_OCCUPIED_LIMIT : Z := 256.
Definition MAX_OCCUPIED_LIMIT : Z := 4096.

Definition occupied_limit (limit : option Z) : Z :=
  clamp (default DEFAULT_OCCUPIED_LIMIT limit) 1 MAX_OCCUPIED_LIMIT.

(** What is reported of a granule: nothing when its chunk is gone or unreadable. *)
Definition occupied_document (k : Kst K) (granule : Z * ChunkId * Z) : option OccupiedGranuleDocument :=
  let '(slot, chunk_id, generation) := granule in
  match ix_get (ks_index k) chunk_id with
  | Ok (Some record) =>
      match read_identity (ks_media k) (mc_span config) chunk_id record with
      | Ok stamped => Some (mkOccupiedGranule slot chunk_id generation stamped)
      | Err _ => None
      end
  | _ => None
  end.

(** The page loop over the sorted granules. *)
Fixpoint occupied_page (k : Kst K) (cursor : option Z) (limit examined last_examined : Z)
    (occupied : list (Z * ChunkId * Z)) : list OccupiedGranuleDocument * option Z :=
  match occupied with
  | [] => ([], None)
  | granule :: occupied' =>
      if match cursor with Some c => granule.1.1 <=? c | None => false end
      then occupied_page k cursor limit examined last_examined occupied'
      else if limit <=? examined then ([], Some last_examined)
      else
        let '(entries, next_cursor) := occupied_page k cursor limit (examined + 1) granule.1.1 occupied' in
        (option_list (occupied_document k granule) ++ entries, next_cursor)
  end.

(** [handle_occupied_granules] *)
Definition handle_occupied_granules (k : Kst K) (cursor limit : option Z) (body : list byte) :
    result ServiceStop ServiceResponse :=
  if negb (bool_decide (body = [])) then Err (ServiceError 400)
  else
    let '(entries, next_cursor) :=
      occupied_page k cursor (occupied_limit limit) 0 (default 0 cursor)
        (ix_occupied (ks_index k) drive_id) in
    Ok (mkResponse 200 None (OccupiedGranulesPage entries next_cursor)).

(** *** Starting *)

(** One entry of [build_slot_publications]: the inverse is seeded, then the slot takes the
    chunk unless another chunk owns it. *)
Definition publish_recovered (acc : K * list SlotPublicationState) (entry : ChunkId * LocationRecord) :
    io_result (K * list SlotPublicationState) :=
  let '(ix, publications) := acc in
  let '(chunk_id, record) := entry in
  slot_index ← map_err (fun _ => InvalidData) (chunk_media_slot_index_for_record layout record);
  let ix := ix_seed (lr_drive_id record) slot_index chunk_id (lr_generation record) ix in
  state ← ok_or (publications !! Z.to_nat slot_index) InvalidData;
  let install := Ok (ix, <[Z.to_nat slot_index := mkSlotState (Some (mkOwner chunk_id record)) (sp_busy state)]> publications) in
  match sp_current state with
  | Some existing =>
      if negb (bool_decide (po_chunk_id existing = chunk_id)) then Err InvalidData
      else if lr_generation (po_record existing) <=? lr_generation record then install
      else Ok (ix, publications)
  | None => install
  end.

(** [build_slot_publications] *)
Definition build_slot_publications (key_slots : Z) (entries : list (ChunkId * LocationRecord)) (ix : K) :
    io_result (K * list SlotPublicationState) :=
  try_fold publish_recovered (ix, replicate (Z.to_nat (Z.max key_slots 1)) slot_state_default) entries.

(** The router as it is put together when the target starts. *)
Definition start_target (entries : list (ChunkId * LocationRecord)) (ix : K) (media : Store) :
    io_result (Kst K) :=
  '(ix, publications) ← build_slot_publications (key_slots layout) entries ix;
  Ok (mkKst ix media publications (allocator_new (key_slots layout))).

End service.
