(* ===== verification/KstPack.v ===== *)
(** Packed requests of the storage target (handle_kp2_write and handle_kp2_read in
    poc/kst/src/service.rs): many chunks in one body, one durability barrier for all of
    them, and one reply entry per chunk. *)
From S2P Require Import Prelude Bytes Device KixTypes Kp2 Kp2Http ChunkMedia Engine Kst.

(** The entries of a packed reply carry the record's location with its slot. *)
Definition packed_location (d : LocationRecordDocument) : PackedLocation :=
  let r := ld_record d in
  mkPackedLocation (lr_drive_id r)
    match lr_location_kind r with Extent => KindExtent | PackedContainer => KindPackedContainer end
    (lr_physical_offset r) (lr_logical_length r) (lr_stored_length r) (lr_generation r)
    (lr_checksum r) (ld_slot_index d).

(** [ChunkSelfDescribingIdentity] from the identity of a packed entry. *)
Definition media_identity (i : WriteIdentity) : ChunkSelfDescribingIdentity :=
  mkIdentity (stripe i) (object_id i) (object_version i) (frag i).

Inductive PackEntryStage : Type :=
| Written (reservation : SlotPublicationReservation) (chunk_id : ChunkId) (slot_index generation : Z)
    (record : LocationRecord)
| Failed (reply : PackedWriteReplyEntry).

Section pack.
Context `{Crc32} {K : Type} `{ChunkIndex K} {HM HV : Type} `{HeaderMap HM HV}.
Context (config : ChunkMediaWriteConfig) (sb : ChunkMediaSuperblock).

(** The text of an error entry, for its status. *)
Context (message : Z → ChunkId → list byte).

Abbreviation kst_op := (M (Kst K) ServiceStop).
Abbreviation layout := (sb_layout sb).

Definition reply_entry (chunk_id : ChunkId) (slot_index generation status : Z)
    (location : option PackedLocation) : PackedWriteReplyEntry :=
  mkPackedWriteReplyEntry chunk_id slot_index generation status location
    (if status =? 201 then None else Some (message status chunk_id)).

(** *** Allocating granules *)

Fixpoint release_all (slots : list Z) : kst_op unit :=
  match slots with
  | [] => mret tt
  | slot :: slots' => _ ← release_granule slot; release_all slots'
  end.

(** Every entry that asks the target for a granule gets one; the granules handed out are
    returned beside the entries. *)
Fixpoint resolve_granules (allocated : list Z) (entries : list PackedWriteEntry) :
    kst_op (list PackedWriteEntry * list Z) :=
  match entries with
  | [] => mret ([], allocated)
  | e :: entries' =>
      if we_slot_index e =? GRANULE_ALLOCATE then
        slot ← allocate_granule config;
        match slot with
        | Some slot =>
            '(rest, allocated) ← resolve_granules (allocated ++ [slot]) entries';
            mret (mkPackedWriteEntry (we_chunk_id e) slot (we_generation e) (we_identity e) (we_payload e) :: rest,
                  allocated)
        | None =>
            _ ← release_all allocated;
            lift (Err (ServiceError 507))
        end
      else
        '(rest, allocated) ← resolve_granules allocated entries';
        mret (e :: rest, allocated)
  end.

(** *** Staging *)

(** [rollback_staged] *)
Fixpoint rollback_staged (staged : list PackEntryStage) : kst_op unit :=
  match staged with
  | [] => mret tt
  | Written _ _ slot_index _ _ :: staged' => _ ← rollback slot_index; rollback_staged staged'
  | Failed _ :: staged' => rollback_staged staged'
  end.

Definition stage_entry (e : PackedWriteEntry) : kst_op PackEntryStage :=
  reservation ← reserve_for_write sb (we_chunk_id e) (we_slot_index e);
  written ← attempt (write_lane config sb (we_slot_index e) (rv_lane reservation) (we_chunk_id e)
                       (we_generation e) (media_identity (we_identity e)) (we_payload e));
  match written with
  | Ok record => mret (Written reservation (we_chunk_id e) (we_slot_index e) (we_generation e) record)
  | Err _ =>
      _ ← rollback (we_slot_index e);
      mret (Failed (reply_entry (we_chunk_id e) (we_slot_index e) (we_generation e) 422 None))
  end.

Fixpoint stage_entries (staged : list PackEntryStage) (entries : list PackedWriteEntry) :
    kst_op (list PackEntryStage) :=
  match entries with
  | [] => mret staged
  | e :: entries' =>
      stage ← attempt (stage_entry e);
      match stage with
      | Ok stage => stage_entries (staged ++ [stage]) entries'
      | Err WouldBlock => lift (Err WouldBlock)
      | Err err =>
          _ ← rollback_staged staged;
          lift (Err err)
      end
  end.

(** [stage_packed_writes] *)
Definition stage_packed_writes (entries : list PackedWriteEntry) : kst_op (list PackEntryStage) :=
  if negb (bool_decide (NoDup (we_slot_index <$> entries))) then lift (Err (ServiceError 400))
  else stage_entries [] entries.

(** *** Publishing *)

Definition location_of (record : LocationRecord) : option PackedLocation :=
  packed_location <$> result_ok (location_document sb record).

(** A durable entry goes into the index, unless the slot belongs to another chunk. *)
Definition publish_written (reservation : SlotPublicationReservation) (chunk_id : ChunkId)
    (slot_index generation : Z) (record : LocationRecord) : kst_op PackedWriteReplyEntry :=
  let reply := reply_entry chunk_id slot_index generation in
  k ← get_state;
  if bool_decide (is_Some (other_owner chunk_id (rv_current reservation)))
     || durable_conflict config k chunk_id slot_index
  then
    _ ← rollback slot_index;
    mret (reply 409 None)
  else
    published ← attempt (on_index (ix_upsert chunk_id slot_index record));
    match published with
    | Err _ =>
        _ ← rollback slot_index;
        mret (reply 500 (location_of record))
    | Ok _ =>
        retired ← match other_owner chunk_id (rv_current reservation) with
                  | Some owner => attempt (on_index (ix_delete owner))
                  | None => mret (Ok tt)
                  end;
        match retired with
        | Err _ =>
            _ ← rollback slot_index;
            mret (reply 500 (location_of record))
        | Ok _ =>
            _ ← commit slot_index (mkOwner chunk_id record);
            mret match location_document sb record with
                 | Ok location => reply 201 (Some (packed_location location))
                 | Err _ => reply 500 None
                 end
        end
    end.

Definition publish_stage (barrier : io_result unit) (stage : PackEntryStage) : kst_op PackedWriteReplyEntry :=
  match stage with
  | Failed reply => mret reply
  | Written reservation chunk_id slot_index generation record =>
      match barrier with
      | Err _ =>
          _ ← rollback slot_index;
          mret (reply_entry chunk_id slot_index generation 500 None)
      | Ok _ => publish_written reservation chunk_id slot_index generation record
      end
  end.

Fixpoint publish_all (barrier : io_result unit) (staged : list PackEntryStage) :
    kst_op (list PackedWriteReplyEntry) :=
  match staged with
  | [] => mret []
  | stage :: staged' =>
      reply ← publish_stage barrier stage;
      replies ← publish_all barrier staged';
      mret (reply :: replies)
  end.

Definition any_written (staged : list PackEntryStage) : bool :=
  existsb (fun stage => match stage with Written _ _ _ _ _ => true | Failed _ => false end) staged.

(** The pack once decoded: the replies, one per entry. *)
Definition write_pack (entries : list PackedWriteEntry) (sync : io_result unit) :
    kst_op (list PackedWriteReplyEntry) :=
  '(entries, allocated) ← resolve_granules [] entries;
  staged ← attempt (stage_packed_writes entries);
  match staged with
  | Err WouldBlock => lift (Err WouldBlock)
  | Err err =>
      _ ← release_all allocated;
      lift (Err err)
  | Ok staged =>
      barrier ← attempt (if any_written staged then media_fdatasync sync else mret tt);
      replies ← publish_all barrier staged;
      _ ← release_all allocated;
      mret replies
  end.

(** [handle_kp2_write] *)
Definition handle_kp2_write (headers : HM) (body : list byte) (sync : io_result unit) : kst_op ServiceResponse :=
  _ ← lift (map_err kp2_request_error (validate_packed_headers headers KIND_WRITE));
  entries ← lift (map_err kp2_request_error (decode_write_request body));
  _ ← lift (map_err kp2_request_error
              (validate_declared_counts headers (len entries) (sum_len (we_payload <$> entries))));
  replies ← write_pack entries sync;
  payload ← lift (map_err kp2_internal_error (encode_write_reply replies));
  mret (mkResponse (if forallb (fun r => wr_status_code r =? 201) replies then 201 else 207) None
          (Kp2Body payload)).

(** *** Packed reads *)

(** The requested part of a payload, clamped to it. *)
Definition served_range (range : option ChunkRange) (payload : list byte) : list byte :=
  match range with
  | Some r =>
      let start := Z.min (range_offset r) (len payload) in
      let end_ := Z.min (start + range_length r) (len payload) in
      take (Z.to_nat (end_ - start)) (drop (Z.to_nat start) payload)
  | None => payload
  end.

Definition read_entry (now : nat → Kst K) (chunk_id : ChunkId) (range : option ChunkRange) :
    result ServiceStop PackedReadEntry :=
  found ← kix_lookup (now 0%nat) chunk_id;
  match found with
  | None => Ok (mkPackedReadEntry chunk_id 404 None [])
  | Some record =>
      match read_published_payload config (fun i => now (S i)) chunk_id record with
      | Ok (Some (record, payload)) =>
          location ← location_document sb record;
          Ok (mkPackedReadEntry chunk_id 200 (Some (packed_location location)) (served_range range payload))
      | Ok None => Ok (mkPackedReadEntry chunk_id 404 None [])
      | Err _ => Ok (mkPackedReadEntry chunk_id 500 None [])
      end
  end.

(** The range of the [index]-th chunk, when the query has ranges. *)
Definition range_at (query : PackedReadQuery) (index : nat) : option ChunkRange :=
  ranges ← rq_ranges query; ranges !! index.

Fixpoint read_entries (now : nat → nat → Kst K) (query : PackedReadQuery) (index : nat)
    (chunk_ids : list ChunkId) : result ServiceStop (list PackedReadEntry) :=
  match chunk_ids with
  | [] => Ok []
  | chunk_id :: chunk_ids' =>
      entry ← read_entry (now index) chunk_id (range_at query index);
      entries ← read_entries now query (S index) chunk_ids';
      Ok (entry :: entries)
  end.

(** [handle_kp2_read]: [now i j] is the state at the [j]-th access for the [i]-th chunk. *)
Definition handle_kp2_read (now : nat → nat → Kst K) (headers : HM) (body : list byte) :
    result ServiceStop ServiceResponse :=
  _ ← map_err kp2_request_error (validate_packed_headers headers KIND_QUERY);
  query ← map_err kp2_request_error (decode_read_query body);
  _ ← map_err kp2_request_error (validate_declared_counts headers (len (rq_chunk_ids query)) 0);
  entries ← read_entries now query 0 (rq_chunk_ids query);
  encoded ← map_err kp2_internal_error (encode_read_response entries);
  Ok (mkResponse 200 None (Kp2Body encoded)).

End pack.
