(* ===== verification/KstIndex.v ===== *)
(** What the index promises to the storage target: the class [ChunkIndexSpec], and that
    the KIX engine keeps it. *)
From stdpp Require Import sorting.
From S2P Require Import Prelude Bytes Device KixTypes Arena ArenaCodec ArenaInv ArenaOps Engine EngineProps Kst.

(** The generation fence of the granule inverse. *)
Definition fenced_owner (old : option (ChunkId * Z)) (c : ChunkId) (generation : Z) : option (ChunkId * Z) :=
  match old with
  | Some (c', generation') => if generation' <=? generation then Some (c, generation) else Some (c', generation')
  | None => Some (c, generation)
  end.

(** The maps are only compared pointwise. *)
Definition owner_set (slot : Z) (o : option (ChunkId * Z)) (f : Z → option (ChunkId * Z)) : Z → option (ChunkId * Z) :=
  fun s => if decide (s = slot) then o else f s.

Class ChunkIndexSpec (K : Type) `{ChunkIndex K} := {
  (** The index of a target whose drive is [d] is intact. *)
  ix_ok : Z → K → Prop;
  (** The chunks it shows. *)
  ix_live : K → ChunkId → option LocationRecord;
  ix_get_live : ∀ d k c, ix_ok d k → ix_get k c = Ok (ix_live k c);
  ix_live_wf : ∀ d k c r, ix_ok d k → ix_live k c = Some r →
    chunk_id_wf c ∧ location_record_wf r ∧ lr_drive_id r = d;
  ix_upsert_spec : ∀ d k c slot r k' res,
    ix_ok d k → chunk_id_wf c → location_record_wf r → lr_drive_id r = d →
    ix_upsert c slot r k = (k', res) →
    ix_ok d k' ∧
    ((res = Ok tt ∧ (∀ c', ix_live k' c' = update_at c (fun o => fenced o r) (ix_live k) c') ∧
      (∀ s, ix_owner k' d s = owner_set slot (fenced_owner (ix_owner k d slot) c (lr_generation r)) (ix_owner k d) s)) ∨
     (is_Ok res = false ∧ (∀ c', ix_live k' c' = ix_live k c') ∧ ∀ s, ix_owner k' d s = ix_owner k d s));
  ix_delete_spec : ∀ d k c k' res,
    ix_ok d k → ix_delete c k = (k', res) →
    ix_ok d k' ∧ (∀ s, ix_owner k' d s = ix_owner k d s) ∧
    ((res = Ok tt ∧ ∀ c', ix_live k' c' = update_at c (fun _ => None) (ix_live k) c') ∨
     (is_Ok res = false ∧ ∀ c', ix_live k' c' = ix_live k c'));
  ix_clear_spec : ∀ d k slot,
    ix_ok d k → ix_ok d (ix_clear d slot k) ∧ (∀ c, ix_live (ix_clear d slot k) c = ix_live k c) ∧
    ∀ s, ix_owner (ix_clear d slot k) d s = owner_set slot None (ix_owner k d) s;
  ix_seed_spec : ∀ d k slot c generation,
    ix_ok d k → ix_ok d (ix_seed d slot c generation k) ∧
    (∀ c', ix_live (ix_seed d slot c generation k) c' = ix_live k c') ∧
    ∀ s, ix_owner (ix_seed d slot c generation k) d s
         = owner_set slot (fenced_owner (ix_owner k d slot) c generation) (ix_owner k d) s;
  ix_occupied_spec : ∀ d k, ix_ok d k →
    StronglySorted (fun a b => a.1.1 < b.1.1) (ix_occupied k d) ∧
    ∀ s c generation, (s, c, generation) ∈ ix_occupied k d ↔ ix_owner k d s = Some (c, generation);
}.

Section kix.
Context `{DeltaLog A}.

Lemma update_inverse_owner d slot c g (k : Kix A) s :
  is_Some (kx_inverse k !! d) →
  lookup_granule_chunk (update_inverse d slot c g k) d s
  = owner_set slot (fenced_owner (lookup_granule_chunk k d slot) c g) (lookup_granule_chunk k d) s.
Proof.
  intros [inv Hi]. unfold update_inverse, lookup_granule_chunk. rewrite Hi. cbn [kx_inverse].
  rewrite lookup_insert_eq. cbn [mbind option_bind]. unfold owner_set.
  destruct (decide (s = slot)) as [->|Hne].
  - destruct (inv !! slot) as [o|] eqn:Eo; cbn [fenced_owner mbind option_bind].
    + destruct (go_generation o <=? g); [by rewrite lookup_insert_eq|]. by rewrite Eo.
    + by rewrite lookup_insert_eq.
  - assert (∀ x, (<[slot := x]> inv) !! s = inv !! s) as Hs by (intros; by rewrite lookup_insert_ne).
    destruct (inv !! slot) as [o|]; [destruct (_ <=? _)|]; rewrite ?Hs; done.
Qed.

Lemma drive_request_inverse d (req : M A io_error_kind unit) (k k' : Kix A) r :
  drive_request d req k = (k', r) → kx_inverse k' = kx_inverse k ∧ kx_shards k' = kx_shards k.
Proof.
  unfold drive_request. destruct (kx_arenas k !! d) as [[a|]|]; [|by intros [= <- <-]..].
  destruct (req a) as [a' r']. by intros [= <- <-].
Qed.

Lemma kix_upsert_inverse c slot r (k k' : Kix A) res :
  kix_upsert c slot r k = (k', res) →
  kx_inverse k' = if is_Ok res then kx_inverse (update_inverse (lr_drive_id r) slot c (lr_generation r) k)
                  else kx_inverse k.
Proof.
  unfold kix_upsert. rewrite (M_bind_run _ _ k k k) by done.
  destruct (shard_index_for k c) as [i|e] eqn:Ei.
  2:{ rewrite (M_bind_Err _ _ k k e) by done. by intros [= <- <-]. }
  rewrite (M_bind_run _ _ k k i) by done.
  destruct (drive_request (lr_drive_id r) (dl_append [delta_upsert c r]) k) as [k1 [[]|e]] eqn:E1.
  - rewrite (M_bind_run _ _ k k1 tt) by done. rewrite (M_bind_run _ _ k1 k1 k1) by done.
    intros [= <- <-]. cbn [is_Ok]. apply drive_request_inverse in E1 as [E1 _].
    unfold update_inverse. cbn [set_shard kx_inverse]. rewrite E1.
    by destruct (kx_inverse k !! lr_drive_id r).
  - rewrite (M_bind_Err _ _ k k1 e) by done. intros [= <- <-]. by apply drive_request_inverse in E1 as [E1 _].
Qed.

Lemma kix_delete_inverse c (k k' : Kix A) res :
  kix_delete c k = (k', res) → kx_inverse k' = kx_inverse k.
Proof.
  unfold kix_delete. rewrite (M_bind_run _ _ k k k) by done.
  destruct (shard_index_for k c) as [i|e] eqn:Ei.
  2:{ rewrite (M_bind_Err _ _ k k e) by done. by intros [= <- <-]. }
  rewrite (M_bind_run _ _ k k i) by done. destruct (drive_id_for _ _) as [d|]; [|by intros [= <- <-]].
  destruct (drive_request d (dl_append [delta_delete c]) k) as [k1 [[]|e]] eqn:E1.
  - rewrite (M_bind_run _ _ k k1 tt) by done. rewrite (M_bind_run _ _ k1 k1 k1) by done.
    intros [= <- <-]. by apply drive_request_inverse in E1 as [E1 _].
  - rewrite (M_bind_Err _ _ k k1 e) by done. intros [= <- <-]. by apply drive_request_inverse in E1 as [E1 _].
Qed.

(** An engine with the drives [cfgs], all of its chunks on drive [d]. *)
Definition kix_ok (cfgs : list DriveConfig) (d : Z) (k : Kix A) : Prop :=
  engine_inv (fun _ => d) cfgs k ∧ is_Some (kx_inverse k !! d).

Lemma kix_ok_inverse_only cfgs d (k k' : Kix A) :
  kix_ok cfgs d k → kx_shards k' = kx_shards k → kx_arenas k' = kx_arenas k → is_Some (kx_inverse k' !! d) →
  kix_ok cfgs d k' ∧ ∀ c, live k' c = live k c.
Proof.
  intros [Hinv _] Es Ea Hi.
  destruct (engine_inv_same (fun _ => d) cfgs k k' Hinv Es) as [Hinv' Hl];
    [by rewrite Ea|rewrite Ea; apply Hinv|]. split; [|done]. by split.
Qed.

Lemma update_inverse_some d slot c g (k : Kix A) :
  is_Some (kx_inverse k !! d) → is_Some (kx_inverse (update_inverse d slot c g k) !! d).
Proof. intros [inv Hi]. unfold update_inverse. rewrite Hi. cbn [kx_inverse]. rewrite lookup_insert_eq. eauto. Qed.

Lemma sorted_strict (l : list (Z * ChunkId * Z)) :
  StronglySorted granule_le l → NoDup ((fun a => a.1.1) <$> l) →
  StronglySorted (fun a b => a.1.1 < b.1.1) l.
Proof.
  induction 1 as [|a l _ IH Hf]; intros Hnd; [constructor|]. cbn [fmap list_fmap] in Hnd.
  apply NoDup_cons in Hnd as [Hnin Hnd]. constructor; [by apply IH|].
  apply Forall_forall. intros b Hb. rewrite Forall_forall in Hf. specialize (Hf b Hb). unfold granule_le in Hf.
  assert (a.1.1 ≠ b.1.1); [|lia]. intros E. apply Hnin. rewrite E. by apply (list_elem_of_fmap_2 (fun a => a.1.1)).
Qed.

Lemma occupied_granules_spec d (k : Kix A) :
  StronglySorted (fun a b => a.1.1 < b.1.1) (occupied_granules k d) ∧
  ∀ s c g, (s, c, g) ∈ occupied_granules k d ↔ lookup_granule_chunk k d s = Some (c, g).
Proof.
  unfold occupied_granules, lookup_granule_chunk. destruct (kx_inverse k !! d) as [inv|].
  2:{ split; [constructor|]. intros. cbn. split; [by intros ?%elem_of_nil|done]. }
  cbn [mbind option_bind].
  set (l := (fun e : Z * GranuleOwner => (e.1, go_chunk_id e.2, go_generation e.2)) <$> map_to_list inv).
  assert (Transitive granule_le) as Htr by (intros a b c; unfold granule_le; lia).
  assert (Total granule_le) as Htot by (intros a b; unfold granule_le; lia).
  pose proof (StronglySorted_merge_sort granule_le l) as Hsort.
  pose proof (merge_sort_Permutation granule_le l) as Hperm. split.
  - apply sorted_strict; [done|]. rewrite Hperm. subst l. rewrite <-list_fmap_compose.
    apply NoDup_fst_map_to_list.
  - intros s c g. rewrite Hperm. subst l. rewrite list_elem_of_fmap. split.
    + intros ([s' o] & [= -> -> ->] & Hin%elem_of_map_to_list). cbn. by rewrite Hin.
    + destruct (inv !! s) as [o|] eqn:Eo; [|done]. intros [= <- <-]. exists (s, o).
      split; [done|]. by apply elem_of_map_to_list.
Qed.

Program Definition kix_index_spec (cfgs : list DriveConfig) : ChunkIndexSpec (Kix A) := {|
  ix_ok := kix_ok cfgs;
  ix_live := live;
|}.
Next Obligation. intros cfgs d k c [Hinv _]. apply kix_get_live, Hinv. Qed.
Next Obligation.
  intros cfgs d k c r [Hinv _] Hl. by destruct (shard_live_entries _ _ _ c c r Hinv Hl) as [_ (? & ? & ? & _)].
Qed.
Next Obligation.
  intros cfgs d k c slot r k' res [Hinv Hi] Hc Hr Hd Hrun.
  pose proof (kix_upsert_inverse _ _ _ _ _ _ Hrun) as Einv.
  destruct (kix_upsert_inv (fun _ => d) cfgs k c slot r k' res Hinv Hc Hr Hd Hrun) as [Hinv' Hcase].
  assert (∀ k1 : Kix A, kx_inverse k' = kx_inverse k1 →
    ∀ s, lookup_granule_chunk k' d s = lookup_granule_chunk k1 d s) as Hown.
  { intros k1 E s. unfold lookup_granule_chunk. by rewrite E. }
  destruct Hcase as [[-> Hl]|[Hf Hl]]; [|rewrite Hf in Einv]; cbn [is_Ok] in Einv; rewrite ?Hd in Einv; split.
  - split; [done|]. rewrite Einv. by apply update_inverse_some.
  - left. split_and!; [done..|]. intros s. change (lookup_granule_chunk k' d s =
      owner_set slot (fenced_owner (lookup_granule_chunk k d slot) c (lr_generation r)) (lookup_granule_chunk k d) s).
    rewrite (Hown _ Einv). by apply update_inverse_owner.
  - split; [done|]. by rewrite Einv.
  - right. split_and!; [done..|]. apply (Hown k Einv).
Qed.
Next Obligation.
  intros cfgs d k c k' res [Hinv Hi] Hrun. pose proof (kix_delete_inverse _ _ _ _ Hrun) as Einv.
  destruct (kix_delete_inv (fun _ => d) cfgs k c k' res Hinv Hrun) as [Hinv' Hcase]. split_and!; [|..|done].
  - split; [done|]. by rewrite Einv.
  - intros s. change (lookup_granule_chunk k' d s = lookup_granule_chunk k d s).
    unfold lookup_granule_chunk. by rewrite Einv.
Qed.
Next Obligation.
  intros cfgs d k slot Hok. pose proof Hok as [_ [inv Hi]]. cbn [ix_clear ix_owner kix_chunk_index].
  assert (clear_granule_inverse d slot k
    = mkKix (kx_shards k) (kx_arenas k) (<[d := delete slot inv]> (kx_inverse k))) as ->
    by (unfold clear_granule_inverse; by rewrite Hi).
  edestruct (kix_ok_inverse_only cfgs d k) as [Hok' Hl]; [done|..|split_and!; [exact Hok'|exact Hl|]]; try done.
  { cbn [kx_inverse]. rewrite lookup_insert_eq. eauto. }
  intros s. unfold lookup_granule_chunk. cbn [kx_inverse]. rewrite lookup_insert_eq, Hi. cbn [mbind option_bind].
  unfold owner_set. destruct (decide (s = slot)) as [->|Hne]; [by rewrite lookup_delete_eq|by rewrite lookup_delete_ne].
Qed.
Next Obligation.
  intros cfgs d k slot c g Hok. pose proof Hok as [_ Hi]. destruct (update_inverse_index d slot c g k) as [Es Ea].
  destruct (kix_ok_inverse_only cfgs d k (update_inverse d slot c g k) Hok Es Ea (update_inverse_some _ _ _ _ _ Hi)) as [? ?].
  split_and!; [done..|]. intros s. by apply update_inverse_owner.
Qed.
Next Obligation. intros cfgs d k _. apply occupied_granules_spec. Qed.

End kix.
