(* ===== verification/KstInv.v ===== *)
(** The invariant of the storage target: index, slot owners and granule inverse agree, and
    every live chunk has its lane; and what each handler does to it. *)
From S2P Require Import Prelude Bytes Device KixTypes Kp2 ChunkMedia ChunkMediaGeo ChunkMediaIO ChunkMediaState ChunkMediaRebuild Engine EngineProps Kst KstIndex.

Lemma alter_insert_eq {A} (f : A → A) (i : nat) (x : A) (l : list A) :
  alter f i (<[i := x]> l) = <[i := f x]> l.
Proof.
  revert i. induction l as [|y l IH]; intros [|i]; try done.
  change (y :: alter f i (<[i := x]> l) = y :: <[i := f x]> l). by rewrite IH.
Qed.

Section inv.
Context `{Crc32} {K : Type} `{ChunkIndexSpec K}.
Context (config : ChunkMediaWriteConfig) (sb : ChunkMediaSuperblock).

Abbreviation drive_id := (mc_drive_id config).
Abbreviation layout := (sb_layout sb).

(** The owner of a slot. *)
Definition current (k : Kst K) (s : Z) : option PublishedSlotOwner :=
  ks_slots k !! Z.to_nat s ≫= sp_current.

Definition owner_view (o : PublishedSlotOwner) : ChunkId * Z := (po_chunk_id o, lr_generation (po_record o)).

Definition allocator_ok (a : GranuleAllocator) : Prop :=
  ga_key_slots a = key_slots layout ∧ 0 ≤ ga_cursor a < Z.max (key_slots layout) 1.

Record kst_inv (k : Kst K) : Prop := {
  ki_media : media_inv (ks_media k) config sb;
  ki_index : ix_ok drive_id (ks_index k);
  ki_slots : len (ks_slots k) = Z.max (key_slots layout) 1;
  ki_idle : ∀ i st, ks_slots k !! i = Some st → sp_busy st = false;
  ki_owner : ∀ s o, 0 ≤ s → current k s = Some o →
    ix_live (ks_index k) (po_chunk_id o) = Some (po_record o) ∧ ∃ lane, at_lane sb (po_record o) s lane;
  ki_live : ∀ c r, ix_live (ks_index k) c = Some r → ∃ s, 0 ≤ s ∧ current k s = Some (mkOwner c r);
  ki_inverse : ∀ s, 0 ≤ s → ix_owner (ks_index k) drive_id s = owner_view <$> current k s;
  ki_allocator : allocator_ok (ks_allocator k);
}.

(** ** Records and slots *)

Lemma at_lane_inj r s l s' l' :
  layout_fits layout → is_u64 (lr_physical_offset r) →
  at_lane sb r s l → at_lane sb r s' l' → s = s' ∧ l = l'.
Proof.
  intros Hf Hu Ha Hb. apply (at_lane_address _ _ _ _ Hf Hu) in Ha. apply (at_lane_address _ _ _ _ Hf Hu) in Hb.
  rewrite Ha in Hb. by injection Hb as -> ->.
Qed.

Lemma at_lane_slot r s l :
  layout_fits layout → is_u64 (lr_physical_offset r) → at_lane sb r s l →
  chunk_media_slot_index_for_record layout r = Ok s.
Proof.
  intros Hf Hu Hat. unfold chunk_media_slot_index_for_record.
  by rewrite (at_lane_address _ _ _ _ Hf Hu Hat), result_bind_eq.
Qed.

Lemma inv_layout k : kst_inv k → layout_fits layout.
Proof. intros Hi. apply (mi_layout _ _ _ (ki_media _ Hi)). Qed.

Lemma owner_wf k s o :
  kst_inv k → 0 ≤ s → current k s = Some o → chunk_id_wf (po_chunk_id o) ∧ location_record_wf (po_record o).
Proof.
  intros Hi Hs Ho. destruct (ki_owner _ Hi s o Hs Ho) as [Hl _].
  by destruct (ix_live_wf _ _ _ _ (ki_index _ Hi) Hl) as (? & ? & _).
Qed.

(** A chunk owns at most one slot. *)
Lemma owner_slot k s s' o o' :
  kst_inv k → 0 ≤ s → 0 ≤ s' → current k s = Some o → current k s' = Some o' →
  po_chunk_id o = po_chunk_id o' → s = s' ∧ o = o'.
Proof.
  intros Hi Hs Hs' Ho Ho' Hc. destruct (ki_owner _ Hi s o Hs Ho) as [Hl [l Hat]].
  destruct (ki_owner _ Hi s' o' Hs' Ho') as [Hl' [l' Hat']]. rewrite Hc, Hl' in Hl. injection Hl as Hr.
  rewrite Hr in Hat'. destruct (owner_wf _ _ _ Hi Hs Ho) as [_ Hwf].
  destruct (at_lane_inj _ _ _ _ _ (inv_layout _ Hi) ltac:(apply Hwf) Hat Hat') as [-> _].
  split; [done|]. destruct o, o'; cbn in *. by subst.
Qed.

(** A live chunk whose record maps to a slot owns it. *)
Lemma live_owner k s c r :
  kst_inv k → ix_live (ks_index k) c = Some r → chunk_media_slot_index_for_record layout r = Ok s →
  0 ≤ s ∧ current k s = Some (mkOwner c r).
Proof.
  intros Hi Hl Hs. destruct (ki_live _ Hi c r Hl) as (s' & Hs' & Ho).
  destruct (ki_owner _ Hi _ _ Hs' Ho) as [_ [l Hat]]. destruct (owner_wf _ _ _ Hi Hs' Ho) as [_ Hwf].
  cbn [po_record] in *. rewrite (at_lane_slot _ _ _ (inv_layout _ Hi) ltac:(apply Hwf) Hat) in Hs.
  by apply Ok_inj in Hs as <-.
Qed.

(** ** Preservation *)

Lemma current_insert k k' s s' cur' :
  0 ≤ s < len (ks_slots k) → 0 ≤ s' →
  ks_slots k' = <[Z.to_nat s := mkSlotState cur' false]> (ks_slots k) →
  current k' s' = if decide (s' = s) then cur' else current k s'.
Proof.
  intros Hs Hs' E. unfold current. rewrite E. destruct (decide (s' = s)) as [->|Hne].
  - by rewrite list_lookup_insert_eq by lia.
  - by rewrite list_lookup_insert_ne by lia.
Qed.

(** A step that changes what one chunk [c] has in one slot [s]. *)
Lemma inv_update k k' s c cur' :
  kst_inv k → 0 ≤ s < len (ks_slots k) →
  (∀ o, current k s = Some o → po_chunk_id o = c) →
  ix_live (ks_index k) c = po_record <$> current k s →
  (∀ o, cur' = Some o → po_chunk_id o = c ∧ ∃ lane, at_lane sb (po_record o) s lane) →
  media_inv (ks_media k') config sb → ix_ok drive_id (ks_index k') →
  (∀ c', ix_live (ks_index k') c' = update_at c (fun _ => po_record <$> cur') (ix_live (ks_index k)) c') →
  (∀ s', ix_owner (ks_index k') drive_id s'
         = owner_set s (owner_view <$> cur') (ix_owner (ks_index k) drive_id) s') →
  ks_slots k' = <[Z.to_nat s := mkSlotState cur' false]> (ks_slots k) →
  allocator_ok (ks_allocator k') → kst_inv k'.
Proof.
  intros Hi Hs Hcur Hlc Hcur' Hm Hx Hl Hown Esl Ha.
  pose proof (fun s' Hs' => current_insert k k' s s' cur' Hs Hs' Esl) as Hc'.
  constructor; [done..| | | | | |done].
  - rewrite Esl, length_insert. apply Hi.
  - intros i st. rewrite Esl. intros [(_ & Est & _)|[_ ?]]%list_lookup_insert_Some; [by rewrite <-Est|by eapply (ki_idle _ Hi)].
  - intros s' o Hs' Ho. rewrite Hc' in Ho by done. rewrite Hl. unfold update_at.
    destruct (decide (s' = s)) as [->|Hne].
    + destruct (Hcur' o Ho) as [-> ?]. by rewrite decide_True, Ho by done.
    + destruct (ki_owner _ Hi s' o Hs' Ho) as [Hlo ?]. rewrite decide_False; [done|]. intros Hco.
      rewrite <-Hco, Hlo in Hlc. destruct (current k s) as [o0|] eqn:E0; [|done].
      destruct (owner_slot k s s' o0 o Hi ltac:(lia) Hs' E0 Ho) as [? _]; [by rewrite Hco, (Hcur o0)|done].
  - intros c' r. rewrite Hl. unfold update_at. destruct (decide (c' = c)) as [->|Hne].
    + destruct cur' as [o|]; [|done]. intros [= <-]. exists s. split; [lia|].
      rewrite Hc', decide_True by (done || lia). destruct (Hcur' o eq_refl) as [<- _]. by destruct o.
    + intros Hlive. destruct (ki_live _ Hi c' r Hlive) as (s' & Hs' & Ho). exists s'. split; [done|].
      rewrite Hc' by done. rewrite decide_False; [done|]. intros ->. by apply Hcur in Ho.
  - intros s' Hs'. rewrite Hown, Hc' by done. unfold owner_set. destruct (decide (s' = s)); [done|].
    by apply (ki_inverse _ Hi).
Qed.

(** A step that leaves index and owners alone. *)
Lemma inv_same k k' :
  kst_inv k → media_inv (ks_media k') config sb → ix_ok drive_id (ks_index k') →
  (∀ c, ix_live (ks_index k') c = ix_live (ks_index k) c) →
  (∀ s, ix_owner (ks_index k') drive_id s = ix_owner (ks_index k) drive_id s) →
  ks_slots k' = ks_slots k → allocator_ok (ks_allocator k') → kst_inv k'.
Proof.
  intros Hi Hm Hx Hl Ho Es Ha. assert (∀ s, current k' s = current k s) as Hc by (intros; unfold current; by rewrite Es).
  constructor; [done..| | | | | |done].
  - rewrite Es. apply Hi.
  - rewrite Es. apply Hi.
  - intros s o Hs. rewrite Hc, Hl. by apply (ki_owner _ Hi).
  - intros c r. rewrite Hl. setoid_rewrite Hc. apply (ki_live _ Hi).
  - intros s Hs. rewrite Ho, Hc. by apply (ki_inverse _ Hi).
Qed.

(** ** Lanes *)

(** Media that differ in one lane only. *)
Definition lane_frame (s lane : Z) (m m' : Store) : Prop :=
  media_inv m' config sb ∧
  ∀ s' lane', lane_in layout s' lane' → (s', lane') ≠ (s, lane) → same_lane config sb s' lane' m m'.

Lemma lane_frame_refl s lane m : media_inv m config sb → lane_frame s lane m m.
Proof. intros Hm. split; [done|]. by intros s' lane' _ _ o n. Qed.

Lemma lane_frame_sync s lane m m' : lane_frame s lane m m' → lane_frame s lane m (store_sync m').
Proof. intros [Hm Hs]. split; [by apply media_inv_sync|done]. Qed.

(** The lane a write may use: not the one that holds the owner's payload. *)
Definition spare_lane (k : Kst K) (s lane : Z) : Prop :=
  0 ≤ lane < 2 ∧ ∀ o l, current k s = Some o → at_lane sb (po_record o) s l → lane ≠ l.

(** ** Reserving *)

Lemma slot_in_range k s :
  0 ≤ s < len (ks_slots k) → ∃ st, ks_slots k !! Z.to_nat s = Some st ∧ current k s = sp_current st.
Proof.
  intros Hs. destruct (lookup_lt_is_Some_2 (ks_slots k) (Z.to_nat s)) as [st Hst]; [lia|].
  exists st. split; [done|]. unfold current. by rewrite Hst.
Qed.

Lemma write_baseline_eq k c s :
  kst_inv k → 0 ≤ s →
  write_baseline sb s (ix_live (ks_index k) c) (po_record <$> current k s) = po_record <$> current k s.
Proof.
  intros Hi Hs. unfold write_baseline. destruct (current k s) as [o|] eqn:Eo; [done|]. cbn [fmap option_fmap option_map].
  destruct (ix_live (ks_index k) c) as [r|] eqn:El; [|done].
  destruct (chunk_media_slot_index_for_record layout r) as [s'|] eqn:Es; [|done].
  destruct (Z.eqb_spec s' s) as [->|]; [|done].
  destruct (live_owner _ _ _ _ Hi El Es) as [_ Ho]. by rewrite Eo in Ho.
Qed.

Lemma fresh_lane_spare k s :
  kst_inv k → 0 ≤ s →
  ∃ lane, fresh_publication_lane sb s (po_record <$> current k s) = Ok lane ∧ spare_lane k s lane.
Proof.
  intros Hi Hs. unfold fresh_publication_lane, spare_lane. destruct (current k s) as [o|] eqn:Eo; cbn [fmap option_fmap option_map].
  - destruct (ki_owner _ Hi s o Hs Eo) as [_ [l Hat]]. destruct (owner_wf _ _ _ Hi Hs Eo) as [_ Hwf].
    pose proof (inv_layout _ Hi) as Hf. rewrite (next_lane_flip sb s l _ Hf ltac:(apply Hwf) Hat).
    exists ((l + 1) mod 2). split; [done|]. pose proof Hat as ((_ & Hl) & _).
    split; [apply Z.mod_pos_bound; lia|]. intros o' l' [= <-] Hat'.
    destruct (at_lane_inj _ _ _ _ _ Hf ltac:(apply Hwf) Hat Hat') as [_ <-].
    destruct (decide (l = 0)) as [->|]; [done|]. by replace l with 1 by lia.
  - exists 0. split; [done|]. split; [lia|done].
Qed.

(** The state while a slot is reserved. *)
Definition reserved (s : Z) (k : Kst K) : Kst K := set_slot s (mkSlotState (current k s) true) k.

(** [ki] is the target without the reservations other requests hold in [k]. *)
Lemma reserve_shared ki k c s k' res :
  kst_inv ki → ks_index ki = ks_index k → current ki s = current k s → 0 ≤ s →
  (∀ st, ks_slots k !! Z.to_nat s = Some st → sp_busy st = false) →
  reserve_for_write sb c s k = (k', res) →
  (¬ s < len (ks_slots k) ∧ k' = k ∧ res = Err (ServiceError 400)) ∨
  (s < len (ks_slots k) ∧ k' = reserved s k ∧
   ∃ lane, res = Ok (mkReservation lane (current k s)) ∧ spare_lane ki s lane).
Proof.
  intros Hi Eix Ecur Hs Hidle. unfold reserve_for_write. rewrite (M_bind_run _ _ k k k) by done.
  destruct (decide (s < len (ks_slots k))) as [Hlt|Hge].
  2:{ rewrite (M_bind_Err _ _ k k (ServiceError 400)); [intros [= <- <-]; by left|].
      unfold lift, slot_publication. by rewrite lookup_ge_None_2 by lia. }
  destruct (slot_in_range k s ltac:(lia)) as (st & Hst & Hcur).
  assert (slot_publication k s = Ok st) as Hp by (unfold slot_publication; by rewrite Hst).
  rewrite (M_bind_run _ _ k k st) by (unfold lift; by rewrite Hp).
  rewrite (M_bind_run _ _ k k (ix_live (ks_index ki) c)).
  2:{ unfold lift, kix_lookup. by rewrite <-Eix, (ix_get_live drive_id) by apply Hi. }
  unfold reserve. rewrite (M_bind_run _ _ k k k) by done.
  rewrite (M_bind_run _ _ k k st) by (unfold lift; by rewrite Hp). rewrite (Hidle _ Hst).
  destruct (fresh_lane_spare ki s Hi Hs) as (lane & El & Hsp).
  rewrite (M_bind_run _ _ k k lane).
  2:{ unfold lift. rewrite <-Hcur, <-Ecur, write_baseline_eq by done. by rewrite El. }
  intros [= <- <-]. right. rewrite <-Hcur. split_and!; [done|done|]. eauto.
Qed.

Lemma reserve_spec k c s k' res :
  kst_inv k → 0 ≤ s → reserve_for_write sb c s k = (k', res) →
  (¬ s < len (ks_slots k) ∧ k' = k ∧ res = Err (ServiceError 400)) ∨
  (s < len (ks_slots k) ∧ k' = reserved s k ∧
   ∃ lane, res = Ok (mkReservation lane (current k s)) ∧ spare_lane k s lane).
Proof. intros Hi Hs. apply reserve_shared; [done..|]. intros st. apply (ki_idle _ Hi). Qed.

(** Releasing the reservation restores the slot, or installs an owner. *)
Lemma release_reserved (k k1 : Kst K) (s : Z) f :
  ks_slots k1 = ks_slots (reserved s k) →
  update_slot s f k1
  = (mkKst (ks_index k1) (ks_media k1)
       (<[Z.to_nat s := f (mkSlotState (current k s) true)]> (ks_slots k)) (ks_allocator k1), Ok tt).
Proof.
  intros E. unfold update_slot. rewrite (M_bind_run _ _ k1 k1 k1) by done. unfold put_state.
  rewrite E. unfold reserved, set_slot. cbn [ks_slots]. f_equal. f_equal.
  apply alter_insert_eq.
Qed.

Lemma insert_idle k s :
  kst_inv k → 0 ≤ s < len (ks_slots k) →
  <[Z.to_nat s := mkSlotState (current k s) false]> (ks_slots k) = ks_slots k.
Proof.
  intros Hi Hs. destruct (slot_in_range k s Hs) as (st & Hst & Hcur). apply list_insert_id.
  rewrite Hcur, Hst. pose proof (ki_idle _ Hi _ _ Hst) as Hb. destruct st as [cur busy]. cbn in *. by subst.
Qed.

(** ** Writing *)

Definition request_wf (c : ChunkId) (s generation : Z) (i : ChunkSelfDescribingIdentity) : Prop :=
  is_u16 drive_id ∧ is_u64 s ∧ chunk_id_wf c ∧ is_u32 generation ∧ ChunkMediaIO.identity_wf i.

(** What happened to the index: a record was put in, or nothing. *)
Definition index_published (s : Z) (c : ChunkId) (r : LocationRecord) (ix ix' : K) : Prop :=
  (∀ c', ix_live ix' c' = update_at c (fun o => fenced o r) (ix_live ix) c') ∧
  (∀ s', ix_owner ix' drive_id s'
         = owner_set s (fenced_owner (ix_owner ix drive_id s) c (lr_generation r)) (ix_owner ix drive_id) s').

Definition index_kept (ix ix' : K) : Prop :=
  (∀ c', ix_live ix' c' = ix_live ix c') ∧ ∀ s', ix_owner ix' drive_id s' = ix_owner ix drive_id s'.

Lemma index_kept_refl ix : index_kept ix ix.
Proof. by split. Qed.

(** The record a write leaves in the lane, and that it reads back. *)
Definition lane_holds (m : Store) (s lane : Z) (c : ChunkId) (generation : Z) (body : list byte)
    (r : LocationRecord) : Prop :=
  at_lane sb r s lane ∧ location_record_wf r ∧ lr_drive_id r = drive_id ∧ lr_generation r = generation ∧
  read_chunk_media_payload_with_file m (mc_span config) c r = Ok body.

Lemma lane_holds_sync m s lane c generation body r :
  lane_holds m s lane c generation body r → lane_holds (store_sync m) s lane c generation body r.
Proof. done. Qed.

Lemma write_lane_spec (k k' : Kst K) s lane c generation i body res :
  media_inv (ks_media k) config sb → request_wf c s generation i → 0 ≤ lane < 2 →
  write_lane config sb s lane c generation i body k = (k', res) →
  k' = mkKst (ks_index k) (ks_media k') (ks_slots k) (ks_allocator k) ∧
  lane_frame s lane (ks_media k) (ks_media k') ∧
  ((∃ r, res = Ok r ∧ lane_holds (ks_media k') s lane c generation body r) ∨ ∃ e, res = Err e).
Proof.
  intros Hm (Hd & Hs & Hc & Hg & Hid) Hl. unfold write_lane, on_media.
  assert (write_wf config s (Explicit lane) c generation i) as Hw.
  { split_and!; try done. unfold selector_wf, fits. lia. }
  destruct (write_chunk_media_payload_with_file config sb s (Explicit lane) c generation i body Deferred (ks_media k))
    as [m' [r|e]] eqn:E; intros [= <- <-]; cbn [ks_media].
  - apply write_payload_inv in E as (lane' & Ht & Hin & Hp & -> & Hwr); [|done..]. apply Ok_inj in Ht as <-.
    pose proof (payload_header_wf _ _ _ _ _ _ _ _ _ _ Hm Hw Hin Hp) as Hwf.
    pose proof Hwr as (Hm' & _ & _ & Hsame).
    destruct (wrote_read _ _ _ _ _ _ _ _ _ _ Hwf Hin Hp Hwr) as [Hread _].
    split_and!; [done|by split|]. left. eexists. split; [done|].
    split_and!; [by apply payload_at_lane|apply Hwf|done|done|done].
  - apply write_payload_refused in E as [-> _]; [|done..]. split_and!; [done|by apply lane_frame_refl|]. right. eauto.
Qed.

Lemma fdatasync_spec (k k' : Kst K) sync res :
  media_inv (ks_media k) config sb → media_fdatasync sync k = (k', res) →
  k' = mkKst (ks_index k) (ks_media k') (ks_slots k) (ks_allocator k) ∧ res = sync ∧
  (ks_media k' = store_sync (ks_media k) ∨ ks_media k' = ks_media k).
Proof.
  intros Hm. unfold media_fdatasync. destruct sync as [[]|e]; intros [= <- <-]; cbn [ks_media].
  - auto.
  - destruct k; cbn. auto.
Qed.

Lemma on_index_eq {A} (op : M K KixError A) (k : Kst K) ix r :
  op (ks_index k) = (ix, r) →
  on_index op k = (mkKst ix (ks_media k) (ks_slots k) (ks_allocator k), map_err (fun _ => ServiceError 500) r).
Proof. intros E. unfold on_index. by rewrite E. Qed.

Lemma publish_reserved_spec (k k' : Kst K) s lane cur c generation i body sync res :
  media_inv (ks_media k) config sb → ix_ok drive_id (ks_index k) → request_wf c s generation i →
  0 ≤ lane < 2 → other_owner c cur = None →
  publish_reserved config sb c s generation i body (mkReservation lane cur) sync k = (k', res) →
  ks_slots k' = ks_slots k ∧ ks_allocator k' = ks_allocator k ∧
  lane_frame s lane (ks_media k) (ks_media k') ∧ ix_ok drive_id (ks_index k') ∧
  ((∃ r, res = Ok r ∧ lane_holds (ks_media k') s lane c generation body r ∧
      index_published s c r (ks_index k) (ks_index k')) ∨
   (∃ status, res = Err (ServiceError status) ∧ index_kept (ks_index k) (ks_index k'))).
Proof.
  intros Hm Hx Hwf Hl Hother. unfold publish_reserved. cbn [rv_lane rv_current].
  destruct (write_lane config sb s lane c generation i body k) as [k1 res1] eqn:E1.
  assert (or_fail map_media_error (write_lane config sb s lane c generation i body) k
    = (k1, map_err map_media_error res1)) as E1' by (unfold or_fail; by rewrite E1).
  destruct (write_lane_spec _ _ _ _ _ _ _ _ _ Hm Hwf Hl E1) as (Ek1 & Hf1 & [(r & -> & Hr)|[e ->]]); cycle 1.
  { rewrite (M_bind_Err _ _ k k1 (map_media_error e)) by done. intros [= <- <-]. rewrite Ek1. cbn [ks_slots ks_allocator ks_media ks_index].
    split_and!; [done..|]. right. eexists. split; [done|]. apply index_kept_refl. }
  rewrite (M_bind_run _ _ k k1 r) by done.
  destruct (media_fdatasync sync k1) as [k2 res2] eqn:E2.
  assert (or_fail map_media_error (media_fdatasync sync) k1 = (k2, map_err map_media_error res2)) as E2'
    by (unfold or_fail; by rewrite E2).
  destruct (fdatasync_spec _ _ _ _ (proj1 Hf1) E2) as (Ek2 & -> & Hm2).
  assert (lane_frame s lane (ks_media k) (ks_media k2) ∧ lane_holds (ks_media k2) s lane c generation body r) as [Hf2 Hr2]
    by (destruct Hm2 as [-> | ->]; [split; [by apply lane_frame_sync|done]|done]).
  assert (ks_index k2 = ks_index k ∧ ks_slots k2 = ks_slots k ∧ ks_allocator k2 = ks_allocator k) as (Ei & Es & Ea)
    by (rewrite Ek2, Ek1; done).
  destruct sync as [[]|e]; cycle 1.
  { rewrite (M_bind_Err _ _ k1 k2 (map_media_error e)) by done. intros [= <- <-]. rewrite Ei.
    split_and!; [done..|]. right. eexists. split; [done|]. apply index_kept_refl. }
  rewrite (M_bind_run _ _ k1 k2 tt) by done.
  destruct (ix_upsert c s r (ks_index k2)) as [ix' res3] eqn:E3.
  pose proof Hr2 as (_ & Hrwf & Hrd & _). rewrite Ei in E3. pose proof (ix_upsert_spec drive_id _ _ _ _ _ _ Hx (proj1 (proj2 (proj2 Hwf))) Hrwf Hrd E3) as [Hx' Hcase].
  rewrite <-Ei in E3. rewrite Hother. destruct Hcase as [(-> & Hlive & Hown)|(Hfail & Hlive & Hown)].
  - rewrite (M_bind_run _ _ k2 _ tt (on_index_eq _ _ _ _ E3)). intros [= <- <-].
    cbn [ks_slots ks_allocator ks_media ks_index]. split_and!; [done..|]. left. exists r. by split_and!.
  - destruct res3 as [|e3]; [done|]. rewrite (M_bind_Err _ _ k2 _ (ServiceError 500) (on_index_eq _ _ _ _ E3)).
    intros [= <- <-]. cbn [ks_slots ks_allocator ks_media ks_index]. split_and!; [done..|]. right. eexists. by split.
Qed.

(** A chunk that is live stays in its slot: the client does not write it elsewhere. *)
Definition stays (k : Kst K) (c : ChunkId) (s : Z) : Prop :=
  ∀ r, ix_live (ks_index k) c = Some r → chunk_media_slot_index_for_record layout r = Ok s.

(** No other chunk owns the slot. *)
Lemma no_other_owner c cur : other_owner c cur = None ↔ ∀ o, cur = Some o → po_chunk_id o = c.
Proof.
  unfold other_owner. destruct cur as [o|]; cbn [mbind option_bind]; [|split; [by intros _ o|done]].
  split; [|by intros Hc; rewrite bool_decide_eq_true_2 by auto].
  intros Hb o' [= <-]. by case_bool_decide.
Qed.

Lemma stays_live k c s :
  kst_inv k → 0 ≤ s → stays k c s → (∀ o, current k s = Some o → po_chunk_id o = c) →
  ix_live (ks_index k) c = po_record <$> current k s.
Proof.
  intros Hi Hs Hstay Hcur. destruct (ix_live (ks_index k) c) as [r0|] eqn:El.
  - destruct (live_owner _ _ _ _ Hi El (Hstay r0 El)) as [_ ->]. done.
  - destruct (current k s) as [o|] eqn:E0; [|done]. destruct (ki_owner _ Hi s o Hs E0) as [Hl _].
    rewrite (Hcur o eq_refl), El in Hl. done.
Qed.

Lemma durable_conflict_eq k k1 c s :
  kst_inv k → 0 ≤ s → ks_index k1 = ks_index k →
  durable_conflict config k1 c s = bool_decide (is_Some (other_owner c (current k s))).
Proof.
  intros Hi Hs Ek. unfold durable_conflict. rewrite Ek, (ki_inverse _ Hi s Hs).
  unfold other_owner. destruct (current k s) as [o|] eqn:Eo; cbn [fmap option_fmap option_map mbind option_bind owner_view].
  - case_bool_decide as Hc; cbn [negb andb].
    + rewrite bool_decide_eq_false_2; [done|]. by intros [? ?].
    + destruct (ki_owner _ Hi s o Hs Eo) as [Hl _]. rewrite (ix_get_live drive_id) by apply Hi. rewrite Hl.
      rewrite bool_decide_eq_true_2; [done|]. eauto.
  - rewrite bool_decide_eq_false_2; [done|]. by intros [? ?].
Qed.

Lemma commit_fenced c cur r busy :
  (∀ o, cur = Some o → po_chunk_id o = c) →
  ∃ cur', commit_state (mkSlotState cur busy) (mkOwner c r) = mkSlotState cur' false ∧
    fenced (po_record <$> cur) r = po_record <$> cur' ∧
    fenced_owner (owner_view <$> cur) c (lr_generation r) = owner_view <$> cur' ∧
    (cur' = cur ∨ cur' = Some (mkOwner c r)).
Proof.
  intros Hc. eexists. split; [done|]. destruct cur as [o|]; cbn; [|by auto].
  destruct (Z.leb_spec (lr_generation (po_record o)) (lr_generation r)); auto.
Qed.

(** What a single write does, on every path. *)
Definition write_outcome (k k' : Kst K) (c : ChunkId) (s generation : Z) (body : list byte)
    (res : result ServiceStop ServiceResponse) : Prop :=
  kst_inv k' ∧ ks_allocator k' = ks_allocator k ∧
  ∃ lane, lane_frame s lane (ks_media k) (ks_media k') ∧ spare_lane k s lane ∧
  match res with
  | Ok response => ∃ r, response = mkResponse 201 (Some (mkLocationDocument r s)) NoBody ∧
      lane_holds (ks_media k') s lane c generation body r ∧
      (∀ c', ix_live (ks_index k') c' = update_at c (fun o => fenced o r) (ix_live (ks_index k)) c') ∧
      other_owner c (current k s) = None
  | Err (ServiceError status) =>
      (∀ c', ix_live (ks_index k') c' = ix_live (ks_index k) c') ∧
      (is_Some (other_owner c (current k s)) → s < len (ks_slots k) → status = 409 ∧ ks_media k' = ks_media k)
  | Err WouldBlock => False
  end.

Lemma write_refused k k' c s generation body status :
  kst_inv k → 0 ≤ s → kst_inv k' → ks_allocator k' = ks_allocator k → index_kept (ks_index k) (ks_index k') →
  ks_media k' = ks_media k → (is_Some (other_owner c (current k s)) → s < len (ks_slots k) → status = 409) →
  write_outcome k k' c s generation body (Err (ServiceError status)).
Proof.
  intros Hi Hs Hi' Ha [Hl _] Hm Hst. split_and!; [done..|].
  destruct (fresh_lane_spare k s Hi Hs) as (lane & _ & Hsp). exists lane. rewrite Hm.
  split_and!; [apply lane_frame_refl, Hi|done|done|]. auto.
Qed.

Lemma write_chunk_to_slot_spec k c s generation i body sync k' res :
  kst_inv k → request_wf c s generation i → stays k c s →
  write_chunk_to_slot config sb c s generation i body sync k = (k', res) →
  write_outcome k k' c s generation body res.
Proof.
  intros Hi Hwf Hstay. assert (0 ≤ s) as Hs by (destruct Hwf as (_ & [? _] & _); done).
  unfold write_chunk_to_slot. destruct (reserve_for_write sb c s k) as [k1 res1] eqn:E1.
  destruct (reserve_spec _ _ _ _ _ Hi Hs E1) as [(Hge & -> & ->)|(Hlt & -> & lane & -> & Hsp)].
  { rewrite (M_bind_Err _ _ k k (ServiceError 400)) by done. intros [= <- <-].
    apply write_refused; try done. }
  rewrite (M_bind_run _ _ k (reserved s k) (mkReservation lane (current k s))) by done.
  rewrite (M_bind_run _ _ _ (reserved s k) (reserved s k)) by done. cbn [rv_current].
  rewrite (durable_conflict_eq k) by done. rewrite orb_diag.
  destruct (other_owner c (current k s)) as [o|] eqn:Eo.
  { rewrite bool_decide_eq_true_2 by eauto. unfold rollback.
    rewrite (M_bind_run _ _ _ _ _ (release_reserved k (reserved s k) s _ eq_refl)).
    cbn [sp_current]. rewrite insert_idle by (done || lia). intros [= <- <-].
    apply write_refused; try done. by destruct k. }
  rewrite bool_decide_eq_false_2 by (by intros [? ?]).
  destruct (publish_reserved config sb c s generation i body (mkReservation lane (current k s)) sync (reserved s k))
    as [k2 res2] eqn:E2.
  rewrite (M_bind_run _ _ _ k2 res2) by (unfold attempt; by rewrite E2).
  apply publish_reserved_spec in E2 as (Es2 & Ea2 & Hf2 & Hx2 & Hcase);
    [|apply Hi|apply Hi|done|apply Hsp|done]. change (ks_media (reserved s k)) with (ks_media k) in *.
  change (ks_index (reserved s k)) with (ks_index k) in *. change (ks_allocator (reserved s k)) with (ks_allocator k) in *.
  destruct Hcase as [(r & -> & Hr & Hlive & Hown)|(status & -> & Hlive & Hown)].
  - unfold commit. rewrite (M_bind_run _ _ _ _ _ (release_reserved k k2 s _ Es2)).
    pose proof (proj1 (no_other_owner c (current k s)) Eo) as Hcur.
    destruct (commit_fenced c (current k s) r true Hcur) as (cur' & Ec & Hfen & Hfo & Hcur'). rewrite Ec.
    pose proof (stays_live k c s Hi Hs Hstay Hcur) as Hlc.
    intros [= <- <-]. split_and!; [|done|].
    + apply (inv_update k _ s c cur'); try done.
      * intros o ->. destruct Hcur' as [Hcur'| [= ->]].
        { split; [by apply Hcur|]. by destruct (ki_owner _ Hi s o Hs (eq_sym Hcur')). }
        split; [done|]. exists lane. apply Hr.
      * apply Hf2.
      * intros c'. cbn [ks_index]. rewrite Hlive. unfold update_at. case_decide; [|done]. by rewrite Hlc, Hfen.
      * intros s'. cbn [ks_index]. rewrite Hown, (ki_inverse _ Hi s Hs), Hfo. done.
      * cbn [ks_allocator]. rewrite Ea2. apply Hi.
    + exists lane. cbn [ks_media ks_index]. split_and!; [done..|]. exists r. by split_and!.
  - unfold rollback. rewrite (M_bind_run _ _ _ _ _ (release_reserved k k2 s _ Es2)). cbn [sp_current].
    rewrite insert_idle by (done || lia). intros [= <- <-]. split_and!; [|done|].
    + apply (inv_same k); try done; [apply Hf2|]. cbn [ks_allocator]. rewrite Ea2. apply Hi.
    + exists lane. cbn [ks_media ks_index]. split_and!; [done..|]. rewrite Eo. by intros [? ?].
Qed.

End inv.
