(* ===== verification/KstOps.v ===== *)
(** Properties of the storage target's single-chunk requests: the allocator, writes, reads
    and deletes on a target that satisfies the invariant. *)
From S2P Require Import Prelude Bytes Device KixTypes Kp2 ChunkMedia ChunkMediaGeo ChunkMediaIO ChunkMediaState ChunkMediaRebuild Engine EngineProps Kst KstIndex KstInv.

(** ** The granule allocator *)

Definition taken (is_occupied : Z → bool) (a : GranuleAllocator) (slot : Z) : Prop :=
  slot ∈ ga_pending a ∨ is_occupied slot = true.

(** The slots in the order the scan visits them. *)
Definition visited (a : GranuleAllocator) (j : Z) : Z := (ga_cursor a + j) mod ga_key_slots a.

Lemma visited_step a j p :
  0 < ga_key_slots a →
  visited (mkGranuleAllocator (ga_key_slots a) ((ga_cursor a + 1) mod ga_key_slots a) p) j = visited a (j + 1).
Proof.
  intros Hk. unfold visited. cbn [ga_cursor ga_key_slots]. rewrite Zplus_mod_idemp_l. f_equal. lia.
Qed.

Lemma visited_onto a slot :
  0 ≤ ga_cursor a → 0 ≤ slot < ga_key_slots a → ∃ j, 0 ≤ j < ga_key_slots a ∧ visited a j = slot.
Proof.
  intros Hc Hs. exists ((slot - ga_cursor a) mod ga_key_slots a).
  split; [apply Z.mod_pos_bound; lia|]. unfold visited. rewrite Zplus_mod_idemp_r.
  replace (ga_cursor a + (slot - ga_cursor a)) with slot by lia. by apply Z.mod_small.
Qed.

Lemma allocate_scan_spec n is_occupied a :
  0 < ga_key_slots a → 0 ≤ ga_cursor a < ga_key_slots a →
  match allocate_scan n is_occupied a with
  | (a', Some slot) => ∃ j, 0 ≤ j < Z.of_nat n ∧ slot = visited a j ∧ ¬ taken is_occupied a slot ∧
      (∀ j', 0 ≤ j' < j → taken is_occupied a (visited a j')) ∧
      a' = mkGranuleAllocator (ga_key_slots a) ((slot + 1) mod ga_key_slots a) ({[slot]} ∪ ga_pending a)
  | (a', None) => (∀ j, 0 ≤ j < Z.of_nat n → taken is_occupied a (visited a j)) ∧
      a' = mkGranuleAllocator (ga_key_slots a) (visited a (Z.of_nat n)) (ga_pending a)
  end.
Proof.
  revert a. induction n as [|n IH]; intros a Hk Hc.
  { cbn [allocate_scan]. split; [lia|]. unfold visited. rewrite Z.add_0_r, Z.mod_small by lia. by destruct a. }
  cbn [allocate_scan].
  assert (visited a 0 = ga_cursor a) as Hv0 by (unfold visited; rewrite Z.add_0_r; by apply Z.mod_small).
  destruct (negb (bool_decide (ga_cursor a ∈ ga_pending a)) && negb (is_occupied (ga_cursor a))) eqn:Ef.
  - apply andb_true_iff in Ef as [Hp%negb_true_iff Ho%negb_true_iff]. apply bool_decide_eq_false in Hp.
    exists 0. rewrite Hv0. split_and!; [lia|lia|done| |intros; lia|done]. intros [?|Ho']; [done|congruence].
  - assert (taken is_occupied a (ga_cursor a)) as Ht.
    { apply andb_false_iff in Ef as [Hp%negb_false_iff|Ho%negb_false_iff]; [left|by right].
      by apply bool_decide_eq_true in Hp. }
    set (a1 := mkGranuleAllocator (ga_key_slots a) ((ga_cursor a + 1) mod ga_key_slots a) (ga_pending a)).
    specialize (IH a1 Hk ltac:(subst a1; cbn [ga_cursor ga_key_slots]; apply Z.mod_pos_bound; lia)).
    destruct (allocate_scan n is_occupied a1) as [a' [slot|]].
    + destruct IH as (j & Hj & -> & Hnt & Hbefore & ->). exists (j + 1).
      unfold a1. rewrite visited_step by done. split_and!; [lia|lia|done|by unfold a1 in Hnt; rewrite visited_step in Hnt| |done].
      intros j' Hj'. destruct (decide (j' = 0)) as [->|]; [by rewrite Hv0|].
      specialize (Hbefore (j' - 1) ltac:(lia)). unfold a1 in Hbefore. rewrite visited_step in Hbefore by done.
      by replace (j' - 1 + 1) with j' in Hbefore by lia.
    + destruct IH as (Hall & ->). split.
      * intros j Hj. destruct (decide (j = 0)) as [->|]; [by rewrite Hv0|].
        specialize (Hall (j - 1) ltac:(lia)). unfold a1 in Hall. rewrite visited_step in Hall by done.
        by replace (j - 1 + 1) with j in Hall by lia.
      * unfold a1. rewrite visited_step by done. cbn [ga_key_slots ga_pending]. f_equal. f_equal. lia.
Qed.

Lemma add_remove (s : Z) (P : gset Z) : s ∉ P → ({[s]} ∪ P) ∖ {[s]} = P.
Proof.
  intros Hn. apply set_eq. intros x. rewrite elem_of_difference, elem_of_union, elem_of_singleton.
  split; [tauto|]. intros Hx. split; [by right|]. by intros ->.
Qed.

(** The granule allocator hands out the first slot in cyclic order from its cursor that
    is neither pending nor occupied, marks it pending and moves the cursor past it, and
    gives up exactly when every slot of the drive is pending or occupied; releasing the
    slot restores the pending set. *)
Theorem allocate_first_free is_occupied a :
  0 ≤ ga_key_slots a → 0 ≤ ga_cursor a < Z.max (ga_key_slots a) 1 →
  match allocate is_occupied a with
  | (a', Some slot) => 0 ≤ slot < ga_key_slots a ∧ ¬ taken is_occupied a slot ∧
      (∃ j, 0 ≤ j ∧ slot = visited a j ∧ ∀ j', 0 ≤ j' < j → taken is_occupied a (visited a j')) ∧
      ga_cursor a' = (slot + 1) mod ga_key_slots a ∧
      ga_pending a' = {[slot]} ∪ ga_pending a ∧ ga_pending (release slot a') = ga_pending a
  | (a', None) => (∀ slot, 0 ≤ slot < ga_key_slots a → taken is_occupied a slot) ∧
      ga_pending a' = ga_pending a
  end.
Proof.
  intros Hk Hc. unfold allocate. destruct (Z.eqb_spec (ga_key_slots a) 0) as [E|Hne]; [split; [lia|done]|].
  pose proof (allocate_scan_spec (Z.to_nat (ga_key_slots a)) is_occupied a ltac:(lia) ltac:(lia)) as Hs.
  destruct (allocate_scan _ is_occupied a) as [a' [slot|]].
  - destruct Hs as (j & Hj & -> & Hnt & Hb & ->). cbn [ga_cursor ga_pending release].
    split_and!; [by apply Z.mod_pos_bound; lia|apply Z.mod_pos_bound; lia|done| |done|done|].
    + exists j. split_and!; [lia|done|done].
    + apply add_remove. intros ?. apply Hnt. by left.
  - destruct Hs as (Hall & ->). split; [|done]. intros slot Hslot.
    destruct (visited_onto a slot ltac:(lia) Hslot) as (j & Hj & <-). apply Hall. lia.
Qed.

Section ops.
Context `{Crc32} {K : Type} `{ChunkIndexSpec K}.
Context (config : ChunkMediaWriteConfig) (sb : ChunkMediaSuperblock).

Abbreviation drive_id := (mc_drive_id config).
Abbreviation layout := (sb_layout sb).
Abbreviation kst_inv := (kst_inv config sb).

(** ** Reading an undisturbed target *)

(** A read that no other request interferes with. *)
Definition read_alone (k : Kst K) (c : ChunkId) : result ServiceStop ServiceResponse :=
  handle_read config sb (fun _ => k) c [].

Lemma live_location k c r :
  kst_inv k → ix_live (ks_index k) c = Some r →
  ∃ s lane, 0 ≤ s ∧ current k s = Some (mkOwner c r) ∧ at_lane sb r s lane ∧
    location_document sb r = Ok (mkLocationDocument r s).
Proof.
  intros Hi Hl. destruct (ki_live _ _ _ Hi c r Hl) as (s & Hs & Ho).
  destruct (ki_owner _ _ _ Hi s _ Hs Ho) as [_ [lane Hat]]. destruct (owner_wf _ _ _ _ _ Hi Hs Ho) as [_ Hwf].
  exists s, lane. split_and!; [done..|]. unfold location_document. cbn [po_record] in *.
  by rewrite (at_lane_slot _ _ _ _ (inv_layout _ _ _ Hi) ltac:(apply Hwf) Hat).
Qed.

Lemma kix_lookup_live k c : kst_inv k → kix_lookup k c = Ok (ix_live (ks_index k) c).
Proof. intros Hi. unfold kix_lookup. by rewrite (ix_get_live drive_id) by apply Hi. Qed.

Lemma read_published_payload_alone k c r :
  kst_inv k → ix_live (ks_index k) c = Some r →
  read_published_payload config (fun _ => k) c r =
  match read_chunk_media_payload_with_file (ks_media k) (mc_span config) c r with
  | Ok payload => Ok (Some (r, payload))
  | Err e => Err (map_media_error e)
  end.
Proof.
  intros Hi El. unfold read_published_payload, PUBLICATION_RETRY_LIMIT. cbn [publication_loop].
  destruct (read_chunk_media_payload_with_file (ks_media k) (mc_span config) c r) as [payload|e] eqn:Er; [done|].
  destruct (publication_retryable e) eqn:Ey.
  - rewrite (kix_lookup_live k c Hi), El, !result_bind_eq. by rewrite bool_decide_eq_true_2 by done.
  - rewrite bool_decide_eq_false_2; [done|]. by intros ->.
Qed.

Lemma read_alone_eq k c :
  kst_inv k →
  read_alone k c =
  match ix_live (ks_index k) c with
  | None => Ok (mkResponse 404 None NoBody)
  | Some r =>
      match read_chunk_media_payload_with_file (ks_media k) (mc_span config) c r with
      | Ok payload => location ← location_document sb r; Ok (mkResponse 200 (Some location) (Octets payload))
      | Err e => Err (map_media_error e)
      end
  end.
Proof.
  intros Hi. unfold read_alone, handle_read. rewrite bool_decide_eq_true_2 by done. cbn [negb].
  rewrite (kix_lookup_live k c Hi), result_bind_eq. destruct (ix_live (ks_index k) c) as [r|] eqn:El; [|done].
  rewrite (read_published_payload_alone k c r Hi El).
  by destruct (read_chunk_media_payload_with_file (ks_media k) (mc_span config) c r) as [payload|e].
Qed.

Lemma read_same k k' c :
  kst_inv k → kst_inv k' → ix_live (ks_index k') c = ix_live (ks_index k) c →
  (∀ r s lane, current k s = Some (mkOwner c r) → at_lane sb r s lane →
     same_lane config sb s lane (ks_media k) (ks_media k')) →
  read_alone k' c = read_alone k c.
Proof.
  intros Hi Hi' Hl Hsame. rewrite !read_alone_eq, Hl by done.
  destruct (ix_live (ks_index k) c) as [r|] eqn:El; [|done].
  destruct (live_location k c r Hi El) as (s & lane & Hs & Ho & Hat & _).
  by rewrite (read_payload_same _ _ _ _ _ _ c r (ki_media _ _ _ Hi) (ki_media _ _ _ Hi') Hat (Hsame r s lane Ho Hat)).
Qed.

(** Reads of every chunk whose record did not change survive a write to a spare lane. *)
Lemma read_framed k k' s lane c :
  kst_inv k → kst_inv k' → lane_frame config sb s lane (ks_media k) (ks_media k') → spare_lane sb k s lane →
  ix_live (ks_index k') c = ix_live (ks_index k) c → read_alone k' c = read_alone k c.
Proof.
  intros Hi Hi' [_ Hf] [_ Hsp] Hl. apply read_same; [done..|]. intros r s' lane' Ho Hat.
  apply Hf; [apply Hat|]. intros [= -> ->]. by apply (Hsp _ _ Ho Hat).
Qed.

Lemma read_published k c r s lane generation body :
  kst_inv k → lane_holds config sb (ks_media k) s lane c generation body r →
  ix_live (ks_index k) c = Some r →
  read_alone k c = Ok (mkResponse 200 (Some (mkLocationDocument r s)) (Octets body)).
Proof.
  intros Hi (Hat & Hwf & _ & _ & Hr) Hl. rewrite read_alone_eq, Hl, Hr by done.
  unfold location_document. by rewrite (at_lane_slot _ _ _ _ (inv_layout _ _ _ Hi) ltac:(apply Hwf) Hat).
Qed.

(** ** Writes with and without a granule *)

Lemma key_slots_nonneg k : kst_inv k → 0 ≤ key_slots layout < 2 ^ 64.
Proof. intros Hi. by destruct (inv_layout _ _ _ Hi) as ((_ & _ & ?) & _). Qed.

Lemma allocate_granule_spec k k' res :
  kst_inv k → allocate_granule config k = (k', res) →
  k' = set_allocator (ks_allocator k') k ∧ kst_inv k' ∧ ∃ o, res = Ok o ∧
  match o with
  | Some s => 0 ≤ s < key_slots layout ∧ current k s = None ∧ (s ∉ ga_pending (ks_allocator k)) ∧
      ga_pending (ks_allocator k') = {[s]} ∪ ga_pending (ks_allocator k)
  | None => ga_pending (ks_allocator k') = ga_pending (ks_allocator k)
  end.
Proof.
  intros Hi. pose proof (ki_allocator _ _ _ Hi) as [Hk Hc]. unfold allocate_granule.
  rewrite (M_bind_run _ _ k k k) by done.
  set (occ := fun slot => bool_decide (is_Some (ix_owner (ks_index k) drive_id slot))).
  assert (∀ a, allocator_ok sb a → kst_inv (set_allocator a k)) as Hset.
  { intros a Ha. apply (inv_same _ _ k); try done; apply Hi. }
  unfold allocate. destruct (Z.eqb_spec (ga_key_slots (ks_allocator k)) 0) as [E|Hne].
  { intros [= <- <-]. cbn [set_allocator ks_allocator]. split_and!; [done|by apply Hset, Hi|by exists None]. }
  pose proof (key_slots_nonneg k Hi) as Hk0.
  pose proof (allocate_scan_spec (Z.to_nat (ga_key_slots (ks_allocator k))) occ (ks_allocator k)
    ltac:(lia) ltac:(lia)) as Hs.
  destruct (allocate_scan _ occ (ks_allocator k)) as [a' [s|]]; intros [= <- <-]; cbn [set_allocator ks_allocator].
  - destruct Hs as (j & _ & Hv & Hnt & _ & ->).
    assert (0 ≤ s < key_slots layout) as Hs by (rewrite Hv; unfold visited; rewrite Hk; apply Z.mod_pos_bound; lia).
    split_and!; [done| |exists (Some s); split_and!; [done|lia|lia| | |done]].
    + apply Hset. split; [done|]. cbn [ga_cursor]. rewrite Hk. pose proof (Z.mod_pos_bound (s + 1) (key_slots layout)). lia.
    + destruct (current k s) as [o|] eqn:Eo; [|done]. destruct Hnt. right. unfold occ.
      rewrite (ki_inverse _ _ _ Hi s ltac:(lia)), Eo. rewrite bool_decide_eq_true_2; [done|]. cbn. eauto.
    + intros Hp. apply Hnt. by left.
  - destruct Hs as (_ & ->). split_and!; [done| |by exists None]. apply Hset. split; [done|]. cbn [ga_cursor].
    unfold visited. rewrite Hk. pose proof (Z.mod_pos_bound (ga_cursor (ks_allocator k) + Z.of_nat (Z.to_nat (key_slots layout))) (key_slots layout)). lia.
Qed.

(** The write of a live chunk under an older generation. *)
Definition stale (k : Kst K) (c : ChunkId) (generation : Z) : Prop :=
  ∃ r, ix_live (ks_index k) c = Some r ∧ generation < lr_generation r.

(** An acknowledged record is what reads return, unless a newer one stays. *)
Lemma fenced_read k k' c r s lane generation body :
  kst_inv k' → lane_holds config sb (ks_media k') s lane c generation body r →
  ix_live (ks_index k') c = fenced (ix_live (ks_index k) c) r →
  (ix_live (ks_index k') c = ix_live (ks_index k) c → read_alone k' c = read_alone k c) →
  (stale k c generation → read_alone k' c = read_alone k c) ∧
  (¬ stale k c generation →
   read_alone k' c = Ok (mkResponse 200 (Some (mkLocationDocument r s)) (Octets body))).
Proof.
  intros Hi' Hr Hl Hsame. pose proof Hr as (_ & _ & _ & Hg & _). unfold fenced in Hl. split.
  - intros (r0 & El & Hlt). apply Hsame. rewrite Hl, El.
    destruct (Z.leb_spec (lr_generation r0) (lr_generation r)); [lia|done].
  - intros Hns. eapply read_published; [done..|]. rewrite Hl.
    destruct (ix_live (ks_index k) c) as [r0|] eqn:El; [|done].
    destruct (Z.leb_spec (lr_generation r0) (lr_generation r)) as [|Hlt]; [done|]. destruct Hns. exists r0.
    split; [done|lia].
Qed.

(** What a write request means to the readers. *)
Definition write_seen (k k' : Kst K) (c : ChunkId) (slot generation : Z) (body : list byte)
    (res : result ServiceStop ServiceResponse) : Prop :=
  (∀ c', c' ≠ c → read_alone k' c' = read_alone k c') ∧
  match res with
  | Ok response => ∃ r s, response = mkResponse 201 (Some (mkLocationDocument r s)) NoBody ∧
      (slot ≠ GRANULE_ALLOCATE → s = slot) ∧ lr_generation r = generation ∧
      (stale k c generation → read_alone k' c = read_alone k c) ∧
      (¬ stale k c generation →
       read_alone k' c = Ok (mkResponse 200 (Some (mkLocationDocument r s)) (Octets body)))
  | Err (ServiceError _) => read_alone k' c = read_alone k c
  | Err WouldBlock => False
  end.

Lemma write_outcome_seen k k' c s slot generation body res :
  kst_inv k → (slot ≠ GRANULE_ALLOCATE → s = slot) →
  write_outcome config sb k k' c s generation body res → write_seen k k' c slot generation body res.
Proof.
  intros Hi Hslot (Hi' & _ & lane & Hf & Hsp & Hres). split.
  - intros c' Hne. apply (read_framed k k' s lane); [done..|].
    destruct res as [response|[status|]]; [|by destruct Hres as [Hl _]|done].
    destruct Hres as (r & _ & _ & Hl & _). rewrite Hl. unfold update_at. by rewrite decide_False.
  - destruct res as [response|[status|]]; [|by apply (read_framed k k' s lane); [..|apply Hres]|done].
    destruct Hres as (r & -> & Hr & Hl & _). pose proof Hr as (_ & _ & _ & Hg & _).
    specialize (Hl c). unfold update_at in Hl. rewrite decide_True in Hl by done.
    exists r, s. do 3 (split; [done|]). apply (fenced_read k k' c r s lane); [done..|]. by apply (read_framed k k' s lane).
Qed.

Definition write_contract (k k' : Kst K) (c : ChunkId) (slot generation : Z) (body : list byte)
    (res : result ServiceStop ServiceResponse) : Prop :=
  kst_inv k' ∧ ga_pending (ks_allocator k') = ga_pending (ks_allocator k) ∧
  write_seen k k' c slot generation body res ∧
  (is_Some (other_owner c (current k slot)) → res = Err (ServiceError 409) ∧ ks_media k' = ks_media k).

Lemma write_direct k c slot generation i body sync k' res :
  kst_inv k → request_wf config c slot generation i → stays sb k c slot → slot ≠ GRANULE_ALLOCATE →
  write_chunk_to_slot config sb c slot generation i body sync k = (k', res) →
  write_contract k k' c slot generation body res.
Proof.
  intros Hi Hwf Hstay Hne Hrun.
  pose proof (write_chunk_to_slot_spec _ _ _ _ _ _ _ _ _ _ _ Hi Hwf Hstay Hrun) as Hout.
  split_and!; [apply Hout|by rewrite (proj1 (proj2 Hout))|by eapply write_outcome_seen|].
  destruct Hout as (_ & _ & lane & _ & _ & Hres). intros [o Ho].
  assert (slot < len (ks_slots k)) as Hlt.
  { destruct (decide (slot < len (ks_slots k))); [done|]. unfold other_owner, current in Ho.
    destruct Hwf as (_ & [? _] & _). rewrite lookup_ge_None_2 in Ho by lia. done. }
  destruct res as [response|[status|]]; [| |done].
  - destruct Hres as (_ & _ & _ & _ & Hnone). by rewrite Ho in Hnone.
  - destruct Hres as [_ Hst]. destruct Hst as [-> ->]; [by eauto|done|done].
Qed.

Lemma allocate_unowned k : kst_inv k → current k GRANULE_ALLOCATE = None.
Proof.
  intros Hi. unfold current. rewrite lookup_ge_None_2; [done|]. pose proof (ki_slots _ _ _ Hi).
  pose proof (key_slots_nonneg k Hi). unfold GRANULE_ALLOCATE. lia.
Qed.

Lemma write_allocated k c generation i body sync k' res :
  kst_inv k → request_wf config c GRANULE_ALLOCATE generation i → ix_live (ks_index k) c = None →
  write_chunk_with_payload config sb c GRANULE_ALLOCATE generation i body sync k = (k', res) →
  write_contract k k' c GRANULE_ALLOCATE generation body res.
Proof.
  intros Hi Hwf Hdead. unfold write_chunk_with_payload. rewrite Z.eqb_refl.
  assert (∀ P : Prop, is_Some (other_owner c (current k GRANULE_ALLOCATE)) → P) as Hno.
  { intros P. rewrite (allocate_unowned k Hi). by intros [? ?]. }
  destruct (allocate_granule config k) as [ka resa] eqn:Ea.
  pose proof Ea as (Eka & Hia & o & -> & Ho)%allocate_granule_spec; [|done].
  rewrite (M_bind_run _ _ k ka o) by done.
  destruct o as [s|]; cbn [ok_or].
  2:{ rewrite (M_bind_Err _ _ ka ka (ServiceError 507)) by done. intros [= <- <-].
      split_and!; [done..| |apply Hno]. rewrite Eka. split; done. }
  destruct Ho as (Hs & Hcs & Hnp & Hp). rewrite (M_bind_run _ _ ka ka s) by done.
  destruct (write_chunk_to_slot config sb c s generation i body sync ka) as [k1 res1] eqn:E1.
  rewrite (M_bind_run _ _ ka k1 res1) by (unfold attempt; by rewrite E1).
  pose proof (key_slots_nonneg k Hi) as Hks.
  apply write_chunk_to_slot_spec in E1 as Hout; [|done| |intros r Hr; rewrite Eka in Hr; cbn [set_allocator ks_index] in Hr; by rewrite Hdead in Hr].
  2:{ destruct Hwf as (? & _ & ? & ? & ?). split_and!; try done; unfold fits; lia. }
  unfold release_granule. intros Hrel. cbn in Hrel. injection Hrel as <- <-.
  pose proof Hout as (Hi1 & Ea1 & _). split_and!; [| | |apply Hno].
  - apply (inv_same _ _ k1); try done; apply Hi1.
  - cbn [set_allocator ks_allocator release ga_pending]. rewrite Ea1, Hp. by apply add_remove.
  - apply (write_outcome_seen ka k1 c s GRANULE_ALLOCATE) in Hout; [|done..]. rewrite Eka in Hout. exact Hout.
Qed.

Lemma write_request_spec k c slot generation i body sync k' res :
  kst_inv k → request_wf config c slot generation i → stays sb k c slot →
  write_chunk_with_payload config sb c slot generation i body sync k = (k', res) →
  kst_inv k' ∧ ga_pending (ks_allocator k') = ga_pending (ks_allocator k) ∧
  write_seen k k' c slot generation body res ∧
  (is_Some (other_owner c (current k slot)) → res = Err (ServiceError 409) ∧ ks_media k' = ks_media k).
Proof.
  intros Hi Hwf Hstay Hrun. change (write_contract k k' c slot generation body res).
  destruct (decide (slot = GRANULE_ALLOCATE)) as [->|Hne].
  - eapply write_allocated; [done..| |exact Hrun]. destruct (ix_live (ks_index k) c) as [r|] eqn:El; [|done].
    destruct (live_owner _ _ _ _ _ _ Hi El (Hstay r El)) as [_ Ho]. by rewrite allocate_unowned in Ho.
  - unfold write_chunk_with_payload in Hrun. destruct (Z.eqb_spec slot GRANULE_ALLOCATE); [done|].
    by eapply write_direct.
Qed.

(** C3: A write request for a chunk that is not live, or is live in the slot the request names
    ([stays]; a live chunk sent to another slot, or to one the target is to choose, is not
    covered). It never blocks, keeps the invariant and leaves no granule pending; no read of
    another chunk changes. When it is acknowledged with 201, a read returns the body at the
    acknowledged location, except when the chunk is live under a newer generation: that
    write is acknowledged too, and reads keep returning the newer chunk. When it is refused,
    the chunk reads as before; and a slot that another chunk owns is never touched: the
    request is refused with 409 and the media is unchanged. *)
Theorem write_then_read k c slot generation i body sync k' res :
  kst_inv k → request_wf config c slot generation i → stays sb k c slot →
  write_chunk_with_payload config sb c slot generation i body sync k = (k', res) →
  kst_inv k' ∧ ga_pending (ks_allocator k') = ga_pending (ks_allocator k) ∧
  write_seen k k' c slot generation body res ∧
  (is_Some (other_owner c (current k slot)) → res = Err (ServiceError 409) ∧ ks_media k' = ks_media k).
Proof. apply write_request_spec. Qed.

(** ** Deletes *)

Lemma tombstone_and_retire_spec (k k' : Kst K) s lane c r generation res :
  media_inv (ks_media k) config sb → ix_ok drive_id (ks_index k) →
  at_lane sb r s lane → location_record_wf r → chunk_id_wf c → is_u32 generation →
  tombstone_and_retire config sb c r generation k = (k', res) →
  ks_slots k' = ks_slots k ∧ ks_allocator k' = ks_allocator k ∧
  lane_frame config sb s lane (ks_media k) (ks_media k') ∧ ix_ok drive_id (ks_index k') ∧
  (∀ s', ix_owner (ks_index k') drive_id s' = ix_owner (ks_index k) drive_id s') ∧
  read_chunk_media_payload_with_file (ks_media k') (mc_span config) c r = Err NotFound ∧
  ((res = Ok tt ∧ ∀ c', ix_live (ks_index k') c' = update_at c (fun _ => None) (ix_live (ks_index k)) c') ∨
   (res = Err (ServiceError 500) ∧ ∀ c', ix_live (ks_index k') c' = ix_live (ks_index k) c')).
Proof.
  intros Hm Hx Hat Hr Hc Hg. unfold tombstone_and_retire, or_fail, on_media.
  destruct (write_tombstone_ok (ks_media k) config sb s lane c r generation) as (m' & Em & Hm' & _ & Hgone & Hsame); [done..|].
  rewrite (M_bind_run _ _ k (mkKst (ks_index k) m' (ks_slots k) (ks_allocator k)) tt) by (by rewrite Em).
  destruct (ix_delete c (ks_index k)) as [ix' res'] eqn:Ed.
  rewrite (on_index_eq _ _ ix' res') by exact Ed. intros [= <- <-]. cbn [ks_index ks_media ks_slots ks_allocator].
  destruct (ix_delete_spec drive_id _ _ _ _ Hx Ed) as (Hx' & Ho & Hcase).
  split_and!; [done..|by split|done|done|by apply Hgone|].
  destruct Hcase as [[-> Hl]|[Hf Hl]]; [by left|]. right. by destruct res'.
Qed.

(** What a delete does once the chunk, its slot and its fence are settled: the chunk is gone;
    or its tombstone is on the medium, so that reads answer not found, but the index, which
    refused the deletion, and the slot still name it. *)
Definition delete_seen (k k' : Kst K) (c : ChunkId) (r : LocationRecord) (s : Z)
    (res : result ServiceStop ServiceResponse) : Prop :=
  (res = Ok (mkResponse 200 None (DeleteChunkDocument true (lr_generation r + 1))) ∧
   read_alone k' c = Ok (mkResponse 404 None NoBody) ∧ current k' s = None ∧
   ix_owner (ks_index k') drive_id s = None) ∨
  (res = Err (ServiceError 500) ∧ read_alone k' c = Err (ServiceError 404) ∧
   ix_live (ks_index k') c = Some r ∧ current k' s = Some (mkOwner c r)).

Lemma delete_slot_spec k c r s lane k2 res2 :
  kst_inv k → 0 ≤ s → current k s = Some (mkOwner c r) → at_lane sb r s lane →
  lr_generation r + 1 < 2 ^ 32 →
  tombstone_and_retire config sb c r (lr_generation r + 1) (reserved s k) = (k2, res2) →
  let k3 := if is_Ok res2 then mkKst (ix_clear drive_id s (ks_index k2)) (ks_media k2) (ks_slots k2) (ks_allocator k2) else k2 in
  ∃ k', finish_delete s (is_Ok res2) k3 = (k', Ok tt) ∧ kst_inv k' ∧ ks_allocator k' = ks_allocator k ∧
    lane_frame config sb s lane (ks_media k) (ks_media k') ∧
    (∀ c', c' ≠ c → ix_live (ks_index k') c' = ix_live (ks_index k) c') ∧
    delete_seen k k' c r s (_ ← res2; Ok (mkResponse 200 None (DeleteChunkDocument true (lr_generation r + 1)))).
Proof.
  intros Hi Hs Ho Hat Hgen E2 k3. destruct (ki_owner _ _ _ Hi s _ Hs Ho) as [Hl _]. cbn [po_chunk_id po_record] in Hl.
  destruct (owner_wf _ _ _ _ _ Hi Hs Ho) as [Hcwf Hrwf]. cbn [po_chunk_id po_record] in *.
  assert (s < len (ks_slots k)) as Hlt.
  { destruct (decide (s < len (ks_slots k))); [done|]. unfold current in Ho. rewrite lookup_ge_None_2 in Ho by lia. done. }
  apply (tombstone_and_retire_spec _ _ s lane) in E2 as (Es & Ea & Hf & Hx & Hown & Hgone & Hcase);
    [|apply Hi|apply Hi|done|done|done|destruct Hrwf as (_ & _ & _ & _ & [? _] & _); split; lia].
  change (ks_media (reserved s k)) with (ks_media k) in Hf. change (ks_index (reserved s k)) with (ks_index k) in *.
  change (ks_allocator (reserved s k)) with (ks_allocator k) in Ea.
  assert (ks_slots k3 = ks_slots (reserved s k) ∧ ks_media k3 = ks_media k2 ∧ ks_allocator k3 = ks_allocator k) as (Es3 & Em3 & Ea3)
    by (subst k3; by destruct (is_Ok res2)).
  unfold finish_delete. rewrite (release_reserved k k3 s _ Es3). eexists. split; [done|].
  rewrite Em3, Ea3. cbn [sp_current ks_index ks_media ks_allocator].
  destruct Hcase as [[-> Hlive]|[-> Hlive]]; subst k3; cbn [is_Ok ks_index].
  - destruct (ix_clear_spec drive_id (ks_index k2) s Hx) as (Hx3 & Hl3 & Ho3).
    assert (kst_inv (mkKst (ix_clear drive_id s (ks_index k2)) (ks_media k2)
      (<[Z.to_nat s := mkSlotState None false]> (ks_slots k)) (ks_allocator k))) as Hi'.
    { apply (inv_update _ _ k _ s c None); try done; [by rewrite Ho; intros o [= <-]|by rewrite Ho, Hl|apply Hf| | |apply Hi].
      - intros c'. cbn [ks_index]. by rewrite Hl3, Hlive.
      - intros s'. cbn [ks_index]. rewrite Ho3. unfold owner_set. by rewrite Hown. }
    split_and!; [done..| |].
    + intros c' Hne. rewrite Hl3, Hlive. unfold update_at. by rewrite decide_False.
    + left. split_and!; [done| | |by rewrite Ho3; unfold owner_set; rewrite decide_True].
      * rewrite read_alone_eq by done. cbn [ks_index]. rewrite Hl3, Hlive. unfold update_at. by rewrite decide_True.
      * unfold current. cbn [ks_slots]. by rewrite list_lookup_insert_eq by lia.
  - rewrite (insert_idle _ _ k s Hi (conj Hs Hlt)).
    assert (kst_inv (mkKst (ks_index k2) (ks_media k2) (ks_slots k) (ks_allocator k))) as Hi'.
    { apply (inv_same _ _ k); try done; [apply Hf|apply Hi]. }
    assert (ix_live (ks_index k2) c = Some r) as Hl2 by by rewrite Hlive.
    split_and!; [done..|]. right. split_and!; [done| |done|done].
    rewrite read_alone_eq by done. cbn [ks_index ks_media]. by rewrite Hl2, Hgone.
Qed.

Lemma begin_delete_idle k s o :
  kst_inv k → 0 ≤ s → current k s = Some o → begin_delete s k = (reserved s k, Ok (Some o)).
Proof.
  intros Hi Hs Ho. unfold begin_delete. rewrite (M_bind_run _ _ k k k) by done.
  unfold current in Ho. destruct (ks_slots k !! Z.to_nat s) as [st|] eqn:Hst; [|done]. cbn in Ho.
  assert (slot_publication k s = Ok st) as Hp by (unfold slot_publication; by rewrite Hst).
  rewrite (M_bind_run _ _ k k st) by (unfold lift; by rewrite Hp). rewrite (ki_idle _ _ _ Hi _ _ Hst).
  unfold reserved, current. rewrite Hst. cbn [mbind option_bind]. by rewrite Ho.
Qed.

Lemma generation_fence_eq k c r s expected :
  kst_inv k → 0 ≤ s → current k s = Some (mkOwner c r) →
  generation_fence config k c s expected = match expected with Some e => lr_generation r =? e | None => true end.
Proof.
  intros Hi Hs Ho. unfold generation_fence. destruct expected as [e|]; [|done].
  rewrite (ki_inverse _ _ _ Hi s Hs), Ho. cbn [fmap option_fmap option_map owner_view po_chunk_id po_record].
  by rewrite bool_decide_eq_true_2 by done.
Qed.

(** A request that leaves the target as it is. *)
Definition delete_refused (k : Kst K) (c : ChunkId) (expected : option Z) (body : list byte)
    (res : result ServiceStop ServiceResponse) : Prop :=
  (body ≠ [] ∧ res = Err (ServiceError 400)) ∨
  (body = [] ∧ ix_live (ks_index k) c = None ∧ res = Ok not_deleted) ∨
  (body = [] ∧ ∃ r, ix_live (ks_index k) c = Some r ∧
     ((lr_generation r + 1 = 2 ^ 32 ∧ res = Err (ServiceError 412)) ∨
      (lr_generation r + 1 < 2 ^ 32 ∧ (∃ e, expected = Some e ∧ e ≠ lr_generation r) ∧ res = Ok not_deleted))).

Lemma delete_request_spec k c expected body k' res :
  kst_inv k → handle_delete config sb c expected body k = (k', res) →
  kst_inv k' ∧ ks_allocator k' = ks_allocator k ∧
  (∀ c', c' ≠ c → read_alone k' c' = read_alone k c') ∧
  ((k' = k ∧ delete_refused k c expected body res) ∨
   (∃ r s, current k s = Some (mkOwner c r) ∧ (expected = None ∨ expected = Some (lr_generation r)) ∧
      delete_seen k k' c r s res)).
Proof.
  intros Hi. unfold handle_delete. destruct (decide (body = [])) as [->|Hb].
  2:{ rewrite bool_decide_eq_false_2 by done. intros [= <- <-]. split_and!; [done..|]. left. split; [done|]. by left. }
  rewrite bool_decide_eq_true_2 by done. cbn [negb]. rewrite (M_bind_run _ _ k k k) by done.
  rewrite (M_bind_run _ _ k k (ix_live (ks_index k) c)).
  2:{ unfold lift, kix_lookup. by rewrite (ix_get_live drive_id) by apply Hi. }
  destruct (ix_live (ks_index k) c) as [r|] eqn:El.
  2:{ intros [= <- <-]. split_and!; [done..|]. left. split; [done|]. right. by left. }
  destruct (live_location k c r Hi El) as (s & lane & Hs & Ho & Hat & _).
  destruct (ix_live_wf _ _ _ _ (ki_index _ _ _ Hi) El) as (_ & Hwf & _).
  pose proof Hwf as (_ & Hu & _ & _ & Hg & _). unfold checked_add.
  destruct (Z.ltb_spec (lr_generation r + 1) (2 ^ 32)) as [Hlt|Hge]; cbn [ok_or].
  2:{ rewrite (M_bind_Err _ _ k k (ServiceError 412)) by done. intros [= <- <-]. split_and!; [done..|]. left.
      split; [done|]. right. right. split; [done|]. exists r. split; [done|]. left. split; [|done].
      destruct Hg. lia. }
  rewrite (M_bind_run _ _ k k (lr_generation r + 1)) by done.
  rewrite (M_bind_run _ _ k k s) by (unfold lift; by rewrite (at_lane_slot _ _ _ _ (inv_layout _ _ _ Hi) Hu Hat)).
  rewrite (generation_fence_eq k c r s expected Hi Hs Ho).
  destruct (match expected with Some e => lr_generation r =? e | None => true end) eqn:Ef; cbn [negb].
  2:{ intros [= <- <-]. split_and!; [done..|]. left. split; [done|]. right. right. split; [done|]. exists r.
      split; [done|]. right. split_and!; [done| |done]. destruct expected as [e|]; [|done]. exists e.
      split; [done|]. by apply Z.eqb_neq in Ef. }
  assert (expected = None ∨ expected = Some (lr_generation r)) as Hexp.
  { destruct expected as [e|]; [right|by left]. by apply Z.eqb_eq in Ef as <-. }
  rewrite (M_bind_run _ _ k (reserved s k) (Some (mkOwner c r))) by (by apply begin_delete_idle).
  unfold other_owner at 1. cbn [mbind option_bind po_chunk_id]. rewrite bool_decide_eq_true_2 by done.
  destruct (tombstone_and_retire config sb c r (lr_generation r + 1) (reserved s k)) as [k2 res2] eqn:E2.
  rewrite (M_bind_run _ _ _ k2 res2) by (unfold attempt; by rewrite E2). rewrite (M_bind_run _ _ k2 k2 k2) by done.
  destruct (delete_slot_spec k c r s lane k2 res2 Hi Hs Ho Hat Hlt E2) as (k4 & E4 & Hi4 & Ha4 & Hf4 & Hl4 & Hseen).
  erewrite (M_bind_run _ _ k2 _ tt) by done. rewrite (M_bind_run _ _ _ k4 tt E4).
  intros Hlast. assert (k' = k4 ∧ res = (_ ← res2; Ok (mkResponse 200 None (DeleteChunkDocument true (lr_generation r + 1))))) as [-> ->].
  { destruct res2 as [[]|e]; cbn in Hlast; by injection Hlast as <- <-. }
  split_and!; [done..| |right; by exists r, s]. intros c' Hne. apply read_same; [done..|by apply Hl4|].
  intros r' s' lane' Ho' Hat'. destruct Hf4 as [_ Hf4]. apply Hf4; [apply Hat'|]. intros [= -> ->].
  rewrite Ho in Ho'. by injection Ho' as -> ->.
Qed.

(** C26: A delete request never blocks and keeps the invariant, and no read of another chunk
    changes. Either the target is untouched (a body was sent, the chunk is not there, its
    generation cannot be raised, or the fence names another generation than the live one),
    or reads no longer return the chunk. Then either the delete is acknowledged, the read
    answers 404, its slot has no owner and its granule is free for the allocator; or the
    delete answers 500 because the index refused it after the tombstone was written over
    the live header: a read answers the error 404, while index and slot still name the
    chunk and keep its granule. *)
Theorem delete_then_missing k c expected body k' res :
  kst_inv k → handle_delete config sb c expected body k = (k', res) →
  kst_inv k' ∧ ks_allocator k' = ks_allocator k ∧
  (∀ c', c' ≠ c → read_alone k' c' = read_alone k c') ∧
  ((k' = k ∧ delete_refused k c expected body res) ∨
   (∃ r s, current k s = Some (mkOwner c r) ∧ (expected = None ∨ expected = Some (lr_generation r)) ∧
      delete_seen k k' c r s res)).
Proof. apply delete_request_spec. Qed.

End ops.
