(* ===== verification/KstPackProps.v ===== *)
(** Packed writes of the storage target: with one barrier for the whole pack, every entry
    behaves like a write of its own. *)
From S2P Require Import Prelude Bytes Device KixTypes Kp2 Kp2Http ChunkMedia ChunkMediaGeo ChunkMediaIO ChunkMediaState ChunkMediaRebuild Engine EngineProps Kst KstPack KstIndex KstInv KstOps.

Section packs.
Context `{Crc32} {K : Type} `{ChunkIndexSpec K}.
Context (config : ChunkMediaWriteConfig) (sb : ChunkMediaSuperblock).
Context (message : Z → ChunkId → list byte).

Abbreviation drive_id := (mc_drive_id config).
Abbreviation layout := (sb_layout sb).
Abbreviation kst_inv := (kst_inv config sb).

(** ** States with reserved slots *)

(** The target with every reservation dropped. *)
Definition idle (k : Kst K) : Kst K :=
  mkKst (ks_index k) (ks_media k) ((fun st => mkSlotState (sp_current st) false) <$> ks_slots k) (ks_allocator k).

Definition busy (k : Kst K) (s : Z) : bool :=
  match ks_slots k !! Z.to_nat s with
  | Some st => sp_busy st
  | None => false
  end.

Lemma current_idle k s : current (idle k) s = current k s.
Proof. unfold current, idle. cbn [ks_slots]. rewrite list_lookup_fmap. by destruct (ks_slots k !! Z.to_nat s). Qed.

Lemma idle_slots k : length (ks_slots (idle k)) = length (ks_slots k).
Proof. unfold idle. cbn [ks_slots]. by rewrite length_fmap. Qed.

Lemma idle_id k : (∀ s, 0 ≤ s → busy k s = false) → idle k = k.
Proof.
  intros Hb. unfold idle. destruct k as [ix m slots a]. cbn [ks_index ks_media ks_slots ks_allocator] in *. f_equal.
  apply list_eq. intros i. rewrite list_lookup_fmap. destruct (slots !! i) as [[cur b]|] eqn:E; [|done].
  specialize (Hb (Z.of_nat i) ltac:(lia)). unfold busy in Hb. cbn [ks_slots] in Hb. rewrite Nat2Z.id, E in Hb.
  cbn in *. by subst.
Qed.

Lemma inv_not_busy k s : kst_inv k → busy k s = false.
Proof.
  intros Hi. unfold busy. destruct (ks_slots k !! Z.to_nat s) as [st|] eqn:E; [|done]. by apply (ki_idle _ _ _ Hi) in E.
Qed.

Lemma inv_idle k : kst_inv k → idle k = k.
Proof. intros Hi. apply idle_id. intros s _. by apply inv_not_busy. Qed.

(** Changing a slot, seen through [idle] and [busy]. *)
Lemma busy_alter k k' s s' f :
  0 ≤ s → 0 ≤ s' → ks_slots k' = alter f (Z.to_nat s) (ks_slots k) →
  busy k' s' = if decide (s' = s)
               then match ks_slots k !! Z.to_nat s with Some st => sp_busy (f st) | None => false end
               else busy k s'.
Proof.
  intros Hs Hs' E. unfold busy. rewrite E. destruct (decide (s' = s)) as [->|Hne].
  - rewrite list_lookup_alter_eq. by destruct (ks_slots k !! Z.to_nat s).
  - by rewrite list_lookup_alter_ne by lia.
Qed.

Lemma idle_alter k k' s f :
  (∀ st, sp_current (f st) = sp_current st) → ks_slots k' = alter f (Z.to_nat s) (ks_slots k) →
  ks_slots (idle k') = ks_slots (idle k).
Proof.
  intros Hf E. unfold idle. cbn [ks_slots]. rewrite E. apply list_eq. intros i. rewrite !list_lookup_fmap.
  destruct (decide (Z.to_nat s = i)) as [<-|Hne].
  - rewrite list_lookup_alter_eq. destruct (ks_slots k !! Z.to_nat s) as [st|]; [|done]. cbn. by rewrite Hf.
  - by rewrite list_lookup_alter_ne.
Qed.

Lemma idle_eq k k' :
  ks_index k' = ks_index k → ks_media k' = ks_media k → ks_allocator k' = ks_allocator k →
  ks_slots (idle k') = ks_slots (idle k) → idle k' = idle k.
Proof. intros E1 E2 E3 E4. unfold idle in *. cbn [ks_slots] in E4. by rewrite E1, E2, E3, E4. Qed.

(** Taking and giving back a reservation. *)
Lemma reserved_shared k s :
  0 ≤ s < len (ks_slots k) →
  idle (reserved s k) = idle k ∧ ∀ s', 0 ≤ s' → busy (reserved s k) s' = (bool_decide (s' = s) || busy k s').
Proof.
  intros Hs. assert (ks_slots (reserved s k) = alter (fun st => mkSlotState (sp_current st) true) (Z.to_nat s) (ks_slots k)) as E.
  { unfold reserved, set_slot. cbn [ks_slots]. destruct (slot_in_range k s Hs) as (st & Hst & Hcur). rewrite Hcur.
    apply list_eq. intros i. destruct (decide (Z.to_nat s = i)) as [<-|Hne].
    - rewrite list_lookup_insert_eq, list_lookup_alter_eq, Hst by lia. done.
    - by rewrite list_lookup_insert_ne, list_lookup_alter_ne. }
  split; [apply idle_eq; try done; by apply (idle_alter k _ s (fun st => mkSlotState (sp_current st) true))|].
  intros s' Hs'. rewrite (busy_alter k _ s s' _ ltac:(lia) Hs' E). destruct (slot_in_range k s Hs) as (st & -> & _).
  case_decide; [by rewrite bool_decide_eq_true_2|by rewrite bool_decide_eq_false_2].
Qed.

Lemma rollback_shared k s k' res :
  0 ≤ s → rollback s k = (k', res) →
  res = Ok tt ∧ idle k' = idle k ∧ ∀ s', 0 ≤ s' → busy k' s' = (negb (bool_decide (s' = s)) && busy k s').
Proof.
  intros Hs. unfold rollback, update_slot. rewrite (M_bind_run _ _ k k k) by done. intros [= <- <-]. split_and!; [done|..].
  - apply idle_eq; try done. by apply (idle_alter k _ s (fun st => mkSlotState (sp_current st) false)).
  - intros s' Hs'. erewrite (busy_alter k _ s s') by done. case_decide.
    + rewrite bool_decide_eq_true_2 by done. by destruct (ks_slots k !! Z.to_nat s).
    + by rewrite bool_decide_eq_false_2.
Qed.

(** Committing the owner of a slot with room for the chunk. *)
Lemma commit_shared k s owner k' res :
  0 ≤ s < len (ks_slots k) → commit s owner k = (k', res) →
  res = Ok tt ∧ ks_index k' = ks_index k ∧ ks_media k' = ks_media k ∧ ks_allocator k' = ks_allocator k ∧
  ks_slots (idle k') = <[Z.to_nat s := commit_state (mkSlotState (current k s) true) owner]> (ks_slots (idle k)) ∧
  ∀ s', 0 ≤ s' → busy k' s' = (negb (bool_decide (s' = s)) && busy k s').
Proof.
  intros Hs. unfold commit, update_slot. rewrite (M_bind_run _ _ k k k) by done. intros [= <- <-].
  destruct (slot_in_range k s Hs) as (st & Hst & Hcur). split_and!; [done..| |].
  - unfold idle. cbn [ks_slots]. apply list_eq. intros i. rewrite list_lookup_fmap.
    destruct (decide (Z.to_nat s = i)) as [<-|Hne].
    + rewrite list_lookup_alter_eq, Hst, list_lookup_insert_eq by (rewrite length_fmap; lia).
      cbn. by rewrite Hcur.
    + by rewrite list_lookup_alter_ne, list_lookup_insert_ne, list_lookup_fmap by done.
  - intros s' Hs'. erewrite (busy_alter k _ s s') by (done || lia). rewrite Hst. case_decide.
    + by rewrite bool_decide_eq_true_2.
    + by rewrite bool_decide_eq_false_2.
Qed.

(** ** Staging *)

Definition stage_slot (stage : PackEntryStage) : option Z :=
  match stage with
  | Written _ _ slot_index _ _ => Some slot_index
  | Failed _ => None
  end.

Definition staged_slots (staged : list PackEntryStage) : list Z := omap stage_slot staged.

(** What a staged entry stands for: its payload is in a spare lane of its reserved slot. *)
Definition stage_for (k : Kst K) (e : PackedWriteEntry) (stage : PackEntryStage) : Prop :=
  match stage with
  | Written rv c s generation r =>
      c = we_chunk_id e ∧ s = we_slot_index e ∧ generation = we_generation e ∧
      rv_current rv = current k s ∧ s < len (ks_slots k) ∧ spare_lane sb k s (rv_lane rv) ∧
      lane_holds config sb (ks_media k) s (rv_lane rv) c generation (we_payload e) r
  | Failed reply =>
      reply = reply_entry message (we_chunk_id e) (we_slot_index e) (we_generation e) 422 None
  end.

Definition entry_wf (e : PackedWriteEntry) : Prop :=
  request_wf config (we_chunk_id e) (we_slot_index e) (we_generation e) (media_identity (we_identity e)).

(** The target between the phases of a pack. *)
Record pack_state (k : Kst K) (entries : list PackedWriteEntry) (staged : list PackEntryStage) : Prop := {
  pk_inv : kst_inv (idle k);
  pk_busy : ∀ s, 0 ≤ s → busy k s = bool_decide (s ∈ staged_slots staged);
  pk_staged : Forall2 (stage_for (idle k)) entries staged;
}.

(** Nothing but the media changed, and no read noticed. *)
Definition quiet (k k' : Kst K) : Prop :=
  ks_index k' = ks_index k ∧ ks_allocator k' = ks_allocator k ∧ ks_slots k' = ks_slots k ∧
  ∀ c, read_alone config sb k' c = read_alone config sb k c.

Lemma quiet_refl k : quiet k k.
Proof. by split_and!. Qed.

Lemma quiet_trans k1 k2 k3 : quiet k1 k2 → quiet k2 k3 → quiet k1 k3.
Proof. intros (A1 & B1 & C1 & D1) (A2 & B2 & C2 & D2). split_and!; congruence || (intros c; by rewrite D2). Qed.

Lemma quiet_slots k k' : quiet (idle k) (idle k') → length (ks_slots k') = length (ks_slots k).
Proof. intros (_ & _ & E & _). by rewrite <-(idle_slots k'), <-(idle_slots k), E. Qed.

(** A write to a spare lane is quiet and keeps what other slots have staged. *)
Lemma lane_frame_quiet k m' s lane :
  kst_inv k → lane_frame config sb s lane (ks_media k) m' → spare_lane sb k s lane →
  let k' := mkKst (ks_index k) m' (ks_slots k) (ks_allocator k) in kst_inv k' ∧ quiet k k'.
Proof.
  intros Hi Hf Hsp k'. assert (kst_inv k') as Hi' by (apply (inv_same _ _ k); try done; apply Hi || apply Hf).
  split; [done|]. split_and!; try done. intros c. by apply (read_framed _ _ k k' s lane).
Qed.

Lemma stage_for_frame k k' e stage s lane :
  stage_for k e stage → lane_frame config sb s lane (ks_media k) (ks_media k') →
  media_inv (ks_media k) config sb → we_slot_index e ≠ s →
  (∀ s', current k' s' = current k s') → ks_slots k' = ks_slots k → stage_for k' e stage.
Proof.
  intros Hst [Hm' Hf] Hm Hne Hcur Esl. destruct stage as [rv c s' g r|reply]; [|done].
  destruct Hst as (-> & -> & -> & Hrv & Hlt & Hsp & Hat & Hwf & Hd & Hg & Hr). split_and!; try done.
  - by rewrite Hcur.
  - by rewrite Esl.
  - destruct Hsp as [? Hsp]. split; [done|]. intros o l. rewrite Hcur. apply Hsp.
  - split_and!; try done. rewrite <-Hr. eapply read_payload_same; [done..|]. apply Hf; [apply Hat|]. by intros [= ? ?].
Qed.

Lemma staged_slot_entry k entries staged s :
  Forall2 (stage_for k) entries staged → s ∈ staged_slots staged → s ∈ we_slot_index <$> entries.
Proof.
  intros Hf. induction Hf as [|e st entries staged Hst _ IH]; [by intros ?%elem_of_nil|].
  unfold staged_slots. cbn [omap list_omap fmap list_fmap]. destruct st as [rv c s' g r|reply]; cbn [stage_slot].
  - destruct Hst as (_ & -> & _). intros [->|Hin]%elem_of_cons; [left|right; by apply IH].
  - intros Hin. right. by apply IH.
Qed.

Lemma staged_slots_app l1 l2 : staged_slots (l1 ++ l2) = staged_slots l1 ++ staged_slots l2.
Proof. apply omap_app. Qed.

Lemma stage_entry_spec k entries staged e k' res :
  pack_state k entries staged → entry_wf e → we_slot_index e ∉ we_slot_index <$> entries →
  stage_entry config sb message e k = (k', res) →
  (k' = k ∧ res = Err (ServiceError 400) ∧ len (ks_slots k) ≤ we_slot_index e) ∨
  (∃ stage, res = Ok stage ∧ pack_state k' (entries ++ [e]) (staged ++ [stage]) ∧ quiet (idle k) (idle k')).
Proof.
  intros Hp Hwf Hnew. pose proof Hp as [Hi Hbusy Hst]. assert (0 ≤ we_slot_index e) as Hs by (destruct Hwf as (_ & [? _] & _); done).
  assert (busy k (we_slot_index e) = false) as Hnb.
  { rewrite Hbusy by done. apply bool_decide_eq_false_2. intros Hin. by eapply Hnew, staged_slot_entry. }
  unfold stage_entry. destruct (reserve_for_write sb (we_chunk_id e) (we_slot_index e) k) as [k1 res1] eqn:E1.
  apply (reserve_shared config sb (idle k)) in E1 as Hrs; [|done|done|by rewrite current_idle|done|intros st Hst'; unfold busy in Hnb; by rewrite Hst' in Hnb].
  destruct Hrs as [(Hge & -> & ->)|(Hlt & -> & lane & -> & Hsp)].
  { rewrite (M_bind_Err _ _ k k (ServiceError 400)) by done. intros [= <- <-]. left. split_and!; [done..|lia]. }
  set (s := we_slot_index e) in *. destruct (reserved_shared k s ltac:(lia)) as [Eid Hb1].
  rewrite (M_bind_run _ _ k (reserved s k) (mkReservation lane (current k s))) by done. cbn [rv_lane].
  destruct (write_lane config sb s lane (we_chunk_id e) (we_generation e) (media_identity (we_identity e)) (we_payload e) (reserved s k))
    as [k2 res2] eqn:E2.
  rewrite (M_bind_run _ _ _ k2 res2) by (unfold attempt; by rewrite E2).
  apply write_lane_spec in E2 as (Ek2 & Hf & Hcase); [|apply Hi|done|apply Hsp].
  change (ks_media (reserved s k)) with (ks_media (idle k)) in Hf.
  destruct (lane_frame_quiet (idle k) (ks_media k2) s lane Hi Hf Hsp) as [Hi2 Hq2].
  assert (idle k2 = mkKst (ks_index (idle k)) (ks_media k2) (ks_slots (idle k)) (ks_allocator (idle k))) as Eid2.
  { rewrite <-Eid, Ek2. done. }
  assert (Forall2 (stage_for (idle k2)) entries staged) as Hst2.
  { apply Forall2_same_length_lookup_2; [by eapply Forall2_length|]. intros j e' st' He' Hst'.
    apply (stage_for_frame (idle k) _ _ _ s lane); [by eapply (Forall2_lookup_lr _ _ _ _ _ _ Hst)|done|apply Hi| | |by rewrite Eid2].
    - intros E. apply Hnew. rewrite <-E. apply list_elem_of_fmap_2. by eapply list_elem_of_lookup_2.
    - intros s'. by rewrite Eid2. }
  assert (∀ s', busy k2 s' = busy (reserved s k) s') as Hb2 by (intros s'; unfold busy; by rewrite Ek2).
  rewrite <-Eid2 in Hi2, Hq2. destruct Hcase as [(r & -> & Hr)|[err ->]].
  - intros [= <- <-]. right. eexists. split_and!; [done| |done]. constructor; [done| |].
    + intros s' Hs'. rewrite Hb2, Hb1, Hbusy, staged_slots_app by done. cbn [staged_slots omap list_omap stage_slot].
      rewrite <-bool_decide_or. apply bool_decide_ext. rewrite elem_of_app, list_elem_of_singleton. tauto.
    + apply Forall2_app; [done|]. constructor; [|constructor]. rewrite Eid2. split_and!; try done.
      * cbn [rv_current]. symmetry. apply (current_idle k).
      * cbn [ks_slots]. by rewrite idle_slots.
  - destruct (rollback s k2) as [k3 res3] eqn:E3.
    apply rollback_shared in E3 as Hrb; [|done]. destruct Hrb as (-> & Eid3 & Hb3).
    rewrite (M_bind_run _ _ _ _ _ E3). intros [= <- <-]. right. eexists. rewrite <-Eid3 in Hi2, Hq2, Hst2.
    split_and!; [done| |done]. constructor; [done| |].
    + intros s' Hs'. rewrite Hb3, Hb2, Hb1, staged_slots_app by done. cbn [staged_slots omap list_omap stage_slot].
      rewrite app_nil_r, <-Hbusy by done. case_bool_decide as Hss; [subst s'; by rewrite Hnb|done].
    + apply Forall2_app; [done|]. by constructor.
Qed.

Lemma rollback_staged_spec staged k k' res :
  Forall (fun s => 0 ≤ s) (staged_slots staged) → rollback_staged staged k = (k', res) →
  res = Ok tt ∧ idle k' = idle k ∧
  ∀ s, 0 ≤ s → busy k' s = (negb (bool_decide (s ∈ staged_slots staged)) && busy k s).
Proof.
  revert k. induction staged as [|[rv c s g r|reply] staged IH]; intros k Hpos; cbn [rollback_staged].
  - intros [= <- <-]. split_and!; try done. 
  - unfold staged_slots in Hpos. cbn [omap list_omap stage_slot] in Hpos. apply Forall_cons in Hpos as [Hs Hpos].
    destruct (rollback s k) as [k1 res1] eqn:E1. apply rollback_shared in E1 as Hrb; [|done].
    destruct Hrb as (-> & Eid & Hb). rewrite (M_bind_run _ _ _ _ _ E1). intros Hr.
    destruct (IH k1 Hpos Hr) as (-> & Eid' & Hb'). split_and!; [done|congruence|].
    intros s' Hs'. rewrite Hb', Hb by done. unfold staged_slots. cbn [omap list_omap stage_slot].
    rewrite andb_assoc, <-negb_orb, <-bool_decide_or. f_equal. f_equal. apply bool_decide_ext.
    rewrite elem_of_cons. tauto.
  - apply IH. exact Hpos.
Qed.

Lemma staged_slots_pos k entries staged :
  Forall entry_wf entries → Forall2 (stage_for k) entries staged → Forall (fun s => 0 ≤ s) (staged_slots staged).
Proof.
  intros Hwf Hf. apply Forall_forall. intros s Hs. apply (staged_slot_entry _ _ _ _ Hf) in Hs.
  apply list_elem_of_fmap in Hs as (e & -> & He). rewrite Forall_forall in Hwf. by destruct (Hwf e He) as (_ & [? _] & _).
Qed.

Lemma stage_entries_spec entries k before staged0 k' res :
  pack_state k before staged0 → Forall entry_wf (before ++ entries) →
  NoDup (we_slot_index <$> before ++ entries) →
  stage_entries config sb message staged0 entries k = (k', res) →
  quiet (idle k) (idle k') ∧ kst_inv (idle k') ∧
  ((∃ staged, res = Ok staged ∧ pack_state k' (before ++ entries) staged) ∨
   (res = Err (ServiceError 400) ∧ (∀ s, 0 ≤ s → busy k' s = false) ∧
    ∃ e, e ∈ entries ∧ len (ks_slots k) ≤ we_slot_index e)).
Proof.
  revert k before staged0. induction entries as [|e entries IH]; intros k before staged0 Hp Hwf Hnd; cbn [stage_entries].
  { intros [= <- <-]. rewrite app_nil_r. split_and!; [apply quiet_refl|apply Hp|]. left. eauto. }
  destruct (stage_entry config sb message e k) as [k1 res1] eqn:E1.
  rewrite (M_bind_run _ _ k k1 res1) by (unfold attempt; by rewrite E1).
  apply Forall_app in Hwf as Hwf'. destruct Hwf' as [Hwfb [Hwfe _]%Forall_cons].
  assert (we_slot_index e ∉ we_slot_index <$> before) as Hnew.
  { rewrite fmap_app, fmap_cons in Hnd. apply NoDup_app in Hnd as (_ & Hd & _). intros Hin. apply (Hd _ Hin). by left. }
  destruct (stage_entry_spec _ _ _ _ _ _ Hp Hwfe Hnew E1) as [(-> & -> & Hge)|(stage & -> & Hp1 & Hq1)].
  - destruct (rollback_staged staged0 k) as [k2 res2] eqn:E2.
    apply rollback_staged_spec in E2 as Hrb; [|by eapply staged_slots_pos; [|apply Hp]].
    destruct Hrb as (-> & Eid & Hb). rewrite (M_bind_run _ _ _ _ _ E2). intros [= <- <-]. rewrite Eid.
    split_and!; [apply quiet_refl|apply Hp|]. right. split; [done|]. split; [|exists e; by split; [left|]].
    intros s Hs. rewrite Hb, (pk_busy _ _ _ Hp) by done. by destruct (bool_decide _).
  - intros Hr. destruct (IH k1 (before ++ [e]) (staged0 ++ [stage]) Hp1) as (Hq & Hi' & Hcase);
      [by rewrite <-app_assoc|by rewrite <-app_assoc|done|].
    rewrite <-app_assoc in Hcase. split_and!; [by eapply quiet_trans|done|].
    destruct Hcase as [?|(-> & Hb & e' & He' & Hge)]; [by left|right]. split_and!; [done..|].
    exists e'. split; [by right|]. by rewrite <-(quiet_slots _ _ Hq1).
Qed.

(** ** Publishing *)

(** The location of a record in its slot can be encoded. *)
Lemma packed_location_wf r s lane :
  layout_fits layout → location_record_wf r → at_lane sb r s lane →
  location_wf (packed_location (mkLocationDocument r s)).
Proof.
  intros ((_ & _ & [_ Hk]) & _) (? & ? & ? & ? & ? & ?) ((Hs & _) & _). split_and!; cbn; [|done..|].
  - by destruct (lr_location_kind r).
  - unfold is_u64, fits. lia.
Qed.

Lemma location_of_eq k r s lane :
  kst_inv k → location_record_wf r → at_lane sb r s lane →
  location_of sb r = Some (packed_location (mkLocationDocument r s)).
Proof.
  intros Hi Hwf Hat. unfold location_of, location_document.
  by rewrite (at_lane_slot _ _ _ _ (inv_layout _ _ _ Hi) ltac:(apply Hwf) Hat).
Qed.

(** The form of a reply to an entry: it can be encoded. *)
Definition reply_for (e : PackedWriteEntry) (reply : PackedWriteReplyEntry) : Prop :=
  ∃ status location,
    reply = reply_entry message (we_chunk_id e) (we_slot_index e) (we_generation e) status location ∧
    status ∈ [201; 409; 422; 500] ∧ location_opt_wf location ∧
    location_slot location (we_slot_index e) = we_slot_index e.

Lemma reply_for_plain e status :
  status ∈ [201; 409; 422; 500] →
  reply_for e (reply_entry message (we_chunk_id e) (we_slot_index e) (we_generation e) status None).
Proof. intros. by exists status, None. Qed.

Lemma reply_for_location k e status r lane :
  kst_inv k → location_record_wf r → at_lane sb r (we_slot_index e) lane → status ∈ [201; 409; 422; 500] →
  reply_for e (reply_entry message (we_chunk_id e) (we_slot_index e) (we_generation e) status
    (Some (packed_location (mkLocationDocument r (we_slot_index e))))).
Proof.
  intros Hi Hwf Hat Hst. eexists status, _. split; [done|]. split_and!; [done| |done].
  by eapply packed_location_wf; [apply (inv_layout _ _ _ Hi)| |].
Qed.

(** What a reply says about its entry. *)
Definition entry_seen (k k' : Kst K) (e : PackedWriteEntry) (reply : PackedWriteReplyEntry) : Prop :=
  reply_for e reply ∧
  (wr_status_code reply ≠ 201 → read_alone config sb k' (we_chunk_id e) = read_alone config sb k (we_chunk_id e)) ∧
  (wr_status_code reply = 201 → ∃ r, lr_generation r = we_generation e ∧
     wr_location reply = Some (packed_location (mkLocationDocument r (we_slot_index e))) ∧
     (stale k (we_chunk_id e) (we_generation e) →
      read_alone config sb k' (we_chunk_id e) = read_alone config sb k (we_chunk_id e)) ∧
     (¬ stale k (we_chunk_id e) (we_generation e) →
      read_alone config sb k' (we_chunk_id e)
      = Ok (mkResponse 200 (Some (mkLocationDocument r (we_slot_index e))) (Octets (we_payload e))))).

(** Publishing changes the record of its own chunk only. *)
Definition only_chunk (k k' : Kst K) (c : ChunkId) : Prop :=
  ks_allocator k' = ks_allocator k ∧
  (∀ c', c' ≠ c → ix_live (ks_index k') c' = ix_live (ks_index k) c' ∧
                  read_alone config sb k' c' = read_alone config sb k c').

Definition stays_all (k : Kst K) (entries : list PackedWriteEntry) : Prop :=
  Forall (fun e => stays sb k (we_chunk_id e) (we_slot_index e)) entries.

Lemma refused_seen k e reply status location :
  reply = reply_entry message (we_chunk_id e) (we_slot_index e) (we_generation e) status location →
  reply_for e reply → status ≠ 201 → entry_seen k k e reply ∧ only_chunk k k (we_chunk_id e).
Proof. intros -> Hrep Hst. split; [|done]. split_and!; try done. Qed.

Lemma stage_for_other k k' e stage :
  stage_for k e stage → current k' (we_slot_index e) = current k (we_slot_index e) →
  ks_media k' = ks_media k → length (ks_slots k') = length (ks_slots k) → stage_for k' e stage.
Proof.
  intros Hst Hcur Hm Hl. destruct stage as [rv c s g r|reply]; [|done].
  destruct Hst as (-> & -> & -> & Hrv & Hlt & [Hl2 Hsp] & Hh). split_and!; try done.
  - by rewrite Hcur.
  - by rewrite Hl.
  - split; [done|]. intros o l. rewrite Hcur. apply Hsp.
  - by rewrite Hm.
Qed.

(** Once the head of the pack is settled, the rest of it is as before. *)
Lemma pack_state_next k k' e rv c s g r entries staged :
  pack_state k (e :: entries) (Written rv c s g r :: staged) →
  NoDup (we_slot_index <$> e :: entries) → 0 ≤ s → kst_inv (idle k') → ks_media k' = ks_media k →
  length (ks_slots k') = length (ks_slots k) →
  (∀ s', 0 ≤ s' → s' ≠ s → current k' s' = current k s') → Forall entry_wf entries →
  (∀ s', 0 ≤ s' → busy k' s' = (negb (bool_decide (s' = s)) && busy k s')) →
  pack_state k' entries staged.
Proof.
  intros Hp Hnd Hs Hi' Hm Hl Hcur Hwf Hb. destruct Hp as [Hi Hbusy Hst]. apply Forall2_cons in Hst as [He Hst].
  destruct He as (_ & -> & _). rewrite fmap_cons in Hnd. apply NoDup_cons in Hnd as [Hnin _].
  constructor; [done| |].
  - intros s' Hs'. rewrite Hb, Hbusy by done. unfold staged_slots at 1. cbn [omap list_omap stage_slot].
    case_bool_decide as Hss; cbn [negb andb].
    + subst s'. rewrite bool_decide_eq_false_2; [done|]. intros Hin. by eapply Hnin, staged_slot_entry.
    + apply bool_decide_ext. rewrite elem_of_cons. unfold staged_slots. tauto.
  - apply Forall2_same_length_lookup_2; [by eapply Forall2_length|]. intros j e' st' He' Hst'.
    assert (e' ∈ entries) as Hin by (by eapply list_elem_of_lookup_2).
    apply (stage_for_other (idle k)); [by eapply (Forall2_lookup_lr _ _ _ _ _ _ Hst)| |done|by rewrite !idle_slots].
    rewrite !current_idle. rewrite Forall_forall in Hwf. apply Hcur; [by destruct (Hwf e' Hin) as (_ & [? _] & _)|].
    intros E. apply Hnin. rewrite <-E. by apply list_elem_of_fmap_2.
Qed.

(** An entry that is given up after the index refused it, or without asking it. *)
Lemma rolled_back k k1 e rv c s g r entries staged k2 res status location :
  pack_state k (e :: entries) (Written rv c s g r :: staged) → Forall entry_wf (e :: entries) →
  NoDup (we_slot_index <$> e :: entries) →
  ks_media k1 = ks_media k → ks_slots k1 = ks_slots k → ks_allocator k1 = ks_allocator k →
  ix_ok drive_id (ks_index k1) → index_kept config (ks_index k) (ks_index k1) →
  reply_for e (reply_entry message (we_chunk_id e) (we_slot_index e) (we_generation e) status location) →
  status ≠ 201 → rollback s k1 = (k2, res) →
  res = Ok tt ∧ pack_state k2 entries staged ∧
  entry_seen (idle k) (idle k2) e (reply_entry message c s g status location) ∧
  only_chunk (idle k) (idle k2) (we_chunk_id e).
Proof.
  intros Hp Hwf Hnd Em Es Ea Hx [Hl Ho] Hrep Hstatus Er. pose proof Hp as [Hi _ Hst]. apply Forall2_cons in Hst as [He _].
  destruct He as (-> & -> & -> & _). apply Forall_cons in Hwf as [Hwfe Hwf].
  assert (0 ≤ we_slot_index e) as Hs by (destruct Hwfe as (_ & [? _] & _); done).
  apply rollback_shared in Er as (-> & Eid & Hb); [|done].
  assert (idle k1 = mkKst (ks_index k1) (ks_media k) (ks_slots (idle k)) (ks_allocator k)) as E1.
  { unfold idle. cbn [ks_slots]. by rewrite Em, Es, Ea. }
  rewrite E1 in Eid.
  assert (kst_inv (idle k2)) as Hi2 by (rewrite Eid; apply (inv_same _ _ (idle k)); try done; apply Hi).
  assert (∀ c', read_alone config sb (idle k2) c' = read_alone config sb (idle k) c') as Hread.
  { intros c'. apply read_same; [done|done|by rewrite Eid; apply Hl|]. intros r' s' l' _ _. by rewrite Eid. }
  split_and!; [done| | |].
  - eapply pack_state_next; [exact Hp|done|done|done|..|exact Hwf|].
    + apply (f_equal ks_media) in Eid. exact Eid.
    + by rewrite <-(idle_slots k2), Eid, <-(idle_slots k).
    + intros s' _ _. rewrite <-(current_idle k2), Eid, <-(current_idle k). done.
    + intros s' Hs'. rewrite Hb by done. unfold busy. by rewrite Es.
  - split_and!; done.
  - split; [by rewrite Eid|]. intros c' _. split; [|done]. rewrite Eid. apply Hl.
Qed.

(** An entry that went into the index. *)
Lemma published_entry k k1 k2 e rv r entries staged :
  pack_state k (e :: entries) (Written rv (we_chunk_id e) (we_slot_index e) (we_generation e) r :: staged) →
  Forall entry_wf (e :: entries) → NoDup (we_slot_index <$> e :: entries) →
  stays sb (idle k) (we_chunk_id e) (we_slot_index e) →
  other_owner (we_chunk_id e) (current (idle k) (we_slot_index e)) = None →
  ks_media k1 = ks_media k → ks_slots k1 = ks_slots k → ks_allocator k1 = ks_allocator k →
  ix_ok drive_id (ks_index k1) →
  index_published config (we_slot_index e) (we_chunk_id e) r (ks_index k) (ks_index k1) →
  ks_index k2 = ks_index k1 → ks_media k2 = ks_media k1 → ks_allocator k2 = ks_allocator k1 →
  ks_slots (idle k2) = <[Z.to_nat (we_slot_index e) :=
    commit_state (mkSlotState (current k1 (we_slot_index e)) true) (mkOwner (we_chunk_id e) r)]> (ks_slots (idle k1)) →
  (∀ s', 0 ≤ s' → busy k2 s' = (negb (bool_decide (s' = we_slot_index e)) && busy k1 s')) →
  pack_state k2 entries staged ∧
  entry_seen (idle k) (idle k2) e (reply_entry message (we_chunk_id e) (we_slot_index e) (we_generation e) 201
    (Some (packed_location (mkLocationDocument r (we_slot_index e))))) ∧
  only_chunk (idle k) (idle k2) (we_chunk_id e).
Proof.
  intros Hp Hwf Hnd Hstay Eo Em1 Es1 Ea1 Hx [Hlive Hown] Eix Em Ea Esl Hb.
  pose proof Hp as [Hi Hbusy Hst]. apply Forall2_cons in Hst as [He Hst].
  apply Forall_cons in Hwf as [Hwfe Hwf]. destruct He as (_ & _ & _ & Hrv & Hlt & Hsp & Hh).
  set (s := we_slot_index e) in *. set (c := we_chunk_id e) in *. pose proof Hh as (Hat & Hrwf & Hrd & Hrg & Hread).
  assert (0 ≤ s) as Hs by (destruct Hwfe as (_ & [? _] & _); done).
  pose proof (proj1 (no_other_owner c _) Eo) as Hcur.
  destruct (commit_fenced c (current (idle k) s) r true Hcur) as (cur' & Ec & Hfen & Hfo & Hcur').
  assert (current k1 s = current (idle k) s) as Ecur by (rewrite current_idle; unfold current; by rewrite Es1).
  assert (ks_slots (idle k1) = ks_slots (idle k)) as Esi by (unfold idle; cbn [ks_slots]; by rewrite Es1).
  rewrite Ecur, Ec, Esi in Esl.
  pose proof (stays_live config sb (idle k) c s Hi Hs Hstay Hcur) as Hlc.
  assert (kst_inv (idle k2)) as Hi2.
  { apply (inv_update _ _ (idle k) _ s c cur'); try done.
    - intros o ->. destruct Hcur' as [Hcur'| [= ->]]; [|split; [done|]; eexists; apply Hat].
      split; [by apply Hcur|]. by destruct (ki_owner _ _ _ Hi s o Hs (eq_sym Hcur')).
    - cbn [idle ks_media]. rewrite Em, Em1. apply Hi.
    - cbn [idle ks_index]. by rewrite Eix.
    - intros c'. cbn [idle ks_index]. rewrite Eix, Hlive. unfold update_at. case_decide; [|done]. by rewrite <-Hfen, <-Hlc.
    - intros s'. cbn [idle ks_index]. rewrite Eix, Hown. unfold owner_set.
      case_decide; [|done]. rewrite <-Hfo. f_equal. apply (ki_inverse _ _ _ Hi s Hs).
    - cbn [idle ks_allocator]. rewrite Ea, Ea1. apply Hi. }
  assert (∀ c', ix_live (ks_index (idle k2)) c' = ix_live (ks_index (idle k)) c' →
    read_alone config sb (idle k2) c' = read_alone config sb (idle k) c') as Hsame.
  { intros c' El. apply read_same; [done..|]. intros r' s' l' _ _. cbn [idle ks_media]. by rewrite Em, Em1. }
  assert (lane_holds config sb (ks_media (idle k2)) s (rv_lane rv) c (we_generation e) (we_payload e) r) as Hh2.
  { cbn [idle ks_media]. by rewrite Em, Em1. }
  split_and!.
  - eapply pack_state_next; [exact Hp|done|done|done|by rewrite Em, Em1|..|exact Hwf|].
    + by rewrite <-(idle_slots k2), Esl, length_insert, idle_slots.
    + intros s' Hs' Hne. rewrite <-(current_idle k2), <-(current_idle k). unfold current.
      by rewrite Esl, list_lookup_insert_ne by lia.
    + intros s' Hs'. rewrite Hb by done. unfold busy. by rewrite Es1.
  - split; [by apply (reply_for_location (idle k) e 201 r (rv_lane rv)); [..|left]|]. split; [done|]. intros _.
    exists r. do 2 (split; [done|]).
    apply (fenced_read config sb (idle k) (idle k2) c r s (rv_lane rv)); [done..| |apply Hsame].
    cbn [idle ks_index]. rewrite Eix, Hlive. unfold update_at. by rewrite decide_True.
  - split; [cbn [idle ks_allocator]; by rewrite Ea, Ea1|]. intros c' Hne.
    assert (ix_live (ks_index (idle k2)) c' = ix_live (ks_index (idle k)) c') as El; [|by split; [|apply Hsame]].
    cbn [idle ks_index]. rewrite Eix, Hlive. unfold update_at. by rewrite decide_False.
Qed.

Lemma publish_written_spec k e rv c s g r entries staged k' res :
  pack_state k (e :: entries) (Written rv c s g r :: staged) → Forall entry_wf (e :: entries) →
  NoDup (we_slot_index <$> e :: entries) → stays sb (idle k) (we_chunk_id e) (we_slot_index e) →
  publish_written config sb message rv c s g r k = (k', res) →
  ∃ reply, res = Ok reply ∧ pack_state k' entries staged ∧
    entry_seen (idle k) (idle k') e reply ∧ only_chunk (idle k) (idle k') (we_chunk_id e).
Proof.
  intros Hp Hwf Hnd Hstay. pose proof Hp as [Hi Hbusy Hst]. apply Forall2_cons in Hst as [He Hst].
  pose proof Hwf as [Hwfe _]%Forall_cons. destruct He as (-> & -> & -> & Hrv & Hlt & Hsp & Hh).
  set (s := we_slot_index e) in *. set (c := we_chunk_id e) in *. rewrite idle_slots in Hlt.
  assert (0 ≤ s) as Hs by (destruct Hwfe as (_ & [? _] & _); done). pose proof Hwfe as (_ & _ & Hcwf & _).
  unfold publish_written. rewrite (M_bind_run _ _ k k k) by done.
  rewrite Hrv, (durable_conflict_eq config sb (idle k) k c s Hi Hs eq_refl), orb_diag.
  destruct (other_owner c (current (idle k) s)) as [o|] eqn:Eo.
  { rewrite bool_decide_eq_true_2 by eauto. destruct (rollback s k) as [k2 resr] eqn:Er.
    apply (rolled_back k k e rv c s (we_generation e) r entries staged k2 resr 409 None) in Er as Hrb;
      [|done..|apply Hi|apply index_kept_refl|apply reply_for_plain; right; left|done].
    destruct Hrb as (-> & ? & ? & ?). rewrite (M_bind_run _ _ _ _ _ Er). intros [= <- <-]. by eexists. }
  rewrite bool_decide_eq_false_2 by (by intros [? ?]).
  destruct (ix_upsert c s r (ks_index k)) as [ix' res1] eqn:E1.
  pose proof Hh as (Hat & Hrwf & Hrd & Hrg & Hread).
  pose proof (ix_upsert_spec drive_id _ _ _ _ _ _ (ki_index _ _ _ Hi) Hcwf Hrwf Hrd E1) as [Hx' Hcase].
  set (k1 := mkKst ix' (ks_media k) (ks_slots k) (ks_allocator k)).
  rewrite (M_bind_run _ _ k k1 (map_err (fun _ => ServiceError 500) res1)) by (unfold attempt; by rewrite (on_index_eq _ _ _ _ E1)).
  destruct Hcase as [(-> & Hlive & Hown)|(Hf & Hlive & Hown)]; cycle 1.
  { destruct res1 as [|err]; [done|]. cbn [map_err]. destruct (rollback s k1) as [k2 resr] eqn:Er.
    apply (rolled_back k k1 e rv c s (we_generation e) r entries staged k2 resr 500 (location_of sb r)) in Er as Hrb;
      [|done..|rewrite (location_of_eq (idle k) r s (rv_lane rv)) by done;
                apply (reply_for_location (idle k) e 500 r (rv_lane rv)); [done..|by do 3 right; left]|done].
    destruct Hrb as (-> & ? & ? & ?).
    rewrite (M_bind_run _ _ _ _ _ Er). intros [= <- <-]. by eexists. }
  cbn [map_err]. rewrite (M_bind_run _ _ k1 k1 (Ok tt)) by done.
  destruct (commit s (mkOwner c r) k1) as [k2 resc] eqn:Ec.
  apply commit_shared in Ec as Hcm; [|done]. destruct Hcm as (-> & Eix & Em & Ea & Esl & Hb).
  rewrite (M_bind_run _ _ _ _ _ Ec).
  assert (location_document sb r = Ok (mkLocationDocument r s)) as ->.
  { unfold location_document. by rewrite (at_lane_slot _ _ _ _ (inv_layout _ _ _ Hi) ltac:(apply Hrwf) Hat). }
  intros [= <- <-]. eexists. split; [done|].
  apply (published_entry k k1 k2 e rv r entries staged); try done.
Qed.

Lemma publish_stage_spec barrier k e stage entries staged k' res :
  pack_state k (e :: entries) (stage :: staged) → Forall entry_wf (e :: entries) →
  NoDup (we_slot_index <$> e :: entries) → stays sb (idle k) (we_chunk_id e) (we_slot_index e) →
  publish_stage config sb message barrier stage k = (k', res) →
  ∃ reply, res = Ok reply ∧ pack_state k' entries staged ∧
    entry_seen (idle k) (idle k') e reply ∧ only_chunk (idle k) (idle k') (we_chunk_id e) ∧
    (is_Ok barrier = false → wr_status_code reply ≠ 201).
Proof.
  intros Hp Hwf Hnd Hstay. destruct stage as [rv c s g r|reply]; cbn [publish_stage].
  - destruct barrier as [[]|err]; cbn [is_Ok].
    + intros Hr. destruct (publish_written_spec _ _ _ _ _ _ _ _ _ _ _ Hp Hwf Hnd Hstay Hr) as (reply & ? & ? & ? & ?).
      by exists reply.
    + destruct (rollback s k) as [k2 res2] eqn:Er.
      apply (rolled_back k k e rv c s g r entries staged k2 res2 500 None) in Er as Hrb;
        [|done..|apply Hp|apply index_kept_refl|apply reply_for_plain; do 3 right; left|done].
      destruct Hrb as (-> & ? & ? & ?). rewrite (M_bind_run _ _ _ _ _ Er). intros [= <- <-]. by eexists.
  - intros [= <- <-]. destruct Hp as [Hi Hb Hst]. apply Forall2_cons in Hst as [He Hst].
    destruct (refused_seen (idle k) e reply 422 None He
      ltac:(rewrite He; apply reply_for_plain; do 2 right; left) ltac:(done)) as [Hseen Honly].
    exists reply. split_and!; try done. rewrite He. done.
Qed.

(** What a reply says about an earlier state that shows the chunk alike. *)
Lemma entry_seen_from k1 k k' e reply :
  read_alone config sb k1 (we_chunk_id e) = read_alone config sb k (we_chunk_id e) →
  ix_live (ks_index k1) (we_chunk_id e) = ix_live (ks_index k) (we_chunk_id e) →
  entry_seen k1 k' e reply → entry_seen k k' e reply.
Proof.
  intros Hr Hl (Hrep & Hno & Hyes).
  assert (stale k (we_chunk_id e) (we_generation e) ↔ stale k1 (we_chunk_id e) (we_generation e)) as Hst
    by (unfold stale; by rewrite Hl).
  split_and!; [done..|by rewrite <-Hr|]. intros (r & ? & ? & Hs & Hn)%Hyes. exists r.
  split_and!; [done..|by rewrite <-Hr, Hst|by rewrite Hst].
Qed.

Lemma entry_seen_kept k k1 k' e reply :
  read_alone config sb k' (we_chunk_id e) = read_alone config sb k1 (we_chunk_id e) →
  entry_seen k k1 e reply → entry_seen k k' e reply.
Proof. intros E (? & ? & ?). unfold entry_seen. rewrite E. by split_and!. Qed.

Definition outside (k k' : Kst K) (entries : list PackedWriteEntry) : Prop :=
  ∀ c, c ∉ we_chunk_id <$> entries →
    ix_live (ks_index k') c = ix_live (ks_index k) c ∧ read_alone config sb k' c = read_alone config sb k c.

Lemma publish_all_spec barrier staged k entries k' res :
  pack_state k entries staged → Forall entry_wf entries →
  NoDup (we_slot_index <$> entries) → NoDup (we_chunk_id <$> entries) → stays_all (idle k) entries →
  publish_all config sb message barrier staged k = (k', res) →
  ∃ replies, res = Ok replies ∧ pack_state k' [] [] ∧ ks_allocator k' = ks_allocator k ∧
    Forall2 (entry_seen (idle k) (idle k')) entries replies ∧ outside (idle k) (idle k') entries ∧
    (is_Ok barrier = false → Forall (fun reply => wr_status_code reply ≠ 201) replies).
Proof.
  revert k entries k' res. induction staged as [|stage staged IH]; intros k entries k' res Hp Hwf Hns Hnc Hstay; cbn [publish_all].
  { intros [= <- <-]. pose proof (pk_staged _ _ _ Hp) as ->%Forall2_nil_inv_r. exists [].
    split_and!; try done. }
  pose proof (pk_staged _ _ _ Hp) as (e & entries' & _ & _ & ->)%Forall2_cons_inv_r.
  apply Forall_cons in Hstay as [Hstaye Hstay]. rewrite fmap_cons in Hnc. apply NoDup_cons in Hnc as [Hnin Hnc].
  destruct (publish_stage config sb message barrier stage k) as [k1 res1] eqn:E1.
  destruct (publish_stage_spec _ _ _ _ _ _ _ _ Hp Hwf Hns Hstaye E1) as (reply & -> & Hp1 & Hseen & Honly & Hbar).
  rewrite (M_bind_run _ _ _ _ _ E1). apply Forall_cons in Hwf as [_ Hwf]. rewrite fmap_cons in Hns. apply NoDup_cons in Hns as [_ Hns].
  assert (∀ e', e' ∈ entries' → we_chunk_id e' ≠ we_chunk_id e) as Hother.
  { intros e' He' E. apply Hnin. rewrite <-E. by apply list_elem_of_fmap_2. }
  assert (stays_all (idle k1) entries') as Hstay1.
  { unfold stays_all in *. rewrite Forall_forall in Hstay |- *. intros e' He' r Hr. apply (Hstay e' He').
    by rewrite <-(proj1 (proj2 Honly _ (Hother e' He'))). }
  destruct (publish_all config sb message barrier staged k1) as [k2 res2] eqn:E2.
  destruct (IH k1 entries' k2 res2 Hp1 Hwf Hns Hnc Hstay1 E2) as (replies & -> & Hp2 & Ha2 & Hf & Hout & Hbar2).
  rewrite (M_bind_run _ _ _ _ _ E2). intros [= <- <-]. exists (reply :: replies). split_and!; [done|done| | | |].
  - rewrite Ha2. apply Honly.
  - constructor.
    + eapply entry_seen_kept; [|exact Hseen]. by apply Hout.
    + apply Forall2_same_length_lookup_2; [by eapply Forall2_length|]. intros j e' reply' He' Hr'.
      assert (we_chunk_id e' ≠ we_chunk_id e) as Hne by (apply Hother; by eapply list_elem_of_lookup_2).
      destruct (proj2 Honly _ Hne). eapply (entry_seen_from (idle k1)); [done..|].
      by eapply (Forall2_lookup_lr _ _ _ _ _ _ Hf).
  - intros c [Hc Hc']%not_elem_of_cons. destruct (Hout c Hc') as [El Er], (proj2 Honly c Hc) as [El1 Er1].
    split; congruence.
  - intros Hb. constructor; auto.
Qed.

(** ** Granules of a pack *)

Lemma add_remove_all (A P : gset Z) : A ## P → (A ∪ P) ∖ A = P.
Proof.
  intros Hd. apply set_eq. intros x. rewrite elem_of_difference, elem_of_union.
  split; [tauto|]. intros Hx. split; [by right|]. intros Ha. by apply (Hd x).
Qed.

Lemma release_all_spec slots (k k' : Kst K) res :
  release_all slots k = (k', res) →
  res = Ok tt ∧ k' = set_allocator (ks_allocator k') k ∧
  ga_key_slots (ks_allocator k') = ga_key_slots (ks_allocator k) ∧
  ga_cursor (ks_allocator k') = ga_cursor (ks_allocator k) ∧
  ga_pending (ks_allocator k') = ga_pending (ks_allocator k) ∖ list_to_set slots.
Proof.
  revert k. induction slots as [|slot slots IH]; intros k; cbn [release_all].
  - intros [= <- <-]. destruct k as [ix m sl a]. cbn. split_and!; try done. apply set_eq. intros x.
    rewrite elem_of_difference. pose proof (not_elem_of_empty (C := gset Z) x). tauto.
  - rewrite (M_bind_run _ _ k (set_allocator (release slot (ks_allocator k)) k) tt) by done.
    intros (-> & Ek & E1 & E2 & E3)%IH. split_and!; try done. rewrite E3. cbn [set_allocator ks_allocator release ga_pending].
    cbn [list_to_set]. by rewrite difference_difference_l_L.
Qed.

Lemma set_allocator_inv a k : kst_inv k → allocator_ok sb a → kst_inv (set_allocator a k).
Proof. intros Hi Ha. apply (inv_same _ _ k); try done; apply Hi. Qed.

(** What an entry becomes: its granule is chosen, the rest is kept. *)
Definition resolved (e e' : PackedWriteEntry) : Prop :=
  we_chunk_id e' = we_chunk_id e ∧ we_generation e' = we_generation e ∧ we_identity e' = we_identity e ∧
  we_payload e' = we_payload e ∧
  (if decide (we_slot_index e = GRANULE_ALLOCATE) then 0 ≤ we_slot_index e' < key_slots layout
   else we_slot_index e' = we_slot_index e).

Lemma resolve_granules_spec entries allocated (P : gset Z) k k' res :
  kst_inv k → ga_pending (ks_allocator k) = list_to_set allocated ∪ P → list_to_set allocated ## P →
  resolve_granules config allocated entries k = (k', res) →
  k' = set_allocator (ks_allocator k') k ∧ kst_inv k' ∧
  ((∃ entries' allocated', res = Ok (entries', allocated') ∧ Forall2 resolved entries entries' ∧
      ga_pending (ks_allocator k') = list_to_set allocated' ∪ P ∧ list_to_set allocated' ## P) ∨
   (res = Err (ServiceError 507) ∧ ga_pending (ks_allocator k') = P ∧ GRANULE_ALLOCATE ∈ we_slot_index <$> entries)).
Proof.
  revert allocated k k' res. induction entries as [|e entries IH]; intros allocated k k' res Hi Hpend Hdisj; cbn [resolve_granules].
  { intros [= <- <-]. split_and!; [by destruct k|done|]. left. exists [], allocated. split_and!; done || constructor. }
  destruct (Z.eqb_spec (we_slot_index e) GRANULE_ALLOCATE) as [Eslot|Hne].
  - destruct (allocate_granule config k) as [k1 res1] eqn:E1.
    destruct (allocate_granule_spec _ _ _ _ _ Hi E1) as (Ek1 & Hi1 & o & -> & Ho). rewrite (M_bind_run _ _ _ _ _ E1).
    destruct o as [s|].
    + destruct Ho as (Hs & _ & Hnp & Hp1).
      destruct (resolve_granules config (allocated ++ [s]) entries k1) as [k2 res2] eqn:E2.
      apply IH in E2 as Hres; [|done| |].
      * destruct Hres as (Ek2 & Hi2 & [(es' & al' & -> & Hf & Hp2 & Hd2)|(-> & Hp2 & Hin)]).
        { rewrite (M_bind_run _ _ _ _ _ E2). intros [= <- <-]. split_and!; [by rewrite Ek2, Ek1|done|]. left.
          eexists _, al'. split_and!; [done| |done|done]. constructor; [|done]. split_and!; try done.
          by rewrite decide_True. }
        { rewrite (M_bind_Err _ _ _ _ _ E2). intros [= <- <-]. split_and!; [by rewrite Ek2, Ek1|done|]. right. split_and!; [done..|by right]. }
      * rewrite Hp1, Hpend, list_to_set_app_L. cbn [list_to_set]. rewrite union_empty_r_L, assoc_L by apply _.
        f_equal. apply union_comm_L.
      * rewrite Hpend in Hnp. apply not_elem_of_union in Hnp as [_ Hnp]. rewrite list_to_set_app_L. cbn [list_to_set].
        rewrite union_empty_r_L. apply disjoint_union_l. split; [done|]. by apply disjoint_singleton_l.
    + destruct (release_all allocated k1) as [k2 res2] eqn:E2.
      apply release_all_spec in E2 as Hrel. destruct Hrel as (-> & Ek2 & Ek & Ec & Ep).
      rewrite (M_bind_run _ _ _ _ _ E2). intros [= <- <-]. split_and!; [by rewrite Ek2, Ek1| |].
      * rewrite Ek2. apply set_allocator_inv; [done|]. split; [rewrite Ek|rewrite Ec]; apply Hi1.
      * right. split_and!; [done| |rewrite fmap_cons, Eslot; by left]. rewrite Ep, Ho, Hpend. by apply add_remove_all.
  - destruct (resolve_granules config allocated entries k) as [k2 res2] eqn:E2.
    apply IH in E2 as Hres; [|done..]. destruct Hres as (Ek2 & Hi2 & [(es' & al' & -> & Hf & Hp2 & Hd2)|(-> & Hp2 & Hin)]).
    + rewrite (M_bind_run _ _ _ _ _ E2). intros [= <- <-]. split_and!; [done|done|]. left.
      eexists _, al'. split_and!; [done| |done|done]. constructor; [|done]. split_and!; try done. by rewrite decide_False.
    + rewrite (M_bind_Err _ _ _ _ _ E2). intros [= <- <-]. split_and!; [done|done|]. right. split_and!; [done..|by right].
Qed.

(** ** The whole pack *)

Lemma resolved_wf k e e' :
  kst_inv k → resolved e e' → entry_wf e → stays sb k (we_chunk_id e) (we_slot_index e) →
  entry_wf e' ∧ stays sb k (we_chunk_id e') (we_slot_index e').
Proof.
  intros Hi (Ec & Eg & Eid & _ & Hslot) (Hd & Hs & Hc & Hg & Hid) Hstay. unfold entry_wf. rewrite Ec, Eg, Eid.
  destruct (decide (we_slot_index e = GRANULE_ALLOCATE)) as [E|Hne]; [|by rewrite Hslot].
  pose proof (key_slots_nonneg _ _ _ Hi). split; [split_and!; try done; unfold fits; lia|].
  intros r Hr. destruct (live_owner _ _ _ _ _ _ Hi Hr (Hstay r Hr)) as [_ Ho].
  by rewrite E, (allocate_unowned config sb k Hi) in Ho.
Qed.

Lemma resolved_all_wf k entries entries' :
  kst_inv k → Forall2 resolved entries entries' → Forall entry_wf entries → stays_all k entries →
  Forall entry_wf entries' ∧ stays_all k entries' ∧ we_chunk_id <$> entries' = we_chunk_id <$> entries.
Proof.
  intros Hi Hf. induction Hf as [|e e' entries entries' He _ IH]; intros Hwf Hstay; [by split_and!|].
  apply Forall_cons in Hwf as [Hwfe Hwf]. apply Forall_cons in Hstay as [Hse Hstay].
  destruct (resolved_wf k e e' Hi He Hwfe Hse) as [? ?]. destruct (IH Hwf Hstay) as (? & ? & E).
  split_and!; [by constructor..|]. rewrite !fmap_cons, E. f_equal. apply He.
Qed.

Lemma barrier_pack_state k k' sync res entries staged :
  pack_state k entries staged → media_fdatasync sync k = (k', res) →
  res = sync ∧ pack_state k' entries staged ∧ quiet (idle k) (idle k').
Proof.
  intros [Hi Hb Hst] Hr. destruct (fdatasync_spec config sb k k' sync res (ki_media _ _ _ Hi) Hr) as (Ek & -> & Hm).
  assert (media_inv (ks_media k') config sb) as Hmi by (destruct Hm as [-> | ->]; [apply media_inv_sync|]; apply Hi).
  assert (st_bytes (ks_media k') = st_bytes (ks_media k)) as Eb by (by destruct Hm as [-> | ->]).
  assert (kst_inv (idle k')) as Hi' by (rewrite Ek; apply (inv_same _ _ (idle k)); try done; apply Hi).
  assert (lane_frame config sb (-1) 0 (ks_media (idle k)) (ks_media (idle k'))) as Hf.
  { split; [done|]. intros s' l' _ _ o n _ _ _. cbn [idle ks_media]. by rewrite Eb. }
  split_and!; [done| |rewrite Ek; split_and!; try done].
  - constructor; [done|intros s Hs; rewrite Ek; apply (Hb s Hs)|].
    apply Forall2_same_length_lookup_2; [by eapply Forall2_length|]. intros j e st He Hs.
    pose proof (Forall2_lookup_lr _ _ _ _ _ _ Hst He Hs) as Hfor.
    destruct st as [rv c s g r|reply]; [|done].
    destruct Hfor as (? & ? & ? & Hrv & Hlt & Hsp & Hat & Hwf & Hd & Hg & Hrd). split_and!; try done.
    + rewrite Hrv, Ek. done.
    + by rewrite Ek.
    + rewrite Ek. exact Hsp.
    + split_and!; try done. rewrite <-Hrd. eapply read_payload_same; [apply Hi|apply Hi'|exact Hat|].
      intros o n _ _ _. cbn [idle ks_media]. by rewrite Eb.
  - intros c. rewrite <-Ek. apply read_same; [done|done|by rewrite Ek|].
    intros r s l _ _ o n _ _ _. cbn [idle ks_media]. by rewrite Eb.
Qed.

(** Without a written entry the barrier does not matter. *)
Lemma publish_all_unwritten barrier barrier' staged k :
  any_written staged = false →
  publish_all config sb message barrier staged k = publish_all config sb message barrier' staged k.
Proof.
  revert k. induction staged as [|stage staged IH]; intros k Hw; [done|]. destruct stage as [rv c s g r|reply]; [done|].
  cbn [publish_all publish_stage]. rewrite !(M_bind_run _ _ k k reply) by done.
  unfold mbind, M_mbind. by rewrite IH.
Qed.

Lemma pack_state_start k : kst_inv k → pack_state k [] [].
Proof.
  intros Hi. constructor; [by rewrite inv_idle|intros s _; by rewrite inv_not_busy|constructor].
Qed.

Lemma pack_state_end k : pack_state k [] [] → idle k = k ∧ kst_inv k.
Proof.
  intros [Hi Hb _]. assert (idle k = k) as E; [|split; [done|rewrite <-E; exact Hi]].
  apply idle_id. intros s Hs. rewrite Hb by done. by apply bool_decide_eq_false_2, not_elem_of_nil.
Qed.

(** Staging, barrier and publication of entries whose granules are chosen. *)
(** A slot named twice, or one that is not on the medium. *)
Definition misaddressed (k : Kst K) (entries : list PackedWriteEntry) : Prop :=
  ¬ NoDup (we_slot_index <$> entries) ∨ ∃ e, e ∈ entries ∧ len (ks_slots k) ≤ we_slot_index e.

(** Why a whole pack is refused: its slots are misaddressed, or an entry that asks the
    target for a granule gets none. *)
Definition pack_refused (k : Kst K) (entries : list PackedWriteEntry) (status : Z) : Prop :=
  (status = 400 ∧ ∃ entries', Forall2 resolved entries entries' ∧ misaddressed k entries') ∨
  (status = 507 ∧ GRANULE_ALLOCATE ∈ we_slot_index <$> entries).

Definition pack_body (entries : list PackedWriteEntry) (sync : io_result unit) :
    M (Kst K) ServiceStop (list PackedWriteReplyEntry) :=
  staged ← stage_packed_writes config sb message entries;
  barrier ← attempt (if any_written staged then media_fdatasync sync else mret tt);
  publish_all config sb message barrier staged.

Lemma pack_body_spec k entries sync k' res :
  kst_inv k → Forall entry_wf entries → NoDup (we_chunk_id <$> entries) → stays_all k entries →
  pack_body entries sync k = (k', res) →
  kst_inv k' ∧ ks_allocator k' = ks_allocator k ∧
  ((∃ replies, res = Ok replies ∧ Forall2 (entry_seen k k') entries replies ∧ outside k k' entries ∧
      (is_Ok sync = false → Forall (fun reply => wr_status_code reply ≠ 201) replies)) ∨
   (res = Err (ServiceError 400) ∧ misaddressed k entries ∧ ∀ c, read_alone config sb k' c = read_alone config sb k c)).
Proof.
  intros Hi Hwf Hnc Hstay. unfold pack_body, stage_packed_writes.
  destruct (decide (NoDup (we_slot_index <$> entries))) as [Hns|Hdup].
  2:{ rewrite bool_decide_eq_false_2 by done. intros [= <- <-]. split_and!; [done..|]. right. split_and!; [done|by left|done]. }
  rewrite bool_decide_eq_true_2 by done. cbn [negb].
  destruct (stage_entries config sb message [] entries k) as [k1 res1] eqn:E1.
  destruct (stage_entries_spec entries k [] [] k1 res1 (pack_state_start k Hi) Hwf Hns E1)
    as (Hq1 & Hi1 & [(staged & -> & Hp1)|(-> & Hb1 & Hge)]); rewrite (inv_idle k Hi) in Hq1; destruct Hq1 as (Eix1 & Ea1 & Esl1 & Hr1).
  2:{ rewrite (M_bind_Err _ _ _ _ _ E1). intros [= <- <-]. rewrite (idle_id k1 Hb1) in *. split_and!; [done..|]. right. split_and!; [done|by right|done]. }
  rewrite (M_bind_run _ _ _ _ _ E1). cbn [app] in Hp1.
  assert (∃ k2 barrier, attempt (F := ServiceStop) (if any_written staged then media_fdatasync sync else mret tt) k1 = (k2, Ok barrier) ∧
    pack_state k2 entries staged ∧ quiet (idle k1) (idle k2) ∧ (barrier = sync ∨ any_written staged = false))
    as (k2 & barrier & E2 & Hp2 & Hq2 & Hbar).
  { destruct (any_written staged).
    - destruct (media_fdatasync sync k1) as [k2 res2] eqn:E2.
      destruct (barrier_pack_state _ _ _ _ _ _ Hp1 E2) as (-> & ? & ?). exists k2, sync. unfold attempt. rewrite E2. auto.
    - exists k1, (Ok tt). split_and!; [done|done|apply quiet_refl|by right]. }
  rewrite (M_bind_run _ _ _ _ _ E2). destruct Hq2 as (Eix2 & Ea2 & Esl2 & Hr2). intros E3.
  assert (∀ c, read_alone config sb (idle k2) c = read_alone config sb k c) as Hreads by (intros c; by rewrite Hr2, Hr1).
  assert (∀ c, ix_live (ks_index (idle k2)) c = ix_live (ks_index k) c) as Hlives by (intros c; by rewrite Eix2, Eix1).
  assert (stays_all (idle k2) entries) as Hstay2.
  { unfold stays_all in *. rewrite Forall_forall in Hstay |- *. intros e He r. rewrite Hlives. by apply Hstay. }
  destruct (publish_all_spec barrier staged k2 entries k' res Hp2 Hwf Hns Hnc Hstay2 E3)
    as (replies & -> & Hp3 & Ea3 & Hseen & Hout & Hbar3).
  destruct (pack_state_end k' Hp3) as [Eid Hi']. rewrite Eid in *. split_and!; [done| |left; exists replies; split_and!; [done|..]].
  - rewrite Ea3. change (ks_allocator k2) with (ks_allocator (idle k2)). by rewrite Ea2, <-Ea1.
  - apply Forall2_same_length_lookup_2; [by eapply Forall2_length|]. intros j e reply He Hrep.
    apply (entry_seen_from (idle k2)); [done..|]. by eapply (Forall2_lookup_lr _ _ _ _ _ _ Hseen).
  - intros c Hc. destruct (Hout c Hc) as [-> ->]. by rewrite Hlives, Hreads.
  - intros Hf. destruct Hbar as [-> |Hnone]; [by apply Hbar3|].
    rewrite (publish_all_unwritten _ sync) in E3 by done.
    by destruct (publish_all_spec sync staged k2 entries k' (Ok replies) Hp2 Hwf Hns Hnc Hstay2 E3)
      as (replies' & [= <-] & _ & _ & _ & _ & ?); auto.
Qed.

(** Publishing answers every entry, whatever the index does. *)
Lemma publish_stage_total barrier stage k :
  ∃ k' reply, publish_stage config sb message barrier stage k = (k', Ok reply).
Proof.
  destruct stage as [rv c s g r|reply]; cbn [publish_stage]; [|by eexists _, _].
  destruct barrier as [[]|err]; [|by eexists _, _]. unfold publish_written.
  rewrite (M_bind_run _ _ k k k) by done. destruct (_ || _); [by eexists _, _|].
  destruct (on_index (ix_upsert c s r) k) as [k1 r1] eqn:E1.
  rewrite (M_bind_run _ _ k k1 r1) by (unfold attempt; by rewrite E1). destruct r1 as [[]|err]; [|by eexists _, _].
  destruct (other_owner c (rv_current rv)) as [o|]; [|by eexists _, _].
  destruct (on_index (ix_delete o) k1) as [k2 r2] eqn:E2.
  rewrite (M_bind_run _ _ k1 k2 r2) by (unfold attempt; by rewrite E2). destruct r2 as [[]|err]; by eexists _, _.
Qed.

Lemma publish_all_total barrier staged k :
  ∃ k' replies, publish_all config sb message barrier staged k = (k', Ok replies).
Proof.
  revert k. induction staged as [|stage staged IH]; intros k; cbn [publish_all]; [by eexists _, _|].
  destruct (publish_stage_total barrier stage k) as (k1 & reply & E1). rewrite (M_bind_run _ _ _ _ _ E1).
  destruct (IH k1) as (k2 & replies & E2). rewrite (M_bind_run _ _ _ _ _ E2). by eexists _, _.
Qed.

(** The pack gives its granules back whatever became of it. *)
Lemma write_pack_body entries es' al sync k k1 k2 k3 status res2 :
  resolve_granules config [] entries k = (k1, Ok (es', al)) → pack_body es' sync k1 = (k2, res2) →
  (res2 = Err (ServiceError status) ∨ is_Ok res2 = true) → release_all al k2 = (k3, Ok tt) →
  write_pack config sb message entries sync k = (k3, res2).
Proof.
  intros E1 E2 Hres E3. unfold write_pack. rewrite (M_bind_run _ _ _ _ _ E1). unfold pack_body in E2.
  destruct (stage_packed_writes config sb message es' k1) as [k4 [staged|err]] eqn:E4.
  - rewrite (M_bind_run _ _ _ _ _ E4) in E2. rewrite (M_bind_run _ _ k1 k4 (Ok staged)) by (unfold attempt; by rewrite E4).
    unfold attempt at 1 in E2. unfold attempt at 1, mbind at 1, M_mbind at 1.
    unfold mbind at 1, M_mbind at 1 in E2.
    destruct ((if any_written staged then media_fdatasync sync else mret tt) k4) as [k5 barrier].
    destruct (publish_all_total barrier staged k5) as (k6 & replies & E6). rewrite E6 in E2. injection E2 as -> <-.
    rewrite (M_bind_run _ _ _ _ _ E6). by rewrite (M_bind_run _ _ _ _ _ E3).
  - rewrite (M_bind_Err _ _ _ _ _ E4) in E2. injection E2 as -> <-.
    rewrite (M_bind_run _ _ k1 k2 (Err err)) by (unfold attempt; by rewrite E4).
    destruct Hres as [[= ->]|?]; [|done]. by rewrite (M_bind_run _ _ _ _ _ E3).
Qed.

Lemma pack_request_spec k entries sync k' res :
  kst_inv k → Forall entry_wf entries → NoDup (we_chunk_id <$> entries) → stays_all k entries →
  write_pack config sb message entries sync k = (k', res) →
  kst_inv k' ∧ ga_pending (ks_allocator k') = ga_pending (ks_allocator k) ∧
  match res with
  | Ok replies => ∃ entries', Forall2 resolved entries entries' ∧ Forall2 (entry_seen k k') entries' replies ∧
      (∀ c, c ∉ we_chunk_id <$> entries → read_alone config sb k' c = read_alone config sb k c) ∧
      (is_Ok sync = false → Forall (fun reply => wr_status_code reply ≠ 201) replies)
  | Err (ServiceError status) =>
      pack_refused k entries status ∧ ∀ c, read_alone config sb k' c = read_alone config sb k c
  | Err WouldBlock => False
  end.
Proof.
  intros Hi Hwf Hnc Hstay Hr.
  destruct (resolve_granules config [] entries k) as [k1 res1] eqn:E1.
  destruct (resolve_granules_spec entries [] (ga_pending (ks_allocator k)) k k1 res1 Hi) as (Ek1 & Hi1 & Hcase);
    [by cbn; rewrite union_empty_l_L|apply disjoint_empty_l|done|].
  destruct Hcase as [(es' & al & -> & Hf & Hp1 & Hd1)|(-> & Hp1 & Hal)].
  2:{ unfold write_pack in Hr. rewrite (M_bind_Err _ _ _ _ _ E1) in Hr. injection Hr as <- <-.
      split_and!; [done..|by right|]. intros c. by rewrite Ek1. }
  destruct (resolved_all_wf k entries es' Hi Hf Hwf Hstay) as (Hwf' & Hstay' & Ech).
  assert (stays_all k1 es') as Hstay1 by (rewrite Ek1; exact Hstay').
  destruct (pack_body es' sync k1) as [k2 res2] eqn:E2.
  destruct (pack_body_spec k1 es' sync k2 res2 Hi1 Hwf' ltac:(by rewrite Ech) Hstay1 E2) as (Hi2 & Ea2 & Hcase).
  destruct (release_all al k2) as [k3 res3] eqn:E3.
  destruct (release_all_spec al k2 k3 res3 E3) as (-> & Ek3 & Ek & Ec & Ep).
  assert ((res2 = Err (ServiceError 400) ∨ is_Ok res2 = true)) as Hres2 by (destruct Hcase as [(? & -> & _)|[-> _]]; auto).
  rewrite (write_pack_body entries es' al sync k k1 k2 k3 400 res2 E1 E2 Hres2 E3) in Hr. injection Hr as <- <-.
  split_and!.
  - rewrite Ek3. apply set_allocator_inv; [done|]. split; [rewrite Ek|rewrite Ec]; apply Hi2.
  - rewrite Ep, Ea2, Hp1. by apply add_remove_all.
  - rewrite Ek1 in Hcase. destruct Hcase as [(replies & -> & Hseen & Hout & Hbar)|(-> & Hmis & Hread)].
    + exists es'. split_and!; [done| | |done]; [rewrite Ek3; exact Hseen|].
      intros c Hc. rewrite Ek3. rewrite <-Ech in Hc. by destruct (Hout c Hc).
    + split; [left; split; [done|]; by exists es'|]. intros c. rewrite Ek3. apply Hread.
Qed.

(** C21: A packed write, of entries with distinct chunk ids, of which each that is already
    live names the slot it is in ([stays_all]; the target does not move a live chunk to
    another slot). It never blocks, keeps the invariant, leaves no granule pending, and
    chunks outside the pack read as before. Either the whole request is refused, with 400
    for a slot named twice or not on the medium, or 507 when an entry asks the target for a
    granule and gets none, and no read changes; or every entry gets one reply, in order. A 201
    entry is what reads of its chunk now return, except that a write with a generation
    older than the live one is also acknowledged with 201 while reads keep returning the
    newer chunk. The chunk of any other entry reads as before. When the shared barrier
    fails, no entry is acknowledged. *)
Theorem write_pack_then_read k entries sync k' res :
  kst_inv k → Forall entry_wf entries → NoDup (we_chunk_id <$> entries) → stays_all k entries →
  write_pack config sb message entries sync k = (k', res) →
  kst_inv k' ∧ ga_pending (ks_allocator k') = ga_pending (ks_allocator k) ∧
  match res with
  | Ok replies => ∃ entries', Forall2 resolved entries entries' ∧ Forall2 (entry_seen k k') entries' replies ∧
      (∀ c, c ∉ we_chunk_id <$> entries → read_alone config sb k' c = read_alone config sb k c) ∧
      (is_Ok sync = false → Forall (fun reply => wr_status_code reply ≠ 201) replies)
  | Err (ServiceError status) =>
      pack_refused k entries status ∧ ∀ c, read_alone config sb k' c = read_alone config sb k c
  | Err WouldBlock => False
  end.
Proof. apply pack_request_spec. Qed.

End packs.
