(* ===== verification/KstBoot.v ===== *)
(** Starting a storage target and its life as a whole: the slot owners are rebuilt from the
    recovered index, any history of requests keeps the invariant, a restart changes no
    read, and the listing of occupied granules pages through all of them. *)
From stdpp Require Import sorting.
From S2P Require Import Prelude Bytes Device KixTypes Arena ArenaInv ArenaOps Kp2 ChunkMedia ChunkMediaGeo ChunkMediaIO ChunkMediaState Engine EngineProps Kst KstPack KstIndex KstInv KstOps KstPackProps.

Section boot.
Context `{Crc32} {K : Type} `{ChunkIndexSpec K}.
Context (config : ChunkMediaWriteConfig) (sb : ChunkMediaSuperblock).

Abbreviation drive_id := (mc_drive_id config).
Abbreviation layout := (sb_layout sb).
Abbreviation kst_inv := (kst_inv config sb).

(** ** Rebuilding the slot owners *)

Abbreviation slot_of := (chunk_media_slot_index_for_record layout).

(** Every record has a slot, and no two chunks have the same. *)
Definition placeable (lv : ChunkId → option LocationRecord) : Prop :=
  (∀ c r, lv c = Some r → ∃ s, slot_of r = Ok s) ∧
  (∀ c c' r r' s, lv c = Some r → lv c' = Some r' → slot_of r = Ok s → slot_of r' = Ok s → c = c').

Lemma slot_of_lane r s :
  layout_fits layout → location_record_wf r → slot_of r = Ok s → ∃ lane, at_lane sb r s lane.
Proof.
  intros Hf (_ & Hu & [Hl _] & _). unfold chunk_media_slot_index_for_record.
  intros ([s' lane] & Ha & [= <-])%result_bind_Ok. exists lane. by apply address_at_lane.
Qed.

(** The owners after the entries [seen]. *)
Record rebuilt (ix0 : K) (seen : list (ChunkId * LocationRecord)) (acc : K * list SlotPublicationState) : Prop := {
  rb_ok : ix_ok drive_id acc.1;
  rb_live : ∀ c, ix_live acc.1 c = ix_live ix0 c;
  rb_len : len acc.2 = Z.max (key_slots layout) 1;
  rb_idle : ∀ i st, acc.2 !! i = Some st → sp_busy st = false;
  rb_owner : ∀ s o, 0 ≤ s → acc.2 !! Z.to_nat s ≫= sp_current = Some o ↔
    (po_chunk_id o, po_record o) ∈ seen ∧ slot_of (po_record o) = Ok s;
  rb_seen : ∀ c r, (c, r) ∈ seen → ∃ s, 0 ≤ s ∧ slot_of r = Ok s;
  rb_inverse : ∀ s, 0 ≤ s → ix_owner acc.1 drive_id s = owner_view <$> (acc.2 !! Z.to_nat s ≫= sp_current);
}.

Lemma rebuilt_install ix0 seen ix pubs c r s st :
  rebuilt ix0 seen (ix, pubs) → 0 ≤ s → slot_of r = Ok s → pubs !! Z.to_nat s = Some st →
  sp_current st = None ∨ sp_current st = Some (mkOwner c r) →
  rebuilt ix0 (seen ++ [(c, r)])
    (ix_seed drive_id s c (lr_generation r) ix,
     <[Z.to_nat s := mkSlotState (Some (mkOwner c r)) (sp_busy st)]> pubs).
Proof.
  intros [Hok Hlive Hlen Hidle Hown Hsn Hinv] Hs Es Hst Hcur. cbn [fst snd] in *.
  destruct (ix_seed_spec drive_id ix s c (lr_generation r) Hok) as (Hok' & Hl' & Ho').
  pose proof (lookup_lt_Some _ _ _ Hst) as Hlt.
  assert (∀ s', 0 ≤ s' → <[Z.to_nat s := mkSlotState (Some (mkOwner c r)) (sp_busy st)]> pubs !! Z.to_nat s' ≫= sp_current
    = if decide (s' = s) then Some (mkOwner c r) else pubs !! Z.to_nat s' ≫= sp_current) as Hlk.
  { intros s' Hs'. case_decide as E; [subst s'; by rewrite list_lookup_insert_eq|by rewrite list_lookup_insert_ne by lia]. }
  assert (pubs !! Z.to_nat s ≫= sp_current = sp_current st) as Hcs by (by rewrite Hst).
  constructor; cbn [fst snd]; [done| |by rewrite length_insert| | | |].
  - intros c'. by rewrite Hl'.
  - intros i st' [(_ & E & _)|[_ ?]]%list_lookup_insert_Some; [rewrite <-E; cbn; by eapply Hidle|by eapply Hidle].
  - intros s' o Hs'. rewrite Hlk by done. rewrite elem_of_app, list_elem_of_singleton. case_decide as E.
    + subst s'. split.
      * intros [= <-]. split; [by right|done].
      * intros [[Hin|Heq] Hso]; [|by destruct o; cbn in Heq; simplify_eq].
        assert (sp_current st = Some o) as Eo by (rewrite <-Hcs; by apply Hown).
        rewrite Eo in Hcur. destruct Hcur as [|Hcur]; [done|by rewrite Hcur].
    + rewrite Hown by done. split; [intros [? ?]; auto|]. intros [[?|[= ? Er]] Hso]; [done|].
      rewrite Er, Es in Hso. by injection Hso as ->.
  - intros c' r' [Hin|[= -> ->]%list_elem_of_singleton]%elem_of_app; [by eapply Hsn|by exists s].
  - intros s' Hs'. rewrite Ho', Hlk by done. unfold owner_set. case_decide; [|by apply Hinv].
    rewrite Hinv, Hcs by done. destruct Hcur as [-> | ->]; [done|]. cbn. by rewrite Z.leb_refl.
Qed.

Lemma publish_recovered_spec ix0 seen acc c r :
  layout_fits layout → rebuilt ix0 seen acc →
  (∀ c r, (c, r) ∈ seen → ix_live ix0 c = Some r) → ix_live ix0 c = Some r →
  match publish_recovered sb acc (c, r) with
  | Ok acc' => rebuilt ix0 (seen ++ [(c, r)]) acc'
  | Err e => e = InvalidData ∧ ¬ placeable (ix_live ix0)
  end.
Proof.
  intros Hfit Hrb Hseen Hl. destruct acc as [ix pubs]. unfold publish_recovered.
  pose proof Hrb as [Hok Hlive Hlen Hidle Hown _ Hinv]. cbn [fst snd] in *.
  destruct (ix_live_wf drive_id ix c r Hok ltac:(by rewrite Hlive)) as (_ & Hwf & Hd).
  destruct (slot_of r) as [s|e] eqn:Es; cbn [map_err].
  2:{ cbn [mbind result_mbind result_bind]. split; [done|]. intros [Hall _].
      destruct (Hall c r Hl) as [s Hs]. by rewrite Es in Hs. }
  rewrite result_bind_eq, Hd. destruct (slot_of_lane r s Hfit Hwf Es) as (lane & (Hs & _) & _).
  destruct (lookup_lt_is_Some_2 pubs (Z.to_nat s)) as [st Hst]; [lia|]. rewrite Hst. cbn [ok_or]. rewrite result_bind_eq.
  destruct (sp_current st) as [ex|] eqn:Ecur; [|apply rebuilt_install; auto with lia].
  assert ((po_chunk_id ex, po_record ex) ∈ seen ∧ slot_of (po_record ex) = Ok s) as [Hex Hexs].
  { apply Hown; [lia|]. by rewrite Hst. }
  case_bool_decide as Hc; cbn [negb].
  - assert (ex = mkOwner c r) as ->.
    { apply Hseen in Hex. rewrite Hc, Hl in Hex. destruct ex; cbn in *. by simplify_eq. }
    cbn [po_record]. rewrite Z.leb_refl. apply rebuilt_install; auto with lia.
  - split; [done|]. intros [_ Hinj]. apply Hc. eapply Hinj; [by apply Hseen|exact Hl|done|done].
Qed.

Lemma build_fold ix0 entries seen acc :
  layout_fits layout → rebuilt ix0 seen acc → (∀ c r, (c, r) ∈ seen ++ entries → ix_live ix0 c = Some r) →
  match try_fold (publish_recovered sb) acc entries with
  | Ok acc' => rebuilt ix0 (seen ++ entries) acc'
  | Err e => e = InvalidData ∧ ¬ placeable (ix_live ix0)
  end.
Proof.
  intros Hfit. revert seen acc. induction entries as [|[c r] entries IH]; intros seen acc Hrb Hall; cbn [try_fold].
  { by rewrite app_nil_r. }
  assert (ix_live ix0 c = Some r) as Hl by (apply Hall; apply elem_of_app; right; left).
  assert (∀ c' r', (c', r') ∈ seen → ix_live ix0 c' = Some r') as Hseen by (intros; apply Hall; apply elem_of_app; by left).
  pose proof (publish_recovered_spec ix0 seen acc c r Hfit Hrb Hseen Hl) as Hstep.
  destruct (publish_recovered sb acc (c, r)) as [acc'|e]; cbn [mbind result_mbind result_bind]; [|done].
  replace (seen ++ (c, r) :: entries) with ((seen ++ [(c, r)]) ++ entries) in * by (by rewrite <-app_assoc).
  by apply IH.
Qed.

Lemma rebuilt_start ix :
  ix_ok drive_id ix → (∀ s, ix_owner ix drive_id s = None) →
  rebuilt ix [] (ix, replicate (Z.to_nat (Z.max (key_slots layout) 1)) slot_state_default).
Proof.
  intros Hok Hnone.
  assert (∀ s, (replicate (Z.to_nat (Z.max (key_slots layout) 1)) slot_state_default) !! Z.to_nat s ≫= sp_current = None) as Hc.
  { intros s. destruct (_ !! _) as [st|] eqn:E; [|done]. by apply lookup_replicate in E as [-> _]. }
  constructor; cbn [fst snd]; [done|done|rewrite length_replicate; lia| | | |].
  - intros i st [-> _]%lookup_replicate. done.
  - intros s o _. rewrite Hc. split; [done|]. by intros [?%elem_of_nil _].
  - by intros c r ?%elem_of_nil.
  - intros s _. by rewrite Hc.
Qed.

Lemma start_target_spec entries ix media :
  media_inv media config sb → ix_ok drive_id ix → (∀ s, ix_owner ix drive_id s = None) →
  (∀ c r, (c, r) ∈ entries ↔ ix_live ix c = Some r) →
  match start_target sb entries ix media with
  | Ok k => kst_inv k ∧ (∀ c, ix_live (ks_index k) c = ix_live ix c) ∧ ks_media k = media ∧
      ga_pending (ks_allocator k) = ∅ ∧ placeable (ix_live ix)
  | Err e => e = InvalidData ∧ ¬ placeable (ix_live ix)
  end.
Proof.
  intros Hm Hok Hnone Hes. pose proof (mi_layout _ _ _ Hm) as Hfit. unfold start_target, build_slot_publications.
  pose proof (build_fold ix entries [] _ Hfit (rebuilt_start ix Hok Hnone) (fun c r => proj1 (Hes c r))) as Hf.
  destruct (try_fold _ _ entries) as [[ix' pubs]|e]; cbn [mbind result_mbind result_bind]; [|done].
  cbn [app] in Hf. destruct Hf as [Hok' Hlive Hlen Hidle Hown Hsn Hinv]. cbn [fst snd] in *.
  split_and!; [|done|done|done|split].
  - constructor; cbn [ks_media ks_index ks_slots ks_allocator]; try done.
    + intros s o Hs Ho. apply Hown in Ho as [Hin Hso]; [|done]. apply Hes in Hin. rewrite Hlive. split; [done|].
      destruct (ix_live_wf drive_id ix _ _ Hok Hin) as (_ & Hwf & _). by apply slot_of_lane.
    + intros c r. rewrite Hlive. intros Hl. apply Hes in Hl. destruct (Hsn c r Hl) as (s & Hs & Hso).
      exists s. split; [done|]. by apply Hown.
    + split; [done|]. cbn. lia.
  - intros c r Hl. apply Hes in Hl. destruct (Hsn c r Hl) as (s & _ & Hso). eauto.
  - intros c c' r r' s Hl Hl' Hso Hso'. apply Hes in Hl, Hl'. destruct (Hsn c r Hl) as (s' & Hs' & Hso2).
    rewrite Hso in Hso2. injection Hso2 as <-.
    pose proof (proj2 (Hown s (mkOwner c r) Hs') (conj Hl Hso)) as Ea.
    pose proof (proj2 (Hown s (mkOwner c' r') Hs') (conj Hl' Hso')) as Eb. rewrite Ea in Eb. by injection Eb.
Qed.

(** Starting a target on a recovered index. It fails, with invalid data, exactly when some
    record has no slot in the layout or two chunks claim the same slot; otherwise the
    target starts in its invariant with the index unchanged, every live chunk the owner of
    its slot and no granule pending. *)
Theorem start_target_iff entries ix media :
  media_inv media config sb → ix_ok drive_id ix → (∀ s, ix_owner ix drive_id s = None) →
  (∀ c r, (c, r) ∈ entries ↔ ix_live ix c = Some r) →
  match start_target sb entries ix media with
  | Ok k => kst_inv k ∧ (∀ c, ix_live (ks_index k) c = ix_live ix c) ∧ ks_media k = media ∧
      ga_pending (ks_allocator k) = ∅ ∧ placeable (ix_live ix)
  | Err e => e = InvalidData ∧ ¬ placeable (ix_live ix)
  end.
Proof. apply start_target_spec. Qed.

End boot.

(** ** Requests, one after another *)

Section histories.
Context `{Crc32} {K : Type} `{ChunkIndexSpec K}.
Context (config : ChunkMediaWriteConfig) (sb : ChunkMediaSuperblock) (message : Z → ChunkId → list byte).

(** The requests that change a target, from idle to idle. *)
Inductive kst_step (k k' : Kst K) : Prop :=
| step_write c slot generation i body sync res :
    request_wf config c slot generation i → stays sb k c slot →
    write_chunk_with_payload config sb c slot generation i body sync k = (k', res) → kst_step k k'
| step_delete c expected body res :
    handle_delete config sb c expected body k = (k', res) → kst_step k k'
| step_write_pack entries sync res :
    Forall (entry_wf config) entries → NoDup (we_chunk_id <$> entries) → stays_all sb k entries →
    write_pack config sb message entries sync k = (k', res) → kst_step k k'.

Lemma kst_step_inv k k' :
  kst_inv config sb k → kst_step k k' →
  kst_inv config sb k' ∧ ga_pending (ks_allocator k') = ga_pending (ks_allocator k).
Proof.
  intros Hi [c slot g i body sync res Hwf Hst Hr|c expected body res Hr|entries sync res Hwf Hnd Hst Hr].
  - by destruct (write_request_spec _ _ _ _ _ _ _ _ _ _ _ Hi Hwf Hst Hr) as (? & ? & _).
  - destruct (delete_request_spec _ _ _ _ _ _ _ _ Hi Hr) as (? & -> & _). done.
  - by destruct (pack_request_spec _ _ _ _ _ _ _ _ Hi Hwf Hnd Hst Hr) as (? & ? & _).
Qed.

Lemma history_inv k k' :
  kst_inv config sb k → rtc kst_step k k' →
  kst_inv config sb k' ∧ ga_pending (ks_allocator k') = ga_pending (ks_allocator k).
Proof.
  intros Hi Hs. induction Hs as [|k k1 k' Hst _ IH]; [done|].
  destruct (kst_step_inv k k1 Hi Hst) as [Hi1 Hp1]. destruct (IH Hi1) as [? Hp]. split; [done|congruence].
Qed.

(** A target in its invariant can be rebuilt from its index. *)
Lemma inv_placeable k : kst_inv config sb k → placeable sb (ix_live (ks_index k)).
Proof.
  intros Hi.
  assert (∀ c r, ix_live (ks_index k) c = Some r →
    ∃ s, 0 ≤ s ∧ chunk_media_slot_index_for_record (sb_layout sb) r = Ok s ∧ current k s = Some (mkOwner c r)) as Hs.
  { intros c r Hl. destruct (live_location config sb k c r Hi Hl) as (s & lane & Hs & Ho & Hat & _).
    destruct (ix_live_wf _ _ _ _ (ki_index _ _ _ Hi) Hl) as (_ & (_ & Hu & _) & _).
    exists s. split_and!; [done| |done]. by eapply at_lane_slot; [apply (inv_layout _ _ _ Hi)| |]. }
  split.
  - intros c r Hl. destruct (Hs c r Hl) as (s & _ & ? & _). by exists s.
  - intros c c' r r' s Hl Hl' E E'. destruct (Hs c r Hl) as (s1 & _ & E1 & Ho). destruct (Hs c' r' Hl') as (s2 & _ & E2 & Ho').
    rewrite E in E1. rewrite E' in E2. injection E1 as <-. injection E2 as <-. rewrite Ho in Ho'. by injection Ho'.
Qed.

Lemma read_reindexed k k' c :
  kst_inv config sb k → kst_inv config sb k' → ks_media k' = ks_media k →
  ix_live (ks_index k') c = ix_live (ks_index k) c →
  read_alone config sb k' c = read_alone config sb k c.
Proof. intros Hi Hi' Hm Hl. apply read_same; [done..|]. intros. rewrite Hm. by repeat split. Qed.

End histories.

(** ** Paging through the occupied granules *)

Section paging.
Context `{Crc32} {K : Type} `{ChunkIndexSpec K}.
Context (config : ChunkMediaWriteConfig) (sb : ChunkMediaSuperblock).

Implicit Types (k : Kst K) (l : list (Z * ChunkId * Z)) (cursor : option Z).

Abbreviation slot_lt := (fun a b : Z * ChunkId * Z => a.1.1 < b.1.1).

(** The granules a cursor leaves to list. *)
Definition remaining cursor l : list (Z * ChunkId * Z) :=
  match cursor with Some c => filter (fun g => c < g.1.1) l | None => l end.

(** Where a page of [n] granules of [rest] ends. *)
Definition page_end (n : nat) (last_examined : Z) (rest : list (Z * ChunkId * Z)) : option Z :=
  if (length rest <=? n)%nat then None
  else Some (match n with O => last_examined | S n => default last_examined ((fun g => g.1.1) <$> rest !! n) end).

Lemma occupied_page_spec k cursor limit examined last_examined l :
  examined ≤ limit →
  let n := Z.to_nat (limit - examined) in
  occupied_page config k cursor limit examined last_examined l
  = (omap (occupied_document config k) (take n (remaining cursor l)), page_end n last_examined (remaining cursor l)).
Proof.
  revert examined last_examined. induction l as [|g l IH]; intros examined last_examined Hle n.
  { subst n. cbn [occupied_page]. unfold remaining, page_end. destruct cursor; cbn; by rewrite take_nil. }
  cbn [occupied_page].
  destruct (match cursor with Some c => g.1.1 <=? c | None => false end) eqn:Ec.
  - destruct cursor as [c|]; [|done]. apply Z.leb_le in Ec. rewrite IH by done. unfold remaining.
    by rewrite filter_cons_False by lia.
  - assert (remaining cursor (g :: l) = g :: remaining cursor l) as ->.
    { destruct cursor as [c|]; [|done]. apply Z.leb_gt in Ec. unfold remaining. by rewrite filter_cons_True. }
    destruct (Z.leb_spec limit examined).
    + subst n. replace (Z.to_nat (limit - examined)) with 0%nat by lia. done.
    + rewrite IH by lia. replace n with (S (Z.to_nat (limit - (examined + 1)))) by lia.
      cbn [take omap list_omap]. f_equal; [by destruct (occupied_document config k g)|].
      unfold page_end. cbn [length Nat.leb]. destruct (_ <=? _)%nat eqn:El; [done|]. apply Nat.leb_gt in El. f_equal.
      destruct (Z.to_nat (limit - (examined + 1))) as [|m]; [done|].
      change ((g :: remaining cursor l) !! S m) with (remaining cursor l !! m).
      destruct (lookup_lt_is_Some_2 (remaining cursor l) m) as [x Hx]; [lia|]. by rewrite Hx.
Qed.

Lemma filter_below (c : Z) l : Forall (fun g => g.1.1 ≤ c) l → filter (fun g : Z * ChunkId * Z => c < g.1.1) l = [].
Proof.
  induction 1 as [|g l Hg _ IH]; [done|]. rewrite filter_cons_False by lia. done.
Qed.

Lemma filter_above (c : Z) l : Forall (fun g => c < g.1.1) l → filter (fun g : Z * ChunkId * Z => c < g.1.1) l = l.
Proof. induction 1 as [|g l Hg _ IH]; [done|]. by rewrite filter_cons_True, IH. Qed.

Lemma remaining_suffix cursor l :
  StronglySorted slot_lt l → ∃ before, l = before ++ remaining cursor l.
Proof.
  destruct cursor as [c|]; cbn [remaining]; [|by exists []].
  induction 1 as [|g l Hs [before E] Hf]; [by exists []|]. rewrite filter_cons. case_decide as Hg.
  - exists []. cbn. f_equal. symmetry. apply filter_above. rewrite Forall_forall in Hf.
    apply Forall_forall. intros x Hx. specialize (Hf x Hx). lia.
  - exists (g :: before). cbn. by f_equal.
Qed.

(** The next page starts right after the last granule examined. *)
Lemma remaining_next cursor l p x q :
  StronglySorted slot_lt l → remaining cursor l = p ++ x :: q → remaining (Some x.1.1) l = q.
Proof.
  intros Hs E. destruct (remaining_suffix cursor l Hs) as [before El]. rewrite E in El.
  replace (before ++ p ++ x :: q) with ((before ++ p) ++ x :: q) in El by (by rewrite app_assoc).
  subst l. cbn [remaining]. apply StronglySorted_app in Hs as (Hlt & _ & Hxq).
  apply StronglySorted_inv in Hxq as [_ Hq]. rewrite filter_app, filter_below.
  - rewrite filter_cons_False by lia. by apply filter_above.
  - apply Forall_forall. intros g Hg. specialize (Hlt g x Hg ltac:(left)). cbn in Hlt. lia.
Qed.

Lemma occupied_document_slot k g d : occupied_document config k g = Some d → og_slot d = g.1.1.
Proof.
  destruct g as [[s c] generation]. cbn. destruct (ix_get _ _) as [[r|]|]; [|done..].
  destruct (read_identity _ _ _ _); [|done]. by intros [= <-].
Qed.

Lemma occupied_sorted k l :
  StronglySorted slot_lt l → StronglySorted (fun a b => og_slot a < og_slot b) (omap (occupied_document config k) l).
Proof.
  induction 1 as [|g l _ IH Hf]; [constructor|]. cbn. destruct (occupied_document config k g) as [d|] eqn:E; [|done].
  constructor; [done|]. apply Forall_forall. intros d' (g' & Hg' & E')%list_elem_of_omap.
  rewrite Forall_forall in Hf. specialize (Hf g' Hg').
  apply occupied_document_slot in E, E'. by rewrite E, E'.
Qed.

(** A client that follows the cursors; [None] when it runs out of requests or is refused. *)
Fixpoint follow_pages (requests : nat) k (limit cursor : option Z) : option (list OccupiedGranuleDocument) :=
  match requests with
  | O => None
  | S requests =>
      match handle_occupied_granules config k cursor limit [] with
      | Ok (mkResponse _ _ (OccupiedGranulesPage entries next_cursor)) =>
          match next_cursor with
          | None => Some entries
          | Some c => (fun rest => entries ++ rest) <$> follow_pages requests k limit (Some c)
          end
      | _ => None
      end
  end.

Lemma follow_pages_spec k limit cursor requests :
  StronglySorted slot_lt (ix_occupied (ks_index k) (mc_drive_id config)) →
  (length (remaining cursor (ix_occupied (ks_index k) (mc_drive_id config))) < requests)%nat →
  follow_pages requests k limit cursor
  = Some (omap (occupied_document config k) (remaining cursor (ix_occupied (ks_index k) (mc_drive_id config)))).
Proof.
  set (l := ix_occupied _ _). intros Hs. revert cursor. induction requests as [|requests IH]; intros cursor Hlen; [lia|].
  cbn [follow_pages]. unfold handle_occupied_granules. rewrite bool_decide_eq_true_2 by done. cbn [negb]. fold l.
  assert (1 ≤ occupied_limit limit) as Hlim by (unfold occupied_limit, clamp, MAX_OCCUPIED_LIMIT; repeat case_match; lia).
  rewrite occupied_page_spec by lia. set (n := Z.to_nat _). set (rest := remaining cursor l) in *.
  unfold page_end. destruct (Nat.leb_spec (length rest) n) as [Hle|Hgt]; [by rewrite take_ge|].
  destruct n as [|m] eqn:En; [lia|]. destruct (lookup_lt_is_Some_2 rest m) as [x Hx]; [lia|].
  rewrite Hx. cbn [fmap option_fmap option_map default from_option id]. pose proof (take_drop_middle rest m x Hx) as Hmid.
  assert (remaining (Some x.1.1) l = drop (S m) rest) as Hnext by (eapply (remaining_next cursor); [done|]; by symmetry).
  rewrite IH; rewrite Hnext; [|rewrite length_drop; lia].
  cbn. by rewrite <-omap_app, take_drop.
Qed.

(** Listing the occupied granules. Whatever page size it asks for, a client that follows
    the returned cursors is done after a bounded number of requests and has every occupied
    granule whose chunk is readable, once, in the order of the slots; in particular every
    live chunk whose header reads, at its slot, with its generation and identity. *)
Theorem occupied_pages_complete k limit requests :
  kst_inv config sb k →
  (length (ix_occupied (ks_index k) (mc_drive_id config)) < requests)%nat →
  ∃ entries, follow_pages requests k limit None = Some entries ∧
    entries = omap (occupied_document config k) (ix_occupied (ks_index k) (mc_drive_id config)) ∧
    StronglySorted (fun a b => og_slot a < og_slot b) entries ∧
    ∀ c r identity, ix_live (ks_index k) c = Some r →
      read_identity (ks_media k) (mc_span config) c r = Ok identity →
      ∃ s, chunk_media_slot_index_for_record (sb_layout sb) r = Ok s ∧
        mkOccupiedGranule s c (lr_generation r) identity ∈ entries.
Proof.
  intros Hi Hlen. destruct (ix_occupied_spec _ _ (ki_index _ _ _ Hi)) as [Hs Hin].
  eexists. split; [by apply follow_pages_spec|]. split_and!; [done|by apply occupied_sorted|].
  intros c r identity Hl Hid. destruct (live_location config sb k c r Hi Hl) as (s & lane & Hs0 & Ho & Hat & _).
  destruct (ix_live_wf _ _ _ _ (ki_index _ _ _ Hi) Hl) as (_ & (_ & Hu & _) & _).
  exists s. split; [by eapply at_lane_slot; [apply (inv_layout _ _ _ Hi)| |]|].
  apply list_elem_of_omap. exists (s, c, lr_generation r). split.
  - apply Hin. by rewrite (ki_inverse _ _ _ Hi), Ho.
  - cbn. by rewrite (ix_get_live (mc_drive_id config)), Hl, Hid by apply Hi.
Qed.

End paging.

(** ** Stopping and starting the whole target *)

Section restart.
Context `{Crc32}.
Context (cfgs : list DriveConfig).
Context (config : ChunkMediaWriteConfig) (sb : ChunkMediaSuperblock) (message : Z → ChunkId → list byte).

#[local] Instance engine_spec : ChunkIndexSpec (Kix DriveArena) := kix_index_spec cfgs.

Abbreviation drive_id := (mc_drive_id config).

Lemma fresh_inverse (k : Kix DriveArena) (ids : list Z) d s :
  kx_inverse k = list_to_map ((fun id => (id, ∅)) <$> ids) → lookup_granule_chunk k d s = None.
Proof.
  intros E. unfold lookup_granule_chunk. rewrite E. destruct (list_to_map _ !! d) as [inv|] eqn:El; [|done].
  apply elem_of_list_to_map_2, list_elem_of_fmap in El as (id & [= -> ->] & _). cbn. by rewrite lookup_empty.
Qed.

Lemma fresh_inverse_some (k : Kix DriveArena) (ids : list Z) d :
  kx_inverse k = list_to_map ((fun id => (id, ∅)) <$> ids) → d ∈ ids → is_Some (kx_inverse k !! d).
Proof.
  intros -> Hd. destruct (list_to_map _ !! d) as [inv|] eqn:El; [by eexists|].
  apply not_elem_of_list_to_map_2 in El. destruct El. rewrite <-list_fmap_compose.
  apply list_elem_of_fmap. by exists d.
Qed.

(** C7: A target's life. From a sound state, any history of write, delete and packed write
    requests (accepted or refused, with any outcome of the media and of its sync) ends in a
    sound state; stopping it there, opening its index from the drives and rebuilding the
    slot owners from the media layout always succeeds, asks for no rebuild, and every read,
    of any chunk, answers what it answered before. The requests of the history have fields
    within their wire widths, write a chunk that is live only to the slot it is in, and
    name a chunk at most once in a pack ([kst_step]). *)
Theorem target_restart k0 k count :
  kst_inv config sb k0 → rtc (kst_step config sb message) k0 k →
  NoDup (cfg_id <$> cfgs) → drive_id ∈ cfg_id <$> cfgs → 0 < count →
  ∃ ix k', engine_open count (stopped_drives (ks_index k) cfgs) = Ok (ix, []) ∧
    start_target sb (snapshot_entries ix) ix (ks_media k) = Ok k' ∧
    kst_inv config sb k' ∧ ga_pending (ks_allocator k') = ∅ ∧
    ∀ c, read_alone config sb k' c = read_alone config sb k c.
Proof.
  intros Hi0 Hs Hnd Hd Hcount. destruct (history_inv _ _ _ _ _ Hi0 Hs) as [Hi _].
  destruct (ki_index _ _ _ Hi) as [Hinv _].
  destruct (engine_reopens _ cfgs _ count Hinv Hnd) as (ix & Eo & Hinv' & Hl & Einv); [|done|].
  { intros ->. by apply elem_of_nil in Hd. }
  exists ix. pose proof (start_target_spec config sb (snapshot_entries ix) ix (ks_media k) (ki_media _ _ _ Hi)
    (conj Hinv' (fresh_inverse_some ix _ _ Einv Hd)) (fun s => fresh_inverse ix _ _ s Einv)
    (fun c r => snapshot_graph _ _ ix c r Hinv')) as Hstart.
  destruct (start_target sb (snapshot_entries ix) ix (ks_media k)) as [k'|e].
  - destruct Hstart as (Hi' & Hl' & Hm & Hp & _). exists k'. split_and!; [done..|].
    intros c. apply read_reindexed; [done..|]. rewrite Hl'. apply Hl.
  - destruct Hstart as [_ []]. destruct (inv_placeable _ _ _ Hi) as [Hall Hinj]. split.
    + intros c r. cbn [ix_live engine_spec kix_index_spec]. rewrite Hl. apply Hall.
    + intros c c' r r' s. cbn [ix_live engine_spec kix_index_spec]. rewrite !Hl. apply Hinj.
Qed.

End restart.
