(* ===== verification/KstWire.v ===== *)
(** The packed requests end to end: a client encodes a pack with its headers, the target
    decodes, serves and encodes, and the client decodes the reply. *)
From S2P Require Import Prelude Bytes Device KixTypes Kp2 Kp2Http ChunkMedia ChunkMediaGeo ChunkMediaIO ChunkMediaState Engine EngineProps Kst KstPack KstIndex KstInv KstOps KstPackProps.

Section wire.
Context `{Crc32} {K : Type} `{ChunkIndexSpec K} {HM HV : Type} `{HeaderMapLaws HM HV}.
Context (config : ChunkMediaWriteConfig) (sb : ChunkMediaSuperblock).
Context (message : Z → ChunkId → list byte).

Abbreviation kst_inv := (kst_inv config sb).
Abbreviation read_alone := (read_alone config sb).

(** A message as it goes over the wire: its body and the headers that announce it. *)
Definition announced (kind : list byte) (n total : Z) (headers : HM) : Prop :=
  ∃ h0 : HM, apply_packed_headers h0 kind n total = Ok headers.

Lemma announced_valid kind n total headers :
  forallb visible_ascii kind = true → is_u64 n → is_u64 total → announced kind n total headers →
  validate_packed_headers headers kind = Ok tt ∧ validate_declared_counts headers n total = Ok tt.
Proof.
  intros Hk Hn Ht [h0 Eh]. destruct (packed_headers_read_back h0 kind n total Hk Hn Ht) as (h & E & Hv & Hc).
  rewrite Eh in E. injection E as <-. split; [done|]. by apply Hc.
Qed.


(** ** Reading *)






(** ** Writing *)

(** The error texts fit a pack of [n] replies. *)
Definition messages_fit (n : Z) : Prop :=
  ∀ status c, message status c ≠ [] ∧ utf8_valid (message status c) = true ∧
    n * len (message status c) ≤ MAX_PACK_PAYLOAD_BYTES.

Lemma write_entries_wf entries :
  is_u16 (mc_drive_id config) → Forall write_entry_wf entries → Forall (entry_wf config) entries.
Proof.
  intros Hd Hf. eapply Forall_impl; [exact Hf|]. intros e (Hc & Hs & Hg & (? & ? & ? & ?) & _).
  do 4 (split; [done|]). by split_and!.
Qed.

Lemma write_request_decodes entries body :
  write_pack_wf entries → encode_write_request entries = Ok body → decode_write_request body = Ok entries.
Proof.
  intros Hwf Eb. pose proof (encode_write_request_eq entries Hwf) as E. rewrite Eb in E. injection E as Ebody.
  apply decode_write_request_spec; [|done]. rewrite Ebody.
  by eapply packed_body_small; [|apply encode_write_entry_len|..].
Qed.

Lemma reply_error e reply : reply_for message e reply →
  ∃ status, error_bytes_of reply = [] ∨ error_bytes_of reply = message status (we_chunk_id e).
Proof.
  intros (status & location & -> & _). exists status. unfold error_bytes_of, reply_entry. cbn [wr_error].
  destruct (status =? 201); [by left|by right].
Qed.

Lemma reply_ack_wf n e reply :
  messages_fit n → 1 ≤ n → entry_wf config e → reply_for message e reply → ack_entry_wf reply.
Proof.
  intros Hm Hn (_ & Hs & Hc & Hg & _) (status & location & -> & Hst & Hl & Hsl).
  destruct (Hm status (we_chunk_id e)) as (Hne & Hutf & Hlen).
  assert (is_u16 status) as Hu by (repeat (apply elem_of_cons in Hst as [->|Hst]; [done|]); by apply elem_of_nil in Hst).
  do 6 (split; [done|]). unfold error_bytes_of, reply_entry. cbn [wr_error].
  destruct (status =? 201); cbn [default]; [done|]. split; [|done].
  unfold is_u32, fits, MAX_PACK_PAYLOAD_BYTES, from_option, id in *. nia.
Qed.

Lemma replies_fit n (entries : list PackedWriteEntry) replies :
  messages_fit n → Forall2 (reply_for message) entries replies →
  n * sum_len (error_bytes_of <$> replies) ≤ len entries * MAX_PACK_PAYLOAD_BYTES.
Proof.
  intros Hm. induction 1 as [|e reply entries replies Hrep _ IH].
  { change (n * 0 ≤ 0 * MAX_PACK_PAYLOAD_BYTES). lia. }
  rewrite fmap_cons, sum_len_cons. cbn [length].
  assert (n * len (error_bytes_of reply) ≤ MAX_PACK_PAYLOAD_BYTES); [|unfold MAX_PACK_PAYLOAD_BYTES in *; lia].
  destruct (reply_error e reply Hrep) as [status [-> | ->]]; [unfold MAX_PACK_PAYLOAD_BYTES; cbn [length]; lia|apply Hm].
Qed.

(** The replies to a pack of at least one entry can be encoded and decoded. *)
Lemma replies_wf (entries : list PackedWriteEntry) replies :
  messages_fit (len entries) → entries ≠ [] → len entries * ACK_ENTRY_BYTES < 2 ^ 32 →
  Forall (entry_wf config) entries → Forall2 (reply_for message) entries replies →
  packed_wf ACK_ENTRY_BYTES error_bytes_of ack_entry_wf replies.
Proof.
  intros Hm Hne Hsz Hwf Hf. pose proof (Forall2_length _ _ _ Hf) as Hlen.
  assert (1 ≤ len entries) as Hn by (destruct entries; [done|cbn [length]; lia]).
  pose proof (replies_fit _ _ _ Hm Hf) as Hsum. split_and!.
  - intros ->. by destruct entries.
  - apply Forall_lookup. intros i reply Hr. destruct (Forall2_lookup_r _ _ _ _ _ Hf Hr) as (e & He & Hrep).
    eapply reply_ack_wf; [done|done|by eapply Forall_lookup_1|done].
  - by rewrite <-Hlen.
  - unfold MAX_PACK_PAYLOAD_BYTES in *. nia.
Qed.

(** C16: A packed write, end to end. The client encodes a well-formed pack of entries with
    distinct chunk ids, of which each that is already live names the slot it is in
    ([stays_all]), and announces its counts in the headers; replies for it fit the reply's
    32-bit entry table, and the error texts fit its payload limit ([messages_fit]). The
    target keeps its invariant and leaves no granule pending. Refused as a whole (400 for a
    slot named twice or outside the drive, 507 when an entry asks the target for a granule and
    gets none), it changed no read. Otherwise the client decodes exactly one reply per
    entry, in order: 201 when reads of the chunk now return the entry, or when a newer
    generation is live and stays what is read; another status when the chunk reads as
    before. The response is 201 just when every entry is, and every chunk outside the pack
    reads as before. *)
Theorem kp2_write_answers k entries headers body sync k' res :
  kst_inv k → is_u16 (mc_drive_id config) → write_pack_wf entries →
  len entries * ACK_ENTRY_BYTES < 2 ^ 32 → messages_fit (len entries) →
  NoDup (we_chunk_id <$> entries) → stays_all sb k entries →
  encode_write_request entries = Ok body →
  announced KIND_WRITE (len entries) (sum_len (we_payload <$> entries)) headers →
  handle_kp2_write config sb message headers body sync k = (k', res) →
  kst_inv k' ∧ ga_pending (ks_allocator k') = ga_pending (ks_allocator k) ∧
  match res with
  | Ok (mkResponse status None (Kp2Body out)) => ∃ entries' replies,
      decode_write_reply out = Ok replies ∧ Forall2 (resolved sb) entries entries' ∧
      Forall2 (entry_seen config sb message k k') entries' replies ∧
      (∀ c, c ∉ we_chunk_id <$> entries → read_alone k' c = read_alone k c) ∧
      status = (if forallb (fun reply => wr_status_code reply =? 201) replies then 201 else 207)
  | Err (ServiceError status) => pack_refused sb k entries status ∧ ∀ c, read_alone k' c = read_alone k c
  | _ => False
  end.
Proof.
  intros Hi Hd Hwf Hsz Hm Hnd Hstay Eb Ha Hr. pose proof Hwf as (Hne & Hwfs & Hlen & Hsum).
  pose proof (write_entries_wf entries Hd Hwfs) as Hewf. pose proof (sum_len_nonneg (we_payload <$> entries)) as Hpos.
  assert (is_u64 (len entries) ∧ is_u64 (sum_len (we_payload <$> entries))) as [Hn Ht]
    by (unfold is_u64, fits, ACK_ENTRY_BYTES, MAX_PACK_PAYLOAD_BYTES in *; lia).
  destruct (announced_valid KIND_WRITE _ _ headers eq_refl Hn Ht Ha) as [Ev Ec].
  unfold handle_kp2_write in Hr. rewrite (M_bind_run _ _ k k tt) in Hr by (unfold lift; by rewrite Ev).
  rewrite (M_bind_run _ _ k k entries) in Hr by (unfold lift; by rewrite (write_request_decodes entries body Hwf Eb)).
  rewrite (M_bind_run _ _ k k tt) in Hr by (unfold lift; by rewrite Ec).
  destruct (write_pack config sb message entries sync k) as [k1 res1] eqn:E1.
  pose proof (pack_request_spec config sb message k entries sync k1 res1 Hi Hewf Hnd Hstay E1) as (Hi1 & Hp1 & Hres).
  destruct res1 as [replies|[status|]]; [|rewrite (M_bind_Err _ _ _ _ _ E1) in Hr; injection Hr as <- <-; done|done].
  rewrite (M_bind_run _ _ _ _ _ E1) in Hr. destruct Hres as (entries' & Hres & Hseen & Hout & _).
  destruct (resolved_all_wf config sb k entries entries' Hi Hres Hewf Hstay) as (Hewf' & _ & _).
  pose proof (Forall2_length _ _ _ Hres) as Hl'.
  destruct (write_reply_roundtrip replies) as (out & Eo & Edec).
  { apply (replies_wf entries'); [by rewrite <-Hl'|by intros ->; destruct entries|by rewrite <-Hl'|done|].
    eapply Forall2_impl; [exact Hseen|]. by intros e reply (? & _). }
  rewrite (M_bind_run _ _ k1 k1 out) in Hr by (unfold lift; by rewrite Eo). injection Hr as <- <-.
  do 2 (split; [done|]). by exists entries', replies.
Qed.

End wire.
