(* ===== verification/KstExamples.v ===== *)
(** The storage target's theorems applied to a target on one small drive, its index and its
    chunk media freshly made. *)
From S2P Require Import Prelude Bytes Device KixTypes Arena ArenaCodec ArenaInv ArenaOps ArenaOpen ArenaExamples Kp2 Kp2Http ChunkMedia ChunkMediaGeo ChunkMediaIO ChunkMediaState ChunkMediaExamples Engine EngineProps EngineExamples Kst KstPack KstIndex KstInv KstOps KstPackProps KstBoot KstWire.

#[local] Existing Instance crc32_software.
#[local] Instance kt_spec : ChunkIndexSpec (Kix DriveArena) := kix_index_spec [ex_config].

Opaque zeroed splice slice.

Definition kt_config : ChunkMediaWriteConfig := mkWriteConfig 3 (mkSpan 0 None) cm_layout.
Definition kt_message (status : Z) (c : ChunkId) : list byte := [x65].
Definition kt_chunk : ChunkId := cm_chunk x05.

Lemma kt_media : ∃ s, media_inv s kt_config cm_sb.
Proof. destruct cm_opened as (s & [] & _). exists s. constructor; assumption. Qed.

Lemma kt_index : ix_ok (mc_drive_id kt_config) en_kix.
Proof. split; [exact en_inv|]. by eexists. Qed.

Lemma kt_owner s : ix_owner en_kix (mc_drive_id kt_config) s = None.
Proof.
  change (lookup_granule_chunk en_kix 3 s = None). unfold lookup_granule_chunk. cbn [kx_inverse en_kix].
  rewrite lookup_singleton_eq. cbn [mbind option_bind]. by rewrite lookup_empty.
Qed.

Lemma kt_live c : ix_live en_kix c = None.
Proof.
  change (live en_kix c = None). unfold live, shard_live. cbn [kx_shards en_kix].
  destruct (shard_of en_kix c) as [|[|[|i]]]; cbn; apply lookup_empty.
Qed.

Lemma kt_entries c r : (c, r) ∈ [] ↔ ix_live en_kix c = Some r.
Proof. rewrite kt_live. split; [by intros ?%elem_of_nil|done]. Qed.

(** The target after it has started. *)
Definition kt_started (s : Store) : Kst (Kix DriveArena) :=
  mkKst en_kix s [slot_state_default] (allocator_new 1).

Lemma kt_inv : ∃ s, kst_inv kt_config cm_sb (kt_started s).
Proof.
  destruct kt_media as [s Hm]. exists s.
  by destruct (start_target_spec kt_config cm_sb [] en_kix s Hm kt_index kt_owner kt_entries) as [Hi _].
Qed.

Lemma kt_request slot generation :
  is_u64 slot → is_u32 generation → request_wf kt_config kt_chunk slot generation default_identity.
Proof. intros. split_and!; [by vm_compute|done|exact (cm_chunk_wf x05)|done|by vm_compute]. Qed.

Lemma kt_stays s slot c : stays cm_sb (kt_started s) c slot.
Proof. intros r Hr. change (ix_live en_kix c = Some r) in Hr. by rewrite kt_live in Hr. Qed.

Lemma kt_slot0 : is_u64 0 ∧ is_u64 GRANULE_ALLOCATE ∧ is_u32 9.
Proof. split_and!; by vm_compute. Qed.

Lemma allocate_first_free_witness :
  ∃ a, allocate (fun slot => slot =? 1) (mkGranuleAllocator 3 1 {[2]}) = (a, Some 0) ∧
    ga_pending (release 0 a) = {[2]}.
Proof.
  pose proof (allocate_first_free (fun slot => slot =? 1) (mkGranuleAllocator 3 1 {[2]})
    ltac:(cbn; lia) ltac:(cbn; lia)) as Ha.
  destruct (allocate (fun slot => slot =? 1) (mkGranuleAllocator 3 1 {[2]})) as [a o] eqn:E. vm_compute in E.
  injection E as <- <-. destruct Ha as (_ & _ & _ & _ & _ & Hp). eexists. split; [reflexivity|exact Hp].
Defined.

Lemma write_then_read_witness :
  ∃ s k res, kst_inv kt_config cm_sb (kt_started s) ∧
    write_chunk_with_payload kt_config cm_sb kt_chunk GRANULE_ALLOCATE 9 default_identity cm_payload (Ok tt) (kt_started s)
    = (k, res) ∧ write_seen kt_config cm_sb (kt_started s) k kt_chunk GRANULE_ALLOCATE 9 cm_payload res.
Proof.
  destruct kt_inv as [s Hi]. destruct kt_slot0 as (_ & Ha & Hg).
  destruct (write_chunk_with_payload kt_config cm_sb kt_chunk GRANULE_ALLOCATE 9 default_identity cm_payload (Ok tt)
    (kt_started s)) as [k res] eqn:E.
  destruct (write_then_read kt_config cm_sb (kt_started s) kt_chunk GRANULE_ALLOCATE 9 default_identity cm_payload (Ok tt)
    k res Hi (kt_request _ _ Ha Hg) (kt_stays s GRANULE_ALLOCATE kt_chunk) E) as (_ & _ & Hs & _).
  exists s, k, res. split; [exact Hi|]. split; [exact E|exact Hs].
Defined.

Lemma start_target_iff_witness :
  ∃ s, start_target cm_sb [] en_kix s = Ok (kt_started s) ∧ kst_inv kt_config cm_sb (kt_started s).
Proof.
  destruct kt_media as [s Hm]. exists s. split; [reflexivity|].
  destruct (start_target_iff kt_config cm_sb [] en_kix s Hm kt_index kt_owner kt_entries) as [Hi _]. exact Hi.
Defined.

(** A write to slot 0 of the started target, as a step of its history. *)
Definition kt_put (k : Kst (Kix DriveArena)) : Kst (Kix DriveArena) * result ServiceStop ServiceResponse :=
  write_chunk_with_payload kt_config cm_sb kt_chunk 0 9 default_identity cm_payload (Ok tt) k.

Lemma kt_put_step s k res :
  kt_put (kt_started s) = (k, res) → kst_step kt_config cm_sb kt_message (kt_started s) k.
Proof.
  intros E. destruct kt_slot0 as (H0 & _ & Hg).
  exact (step_write kt_config cm_sb kt_message (kt_started s) k kt_chunk 0 9 default_identity cm_payload (Ok tt) res
    (kt_request 0 9 H0 Hg) (kt_stays s 0 kt_chunk) E).
Qed.

Lemma kt_written : ∃ s k res, kst_inv kt_config cm_sb (kt_started s) ∧ kt_put (kt_started s) = (k, res) ∧
  kst_inv kt_config cm_sb k ∧ kst_step kt_config cm_sb kt_message (kt_started s) k.
Proof.
  destruct kt_inv as [s Hi]. destruct (kt_put (kt_started s)) as [k res] eqn:E. pose proof (kt_put_step s k res E) as Hst.
  exists s, k, res. split; [exact Hi|]. split; [exact E|]. split; [|exact Hst].
  exact (proj1 (kst_step_inv _ _ _ _ _ Hi Hst)).
Qed.

Lemma delete_then_missing_witness :
  ∃ s k res k' res', kt_put (kt_started s) = (k, res) ∧
    handle_delete kt_config cm_sb kt_chunk (Some 9) [] k = (k', res') ∧ kst_inv kt_config cm_sb k' ∧
    ((k' = k ∧ delete_refused k kt_chunk (Some 9) [] res') ∨
     ∃ r slot, current k slot = Some (mkOwner kt_chunk r) ∧ (Some 9 = None ∨ Some 9 = Some (lr_generation r)) ∧
       delete_seen kt_config cm_sb k k' kt_chunk r slot res').
Proof.
  destruct kt_written as (s & k & res & _ & E & Hi & _).
  destruct (handle_delete kt_config cm_sb kt_chunk (Some 9) [] k) as [k' res'] eqn:Ed.
  destruct (delete_then_missing kt_config cm_sb k kt_chunk (Some 9) [] k' res' Hi Ed) as (Hi' & _ & _ & Hcase).
  exists s, k, res, k', res'. split; [exact E|]. split; [exact Ed|]. split; [exact Hi'|exact Hcase].
Defined.

Definition kt_entry : PackedWriteEntry :=
  mkPackedWriteEntry kt_chunk 0 9 (mkWriteIdentity 0 0 0 0) cm_payload.

Lemma kt_entry_wf : Forall (entry_wf kt_config) [kt_entry].
Proof. constructor; [|constructor]. destruct kt_slot0 as (H0 & _ & Hg). exact (kt_request _ _ H0 Hg). Qed.

Lemma kt_entry_stays s : stays_all cm_sb (kt_started s) [kt_entry].
Proof. constructor; [exact (kt_stays s 0 kt_chunk)|constructor]. Qed.

Lemma kt_entry_nodup : NoDup (we_chunk_id <$> [kt_entry]).
Proof. apply NoDup_singleton. Qed.

(** The pack names one slot, on the medium: it is not refused as a whole. *)
Lemma kt_not_refused s status : ¬ pack_refused cm_sb (kt_started s) [kt_entry] status.
Proof.
  intros [(_ & es & Hf & [Hn|(e & He & Hge)])|(_ & Ha)].
  - apply Hn. destruct es as [|e [|]]; [by apply Forall2_nil_inv_r in Hf| |by inversion Hf as [|? ? ? ? _ Hf']; inversion Hf'].
    apply NoDup_singleton.
  - inversion Hf as [|? e' ? ? (_ & _ & _ & _ & Hslot) Hf']; subst. apply Forall2_nil_inv_l in Hf' as ->.
    apply list_elem_of_singleton in He as ->. rewrite decide_False in Hslot by done. rewrite Hslot in Hge. cbn in Hge. lia.
  - by apply list_elem_of_singleton in Ha.
Qed.

Lemma write_pack_then_read_witness :
  ∃ s k replies, write_pack kt_config cm_sb kt_message [kt_entry] (Ok tt) (kt_started s) = (k, Ok replies) ∧
    kst_inv kt_config cm_sb k ∧ ∃ entries', Forall2 (resolved cm_sb) [kt_entry] entries' ∧
      Forall2 (entry_seen kt_config cm_sb kt_message (kt_started s) k) entries' replies.
Proof.
  destruct kt_inv as [s Hi].
  destruct (write_pack kt_config cm_sb kt_message [kt_entry] (Ok tt) (kt_started s)) as [k res] eqn:E.
  destruct (write_pack_then_read kt_config cm_sb kt_message (kt_started s) [kt_entry] (Ok tt) k res Hi kt_entry_wf
    kt_entry_nodup (kt_entry_stays s) E) as (Hi' & _ & Hr).
  destruct res as [replies|[status|]]; [|destruct Hr as [Hr _]; by apply kt_not_refused in Hr|done].
  destruct Hr as (es & H1 & H2 & _). exists s, k, replies. split; [exact E|]. split; [exact Hi'|]. exists es. split; [exact H1|exact H2].
Defined.

Lemma kt_drives : NoDup (cfg_id <$> [ex_config]) ∧ mc_drive_id kt_config ∈ cfg_id <$> [ex_config].
Proof. split; [apply NoDup_singleton|left]. Qed.

Lemma target_restart_witness :
  ∃ s k ix k', kst_step kt_config cm_sb kt_message (kt_started s) k ∧
    engine_open 5 (stopped_drives (ks_index k) [ex_config]) = Ok (ix, []) ∧
    start_target cm_sb (snapshot_entries ix) ix (ks_media k) = Ok k' ∧
    read_alone kt_config cm_sb k' kt_chunk = read_alone kt_config cm_sb k kt_chunk.
Proof.
  destruct kt_written as (s & k & res & Hi & _ & _ & Hst). destruct kt_drives as [Hnd Hd].
  destruct (target_restart [ex_config] kt_config cm_sb kt_message (kt_started s) k 5 Hi (rtc_once _ _ Hst) Hnd Hd
    ltac:(lia)) as (ix & k' & Eo & Es & _ & _ & Hr).
  exists s, k, ix, k'. split; [exact Hst|]. split; [exact Eo|]. split; [exact Es|apply Hr].
Defined.

Lemma occupied_pages_complete_witness :
  ∃ s k res entries, kt_put (kt_started s) = (k, res) ∧
    follow_pages kt_config (S (length (ix_occupied (ks_index k) 3))) k (Some 1) None = Some entries.
Proof.
  destruct kt_written as (s & k & res & _ & E & Hi & _).
  destruct (occupied_pages_complete kt_config cm_sb k (Some 1) (S (length (ix_occupied (ks_index k) 3))) Hi
    (Nat.lt_succ_diag_r _)) as (entries & Ef & _).
  exists s, k, res, entries. split; [exact E|exact Ef].
Defined.


Lemma kt_announced kind n total :
  forallb visible_ascii kind = true → is_u64 n → is_u64 total →
  ∃ headers : gmap (list byte) (list byte), announced kind n total headers.
Proof.
  intros Hk Hn Ht. destruct (packed_headers_read_back (∅ : gmap (list byte) (list byte)) kind n total Hk Hn Ht)
    as (headers & E & _). exists headers, ∅. exact E.
Qed.




Lemma kt_pack_wf : packed_wf WRITE_ENTRY_BYTES we_payload write_entry_wf [kt_entry].
Proof. split_and!; [done| |by vm_compute|by vm_compute]. constructor; [|constructor]. by vm_compute. Qed.

Definition kt_body : list byte := Kp2.packed_bytes WRITE_ENTRY_BYTES encode_write_entry we_payload MAGIC_WRITE [kt_entry].

Lemma kt_body_eq : encode_write_request [kt_entry] = Ok kt_body.
Proof. exact (encode_write_request_eq [kt_entry] kt_pack_wf). Qed.

Lemma kt_small : is_u16 (mc_drive_id kt_config) ∧ len [kt_entry] * ACK_ENTRY_BYTES < 2 ^ 32.
Proof. by vm_compute. Qed.

Lemma kt_messages_fit : messages_fit kt_message 1.
Proof. intros status c. by vm_compute. Qed.

Lemma kp2_write_answers_witness :
  ∃ s (headers : gmap (list byte) (list byte)) body k status out replies entries',
    encode_write_request [kt_entry] = Ok body ∧
    handle_kp2_write kt_config cm_sb kt_message headers body (Ok tt) (kt_started s) =
      (k, Ok (mkResponse status None (Kp2Body out))) ∧
    decode_write_reply out = Ok replies ∧ Forall2 (resolved cm_sb) [kt_entry] entries' ∧
    Forall2 (entry_seen kt_config cm_sb kt_message (kt_started s) k) entries' replies ∧ length replies = 1%nat.
Proof.
  destruct kt_inv as [s Hi]. destruct (kt_announced KIND_WRITE 1 3) as [headers Ha]; [reflexivity|by vm_compute|by vm_compute|].
  destruct (handle_kp2_write kt_config cm_sb kt_message headers kt_body (Ok tt) (kt_started s)) as [k res] eqn:E.
  destruct kt_small as [Hd Hsz].
  destruct (kp2_write_answers kt_config cm_sb kt_message (kt_started s) [kt_entry] headers kt_body (Ok tt) k res Hi
    Hd kt_pack_wf Hsz kt_messages_fit kt_entry_nodup (kt_entry_stays s) kt_body_eq Ha E) as (_ & _ & Hr).
  destruct res as [[status [loc|] body]|[status|]]; [done| |destruct Hr as [Hr _]; by apply kt_not_refused in Hr|done].
  destruct body as [|?|? ?|? ?|out]; try done. destruct Hr as (es & replies & H1 & H2 & H3 & _).
  exists s, headers, kt_body, k, status, out, replies, es. split; [exact kt_body_eq|]. split; [exact E|]. split; [exact H1|].
  split; [exact H2|]. split; [exact H3|]. by rewrite <-(Forall2_length _ _ _ H3), <-(Forall2_length _ _ _ H2).
Defined.
