(* ===== verification/Fdb.v ===== *)
(** FoundationDB as the metadata services use it: an ordered map from byte strings to byte
    strings, changed by strictly serializable transactions.

    The database is a service outside the repository. It enters as the class [Fdb] with the
    laws its documentation states ([FdbLaws]); a transaction is a computation on the map
    that reads its own writes, and [run] drops its writes when it fails. *)
From stdpp Require Import sorting.
From S2P Require Import Prelude Bytes.

(** [tonic::Status]: the code; the message is dropped. *)
Inductive Status : Set :=
| InvalidArgument_
| NotFound_
| AlreadyExists_
| FailedPrecondition_
| ResourceExhausted_
| Unavailable_
| Aborted_
| Cancelled_
| Internal_.

Global Instance Status_eq_dec : EqDecision Status.
Proof. solve_decision. Defined.

(** ** The order on keys *)

Fixpoint bytes_ltb (a b : list byte) : bool :=
  match a, b with
  | _, [] => false
  | [], _ :: _ => true
  | x :: a', y :: b' =>
      if byte_to_Z x <? byte_to_Z y then true
      else if byte_to_Z y <? byte_to_Z x then false
      else bytes_ltb a' b'
  end.

(** A key lies in the half-open range. *)
Definition in_range (b e k : list byte) : bool := negb (bytes_ltb k b) && bytes_ltb k e.

(** ** The database *)

Class Fdb (KV : Type) := {
  kv_get : list byte → KV → option (list byte);
  kv_set : list byte → list byte → KV → KV;
  kv_clear : list byte → KV → KV;
  kv_clear_range : list byte → list byte → KV → KV;
  kv_range : list byte → list byte → KV → list (list byte * list byte);
}.

Class FdbLaws (KV : Type) `{Fdb KV} := {
  kv_get_set : ∀ k v k' m, kv_get k' (kv_set k v m) = if decide (k' = k) then Some v else kv_get k' m;
  kv_get_clear : ∀ k k' m, kv_get k' (kv_clear k m) = if decide (k' = k) then None else kv_get k' m;
  kv_get_clear_range : ∀ b e k m,
    kv_get k (kv_clear_range b e m) = if in_range b e k then None else kv_get k m;
  kv_range_sorted : ∀ b e m, StronglySorted (fun x y => bytes_ltb x.1 y.1 = true) (kv_range b e m);
  kv_range_elem : ∀ b e m k v, (k, v) ∈ kv_range b e m ↔ in_range b e k = true ∧ kv_get k m = Some v;
}.

(** [RangeOption.limit]: zero is no limit. *)
Definition kv_range_limit `{Fdb KV} (b e : list byte) (limit : Z) (m : KV) : list (list byte * list byte) :=
  if limit =? 0 then kv_range b e m else take (Z.to_nat limit) (kv_range b e m).

(** [Database::run]: the writes of a transaction
    that returns an error are dropped. *)
Definition run {KV A : Type} (t : M KV Status A) : M KV Status A := fun m =>
  match t m with
  | (m', Ok a) => (m', Ok a)
  | (_, Err e) => (m, Err e)
  end.

Section txn.
Context `{Fdb KV}.

Definition trx_get (k : list byte) : M KV Status (option (list byte)) := fun m => (m, Ok (kv_get k m)).
Definition trx_set (k v : list byte) : M KV Status unit := fun m => (kv_set k v m, Ok tt).
Definition trx_clear (k : list byte) : M KV Status unit := fun m => (kv_clear k m, Ok tt).
Definition trx_clear_range (r : list byte * list byte) : M KV Status unit :=
  fun m => (kv_clear_range r.1 r.2 m, Ok tt).
Definition trx_range (r : list byte * list byte) : M KV Status (list (list byte * list byte)) :=
  fun m => (m, Ok (kv_range r.1 r.2 m)).
Definition trx_range_limit (r : list byte * list byte) (limit : Z) :
    M KV Status (list (list byte * list byte)) :=
  fun m => (m, Ok (kv_range_limit r.1 r.2 limit m)).

(** Writes for every element of a list, in order. *)
Fixpoint trx_each {A} (f : A → M KV Status unit) (l : list A) : M KV Status unit :=
  match l with
  | [] => mret tt
  | x :: l' => _ ← f x; trx_each f l'
  end.
End txn.

(** ** Running a transaction step by step *)

Section run_steps.
Context `{Fdb KV} {B : Type}.

Lemma trx_get_bind k (f : option (list byte) → M KV Status B) m : (trx_get k ≫= f) m = f (kv_get k m) m.
Proof. done. Qed.
Lemma trx_set_bind k v (f : unit → M KV Status B) m : (trx_set k v ≫= f) m = f tt (kv_set k v m).
Proof. done. Qed.
Lemma trx_clear_bind k (f : unit → M KV Status B) m : (trx_clear k ≫= f) m = f tt (kv_clear k m).
Proof. done. Qed.
Lemma trx_clear_range_bind r (f : unit → M KV Status B) m :
  (trx_clear_range r ≫= f) m = f tt (kv_clear_range r.1 r.2 m).
Proof. done. Qed.
Lemma trx_range_bind r (f : list (list byte * list byte) → M KV Status B) m :
  (trx_range r ≫= f) m = f (kv_range r.1 r.2 m) m.
Proof. done. Qed.
Lemma trx_range_limit_bind r n (f : list (list byte * list byte) → M KV Status B) m :
  (trx_range_limit r n ≫= f) m = f (kv_range_limit r.1 r.2 n m) m.
Proof. done. Qed.
Lemma lift_Ok_bind {A} (a : A) (f : A → M KV Status B) m : (lift (Ok a) ≫= f) m = f a m.
Proof. done. Qed.
Lemma lift_Err_bind {A} (e : Status) (f : A → M KV Status B) m : (lift (Err e) ≫= f) m = (m, Err e).
Proof. done. Qed.
Lemma mret_bind {A} (a : A) (f : A → M KV Status B) m : (mret a ≫= f) m = f a m.
Proof. done. Qed.
End run_steps.

Lemma run_Ok {KV A : Type} (t : M KV Status A) m m' a : run t m = (m', Ok a) ↔ t m = (m', Ok a).
Proof. unfold run. destruct (t m) as [m1 [b|e]]; split; congruence. Qed.

Lemma run_Err {KV A : Type} (t : M KV Status A) m m' e : run t m = (m', Err e) → m' = m.
Proof. unfold run. destruct (t m) as [m1 [b|e']]; congruence. Qed.

Create Rewrite HintDb trx.
#[export] Hint Rewrite @trx_get_bind @trx_set_bind @trx_clear_bind @trx_clear_range_bind @trx_range_bind
  @trx_range_limit_bind @lift_Ok_bind @lift_Err_bind @mret_bind : trx.

(** ** Facts about the order *)

Lemma bytes_ltb_irrefl a : bytes_ltb a a = false.
Proof. induction a as [|x a IH]; [done|]. cbn. by rewrite Z.ltb_irrefl. Qed.

Lemma byte_to_Z_inj x y : byte_to_Z x = byte_to_Z y → x = y.
Proof. intros E. rewrite <-(byte_of_to_Z x), <-(byte_of_to_Z y). by f_equal. Qed.

Lemma bytes_ltb_trans a b c : bytes_ltb a b = true → bytes_ltb b c = true → bytes_ltb a c = true.
Proof.
  revert b c. induction a as [|x a IH]; intros [|y b] [|z c]; cbn; try done.
  destruct (Z.ltb_spec (byte_to_Z x) (byte_to_Z y)), (Z.ltb_spec (byte_to_Z y) (byte_to_Z z)),
    (Z.ltb_spec (byte_to_Z x) (byte_to_Z z)); try done; try lia;
  destruct (Z.ltb_spec (byte_to_Z y) (byte_to_Z x)), (Z.ltb_spec (byte_to_Z z) (byte_to_Z y)),
    (Z.ltb_spec (byte_to_Z z) (byte_to_Z x)); try done; try lia. apply IH.
Qed.

Lemma bytes_ltb_total a b : a ≠ b → bytes_ltb a b = true ∨ bytes_ltb b a = true.
Proof.
  revert b. induction a as [|x a IH]; intros [|y b] Hne; cbn; try done; auto.
  destruct (Z.ltb_spec (byte_to_Z x) (byte_to_Z y)), (Z.ltb_spec (byte_to_Z y) (byte_to_Z x)); auto.
  apply IH. intros ->. apply Hne. f_equal. apply byte_to_Z_inj. lia.
Qed.

Lemma bytes_ltb_asym a b : bytes_ltb a b = true → bytes_ltb b a = false.
Proof.
  intros Hab. destruct (bytes_ltb b a) eqn:Hba; [|done].
  pose proof (bytes_ltb_trans a b a Hab Hba) as E. by rewrite bytes_ltb_irrefl in E.
Qed.

(** ** Loops of writes *)

Section writes.
Context `{FdbLaws KV}.

Definition kv_put_all (l : list (list byte * list byte)) (m : KV) : KV :=
  foldl (fun m kv => kv_set kv.1 kv.2 m) m l.

Lemma trx_each_app {A} (f : A → M KV Status unit) l1 l2 m :
  trx_each f (l1 ++ l2) m = (_ ← trx_each f l1; trx_each f l2) m.
Proof.
  revert m. induction l1 as [|x l1 IH]; intros m; [done|]. cbn. unfold mbind, M_mbind.
  destruct (f x m) as [m1 [u|e]]; [|done]. rewrite IH. done.
Qed.

Lemma trx_each_ext {A} (f g : A → M KV Status unit) l m :
  (∀ x m, f x m = g x m) → trx_each f l m = trx_each g l m.
Proof.
  intros Hfg. revert m. induction l as [|x l IH]; intros m; [done|]. cbn. unfold mbind, M_mbind.
  rewrite Hfg. destruct (g x m) as [m1 [u|e]]; [apply IH|done].
Qed.

Lemma trx_each_set {A} (k v : A → list byte) l m :
  trx_each (fun x => trx_set (k x) (v x)) l m = (kv_put_all ((fun x => (k x, v x)) <$> l) m, Ok tt).
Proof. revert m. induction l as [|x l IH]; intros m; [done|]. exact (IH (kv_set (k x) (v x) m)). Qed.

Lemma kv_put_all_other l q m : q ∉ l.*1 → kv_get q (kv_put_all l m) = kv_get q m.
Proof.
  unfold kv_put_all. revert m. induction l as [|[k v] l IH]; intros m Hq; [done|]. cbn in *.
  apply not_elem_of_cons in Hq as [Hk Hq]. rewrite IH by done. rewrite kv_get_set. by rewrite decide_False.
Qed.

Lemma kv_put_all_get l q m :
  q ∈ l.*1 → ∃ v, (q, v) ∈ l ∧ kv_get q (kv_put_all l m) = Some v.
Proof.
  revert m. induction l as [|[k v] l IH]; intros m Hq; [by apply not_elem_of_nil in Hq|].
  destruct (decide (q ∈ l.*1)) as [Hin|Hnin].
  - destruct (IH (kv_set k v m) Hin) as (w & Hw & E). exists w. split; [by right|exact E].
  - cbn in Hq. apply elem_of_cons in Hq as [->|?]; [|done]. exists v. split; [by left|].
    change (kv_get k (kv_put_all l (kv_set k v m)) = Some v). rewrite kv_put_all_other by done.
    rewrite kv_get_set. by rewrite decide_True.
Qed.

Lemma kv_put_all_lookup l k v m : NoDup l.*1 → (k, v) ∈ l → kv_get k (kv_put_all l m) = Some v.
Proof.
  revert m. induction l as [|[k' v'] l IH]; intros m Hnd Hin; [by apply not_elem_of_nil in Hin|].
  cbn in Hnd. apply NoDup_cons in Hnd as [Hk Hnd]. apply elem_of_cons in Hin as [[= -> ->]|Hin].
  - change (kv_get k' (kv_put_all l (kv_set k' v' m)) = Some v'). rewrite kv_put_all_other by done.
    rewrite kv_get_set. by rewrite decide_True.
  - by apply (IH (kv_set k' v' m)).
Qed.
End writes.
