(* ===== verification/KmsKeys.v ===== *)
(** The KMS keyspace (poc/kms/src/fdb_schema.rs) and the shared committed-occupancy
    keyspace (poc/keinctl/src/committed_occupancy.rs): how rows are named in FoundationDB.

    Strings are their UTF-8 bytes. A segment longer than [u32::MAX] bytes makes
    [push_segment] panic; the lemmas assume shorter ones ([seg_ok]). *)
From S2P Require Import Prelude Bytes Fdb.

(** ** Hexadecimal text *)

Definition hex_digit (d : Z) : byte := if d <? 10 then byte_of_Z (48 + d) else byte_of_Z (87 + d).

(** [format!("{z:0nx}")] for a value of at most [n] digits. *)
Fixpoint hex_fixed (n : nat) (z : Z) : list byte :=
  match n with
  | O => []
  | S n' => hex_fixed n' (z / 16) ++ [hex_digit (z mod 16)]
  end.

Definition parse_hex_digit (b : byte) : option Z :=
  let z := byte_to_Z b in
  if (48 <=? z) && (z <=? 57) then Some (z - 48)
  else if (97 <=? z) && (z <=? 102) then Some (z - 87)
  else if (65 <=? z) && (z <=? 70) then Some (z - 55)
  else None.

Fixpoint parse_hex_digits (w acc : Z) (l : list byte) : option Z :=
  match l with
  | [] => Some acc
  | b :: l' =>
      d ← parse_hex_digit b;
      acc16 ← checked_mul w acc 16;
      acc' ← checked_add w acc16 d;
      parse_hex_digits w acc' l'
  end.

(** [u32::from_str_radix(s, 16)] *)
Definition from_str_radix_16 (w : Z) (l : list byte) : option Z :=
  match l with
  | [] => None
  | b :: l' =>
      if bool_decide (b = "+"%byte)
      then (if bool_decide (l' = []) then None else parse_hex_digits w 0 l')
      else parse_hex_digits w 0 l
  end.

(** ** Keys as segments *)

Definition KEYSPACE_VERSION : byte := x01.
Definition PREFIX_BUCKET_CONTEXT : byte := x01.
Definition PREFIX_WRITE_INTENT : byte := x02.
Definition PREFIX_OBJECT_HEAD : byte := x03.
Definition PREFIX_OBJECT_VERSION : byte := x04.
Definition PREFIX_WRITE_INTENT_CHUNK : byte := x05.
Definition PREFIX_OBJECT_VERSION_CHUNK : byte := x06.
Definition PREFIX_NAMESPACE : byte := x07.
Definition PREFIX_NAMESPACE_ENTRY : byte := x08.
Definition PREFIX_EC_PROFILE : byte := x09.
Definition PREFIX_BUCKET_RECORD : byte := x0a.
Definition PREFIX_PLACEMENT_TASK : byte := x0b.
Definition PREFIX_TARGET_CURRENT_FRAGMENT : byte := x0c.
Definition PREFIX_MAINTENANCE_MARKER : byte := x0d.
Definition PREFIX_NAMESPACE_PATH : byte := x0e.
Definition PREFIX_OBJECT_ID_COUNTER : byte := x0f.
Definition PREFIX_TARGET_REVERSE_LOG : byte := x10.
Definition PREFIX_OBJECT_LEASE : byte := x11.
Definition PREFIX_CLUSTER_CONFIG : byte := x12.
Definition PREFIX_TARGET_INVENTORY : byte := x13.
Definition PREFIX_PENDING_VERSION : byte := x14.
Definition PREFIX_VERSION_RECLAIM_FENCE : byte := x15.

Definition push_segment (value : list byte) : list byte := be_bytes 4 (len value) ++ value.

Definition encode_key (prefix : byte) (segments : list (list byte)) : list byte :=
  KEYSPACE_VERSION :: prefix :: concat (push_segment <$> segments).

(** One pass of the loop of [decode_segments] reads one segment off [rest]. *)
Fixpoint decode_loop (fuel : nat) (rest : list byte) : io_result (list (list byte)) :=
  match rest, fuel with
  | [], _ => Ok []
  | _, O => Err InvalidData
  | _, S fuel' =>
      length_bytes ← ok_or (slice 0 4 rest) InvalidData;
      segment ← ok_or (slice 4 (of_be length_bytes) rest) InvalidData;
      if utf8_valid segment then
        segments ← decode_loop fuel' (drop (Z.to_nat (4 + of_be length_bytes)) rest);
        Ok (segment :: segments)
      else Err InvalidData
  end.

Definition decode_segments (encoded : list byte) : io_result (byte * list (list byte)) :=
  match encoded with
  | version :: prefix :: rest =>
      if bool_decide (version = KEYSPACE_VERSION)
      then segments ← decode_loop (length rest) rest; Ok (prefix, segments)
      else Err InvalidData
  | _ => Err InvalidData
  end.

(** The last byte below [0xff] is incremented and the rest cut off. *)
Fixpoint bump_last (reversed : list byte) : option (list byte) :=
  match reversed with
  | [] => None
  | b :: reversed' =>
      if bool_decide (b = xff) then bump_last reversed' else Some (byte_of_Z (byte_to_Z b + 1) :: reversed')
  end.

Definition prefix_end (prefix : list byte) : list byte :=
  match bump_last (reverse prefix) with
  | Some bumped => reverse bumped
  | None => prefix ++ [x00]
  end.

Definition prefix_range (prefix : list byte) : list byte * list byte := (prefix, prefix_end prefix).

(** ** The keys *)

Definition hex8 (z : Z) : list byte := hex_fixed 8 z.

Definition bucket_context_key (bucket_id : list byte) : list byte := encode_key PREFIX_BUCKET_CONTEXT [bucket_id].
Definition object_id_counter_key : list byte := encode_key PREFIX_OBJECT_ID_COUNTER [bstr "object-id"].
Definition object_lease_key (object_id : Z) : list byte := encode_key PREFIX_OBJECT_LEASE [hex8 object_id].
Definition object_lease_range : list byte * list byte := prefix_range (encode_key PREFIX_OBJECT_LEASE []).
Definition target_inventory_key (target_id : list byte) : list byte :=
  encode_key PREFIX_TARGET_INVENTORY [target_id].
Definition target_inventory_range : list byte * list byte := prefix_range (encode_key PREFIX_TARGET_INVENTORY []).
Definition cluster_salt_key : list byte := encode_key PREFIX_CLUSTER_CONFIG [bstr "chunk-id-salt"].
Definition write_intent_key (intent_id : list byte) : list byte := encode_key PREFIX_WRITE_INTENT [intent_id].
Definition write_intent_range : list byte * list byte :=
  ([KEYSPACE_VERSION; PREFIX_WRITE_INTENT], [KEYSPACE_VERSION; byte_of_Z (byte_to_Z PREFIX_WRITE_INTENT + 1)]).
Definition write_intent_chunk_prefix (intent_id : list byte) : list byte :=
  encode_key PREFIX_WRITE_INTENT_CHUNK [intent_id].
Definition write_intent_chunk_key (intent_id : list byte) (chunk_index : Z) : list byte :=
  encode_key PREFIX_WRITE_INTENT_CHUNK [intent_id; hex8 chunk_index].
Definition object_head_key (bucket_id key_path : list byte) : list byte :=
  encode_key PREFIX_OBJECT_HEAD [bucket_id; key_path].
Definition object_version_key (version_id : list byte) : list byte :=
  encode_key PREFIX_OBJECT_VERSION [version_id].
Definition object_version_chunk_prefix (version_id : list byte) : list byte :=
  encode_key PREFIX_OBJECT_VERSION_CHUNK [version_id].
Definition object_version_chunk_key (version_id : list byte) (chunk_index : Z) : list byte :=
  encode_key PREFIX_OBJECT_VERSION_CHUNK [version_id; hex8 chunk_index].
Definition object_head_prefix (bucket_id : list byte) : list byte := encode_key PREFIX_OBJECT_HEAD [bucket_id].
Definition namespace_key (namespace_id : list byte) : list byte := encode_key PREFIX_NAMESPACE [namespace_id].
Definition namespace_entry_key (namespace_id entry_id : list byte) : list byte :=
  encode_key PREFIX_NAMESPACE_ENTRY [namespace_id; entry_id].
Definition namespace_entry_prefix (namespace_id : list byte) : list byte :=
  encode_key PREFIX_NAMESPACE_ENTRY [namespace_id].
Definition namespace_path_key (namespace_id path : list byte) : list byte :=
  encode_key PREFIX_NAMESPACE_PATH [namespace_id; path].
Definition ec_profile_key (profile_id : list byte) : list byte := encode_key PREFIX_EC_PROFILE [profile_id].
Definition ec_profile_range : list byte * list byte :=
  ([KEYSPACE_VERSION; PREFIX_EC_PROFILE], [KEYSPACE_VERSION; byte_of_Z (byte_to_Z PREFIX_EC_PROFILE + 1)]).
Definition bucket_record_key (bucket_id : list byte) : list byte := encode_key PREFIX_BUCKET_RECORD [bucket_id].
Definition object_head_range : list byte * list byte :=
  ([KEYSPACE_VERSION; PREFIX_OBJECT_HEAD], [KEYSPACE_VERSION; byte_of_Z (byte_to_Z PREFIX_OBJECT_HEAD + 1)]).
Definition placement_task_key (task_id : list byte) : list byte := encode_key PREFIX_PLACEMENT_TASK [task_id].
Definition placement_task_range : list byte * list byte :=
  ([KEYSPACE_VERSION; PREFIX_PLACEMENT_TASK], [KEYSPACE_VERSION; byte_of_Z (byte_to_Z PREFIX_PLACEMENT_TASK + 1)]).
Definition target_current_fragment_key (target_id version_id : list byte) (stripe_index fragment_index : Z) : list byte :=
  encode_key PREFIX_TARGET_CURRENT_FRAGMENT [target_id; version_id; hex8 stripe_index; hex8 fragment_index].
Definition target_current_fragment_prefix (target_id : list byte) : list byte :=
  encode_key PREFIX_TARGET_CURRENT_FRAGMENT [target_id].
Definition target_current_fragment_range (target_id : list byte) : list byte * list byte :=
  prefix_range (target_current_fragment_prefix target_id).
Definition target_reverse_log_key (target_id version_id : list byte) (stripe_index fragment_index : Z) : list byte :=
  encode_key PREFIX_TARGET_REVERSE_LOG [target_id; version_id; hex8 stripe_index; hex8 fragment_index].
Definition target_reverse_log_prefix (target_id : list byte) : list byte :=
  encode_key PREFIX_TARGET_REVERSE_LOG [target_id].
Definition target_reverse_log_range (target_id : list byte) : list byte * list byte :=
  prefix_range (target_reverse_log_prefix target_id).
Definition maintenance_marker_key (marker_id : list byte) : list byte :=
  encode_key PREFIX_MAINTENANCE_MARKER [marker_id].
Definition target_reverse_log_version_range (target_id version_id : list byte) : list byte * list byte :=
  prefix_range (encode_key PREFIX_TARGET_REVERSE_LOG [target_id; version_id]).
Definition target_current_fragment_version_range (target_id version_id : list byte) : list byte * list byte :=
  prefix_range (encode_key PREFIX_TARGET_CURRENT_FRAGMENT [target_id; version_id]).
Definition target_reverse_log_scan_range : list byte * list byte :=
  prefix_range (encode_key PREFIX_TARGET_REVERSE_LOG []).

(** The occupancy row beside a reverse-log row: the second byte is rewritten. *)
Definition occupancy_key_for_reverse_log_key (rl_key : list byte) : list byte :=
  <[1%nat := PREFIX_TARGET_CURRENT_FRAGMENT]> rl_key.

(** FNV-1a over the formatted object id; its low byte, in hex, is the shard. *)
Definition FNV_OFFSET_BASIS : Z := 0xcbf29ce484222325.
Definition FNV_PRIME : Z := 0x100000001b3.

Definition pending_version_shard (object_id : Z) : list byte :=
  let hash := foldl (fun hash b => wrap 64 (Z.lxor hash (byte_to_Z b) * FNV_PRIME)) FNV_OFFSET_BASIS (hex8 object_id) in
  hex_fixed 2 (Z.land hash 0xff).

Definition pending_version_key (object_id object_version : Z) : list byte :=
  encode_key PREFIX_PENDING_VERSION [pending_version_shard object_id; hex8 object_id; hex8 object_version].
Definition pending_version_target_key (object_id object_version : Z) (target_id : list byte) : list byte :=
  pending_version_key object_id object_version ++ push_segment target_id.
Definition pending_version_subspace_range (object_id object_version : Z) : list byte * list byte :=
  prefix_range (pending_version_key object_id object_version).
Definition pending_version_object_range (object_id : Z) : list byte * list byte :=
  prefix_range (encode_key PREFIX_PENDING_VERSION [pending_version_shard object_id; hex8 object_id]).
Definition pending_version_scan_range : list byte * list byte := prefix_range (encode_key PREFIX_PENDING_VERSION []).
Definition version_reclaim_fence_key (object_id object_version : Z) : list byte :=
  encode_key PREFIX_VERSION_RECLAIM_FENCE [pending_version_shard object_id; hex8 object_id; hex8 object_version].
Definition version_reclaim_fence_scan_range : list byte * list byte :=
  prefix_range (encode_key PREFIX_VERSION_RECLAIM_FENCE []).

Definition decode_reverse_log_key_version_id (key : list byte) : io_result (list byte) :=
  '(prefix, segments) ← decode_segments key;
  if negb (bool_decide (prefix = PREFIX_TARGET_REVERSE_LOG)) then Err InvalidData
  else match segments with [_; version_id; _; _] => Ok version_id | _ => Err InvalidData end.

Definition decode_version_reclaim_fence_key_parts (key : list byte) : io_result (Z * Z) :=
  '(prefix, segments) ← decode_segments key;
  if negb (bool_decide (prefix = PREFIX_VERSION_RECLAIM_FENCE)) then Err InvalidData
  else
    match segments with
    | [_; id; version] =>
        object_id ← ok_or (from_str_radix_16 32 id) InvalidData;
        object_version ← ok_or (from_str_radix_16 32 version) InvalidData;
        Ok (object_id, object_version)
    | _ => Err InvalidData
    end.

(** A marker has three segments, a presence row the target as a fourth. *)
Definition decode_pending_version_key_parts (key : list byte) : io_result (Z * Z * option (list byte)) :=
  '(prefix, segments) ← decode_segments key;
  if negb (bool_decide (prefix = PREFIX_PENDING_VERSION)) then Err InvalidData
  else
    '(shard, id, version, target) ←
      match segments with
      | [shard; id; version] => Ok (shard, id, version, None)
      | [shard; id; version; target] => Ok (shard, id, version, Some target)
      | _ => Err InvalidData
      end;
    object_id ← ok_or (from_str_radix_16 32 id) InvalidData;
    object_version ← ok_or (from_str_radix_16 32 version) InvalidData;
    if negb (bool_decide (shard = pending_version_shard object_id)) then Err InvalidData
    else Ok (object_id, object_version, target).

(** ** Committed occupancy *)

Definition KCO_NAMESPACE : list byte := bstr "KCO1".
Definition KCO_VERSION : byte := x01.

Definition committed_granule_target_prefix (target_id : list byte) : list byte :=
  KCO_NAMESPACE ++ [KCO_VERSION] ++ be_bytes 4 (len target_id) ++ target_id.

Definition committed_granule_all_prefix : list byte := KCO_NAMESPACE ++ [KCO_VERSION].

Definition prefix_range_end (prefix : list byte) : list byte :=
  match bump_last (reverse prefix) with
  | Some bumped => reverse bumped
  | None => prefix ++ [x00]
  end.

Definition committed_granule_key (target_id : list byte) (granule_index : Z) : list byte :=
  committed_granule_target_prefix target_id ++ be_bytes 8 granule_index.

Definition decode_committed_granule_key (key : list byte) : option (list byte * Z) :=
  if len key <? 9 then None
  else if negb (bool_decide (slice 0 4 key = Some KCO_NAMESPACE)) || negb (bool_decide (get_byte 4 key = Some KCO_VERSION))
  then None
  else
    id_len ← of_be <$> slice 5 4 key;
    if negb (len key =? 9 + id_len + 8) then None
    else
      target_id ← slice 9 id_len key;
      if utf8_valid target_id then
        granule_index ← of_be <$> slice (9 + id_len) 8 key;
        Some (target_id, granule_index)
      else None.

Record CommittedGranule := mkCommittedGranule {
  cg_version_id : list byte;
  cg_generation : Z;
}.

Definition encode_committed_granule (g : CommittedGranule) : list byte :=
  be_bytes 4 (cg_generation g) ++ cg_version_id g.

Definition decode_committed_granule (value : list byte) : option CommittedGranule :=
  if len value <? 4 then None
  else
    generation ← of_be <$> slice 0 4 value;
    let version_id := drop 4 value in
    if utf8_valid version_id then Some (mkCommittedGranule version_id generation) else None.

(** ** Segments *)

Definition seg_ok (v : list byte) : Prop := len v < 2 ^ 32.

Lemma seg_ok_fits v : seg_ok v → fits (8 * Z.of_nat 4) (len v).
Proof. unfold seg_ok, fits. change (8 * Z.of_nat 4) with 32. lia. Qed.

Lemma len_push_segment v : len (push_segment v) = 4 + len v.
Proof. unfold push_segment. rewrite length_app, length_be_bytes. lia. Qed.

Lemma push_segment_app_inj v w r r' :
  seg_ok v → seg_ok w → push_segment v ++ r = push_segment w ++ r' → v = w ∧ r = r'.
Proof.
  intros Hv%seg_ok_fits Hw%seg_ok_fits. unfold push_segment. rewrite <-!(assoc_L (++)). intros H.
  apply app_inj_1 in H as [Hl H]; [|by rewrite !length_be_bytes].
  apply (f_equal of_be) in Hl. rewrite !of_be_small in Hl by done.
  apply app_inj_1 in H as [-> ->]; [done|lia].
Qed.

Lemma segments_prefix segs segs' :
  Forall seg_ok segs → Forall seg_ok segs' →
  concat (push_segment <$> segs) `prefix_of` concat (push_segment <$> segs') ↔ segs `prefix_of` segs'.
Proof.
  intros Hs. revert segs'. induction Hs as [|v segs Hv _ IH]; intros segs' Hs'.
  { split; intros _; apply prefix_nil. }
  destruct Hs' as [|w segs' Hw Hs'].
  - split; intros [k Hk]; [|done]. apply (f_equal length) in Hk.
    cbn [fmap list_fmap concat] in Hk. rewrite !length_app in Hk. pose proof (len_push_segment v). cbn in Hk. lia.
  - cbn. split.
    + intros [k Hk]. rewrite <-(assoc_L (++)) in Hk. symmetry in Hk.
      apply push_segment_app_inj in Hk as [-> Hk]; [|done..].
      apply prefix_cons, IH; [done|]. by exists k.
    + intros Hp. pose proof (prefix_cons_inv_1 _ _ _ _ Hp) as ->. apply prefix_cons_inv_2 in Hp.
      by apply prefix_app, IH.
Qed.

(** A key extends another exactly when it has the same keyspace and its segments extend
    the other's segments: segments never run into one another. *)
Lemma encode_key_prefix p segs q segs' :
  Forall seg_ok segs → Forall seg_ok segs' →
  encode_key p segs `prefix_of` encode_key q segs' ↔ p = q ∧ segs `prefix_of` segs'.
Proof.
  intros Hs Hs'. unfold encode_key. split.
  - intros Hp%prefix_cons_inv_2. pose proof (prefix_cons_inv_1 _ _ _ _ Hp) as ->.
    apply prefix_cons_inv_2 in Hp. split; [done|]. by apply segments_prefix.
  - intros [-> Hp]. by apply prefix_cons, prefix_cons, segments_prefix.
Qed.

Lemma encode_key_inj p segs q segs' :
  Forall seg_ok segs → Forall seg_ok segs' → encode_key p segs = encode_key q segs' → p = q ∧ segs = segs'.
Proof.
  intros Hs Hs' E.
  destruct (proj1 (encode_key_prefix p segs q segs' Hs Hs') ltac:(by rewrite E)) as [-> H1].
  destruct (proj1 (encode_key_prefix q segs' q segs Hs' Hs) ltac:(by rewrite E)) as [_ H2].
  split; [done|]. by apply (anti_symm prefix).
Qed.

Lemma slice_push_length v r : slice 0 4 (push_segment v ++ r) = Some (be_bytes 4 (len v)).
Proof. unfold push_segment. rewrite <-(assoc_L (++)). apply slice_0_app. by rewrite length_be_bytes. Qed.

Lemma slice_push_value v r : slice 4 (len v) (push_segment v ++ r) = Some v.
Proof.
  unfold push_segment. rewrite <-(assoc_L (++)). pose proof (length_be_bytes 4 (len v)) as Hb.
  rewrite slice_mid by lia. rewrite Hb. by apply slice_full.
Qed.

Lemma decode_loop_push fuel v r :
  seg_ok v → utf8_valid v = true →
  decode_loop (S fuel) (push_segment v ++ r) = (segments ← decode_loop fuel r; Ok (v :: segments)).
Proof.
  intros Hv Hu. pose proof (len_push_segment v) as Hl.
  transitivity (length_bytes ← ok_or (slice 0 4 (push_segment v ++ r)) InvalidData;
    segment ← ok_or (slice 4 (of_be length_bytes) (push_segment v ++ r)) InvalidData;
    if utf8_valid segment then
      segments ← decode_loop fuel (drop (Z.to_nat (4 + of_be length_bytes)) (push_segment v ++ r));
      Ok (segment :: segments)
    else Err InvalidData).
  { destruct (push_segment v) as [|b l]; [cbn in Hl; lia|done]. }
  rewrite slice_push_length. cbn [ok_or]. rewrite result_bind_eq, of_be_small by by apply seg_ok_fits.
  rewrite slice_push_value. cbn [ok_or]. rewrite result_bind_eq, Hu, drop_app_length' by lia. done.
Qed.

Lemma decode_loop_encode fuel segs :
  Forall (fun v => seg_ok v ∧ utf8_valid v = true) segs →
  (length (concat (push_segment <$> segs)) ≤ fuel)%nat →
  decode_loop fuel (concat (push_segment <$> segs)) = Ok segs.
Proof.
  intros Hs. revert fuel. induction Hs as [|v segs [Hv Hu] _ IH]; intros fuel Hf; [by destruct fuel|].
  cbn [fmap list_fmap concat] in *. pose proof (len_push_segment v) as Hl. rewrite length_app in Hf.
  destruct fuel as [|fuel]; [lia|]. rewrite decode_loop_push by done. rewrite IH by lia. done.
Qed.

Lemma decode_encode_key p segs :
  Forall (fun v => seg_ok v ∧ utf8_valid v = true) segs →
  decode_segments (encode_key p segs) = Ok (p, segs).
Proof.
  intros Hs. unfold decode_segments, encode_key. rewrite bool_decide_true by done.
  by rewrite decode_loop_encode.
Qed.

(** ** Ranges *)

Lemma byte_to_Z_ff b : byte_to_Z b = 255 ↔ b = xff.
Proof. split; [intros E; by apply byte_to_Z_inj|by intros ->]. Qed.

Lemma not_below_ff n k : bytes_ltb k (replicate n xff) = false ↔ replicate n xff `prefix_of` k.
Proof.
  revert k. induction n as [|n IH]; intros k; cbn [replicate].
  { split; [intros _; apply prefix_nil|by destruct k]. }
  destruct k as [|b k]; cbn [bytes_ltb]; [split; [done|by intros [? ?]]|].
  pose proof (byte_to_Z_range b) as Hb. change (byte_to_Z xff) with 255.
  destruct (Z.ltb_spec (byte_to_Z b) 255) as [Hlt|Hge].
  - split; [done|]. intros Hp%prefix_cons_inv_1. subst b. change (byte_to_Z xff) with 255 in Hlt. lia.
  - assert (b = xff) as -> by (apply byte_to_Z_ff; lia). cbn. rewrite IH. split; [apply prefix_cons|apply prefix_cons_inv_2].
Qed.

Lemma prefix_end_split p :
  Exists (.≠ xff) p →
  ∃ q c n, p = q ++ c :: replicate n xff ∧ c ≠ xff ∧ prefix_end p = q ++ [byte_of_Z (byte_to_Z c + 1)].
Proof.
  intros He. unfold prefix_end. induction p as [|c p IH] using rev_ind; [by inv He|].
  rewrite reverse_snoc. cbn [bump_last]. case_bool_decide as Hc.
  - subst c. destruct IH as (q & c & n & -> & Hc & E).
    { apply Exists_app in He as [He|He]; [done|]. apply Exists_cons in He as [?|He]; [done|by inv He]. }
    exists q, c, (S n). rewrite <-(assoc_L (++)), <-app_comm_cons, <-replicate_S_end. split_and!; [done..|].
    destruct (bump_last _) as [b|] eqn:Eb; [done|]. exfalso. apply (f_equal last) in E.
    rewrite !last_snoc in E. injection E as E. apply (f_equal byte_to_Z) in E. rewrite byte_to_of_Z in E.
    pose proof (byte_to_Z_range c). assert (byte_to_Z c ≠ 255) by by rewrite byte_to_Z_ff.
    rewrite Z.mod_small in E by lia. change (byte_to_Z x00) with 0 in E. lia.
  - exists p, c, 0%nat. cbn [replicate]. split_and!; [done..|]. by rewrite reverse_cons, reverse_involutive.
Qed.

(** The range from a prefix to its successor holds exactly the keys that start with it. *)
Lemma prefix_range_exact p k : Exists (.≠ xff) p → in_range p (prefix_end p) k = true ↔ p `prefix_of` k.
Proof.
  intros (q & c & n & -> & Hc & ->)%prefix_end_split. pose proof (byte_to_Z_range c) as Hr.
  assert (byte_to_Z c ≠ 255) as Hc' by by rewrite byte_to_Z_ff. unfold in_range.
  revert k. induction q as [|x q IH]; intros k.
  - cbn [app]. destruct k as [|y k]; cbn [bytes_ltb]; [split; [done|by intros [? ?]]|].
    rewrite byte_to_of_Z, Z.mod_small by lia.
    destruct (Z.ltb_spec (byte_to_Z y) (byte_to_Z c)); cbn [negb andb].
    { split; [done|]. intros ->%prefix_cons_inv_1. lia. }
    destruct (Z.ltb_spec (byte_to_Z c) (byte_to_Z y)); cbn [negb andb].
    + rewrite (proj2 (Z.ltb_ge (byte_to_Z y) (byte_to_Z c + 1))) by lia.
      split; [by destruct k; case_match|]. intros ->%prefix_cons_inv_1. lia.
    + assert (y = c) as -> by (apply byte_to_Z_inj; lia).
      rewrite (proj2 (Z.ltb_lt (byte_to_Z c) (byte_to_Z c + 1))) by lia. rewrite andb_true_r, negb_true_iff, not_below_ff.
      split; [apply prefix_cons|apply prefix_cons_inv_2].
  - cbn [app]. destruct k as [|y k]; cbn [bytes_ltb]; [split; [done|by intros [? ?]]|].
    destruct (Z.ltb_spec (byte_to_Z y) (byte_to_Z x)); cbn [negb andb].
    { split; [done|]. intros ->%prefix_cons_inv_1. lia. }
    destruct (Z.ltb_spec (byte_to_Z x) (byte_to_Z y)); cbn [negb andb].
    { split; [done|]. intros ->%prefix_cons_inv_1. lia. }
    assert (y = x) as -> by (apply byte_to_Z_inj; lia). rewrite IH.
    split; [apply prefix_cons|apply prefix_cons_inv_2].
Qed.

Lemma encode_key_range p segs k :
  in_range (encode_key p segs) (prefix_end (encode_key p segs)) k = true ↔ encode_key p segs `prefix_of` k.
Proof. apply prefix_range_exact. by left. Qed.

(** A scan or a range clear over the rows of some leading segments touches exactly the
    rows of that keyspace whose segments extend them: no row of another keyspace, and no row
    whose segment merely starts with the same bytes. *)
Theorem key_range_exact p segs q segs' :
  Forall seg_ok segs → Forall seg_ok segs' →
  in_range (prefix_range (encode_key p segs)).1 (prefix_range (encode_key p segs)).2 (encode_key q segs') = true ↔
  p = q ∧ segs `prefix_of` segs'.
Proof. intros Hs Hs'. cbn [prefix_range fst snd]. rewrite encode_key_range. by apply encode_key_prefix. Qed.

(** ** Hexadecimal text reads back *)

Lemma length_hex_fixed n z : length (hex_fixed n z) = n.
Proof. revert z. induction n as [|n IH]; intros z; cbn; [done|]. rewrite length_app, IH. cbn. lia. Qed.

Lemma parse_hex_digit_digit d : 0 ≤ d < 16 → parse_hex_digit (hex_digit d) = Some d.
Proof.
  intros Hd. assert (∃ n, d = Z.of_nat n ∧ (n < 16)%nat) as (n & -> & Hn) by (exists (Z.to_nat d); lia).
  do 16 (destruct n as [|n]; [done|]). lia.
Qed.

Lemma hex_digit_ascii d : 0 ≤ d < 16 → byte_in 0 127 (hex_digit d) = true.
Proof.
  intros Hd. assert (∃ n, d = Z.of_nat n ∧ (n < 16)%nat) as (n & -> & Hn) by (exists (Z.to_nat d); lia).
  do 16 (destruct n as [|n]; [done|]). lia.
Qed.

Lemma hex_fixed_ascii n z : Forall (fun b => byte_in 0 127 b = true) (hex_fixed n z).
Proof.
  revert z. induction n as [|n IH]; intros z; cbn; [done|]. apply Forall_app. split; [done|].
  constructor; [|done]. apply hex_digit_ascii, Z.mod_pos_bound. lia.
Qed.

Lemma ascii_utf8 l : Forall (fun b => byte_in 0 127 b = true) l → utf8_valid l = true.
Proof. induction 1 as [|b l Hb _ IH]; cbn [utf8_valid]; [done|]. by rewrite Hb. Qed.

Lemma parse_hex_digits_app w acc l1 l2 :
  parse_hex_digits w acc (l1 ++ l2) = (a ← parse_hex_digits w acc l1; parse_hex_digits w a l2).
Proof.
  revert acc. induction l1 as [|b l1 IH]; intros acc; cbn; [done|].
  destruct (parse_hex_digit b) as [d|]; cbn; [|done]. destruct (checked_mul _ _ _) as [m|]; cbn; [|done].
  destruct (checked_add _ _ _) as [a|]; cbn; [|done]. apply IH.
Qed.

Lemma parse_hex_fixed w n z :
  0 ≤ z < 16 ^ Z.of_nat n → z < 2 ^ w → parse_hex_digits w 0 (hex_fixed n z) = Some z.
Proof.
  revert z. induction n as [|n IH]; intros z Hz Hw.
  { cbn in Hz. assert (z = 0) as -> by lia. done. }
  cbn [hex_fixed]. rewrite Nat2Z.inj_succ, Z.pow_succ_r in Hz by lia.
  pose proof (Z.div_mod z 16 ltac:(lia)) as Hd. pose proof (Z.mod_pos_bound z 16 ltac:(lia)) as Hm.
  rewrite parse_hex_digits_app, IH; [| |lia].
  2: { split; [apply Z.div_pos; lia|]. apply Z.div_lt_upper_bound; lia. }
  cbn. rewrite parse_hex_digit_digit by lia. cbn. unfold checked_mul, checked_add.
  rewrite (proj2 (Z.ltb_lt (z / 16 * 16) _)) by lia. cbn.
  rewrite (proj2 (Z.ltb_lt (z / 16 * 16 + z mod 16) _)) by lia. cbn. f_equal. lia.
Qed.

Lemma from_hex8 z : is_u32 z → from_str_radix_16 32 (hex8 z) = Some z.
Proof.
  intros Hz. unfold fits in Hz.
  assert (parse_hex_digits 32 0 (hex8 z) = Some z) as E.
  { apply parse_hex_fixed; change (16 ^ Z.of_nat 8) with (2 ^ 32); lia. }
  pose proof (length_hex_fixed 8 z) as Hl. unfold from_str_radix_16. unfold hex8 in *.
  destruct (hex_fixed 8 z) as [|b l]; [done|]. case_bool_decide as Hb; [|done]. by subst b.
Qed.

Lemma hex8_inj a b : is_u32 a → is_u32 b → hex8 a = hex8 b → a = b.
Proof. intros Ha Hb E. apply from_hex8 in Ha, Hb. rewrite E in Ha. congruence. Qed.

Lemma hex_fixed_seg n z : Z.of_nat n < 2 ^ 32 → seg_ok (hex_fixed n z) ∧ utf8_valid (hex_fixed n z) = true.
Proof.
  intros Hn. split; [unfold seg_ok; by rewrite length_hex_fixed|]. apply ascii_utf8, hex_fixed_ascii.
Qed.

Lemma hex8_seg z : seg_ok (hex8 z) ∧ utf8_valid (hex8 z) = true.
Proof. by apply hex_fixed_seg. Qed.

Lemma shard_seg id : seg_ok (pending_version_shard id) ∧ utf8_valid (pending_version_shard id) = true.
Proof. by apply hex_fixed_seg. Qed.

(** ** The decoders invert the constructors *)

Lemma bool_decide_refl {A : Type} `{EqDecision A} (x : A) : bool_decide (x = x) = true.
Proof. by apply bool_decide_true. Qed.

Lemma pending_version_target_key_eq id v t :
  pending_version_target_key id v t =
  encode_key PREFIX_PENDING_VERSION [pending_version_shard id; hex8 id; hex8 v; t].
Proof.
  unfold pending_version_target_key, pending_version_key, encode_key. cbn [fmap list_fmap concat app].
  rewrite !(right_id_L [] (++)), <-!(assoc_L (++)). done.
Qed.

Lemma decode_fence_key id v :
  is_u32 id → is_u32 v → decode_version_reclaim_fence_key_parts (version_reclaim_fence_key id v) = Ok (id, v).
Proof.
  intros Hid Hv. unfold decode_version_reclaim_fence_key_parts, version_reclaim_fence_key.
  rewrite decode_encode_key by (repeat constructor; solve [apply hex8_seg|apply shard_seg]).
  cbn [mbind result_mbind result_bind]. rewrite bool_decide_refl. cbn [negb mbind result_mbind result_bind].
  rewrite !from_hex8 by done. done.
Qed.

Lemma decode_marker_key id v :
  is_u32 id → is_u32 v → decode_pending_version_key_parts (pending_version_key id v) = Ok (id, v, None).
Proof.
  intros Hid Hv. unfold decode_pending_version_key_parts, pending_version_key.
  rewrite decode_encode_key by (repeat constructor; solve [apply hex8_seg|apply shard_seg]).
  cbn [mbind result_mbind result_bind]. rewrite bool_decide_refl. cbn [negb mbind result_mbind result_bind].
  rewrite !from_hex8 by done. cbn [ok_or mbind result_mbind result_bind]. by rewrite bool_decide_refl.
Qed.

Lemma decode_presence_key id v t :
  is_u32 id → is_u32 v → seg_ok t → utf8_valid t = true →
  decode_pending_version_key_parts (pending_version_target_key id v t) = Ok (id, v, Some t).
Proof.
  intros Hid Hv Ht Hu. rewrite pending_version_target_key_eq. unfold decode_pending_version_key_parts.
  rewrite decode_encode_key by (repeat constructor; solve [done|apply hex8_seg|apply shard_seg]).
  cbn [mbind result_mbind result_bind]. rewrite bool_decide_refl. cbn [negb mbind result_mbind result_bind].
  rewrite !from_hex8 by done. cbn [ok_or mbind result_mbind result_bind]. by rewrite bool_decide_refl.
Qed.

Lemma decode_reverse_log_key t version_id stripe fragment :
  seg_ok t → utf8_valid t = true → seg_ok version_id → utf8_valid version_id = true →
  decode_reverse_log_key_version_id (target_reverse_log_key t version_id stripe fragment) = Ok version_id.
Proof.
  intros Ht Htu Hv Hvu. unfold decode_reverse_log_key_version_id, target_reverse_log_key.
  rewrite decode_encode_key by (repeat constructor; solve [done|apply hex8_seg]). done.
Qed.

(** A marker row's key, and a presence row's key, decode to the version and target they
    were built from; so do the keys of the reclaim fences and of the reverse log. *)
Theorem kms_keys_decode id v t version_id stripe fragment :
  is_u32 id → is_u32 v → seg_ok t → utf8_valid t = true → seg_ok version_id → utf8_valid version_id = true →
  decode_pending_version_key_parts (pending_version_key id v) = Ok (id, v, None) ∧
  decode_pending_version_key_parts (pending_version_target_key id v t) = Ok (id, v, Some t) ∧
  decode_version_reclaim_fence_key_parts (version_reclaim_fence_key id v) = Ok (id, v) ∧
  decode_reverse_log_key_version_id (target_reverse_log_key t version_id stripe fragment) = Ok version_id.
Proof.
  intros Hid Hv Ht Htu Hver Hveru. split_and!;
    [by apply decode_marker_key|by apply decode_presence_key|by apply decode_fence_key|by apply decode_reverse_log_key].
Qed.

Lemma occupancy_key_target_reverse_log t version_id stripe fragment :
  occupancy_key_for_reverse_log_key (target_reverse_log_key t version_id stripe fragment) =
  target_current_fragment_key t version_id stripe fragment.
Proof. done. Qed.

(** ** Committed granules *)

Lemma decode_committed_granule_key_encode t g :
  seg_ok t → utf8_valid t = true → is_u64 g →
  decode_committed_granule_key (committed_granule_key t g) = Some (t, g).
Proof.
  intros Ht Hu Hg.
  unfold decode_committed_granule_key, committed_granule_key, committed_granule_target_prefix.
  pose proof (length_be_bytes 4 (len t)) as H4. pose proof (length_be_bytes 8 g) as H8.
  assert (len KCO_NAMESPACE = 4) as Hk by done.
  set (key := _ ++ be_bytes 8 g).
  assert (len key = 9 + len t + 8) as Hlen.
  { subst key. rewrite !length_app, H4, H8. change (length KCO_NAMESPACE) with 4%nat. cbn [length]. lia. }
  rewrite (proj2 (Z.ltb_ge (len key) 9)) by lia.
  assert (slice 0 4 key = Some KCO_NAMESPACE) as -> by (subst key; rewrite <-!(assoc_L (++)); by apply slice_0_app).
  assert (get_byte 4 key = Some KCO_VERSION) as -> by done. rewrite !bool_decide_refl. cbn [negb orb].
  assert (slice 5 4 key = Some (be_bytes 4 (len t))) as ->.
  { subst key. rewrite (assoc_L (++) KCO_NAMESPACE), <-!(assoc_L (++)).
    rewrite (assoc_L (++) KCO_NAMESPACE), slice_mid by (rewrite ?length_app; cbn [length]; lia).
    rewrite length_app. by apply slice_full. }
  cbn [fmap option_fmap option_map mbind option_bind]. rewrite of_be_small by by apply seg_ok_fits.
  rewrite Hlen, Z.eqb_refl. cbn [negb].
  assert (slice 9 (len t) key = Some t) as ->.
  { subst key. rewrite !(assoc_L (++)), <-(assoc_L (++) _ t).
    rewrite slice_mid by (rewrite ?length_app, ?H4; cbn [length]; lia).
    rewrite !length_app, H4. by apply slice_full. }
  cbn [mbind option_bind]. rewrite Hu.
  assert (slice (9 + len t) 8 key = Some (be_bytes 8 g)) as ->.
  { subst key. rewrite slice_app_r by (rewrite !length_app, ?H4; change (length KCO_NAMESPACE) with 4%nat; cbn [length]; lia).
    replace (_ - _) with 0 by (rewrite !length_app, H4; change (length KCO_NAMESPACE) with 4%nat; cbn [length]; lia).
    apply slice_full. lia. }
  cbn. by rewrite of_be_small.
Qed.

Lemma decode_encode_committed_granule gen version_id :
  is_u32 gen → utf8_valid version_id = true →
  decode_committed_granule (encode_committed_granule (mkCommittedGranule version_id gen)) =
    Some (mkCommittedGranule version_id gen).
Proof.
  intros Hgen Hv.
  unfold decode_committed_granule, encode_committed_granule. cbn [cg_generation cg_version_id].
  pose proof (length_be_bytes 4 gen) as H4.
  rewrite (proj2 (Z.ltb_ge _ 4)) by (rewrite length_app; lia). rewrite slice_0_app by lia.
  cbn [fmap option_fmap option_map mbind option_bind]. rewrite of_be_small by done.
  by rewrite drop_app_length', Hv by done.
Qed.

(** A committed-granule key and its value decode to exactly the target, granule, version and
    generation that were encoded. *)
Theorem committed_granule_roundtrip t g gen version_id :
  seg_ok t → utf8_valid t = true → is_u64 g → is_u32 gen → utf8_valid version_id = true →
  decode_committed_granule_key (committed_granule_key t g) = Some (t, g) ∧
  decode_committed_granule (encode_committed_granule (mkCommittedGranule version_id gen)) =
    Some (mkCommittedGranule version_id gen).
Proof.
  intros Ht Hu Hg Hgen Hv. split; [by apply decode_committed_granule_key_encode|by apply decode_encode_committed_granule].
Qed.
