(* ===== verification/KmsValues.v ===== *)
(** The values of the KMS rows and the names of objects (poc/kms/src/store.rs), and blobs
    too large for one row (poc/kms/src/fdb_hot_store.rs). *)
From S2P Require Import Prelude Bytes Fdb KmsKeys.

(** ** Reverse-log rows *)

Definition encode_reverse_log_value (generation granule_index : Z) : list byte :=
  be_bytes 4 generation ++ be_bytes 8 granule_index.

Definition REVERSE_LOG_RECLAIM_TOMBSTONE : list byte := [xff].

Definition is_reverse_log_reclaim_tombstone (bytes : list byte) : bool :=
  bool_decide (bytes = REVERSE_LOG_RECLAIM_TOMBSTONE).

Definition decode_reverse_log_value (bytes : list byte) : result Status (Z * Z) :=
  if negb (len bytes =? 12) then Err Internal_
  else Ok (of_be (take 4 bytes), of_be (drop 4 bytes)).

Inductive ReverseLogRowValue : Type :=
| Committed (generation granule_index : Z)
| ReclaimTombstone
| Unrecognized.

Definition classify_reverse_log_value (bytes : list byte) : ReverseLogRowValue :=
  if is_reverse_log_reclaim_tombstone bytes then ReclaimTombstone
  else if negb (len bytes =? 12) then Unrecognized
  else Committed (of_be (take 4 bytes)) (of_be (drop 4 bytes)).

Definition decode_reverse_log_version_id (key : list byte) : result Status (list byte) :=
  '(_, segments) ← map_err (fun _ => Internal_) (decode_segments key);
  match segments with [_; version_id; _; _] => Ok version_id | _ => Err Internal_ end.

Definition decode_target_current_fragment_version_id (key : list byte) : result Status (list byte) :=
  '(_, segments) ← map_err (fun _ => Internal_) (decode_segments key);
  match segments with [_; version_id; _; _] => Ok version_id | _ => Err Internal_ end.

(** ** Version ids *)

(** [str::split_once] with a one-byte separator. *)
Fixpoint split_once (c : byte) (l : list byte) : option (list byte * list byte) :=
  match l with
  | [] => None
  | b :: l' =>
      if bool_decide (b = c) then Some ([], l')
      else '(x, y) ← split_once c l'; Some (b :: x, y)
  end.

Definition version_id_text (object_id version : Z) : list byte :=
  dec_to_string object_id ++ [":"%byte] ++ dec_to_string version.

Definition parse_version_id_parts (version_id : list byte) : result Status (Z * Z) :=
  ok_or
    ('(a, b) ← split_once ":"%byte version_id;
     object_id ← parse_uint 32 a;
     version ← parse_uint 32 b;
     if bool_decide (version_id_text object_id version = version_id) then Some (object_id, version) else None)
    InvalidArgument_.

(** ** Pending-version markers *)

Definition PENDING_VERSION_STATE_WRITING : byte := x01.
Definition PENDING_VERSION_STATE_RECLAIMING : byte := x02.
Definition PENDING_VERSION_VALUE_TAG : byte := x01.

Record PendingVersion := mkPendingVersion {
  pv_expires_at_unix_ms : Z;
  pv_state : byte;
  pv_bucket_id : list byte;
  pv_key : list byte;
}.

Definition encode_pending_version_value (p : PendingVersion) : list byte :=
  PENDING_VERSION_VALUE_TAG :: pv_state p :: be_bytes 8 (pv_expires_at_unix_ms p) ++
  push_segment (pv_bucket_id p) ++ push_segment (pv_key p).

(** The closure [read_string] of [decode_pending_version_value]. *)
Definition read_string (bytes : list byte) (offset : Z) : result Status (list byte * Z) :=
  if len bytes <? offset + 4 then Err Internal_
  else
    n ← ok_or (of_be <$> slice offset 4 bytes) Internal_;
    let e := offset + 4 + n in
    if len bytes <? e then Err Internal_
    else
      value ← ok_or (slice (offset + 4) n bytes) Internal_;
      if utf8_valid value then Ok (value, e) else Err Internal_.

Definition decode_pending_version_value (bytes : list byte) : result Status PendingVersion :=
  if len bytes <? 18 then Err Internal_
  else
    match bytes with
    | tag :: state :: _ =>
        if negb (bool_decide (tag = PENDING_VERSION_VALUE_TAG)) then Err Internal_
        else if negb (bool_decide (state = PENDING_VERSION_STATE_WRITING)) &&
                negb (bool_decide (state = PENDING_VERSION_STATE_RECLAIMING)) then Err Internal_
        else
          expires ← ok_or (of_be <$> slice 2 8 bytes) Internal_;
          '(bucket_id, offset) ← read_string bytes 10;
          '(key, offset) ← read_string bytes offset;
          if negb (offset =? len bytes) then Err Internal_
          else Ok (mkPendingVersion expires state bucket_id key)
    | _ => Err Internal_
    end.

Definition saturating_add64 (a b : Z) : Z := Z.min (2 ^ 64 - 1) (a + b).

Definition pending_version_claim_eligible (p : PendingVersion) (now_unix_ms claim_grace_ms : Z) : bool :=
  saturating_add64 (pv_expires_at_unix_ms p) claim_grace_ms <=? now_unix_ms.

(** ** Write leases *)

Definition encode_write_lease_value (expires_at_unix_ms : Z) : list byte := be_bytes 8 expires_at_unix_ms.

Definition decode_write_lease_expiry (bytes : list byte) : result Status Z :=
  if len bytes <? 8 then Err Internal_ else ok_or (of_be <$> slice 0 8 bytes) Internal_.

(** ** Object names *)

(** [s.trim().is_empty()]: only Unicode white space, in UTF-8. *)
Fixpoint blank (l : list byte) : bool :=
  match l with
  | [] => true
  | b0 :: l1 =>
      if byte_in 9 13 b0 || bool_decide (b0 = x20) then blank l1
      else
        match l1 with
        | b1 :: l2 =>
            if bool_decide (b0 = xc2) && (bool_decide (b1 = x85) || bool_decide (b1 = xa0)) then blank l2
            else
              match l2 with
              | b2 :: l3 =>
                  if (bool_decide (b0 = xe1) && bool_decide (b1 = x9a) && bool_decide (b2 = x80))
                     || (bool_decide (b0 = xe2) && bool_decide (b1 = x80) &&
                         (byte_in 128 138 b2 || bool_decide (b2 = xa8) || bool_decide (b2 = xa9) || bool_decide (b2 = xaf)))
                     || (bool_decide (b0 = xe2) && bool_decide (b1 = x81) && bool_decide (b2 = x9f))
                     || (bool_decide (b0 = xe3) && bool_decide (b1 = x80) && bool_decide (b2 = x80))
                  then blank l3 else false
              | [] => false
              end
        | [] => false
        end
  end.

Definition slash : byte := "/"%byte.

(** [path.split('/')] *)
Fixpoint split_slash (l : list byte) : list (list byte) :=
  match l with
  | [] => [[]]
  | b :: l' =>
      if bool_decide (b = slash) then [] :: split_slash l'
      else match split_slash l' with
           | part :: parts => (b :: part) :: parts
           | [] => [[b]]
           end
  end.

(** [parts.join("/")] *)
Fixpoint join_slash (parts : list (list byte)) : list byte :=
  match parts with
  | [] => []
  | [part] => part
  | part :: parts' => part ++ slash :: join_slash parts'
  end.

Definition dot : list byte := bstr ".".
Definition dotdot : list byte := bstr "..".

Definition validate_entry_name (name : list byte) : result Status unit :=
  if bool_decide (name = []) then Err InvalidArgument_
  else if bool_decide (slash ∈ name) then Err InvalidArgument_
  else if bool_decide (name = dot) || bool_decide (name = dotdot) then Err InvalidArgument_
  else Ok tt.

Fixpoint keep_parts (parts : list (list byte)) : result Status (list (list byte)) :=
  match parts with
  | [] => Ok []
  | part :: parts' =>
      if bool_decide (part = []) || bool_decide (part = dot) then keep_parts parts'
      else if bool_decide (part = dotdot) then Err InvalidArgument_
      else
        _ ← validate_entry_name part;
        kept ← keep_parts parts';
        Ok (part :: kept)
  end.

Definition normalize_hierarchy_path (path : list byte) : result Status (list byte) :=
  if blank path then Ok []
  else parts ← keep_parts (split_slash path); Ok (join_slash parts).

Definition normalize_object_key (path : list byte) : result Status (list byte) := normalize_hierarchy_path path.

Definition join_path (prefix name : list byte) : list byte :=
  if bool_decide (prefix = []) then name else prefix ++ slash :: name.

Record AutoCreateLevel := mkAutoCreateLevel {
  acl_segment : list byte;
  acl_prefix : list byte;
  acl_level_path : list byte;
  acl_deterministic_id : list byte;
}.

Fixpoint auto_create_loop (bucket_entry_id bucket_path prefix : list byte) (segments : list (list byte)) :
    list AutoCreateLevel :=
  match segments with
  | [] => []
  | segment :: segments' =>
      if bool_decide (segment = []) then auto_create_loop bucket_entry_id bucket_path prefix segments'
      else
        let prefix' := if bool_decide (prefix = []) then segment else prefix ++ slash :: segment in
        mkAutoCreateLevel segment prefix' (join_path bucket_path prefix') (bucket_entry_id ++ bstr "::" ++ prefix')
        :: auto_create_loop bucket_entry_id bucket_path prefix' segments'
  end.

Definition auto_create_levels (bucket_entry_id bucket_path parent_key : list byte) : list AutoCreateLevel :=
  auto_create_loop bucket_entry_id bucket_path [] (split_slash parent_key).

(** ** Blobs larger than a row ([store_blob], [load_blob] of fdb_hot_store.rs) *)

Definition CHUNKED_BLOB_META_MAGIC : list byte := bstr "KFBLOB01".
Definition MAX_FDB_BLOB_CHUNK_BYTES : Z := 80000.

Definition encode_blob_meta (chunk_count total_len : Z) : list byte :=
  CHUNKED_BLOB_META_MAGIC ++ be_bytes 4 chunk_count ++ be_bytes 8 total_len.

Definition decode_blob_meta (bytes : list byte) : option (Z * Z) :=
  if negb (len bytes =? 20) || negb (bool_decide (take 8 bytes = CHUNKED_BLOB_META_MAGIC)) then None
  else
    chunk_count ← of_be <$> slice 8 4 bytes;
    total_len ← of_be <$> slice 12 8 bytes;
    Some (chunk_count, total_len).

(** [bytes.chunks(n)]: pieces of [n] bytes, the last one shorter. *)
Fixpoint chunks_fuel (fuel : nat) (n : nat) (bytes : list byte) : list (list byte) :=
  match fuel, bytes with
  | S fuel', _ :: _ => take n bytes :: chunks_fuel fuel' n (drop n bytes)
  | _, _ => []
  end.

Definition chunks (n : nat) (bytes : list byte) : list (list byte) := chunks_fuel (length bytes) n bytes.

Section blob.
Context `{Fdb KV}.

Fixpoint load_chunks (chunk_key : Z → list byte) (indices : list Z) : M KV Status (list byte) :=
  match indices with
  | [] => mret []
  | i :: indices' =>
      o ← trx_get (chunk_key i);
      chunk ← lift (ok_or o Internal_);
      rest ← load_chunks chunk_key indices';
      mret (chunk ++ rest)
  end.

Definition load_blob (meta_key : list byte) (chunk_key : Z → list byte) : M KV Status (option (list byte)) :=
  meta ← trx_get meta_key;
  match meta with
  | None => mret None
  | Some meta_or_value =>
      match decode_blob_meta meta_or_value with
      | Some (chunk_count, total_len) =>
          bytes ← load_chunks chunk_key (seqZ 0 chunk_count);
          mret (Some (take (Z.to_nat total_len) bytes))
      | None => mret (Some meta_or_value)
      end
  end.

Definition store_blob (meta_key chunk_prefix : list byte) (chunk_key : Z → list byte) (bytes : list byte) :
    M KV Status unit :=
  _ ← trx_clear_range (chunk_prefix, prefix_range_end chunk_prefix);
  if len bytes <=? MAX_FDB_BLOB_CHUNK_BYTES then trx_set meta_key bytes
  else
    let pieces := chunks (Z.to_nat MAX_FDB_BLOB_CHUNK_BYTES) bytes in
    _ ← trx_set meta_key (encode_blob_meta (wrap 32 (len pieces)) (len bytes));
    trx_each (fun '(i, chunk) => trx_set (chunk_key (wrap 32 (Z.of_nat i))) chunk) (imap pair pieces).
End blob.

(** ** Reverse-log values *)

Lemma len_reverse_log_value g i : len (encode_reverse_log_value g i) = 12.
Proof. unfold encode_reverse_log_value. by rewrite length_app, !length_be_bytes. Qed.

Lemma classify_encode g i :
  is_u32 g → is_u64 i → classify_reverse_log_value (encode_reverse_log_value g i) = Committed g i.
Proof.
  intros Hg Hi. unfold classify_reverse_log_value. rewrite len_reverse_log_value, Z.eqb_refl.
  unfold is_reverse_log_reclaim_tombstone. rewrite bool_decide_eq_false_2.
  - unfold encode_reverse_log_value. rewrite take_app_length', drop_app_length' by by rewrite length_be_bytes.
    cbn [negb]. by rewrite !of_be_small.
  - intros E. apply (f_equal length) in E. pose proof (len_reverse_log_value g i). rewrite E in *. done.
Qed.

Lemma tombstone_not_committed g i : is_reverse_log_reclaim_tombstone (encode_reverse_log_value g i) = false.
Proof.
  apply bool_decide_eq_false_2. intros E. pose proof (len_reverse_log_value g i) as Hl. by rewrite E in Hl.
Qed.

Lemma be_bytes_of_be n l : length l = n → be_bytes n (of_be l) = l.
Proof.
  intros Hl. unfold be_bytes, of_be. rewrite le_bytes_of_le_n by by rewrite length_reverse.
  apply reverse_involutive.
Qed.

Lemma of_be_range l : 0 ≤ of_be l < 2 ^ (8 * len l).
Proof. unfold of_be. pose proof (of_le_range (reverse l)) as Hr. by rewrite length_reverse in Hr. Qed.

(** ** Version ids *)

Lemma parse_digits_range w acc l n : fits w acc → parse_digits w acc l = Some n → fits w n.
Proof.
  revert acc. induction l as [|b l IH]; intros acc Ha; cbn; [by intros [= <-]|].
  unfold parse_digit. case_match eqn:Hd; cbn; [|done]. unfold checked_mul. case_match; cbn; [|done].
  unfold checked_add. case_match eqn:Hc; cbn; [|done]. apply IH.
  apply andb_true_iff in Hd as [Hd _]. apply Z.leb_le in Hd. apply Z.ltb_lt in Hc. unfold fits in *. lia.
Qed.

Lemma parse_uint_range w l n : 0 ≤ w → parse_uint w l = Some n → fits w n.
Proof.
  intros Hw. assert (fits w 0) as H0 by (unfold fits; pose proof (Z.pow_pos_nonneg 2 w); lia).
  destruct l as [|b l]; [done|]. unfold parse_uint. repeat case_bool_decide; try done; by apply parse_digits_range.
Qed.

Lemma split_once_app c a b : c ∉ a → split_once c (a ++ c :: b) = Some (a, b).
Proof.
  intros Ha. induction a as [|x a IH]; cbn; [by rewrite bool_decide_refl|].
  apply not_elem_of_cons in Ha as [Hx Ha]. rewrite bool_decide_eq_false_2 by done. by rewrite IH.
Qed.

Lemma dec_no_colon n : 0 ≤ n → ":"%byte ∉ dec_to_string n.
Proof.
  intros Hn Hin. pose proof (dec_digits_ascii 20 n Hn) as Hf. rewrite Forall_forall in Hf. by specialize (Hf _ Hin).
Qed.

Lemma parse_version_id_text id v :
  is_u32 id → is_u32 v → parse_version_id_parts (version_id_text id v) = Ok (id, v).
Proof.
  intros Hid Hv. unfold parse_version_id_parts, version_id_text. cbn [app].
  rewrite split_once_app by (apply dec_no_colon; unfold fits in *; lia). cbn [mbind option_bind].
  rewrite parse_dec_to_string by (done || lia). cbn [mbind option_bind].
  rewrite parse_dec_to_string by (done || lia). cbn [mbind option_bind]. by rewrite bool_decide_refl.
Qed.

Lemma parse_version_id_canonical s id v :
  parse_version_id_parts s = Ok (id, v) → s = version_id_text id v ∧ is_u32 id ∧ is_u32 v.
Proof.
  unfold parse_version_id_parts. rewrite ok_or_Ok. intros ([a b] & _ & H)%bind_Some.
  apply bind_Some in H as (i & Hi%parse_uint_range & H); [|lia].
  apply bind_Some in H as (w & Hw%parse_uint_range & H); [|lia].
  case_bool_decide as E; [|done]. injection H as -> ->. done.
Qed.

Lemma version_id_text_inj id v id' v' :
  is_u32 id → is_u32 v → is_u32 id' → is_u32 v' → version_id_text id v = version_id_text id' v' → id = id' ∧ v = v'.
Proof.
  intros H1 H2 H3 H4 E. pose proof (parse_version_id_text id v H1 H2) as P. rewrite E, parse_version_id_text in P by done.
  by injection P.
Qed.

(** The parser of version ids accepts exactly the canonical decimal spelling of two 32-bit
    numbers, so the text in reverse-log keys and the numbers in marker keys name one version. *)
Theorem parse_version_id_parts_iff s id v :
  parse_version_id_parts s = Ok (id, v) ↔ s = version_id_text id v ∧ is_u32 id ∧ is_u32 v.
Proof.
  split; [apply parse_version_id_canonical|]. intros (-> & Hid & Hv). by apply parse_version_id_text.
Qed.

(** ** Markers *)

Definition PendingVersion_ok (p : PendingVersion) : Prop :=
  is_u64 (pv_expires_at_unix_ms p) ∧
  (pv_state p = PENDING_VERSION_STATE_WRITING ∨ pv_state p = PENDING_VERSION_STATE_RECLAIMING) ∧
  seg_ok (pv_bucket_id p) ∧ utf8_valid (pv_bucket_id p) = true ∧
  seg_ok (pv_key p) ∧ utf8_valid (pv_key p) = true.

Lemma read_string_push pre v post :
  seg_ok v → utf8_valid v = true →
  read_string (pre ++ push_segment v ++ post) (len pre) = Ok (v, len pre + 4 + len v).
Proof.
  intros Hv Hu. unfold read_string. pose proof (len_push_segment v) as Hl. rewrite !length_app.
  rewrite (proj2 (Z.ltb_ge _ _)) by lia. rewrite slice_app_r by lia. rewrite Z.sub_diag, slice_push_length.
  cbn [fmap option_fmap option_map ok_or mbind result_mbind result_bind].
  rewrite of_be_small by by apply seg_ok_fits. rewrite (proj2 (Z.ltb_ge _ _)) by lia.
  rewrite slice_app_r by lia. replace (len pre + 4 - len pre) with 4 by lia. rewrite slice_push_value.
  cbn [ok_or mbind result_mbind result_bind]. by rewrite Hu.
Qed.

Lemma decode_encode_pending_version p :
  PendingVersion_ok p → decode_pending_version_value (encode_pending_version_value p) = Ok p.
Proof.
  destruct p as [e st b k]. intros (He & Hst & Hb & Hbu & Hk & Hku). cbn in *.
  unfold decode_pending_version_value, encode_pending_version_value. cbn [pv_state pv_expires_at_unix_ms pv_bucket_id pv_key].
  set (bytes := _ :: _ :: _). pose proof (len_push_segment b) as Lb. pose proof (len_push_segment k) as Lk.
  pose proof (length_be_bytes 8 e) as L8.
  set (hd := PENDING_VERSION_VALUE_TAG :: st :: be_bytes 8 e).
  assert (len hd = 10) as Lhd by (subst hd; cbn [length]; lia).
  assert (bytes = hd ++ push_segment b ++ push_segment k) as Eb by done.
  assert (len bytes = 18 + len b + len k) as Ll by (rewrite Eb, !length_app; lia).
  rewrite (proj2 (Z.ltb_ge _ _)) by lia. unfold bytes at 1. rewrite bool_decide_refl. cbn [negb].
  replace (_ && _) with false by (destruct Hst as [-> | ->]; done).
  assert (slice 2 8 bytes = Some (be_bytes 8 e)) as ->.
  { change bytes with ([PENDING_VERSION_VALUE_TAG; st] ++ be_bytes 8 e ++ push_segment b ++ push_segment k).
    rewrite slice_mid by (cbn [length]; lia). cbn [length]. apply slice_full. lia. }
  cbn [fmap option_fmap option_map ok_or mbind result_mbind result_bind]. rewrite of_be_small by done.
  rewrite Eb, <-Lhd, read_string_push by done. cbn [mbind result_mbind result_bind].
  replace (hd ++ push_segment b ++ push_segment k) with ((hd ++ push_segment b) ++ push_segment k ++ [])
    by by rewrite (right_id_L [] (++)), (assoc_L (++)).
  replace (len hd + 4 + len b) with (len (hd ++ push_segment b)) by (rewrite length_app; lia).
  rewrite read_string_push by done. cbn [mbind result_mbind result_bind].
  rewrite (proj2 (Z.eqb_eq _ _)) by (autorewrite with len; lia). done.
Qed.

Lemma read_string_Ok bytes offset v e :
  0 ≤ offset → read_string bytes offset = Ok (v, e) →
  e = offset + 4 + len v ∧ slice offset (4 + len v) bytes = Some (push_segment v) ∧
  seg_ok v ∧ utf8_valid v = true.
Proof.
  intros Ho. unfold read_string. destruct (Z.ltb_spec (len bytes) (offset + 4)) as [?|H1]; [done|].
  intros (n & Hn & H)%result_bind_Ok. apply ok_or_Ok, fmap_Some in Hn as (lb & Hlb & ->).
  pose proof (slice_len _ _ _ _ Hlb) as Ll. pose proof (of_be_range lb) as Hr. rewrite Ll in Hr.
  destruct (Z.ltb_spec (len bytes) (offset + 4 + of_be lb)) as [?|H2]; [done|].
  apply result_bind_Ok in H as (v' & Hv%ok_or_Ok & H). case_match eqn:Hu; [|done]. injection H as -> <-.
  pose proof (slice_len _ _ _ _ Hv) as Lv. split; [by rewrite Lv|]. split_and!; [|unfold seg_ok; lia|done].
  unfold push_segment. rewrite Lv, be_bytes_of_be by lia. by apply slice_join.
Qed.

Lemma decode_pending_version_Ok bytes p :
  decode_pending_version_value bytes = Ok p → bytes = encode_pending_version_value p ∧ PendingVersion_ok p.
Proof.
  unfold decode_pending_version_value. destruct (Z.ltb_spec (len bytes) 18) as [?|Hl]; [done|].
  destruct bytes as [|tag [|st rest]]; [done..|]. case_bool_decide as Ht; [|done]. subst tag. cbn [negb].
  set (bytes := _ :: st :: rest) in *. case_match eqn:Hst; [done|].
  intros (e & He & H)%result_bind_Ok. apply ok_or_Ok, fmap_Some in He as (eb & Heb & ->).
  apply result_bind_Ok in H as ([b o] & Hb & H). apply read_string_Ok in Hb as (-> & Hb & Hbs & Hbu); [|lia].
  apply result_bind_Ok in H as ([k o] & Hk & H). apply read_string_Ok in Hk as (-> & Hk & Hks & Hku); [|lia].
  destruct (Z.eqb_spec (10 + 4 + len b + 4 + len k) (len bytes)) as [Hlen|?]; [|done]. injection H as <-.
  pose proof (slice_len _ _ _ _ Heb) as Leb. pose proof (of_be_range eb) as Hr. rewrite Leb in Hr.
  split.
  - unfold encode_pending_version_value. cbn [pv_state pv_expires_at_unix_ms pv_bucket_id pv_key].
    rewrite be_bytes_of_be by lia.
    assert (slice 0 (2 + (8 + (4 + len b + (4 + len k)))) bytes =
      Some ([PENDING_VERSION_VALUE_TAG; st] ++ eb ++ push_segment b ++ push_segment k)) as E.
    { apply slice_join; [by apply (slice_0_app [PENDING_VERSION_VALUE_TAG; st])|].
      apply slice_join; [done|]. apply slice_join; [done|].
      by replace (0 + 2 + 8 + (4 + len b)) with (10 + 4 + len b) by lia. }
    rewrite slice_full in E by lia. apply (inj Some) in E. exact E.
  - split_and!; cbn; try done. apply andb_false_iff in Hst as [Hst|Hst]; apply negb_false_iff, bool_decide_eq_true in Hst; auto.
Qed.

(** The marker codec is exact: a value decodes exactly when it is the encoding of a
    well-formed marker in one of the two states, and to that marker; truncation, an unknown
    tag or state, text that is not UTF-8 and trailing bytes are all refused. *)
Theorem decode_pending_version_iff bytes p :
  decode_pending_version_value bytes = Ok p ↔ bytes = encode_pending_version_value p ∧ PendingVersion_ok p.
Proof.
  split; [apply decode_pending_version_Ok|]. intros [-> Hp]. by apply decode_encode_pending_version.
Qed.

Lemma decode_encode_lease e : is_u64 e → decode_write_lease_expiry (encode_write_lease_value e) = Ok e.
Proof.
  intros He. unfold decode_write_lease_expiry, encode_write_lease_value. pose proof (length_be_bytes 8 e) as Hl.
  rewrite (proj2 (Z.ltb_ge _ _)) by lia. rewrite slice_full by lia. cbn. by rewrite of_be_small.
Qed.

(** ** Blobs read back *)

Lemma decode_encode_blob_meta c n : is_u32 c → is_u64 n → decode_blob_meta (encode_blob_meta c n) = Some (c, n).
Proof.
  intros Hc Hn. unfold decode_blob_meta, encode_blob_meta. pose proof (length_be_bytes 4 c) as L4.
  pose proof (length_be_bytes 8 n) as L8. assert (length CHUNKED_BLOB_META_MAGIC = 8%nat) as Lm by done.
  rewrite (proj2 (Z.eqb_eq _ _)) by (rewrite !length_app; lia). rewrite take_app_length' by done.
  rewrite bool_decide_refl. cbn [negb orb].
  rewrite (slice_mid 8 4) by lia. rewrite Lm, (slice_full (be_bytes 4 c)) by lia. cbn [fmap option_fmap option_map mbind option_bind].
  rewrite (assoc_L (++)), slice_app_r by (rewrite length_app; lia).
  rewrite length_app, L4, Lm, slice_full by lia. cbn [fmap option_fmap option_map mbind option_bind].
  by rewrite !of_be_small.
Qed.

Lemma chunks_fuel_concat fuel n l : (0 < n)%nat → (length l ≤ fuel)%nat → concat (chunks_fuel fuel n l) = l.
Proof.
  intros Hn. revert l. induction fuel as [|fuel IH]; intros [|b l] Hl; try done; [cbn in Hl; lia|].
  cbn [chunks_fuel concat]. rewrite IH; [apply take_drop|]. rewrite length_drop. cbn [length] in *. lia.
Qed.

Lemma chunks_fuel_length fuel n l :
  (0 < n)%nat → (length l ≤ fuel)%nat → (n * length (chunks_fuel fuel n l) < length l + n)%nat.
Proof.
  intros Hn. revert l. induction fuel as [|fuel IH]; intros [|b l] Hl; try (cbn in *; lia).
  cbn [chunks_fuel length]. specialize (IH (drop n (b :: l))). rewrite length_drop in IH. cbn [length] in *.
  destruct (decide (length l < n)%nat) as [Hlt|Hge]; [|nia].
  rewrite drop_ge by (cbn; lia). destruct fuel; cbn; lia.
Qed.

Section blob_facts.
Context `{FdbLaws KV}.

Lemma load_chunks_spec ck pieces k m :
  (∀ i p, pieces !! i = Some p → kv_get (ck (k + Z.of_nat i)) m = Some p) →
  load_chunks ck (seqZ k (len pieces)) m = (m, Ok (concat pieces)).
Proof.
  revert k. induction pieces as [|p pieces IH]; intros k Hg; [done|].
  cbn [length]. rewrite seqZ_cons by lia. cbn [load_chunks].
  assert (kv_get (ck k) m = Some p) as Hk by (rewrite <-(Z.add_0_r k); by apply (Hg 0%nat)).
  unfold mbind, M_mbind, trx_get. rewrite Hk. cbn [ok_or lift]. unfold lift.
  replace (Z.pred (Z.of_nat (S (length pieces)))) with (len pieces) by lia. rewrite IH; [done|].
  intros i p' Hi. replace (Z.succ k + Z.of_nat i) with (k + Z.of_nat (S i)) by lia. by apply (Hg (S i)).
Qed.

Lemma imap_pair_lookup {A} (l : list A) (i : nat) (x : A) : l !! i = Some x → (i, x) ∈ imap pair l.
Proof. intros Hi. apply list_elem_of_lookup. exists i. by rewrite list_lookup_imap, Hi. Qed.

Lemma imap_pair_inv {A} (l : list A) (i : nat) (x : A) : (i, x) ∈ imap pair l → l !! i = Some x.
Proof.
  intros (j & Hj)%list_elem_of_lookup. rewrite list_lookup_imap in Hj.
  apply fmap_Some in Hj as (y & Hy & [= -> ->]). done.
Qed.

Lemma imap_pair_fst {A} (l : list A) : (imap pair l).*1 = seq 0 (length l).
Proof.
  apply list_eq. intros i. rewrite list_lookup_fmap, list_lookup_imap.
  destruct (l !! i) as [x|] eqn:E; cbn.
  - apply lookup_lt_Some in E. symmetry. by apply lookup_seq_lt.
  - apply lookup_ge_None in E. symmetry. apply lookup_seq_ge. lia.
Qed.

Lemma store_chunks_get ck (pieces : list (list byte)) i p m :
  (∀ i j, is_u32 i → is_u32 j → ck i = ck j → i = j) → is_u32 (len pieces) → pieces !! i = Some p →
  kv_get (ck (Z.of_nat i)) (kv_put_all ((fun x : nat * list byte => (ck (wrap 32 (Z.of_nat x.1)), x.2)) <$> imap pair pieces) m) =
    Some p.
Proof.
  intros Hinj Hp Hi. pose proof (lookup_lt_Some _ _ _ Hi) as Hlt. unfold fits in Hp.
  apply kv_put_all_lookup.
  - rewrite <-list_fmap_compose.
    replace ((fun x => _) <$> imap pair pieces) with ((fun j => ck (wrap 32 (Z.of_nat j))) <$> (imap pair pieces).*1)
      by by rewrite <-list_fmap_compose.
    rewrite imap_pair_fst. apply NoDup_fmap_2_strong; [|apply NoDup_seq].
    intros a b Ha%elem_of_seq Hb%elem_of_seq. rewrite !wrap_small by (unfold fits; lia).
    intros E%Hinj; [lia|unfold fits; lia..].
  - apply list_elem_of_fmap. exists (i, p). cbn. rewrite wrap_small by (unfold fits; lia).
    split; [done|]. by apply imap_pair_lookup.
Qed.

(** What [store_blob] writes, [load_blob] reads back: in one row, or in numbered chunks. *)
Lemma store_blob_load mk pfx ck bytes m :
  (∀ i j, is_u32 i → is_u32 j → ck i = ck j → i = j) → (∀ i, is_u32 i → ck i ≠ mk) →
  (len bytes ≤ MAX_FDB_BLOB_CHUNK_BYTES → decode_blob_meta bytes = None) →
  len bytes ≤ MAX_FDB_BLOB_CHUNK_BYTES * (2 ^ 32 - 1) →
  ∃ m', store_blob mk pfx ck bytes m = (m', Ok tt) ∧ load_blob mk ck m' = (m', Ok (Some bytes)).
Proof.
  intros Hinj Hmk Hsmall Hmax. unfold store_blob, load_blob.
  rewrite trx_clear_range_bind. set (m1 := kv_clear_range _ _ _).
  destruct (Z.leb_spec (len bytes) MAX_FDB_BLOB_CHUNK_BYTES) as [Hle|Hgt].
  { eexists. split; [done|]. rewrite trx_get_bind, kv_get_set, decide_True by done. by rewrite Hsmall. }
  cbv zeta. set (n := Z.to_nat MAX_FDB_BLOB_CHUNK_BYTES) in *.
  assert (0 < n)%nat as Hn by (unfold n, MAX_FDB_BLOB_CHUNK_BYTES; lia).
  pose proof (chunks_fuel_length (length bytes) n bytes Hn ltac:(lia)) as Hlen.
  pose proof (chunks_fuel_concat (length bytes) n bytes Hn ltac:(lia)) as Hcat.
  unfold chunks. set (pieces := chunks_fuel _ _ _) in *.
  assert (Z.of_nat n = 80000) as En by (unfold n, MAX_FDB_BLOB_CHUNK_BYTES; lia). unfold MAX_FDB_BLOB_CHUNK_BYTES in *.
  assert (is_u32 (len pieces)) as Hp by (unfold fits; nia). rewrite wrap_small by done.
  rewrite trx_set_bind, (trx_each_ext _ (fun x : nat * list byte => trx_set (ck (wrap 32 (Z.of_nat x.1))) x.2)) by by intros [].
  rewrite trx_each_set. eexists. split; [done|]. rewrite trx_get_bind.
  rewrite kv_put_all_other, kv_get_set, decide_True; [|done|].
  2: { rewrite <-list_fmap_compose. intros ([i x] & Ei & Hin)%list_elem_of_fmap. cbn in Ei.
    symmetry in Ei. revert Ei. apply Hmk. unfold wrap, fits. apply Z.mod_pos_bound. lia. }
  rewrite decode_encode_blob_meta; [|done|unfold fits; lia].
  erewrite M_bind_run; [|apply load_chunks_spec; intros i p Hi; by apply store_chunks_get].
  by rewrite Hcat, take_ge by lia.
Qed.
End blob_facts.

(** ** Object names *)

Definition name_ok (part : list byte) : Prop := part ≠ [] ∧ (slash ∉ part) ∧ part ≠ dot ∧ part ≠ dotdot.

Lemma validate_entry_name_iff name : validate_entry_name name = Ok tt ↔ name_ok name.
Proof.
  unfold validate_entry_name, name_ok. repeat case_bool_decide; cbn; split; try done; tauto.
Qed.

Lemma keep_parts_ok parts kept : keep_parts parts = Ok kept → Forall name_ok kept.
Proof.
  revert kept. induction parts as [|part parts IH]; intros kept; cbn; [by intros [= <-]|].
  case_bool_decide as H1; cbn; [by apply IH|]. case_bool_decide as H2; cbn; [by apply IH|].
  case_bool_decide as H3; [done|]. intros ([] & Hv%validate_entry_name_iff & H)%result_bind_Ok.
  apply result_bind_Ok in H as (k & Hk & [= <-]). constructor; [done|by apply IH].
Qed.

Lemma keep_parts_fixed parts : Forall name_ok parts → keep_parts parts = Ok parts.
Proof.
  induction 1 as [|part parts Hp _ IH]; [done|]. cbn. destruct Hp as (H1 & H2 & H3 & H4).
  rewrite !bool_decide_eq_false_2 by done. cbn. rewrite (proj2 (validate_entry_name_iff part)) by done.
  rewrite result_bind_eq, IH. done.
Qed.

Lemma split_slash_app part l :
  slash ∉ part → split_slash (part ++ slash :: l) = part :: split_slash l.
Proof.
  induction part as [|b part IH]; intros Hs; cbn; [done|]. apply not_elem_of_cons in Hs as [Hb Hs].
  rewrite bool_decide_eq_false_2 by done. by rewrite IH.
Qed.

Lemma split_slash_single part : slash ∉ part → split_slash part = [part].
Proof.
  induction part as [|b part IH]; intros Hs; cbn; [done|]. apply not_elem_of_cons in Hs as [Hb Hs].
  rewrite bool_decide_eq_false_2 by done. by rewrite IH.
Qed.

Lemma split_join_slash parts : parts ≠ [] → Forall name_ok parts → split_slash (join_slash parts) = parts.
Proof.
  intros Hne Hf. induction Hf as [|part parts (_ & Hs & _) Hf IH]; [done|].
  destruct parts as [|part' parts]; [by apply split_slash_single|].
  cbn [join_slash]. rewrite split_slash_app by done. f_equal. by apply IH.
Qed.

Lemma normalize_fixed path key :
  normalize_object_key path = Ok key → blank key = false → normalize_object_key key = Ok key.
Proof.
  unfold normalize_object_key, normalize_hierarchy_path. intros H Hb. rewrite Hb.
  destruct (blank path); [by injection H as <-|].
  apply result_bind_Ok in H as (kept & Hk%keep_parts_ok & [= <-]).
  destruct kept as [|p kept]; [done|]. rewrite split_join_slash, keep_parts_fixed by done. done.
Qed.

(** Normalizing an object key twice is normalizing it once, unless the normalized key is
    only white space: then the second pass sends it to the empty key, as for [/ /]. *)
Theorem normalize_object_key_idempotent path key :
  normalize_object_key path = Ok key →
  normalize_object_key key = Ok (if blank key then [] else key).
Proof.
  intros H. destruct (blank key) eqn:Hb; [|by apply (normalize_fixed path)].
  unfold normalize_object_key, normalize_hierarchy_path. by rewrite Hb.
Qed.

Lemma normalize_blank_key :
  normalize_object_key (bstr "/ /") = Ok (bstr " ") ∧ normalize_object_key (bstr " ") = Ok [].
Proof. done. Qed.

(** The levels of the auto-create walk: each prefix extends the previous one by its segment,
    and each level's path is the bucket's path joined with the prefix. *)
Lemma auto_create_loop_spec e b prefix segments i level :
  auto_create_loop e b prefix segments !! i = Some level →
  ∃ kept, acl_prefix level = foldl join_path prefix (kept ++ [acl_segment level]) ∧
    length kept = i ∧ kept ++ [acl_segment level] `prefix_of` filter (.≠ []) segments ∧
    acl_level_path level = join_path b (acl_prefix level) ∧
    acl_deterministic_id level = e ++ bstr "::" ++ acl_prefix level.
Proof.
  revert prefix i. induction segments as [|s segments IH]; intros prefix i; cbn [auto_create_loop]; [done|].
  case_bool_decide as Hs.
  - intros (kept & H)%IH. exists kept. subst s. rewrite filter_cons_False; [done|]. by intros [].
  - rewrite filter_cons_True by done. destruct i as [|i]; cbn [lookup list_lookup].
    + intros [= <-]. exists []. cbn [acl_prefix acl_segment acl_level_path acl_deterministic_id app foldl]. split_and!; try done. apply prefix_cons, prefix_nil.
    + intros (kept & H1 & <- & H3 & H4)%IH. exists (s :: kept). split_and!; [exact H1|done| |apply H4..].
      by apply prefix_cons.
Qed.
