(* ===== verification/KmsStore.v ===== *)
(** The metadata store's transactions (poc/kms/src/fdb_hot_store.rs): minting object ids,
    beginning, renewing and forfeiting writes, appending manifest segments, the single-shot
    commit alone and batched, the lease-fenced reclaim, the orphan-version reaper, deletion,
    reads and the target roster.

    Every [db.run] is one strictly serializable step ([Fdb.run]). A scan the source makes
    with a snapshot read does not join the conflict set; it reads an extra argument [snap],
    the database at some earlier moment. Protobuf and JSON codecs come from libraries: the
    class [KmsCodec]. Fresh UUIDs and random bytes are arguments. *)
From S2P Require Import Prelude Bytes Fdb KmsKeys KmsValues.

(** ** Messages (control.proto) *)

Record ObjectHead := mkObjectHead {
  oh_object_entry_id : list byte;
  oh_current_version_id : list byte;
  oh_revision : Z;
  oh_version : Z;
  oh_logical_length_bytes : Z;
  oh_ec_profile_id : list byte;
  oh_topology_epoch : Z;
}.

Record FragmentPlan := mkFragmentPlan {
  fp_fragment_index : Z;
  fp_chunk_id : list byte;
  fp_target_id : list byte;
  fp_endpoint : list byte;
  fp_granule_index : Z;
  fp_generation : Z;
  fp_stripe_index : Z;
}.

Record StripeManifest := mkStripeManifest { sm_fragments : list FragmentPlan }.

Record ObjectVersionManifest := mkObjectVersionManifest {
  ovm_version_id : list byte;
  ovm_bucket_id : list byte;
  ovm_key : list byte;
  ovm_logical_length_bytes : Z;
  ovm_ec_profile_id : list byte;
  ovm_stripes : list StripeManifest;
  ovm_namespace_id : list byte;
  ovm_object_entry_id : list byte;
  ovm_bucket_entry_id : list byte;
}.

(** [NamespaceEntryKind as i32] *)
Definition NAMESPACE_ENTRY_KIND_COLLECTION : Z := 6.
Definition NAMESPACE_ENTRY_KIND_OBJECT : Z := 7.

Record NamespaceDomainEntry := mkNamespaceDomainEntry {
  nde_entry_id : list byte;
  nde_namespace_id : list byte;
  nde_parent_entry_id : list byte;
  nde_name : list byte;
  nde_kind : Z;
  nde_path : list byte;
  nde_size_bytes : Z;
}.

Definition TARGET_LIFECYCLE_UNSPECIFIED : Z := 0.
Definition TARGET_LIFECYCLE_ACTIVE : Z := 1.
Definition TARGET_LIFECYCLE_DRAINING : Z := 2.
Definition TARGET_LIFECYCLE_UNHEALTHY : Z := 3.
Definition TARGET_LIFECYCLE_RETIRED : Z := 4.

Record TargetRecord := mkTargetRecord {
  tr_target_id : list byte;
  tr_endpoint : list byte;
  tr_server_id : list byte;
  tr_rack_id : list byte;
  tr_failure_domain : Z;
  tr_granule_count : Z;
  tr_free_granules : Z;
  tr_healthy : bool;
  tr_last_heartbeat_unix_ms : Z;
  tr_lifecycle_state : Z;
  tr_allocation_shard_id : list byte;
}.

Record EcProfile := mkEcProfile {
  ec_id : list byte;
  ec_codec_id : list byte;
  ec_data_fragments : Z;
  ec_parity_fragments : Z;
  ec_fragment_bytes : Z;
  ec_failure_domain : Z;
}.

(** ** Codecs of the libraries (prost, serde_json)

    A decoder's error is reported as an internal status. *)

Class KmsCodec := {
  encode_object_head : ObjectHead → list byte;
  decode_object_head : list byte → result Status ObjectHead;
  encode_manifest : ObjectVersionManifest → list byte;
  decode_manifest_bytes : list byte → result Status ObjectVersionManifest;
  encode_target_record : TargetRecord → list byte;
  decode_target_record : list byte → result Status TargetRecord;
  entry_to_json : NamespaceDomainEntry → list byte;
  entry_from_json : list byte → result Status NamespaceDomainEntry;
  ec_profile_from_json : list byte → result Status EcProfile;
  (** The namespace id of a bucket's stored write context. *)
  bucket_context_namespace_id : list byte → result Status (list byte);
}.

Class KmsCodecLaws `{KmsCodec} := {
  decode_encode_object_head : ∀ h, decode_object_head (encode_object_head h) = Ok h;
  decode_encode_manifest : ∀ x, decode_manifest_bytes (encode_manifest x) = Ok x;
  decode_encode_target_record : ∀ t, decode_target_record (encode_target_record t) = Ok t;
  entry_from_to_json : ∀ e, entry_from_json (entry_to_json e) = Ok e;
}.

(** ** Object ids *)

Record ObjectIdBlock := mkObjectIdBlock { oib_next : Z; oib_end : Z }.

Definition ObjectIdBlock_default : ObjectIdBlock := mkObjectIdBlock 0 0.
Definition OBJECT_ID_BLOCK_SIZE : Z := 1024.
Definition u32_max : Z := 2 ^ 32 - 1.

(** The first four bytes, zero-padded, in little-endian order. *)
Definition counter_value (bytes : list byte) : Z :=
  of_le (take 4 bytes ++ replicate (4 - length (take 4 bytes)) x00).

(** [Option::map(decode).transpose()] *)
Definition decode_opt {A : Type} (decode : list byte → result Status A) (o : option (list byte)) :
    result Status (option A) :=
  match o with
  | Some bytes => a ← decode bytes; Ok (Some a)
  | None => Ok None
  end.

Definition utf8_string (bytes : list byte) : result Status (list byte) :=
  if utf8_valid bytes then Ok bytes else Err Internal_.

(** [str::rsplit_once('/')] *)
Fixpoint rsplit_slash (l : list byte) : option (list byte * list byte) :=
  match l with
  | [] => None
  | b :: l' =>
      match rsplit_slash l' with
      | Some (x, y) => Some (b :: x, y)
      | None => if bool_decide (b = slash) then Some ([], l') else None
      end
  end.

Definition fragments (stripes : list StripeManifest) : list FragmentPlan := stripes ≫= sm_fragments.

(** ** Commits *)

Record SingleShotCommit := mkSingleShotCommit {
  ssc_expected_prior_version : Z;
  ssc_manifest : ObjectVersionManifest;
  ssc_parent_entry_id : list byte;
  ssc_parent_path : list byte;
  ssc_topology_epoch : Z;
  ssc_omit_manifest : bool;
  ssc_seals_segments : bool;
  ssc_require_pending_version_marker : bool;
  ssc_marker_fenced : bool;
}.

Record ValidatedSingleShotCommit := mkValidated {
  vc_manifest : ObjectVersionManifest;
  vc_head_key : list byte;
  vc_object_id : Z;
  vc_object_version : Z;
  vc_expected_prior_version : Z;
  vc_parent_entry_id : list byte;
  vc_parent_path : list byte;
  vc_topology_epoch : Z;
  vc_omit_manifest : bool;
  vc_seals_segments : bool;
  vc_marker_required : bool;
  vc_marker_fenced : bool;
}.

Record SingleShotWritePlan := mkPlan {
  pl_head_key : list byte;
  pl_head : ObjectHead;
  pl_manifest : ObjectVersionManifest;
  pl_manifest_bytes : list byte;
  pl_object_entry_json : list byte;
  pl_object_entry_path : list byte;
  pl_object_id : Z;
  pl_object_version : Z;
  pl_marker_present : bool;
  pl_omit_manifest : bool;
}.

Inductive SingleShotPass1 : Type :=
| WriteReady (plan : SingleShotWritePlan)
| Idempotent (head : ObjectHead)
| Rejected (status : Status).

Definition MAX_SINGLE_SHOT_TXN_BYTES : Z := 9 * 1024 * 1024.
Definition SINGLE_SHOT_PER_FRAGMENT_TXN_BYTES : Z := 1280.
Definition PENDING_VERSION_MARKER_TXN_BYTES : Z := 512.
Definition PRESENCE_ROW_TXN_BYTES : Z := 96.
Definition IDENTITY_COORD_MAX : Z := 2 ^ 16 - 1.

Definition set_manifest_key (key : list byte) (x : ObjectVersionManifest) : ObjectVersionManifest :=
  mkObjectVersionManifest (ovm_version_id x) (ovm_bucket_id x) key (ovm_logical_length_bytes x)
    (ovm_ec_profile_id x) (ovm_stripes x) (ovm_namespace_id x) (ovm_object_entry_id x) (ovm_bucket_entry_id x).

Definition set_object_entry_id (id : list byte) (x : ObjectVersionManifest) : ObjectVersionManifest :=
  mkObjectVersionManifest (ovm_version_id x) (ovm_bucket_id x) (ovm_key x) (ovm_logical_length_bytes x)
    (ovm_ec_profile_id x) (ovm_stripes x) (ovm_namespace_id x) id (ovm_bucket_entry_id x).

Definition validate_single_shot_commit (c : SingleShotCommit) : result Status ValidatedSingleShotCommit :=
  key ← normalize_object_key (ovm_key (ssc_manifest c));
  let manifest := set_manifest_key key (ssc_manifest c) in
  let head_key := object_head_key (ovm_bucket_id manifest) (ovm_key manifest) in
  '(object_id, object_version) ← parse_version_id_parts (ovm_version_id manifest);
  if IDENTITY_COORD_MAX <? object_version then Err FailedPrecondition_
  else if existsb (fun f => (IDENTITY_COORD_MAX <? fp_stripe_index f) || (IDENTITY_COORD_MAX <? fp_fragment_index f))
            (fragments (ovm_stripes manifest))
  then Err FailedPrecondition_
  else
    let marker_required := ssc_seals_segments c || ssc_require_pending_version_marker c in
    Ok (mkValidated manifest head_key object_id object_version (ssc_expected_prior_version c)
          (ssc_parent_entry_id c) (ssc_parent_path c) (ssc_topology_epoch c) (ssc_omit_manifest c)
          (ssc_seals_segments c) marker_required (ssc_marker_fenced c && marker_required)).

(** The reclaim fence's stamp and the other big-endian times. *)
Definition be64 (t : Z) : list byte := be_bytes 8 t.

Definition rl_key_of (version_id : list byte) (f : FragmentPlan) : list byte :=
  target_reverse_log_key (fp_target_id f) version_id (fp_stripe_index f) (fp_fragment_index f).
Definition rl_value_of (f : FragmentPlan) : list byte :=
  encode_reverse_log_value (fp_generation f) (fp_granule_index f).

Section store.
Context `{Fdb KV} `{KmsCodec}.

(** ** Minting *)

(** [allocate_object_id]: the process's block, refilled from the counter when empty. *)
Definition refill_txn : M KV Status Z :=
  bytes ← trx_get object_id_counter_key;
  let current := from_option counter_value 0 bytes in
  if u32_max - OBJECT_ID_BLOCK_SIZE <=? current then lift (Err ResourceExhausted_)
  else
    _ ← trx_set object_id_counter_key (le_bytes 4 (current + OBJECT_ID_BLOCK_SIZE));
    mret current.

Definition allocate_object_id : M (ObjectIdBlock * KV) Status Z := fun '(block, m) =>
  let hand_out (block : ObjectIdBlock) (m : KV) :=
    let id := oib_next block in
    ((mkObjectIdBlock (Z.min u32_max (oib_next block + 1)) (oib_end block), m), Ok id) in
  if oib_end block <=? oib_next block then
    match run refill_txn m with
    | (m', Ok last_issued) =>
        hand_out (mkObjectIdBlock (last_issued + 1) (last_issued + 1 + OBJECT_ID_BLOCK_SIZE)) m'
    | (m', Err e) => ((block, m'), Err e)
    end
  else hand_out block m.

(** The version a write of this key gets: one more than the live head's. *)
Definition next_version (head_key : list byte) : M KV Status Z :=
  bytes ← trx_get head_key;
  head ← lift (decode_opt decode_object_head bytes);
  mret (match head with Some h => Z.min u32_max (oh_version h + 1) | None => 1 end).

(** A transaction run by a store that also holds its block of ids. *)
Definition on_db {A : Type} (t : M KV Status A) : M (ObjectIdBlock * KV) Status A := fun '(block, m) =>
  let '(m', r) := run t m in ((block, m'), r).

Definition mint_object_id (bucket_id key : list byte) : M (ObjectIdBlock * KV) Status (Z * Z) :=
  normalized_key ← lift (normalize_object_key key);
  object_id ← allocate_object_id;
  version ← on_db (next_version (object_head_key bucket_id normalized_key));
  mret (object_id, version).

(** ** Beginning, renewing, forfeiting *)

Definition begin_object_write (object_id object_version : Z) (bucket_id key : list byte) (expires_at_unix_ms : Z) :
    M KV Status unit :=
  normalized_key ← lift (normalize_object_key key);
  run (
    _ ← trx_set (object_lease_key object_id) (encode_write_lease_value expires_at_unix_ms);
    trx_set (pending_version_key object_id object_version)
      (encode_pending_version_value
         (mkPendingVersion expires_at_unix_ms PENDING_VERSION_STATE_WRITING bucket_id normalized_key))).

(** The parent's id at one level of the walk: the existing entry, or a new collection. *)
Definition resolve_level (namespace_id parent_id : list byte) (level : AutoCreateLevel) : M KV Status (list byte) :=
  let level_index_key := namespace_path_key namespace_id (acl_level_path level) in
  bytes ← trx_get level_index_key;
  existing_id ← lift (decode_opt utf8_string bytes);
  match existing_id with
  | Some id =>
      entry_bytes ← trx_get (namespace_entry_key namespace_id id);
      entry ← lift (decode_opt entry_from_json entry_bytes);
      match entry with
      | Some e => if nde_kind e =? NAMESPACE_ENTRY_KIND_OBJECT then lift (Err FailedPrecondition_) else mret id
      | None => mret id
      end
  | None =>
      let id := acl_deterministic_id level in
      let collection := mkNamespaceDomainEntry id namespace_id parent_id (acl_segment level)
        NAMESPACE_ENTRY_KIND_COLLECTION (acl_level_path level) 0 in
      _ ← trx_set (namespace_entry_key namespace_id id) (entry_to_json collection);
      _ ← trx_set level_index_key id;
      mret id
  end.

Fixpoint resolve_levels (namespace_id parent_id parent_path : list byte) (levels : list AutoCreateLevel) :
    M KV Status (list byte * list byte) :=
  match levels with
  | [] => mret (parent_id, parent_path)
  | level :: levels' =>
      level_id ← resolve_level namespace_id parent_id level;
      resolve_levels namespace_id level_id (acl_level_path level) levels'
  end.

Definition check_hint (namespace_id : list byte) (hint : option (list byte * list byte)) :
    M KV Status (option (list byte * list byte)) :=
  match hint with
  | Some (parent_entry_id, parent_path) =>
      bytes ← trx_get (namespace_path_key namespace_id parent_path);
      index_id ← lift (decode_opt utf8_string bytes);
      mret (if bool_decide (index_id = Some parent_entry_id) then Some (parent_entry_id, parent_path) else None)
  | None => mret None
  end.

Definition resolve_or_create_object_parent (namespace_id normalized_key bucket_entry_id bucket_path : list byte)
    (parent_hint : option (list byte * list byte)) : M KV Status (list byte * list byte) :=
  hint ← check_hint namespace_id parent_hint;
  match hint with
  | Some parent => mret parent
  | None =>
      match rsplit_slash normalized_key with
      | None => mret (bucket_entry_id, bucket_path)
      | Some (parent_key, _) =>
          resolve_levels namespace_id bucket_entry_id bucket_path
            (auto_create_levels bucket_entry_id bucket_path parent_key)
      end
  end.

(** The transaction of [begin_object_write_resolved], for the object id it was given. *)
Definition begin_txn (object_id : Z) (bucket_id normalized_key namespace_id bucket_entry_id bucket_path : list byte)
    (parent_hint : option (list byte * list byte)) (expires_at_unix_ms : Z) :
    M KV Status (Z * list byte * list byte) :=
  version ← next_version (object_head_key bucket_id normalized_key);
  '(parent_entry_id, parent_path) ←
    resolve_or_create_object_parent namespace_id normalized_key bucket_entry_id bucket_path parent_hint;
  _ ← trx_set (pending_version_key object_id version)
        (encode_pending_version_value
           (mkPendingVersion expires_at_unix_ms PENDING_VERSION_STATE_WRITING bucket_id normalized_key));
  _ ← trx_set (object_lease_key object_id) (encode_write_lease_value expires_at_unix_ms);
  mret (version, parent_entry_id, parent_path).

Definition begin_object_write_resolved (bucket_id key namespace_id bucket_entry_id bucket_path : list byte)
    (parent_hint : option (list byte * list byte)) (expires_at_unix_ms : Z) :
    M (ObjectIdBlock * KV) Status (Z * Z * list byte * list byte) :=
  normalized_key ← lift (normalize_object_key key);
  object_id ← allocate_object_id;
  '(version, parent_entry_id, parent_path) ←
    on_db (begin_txn object_id bucket_id normalized_key namespace_id bucket_entry_id bucket_path parent_hint
             expires_at_unix_ms);
  mret (object_id, version, parent_entry_id, parent_path).

(** The first marker row of an object's rows, decoded; rows whose key does not parse are passed over. *)
Fixpoint find_marker (rows : list (list byte * list byte)) : result Status (option (list byte * PendingVersion)) :=
  match rows with
  | [] => Ok None
  | (key, value) :: rows' =>
      match decode_pending_version_key_parts key with
      | Ok (_, _, None) => pending ← decode_pending_version_value value; Ok (Some (key, pending))
      | _ => find_marker rows'
      end
  end.

Definition with_expiry_max (expires : Z) (p : PendingVersion) : PendingVersion :=
  mkPendingVersion (Z.max (pv_expires_at_unix_ms p) expires) (pv_state p) (pv_bucket_id p) (pv_key p).

Definition renew_object_write (object_id new_expires_at_unix_ms : Z) : M KV Status unit :=
  run (
    rows ← trx_range (pending_version_object_range object_id);
    marker ← lift (find_marker rows);
    match marker with
    | None => lift (Err FailedPrecondition_)
    | Some (marker_key, pending) =>
        if bool_decide (pv_state pending = PENDING_VERSION_STATE_RECLAIMING) then lift (Err FailedPrecondition_)
        else
          _ ← trx_set (object_lease_key object_id) (encode_write_lease_value new_expires_at_unix_ms);
          trx_set marker_key (encode_pending_version_value (with_expiry_max new_expires_at_unix_ms pending))
    end).

Definition forfeit_object_write (object_id object_version : Z) : M KV Status unit :=
  let marker_key := pending_version_key object_id object_version in
  run (
    bytes ← trx_get marker_key;
    match bytes with
    | None => mret tt
    | Some bytes =>
        pending ← lift (decode_pending_version_value bytes);
        _ ← (if bool_decide (pv_state pending = PENDING_VERSION_STATE_WRITING)
             then trx_set marker_key (encode_pending_version_value
                    (mkPendingVersion 0 PENDING_VERSION_STATE_RECLAIMING (pv_bucket_id pending) (pv_key pending)))
             else mret tt);
        trx_clear (object_lease_key object_id)
    end).

(** ** Rows of a manifest's fragments (store.rs) *)

Definition write_reverse_log (version_id : list byte) (stripes : list StripeManifest) : M KV Status unit :=
  trx_each (fun stripe =>
    trx_each (fun f => trx_set (rl_key_of version_id f) (rl_value_of f)) (sm_fragments stripe)) stripes.

Definition occ_key_of (version_id : list byte) (f : FragmentPlan) : list byte :=
  target_current_fragment_key (fp_target_id f) version_id (fp_stripe_index f) (fp_fragment_index f).
Definition kco_key_of (f : FragmentPlan) : list byte := committed_granule_key (fp_target_id f) (fp_granule_index f).

Definition write_target_current_fragment_index (version_id : list byte) (stripes : list StripeManifest) :
    M KV Status unit :=
  trx_each (fun stripe =>
    trx_each (fun f =>
      _ ← trx_set (occ_key_of version_id f) [];
      trx_set (kco_key_of f) (encode_committed_granule (mkCommittedGranule version_id (fp_generation f))))
      (sm_fragments stripe)) stripes.

Definition clear_target_current_fragment_index (version_id : list byte) (stripes : list StripeManifest) :
    M KV Status unit :=
  trx_each (fun stripe =>
    trx_each (fun f =>
      _ ← trx_clear (occ_key_of version_id f);
      trx_clear (kco_key_of f)) (sm_fragments stripe)) stripes.

(** The rendezvous with the reclaimer: no row about to be written is a tombstone. *)
Fixpoint check_rows (version_id : list byte) (fs : list FragmentPlan) : M KV Status unit :=
  match fs with
  | [] => mret tt
  | f :: fs' =>
      value ← trx_get (rl_key_of version_id f);
      if match value with Some v => is_reverse_log_reclaim_tombstone v | None => false end
      then lift (Err FailedPrecondition_)
      else check_rows version_id fs'
  end.

(** The error as a value. *)
Definition attempt {A : Type} (t : M KV Status A) : M KV Status (result Status A) := fun m =>
  let '(m', r) := t m in (m', Ok r).

(** ** Segments *)

(** [sort_unstable] then [dedup] of the targets. *)
Fixpoint insert_target (t : list byte) (l : list (list byte)) : list (list byte) :=
  match l with
  | [] => [t]
  | t' :: l' =>
      if bytes_ltb t t' then t :: l
      else if bool_decide (t = t') then l
      else t' :: insert_target t l'
  end.

Definition presence_targets (stripes : list StripeManifest) : list (list byte) :=
  foldr insert_target [] (fp_target_id <$> fragments stripes).

Definition append_manifest_segment (version_id : list byte) (stripes : list StripeManifest)
    (marker_expires_at_unix_ms : Z) (marker_fenced : bool) : M KV Status unit :=
  '(object_id, object_version) ← lift (parse_version_id_parts version_id);
  let marker_key := pending_version_key object_id object_version in
  let presence_keys := pending_version_target_key object_id object_version <$> presence_targets stripes in
  let estimated_txn_bytes :=
    saturating_add64
      (saturating_add64
         (saturating_mul 64 (len (fragments stripes)) SINGLE_SHOT_PER_FRAGMENT_TXN_BYTES)
         PENDING_VERSION_MARKER_TXN_BYTES)
      (saturating_mul 64 (len presence_keys) PRESENCE_ROW_TXN_BYTES) in
  if MAX_SINGLE_SHOT_TXN_BYTES <? estimated_txn_bytes then lift (Err FailedPrecondition_)
  else
    run (
      marker_bytes ← trx_get marker_key;
      fence_bytes ← (if marker_fenced then trx_get (version_reclaim_fence_key object_id object_version)
                     else mret None);
      marker_bytes ← lift (ok_or marker_bytes FailedPrecondition_);
      pending ← lift (decode_pending_version_value marker_bytes);
      if negb (bool_decide (pv_state pending = PENDING_VERSION_STATE_WRITING))
      then lift (Err FailedPrecondition_)
      else
        _ ← (if marker_fenced
             then (if bool_decide (is_Some fence_bytes) then lift (Err FailedPrecondition_) else mret tt)
             else check_rows version_id (fragments stripes));
        _ ← trx_set marker_key (encode_pending_version_value (with_expiry_max marker_expires_at_unix_ms pending));
        _ ← write_reverse_log version_id stripes;
        _ ← trx_each (fun k => trx_set k []) presence_keys;
        write_target_current_fragment_index version_id stripes).

(** ** The single-shot commit *)

(** The reads of the marker, and the fence in fenced mode, decide whether the version may still commit. *)
Definition pass1_marker (vc : ValidatedSingleShotCommit) (marker_bytes fence_bytes : option (list byte)) :
    result Status bool :=
  marker_state ← decode_opt decode_pending_version_value marker_bytes;
  match marker_state with
  | Some pending =>
      if negb (bool_decide (pv_state pending = PENDING_VERSION_STATE_WRITING)) then Err FailedPrecondition_
      else if vc_marker_fenced vc && bool_decide (is_Some fence_bytes) then Err FailedPrecondition_
      else Ok true
  | None =>
      if vc_marker_required vc then Err FailedPrecondition_
      else if vc_marker_fenced vc && bool_decide (is_Some fence_bytes) then Err FailedPrecondition_
      else Ok false
  end.

(** The writes of a commit that passed every check. *)
Definition prepare_plan (uuid : list byte) (vc : ValidatedSingleShotCommit) (marker_present : bool) : SingleShotPass1 :=
  let manifest0 := vc_manifest vc in
  let manifest := if bool_decide (ovm_object_entry_id manifest0 = []) then set_object_entry_id uuid manifest0 else manifest0 in
  let manifest_bytes := if vc_omit_manifest vc then [] else encode_manifest manifest in
  let estimated_txn_bytes :=
    saturating_add64 (len manifest_bytes)
      (saturating_mul 64 (len (fragments (ovm_stripes manifest))) SINGLE_SHOT_PER_FRAGMENT_TXN_BYTES) in
  if MAX_SINGLE_SHOT_TXN_BYTES <? estimated_txn_bytes then Rejected FailedPrecondition_
  else
    let object_name := default (ovm_key manifest) (last (split_slash (ovm_key manifest))) in
    let object_path := join_path (vc_parent_path vc) object_name in
    let object_entry := mkNamespaceDomainEntry (ovm_object_entry_id manifest) (ovm_namespace_id manifest)
      (vc_parent_entry_id vc) object_name NAMESPACE_ENTRY_KIND_OBJECT object_path (ovm_logical_length_bytes manifest) in
    let head := mkObjectHead (ovm_object_entry_id manifest) (ovm_version_id manifest) 0
      (vc_expected_prior_version vc + 1) (ovm_logical_length_bytes manifest) (ovm_ec_profile_id manifest)
      (vc_topology_epoch vc) in
    WriteReady (mkPlan (vc_head_key vc) head manifest manifest_bytes (entry_to_json object_entry) object_path
      (vc_object_id vc) (vc_object_version vc) marker_present (vc_omit_manifest vc)).

(** A retried commit whose own version already won. *)
Definition idempotent_head (version_id : list byte) (prior : option ObjectHead) : option ObjectHead :=
  match prior with
  | Some existing => if bool_decide (oh_current_version_id existing = version_id) then Some existing else None
  | None => None
  end.

(** A rejection is a value; only a head that does not decode fails the transaction. *)
Definition single_shot_pass1 (uuid : list byte) (vc : ValidatedSingleShotCommit) : M KV Status SingleShotPass1 :=
  prior_bytes ← trx_get (vc_head_key vc);
  marker_bytes ← trx_get (pending_version_key (vc_object_id vc) (vc_object_version vc));
  fence_bytes ← (if vc_marker_fenced vc
                 then trx_get (version_reclaim_fence_key (vc_object_id vc) (vc_object_version vc))
                 else mret None);
  prior ← lift (decode_opt decode_object_head prior_bytes);
  let manifest := vc_manifest vc in
  let witnessed := from_option oh_version 0 prior in
  match idempotent_head (ovm_version_id manifest) prior with
  | Some existing => mret (Idempotent existing)
  | None =>
      if negb (witnessed =? vc_expected_prior_version vc) then mret (Rejected FailedPrecondition_)
      else if bool_decide (is_Some prior) then mret (Rejected FailedPrecondition_)
      else
        match pass1_marker vc marker_bytes fence_bytes with
        | Err status => mret (Rejected status)
        | Ok marker_present =>
            checked ← (if vc_marker_fenced vc then mret (Ok tt)
                       else attempt (check_rows (ovm_version_id manifest) (fragments (ovm_stripes manifest))));
            mret (match checked with
                  | Ok _ => prepare_plan uuid vc marker_present
                  | Err status => Rejected status
                  end)
        end
  end.

Definition single_shot_pass2 (plan : SingleShotWritePlan) : M KV Status unit :=
  let manifest := pl_manifest plan in
  let version_id := ovm_version_id manifest in
  _ ← (if pl_omit_manifest plan then mret tt
       else store_blob (object_version_key version_id) (object_version_chunk_prefix version_id)
              (object_version_chunk_key version_id) (pl_manifest_bytes plan));
  _ ← write_reverse_log version_id (ovm_stripes manifest);
  _ ← write_target_current_fragment_index version_id (ovm_stripes manifest);
  _ ← trx_set (namespace_entry_key (ovm_namespace_id manifest) (ovm_object_entry_id manifest)) (pl_object_entry_json plan);
  _ ← trx_set (namespace_path_key (ovm_namespace_id manifest) (pl_object_entry_path plan)) (ovm_object_entry_id manifest);
  _ ← trx_set (pl_head_key plan) (encode_object_head (pl_head plan));
  _ ← trx_clear (object_lease_key (pl_object_id plan));
  if pl_marker_present plan
  then trx_clear_range (pending_version_subspace_range (pl_object_id plan) (pl_object_version plan))
  else mret tt.

Definition commit_object_single_shot (uuid : list byte) (commit : SingleShotCommit) : M KV Status ObjectHead :=
  vc ← lift (validate_single_shot_commit commit);
  run (
    outcome ← single_shot_pass1 uuid vc;
    match outcome with
    | WriteReady plan => _ ← single_shot_pass2 plan; mret (pl_head plan)
    | Idempotent head => mret head
    | Rejected status => lift (Err status)
    end).

(** ** The batched commit *)

Fixpoint batch_slots (seen : list (list byte * list byte)) (commits : list SingleShotCommit) :
    list (result Status ValidatedSingleShotCommit) :=
  match commits with
  | [] => []
  | commit :: commits' =>
      match validate_single_shot_commit commit with
      | Ok vc =>
          let dedup_key := (ovm_bucket_id (vc_manifest vc), ovm_key (vc_manifest vc)) in
          if bool_decide (dedup_key ∈ seen) then Err FailedPrecondition_ :: batch_slots seen commits'
          else Ok vc :: batch_slots (dedup_key :: seen) commits'
      | Err status => Err status :: batch_slots seen commits'
      end
  end.

(** Pass 1 of every attempt, before any write. *)
Fixpoint batch_pass1 (attempts : list (list byte * ValidatedSingleShotCommit)) : M KV Status (list SingleShotPass1) :=
  match attempts with
  | [] => mret []
  | (uuid, vc) :: attempts' =>
      outcome ← single_shot_pass1 uuid vc;
      outcomes ← batch_pass1 attempts';
      mret (outcome :: outcomes)
  end.

Definition outcome_result (outcome : SingleShotPass1) : result Status ObjectHead :=
  match outcome with
  | WriteReady plan => Ok (pl_head plan)
  | Idempotent head => Ok head
  | Rejected status => Err status
  end.

Definition batch_txn (attempts : list (list byte * ValidatedSingleShotCommit)) : M KV Status (list (result Status ObjectHead)) :=
  outcomes ← batch_pass1 attempts;
  _ ← trx_each (fun outcome =>
         match outcome with
         | WriteReady plan => single_shot_pass2 plan
         | _ => mret tt
         end) outcomes;
  mret (outcome_result <$> outcomes).

(** Each slot that was attempted takes the next result. *)
Fixpoint merge_slots {A B : Type} (slots : list (result Status A)) (results : list (result Status B)) : list (result Status B) :=
  match slots with
  | [] => []
  | Err status :: slots' => Err status :: merge_slots slots' results
  | Ok _ :: slots' =>
      match results with
      | r :: results' => r :: merge_slots slots' results'
      | [] => []
      end
  end.

(** The attempts with the UUID each may need. *)
Definition batch_attempts (uuid : nat → list byte) (slots : list (result Status ValidatedSingleShotCommit)) :
    list (list byte * ValidatedSingleShotCommit) :=
  imap (fun i vc => (uuid i, vc)) (omap result_ok slots).

Definition commit_objects_single_shot_batch (uuid : nat → list byte) (commits : list SingleShotCommit) :
    M KV Status (list (result Status ObjectHead)) :=
  let slots := batch_slots [] commits in
  let attempts := batch_attempts uuid slots in
  results ← (if bool_decide (attempts = []) then mret [] else run (batch_txn attempts));
  mret (merge_slots slots results).

(** ** Salt, heads, reads *)

Definition get_or_init_cluster_salt (random_salt : list byte) : M KV Status (list byte) :=
  run (
    existing ← trx_get cluster_salt_key;
    match existing with
    | Some salt => mret salt
    | None => _ ← trx_set cluster_salt_key random_salt; mret random_salt
    end).

Definition get_object_head (bucket_id key_path : list byte) : M KV Status (option ObjectHead) :=
  normalized_key ← lift (normalize_object_key key_path);
  run (bytes ← trx_get (object_head_key bucket_id normalized_key); lift (decode_opt decode_object_head bytes)).

Definition load_manifest (version_id : list byte) : M KV Status (option (list byte)) :=
  load_blob (object_version_key version_id) (object_version_chunk_key version_id).

Definition resolve_object_read (bucket_id key_path : list byte) : M KV Status (ObjectVersionManifest * EcProfile) :=
  key_path ← lift (normalize_object_key key_path);
  run (
    head_bytes ← trx_get (object_head_key bucket_id key_path);
    head_bytes ← lift (ok_or head_bytes NotFound_);
    head ← lift (decode_object_head head_bytes);
    manifest_bytes ← load_manifest (oh_current_version_id head);
    manifest_bytes ← lift (ok_or manifest_bytes NotFound_);
    manifest ← lift (decode_manifest_bytes manifest_bytes);
    profile_bytes ← trx_get (ec_profile_key (ovm_ec_profile_id manifest));
    profile_bytes ← lift (ok_or profile_bytes NotFound_);
    profile ← lift (ec_profile_from_json profile_bytes);
    mret (manifest, profile)).

(** ** Leases *)

Fixpoint reap_rows (now_unix_ms grace_ms limit reaped : Z) (rows : list (list byte * list byte)) : M KV Status Z :=
  match rows with
  | [] => mret reaped
  | (key, value) :: rows' =>
      if limit <=? reaped then mret reaped
      else
        expiry ← lift (decode_write_lease_expiry value);
        if saturating_add64 expiry grace_ms <=? now_unix_ms
        then _ ← trx_clear key; reap_rows now_unix_ms grace_ms limit (reaped + 1) rows'
        else reap_rows now_unix_ms grace_ms limit reaped rows'
  end.

Definition reap_expired_leases (now_unix_ms grace_ms limit : Z) : M KV Status Z :=
  run (rows ← trx_range object_lease_range; reap_rows now_unix_ms grace_ms limit 0 rows).

(** ** The lease-fenced reclaim

    [CommittedLive] is the source's [Committed], a name the rows of the reverse log have too. *)

Inductive OrphanReclaimDecision : Set :=
| Authorized
| CommittedLive
| LeaseActive
| AlreadyReclaimed.

Definition marker_shields (now_unix_ms lease_grace_ms : Z) (marker : option (list byte)) : bool :=
  match marker with
  | Some bytes =>
      match decode_pending_version_value bytes with
      | Ok pending =>
          bool_decide (pv_state pending = PENDING_VERSION_STATE_WRITING) &&
          (now_unix_ms <? saturating_add64 (pv_expires_at_unix_ms pending) lease_grace_ms)
      | Err _ => false
      end
  | None => false
  end.

Definition lease_active (now_unix_ms lease_grace_ms : Z) (lease : option (list byte)) : result Status bool :=
  match lease with
  | Some bytes =>
      expiry ← decode_write_lease_expiry bytes;
      Ok (now_unix_ms <? saturating_add64 expiry lease_grace_ms)
  | None => Ok false
  end.

Definition authorize_orphan_reclaim (target_id : list byte) (object_id object_version stripe_index fragment_index : Z)
    (now_unix_ms lease_grace_ms : Z) : M KV Status OrphanReclaimDecision :=
  let version_id := version_id_text object_id object_version in
  let rl_key := target_reverse_log_key target_id version_id stripe_index fragment_index in
  let occupancy_key := target_current_fragment_key target_id version_id stripe_index fragment_index in
  let fence_key := version_reclaim_fence_key object_id object_version in
  run (
    existing ← trx_get rl_key;
    match existing with
    | Some existing =>
        if is_reverse_log_reclaim_tombstone existing
        then _ ← trx_set fence_key (be64 now_unix_ms); mret AlreadyReclaimed
        else mret CommittedLive
    | None =>
        occupancy ← trx_get occupancy_key;
        if bool_decide (is_Some occupancy) then mret CommittedLive
        else
          marker ← trx_get (pending_version_key object_id object_version);
          if marker_shields now_unix_ms lease_grace_ms marker then mret LeaseActive
          else
            lease ← trx_get (object_lease_key object_id);
            active ← lift (lease_active now_unix_ms lease_grace_ms lease);
            if (active : bool) then mret LeaseActive
            else
              _ ← trx_set rl_key REVERSE_LOG_RECLAIM_TOMBSTONE;
              _ ← trx_set fence_key (be64 now_unix_ms);
              mret Authorized
    end).

(** ** The orphan-version reaper *)

Record OrphanVersionCandidate := mkCandidate {
  oc_object_id : Z;
  oc_object_version : Z;
  oc_state : byte;
  oc_expires_at_unix_ms : Z;
}.

(** Candidates and the count of rows that did not decode. *)
Fixpoint scan_rows (now_unix_ms claim_grace_ms : Z) (rows : list (list byte * list byte)) :
    list OrphanVersionCandidate * Z :=
  match rows with
  | [] => ([], 0)
  | (key, value) :: rows' =>
      let '(candidates, undecodable) := scan_rows now_unix_ms claim_grace_ms rows' in
      match decode_pending_version_key_parts key with
      | Err _ => (candidates, undecodable + 1)
      | Ok (_, _, Some _) => (candidates, undecodable)
      | Ok (object_id, object_version, None) =>
          match decode_pending_version_value value with
          | Err _ => (candidates, undecodable + 1)
          | Ok pending =>
              if bool_decide (pv_state pending = PENDING_VERSION_STATE_RECLAIMING) ||
                 (bool_decide (pv_state pending = PENDING_VERSION_STATE_WRITING) &&
                  pending_version_claim_eligible pending now_unix_ms claim_grace_ms)
              then (mkCandidate object_id object_version (pv_state pending) (pv_expires_at_unix_ms pending) :: candidates,
                    undecodable)
              else (candidates, undecodable)
          end
      end
  end.

(** Where a paged scan starts: after the cursor, or at the start of the range. *)
Definition scan_from (cursor : option (list byte)) (start : list byte) : list byte :=
  match cursor with Some key => key ++ [x00] | None => start end.

Definition next_cursor (row_limit : Z) (rows : list (list byte * list byte)) : option (list byte) :=
  if row_limit <=? len rows then fst <$> last rows else None.

Definition scan_pending_versions (cursor : option (list byte)) (row_limit now_unix_ms claim_grace_ms : Z) (snap : KV) :
    list OrphanVersionCandidate * option (list byte) * Z :=
  if row_limit =? 0 then ([], None, 0)
  else
    let '(scan_begin, scan_end) := pending_version_scan_range in
    let rows := kv_range_limit (scan_from cursor scan_begin) scan_end row_limit snap in
    let '(candidates, undecodable) := scan_rows now_unix_ms claim_grace_ms rows in
    (candidates, next_cursor row_limit rows, undecodable).

Record OrphanTargetResume := mkResume { otr_target_id : list byte; otr_cursor : option (list byte) }.

Inductive OrphanVersionClaim : Type :=
| Claimed (targets : list OrphanTargetResume)
| Resumed (targets : list OrphanTargetResume)
| SkippedWriterAlive
| SkippedHeadLive
| Gone.

Definition resume_of_row (row : list byte * list byte) : option OrphanTargetResume :=
  match decode_pending_version_key_parts row.1 with
  | Ok (_, _, Some target_id) =>
      Some (mkResume target_id (if bool_decide (row.2 = []) then None else Some row.2))
  | _ => None
  end.

(** The marker names the version that is the live head of its key. *)
Definition head_is_live (version_id : list byte) (pending : PendingVersion) : M KV Status bool :=
  if bool_decide (pv_bucket_id pending = []) || bool_decide (pv_key pending = []) then mret false
  else
    head_bytes ← trx_get (object_head_key (pv_bucket_id pending) (pv_key pending));
    head ← lift (decode_opt decode_object_head head_bytes);
    mret (match head with Some h => bool_decide (oh_current_version_id h = version_id) | None => false end).

Definition claim_targets (object_id object_version : Z) : M KV Status (list OrphanTargetResume) :=
  rows ← trx_range (pending_version_subspace_range object_id object_version);
  mret (omap resume_of_row rows).

Definition claim_txn (object_id object_version now_unix_ms claim_grace_ms lease_grace_ms : Z) :
    M KV Status OrphanVersionClaim :=
  let marker_key := pending_version_key object_id object_version in
  marker_bytes ← trx_get marker_key;
  match marker_bytes with
  | None => mret Gone
  | Some marker_bytes =>
      pending ← lift (decode_pending_version_value marker_bytes);
      if bool_decide (pv_state pending = PENDING_VERSION_STATE_RECLAIMING)
      then targets ← claim_targets object_id object_version; mret (Resumed targets)
      else if negb (pending_version_claim_eligible pending now_unix_ms claim_grace_ms) then mret SkippedWriterAlive
      else
        lease ← trx_get (object_lease_key object_id);
        active ← lift (lease_active now_unix_ms lease_grace_ms lease);
        if (active : bool) then mret SkippedWriterAlive
        else
          live ← head_is_live (version_id_text object_id object_version) pending;
          if (live : bool)
          then _ ← trx_clear_range (pending_version_subspace_range object_id object_version); mret SkippedHeadLive
          else
            targets ← claim_targets object_id object_version;
            _ ← trx_set marker_key (encode_pending_version_value
                  (mkPendingVersion now_unix_ms PENDING_VERSION_STATE_RECLAIMING (pv_bucket_id pending) (pv_key pending)));
            mret (Claimed targets)
  end.

Definition claim_orphan_version (object_id object_version now_unix_ms claim_grace_ms lease_grace_ms : Z) :
    M KV Status OrphanVersionClaim :=
  run (claim_txn object_id object_version now_unix_ms claim_grace_ms lease_grace_ms).

Record OrphanVersionCleanPage := mkCleanPage {
  cp_rows_cleared : Z;
  cp_kco1_cleared : Z;
  cp_tombstones_skipped : Z;
  cp_unrecognized_skipped : Z;
  cp_next_cursor : option (list byte);
  cp_target_done : bool;
}.

Definition clean_page_default : OrphanVersionCleanPage := mkCleanPage 0 0 0 0 None false.

(** One row of a page: a committed row goes with its occupancy rows; a tombstone stays. *)
Definition clean_row (target_id : list byte) (page : OrphanVersionCleanPage) (row : list byte * list byte) :
    M KV Status OrphanVersionCleanPage :=
  let '(mkCleanPage c k t u n d) := page in
  match classify_reverse_log_value row.2 with
  | Committed _ granule_index =>
      _ ← trx_clear row.1;
      _ ← trx_clear (occupancy_key_for_reverse_log_key row.1);
      _ ← trx_clear (committed_granule_key target_id granule_index);
      mret (mkCleanPage (c + 1) (k + 1) t u n d)
  | ReclaimTombstone => mret (mkCleanPage c k (t + 1) u n d)
  | Unrecognized => mret (mkCleanPage c k t (u + 1) n d)
  end.

Fixpoint clean_rows (target_id : list byte) (page : OrphanVersionCleanPage) (rows : list (list byte * list byte)) :
    M KV Status OrphanVersionCleanPage :=
  match rows with
  | [] => mret page
  | row :: rows' => page' ← clean_row target_id page row; clean_rows target_id page' rows'
  end.

Definition clean_finish (object_id object_version : Z) (target_id : list byte) (row_limit : Z)
    (rows : list (list byte * list byte)) (page : OrphanVersionCleanPage) : M KV Status OrphanVersionCleanPage :=
  let version_id := version_id_text object_id object_version in
  let presence_key := pending_version_target_key object_id object_version target_id in
  let '(mkCleanPage c k t u n d) := page in
  if len rows <? row_limit then
    _ ← trx_clear_range (target_current_fragment_version_range target_id version_id);
    _ ← trx_clear presence_key;
    mret (mkCleanPage c k t u n true)
  else
    match fst <$> last rows with
    | Some cursor => _ ← trx_set presence_key cursor; mret (mkCleanPage c k t u (Some cursor) d)
    | None => mret (mkCleanPage c k t u None d)
    end.

Definition clean_txn (object_id object_version : Z) (target_id : list byte) (cursor : option (list byte)) (row_limit : Z) :
    M KV Status OrphanVersionCleanPage :=
  let version_id := version_id_text object_id object_version in
  let '(range_begin, range_end) := target_reverse_log_version_range target_id version_id in
  marker_bytes ← trx_get (pending_version_key object_id object_version);
  match marker_bytes with
  | None => mret (mkCleanPage 0 0 0 0 None true)
  | Some marker_bytes =>
      pending ← lift (decode_pending_version_value marker_bytes);
      if negb (bool_decide (pv_state pending = PENDING_VERSION_STATE_RECLAIMING)) then lift (Err Internal_)
      else
        rows ← trx_range_limit (scan_from cursor range_begin, range_end) row_limit;
        page ← clean_rows target_id clean_page_default rows;
        clean_finish object_id object_version target_id row_limit rows page
  end.

Definition clean_orphan_version_target_page (object_id object_version : Z) (target_id : list byte)
    (cursor : option (list byte)) (row_limit : Z) : M KV Status OrphanVersionCleanPage :=
  run (clean_txn object_id object_version target_id cursor row_limit).

Definition finish_txn (object_id object_version : Z) : M KV Status bool :=
  marker_bytes ← trx_get (pending_version_key object_id object_version);
  match marker_bytes with
  | None => mret true
  | Some marker_bytes =>
      pending ← lift (decode_pending_version_value marker_bytes);
      if negb (bool_decide (pv_state pending = PENDING_VERSION_STATE_RECLAIMING)) then lift (Err Internal_)
      else
        rows ← trx_range_limit (pending_version_subspace_range object_id object_version) 2;
        if 1 <? len rows then mret false
        else
          _ ← trx_clear_range (pending_version_subspace_range object_id object_version);
          _ ← trx_clear (version_reclaim_fence_key object_id object_version);
          mret true
  end.

Definition finish_orphan_version (object_id object_version : Z) : M KV Status bool :=
  run (finish_txn object_id object_version).

(** ** Reclaim fences *)

(** Fences of the scanned page old enough to retire: key, object id, version. *)
Definition fence_candidate (now_unix_ms older_than_ms : Z) (row : list byte * list byte) : option (list byte * Z * Z) :=
  match decode_version_reclaim_fence_key_parts row.1 with
  | Ok (object_id, object_version) =>
      if negb (len row.2 =? 8) then None
      else if saturating_add64 (of_be row.2) older_than_ms <=? now_unix_ms
      then Some (row.1, object_id, object_version) else None
  | Err _ => None
  end.

(** The re-check of every candidate, before any clear. *)
Fixpoint recheck_fences (candidates : list (list byte * Z * Z)) : M KV Status (list (list byte)) :=
  match candidates with
  | [] => mret []
  | (fence_key, object_id, object_version) :: candidates' =>
      marker ← trx_get (pending_version_key object_id object_version);
      lease ← trx_get (object_lease_key object_id);
      keys ← recheck_fences candidates';
      mret (if bool_decide (marker = None) && bool_decide (lease = None) then fence_key :: keys else keys)
  end.

Definition sweep_reclaim_fences (snap : KV) (now_unix_ms older_than_ms row_limit : Z) (cursor : option (list byte)) :
    M KV Status (Z * option (list byte)) :=
  if row_limit =? 0 then mret (0, None)
  else
    let '(scan_begin, scan_end) := version_reclaim_fence_scan_range in
    let rows := kv_range_limit (scan_from cursor scan_begin) scan_end row_limit snap in
    run (
      keys ← recheck_fences (omap (fence_candidate now_unix_ms older_than_ms) rows);
      _ ← trx_each trx_clear keys;
      mret (len keys, next_cursor row_limit rows)).

Definition BACKFILL_ROWS_PER_TXN : Z := 8192.

(** The version a tombstone row belongs to. *)
Definition tombstone_version (row : list byte * list byte) : option (Z * Z) :=
  if negb (is_reverse_log_reclaim_tombstone row.2) then None
  else
    version_id ← result_ok (decode_reverse_log_key_version_id row.1);
    result_ok (parse_version_id_parts version_id).

(** The first occurrence of each element ([HashSet::insert] as a filter). *)
Fixpoint first_occurrences (seen l : list (Z * Z)) : list (Z * Z) :=
  match l with
  | [] => []
  | x :: l' => if bool_decide (x ∈ seen) then first_occurrences seen l' else x :: first_occurrences (x :: seen) l'
  end.

(** One page of the backfill, over a snapshot of the reverse log. *)
Definition backfill_page (snap : KV) (now_unix_ms : Z) (start : list byte) : M KV Status (Z * option (list byte)) :=
  let rows := kv_range_limit start target_reverse_log_scan_range.2 BACKFILL_ROWS_PER_TXN snap in
  let versions := first_occurrences [] (omap tombstone_version rows) in
  run (
    _ ← trx_each (fun '(object_id, object_version) =>
           trx_set (version_reclaim_fence_key object_id object_version) (be64 now_unix_ms)) versions;
    mret (len versions, next_cursor BACKFILL_ROWS_PER_TXN rows)).

(** ** The target roster *)

Definition set_lifecycle (state : Z) (healthy : bool) (heartbeat : Z) (t : TargetRecord) : TargetRecord :=
  mkTargetRecord (tr_target_id t) (tr_endpoint t) (tr_server_id t) (tr_rack_id t) (tr_failure_domain t)
    (tr_granule_count t) (tr_free_granules t) healthy heartbeat state (tr_allocation_shard_id t).

Definition register_target (target : TargetRecord) : M KV Status TargetRecord :=
  if bool_decide (tr_target_id target = []) then lift (Err InvalidArgument_)
  else
    let state := if tr_lifecycle_state target =? TARGET_LIFECYCLE_UNSPECIFIED then TARGET_LIFECYCLE_ACTIVE
                 else tr_lifecycle_state target in
    let free := if tr_free_granules target =? 0 then tr_granule_count target else tr_free_granules target in
    let target := mkTargetRecord (tr_target_id target) (tr_endpoint target) (tr_server_id target) (tr_rack_id target)
      (tr_failure_domain target) (tr_granule_count target) free true (tr_last_heartbeat_unix_ms target) state
      (tr_allocation_shard_id target) in
    _ ← run (trx_set (target_inventory_key (tr_target_id target)) (encode_target_record target));
    mret target.

Definition update_target (target_id : list byte) (f : TargetRecord → TargetRecord) : M KV Status TargetRecord :=
  run (
    bytes ← trx_get (target_inventory_key target_id);
    record ← lift (decode_opt decode_target_record bytes);
    record ← lift (ok_or record NotFound_);
    _ ← trx_set (target_inventory_key target_id) (encode_target_record (f record));
    mret (f record)).

Definition heartbeat_target (target_id : list byte) (healthy : bool) (observed_unix_ms : Z) : M KV Status TargetRecord :=
  update_target target_id (fun r => set_lifecycle (tr_lifecycle_state r) healthy observed_unix_ms r).

Definition set_target_lifecycle (target_id : list byte) (lifecycle_state now_unix_ms : Z) : M KV Status TargetRecord :=
  if lifecycle_state =? TARGET_LIFECYCLE_UNSPECIFIED then lift (Err InvalidArgument_)
  else
    update_target target_id (fun r =>
      if lifecycle_state =? TARGET_LIFECYCLE_ACTIVE then set_lifecycle lifecycle_state true now_unix_ms r
      else if lifecycle_state =? TARGET_LIFECYCLE_UNHEALTHY then set_lifecycle lifecycle_state false now_unix_ms r
      else set_lifecycle lifecycle_state (tr_healthy r) (tr_last_heartbeat_unix_ms r) r).

(** Insertion by target id: a stable sort. *)
Fixpoint insert_record (t : TargetRecord) (l : list TargetRecord) : list TargetRecord :=
  match l with
  | [] => [t]
  | t' :: l' => if bytes_ltb (tr_target_id t') (tr_target_id t) then t' :: insert_record t l' else t :: l
  end.

Definition list_targets : M KV Status (list TargetRecord) :=
  run (
    rows ← trx_range target_inventory_range;
    targets ← lift (try_map (fun row => decode_target_record row.2) rows);
    mret (foldr insert_record [] targets)).

(** ** Deletion *)

Record DeletedObject := mkDeletedObject {
  do_bucket_id : list byte;
  do_key : list byte;
  do_deleted_versions : list ObjectVersionManifest;
}.

(** A version with no stored manifest: its rows go by range, on every target of the roster. *)
Definition clear_version_rows (version_id : list byte) (roster : list (list byte)) : M KV Status unit :=
  trx_each (fun target_id =>
    _ ← trx_clear_range (target_reverse_log_version_range target_id version_id);
    trx_clear_range (target_current_fragment_version_range target_id version_id)) roster.

Definition delete_rows (bucket_id key_path bucket_namespace_id : list byte) (roster : list (list byte)) (head : ObjectHead)
    (manifest_bytes : option (list byte)) : M KV Status ObjectVersionManifest :=
  let version_id := oh_current_version_id head in
  match manifest_bytes with
  | Some bytes =>
      manifest ← lift (decode_manifest_bytes bytes);
      _ ← clear_target_current_fragment_index (ovm_version_id manifest) (ovm_stripes manifest);
      mret manifest
  | None =>
      _ ← lift (map_err (fun _ => FailedPrecondition_) (parse_version_id_parts version_id));
      _ ← clear_version_rows version_id roster;
      mret (mkObjectVersionManifest version_id bucket_id key_path (oh_logical_length_bytes head) (oh_ec_profile_id head)
              [] bucket_namespace_id (oh_object_entry_id head) [])
  end.

Definition clear_entry (namespace_id entry_id : list byte) : M KV Status unit :=
  let entry_key := namespace_entry_key namespace_id entry_id in
  entry_bytes ← trx_get entry_key;
  _ ← (match entry_bytes with
       | Some bytes =>
           match entry_from_json bytes with
           | Ok entry => trx_clear (namespace_path_key (nde_namespace_id entry) (nde_path entry))
           | Err _ => mret tt
           end
       | None => mret tt
       end);
  trx_clear entry_key.

(** The deleting transaction, given the roster and the bucket's namespace read before it. *)
Definition delete_txn (bucket_id key_path bucket_namespace_id : list byte) (roster version_ids : list (list byte)) :
    M KV Status DeletedObject :=
  let head_key := object_head_key bucket_id key_path in
  head_bytes ← trx_get head_key;
  head_bytes ← lift (ok_or head_bytes NotFound_);
  head ← lift (decode_object_head head_bytes);
  let version_id := oh_current_version_id head in
  if negb (bool_decide (version_ids = [])) && negb (bool_decide (version_id ∈ version_ids)) then lift (Err NotFound_)
  else
    manifest_bytes ← load_manifest version_id;
    manifest ← delete_rows bucket_id key_path bucket_namespace_id roster head manifest_bytes;
    _ ← trx_clear head_key;
    _ ← trx_clear (object_version_key version_id);
    _ ← trx_clear_range (object_version_chunk_prefix version_id, prefix_range_end (object_version_chunk_prefix version_id));
    _ ← clear_entry (ovm_namespace_id manifest) (oh_object_entry_id head);
    mret (mkDeletedObject bucket_id key_path [manifest]).

Definition get_bucket_namespace (bucket_id : list byte) : M KV Status (list byte) :=
  bytes ← run (trx_get (bucket_context_key bucket_id));
  context ← lift (decode_opt bucket_context_namespace_id bytes);
  lift (ok_or context NotFound_).

Definition delete_object (bucket_id key_path : list byte) (version_ids : list (list byte)) : M KV Status DeletedObject :=
  key_path ← lift (normalize_object_key key_path);
  roster ← list_targets;
  namespace_id ← get_bucket_namespace bucket_id;
  run (delete_txn bucket_id key_path namespace_id (tr_target_id <$> roster) version_ids).
End store.
