(* ===== verification/KmsViews.v ===== *)
(** What the transactions of the metadata store do to its rows: which keyspaces each of them
    touches ([touches]), and how the rows of a version, of a head and of a fence change. *)
From S2P Require Import Prelude Bytes Fdb KmsKeys KmsValues KmsStore.

(** ** Names *)

(** An object version, and a fragment of it: target, stripe, fragment index. *)
Definition Version : Type := Z * Z.
Definition Frag : Type := list byte * Z * Z.

Definition ver_ok (V : Version) : Prop := is_u32 V.1 ∧ is_u32 V.2.
Definition frag_ok (F : Frag) : Prop := seg_ok F.1.1 ∧ is_u32 F.1.2 ∧ is_u32 F.2.

Definition vt (V : Version) : list byte := version_id_text V.1 V.2.
Definition mk (V : Version) : list byte := pending_version_key V.1 V.2.
Definition pk (V : Version) (t : list byte) : list byte := pending_version_target_key V.1 V.2 t.
Definition fk (V : Version) : list byte := version_reclaim_fence_key V.1 V.2.
Definition rk (V : Version) (F : Frag) : list byte := target_reverse_log_key F.1.1 (vt V) F.1.2 F.2.
Definition ock (V : Version) (F : Frag) : list byte := target_current_fragment_key F.1.1 (vt V) F.1.2 F.2.

Definition frag_of (f : FragmentPlan) : Frag := (fp_target_id f, fp_stripe_index f, fp_fragment_index f).

(** The keyspace of a KMS key; the committed-granule keys have none. *)
Definition kspace (q : list byte) : option byte :=
  match q with
  | version :: prefix :: _ => if bool_decide (version = KEYSPACE_VERSION) then Some prefix else None
  | _ => None
  end.

Lemma kspace_encode p segs : kspace (encode_key p segs) = Some p.
Proof. done. Qed.

Lemma kspace_kco t g : kspace (committed_granule_key t g) = None.
Proof. done. Qed.

Lemma kspace_pk V t : kspace (pk V t) = Some PREFIX_PENDING_VERSION.
Proof. done. Qed.

Lemma kspace_prefix p segs q : encode_key p segs `prefix_of` q → kspace q = Some p.
Proof. intros [k ->]. done. Qed.

(** ** Keys of one keyspace *)

Lemma dec_digits_length fuel n : (length (dec_digits fuel n) ≤ fuel)%nat.
Proof.
  revert n. induction fuel as [|fuel IH]; intros n; cbn [dec_digits]; [done|]. rewrite length_app. cbn [length].
  destruct (n <? 10); cbn [length]; [lia|]. specialize (IH (n / 10)). lia.
Qed.

Lemma vt_seg V : seg_ok (vt V).
Proof.
  unfold seg_ok, vt, version_id_text, dec_to_string. rewrite !length_app. cbn [length].
  pose proof (dec_digits_length 20 V.1). pose proof (dec_digits_length 20 V.2). lia.
Qed.

Lemma vt_inj V V' : ver_ok V → ver_ok V' → vt V = vt V' → V = V'.
Proof.
  destruct V as [i v], V' as [i' v']. intros [H1 H2] [H3 H4] E. cbn in *.
  destruct (version_id_text_inj _ _ _ _ H1 H2 H3 H4 E) as [-> ->]. done.
Qed.

Lemma hex8_ok z : seg_ok (hex8 z).
Proof. apply hex8_seg. Qed.

Lemma shard_ok id : seg_ok (pending_version_shard id).
Proof. apply shard_seg. Qed.

Lemma prefix_cons_both {A} (x y : A) l k : x :: l `prefix_of` y :: k → x = y ∧ l `prefix_of` k.
Proof. intros Hp. split; [by apply prefix_cons_inv_1 in Hp|by apply prefix_cons_inv_2 in Hp]. Qed.

Lemma cons_both {A} (x y : A) l k : x :: l = y :: k → x = y ∧ l = k.
Proof. by injection 1. Qed.

Create HintDb kms.
#[export] Hint Resolve vt_seg hex8_ok shard_ok : kms.

(** Well-formed segments. *)
Ltac segs := repeat (apply Forall_nil_2 || (apply Forall_cons_2; [solve [assumption|auto with kms]|])).

Lemma mk_prefix V V' : ver_ok V → ver_ok V' → in_range (mk V) (prefix_end (mk V)) (mk V') = true ↔ V' = V.
Proof.
  intros [H1 H2] [H3 H4]. unfold mk, pending_version_key. rewrite encode_key_range, encode_key_prefix by segs. split.
  - intros [_ Hp]. apply prefix_cons_inv_2, prefix_cons_both in Hp as [E1%hex8_inj Hp]; [|done..].
    apply prefix_cons_inv_1, hex8_inj in Hp; [|done..]. by apply injective_projections.
  - intros ->. split; reflexivity.
Qed.

Lemma pk_prefix V V' t :
  ver_ok V → ver_ok V' → seg_ok t → in_range (mk V) (prefix_end (mk V)) (pk V' t) = true ↔ V' = V.
Proof.
  intros [H1 H2] [H3 H4] Ht. unfold mk, pk, pending_version_key. rewrite pending_version_target_key_eq.
  rewrite encode_key_range, encode_key_prefix by segs. split.
  - intros [_ Hp]. apply prefix_cons_inv_2, prefix_cons_both in Hp as [E1%hex8_inj Hp]; [|done..].
    apply prefix_cons_inv_1, hex8_inj in Hp; [|done..]. by apply injective_projections.
  - intros ->. split; [done|]. do 3 apply prefix_cons. apply prefix_nil.
Qed.

Lemma mk_inj V V' : ver_ok V → ver_ok V' → mk V = mk V' → V = V'.
Proof.
  intros HV HV' E. symmetry. apply mk_prefix; [done..|]. rewrite <-E. unfold mk, pending_version_key.
  by apply encode_key_range.
Qed.

Lemma mk_pk V V' t : ver_ok V → ver_ok V' → seg_ok t → mk V ≠ pk V' t.
Proof.
  intros [H1 H2] [H3 H4] Ht. unfold mk, pk, pending_version_key. rewrite pending_version_target_key_eq.
  intros E. apply encode_key_inj in E as [_ E]; [done|segs..].
Qed.

Lemma pk_inj V V' t t' : ver_ok V → ver_ok V' → seg_ok t → seg_ok t' → pk V t = pk V' t' → V = V' ∧ t = t'.
Proof.
  intros [H1 H2] [H3 H4] Ht Ht'. unfold pk. rewrite !pending_version_target_key_eq. intros E.
  apply encode_key_inj in E as [_ E]; [|segs..]. apply cons_both in E as [_ E].
  apply cons_both in E as [E1%hex8_inj E]; [|done..]. apply cons_both in E as [E2%hex8_inj E]; [|done..].
  apply cons_both in E as [E _]. split; [by apply injective_projections|done].
Qed.

Lemma fk_inj V V' : ver_ok V → ver_ok V' → fk V = fk V' → V = V'.
Proof.
  intros [H1 H2] [H3 H4]. unfold fk, version_reclaim_fence_key. intros E.
  apply encode_key_inj in E as [_ E]; [|segs..]. apply cons_both in E as [_ E].
  apply cons_both in E as [E1%hex8_inj E]; [|done..]. apply cons_both in E as [E2%hex8_inj E]; [|done..].
  by apply injective_projections.
Qed.

Lemma row_inj p V V' F F' :
  ver_ok V → ver_ok V' → frag_ok F → frag_ok F' →
  encode_key p [F.1.1; vt V; hex8 F.1.2; hex8 F.2] = encode_key p [F'.1.1; vt V'; hex8 F'.1.2; hex8 F'.2] →
  V = V' ∧ F = F'.
Proof.
  intros HV HV' (Ht & Hs & Hf) (Ht' & Hs' & Hf') E. apply encode_key_inj in E as [_ E]; [|segs..].
  apply cons_both in E as [E1 E]. apply cons_both in E as [E2%vt_inj E]; [|done..].
  apply cons_both in E as [E3%hex8_inj E]; [|done..]. apply cons_both in E as [E4%hex8_inj E]; [|done..].
  split; [done|]. by repeat apply injective_projections.
Qed.

Lemma rk_inj V V' F F' :
  ver_ok V → ver_ok V' → frag_ok F → frag_ok F' → rk V F = rk V' F' → V = V' ∧ F = F'.
Proof. apply row_inj. Qed.

Lemma ock_inj V V' F F' :
  ver_ok V → ver_ok V' → frag_ok F → frag_ok F' → ock V F = ock V' F' → V = V' ∧ F = F'.
Proof. apply row_inj. Qed.

Lemma row_prefix p V V' F t :
  ver_ok V → ver_ok V' → frag_ok F → seg_ok t →
  encode_key p [t; vt V] `prefix_of` encode_key p [F.1.1; vt V'; hex8 F.1.2; hex8 F.2] ↔ V' = V ∧ F.1.1 = t.
Proof.
  intros HV HV' (Ht & Hs & Hf) Ht'. rewrite encode_key_prefix by segs. split.
  - intros [_ Hp]. apply prefix_cons_both in Hp as [-> Hp]. apply prefix_cons_inv_1, vt_inj in Hp; [|done..]. done.
  - intros [-> ->]. split; [done|]. do 2 apply prefix_cons. apply prefix_nil.
Qed.

Lemma head_key_inj b k b' k' :
  seg_ok b → seg_ok k → seg_ok b' → seg_ok k' → object_head_key b k = object_head_key b' k' → b = b' ∧ k = k'.
Proof.
  intros Hb Hk Hb' Hk' E. apply encode_key_inj in E as [_ E]; [|segs..]. by injection E as -> ->.
Qed.

(** ** Which keyspaces a transaction touches *)

Create HintDb touch.

Section touches.
Context `{FdbLaws KV}.

(** Outside the keyspaces [ps] (and the committed-granule keys) nothing changes. *)
Definition touches {A} (ps : list byte) (t : M KV Status A) : Prop :=
  ∀ m q p, kspace q = Some p → (p ∉ ps) → kv_get q (t m).1 = kv_get q m.

(** A transaction that only reads. *)
Definition reads {A} (t : M KV Status A) : Prop := ∀ m, (t m).1 = m.

Lemma reads_touches {A} ps (t : M KV Status A) : reads t → touches ps t.
Proof. intros Ht m q p _ _. by rewrite Ht. Qed.

Lemma reads_get k : reads (trx_get k).
Proof. done. Qed.
Lemma reads_range r : reads (trx_range r).
Proof. done. Qed.
Lemma reads_range_limit r n : reads (trx_range_limit r n).
Proof. done. Qed.
Lemma reads_lift {A} (r : result Status A) : reads (lift r).
Proof. done. Qed.
Lemma reads_mret {A} (a : A) : reads (mret a : M KV Status A).
Proof. done. Qed.
Lemma reads_bind {A B} (t : M KV Status A) (f : A → M KV Status B) : reads t → (∀ a, reads (f a)) → reads (t ≫= f).
Proof.
  intros Ht Hf m. unfold mbind, M_mbind. specialize (Ht m). destruct (t m) as [m1 [a|e]]; cbn in *; subst; [apply Hf|done].
Qed.

Lemma touches_bind {A B} ps (t : M KV Status A) (f : A → M KV Status B) :
  touches ps t → (∀ a, touches ps (f a)) → touches ps (t ≫= f).
Proof.
  intros Ht Hf m q p Hq Hp. unfold mbind, M_mbind. specialize (Ht m q p Hq Hp).
  destruct (t m) as [m1 [a|e]]; cbn in *; [|done]. by rewrite Hf with (p := p).
Qed.

Lemma touches_set ps k v : (∀ p, kspace k = Some p → p ∈ ps) → touches ps (trx_set k v).
Proof.
  intros Hk m q p Hq Hp. cbn. rewrite kv_get_set. rewrite decide_False; [done|]. intros ->. by apply Hp, Hk.
Qed.

Lemma touches_clear ps k : (∀ p, kspace k = Some p → p ∈ ps) → touches ps (trx_clear k).
Proof.
  intros Hk m q p Hq Hp. cbn. rewrite kv_get_clear. rewrite decide_False; [done|]. intros ->. by apply Hp, Hk.
Qed.

Lemma touches_clear_prefix ps p0 segs :
  p0 ∈ ps → touches ps (trx_clear_range (encode_key p0 segs, prefix_end (encode_key p0 segs))).
Proof.
  intros Hp0 m q p Hq Hp. cbn [trx_clear_range fst snd]. rewrite kv_get_clear_range.
  destruct (in_range _ _ _) eqn:E; [|done]. apply encode_key_range, kspace_prefix in E. congruence.
Qed.

Lemma touches_each {A} ps (f : A → M KV Status unit) l : (∀ x, touches ps (f x)) → touches ps (trx_each f l).
Proof.
  intros Hf. induction l as [|x l IH]; [by apply reads_touches|]. cbn [trx_each]. by apply touches_bind.
Qed.

Lemma touches_run {A} ps (t : M KV Status A) : touches ps t → touches ps (run t).
Proof.
  intros Ht m q p Hq Hp. unfold run. specialize (Ht m q p Hq Hp). by destruct (t m) as [m1 [a|e]].
Qed.

Lemma touches_weaken {A} ps ps' (t : M KV Status A) : ps ⊆ ps' → touches ps t → touches ps' t.
Proof. intros Hs Ht m q p Hq Hp. eapply Ht; [done|]. by intros ?%Hs. Qed.

Lemma touches_get {A} ps (t : M KV Status A) m m' r q p :
  touches ps t → t m = (m', r) → kspace q = Some p → (p ∉ ps) → kv_get q m' = kv_get q m.
Proof. intros Ht E Hq Hp. specialize (Ht m q p Hq Hp). by rewrite E in Ht. Qed.
End touches.

#[export] Hint Resolve reads_get reads_range reads_range_limit reads_lift reads_mret : touch.

(** Membership of a concrete keyspace in a concrete list. *)
Ltac in_spaces := solve [intros ? [= <-]; rewrite !elem_of_cons; tauto | by rewrite !elem_of_cons; tauto].

(** Splits a transaction into its steps. *)
Ltac touch :=
  repeat match goal with
  | |- touches _ (run _) => apply touches_run
  | |- touches _ (_ ≫= _) => apply touches_bind; [|intros ?]
  | |- touches _ (trx_each _ _) => apply touches_each; intros ?
  | |- touches _ (trx_set _ _) => apply touches_set; in_spaces
  | |- touches _ (trx_clear _) => apply touches_clear; in_spaces
  | |- touches _ (trx_clear_range _) => apply touches_clear_prefix; in_spaces
  | |- touches _ (let '(_, _) := ?x in _) => destruct x
  | |- touches _ (match ?x with _ => _ end) => destruct x
  | |- touches _ _ => solve [apply reads_touches; auto with touch]
  end.

Section spaces.
Context {KV : Type} {Hdb : Fdb KV} {Hlaws : FdbLaws KV} {Hcodec : KmsCodec}.

Lemma write_reverse_log_touches v stripes : touches [PREFIX_TARGET_REVERSE_LOG] (write_reverse_log v stripes).
Proof. unfold write_reverse_log. touch. Qed.

Lemma write_index_touches v stripes :
  touches [PREFIX_TARGET_CURRENT_FRAGMENT] (write_target_current_fragment_index v stripes).
Proof. unfold write_target_current_fragment_index. touch. Qed.

Lemma clear_index_touches v stripes :
  touches [PREFIX_TARGET_CURRENT_FRAGMENT] (clear_target_current_fragment_index v stripes).
Proof. unfold clear_target_current_fragment_index. touch. Qed.
End spaces.

(** ** Rows of a version *)

Section rows.
Context {KV : Type} {Hdb : Fdb KV} {Hlaws : FdbLaws KV} {Hcodec : KmsCodec}.

Definition marker (m : KV) (V : Version) : option (list byte) := kv_get (mk V) m.
Definition presence (m : KV) (V : Version) (t : list byte) : option (list byte) := kv_get (pk V t) m.
Definition fence (m : KV) (V : Version) : option (list byte) := kv_get (fk V) m.
Definition rlog (m : KV) (V : Version) (F : Frag) : option (list byte) := kv_get (rk V F) m.
Definition occ (m : KV) (V : Version) (F : Frag) : option (list byte) := kv_get (ock V F) m.
Definition head (m : KV) (b k : list byte) : option (list byte) := kv_get (object_head_key b k) m.

Definition fplan_ok (f : FragmentPlan) : Prop :=
  frag_ok (frag_of f) ∧ utf8_valid (fp_target_id f) = true ∧ is_u32 (fp_generation f) ∧ is_u64 (fp_granule_index f).

Lemma fragments_cons s l : fragments (s :: l) = sm_fragments s ++ fragments l.
Proof. done. Qed.

Lemma trx_each_flat (f : FragmentPlan → M KV Status unit) stripes m :
  trx_each (fun stripe => trx_each f (sm_fragments stripe)) stripes m = trx_each f (fragments stripes) m.
Proof.
  revert m. induction stripes as [|s l IH]; intros m; [done|]. rewrite fragments_cons, trx_each_app.
  cbn [trx_each]. unfold mbind, M_mbind. by destruct (trx_each f (sm_fragments s) m) as [m1 [u|e]].
Qed.

Lemma write_reverse_log_run v stripes m :
  write_reverse_log v stripes m = (kv_put_all ((fun f => (rl_key_of v f, rl_value_of f)) <$> fragments stripes) m, Ok tt).
Proof. unfold write_reverse_log. rewrite trx_each_flat. apply trx_each_set. Qed.

(** The index writes two rows per fragment. *)
Definition index_puts (v : list byte) (fs : list FragmentPlan) : list (list byte * list byte) :=
  fs ≫= fun f => [(occ_key_of v f, []);
                  (kco_key_of f, encode_committed_granule (mkCommittedGranule v (fp_generation f)))].

Lemma write_index_run v stripes m :
  write_target_current_fragment_index v stripes m = (kv_put_all (index_puts v (fragments stripes)) m, Ok tt).
Proof.
  unfold write_target_current_fragment_index. rewrite trx_each_flat. generalize (fragments stripes). intros fs.
  revert m. induction fs as [|f fs IH]; intros m; [done|]. cbn [trx_each]. unfold mbind, M_mbind at 1.
  cbn. rewrite IH. done.
Qed.

Lemma rl_put_all V fs m V' F :
  ver_ok V → ver_ok V' → Forall fplan_ok fs → frag_ok F →
  let m' := kv_put_all ((fun f => (rl_key_of (vt V) f, rl_value_of f)) <$> fs) m in
  (V' = V → F ∈ frag_of <$> fs → ∃ f, f ∈ fs ∧ rlog m' V' F = Some (rl_value_of f)) ∧
  (¬ (V' = V ∧ F ∈ frag_of <$> fs) → rlog m' V' F = rlog m V' F).
Proof.
  intros HV HV' Hfs HF m'. split.
  - intros -> (f & -> & Hf)%list_elem_of_fmap.
    destruct (kv_put_all_get ((fun f => (rl_key_of (vt V) f, rl_value_of f)) <$> fs) (rk V (frag_of f)) m) as (v & Hv & E).
    { rewrite <-list_fmap_compose. apply list_elem_of_fmap. by exists f. }
    apply list_elem_of_fmap in Hv as (g & [_ ->]%pair_equal_spec & Hg). exists g. split; [done|]. exact E.
  - intros Hn. apply kv_put_all_other. rewrite <-list_fmap_compose. intros (f & E & Hf)%list_elem_of_fmap.
    rewrite Forall_forall in Hfs. destruct (Hfs f Hf) as [Hok _].
    apply (rk_inj V' V F (frag_of f)) in E as [-> ->]; [|done..]. apply Hn. split; [done|]. apply list_elem_of_fmap. by exists f.
Qed.

Lemma index_put_all V fs m V' F :
  ver_ok V → ver_ok V' → Forall fplan_ok fs → frag_ok F →
  occ (kv_put_all (index_puts (vt V) fs) m) V' F =
  (if decide (V' = V ∧ F ∈ frag_of <$> fs) then Some [] else occ m V' F).
Proof.
  intros HV HV' Hfs HF. rewrite Forall_forall in Hfs. case_decide as D.
  - destruct D as [-> (f & -> & Hf)%list_elem_of_fmap]. unfold occ.
    destruct (kv_put_all_get (index_puts (vt V) fs) (ock V (frag_of f)) m) as (v & Hv & E).
    { apply list_elem_of_fmap. exists (occ_key_of (vt V) f, []). split; [done|].
      apply list_elem_of_bind. exists f. split; [by left|done]. }
    rewrite E. apply list_elem_of_bind in Hv as (g & Hv & Hg).
    apply elem_of_cons in Hv as [[_ ->]%pair_equal_spec|Hv]; [done|]. apply list_elem_of_singleton in Hv.
    apply (f_equal fst) in Hv. cbn in Hv. by apply (f_equal kspace) in Hv.
  - apply kv_put_all_other. intros ([k v] & E & Hin)%list_elem_of_fmap. cbn in E. subst k.
    apply list_elem_of_bind in Hin as (f & Hin & Hf). apply elem_of_cons in Hin as [Hin|Hin].
    + apply (f_equal fst) in Hin. cbn [fst] in Hin. destruct (Hfs f Hf) as [Hok _].
      apply (ock_inj V' V F (frag_of f)) in Hin as [-> ->]; [|done..]. apply D. split; [done|].
      apply list_elem_of_fmap. by exists f.
    + apply list_elem_of_singleton, (f_equal fst), (f_equal kspace) in Hin. done.
Qed.

(** Clearing a version's marker and presence rows. *)
Lemma clear_subspace_marker V V' m :
  ver_ok V → ver_ok V' →
  marker (kv_clear_range (mk V) (prefix_end (mk V)) m) V' = if decide (V' = V) then None else marker m V'.
Proof.
  intros HV HV'. unfold marker. rewrite kv_get_clear_range. pose proof (mk_prefix V V' HV HV') as Hi.
  destruct (in_range _ _ _) eqn:E; case_decide as D; try done; exfalso; [by apply D, Hi|by apply Hi in D].
Qed.

Lemma clear_subspace_presence V V' t m :
  ver_ok V → ver_ok V' → seg_ok t →
  presence (kv_clear_range (mk V) (prefix_end (mk V)) m) V' t = if decide (V' = V) then None else presence m V' t.
Proof.
  intros HV HV' Ht. unfold presence. rewrite kv_get_clear_range. pose proof (pk_prefix V V' t HV HV' Ht) as Hi.
  destruct (in_range _ _ _) eqn:E; case_decide as D; try done; exfalso; [by apply D, Hi|by apply Hi in D].
Qed.

(** One marker row written. *)
Lemma set_marker V V' x m :
  ver_ok V → ver_ok V' → marker (kv_set (mk V) x m) V' = if decide (V' = V) then Some x else marker m V'.
Proof.
  intros HV HV'. unfold marker. rewrite kv_get_set. repeat case_decide; try done; subst; try done.
  exfalso. match goal with E : mk _ = mk _ |- _ => apply mk_inj in E end; done.
Qed.

Lemma set_marker_presence V V' t x m :
  ver_ok V → ver_ok V' → seg_ok t → presence (kv_set (mk V) x m) V' t = presence m V' t.
Proof.
  intros HV HV' Ht. unfold presence. rewrite kv_get_set, decide_False; [done|]. intros E. symmetry in E. by apply mk_pk in E.
Qed.

Lemma set_presence V V' t t' x m :
  ver_ok V → ver_ok V' → seg_ok t → seg_ok t' →
  presence (kv_set (pk V t) x m) V' t' = if decide (V' = V ∧ t' = t) then Some x else presence m V' t'.
Proof.
  intros HV HV' Ht Ht'. unfold presence. rewrite kv_get_set. repeat case_decide; try done.
  - exfalso. match goal with E : pk _ _ = pk _ _ |- _ => apply pk_inj in E; [|done..] end. tauto.
  - exfalso. match goal with E : _ ∧ _ |- _ => destruct E as [-> ->] end. done.
Qed.

Lemma set_presence_marker V V' t x m :
  ver_ok V → ver_ok V' → seg_ok t → marker (kv_set (pk V t) x m) V' = marker m V'.
Proof. intros HV HV' Ht. unfold marker. rewrite kv_get_set, decide_False; [done|]. by apply mk_pk. Qed.

Lemma clear_presence V V' t t' m :
  ver_ok V → ver_ok V' → seg_ok t → seg_ok t' →
  presence (kv_clear (pk V t) m) V' t' = if decide (V' = V ∧ t' = t) then None else presence m V' t'.
Proof.
  intros HV HV' Ht Ht'. unfold presence. rewrite kv_get_clear. repeat case_decide; try done.
  - exfalso. match goal with E : pk _ _ = pk _ _ |- _ => apply pk_inj in E; [|done..] end. tauto.
  - exfalso. match goal with E : _ ∧ _ |- _ => destruct E as [-> ->] end. done.
Qed.

Lemma clear_presence_marker V V' t m :
  ver_ok V → ver_ok V' → seg_ok t → marker (kv_clear (pk V t) m) V' = marker m V'.
Proof. intros HV HV' Ht. unfold marker. rewrite kv_get_clear, decide_False; [done|]. by apply mk_pk. Qed.
End rows.
