(* ===== verification/KmsEffects.v ===== *)
(** What each transaction of the metadata store requires and changes, row by row. *)
From S2P Require Import Prelude Bytes Fdb KmsKeys KmsValues KmsStore KmsViews.

(** The keyspaces the protocol's invariant is about. *)
Definition HEADS : byte := PREFIX_OBJECT_HEAD.
Definition PENDING : byte := PREFIX_PENDING_VERSION.
Definition RLOG : byte := PREFIX_TARGET_REVERSE_LOG.
Definition OCC : byte := PREFIX_TARGET_CURRENT_FRAGMENT.
Definition FENCES : byte := PREFIX_VERSION_RECLAIM_FENCE.
Definition COUNTER : byte := PREFIX_OBJECT_ID_COUNTER.

Definition WRITING : byte := PENDING_VERSION_STATE_WRITING.
Definition RECLAIMING : byte := PENDING_VERSION_STATE_RECLAIMING.
Definition TOMB : list byte := REVERSE_LOG_RECLAIM_TOMBSTONE.

Section effects.
Context {KV : Type} {Hdb : Fdb KV} {Hlaws : FdbLaws KV} {Hcodec : KmsCodec}.

(** A keyspace is left as it was. *)
Definition same (p : byte) (m m' : KV) : Prop := ∀ q, kspace q = Some p → kv_get q m' = kv_get q m.

Lemma same_refl p m : same p m m.
Proof. done. Qed.

Lemma same_trans p m1 m2 m3 : same p m1 m2 → same p m2 m3 → same p m1 m3.
Proof. intros H1 H2 q Hq. by rewrite H2, H1. Qed.

Lemma touches_same {A} ps (t : M KV Status A) m m' r p :
  touches ps t → t m = (m', r) → (p ∉ ps) → same p m m'.
Proof. intros Ht E Hp q Hq. by eapply touches_get. Qed.

Lemma same_set p k v m : kspace k ≠ Some p → same p m (kv_set k v m).
Proof. intros Hk q Hq. rewrite kv_get_set, decide_False; [done|]. intros ->. done. Qed.

Lemma same_clear p k m : kspace k ≠ Some p → same p m (kv_clear k m).
Proof. intros Hk q Hq. rewrite kv_get_clear, decide_False; [done|]. intros ->. done. Qed.

Lemma same_clear_prefix p p0 segs m :
  p ≠ p0 → same p m (kv_clear_range (encode_key p0 segs) (prefix_end (encode_key p0 segs)) m).
Proof.
  intros Hp q Hq. rewrite kv_get_clear_range. destruct (in_range _ _ _) eqn:E; [|done].
  apply encode_key_range, kspace_prefix in E. congruence.
Qed.

Lemma same_put_all p l m : Forall (fun kv : list byte * list byte => kspace kv.1 ≠ Some p) l → same p m (kv_put_all l m).
Proof.
  intros Hl q Hq. apply kv_put_all_other. intros (kv & -> & Hin)%list_elem_of_fmap.
  rewrite Forall_forall in Hl. by apply (Hl kv Hin).
Qed.

Lemma same_marker m m' V : same PENDING m m' → marker m' V = marker m V.
Proof. intros Hs. by apply Hs. Qed.
Lemma same_presence m m' V t : same PENDING m m' → presence m' V t = presence m V t.
Proof. intros Hs. by apply Hs. Qed.
Lemma same_fence m m' V : same FENCES m m' → fence m' V = fence m V.
Proof. intros Hs. by apply Hs. Qed.
Lemma same_rlog m m' V F : same RLOG m m' → rlog m' V F = rlog m V F.
Proof. intros Hs. by apply Hs. Qed.
Lemma same_occ m m' V F : same OCC m m' → occ m' V F = occ m V F.
Proof. intros Hs. by apply Hs. Qed.
Lemma same_head m m' b k : same HEADS m m' → head m' b k = head m b k.
Proof. intros Hs. by apply Hs. Qed.

(** ** Shared pieces *)

(** The marker of a version, decoded. *)
Definition pending (m : KV) (V : Version) (p : PendingVersion) : Prop :=
  ∃ bytes, marker m V = Some bytes ∧ decode_pending_version_value bytes = Ok p.

Lemma insert_target_elem t t' l : t ∈ insert_target t' l ↔ t = t' ∨ t ∈ l.
Proof.
  induction l as [|x l IH]; cbn [insert_target]; [by rewrite list_elem_of_singleton, elem_of_nil; tauto|].
  destruct (bytes_ltb t' x); [by rewrite !elem_of_cons; tauto|].
  case_bool_decide as E; [subst; rewrite !elem_of_cons; tauto|]. rewrite !elem_of_cons, IH. tauto.
Qed.

Lemma presence_targets_elem t stripes : t ∈ presence_targets stripes ↔ t ∈ fp_target_id <$> fragments stripes.
Proof.
  unfold presence_targets. induction (fp_target_id <$> fragments stripes) as [|x l IH]; cbn [foldr]; [done|].
  rewrite insert_target_elem, IH, elem_of_cons. done.
Qed.

Lemma check_rows_Ok v fs m m' u :
  check_rows v fs m = (m', Ok u) → m' = m ∧ ∀ f, f ∈ fs → kv_get (rl_key_of v f) m ≠ Some TOMB.
Proof.
  revert m'. induction fs as [|f fs IH]; intros m'; cbn [check_rows].
  { intros [= <- _]. split; [done|]. intros f Hf. by apply not_elem_of_nil in Hf. }
  rewrite trx_get_bind. destruct (kv_get (rl_key_of v f) m) as [x|] eqn:E.
  - destruct (is_reverse_log_reclaim_tombstone x) eqn:Et; [done|]. intros [-> IH']%IH. split; [done|].
    intros g [->|Hg]%elem_of_cons; [|by apply IH']. rewrite E. intros [= ->]. done.
  - intros [-> IH']%IH. split; [done|]. intros g [->|Hg]%elem_of_cons; [by rewrite E|by apply IH'].
Qed.

Lemma check_rows_reads v fs : reads (check_rows v fs).
Proof.
  induction fs as [|f fs IH]; cbn [check_rows]; [done|]. apply reads_bind; [done|]. intros [x|]; [|done].
  by destruct (is_reverse_log_reclaim_tombstone x).
Qed.

Lemma presence_put_all V ts m V' t :
  ver_ok V → ver_ok V' → Forall seg_ok ts → seg_ok t →
  presence (kv_put_all ((fun k => (k, [])) <$> (pk V <$> ts)) m) V' t =
  (if decide (V' = V ∧ t ∈ ts) then Some [] else presence m V' t).
Proof.
  intros HV HV' Hts Ht. rewrite Forall_forall in Hts. case_decide as D.
  - destruct D as [-> Hin]. destruct (kv_put_all_get ((fun k => (k, [])) <$> (pk V <$> ts)) (pk V t) m) as (v & Hv & E).
    { rewrite <-!list_fmap_compose. apply list_elem_of_fmap. by exists t. }
    apply list_elem_of_fmap in Hv as (q & [_ ->]%pair_equal_spec & _). exact E.
  - apply kv_put_all_other. rewrite <-!list_fmap_compose. intros (t' & E & Hin)%list_elem_of_fmap.
    apply (pk_inj V' V t t') in E as [-> ->]; auto.
Qed.

Lemma presence_put_all_marker V ts m V' :
  ver_ok V → ver_ok V' → Forall seg_ok ts →
  marker (kv_put_all ((fun k => (k, [])) <$> (pk V <$> ts)) m) V' = marker m V'.
Proof.
  intros HV HV' Hts. rewrite Forall_forall in Hts. apply kv_put_all_other. rewrite <-!list_fmap_compose.
  intros (t' & E & Hin)%list_elem_of_fmap. by apply (mk_pk V' V t') in E; auto.
Qed.

(** The spaces of the loops of writes. *)
Lemma same_rl_puts p v fs m :
  p ≠ RLOG → same p m (kv_put_all ((fun f => (rl_key_of v f, rl_value_of f)) <$> fs) m).
Proof.
  intros Hp. apply same_put_all, Forall_forall. intros kv (f & -> & _)%list_elem_of_fmap. cbn [fst].
  intros [= E]. by apply Hp.
Qed.

Lemma same_index_puts p v fs m : p ≠ OCC → same p m (kv_put_all (index_puts v fs) m).
Proof.
  intros Hp. apply same_put_all, Forall_forall. intros kv (f & Hin & _)%list_elem_of_bind.
  apply elem_of_cons in Hin as [->|Hin]; [|by apply list_elem_of_singleton in Hin as ->]. intros [= E]. by apply Hp.
Qed.

Lemma same_presence_puts p V ts m : p ≠ PENDING → same p m (kv_put_all ((fun k => (k, [])) <$> (pk V <$> ts)) m).
Proof.
  intros Hp. apply same_put_all, Forall_forall. intros kv (q & -> & Hq)%list_elem_of_fmap. apply list_elem_of_fmap in Hq as (t & -> & _).
  cbn [fst]. intros [= E]. by apply Hp.
Qed.

(** ** Appending a segment *)

(** The fragments' rows after a write of them. *)
Definition rows_written (V : Version) (fs : list FragmentPlan) (m m' : KV) : Prop :=
  (∀ V' F, ver_ok V' → frag_ok F → V' = V → F ∈ frag_of <$> fs →
     ∃ f, f ∈ fs ∧ rlog m' V' F = Some (rl_value_of f)) ∧
  (∀ V' F, ver_ok V' → frag_ok F → ¬ (V' = V ∧ F ∈ frag_of <$> fs) → rlog m' V' F = rlog m V' F) ∧
  (∀ V' F, ver_ok V' → frag_ok F →
     occ m' V' F = if decide (V' = V ∧ F ∈ frag_of <$> fs) then Some [] else occ m V' F).

Record append_effect (V : Version) (fs : list FragmentPlan) (e : Z) (fenced : bool) (p : PendingVersion) (m m' : KV) :
    Prop := {
  ae_marker : pending m V p;
  ae_writing : pv_state p = WRITING;
  ae_check : if fenced then fence m V = None else ∀ F, F ∈ frag_of <$> fs → rlog m V F ≠ Some TOMB;
  ae_marker' : ∀ V', ver_ok V' → marker m' V' =
    if decide (V' = V) then Some (encode_pending_version_value (with_expiry_max e p)) else marker m V';
  ae_presence' : ∀ V' t, ver_ok V' → seg_ok t → presence m' V' t =
    if decide (V' = V ∧ t ∈ fp_target_id <$> fs) then Some [] else presence m V' t;
  ae_pending : ∀ q, kspace q = Some PENDING → kv_get q m' ≠ None →
    kv_get q m ≠ None ∨ q = mk V ∨ ∃ t, t ∈ fp_target_id <$> fs ∧ q = pk V t;
  ae_rows : rows_written V fs m m';
  ae_heads : same HEADS m m';
  ae_fences : same FENCES m m';
  ae_counter : same COUNTER m m';
}.

Lemma fplan_targets fs : Forall fplan_ok fs → Forall seg_ok (fp_target_id <$> fs).
Proof. intros Hf. apply Forall_fmap. eapply Forall_impl; [exact Hf|]. by intros f [[? _] _]. Qed.

Lemma append_run V stripes p e m :
  let ts := presence_targets stripes in
  let m1 := kv_set (mk V) (encode_pending_version_value (with_expiry_max e p)) m in
  let m2 := kv_put_all ((fun f => (rl_key_of (vt V) f, rl_value_of f)) <$> fragments stripes) m1 in
  let m3 := kv_put_all ((fun k => (k, [])) <$> (pk V <$> ts)) m2 in
  let m4 := kv_put_all (index_puts (vt V) (fragments stripes)) m3 in
  (_ ← trx_set (mk V) (encode_pending_version_value (with_expiry_max e p));
   _ ← write_reverse_log (vt V) stripes;
   _ ← trx_each (fun k => trx_set k []) (pk V <$> ts);
   write_target_current_fragment_index (vt V) stripes) m = (m4, Ok tt).
Proof.
  intros ts m1 m2 m3 m4. rewrite trx_set_bind. erewrite M_bind_run; [|apply write_reverse_log_run].
  erewrite M_bind_run; [|apply (trx_each_set id (fun _ => []))]. apply write_index_run.
Qed.

Lemma append_rows V stripes x m :
  ver_ok V → Forall fplan_ok (fragments stripes) →
  let ts := presence_targets stripes in
  let m1 := kv_set (mk V) x m in
  let m2 := kv_put_all ((fun f => (rl_key_of (vt V) f, rl_value_of f)) <$> fragments stripes) m1 in
  let m3 := kv_put_all ((fun k => (k, [])) <$> (pk V <$> ts)) m2 in
  let m4 := kv_put_all (index_puts (vt V) (fragments stripes)) m3 in
  (∀ V', ver_ok V' → marker m4 V' = if decide (V' = V) then Some x else marker m V') ∧
  (∀ V' t, ver_ok V' → seg_ok t → presence m4 V' t =
    if decide (V' = V ∧ t ∈ fp_target_id <$> fragments stripes) then Some [] else presence m V' t) ∧
  (∀ q, kspace q = Some PENDING → kv_get q m4 ≠ None →
    kv_get q m ≠ None ∨ q = mk V ∨ ∃ t, t ∈ fp_target_id <$> fragments stripes ∧ q = pk V t) ∧
  rows_written V (fragments stripes) m m4 ∧ same HEADS m m4 ∧ same FENCES m m4 ∧ same COUNTER m m4.
Proof.
  intros HV Hfs ts m1 m2 m3 m4.
  assert (Forall seg_ok ts) as Hts.
  { apply Forall_forall. intros t Ht%presence_targets_elem. pose proof (fplan_targets _ Hfs) as Hf.
    rewrite Forall_forall in Hf. auto. }
  assert (∀ p, p ≠ PENDING → same p m m1) as S1 by (intros p Hp; apply same_set; intros [= E]; by apply Hp).
  assert (∀ p, p ≠ RLOG → same p m1 m2) as S2 by (intros; by apply same_rl_puts).
  assert (∀ p, p ≠ PENDING → same p m2 m3) as S3 by (intros; by apply same_presence_puts).
  assert (∀ p, p ≠ OCC → same p m3 m4) as S4 by (intros; by apply same_index_puts).
  split_and!.
  - intros V' HV'. rewrite (same_marker m3 m4) by by apply S4. unfold m3. rewrite presence_put_all_marker by done.
    rewrite (same_marker m1 m2) by by apply S2. by apply set_marker.
  - intros V' t HV' Ht. rewrite (same_presence m3 m4) by by apply S4. unfold m3. rewrite presence_put_all by done.
    rewrite (same_presence m1 m2) by by apply S2. unfold m1. rewrite set_marker_presence by done.
    unfold ts. repeat case_decide; try done; rewrite presence_targets_elem in *; tauto.
  - intros q Hq. rewrite (S4 PENDING) by done.
    destruct (decide (q ∈ ((fun k => (k, [] : list byte)) <$> (pk V <$> ts)).*1)) as [D|D].
    + intros _. rewrite <-!list_fmap_compose in D. apply list_elem_of_fmap in D as (t & -> & Ht).
      right. right. exists t. split; [by apply presence_targets_elem|done].
    + unfold m3. rewrite kv_put_all_other by done. rewrite (S2 PENDING) by done. unfold m1. rewrite kv_get_set.
      case_decide; [by right; left|by left].
  - assert (∀ V' F, rlog m4 V' F = rlog m2 V' F) as R1.
    { intros V' F. rewrite (same_rlog m3 m4) by by apply S4. by apply same_rlog, S3. }
    assert (∀ V' F, rlog m1 V' F = rlog m V' F) as R2 by (intros; by apply same_rlog, S1).
    split_and!.
    + intros V' F HV' HF -> Hin. destruct (rl_put_all V (fragments stripes) m1 V F) as [R _]; [done..|].
      destruct (R eq_refl Hin) as (f & Hf & E). exists f. by rewrite R1.
    + intros V' F HV' HF Hn. destruct (rl_put_all V (fragments stripes) m1 V' F) as [_ R]; [done..|].
      rewrite R1, <-R2. by apply R.
    + intros V' F HV' HF. unfold m4. rewrite index_put_all by done. case_decide; [done|].
      rewrite (same_occ m2 m3), (same_occ m1 m2), (same_occ m m1); [done|by apply S1|by apply S2|by apply S3].
  - eapply same_trans; [by apply S1|]. eapply same_trans; [by apply S2|]. eapply same_trans; [by apply S3|by apply S4].
  - eapply same_trans; [by apply S1|]. eapply same_trans; [by apply S2|]. eapply same_trans; [by apply S3|by apply S4].
  - eapply same_trans; [by apply S1|]. eapply same_trans; [by apply S2|]. eapply same_trans; [by apply S3|by apply S4].
Qed.

Lemma append_spec version_id stripes e fenced m m' :
  Forall fplan_ok (fragments stripes) →
  append_manifest_segment version_id stripes e fenced m = (m', Ok tt) →
  ∃ V p, version_id = vt V ∧ ver_ok V ∧ append_effect V (fragments stripes) e fenced p m m'.
Proof.
  intros Hfs. unfold append_manifest_segment.
  destruct (parse_version_id_parts version_id) as [[id v]|] eqn:Ev; [|done]. rewrite lift_Ok_bind.
  apply parse_version_id_canonical in Ev as (-> & Hid & Hv). set (V := (id, v) : Version).
  assert (ver_ok V) as HV by done. cbv zeta. case_match; [done|]. rewrite run_Ok, trx_get_bind.
  intros (m1 & fb & Hfb & Ht)%M_bind_Ok.
  assert (m1 = m ∧ (fenced = true → fb = fence m V)) as [-> Hfence].
  { destruct fenced; injection Hfb as <- <-; done. }
  destruct (kv_get (pending_version_key id v) m) as [bytes|] eqn:Em; [|done]. cbn [ok_or] in Ht. rewrite lift_Ok_bind in Ht.
  destruct (decode_pending_version_value bytes) as [p|] eqn:Ep; [|done]. rewrite lift_Ok_bind in Ht.
  case_bool_decide as Hw; [|done]. cbn [negb] in Ht. apply M_bind_Ok in Ht as (m2 & [] & Hc & Ht).
  assert (m2 = m ∧ if fenced then fence m V = None else ∀ F, F ∈ frag_of <$> fragments stripes → rlog m V F ≠ Some TOMB)
    as [-> Hcheck].
  { destruct fenced.
    - specialize (Hfence eq_refl). subst fb. case_bool_decide as Hs; [done|]. injection Hc as <-. split; [done|].
      by apply eq_None_not_Some.
    - apply check_rows_Ok in Hc as [-> Hr]. split; [done|]. intros F (f & -> & Hf)%list_elem_of_fmap. by apply Hr. }
  exists V, p. split; [done|]. split; [done|].
  pose proof (append_run V stripes p e m) as Hrun. cbv zeta in Hrun.
  pose proof (append_rows V stripes (encode_pending_version_value (with_expiry_max e p)) m HV Hfs) as Hrows. cbv zeta in Hrows.
  assert (m' = kv_put_all (index_puts (vt V) (fragments stripes))
    (kv_put_all ((fun k => (k, [])) <$> (pk V <$> presence_targets stripes))
      (kv_put_all ((fun f => (rl_key_of (vt V) f, rl_value_of f)) <$> fragments stripes)
        (kv_set (mk V) (encode_pending_version_value (with_expiry_max e p)) m)))) as ->.
  { symmetry. exact (f_equal fst (eq_trans (eq_sym Hrun) Ht)). }
  destruct Hrows as (R1 & R2 & R3 & R4 & R5 & R6 & R7). split; [by exists bytes|done..].
Qed.

(** ** Committing *)

Lemma store_blob_touches v bytes :
  touches [PREFIX_OBJECT_VERSION; PREFIX_OBJECT_VERSION_CHUNK]
    (store_blob (object_version_key v) (object_version_chunk_prefix v) (object_version_chunk_key v) bytes).
Proof.
  unfold store_blob. apply touches_bind; [apply (touches_clear_prefix _ PREFIX_OBJECT_VERSION_CHUNK [v]); in_spaces|].
  intros _. destruct (_ <=? _); touch.
Qed.

Lemma store_blob_Ok mkey pfx ck bytes (m : KV) : ∃ m', store_blob mkey pfx ck bytes m = (m', Ok tt).
Proof.
  unfold store_blob. rewrite trx_clear_range_bind. destruct (_ <=? _); [by eexists|]. cbv zeta.
  rewrite trx_set_bind, (trx_each_ext _ (fun x : nat * list byte => trx_set (ck (wrap 32 (Z.of_nat x.1))) x.2)) by by intros [].
  rewrite trx_each_set. by eexists.
Qed.

Record commit_effect (V : Version) (b k : list byte) (fs : list FragmentPlan) (cleared : bool) (h : ObjectHead) (m m' : KV) :
    Prop := {
  ce_head' : ∀ b' k', seg_ok b' → seg_ok k' → head m' b' k' =
    if decide (b' = b ∧ k' = k) then Some (encode_object_head h) else head m b' k';
  ce_marker' : ∀ V', ver_ok V' → marker m' V' = if decide (cleared = true ∧ V' = V) then None else marker m V';
  ce_presence' : ∀ V' t, ver_ok V' → seg_ok t →
    presence m' V' t = if decide (cleared = true ∧ V' = V) then None else presence m V' t;
  ce_pending : ∀ q, kspace q = Some PENDING → kv_get q m' = kv_get q m ∨ kv_get q m' = None;
  ce_rows : rows_written V fs m m';
  ce_fences : same FENCES m m';
  ce_counter : same COUNTER m m';
}.

(** The rows that the last writes of a commit leave alone. *)
Lemma pass2_tail plan m :
  let x := pl_manifest plan in
  let m1 := kv_set (namespace_entry_key (ovm_namespace_id x) (ovm_object_entry_id x)) (pl_object_entry_json plan) m in
  let m2 := kv_set (namespace_path_key (ovm_namespace_id x) (pl_object_entry_path plan)) (ovm_object_entry_id x) m1 in
  let m3 := kv_set (pl_head_key plan) (encode_object_head (pl_head plan)) m2 in
  let m4 := kv_clear (object_lease_key (pl_object_id plan)) m3 in
  (∀ p, p ∈ [PENDING; RLOG; OCC; FENCES; COUNTER] → kspace (pl_head_key plan) = Some HEADS → same p m m4) ∧
  same HEADS m m2 ∧ same HEADS m3 m4.
Proof.
  intros x m1 m2 m3 m4. split_and!.
  - intros p Hp Hk.
    assert (p ≠ PREFIX_NAMESPACE_ENTRY ∧ p ≠ PREFIX_NAMESPACE_PATH ∧ p ≠ HEADS ∧ p ≠ PREFIX_OBJECT_LEASE) as (N1 & N2 & N3 & N4).
    { rewrite !elem_of_cons, elem_of_nil in Hp. destruct Hp as [->|[->|[->|[->|[->|[]]]]]]; done. }
    apply (same_trans p m m1); [|apply (same_trans p m1 m2); [|apply (same_trans p m2 m3)]].
    + apply same_set. intros [= E]. by apply N1.
    + apply same_set. intros [= E]. by apply N2.
    + apply same_set. rewrite Hk. intros [= E]. by apply N3.
    + apply same_clear. intros [= E]. by apply N4.
  - apply (same_trans _ m m1); by apply same_set.
  - by apply same_clear.
Qed.

Lemma pass2_effect V b k plan m :
  ver_ok V → seg_ok b → seg_ok k → Forall fplan_ok (fragments (ovm_stripes (pl_manifest plan))) →
  ovm_version_id (pl_manifest plan) = vt V → pl_object_id plan = V.1 → pl_object_version plan = V.2 →
  pl_head_key plan = object_head_key b k →
  ∃ m', single_shot_pass2 plan m = (m', Ok tt) ∧
    commit_effect V b k (fragments (ovm_stripes (pl_manifest plan))) (pl_marker_present plan) (pl_head plan) m m'.
Proof.
  intros HV Hb Hk Hfs Ev Eid Ever Ehk. unfold single_shot_pass2. rewrite Ev, Eid, Ever. cbv zeta.
  assert (∃ m0, (if pl_omit_manifest plan then mret tt
    else store_blob (object_version_key (vt V)) (object_version_chunk_prefix (vt V)) (object_version_chunk_key (vt V))
           (pl_manifest_bytes plan)) m = (m0, Ok tt) ∧ ∀ p, p ∈ [HEADS; PENDING; RLOG; OCC; FENCES; COUNTER] → same p m m0)
    as (m0 & E0 & S0).
  { destruct (pl_omit_manifest plan); [by exists m|].
    destruct (store_blob_Ok (object_version_key (vt V)) (object_version_chunk_prefix (vt V)) (object_version_chunk_key (vt V))
      (pl_manifest_bytes plan) m) as [m0 E0]. exists m0. split; [done|]. intros p Hp.
    eapply touches_same; [apply store_blob_touches|exact E0|].
    rewrite !elem_of_cons, elem_of_nil in Hp. rewrite !elem_of_cons, elem_of_nil. destruct Hp as [->|[->|[->|[->|[->|[->|[]]]]]]]; by intros [?|[?|[]]]. }
  erewrite M_bind_run; [|exact E0]. erewrite M_bind_run; [|apply write_reverse_log_run].
  erewrite M_bind_run; [|apply write_index_run]. set (fs := fragments _) in *.
  set (m1 := kv_put_all _ m0). set (m2 := kv_put_all _ m1). rewrite !trx_set_bind, trx_clear_bind.
  pose proof (pass2_tail plan m2) as HT. cbv zeta in HT. rewrite Eid in HT.
  set (m5 := kv_set _ _ (kv_set _ _ m2)) in *. set (m6 := kv_clear _ _) in *. destruct HT as (T1 & T2 & T3).
  assert (kspace (pl_head_key plan) = Some HEADS) as Hks by by rewrite Ehk.
  assert (∀ p, p ≠ RLOG → same p m0 m1) as S1 by (intros; by apply same_rl_puts).
  assert (∀ p, p ≠ OCC → same p m1 m2) as S2 by (intros; by apply same_index_puts).
  set (m7 := if pl_marker_present plan then kv_clear_range (mk V) (prefix_end (mk V)) m6 else m6).
  assert (∀ p, p ≠ PENDING → same p m6 m7) as S7.
  { intros p Hp. unfold m7. destruct (pl_marker_present plan); [|done]. by apply same_clear_prefix. }
  exists m7. split; [unfold m7; by destruct (pl_marker_present plan)|].
  assert (∀ p, p ∈ [PENDING; FENCES; COUNTER] → same p m m6) as S06.
  { intros p Hp. rewrite !elem_of_cons, elem_of_nil in Hp.
    apply (same_trans p m m0); [|apply (same_trans p m0 m1); [|apply (same_trans p m1 m2)]].
    - apply S0. rewrite !elem_of_cons. tauto.
    - apply S1. by destruct Hp as [->|[->|[->|[]]]].
    - apply S2. by destruct Hp as [->|[->|[->|[]]]].
    - apply T1; [|done]. rewrite !elem_of_cons. tauto. }
  split.
  - intros b' k' Hb' Hk'. rewrite (same_head m6 m7) by by apply S7. rewrite (same_head _ m6) by exact T3.
    unfold head at 1. rewrite kv_get_set, Ehk.
    destruct (decide (object_head_key b' k' = object_head_key b k)) as [E1|E1], (decide (b' = b ∧ k' = k)) as [E2|E2]; [done|..].
    + apply head_key_inj in E1; [|done..]. tauto.
    + destruct E2 as [-> ->]. done.
    + change (head m5 b' k' = head m b' k'). rewrite (same_head m2 m5) by done.
      rewrite (same_head m1 m2), (same_head m0 m1), (same_head m m0); [done|apply S0; by left|by apply S1|by apply S2].
  - intros V' HV'. unfold m7. destruct (pl_marker_present plan).
    + rewrite clear_subspace_marker by done. rewrite (same_marker m m6) by (apply S06; by left).
      repeat case_decide; tauto.
    + rewrite (same_marker m m6) by (apply S06; by left). by case_decide as D; [destruct D|].
  - intros V' t HV' Ht. unfold m7. destruct (pl_marker_present plan).
    + rewrite clear_subspace_presence by done. rewrite (same_presence m m6) by (apply S06; by left).
      repeat case_decide; tauto.
    + rewrite (same_presence m m6) by (apply S06; by left). by case_decide as D; [destruct D|].
  - intros q Hq. unfold m7. assert (kv_get q m6 = kv_get q m) as E by (apply (S06 PENDING); [by left|done]).
    destruct (pl_marker_present plan); [|by left]. rewrite kv_get_clear_range. destruct (in_range _ _ _); [by right|by left].
  - assert (same RLOG m1 m7) as SR.
    { eapply same_trans; [by apply S2|]. eapply same_trans; [apply T1; [|done]|by apply S7]. rewrite !elem_of_cons. tauto. }
    assert (same OCC m2 m7) as SO.
    { eapply same_trans; [apply T1; [|done]|by apply S7]. rewrite !elem_of_cons. tauto. }
    assert (same RLOG m m0) as SR0 by (apply S0; rewrite !elem_of_cons; tauto).
    split_and!.
    + intros V' F HV' HF -> Hin. destruct (rl_put_all V fs m0 V F) as [R _]; [done..|].
      destruct (R eq_refl Hin) as (f & Hf & E). exists f. rewrite (same_rlog m1 m7) by done. done.
    + intros V' F HV' HF Hn. destruct (rl_put_all V fs m0 V' F) as [_ R]; [done..|].
      rewrite (same_rlog m1 m7), <-(same_rlog m m0) by done. by apply R.
    + intros V' F HV' HF. rewrite (same_occ m2 m7) by done. unfold m2. rewrite index_put_all by done. case_decide; [done|].
      rewrite (same_occ m0 m1), (same_occ m m0); [done|apply S0; rewrite !elem_of_cons; tauto|by apply S1].
  - eapply same_trans; [apply S06; rewrite !elem_of_cons; tauto|by apply S7].
  - eapply same_trans; [apply S06; rewrite !elem_of_cons; tauto|by apply S7].
Qed.

(** What [validate_single_shot_commit] accepted. *)
Lemma validate_Ok c vc :
  validate_single_shot_commit c = Ok vc →
  ∃ V k, ver_ok V ∧ vc_object_id vc = V.1 ∧ vc_object_version vc = V.2 ∧ normalize_object_key (ovm_key (ssc_manifest c)) = Ok k ∧
    vc_manifest vc = set_manifest_key k (ssc_manifest c) ∧ ovm_version_id (ssc_manifest c) = vt V ∧
    vc_head_key vc = object_head_key (ovm_bucket_id (ssc_manifest c)) k ∧
    vc_marker_required vc = ssc_seals_segments c || ssc_require_pending_version_marker c ∧
    vc_marker_fenced vc = ssc_marker_fenced c && vc_marker_required vc ∧
    vc_expected_prior_version vc = ssc_expected_prior_version c ∧
    V.2 ≤ IDENTITY_COORD_MAX ∧
    (∀ f, f ∈ fragments (ovm_stripes (ssc_manifest c)) →
       fp_stripe_index f ≤ IDENTITY_COORD_MAX ∧ fp_fragment_index f ≤ IDENTITY_COORD_MAX).
Proof.
  unfold validate_single_shot_commit. intros (k & Hk & Hc)%result_bind_Ok. cbv zeta in Hc.
  apply result_bind_Ok in Hc as ([id v] & Hp & Hc). apply parse_version_id_canonical in Hp as (Hp & Hid & Hv).
  destruct (Z.ltb_spec IDENTITY_COORD_MAX v) as [?|Hmax]; [done|]. case_match eqn:Hx; [done|]. injection Hc as <-.
  exists (id, v), k. do 11 (split; [done|]). intros f Hf.
  assert (¬ existsb (fun f => (IDENTITY_COORD_MAX <? fp_stripe_index f) || (IDENTITY_COORD_MAX <? fp_fragment_index f))
            (fragments (ovm_stripes (ssc_manifest c))) = true) as Hn
    by (change (ovm_stripes (set_manifest_key k (ssc_manifest c))) with (ovm_stripes (ssc_manifest c)) in Hx; congruence).
  rewrite existsb_exists in Hn.
  destruct (Z.ltb_spec IDENTITY_COORD_MAX (fp_stripe_index f)) as [Hs|Hs], (Z.ltb_spec IDENTITY_COORD_MAX (fp_fragment_index f)) as [Hi|Hi];
    [exfalso; apply Hn; exists f; split; [by apply list_elem_of_In|]..|done].
  all: apply orb_true_iff; rewrite !Z.ltb_lt; lia.
Qed.

(** The marker and the fence as a commit found them. *)
Definition commit_allowed (V : Version) (fs : list FragmentPlan) (required fenced present : bool) (m : KV) : Prop :=
  (if present then ∃ p, pending m V p ∧ pv_state p = WRITING else marker m V = None ∧ required = false) ∧
  (if fenced then fence m V = None else ∀ F, F ∈ frag_of <$> fs → rlog m V F ≠ Some TOMB).

Lemma pass1_marker_Ok vc mb fb present :
  pass1_marker vc mb fb = Ok present →
  (vc_marker_fenced vc = true → fb = None) ∧
  (if present then ∃ bytes p, mb = Some bytes ∧ decode_pending_version_value bytes = Ok p ∧ pv_state p = WRITING
   else mb = None ∧ vc_marker_required vc = false).
Proof.
  unfold pass1_marker. intros (st & Hst & Hc)%result_bind_Ok. destruct mb as [bytes|]; cbn [decode_opt] in Hst.
  - apply result_bind_Ok in Hst as (p & Hp & [= <-]). case_bool_decide as Hw; [|done]. cbn [negb] in Hc.
    destruct (vc_marker_fenced vc); cbn [andb] in Hc.
    + case_bool_decide as Hf; [done|]. injection Hc as <-. split; [|by exists bytes, p]. intros _. by apply eq_None_not_Some.
    + injection Hc as <-. split; [done|by exists bytes, p].
  - injection Hst as <-. destruct (vc_marker_required vc); [done|]. destruct (vc_marker_fenced vc); cbn [andb] in Hc.
    + case_bool_decide as Hf; [done|]. injection Hc as <-. split; [|done]. intros _. by apply eq_None_not_Some.
    + by injection Hc as <-.
Qed.

Lemma prepare_plan_ready uuid vc present plan :
  prepare_plan uuid vc present = WriteReady plan →
  pl_head_key plan = vc_head_key vc ∧ pl_object_id plan = vc_object_id vc ∧ pl_object_version plan = vc_object_version vc ∧
  pl_marker_present plan = present ∧ ovm_version_id (pl_manifest plan) = ovm_version_id (vc_manifest vc) ∧
  ovm_stripes (pl_manifest plan) = ovm_stripes (vc_manifest vc) ∧
  oh_current_version_id (pl_head plan) = ovm_version_id (vc_manifest vc) ∧
  oh_version (pl_head plan) = vc_expected_prior_version vc + 1.
Proof.
  unfold prepare_plan. cbv zeta. case_match; [done|]. injection 1 as <-. cbn [pl_head_key pl_object_id pl_object_version
    pl_marker_present pl_manifest pl_head oh_current_version_id oh_version].
  case_bool_decide; done.
Qed.

Lemma pass1_reads uuid vc : reads (single_shot_pass1 uuid vc).
Proof.
  unfold single_shot_pass1. apply reads_bind; [done|]. intros pb. apply reads_bind; [done|]. intros mb.
  apply reads_bind; [by destruct (vc_marker_fenced vc)|]. intros fb. apply reads_bind; [done|]. intros prior.
  destruct (idempotent_head _ prior); [done|]. destruct (negb _); [done|]. destruct (bool_decide _); [done|].
  destruct (pass1_marker vc mb fb); [|done]. apply reads_bind; [|done].
  destruct (vc_marker_fenced vc); [done|]. intros m. unfold attempt.
  pose proof (check_rows_reads (ovm_version_id (vc_manifest vc)) (fragments (ovm_stripes (vc_manifest vc))) m) as E.
  by destruct (check_rows _ _ m).
Qed.

(** What pass 1 found when it let the commit write. *)
Lemma pass1_ready uuid vc m m1 plan :
  single_shot_pass1 uuid vc m = (m1, Ok (WriteReady plan)) →
  m1 = m ∧ kv_get (vc_head_key vc) m = None ∧ vc_expected_prior_version vc = 0 ∧
  ∃ present, prepare_plan uuid vc present = WriteReady plan ∧
    (if present then ∃ bytes p, kv_get (pending_version_key (vc_object_id vc) (vc_object_version vc)) m = Some bytes ∧
       decode_pending_version_value bytes = Ok p ∧ pv_state p = WRITING
     else kv_get (pending_version_key (vc_object_id vc) (vc_object_version vc)) m = None ∧ vc_marker_required vc = false) ∧
    (if vc_marker_fenced vc then kv_get (version_reclaim_fence_key (vc_object_id vc) (vc_object_version vc)) m = None
     else ∀ f, f ∈ fragments (ovm_stripes (vc_manifest vc)) → kv_get (rl_key_of (ovm_version_id (vc_manifest vc)) f) m ≠ Some TOMB).
Proof.
  intros E. pose proof (pass1_reads uuid vc m) as Hm. rewrite E in Hm. cbn in Hm. subst m1. split; [done|].
  revert E. unfold single_shot_pass1. rewrite !trx_get_bind. intros (m1 & fb & Hfb & Ht)%M_bind_Ok.
  assert (m1 = m ∧ (vc_marker_fenced vc = true → fb = kv_get (version_reclaim_fence_key (vc_object_id vc) (vc_object_version vc)) m))
    as [-> Hfence] by (destruct (vc_marker_fenced vc); injection Hfb as <- <-; done).
  destruct (kv_get (vc_head_key vc) m) as [pb|] eqn:Eh; cbn [decode_opt] in Ht.
  { destruct (decode_object_head pb) as [h|]; [|done]. rewrite result_bind_eq, lift_Ok_bind in Ht. cbv zeta in Ht.
    destruct (idempotent_head _ _); [done|]. destruct (negb _); [done|]. case_bool_decide as Hs; [done|].
    exfalso. apply Hs. by eexists. }
  rewrite lift_Ok_bind in Ht. cbv zeta in Ht. cbn [idempotent_head from_option] in Ht.
  destruct (Z.eqb_spec 0 (vc_expected_prior_version vc)) as [Hx|?]; [|done]. cbn [negb] in Ht.
  rewrite bool_decide_eq_false_2 in Ht by by intros [? ?].
  destruct (pass1_marker vc _ fb) as [present|] eqn:Ep; [|done]. apply pass1_marker_Ok in Ep as [Hfn Hmk].
  apply M_bind_Ok in Ht as (m1 & r & Hr & Ht). apply pair_equal_spec in Ht as [_ Ht]. apply Ok_inj in Ht.
  split; [done|]. split; [done|]. exists present. destruct r as [[]|]; [|done]. split; [done|]. split; [done|].
  destruct (vc_marker_fenced vc); [by rewrite <-Hfence, Hfn|].
  unfold attempt in Hr. destruct (check_rows _ _ m) as [m2 r2] eqn:Ec. apply pair_equal_spec in Hr as [-> Hr]. apply Ok_inj in Hr. subst r2.
  apply check_rows_Ok in Ec as [_ Hc]. exact Hc.
Qed.

Lemma pass1_idempotent uuid vc m m1 h :
  single_shot_pass1 uuid vc m = (m1, Ok (Idempotent h)) →
  ∃ bytes, kv_get (vc_head_key vc) m = Some bytes ∧ decode_object_head bytes = Ok h ∧
    oh_current_version_id h = ovm_version_id (vc_manifest vc).
Proof.
  unfold single_shot_pass1. rewrite !trx_get_bind. intros (m2 & fb & Hfb & Ht)%M_bind_Ok.
  destruct (kv_get (vc_head_key vc) m) as [pb|] eqn:Eh; cbn [decode_opt] in Ht.
  - destruct (decode_object_head pb) as [h'|] eqn:Ed; [|done]. rewrite result_bind_eq, lift_Ok_bind in Ht. cbv zeta in Ht.
    cbn [idempotent_head] in Ht. case_bool_decide as Hv.
    + apply pair_equal_spec in Ht as [_ Ht]. apply Ok_inj in Ht. injection Ht as <-. by exists pb.
    + exfalso. destruct (negb _); [done|]. rewrite bool_decide_eq_true_2 in Ht by by eexists. done.
  - exfalso. rewrite lift_Ok_bind in Ht. cbv zeta in Ht. cbn [idempotent_head from_option] in Ht.
    destruct (negb _); [done|]. rewrite bool_decide_eq_false_2 in Ht by by intros [? ?].
    destruct (pass1_marker vc _ fb) as [present|] eqn:Ep; [|done].
    apply M_bind_Ok in Ht as (m3 & r & _ & Ht). apply pair_equal_spec in Ht as [_ Ht]. apply Ok_inj in Ht.
    destruct r; [|done]. unfold prepare_plan in Ht. cbv zeta in Ht. by case_match.
Qed.

Lemma commit_spec uuid c m m' h :
  seg_ok (ovm_bucket_id (ssc_manifest c)) → (∀ k, normalize_object_key (ovm_key (ssc_manifest c)) = Ok k → seg_ok k) →
  Forall fplan_ok (fragments (ovm_stripes (ssc_manifest c))) →
  commit_object_single_shot uuid c m = (m', Ok h) →
  ∃ V k, ver_ok V ∧ ovm_version_id (ssc_manifest c) = vt V ∧ normalize_object_key (ovm_key (ssc_manifest c)) = Ok k ∧
    oh_current_version_id h = vt V ∧
    ((m' = m ∧ ∃ bytes, head m (ovm_bucket_id (ssc_manifest c)) k = Some bytes ∧ decode_object_head bytes = Ok h) ∨
     (head m (ovm_bucket_id (ssc_manifest c)) k = None ∧ oh_version h = 1 ∧
      let required := ssc_seals_segments c || ssc_require_pending_version_marker c in
      ∃ present, commit_allowed V (fragments (ovm_stripes (ssc_manifest c))) required (ssc_marker_fenced c && required) present m ∧
        commit_effect V (ovm_bucket_id (ssc_manifest c)) k (fragments (ovm_stripes (ssc_manifest c))) present h m m')).
Proof.
  intros Hb Hk Hfs. unfold commit_object_single_shot.
  destruct (validate_single_shot_commit c) as [vc|] eqn:Evc; [|done]. rewrite lift_Ok_bind, run_Ok.
  apply validate_Ok in Evc as (V & k & HV & Eid & Ever & Hkey & Em & Ev & Ehk & Ereq & Efen & Eexp & _).
  specialize (Hk k Hkey). intros (m1 & out & Hout & Ht)%M_bind_Ok. exists V, k. do 3 (split; [done|]).
  destruct out as [plan|h'|st]; [| |done].
  - apply pass1_ready in Hout as (-> & Hnone & Hexp & present & Hplan & Hmk & Hfence).
    apply prepare_plan_ready in Hplan as (P1 & P2 & P3 & P4 & P5 & P6 & P7 & P8).
    rewrite Em in *. cbn [set_manifest_key ovm_version_id ovm_stripes] in *.
    destruct (pass2_effect V (ovm_bucket_id (ssc_manifest c)) k plan m) as (m2 & E2 & Heff);
      [done|done|done|by rewrite P6|congruence..|].
    apply M_bind_Ok in Ht as (m3 & [] & E3 & Ht). rewrite E2 in E3. apply pair_equal_spec in E3 as [<- _].
    apply pair_equal_spec in Ht as [<- Ht]. apply Ok_inj in Ht. subst h. split; [congruence|]. right.
    rewrite Ehk in Hnone. split; [exact Hnone|]. split; [lia|]. exists present. split.
    + split.
      * destruct present.
        -- destruct Hmk as (bytes & p & H1 & H2 & H3). exists p. split; [|done]. exists bytes. split; [|done].
           rewrite Eid, Ever in H1. exact H1.
        -- destruct Hmk as [H1 H2]. rewrite Eid, Ever in H1. split; [exact H1|congruence].
      * rewrite Ereq in Efen. rewrite Efen in Hfence. destruct (ssc_marker_fenced c && _).
        -- rewrite Eid, Ever in Hfence. exact Hfence.
        -- intros F (f & -> & Hf)%list_elem_of_fmap. rewrite Ev in Hfence. by apply Hfence.
    + rewrite P4, P6 in Heff. exact Heff.
  - apply pair_equal_spec in Ht as [<- Ht]. apply Ok_inj in Ht. subst h'.
    pose proof (pass1_reads uuid vc m) as Hm. rewrite Hout in Hm. cbn in Hm. subst m1.
    apply pass1_idempotent in Hout as (bytes & H1 & H2 & H3). rewrite Em in H3. cbn in H3. split; [congruence|].
    left. split; [done|]. exists bytes. rewrite Ehk in H1. done.
Qed.
End effects.
