(* ===== verification/Sorts.v ===== *)
(** [slice::sort_by] and [sort_by_key]: a stable sort, as insertion from the right. *)
From S2P Require Import Prelude.
From Stdlib Require Export Sorting.Sorted.

Section sort_by.
Context {A : Type} (leb : A → A → bool).

Fixpoint insert_by (x : A) (l : list A) : list A :=
  match l with
  | [] => [x]
  | y :: l' => if leb x y then x :: y :: l' else y :: insert_by x l'
  end.

Fixpoint sort_by (l : list A) : list A :=
  match l with
  | [] => []
  | x :: l' => insert_by x (sort_by l')
  end.

Lemma insert_by_perm x l : insert_by x l ≡ₚ x :: l.
Proof.
  induction l as [|y l IH]; [done|]. cbn. destruct (leb x y); [done|]. rewrite IH. apply perm_swap.
Qed.

Lemma sort_by_perm l : sort_by l ≡ₚ l.
Proof. induction l as [|x l IH]; [done|]. cbn. by rewrite insert_by_perm, IH. Qed.

Lemma elem_of_sort_by x l : x ∈ sort_by l ↔ x ∈ l.
Proof. by rewrite sort_by_perm. Qed.

Context (Htot : ∀ x y, leb x y = true ∨ leb y x = true) (Htrans : ∀ x y z, leb x y = true → leb y z = true → leb x z = true).

Lemma insert_by_sorted x l :
  StronglySorted (fun a b => leb a b = true) l → StronglySorted (fun a b => leb a b = true) (insert_by x l).
Proof.
  induction 1 as [|y l Hs IH Hy]; [by repeat constructor|]. cbn. destruct (leb x y) eqn:E.
  - constructor; [by constructor|]. constructor; [done|]. eapply Forall_impl; [exact Hy|]. cbn. eauto.
  - constructor; [done|]. rewrite insert_by_perm. constructor; [|done]. destruct (Htot x y); congruence.
Qed.

Lemma sort_by_sorted l : StronglySorted (fun a b => leb a b = true) (sort_by l).
Proof. induction l as [|x l IH]; [constructor|]. by apply insert_by_sorted. Qed.

(** On elements the order tells apart, the sort does not depend on how the input was arranged. *)
Lemma sorted_unique l k :
  (∀ x y, x ∈ l → y ∈ l → leb x y = true → leb y x = true → x = y) →
  StronglySorted (fun a b => leb a b = true) l → StronglySorted (fun a b => leb a b = true) k → l ≡ₚ k → l = k.
Proof.
  intros Ha Hl. revert k Ha. induction Hl as [|x l Hs IH Hx]; intros k Ha Hk Hp.
  { symmetry in Hp. by apply Permutation_nil_r in Hp. }
  destruct Hk as [|y k Hk Hy]; [by apply Permutation_nil_r in Hp|].
  assert (x = y) as ->.
  { assert (y ∈ x :: l) as [->|Hyl]%elem_of_cons by (rewrite Hp; by left); [done|].
    assert (x ∈ y :: k) as [->|Hxk]%elem_of_cons by (rewrite <-Hp; by left); [done|].
    rewrite Forall_forall in Hx, Hy. apply Ha; [by left|by right|by apply Hx|by apply Hy]. }
  f_equal. apply IH; [|done|by apply (inj (cons y))]. intros a b Ha1 Ha2. apply Ha; by right.
Qed.

Lemma sort_by_unique l k :
  (∀ x y, x ∈ l → y ∈ l → leb x y = true → leb y x = true → x = y) → l ≡ₚ k → sort_by l = sort_by k.
Proof.
  intros Ha Hp. apply sorted_unique; [|apply sort_by_sorted|apply sort_by_sorted|by rewrite !sort_by_perm].
  intros x y Hx Hy. rewrite elem_of_sort_by in Hx, Hy. by apply Ha.
Qed.

(** Removing elements before or after sorting is the same. *)
Lemma insert_by_filter (P : A → Prop) `{∀ x, Decision (P x)} x l :
  StronglySorted (fun a b => leb a b = true) l →
  filter P (insert_by x l) = if decide (P x) then insert_by x (filter P l) else filter P l.
Proof.
  induction 1 as [|y l Hs IH Hy].
  { cbn [insert_by]. rewrite filter_cons, filter_nil. done. }
  cbn [insert_by]. destruct (leb x y) eqn:E.
  - rewrite (filter_cons P x). destruct (decide (P x)) as [Hp|Hp]; [|done].
    destruct (filter P (y :: l)) as [|z k] eqn:Ek; [done|]. cbn [insert_by]. destruct (leb x z) eqn:Ez; [done|].
    assert (z ∈ y :: l) as Hz by (apply (list_elem_of_filter P); rewrite Ek; by left).
    apply elem_of_cons in Hz as [->|Hz]; [congruence|]. rewrite Forall_forall in Hy.
    rewrite (Htrans x y z) in Ez; [done..|]. by apply Hy.
  - rewrite !(filter_cons P y), IH. destruct (decide (P y)) as [Hp|Hp].
    + destruct (decide (P x)); [|done]. cbn [insert_by]. by rewrite E.
    + by destruct (decide (P x)).
Qed.

Lemma sort_by_filter (P : A → Prop) `{∀ x, Decision (P x)} l : filter P (sort_by l) = sort_by (filter P l).
Proof.
  induction l as [|x l IH]; [done|]. cbn [sort_by]. rewrite insert_by_filter by apply sort_by_sorted.
  rewrite filter_cons, IH. by destruct (decide (P x)).
Qed.
End sort_by.
