(* ===== verification/KmsReap.v ===== *)
(** What beginning, renewing and forfeiting a write, authorizing a reclaim, reaping an
    orphaned version, retiring fences and deleting an object require and change. *)
From stdpp Require Import sorting.
From S2P Require Import Prelude Bytes Sorts Fdb KmsKeys KmsValues KmsStore KmsViews KmsEffects.

Section reap.
Context {KV : Type} {Hdb : Fdb KV} {Hlaws : FdbLaws KV} {Hcodec : KmsCodec}.

(** ** Beginning *)

Lemma resolve_levels_touches ns pid ppath levels :
  touches [PREFIX_NAMESPACE_ENTRY; PREFIX_NAMESPACE_PATH] (resolve_levels ns pid ppath levels).
Proof.
  revert pid ppath. induction levels as [|l levels IH]; intros pid ppath; cbn [resolve_levels]; [by apply reads_touches|].
  apply touches_bind; [|intros id; apply IH]. unfold resolve_level. touch.
Qed.

Lemma resolve_parent_touches ns k be bp hint :
  touches [PREFIX_NAMESPACE_ENTRY; PREFIX_NAMESPACE_PATH] (resolve_or_create_object_parent ns k be bp hint).
Proof.
  unfold resolve_or_create_object_parent. apply touches_bind.
  - unfold check_hint. touch.
  - intros [parent|]; [touch|]. destruct (rsplit_slash k) as [[? ?]|]; [apply resolve_levels_touches|touch].
Qed.

Definition begin_value (e : Z) (b k : list byte) : PendingVersion := mkPendingVersion e WRITING b k.

Record marker_effect (V : Version) (p : PendingVersion) (m m' : KV) : Prop := {
  me_marker' : ∀ V', ver_ok V' → marker m' V' =
    if decide (V' = V) then Some (encode_pending_version_value p) else marker m V';
  me_presence' : ∀ V' t, ver_ok V' → seg_ok t → presence m' V' t = presence m V' t;
  me_pending : ∀ q, kspace q = Some PENDING → q ≠ mk V → kv_get q m' = kv_get q m;
  me_same : ∀ p, p ∈ [HEADS; RLOG; OCC; FENCES] → same p m m';
}.

Lemma set_marker_effect V p m m0 :
  ver_ok V → (∀ p, p ∈ [HEADS; PENDING; RLOG; OCC; FENCES] → same p m m0) →
  marker_effect V p m (kv_set (mk V) (encode_pending_version_value p) m0).
Proof.
  intros HV HS. split.
  - intros V' HV'. rewrite set_marker by done. case_decide; [done|]. apply same_marker, HS. rewrite !elem_of_cons. tauto.
  - intros V' t HV' Ht. rewrite set_marker_presence by done. apply same_presence, HS. rewrite !elem_of_cons. tauto.
  - intros q Hq Hne. rewrite kv_get_set, decide_False by done. apply (HS PENDING); [|done]. rewrite !elem_of_cons. tauto.
  - intros p' Hp. apply (same_trans _ m m0); [apply HS; rewrite !elem_of_cons in *; tauto|]. apply same_set.
    intros [= E]. rewrite !elem_of_cons, elem_of_nil in Hp. subst p'. by destruct Hp as [?|[?|[?|[?|[]]]]].
Qed.

Lemma marker_effect_clear V p m m' k :
  marker_effect V p m m' → kspace k = Some PREFIX_OBJECT_LEASE → marker_effect V p m (kv_clear k m').
Proof.
  intros [E1 E2 E3 E4] Hk. assert (∀ p, p ∈ [HEADS; PENDING; RLOG; OCC; FENCES] → same p m' (kv_clear k m')) as HS.
  { intros p' Hp. apply same_clear. rewrite Hk. intros [= <-]. by rewrite !elem_of_cons, elem_of_nil in Hp;
    destruct Hp as [?|[?|[?|[?|[?|[]]]]]]. }
  split.
  - intros V' HV'. rewrite <-E1 by done. apply same_marker, HS. rewrite !elem_of_cons. tauto.
  - intros V' t HV' Ht. rewrite <-E2 by done. apply same_presence, HS. rewrite !elem_of_cons. tauto.
  - intros q Hq Hne. rewrite <-E3 by done. apply (HS PENDING); [|done]. rewrite !elem_of_cons. tauto.
  - intros p' Hp. eapply same_trans; [by apply E4|]. apply HS. rewrite !elem_of_cons in *. tauto.
Qed.

Lemma marker_effect_set V p m m' k x :
  marker_effect V p m m' → kspace k = Some PREFIX_OBJECT_LEASE → marker_effect V p m (kv_set k x m').
Proof.
  intros [E1 E2 E3 E4] Hk. assert (∀ p, p ∈ [HEADS; PENDING; RLOG; OCC; FENCES] → same p m' (kv_set k x m')) as HS.
  { intros p' Hp. apply same_set. rewrite Hk. intros [= <-]. by rewrite !elem_of_cons, elem_of_nil in Hp;
    destruct Hp as [?|[?|[?|[?|[?|[]]]]]]. }
  split.
  - intros V' HV'. rewrite <-E1 by done. apply same_marker, HS. rewrite !elem_of_cons. tauto.
  - intros V' t HV' Ht. rewrite <-E2 by done. apply same_presence, HS. rewrite !elem_of_cons. tauto.
  - intros q Hq Hne. rewrite <-E3 by done. apply (HS PENDING); [|done]. rewrite !elem_of_cons. tauto.
  - intros p' Hp. eapply same_trans; [by apply E4|]. apply HS. rewrite !elem_of_cons in *. tauto.
Qed.

Definition head_version_ok (m : KV) (b k : list byte) : Prop :=
  ∀ bytes h, head m b k = Some bytes → decode_object_head bytes = Ok h → 0 ≤ oh_version h.

Lemma next_version_Ok b k m m' v :
  head_version_ok m b k → next_version (object_head_key b k) m = (m', Ok v) → m' = m ∧ is_u32 v.
Proof.
  intros Hh. unfold next_version. rewrite trx_get_bind. destruct (kv_get (object_head_key b k) m) as [bytes|] eqn:E; cbn [decode_opt].
  - destruct (decode_object_head bytes) as [h|] eqn:Ed; [|done]. rewrite result_bind_eq, lift_Ok_bind.
    intros [<- Hv]%pair_equal_spec. apply Ok_inj in Hv. subst v. split; [done|]. specialize (Hh _ _ E Ed).
    unfold fits, u32_max. lia.
  - rewrite lift_Ok_bind. intros [<- Hv]%pair_equal_spec. apply Ok_inj in Hv. by subst v.
Qed.

Lemma begin_txn_spec id b k ns be bp hint e m m' v pe pp :
  is_u32 id → head_version_ok m b k →
  begin_txn id b k ns be bp hint e m = (m', Ok (v, pe, pp)) →
  ver_ok (id, v) ∧ marker_effect (id, v) (begin_value e b k) m m'.
Proof.
  intros Hid Hh. unfold begin_txn. intros (m1 & w & Hw & Ht)%M_bind_Ok. apply next_version_Ok in Hw as [-> Hw]; [|done].
  apply M_bind_Ok in Ht as (m2 & [pe' pp'] & Hp & Ht). rewrite !trx_set_bind in Ht.
  apply pair_equal_spec in Ht as [<- Ht]. apply Ok_inj in Ht. injection Ht as -> -> ->. split; [done|].
  apply marker_effect_set; [|done]. apply set_marker_effect; [done|]. intros p Hp'.
  eapply touches_same; [apply resolve_parent_touches|exact Hp|].
  rewrite !elem_of_cons, elem_of_nil in Hp'. rewrite !elem_of_cons, elem_of_nil.
  by destruct Hp' as [->|[->|[->|[->|[->|[]]]]]]; intros [?|[?|[]]].
Qed.

Lemma begin_object_write_spec id v b key e m m' :
  is_u32 id → is_u32 v → begin_object_write id v b key e m = (m', Ok tt) →
  ∃ k, normalize_object_key key = Ok k ∧ marker_effect (id, v) (begin_value e b k) m m'.
Proof.
  intros Hid Hv. unfold begin_object_write. destruct (normalize_object_key key) as [k|]; [|done].
  rewrite lift_Ok_bind, run_Ok, trx_set_bind. intros [<- _]%pair_equal_spec. exists k. split; [done|].
  apply (set_marker_effect (id, v)); [done|]. intros p Hp. apply same_set. intros [= <-].
  by rewrite !elem_of_cons, elem_of_nil in Hp; destruct Hp as [?|[?|[?|[?|[?|[]]]]]].
Qed.

(** ** Renewing and forfeiting *)

Lemma find_marker_Some rows key p :
  find_marker rows = Ok (Some (key, p)) →
  ∃ value id v, (key, value) ∈ rows ∧ decode_pending_version_key_parts key = Ok (id, v, None) ∧
    decode_pending_version_value value = Ok p.
Proof.
  induction rows as [|[k x] rows IH]; cbn [find_marker]; [done|].
  destruct (decode_pending_version_key_parts k) as [[[id v] [t|]]|] eqn:Ek.
  - intros (y & id' & v' & Hin & ?)%IH. exists y, id', v'. split; [by right|done].
  - intros (q & Hq & [= -> ->])%result_bind_Ok. exists x, id, v. split; [by left|done].
  - intros (y & id' & v' & Hin & ?)%IH. exists y, id', v'. split; [by right|done].
Qed.

Lemma renew_spec id e m m' :
  renew_object_write id e m = (m', Ok tt) →
  ∃ key value id' v p, kv_get key m = Some value ∧ kspace key = Some PENDING ∧
    decode_pending_version_key_parts key = Ok (id', v, None) ∧
    decode_pending_version_value value = Ok p ∧ pv_state p ≠ RECLAIMING ∧
    m' = kv_set key (encode_pending_version_value (with_expiry_max e p))
           (kv_set (object_lease_key id) (encode_write_lease_value e) m).
Proof.
  unfold renew_object_write. rewrite run_Ok, trx_range_bind.
  destruct (find_marker _) as [[[key p]|]|] eqn:Ef; [|done..]. rewrite lift_Ok_bind. case_bool_decide as Hr; [done|].
  rewrite trx_set_bind. intros [<- _]%pair_equal_spec.
  apply find_marker_Some in Ef as (value & id' & v & Hin & Hk & Hp). apply kv_range_elem in Hin as [Hin Hget].
  exists key, value, id', v, p. split; [done|]. split; [|done].
  apply prefix_range_exact in Hin; [by apply kspace_prefix in Hin|by left].
Qed.

Lemma forfeit_spec V m m' :
  ver_ok V → forfeit_object_write V.1 V.2 m = (m', Ok tt) →
  (∀ p, p ∈ [HEADS; PENDING; RLOG; OCC; FENCES] → same p m m') ∨
  ∃ p, pending m V p ∧ pv_state p = WRITING ∧
    marker_effect V (mkPendingVersion 0 RECLAIMING (pv_bucket_id p) (pv_key p)) m m'.
Proof.
  intros HV. unfold forfeit_object_write. cbv zeta. rewrite run_Ok, trx_get_bind.
  destruct (kv_get (pending_version_key V.1 V.2) m) as [bytes|] eqn:Em; [|by intros [<- _]%pair_equal_spec; left].
  destruct (decode_pending_version_value bytes) as [p|] eqn:Ep; [|done]. rewrite lift_Ok_bind. case_bool_decide as Hw.
  - rewrite trx_set_bind. intros [<- _]%pair_equal_spec. right. exists p. split; [by exists bytes|]. split; [done|].
    apply marker_effect_clear; [|done]. by apply set_marker_effect.
  - rewrite mret_bind. intros [<- _]%pair_equal_spec. left. intros p' Hp. apply same_clear. intros [= <-].
    by rewrite !elem_of_cons, elem_of_nil in Hp; destruct Hp as [?|[?|[?|[?|[?|[]]]]]].
Qed.

(** ** Authorizing a reclaim *)

Lemma set_fence V V' x m :
  ver_ok V → ver_ok V' → fence (kv_set (fk V) x m) V' = if decide (V' = V) then Some x else fence m V'.
Proof.
  intros HV HV'. unfold fence. rewrite kv_get_set.
  destruct (decide (fk V' = fk V)) as [E|E], (decide (V' = V)) as [E'|E']; try done.
  - by apply fk_inj in E.
  - by subst.
Qed.

Lemma set_rlog V V' F F' x m :
  ver_ok V → ver_ok V' → frag_ok F → frag_ok F' →
  rlog (kv_set (rk V F) x m) V' F' = if decide (V' = V ∧ F' = F) then Some x else rlog m V' F'.
Proof.
  intros HV HV' HF HF'. unfold rlog. rewrite kv_get_set.
  destruct (decide (rk V' F' = rk V F)) as [E|E], (decide (V' = V ∧ F' = F)) as [E'|E']; try done.
  - by apply rk_inj in E.
  - by destruct E' as [-> ->].
Qed.

(** The three outcomes that change rows or matter to the caller. *)
Record tombstone_effect (V : Version) (F : Frag) (m m' : KV) : Prop := {
  te_rlog' : ∀ V' F', ver_ok V' → frag_ok F' → rlog m' V' F' = if decide (V' = V ∧ F' = F) then Some TOMB else rlog m V' F';
  te_fence' : ∀ V', ver_ok V' → (V' = V → fence m' V' ≠ None) ∧ (V' ≠ V → fence m' V' = fence m V');
  te_same : ∀ p, p ∈ [HEADS; PENDING; OCC] → same p m m';
}.

Lemma authorize_spec V F now grace m m' d :
  ver_ok V → frag_ok F →
  authorize_orphan_reclaim F.1.1 V.1 V.2 F.1.2 F.2 now grace m = (m', Ok d) →
  match d with
  | Authorized => rlog m V F = None ∧ occ m V F = None ∧ tombstone_effect V F m m'
  | AlreadyReclaimed => rlog m V F = Some TOMB ∧ tombstone_effect V F m m'
  | CommittedLive => m' = m ∧ ((∃ x, rlog m V F = Some x ∧ x ≠ TOMB) ∨ (rlog m V F = None ∧ occ m V F ≠ None))
  | LeaseActive => m' = m
  end.
Proof.
  intros HV HF. unfold authorize_orphan_reclaim. cbv zeta. rewrite run_Ok, trx_get_bind.
  change (target_reverse_log_key F.1.1 (version_id_text V.1 V.2) F.1.2 F.2) with (rk V F).
  change (version_reclaim_fence_key V.1 V.2) with (fk V). change (kv_get (rk V F) m) with (rlog m V F).
  assert (∀ m0 y, (∀ p, p ∈ [HEADS; PENDING; OCC] → same p m m0) → ∀ p, p ∈ [HEADS; PENDING; OCC] → same p m (kv_set (fk V) y m0)) as HS.
  { intros m0 y H0 p Hp. apply (same_trans _ m m0); [by apply H0|]. apply same_set. intros [= <-].
    by rewrite !elem_of_cons, elem_of_nil in Hp; destruct Hp as [?|[?|[?|[]]]]. }
  destruct (rlog m V F) as [x|] eqn:Er.
  - unfold is_reverse_log_reclaim_tombstone. case_bool_decide as Hx.
    + rewrite trx_set_bind. intros [<- <-%Ok_inj]%pair_equal_spec. split; [by rewrite Hx|]. split.
      * intros V' F' HV' HF'. rewrite (same_rlog m) by by apply same_set.
        case_decide as D; [|done]. destruct D as [-> ->]. by rewrite Er, Hx.
      * intros V' HV'. rewrite set_fence by done. by case_decide.
      * by apply HS.
    + intros [<- <-%Ok_inj]%pair_equal_spec. split; [done|]. left. by exists x.
  - rewrite trx_get_bind. case_bool_decide as Ho.
    { intros [<- <-%Ok_inj]%pair_equal_spec. split; [done|]. right. split; [done|]. by apply not_eq_None_Some. }
    rewrite trx_get_bind. destruct (marker_shields _ _ _); [by intros [<- <-%Ok_inj]%pair_equal_spec|].
    rewrite trx_get_bind. destruct (lease_active _ _ _) as [[]|]; [|rewrite lift_Ok_bind|done].
    { rewrite lift_Ok_bind. by intros [<- <-%Ok_inj]%pair_equal_spec. }
    rewrite !trx_set_bind. intros [<- <-%Ok_inj]%pair_equal_spec. split; [done|]. split; [by apply eq_None_not_Some|]. split.
    + intros V' F' HV' HF'. rewrite (same_rlog (kv_set (rk V F) TOMB m)) by by apply same_set. by apply set_rlog.
    + intros V' HV'. rewrite set_fence by done. case_decide; [by split|]. split; [done|]. intros _.
      by apply same_fence, same_set.
    + apply HS. intros p Hp. apply same_set. intros [= <-].
      by rewrite !elem_of_cons, elem_of_nil in Hp; destruct Hp as [?|[?|[?|[]]]].
Qed.

(** ** Claiming *)

Lemma claim_spec V now cg lg m m' c :
  ver_ok V → claim_orphan_version V.1 V.2 now cg lg m = (m', Ok c) →
  match c with
  | Gone => m' = m ∧ marker m V = None
  | SkippedWriterAlive => m' = m
  | SkippedHeadLive => ∃ p bytes h, pending m V p ∧ head m (pv_bucket_id p) (pv_key p) = Some bytes ∧
      decode_object_head bytes = Ok h ∧ oh_current_version_id h = vt V ∧
      m' = kv_clear_range (mk V) (prefix_end (mk V)) m
  | Resumed ts => m' = m ∧ (∃ p, pending m V p ∧ pv_state p = RECLAIMING) ∧
      ts = omap resume_of_row (kv_range (mk V) (prefix_end (mk V)) m)
  | Claimed ts => ∃ p, pending m V p ∧ pv_state p = WRITING ∧ pending_version_claim_eligible p now cg = true ∧
      marker_effect V (mkPendingVersion now RECLAIMING (pv_bucket_id p) (pv_key p)) m m' ∧
      ts = omap resume_of_row (kv_range (mk V) (prefix_end (mk V)) m)
  end.
Proof.
  intros HV. unfold claim_orphan_version, claim_txn. cbv zeta. rewrite run_Ok, trx_get_bind.
  destruct (kv_get (pending_version_key V.1 V.2) m) as [bytes|] eqn:Em;
    [|by intros [<- <-%Ok_inj]%pair_equal_spec].
  destruct (decode_pending_version_value bytes) as [p|] eqn:Ep; [|done]. rewrite lift_Ok_bind.
  assert (pending m V p) as Hp by by exists bytes.
  pose proof (decode_pending_version_Ok _ _ Ep) as [_ (_ & Hst & _)].
  case_bool_decide as Hr.
  { intros (m1 & ts & Ht & [<- <-%Ok_inj]%pair_equal_spec)%M_bind_Ok.
    unfold claim_targets in Ht. rewrite trx_range_bind in Ht. apply pair_equal_spec in Ht as [<- <-%Ok_inj].
    split; [done|]. split; [by exists p|done]. }
  destruct (pending_version_claim_eligible p now cg) eqn:Ee; cbn [negb]; [|by intros [<- <-%Ok_inj]%pair_equal_spec].
  rewrite trx_get_bind. destruct (lease_active _ _ _) as [[]|]; [|rewrite lift_Ok_bind|done].
  { rewrite lift_Ok_bind. by intros [<- <-%Ok_inj]%pair_equal_spec. }
  intros (m1 & live & Hl & Ht)%M_bind_Ok.
  assert (m1 = m ∧ (live = true → ∃ hb h, head m (pv_bucket_id p) (pv_key p) = Some hb ∧ decode_object_head hb = Ok h ∧
    oh_current_version_id h = vt V)) as [-> Hlive].
  { unfold head_is_live in Hl. destruct (_ || _); [by apply pair_equal_spec in Hl as [<- <-%Ok_inj]|].
    rewrite trx_get_bind in Hl. destruct (kv_get (object_head_key _ _) m) as [hb|] eqn:Eh; cbn [decode_opt] in Hl.
    - destruct (decode_object_head hb) as [h|] eqn:Ed; [|done]. rewrite result_bind_eq, lift_Ok_bind in Hl.
      apply pair_equal_spec in Hl as [<- <-%Ok_inj]. split; [done|]. intros Hv%bool_decide_eq_true. by exists hb, h.
    - rewrite lift_Ok_bind in Hl. by apply pair_equal_spec in Hl as [<- <-%Ok_inj]. }
  destruct live.
  - rewrite trx_clear_range_bind in Ht. apply pair_equal_spec in Ht as [<- <-%Ok_inj].
    destruct (Hlive eq_refl) as (hb & h & H1 & H2 & H3). by exists p, hb, h.
  - apply M_bind_Ok in Ht as (m1 & ts & Hts & Ht). unfold claim_targets in Hts. rewrite trx_range_bind in Hts.
    apply pair_equal_spec in Hts as [<- <-%Ok_inj]. rewrite trx_set_bind in Ht. apply pair_equal_spec in Ht as [<- <-%Ok_inj].
    exists p. split; [done|]. split; [by destruct Hst|]. split; [done|]. split; [|done]. by apply set_marker_effect.
Qed.

(** ** Scans *)

(** After the cursor is at or past its immediate successor. *)
Lemma after_cursor c k : bytes_ltb k (c ++ [x00]) = false ↔ bytes_ltb c k = true.
Proof.
  revert k. induction c as [|x c IH]; intros k.
  - destruct k as [|y k]; cbn; [done|]. pose proof (byte_to_Z_range y) as Hy. change (byte_to_Z x00) with 0.
    destruct (Z.ltb_spec (byte_to_Z y) 0); [lia|]. destruct (0 <? byte_to_Z y); [done|]. by destruct k.
  - destruct k as [|y k]; cbn [app bytes_ltb]; [done|].
    destruct (Z.ltb_spec (byte_to_Z y) (byte_to_Z x)), (Z.ltb_spec (byte_to_Z x) (byte_to_Z y)); try lia; try (by split); apply IH.
Qed.

(** The rows a limited scan returned, when it returned less than it may. *)
Lemma range_limit_all b e n (m : KV) : len (kv_range_limit b e n m) < n → kv_range_limit b e n m = kv_range b e m.
Proof.
  unfold kv_range_limit. destruct (Z.eqb_spec n 0); [done|]. rewrite length_take. intros Hn. apply take_ge. lia.
Qed.

Lemma range_limit_elem b e n (m : KV) k v :
  (k, v) ∈ kv_range_limit b e n m → in_range b e k = true ∧ kv_get k m = Some v.
Proof.
  unfold kv_range_limit. destruct (n =? 0); [apply kv_range_elem|].
  intros Hin. apply kv_range_elem. rewrite <-(take_drop (Z.to_nat n)). apply elem_of_app. by left.
Qed.

Lemma sorted_app_lt (l1 l2 : list (list byte * list byte)) x y :
  StronglySorted (fun x y => bytes_ltb x.1 y.1 = true) (l1 ++ l2) → x ∈ l1 → y ∈ l2 → bytes_ltb x.1 y.1 = true.
Proof.
  induction l1 as [|z l1 IH]; intros Hs Hx Hy; [by apply not_elem_of_nil in Hx|].
  apply StronglySorted_inv in Hs as [Hs Hf]. apply elem_of_cons in Hx as [->|Hx]; [|by apply IH].
  rewrite Forall_forall in Hf. apply Hf. apply elem_of_app. by right.
Qed.

(** What follows a row of a range is the range from its successor on. *)
Lemma range_after b e (m : KV) l1 k v l2 : kv_range b e m = l1 ++ (k, v) :: l2 → kv_range (k ++ [x00]) e m = l2.
Proof.
  intros E. pose proof (kv_range_sorted b e m) as Hs. rewrite E in Hs.
  assert (StronglySorted (fun x y : list byte * list byte => bytes_ltb x.1 y.1 = true) l2) as Hs2.
  { clear E. induction l1 as [|x l1 IH]; cbn in Hs; apply StronglySorted_inv in Hs as [Hs _]; [done|by apply IH]. }
  assert (∀ l : list (list byte * list byte), StronglySorted (fun x y => bytes_ltb x.1 y.1 = true) l → NoDup l) as Hnd.
  { induction 1 as [|x l _ IH Hx]; constructor; [|done]. intros Hin. rewrite Forall_forall in Hx. specialize (Hx x Hin). by rewrite bytes_ltb_irrefl in Hx. }
  apply (sorted_unique (fun x y : list byte * list byte => bytes_ltb x.1 y.1)); [|apply kv_range_sorted|done|].
  { intros x y _ _ Hxy Hyx. rewrite (bytes_ltb_asym _ _ Hxy) in Hyx. done. }
  apply NoDup_Permutation; [apply Hnd, kv_range_sorted|by apply Hnd|]. intros [k' v'].
  assert ((k, v) ∈ kv_range b e m) as Hk by (rewrite E; apply elem_of_app; right; by left).
  apply kv_range_elem in Hk as [Hkr _]. unfold in_range in Hkr. apply andb_true_iff in Hkr as [Hkb _]. apply negb_true_iff in Hkb.
  rewrite kv_range_elem. unfold in_range. rewrite andb_true_iff, negb_true_iff, after_cursor. split.
  - intros [[Hlt He] Hg]. assert ((k', v') ∈ kv_range b e m) as Hin.
    { apply kv_range_elem. split; [|done]. unfold in_range. rewrite He, andb_true_r, negb_true_iff.
      destruct (bytes_ltb k' b) eqn:E'; [|done]. rewrite (bytes_ltb_trans k k' b) in Hkb; done. }
    rewrite E in Hin. apply elem_of_app in Hin as [Hin|Hin].
    { pose proof (sorted_app_lt _ _ (k', v') (k, v) Hs Hin ltac:(by left)) as Hx. cbn in Hx. rewrite (bytes_ltb_asym _ _ Hx) in Hlt. done. }
    apply elem_of_cons in Hin as [[= -> ->]|?]; [|done]. by rewrite bytes_ltb_irrefl in Hlt.
  - intros Hin. assert ((k', v') ∈ kv_range b e m) as Hin' by (rewrite E; apply elem_of_app; right; by right).
    apply kv_range_elem in Hin' as [Hr Hg]. unfold in_range in Hr. apply andb_true_iff in Hr as [_ He]. split; [|done]. split; [|done].
    assert (StronglySorted (fun x y : list byte * list byte => bytes_ltb x.1 y.1 = true) ([(k, v)] ++ l2)) as Hs3.
    { clear E Hin Hs2. induction l1 as [|x l1 IH]; [done|]. apply StronglySorted_inv in Hs as [Hs _]. by apply IH. }
    by apply (sorted_app_lt _ _ (k, v) (k', v') Hs3 ltac:(by left)).
Qed.

(** A row of the range at or before the last row returned was returned. *)
Lemma range_limit_upto b e n (m : KV) c w k v :
  last (kv_range_limit b e n m) = Some (c, w) → in_range b e k = true → kv_get k m = Some v → bytes_ltb c k = false →
  (k, v) ∈ kv_range_limit b e n m.
Proof.
  intros Hl Hk Hg Hc. assert ((k, v) ∈ kv_range b e m) as Hin by by apply kv_range_elem.
  unfold kv_range_limit in *. destruct (n =? 0); [done|].
  rewrite <-(take_drop (Z.to_nat n)) in Hin. apply elem_of_app in Hin as [Hin|Hin]; [done|]. exfalso.
  apply last_Some_elem_of in Hl.
  pose proof (kv_range_sorted b e m) as Hs. rewrite <-(take_drop (Z.to_nat n)) in Hs.
  pose proof (sorted_app_lt _ _ _ _ Hs Hl Hin) as E. cbn in E. congruence.
Qed.

(** ** Cleaning a target's rows *)

Definition is_committed (x : list byte) : Prop := ∃ g i, classify_reverse_log_value x = Committed g i.

Lemma tomb_not_committed : ¬ is_committed TOMB.
Proof. by intros (g & i & E). Qed.

Lemma rl_value_committed f : fplan_ok f → is_committed (rl_value_of f).
Proof. intros (_ & _ & Hg & Hi). eexists _, _. by apply classify_encode. Qed.

Lemma kspace_occupancy q : kspace q = Some RLOG → kspace (occupancy_key_for_reverse_log_key q) = Some OCC.
Proof. destruct q as [|a [|b q]]; [done..|]. cbn. by case_bool_decide. Qed.

(** Rows of the page, and what clearing them does to the database. *)
Record rows_cleared (rows : list (list byte * list byte)) (m m' : KV) : Prop := {
  rc_rlog : ∀ q, kspace q = Some RLOG →
    kv_get q m' = kv_get q m ∨ (kv_get q m' = None ∧ ∃ row, row ∈ rows ∧ row.1 = q ∧ is_committed row.2);
  rc_cleared : ∀ row, row ∈ rows → is_committed row.2 → kv_get row.1 m' = None;
  rc_occ : ∀ q, kspace q = Some OCC →
    kv_get q m' = kv_get q m ∨
    (kv_get q m' = None ∧ ∃ row, row ∈ rows ∧ q = occupancy_key_for_reverse_log_key row.1);
  rc_same : ∀ p, p ≠ RLOG → p ≠ OCC → same p m m';
}.

Lemma clear_all_get q k1 k2 k3 (m : KV) :
  kv_get q (kv_clear k3 (kv_clear k2 (kv_clear k1 m))) =
  if decide (q = k3 ∨ q = k2 ∨ q = k1) then None else kv_get q m.
Proof.
  rewrite !kv_get_clear. destruct (decide (q = k3)), (decide (q = k2)), (decide (q = k1)), (decide _); try done; tauto.
Qed.

Lemma rows_cleared_skip row rows m m' :
  ¬ is_committed row.2 → rows_cleared rows m m' → rows_cleared (row :: rows) m m'.
Proof.
  intros Hn [R1 R2 R3 R4]. split; [| | |done].
  - intros q Hq. destruct (R1 q Hq) as [?|(? & r & ? & ?)]; [by left|]. right. split; [done|]. exists r. split; [by right|done].
  - intros r [->|Hr]%elem_of_cons Hx; [done|by apply R2].
  - intros q Hq. destruct (R3 q Hq) as [?|(? & r & ? & ?)]; [by left|]. right. split; [done|]. exists r. split; [by right|done].
Qed.

Lemma rows_cleared_cons row rows t i m m' :
  kspace row.1 = Some RLOG → is_committed row.2 →
  rows_cleared rows
    (kv_clear (committed_granule_key t i) (kv_clear (occupancy_key_for_reverse_log_key row.1) (kv_clear row.1 m))) m' →
  rows_cleared (row :: rows) m m'.
Proof.
  intros Hk Hc. set (m0 := kv_clear _ _). intros [R1 R2 R3 R4]. pose proof (kspace_occupancy _ Hk) as Hko.
  assert (∀ q, kspace q ≠ None → kv_get q m0 =
    if decide (q = occupancy_key_for_reverse_log_key row.1 ∨ q = row.1) then None else kv_get q m) as G0.
  { intros q Hq. unfold m0. rewrite clear_all_get. destruct (decide _) as [D1|D1], (decide _) as [D2|D2]; try done; [|tauto].
    destruct D1 as [->|D1]; [by rewrite kspace_kco in Hq|tauto]. }
  split.
  - intros q Hq. destruct (R1 q Hq) as [Eq|(Eq & r & Hr & ?)].
    + rewrite Eq, G0 by congruence. case_decide as D; [|by left]. right. split; [done|].
      destruct D as [-> | ->]; [by rewrite Hko in Hq|]. exists row. split; [by left|done].
    + right. split; [done|]. exists r. split; [by right|done].
  - intros r [->|Hr]%elem_of_cons Hx; [|by apply R2]. destruct (R1 row.1 Hk) as [Eq|[Eq _]]; [|done].
    rewrite Eq, G0 by congruence. by rewrite decide_True by by right.
  - intros q Hq. destruct (R3 q Hq) as [Eq|(Eq & r & Hr & ?)].
    + rewrite Eq, G0 by congruence. case_decide as D; [|by left]. right. split; [done|].
      destruct D as [-> | ->]; [|by rewrite Hk in Hq]. exists row. split; [by left|done].
    + right. split; [done|]. exists r. split; [by right|done].
  - intros p Hp1 Hp2 q Hq. rewrite (R4 p Hp1 Hp2 q Hq), G0 by congruence. rewrite decide_False; [done|].
    intros [-> | ->]; [rewrite Hko in Hq|rewrite Hk in Hq]; injection Hq as <-; done.
Qed.

Lemma clean_rows_effect t rows page m :
  Forall (fun row => kspace row.1 = Some RLOG) rows →
  ∃ m' page', clean_rows t page rows m = (m', Ok page') ∧ rows_cleared rows m m'.
Proof.
  intros Hrows. revert page m. induction Hrows as [|row rows Hk Hrows IH]; intros page m.
  { exists m, page. split; [done|]. split; [by left| |by left|done]. intros row Hin. by apply not_elem_of_nil in Hin. }
  cbn [clean_rows]. destruct page as [c k tb u n d]. unfold clean_row.
  destruct (classify_reverse_log_value row.2) as [g i| |] eqn:Ec.
  - destruct (IH (mkCleanPage (c + 1) (k + 1) tb u n d) (kv_clear (committed_granule_key t i)
      (kv_clear (occupancy_key_for_reverse_log_key row.1) (kv_clear row.1 m)))) as (m' & page' & E & Hr).
    exists m', page'. split; [exact E|]. eapply rows_cleared_cons; [done|by exists g, i|done].
  - destruct (IH (mkCleanPage c k (tb + 1) u n d) m) as (m' & page' & E & Hr). exists m', page'.
    split; [exact E|]. apply rows_cleared_skip; [|done]. intros (g & i & Hx). congruence.
  - destruct (IH (mkCleanPage c k tb (u + 1) n d) m) as (m' & page' & E & Hr). exists m', page'.
    split; [exact E|]. apply rows_cleared_skip; [|done]. intros (g & i & Hx). congruence.
Qed.

Definition rl_prefix (V : Version) (t : list byte) : list byte := encode_key RLOG [t; vt V].

(** A resume cursor names a row of the target's range; a scan from it sees the rows past it. *)
Definition cursor_ok (V : Version) (t : list byte) (cur : option (list byte)) : Prop :=
  match cur with Some c => rl_prefix V t `prefix_of` c | None => True end.
Definition past (cur : option (list byte)) (q : list byte) : Prop :=
  match cur with Some c => bytes_ltb c q = true | None => True end.

Lemma scan_from_range V t cur q :
  cursor_ok V t cur →
  in_range (scan_from cur (rl_prefix V t)) (prefix_end (rl_prefix V t)) q = true ↔ rl_prefix V t `prefix_of` q ∧ past cur q.
Proof.
  intros Hc. pose proof (encode_key_range RLOG [t; vt V] q) as Hq. fold (rl_prefix V t) in Hq.
  destruct cur as [c|]; cbn [scan_from past cursor_ok] in *; [|tauto].
  pose proof (proj2 (encode_key_range RLOG [t; vt V] c) Hc) as Hcr. fold (rl_prefix V t) in Hcr.
  rewrite <-Hq. unfold in_range in *. rewrite !andb_true_iff, !negb_true_iff, after_cursor.
  apply andb_true_iff in Hcr as [Hcr _]. apply negb_true_iff in Hcr.
  split; [|tauto]. intros [H1 H2]. split; [split; [|done]|done].
  destruct (bytes_ltb q (rl_prefix V t)) eqn:E; [|done]. by rewrite (bytes_ltb_trans _ _ _ H1 E) in Hcr.
Qed.

Record clean_effect (V : Version) (t : list byte) (cur : option (list byte)) (page : OrphanVersionCleanPage) (m m' : KV) :
    Prop := {
  cl_rlog : ∀ V' F, ver_ok V' → frag_ok F → rlog m' V' F = rlog m V' F ∨
    (V' = V ∧ F.1.1 = t ∧ rlog m' V' F = None ∧ ∃ x, rlog m V' F = Some x ∧ is_committed x);
  cl_occ : ∀ V' F, ver_ok V' → frag_ok F → occ m' V' F = occ m V' F ∨ (V' = V ∧ F.1.1 = t ∧ occ m' V' F = None);
  cl_pending : ∀ q, kspace q = Some PENDING → q ≠ pk V t → kv_get q m' = kv_get q m;
  cl_done : cp_target_done page = true → presence m' V t = None ∧
    ∀ F, frag_ok F → F.1.1 = t → occ m' V F = None ∧
      (past cur (rk V F) → ∀ x, rlog m' V F = Some x → ¬ is_committed x);
  cl_more : cp_target_done page = false →
    (presence m' V t = presence m V t ∧ cp_next_cursor page = None) ∨
    ∃ c, cp_next_cursor page = Some c ∧ presence m' V t = Some c ∧ rl_prefix V t `prefix_of` c ∧
      ∀ F, frag_ok F → F.1.1 = t → past cur (rk V F) → bytes_ltb c (rk V F) = false →
        ∀ x, rlog m' V F = Some x → ¬ is_committed x;
  cl_same : ∀ p, p ≠ RLOG → p ≠ OCC → p ≠ PENDING → same p m m';
  cl_next : cp_target_done page = true → cp_next_cursor page = None;
}.

Lemma rl_prefix_rk V V' t F :
  ver_ok V → ver_ok V' → frag_ok F → seg_ok t → rl_prefix V t `prefix_of` rk V' F ↔ V' = V ∧ F.1.1 = t.
Proof. intros HV HV' HF Ht. by apply (row_prefix RLOG). Qed.

(** The occupancy row beside a row of the range is of the same target and version. *)
Lemma occupancy_prefix V V' t q F :
  ver_ok V → ver_ok V' → frag_ok F → seg_ok t → rl_prefix V t `prefix_of` q →
  ock V' F = occupancy_key_for_reverse_log_key q → V' = V ∧ F.1.1 = t.
Proof.
  intros HV HV' HF Ht [k ->] E. apply (row_prefix OCC V V' F t HV HV' HF Ht). exists k. exact E.
Qed.

Lemma clean_page_finish V t limit rows pg m m' page :
  clean_finish V.1 V.2 t limit rows pg m = (m', Ok page) →
  cp_target_done pg = false → cp_next_cursor pg = None →
  (len rows < limit ∧ cp_target_done page = true ∧ cp_next_cursor page = None ∧
     m' = kv_clear (pk V t) (kv_clear_range (encode_key OCC [t; vt V]) (prefix_end (encode_key OCC [t; vt V])) m)) ∨
  (limit ≤ len rows ∧ cp_target_done page = false ∧ rows = [] ∧ cp_next_cursor page = None ∧ m' = m) ∨
  (limit ≤ len rows ∧ cp_target_done page = false ∧
     ∃ c w, last rows = Some (c, w) ∧ cp_next_cursor page = Some c ∧ m' = kv_set (pk V t) c m).
Proof.
  unfold clean_finish. destruct pg as [c k tb u n d]. cbn [cp_target_done cp_next_cursor]. intros Hrun -> ->. revert Hrun.
  destruct (Z.ltb_spec (len rows) limit) as [Hlt|Hge].
  - rewrite trx_clear_range_bind, trx_clear_bind. intros [<- <-%Ok_inj]%pair_equal_spec. by left.
  - destruct (last rows) as [[c' w]|] eqn:El; cbn [fmap option_fmap option_map].
    + rewrite trx_set_bind. intros [<- <-%Ok_inj]%pair_equal_spec. right. right. split; [done|]. split; [done|].
      by exists c', w.
    + intros [<- <-%Ok_inj]%pair_equal_spec. apply last_None in El. right. left. done.
Qed.

Lemma clean_rows_flags t rows page m m' page' :
  clean_rows t page rows m = (m', Ok page') →
  cp_target_done page' = cp_target_done page ∧ cp_next_cursor page' = cp_next_cursor page.
Proof.
  revert page m. induction rows as [|row rows IH]; intros page m; cbn [clean_rows].
  { by intros [_ <-%Ok_inj]%pair_equal_spec. }
  intros (m1 & page1 & H1 & H2)%M_bind_Ok. apply IH in H2 as [-> ->]. destruct page as [c k tb u n d].
  unfold clean_row in H1. destruct (classify_reverse_log_value row.2).
  - rewrite !trx_clear_bind in H1. by apply pair_equal_spec in H1 as [_ <-%Ok_inj].
  - by apply pair_equal_spec in H1 as [_ <-%Ok_inj].
  - by apply pair_equal_spec in H1 as [_ <-%Ok_inj].
Qed.

(** The page's rows belong to the target and version, and clearing them reaches only theirs. *)
Lemma cleared_views V t cur rows limit m m0 :
  ver_ok V → seg_ok t → cursor_ok V t cur →
  rows = kv_range_limit (scan_from cur (rl_prefix V t)) (prefix_end (rl_prefix V t)) limit m →
  rows_cleared rows m m0 →
  (∀ V' F, ver_ok V' → frag_ok F → rlog m0 V' F = rlog m V' F ∨
     (V' = V ∧ F.1.1 = t ∧ rlog m0 V' F = None ∧ ∃ x, rlog m V' F = Some x ∧ is_committed x)) ∧
  (∀ V' F, ver_ok V' → frag_ok F → occ m0 V' F = occ m V' F ∨ (V' = V ∧ F.1.1 = t ∧ occ m0 V' F = None)) ∧
  (∀ F, frag_ok F → F.1.1 = t → past cur (rk V F) →
     len rows < limit ∨ (∃ c w, last rows = Some (c, w) ∧ bytes_ltb c (rk V F) = false) →
     ∀ x, rlog m0 V F = Some x → ¬ is_committed x).
Proof.
  intros HV Ht Hc Hrows [R1 R2 R3 R4].
  assert (∀ row, row ∈ rows → rl_prefix V t `prefix_of` row.1 ∧ kv_get row.1 m = Some row.2) as Hin.
  { intros [k x] Hr. rewrite Hrows in Hr. apply range_limit_elem in Hr as [Hr Hg].
    apply scan_from_range in Hr as [Hr _]; [|done]. done. }
  split_and!.
  - intros V' F HV' HF. destruct (R1 (rk V' F) eq_refl) as [?|(E & row & Hr & Er & Hx)]; [by left|]. right.
    destruct (Hin row Hr) as [Hp Hg]. rewrite Er in *. apply rl_prefix_rk in Hp as [-> ->]; [|done..].
    split; [done|]. split; [done|]. split; [done|]. by exists row.2.
  - intros V' F HV' HF. destruct (R3 (ock V' F) eq_refl) as [?|(E & row & Hr & Er)]; [by left|]. right.
    destruct (Hin row Hr) as [Hp _]. destruct (occupancy_prefix V V' t row.1 F) as [-> ->]; done.
  - intros F HF HFt Hpast Hcase x Hx Hcx. destruct (R1 (rk V F) eq_refl) as [E|(E & _)]; [|unfold rlog in Hx; congruence].
    assert (kv_get (rk V F) m = Some x) as Hg by (unfold rlog in Hx; congruence).
    assert (in_range (scan_from cur (rl_prefix V t)) (prefix_end (rl_prefix V t)) (rk V F) = true) as Hr.
    { apply scan_from_range; [done|]. split; [|done]. by apply rl_prefix_rk. }
    assert ((rk V F, x) ∈ rows) as Hrow.
    { destruct Hcase as [Hlt|(c & w & Hl & Hle)]; rewrite Hrows in *.
      - rewrite range_limit_all by done. by apply kv_range_elem.
      - by eapply range_limit_upto. }
    pose proof (R2 _ Hrow Hcx) as E2. cbn in E2. unfold rlog in Hx. congruence.
Qed.

Lemma clean_spec V t cur limit m m' page :
  ver_ok V → seg_ok t → cursor_ok V t cur →
  clean_orphan_version_target_page V.1 V.2 t cur limit m = (m', Ok page) →
  (m' = m ∧ marker m V = None) ∨
  ((∃ p, pending m V p ∧ pv_state p = RECLAIMING) ∧ clean_effect V t cur page m m').
Proof.
  intros HV Ht Hc. unfold clean_orphan_version_target_page, clean_txn. rewrite run_Ok. cbv zeta.
  change (target_reverse_log_version_range t (version_id_text V.1 V.2)) with (rl_prefix V t, prefix_end (rl_prefix V t)).
  cbv iota beta. rewrite trx_get_bind.
  destruct (kv_get (pending_version_key V.1 V.2) m) as [bytes|] eqn:Em; [|intros [<- _]%pair_equal_spec; by left].
  destruct (decode_pending_version_value bytes) as [p|] eqn:Ep; [|done]. rewrite lift_Ok_bind.
  case_bool_decide as Hr; [|done]. cbn [negb]. rewrite trx_range_limit_bind. cbn [fst snd].
  set (rows := kv_range_limit _ _ limit m). intros (m0 & pg & Hcl & Hfin)%M_bind_Ok.
  right. split; [exists p; split; [by exists bytes|done]|].
  assert (Forall (fun row => kspace row.1 = Some RLOG) rows) as Hk.
  { apply Forall_forall. intros [k x] Hin. apply range_limit_elem in Hin as [Hin _].
    apply scan_from_range in Hin as [Hin _]; [|done]. by apply kspace_prefix in Hin. }
  destruct (clean_rows_effect t rows clean_page_default m Hk) as (m0' & pg' & Ecl & Hcleared).
  rewrite Hcl in Ecl. apply pair_equal_spec in Ecl as [<- _].
  pose proof (clean_rows_flags _ _ _ _ _ _ Hcl) as [F1 F2]. cbn in F1, F2.
  destruct (cleared_views V t cur rows limit m m0 HV Ht Hc eq_refl Hcleared) as (C1 & C2 & C3).
  pose proof (rc_same _ _ _ Hcleared) as C4.
  apply clean_page_finish in Hfin as [(Hlt & Hd & Hnn & ->)|[(Hge & Hd & Hnil & Hn & ->)|(Hge & Hd & c & w & Hl & Hn & ->)]]; [| | |done..].
  - set (m1 := kv_clear_range _ _ m0).
    assert (∀ p, p ≠ OCC → same p m0 m1) as S1 by (intros; by apply same_clear_prefix).
    assert (∀ p, p ≠ PENDING → same p m1 (kv_clear (pk V t) m1)) as S2 by (intros p' Hp; apply same_clear; intros [= E]; by apply Hp).
    split.
    + intros V' F HV' HF. rewrite (same_rlog m1) by by apply S2. rewrite (same_rlog m0) by by apply S1. by apply C1.
    + intros V' F HV' HF. rewrite (same_occ m1) by by apply S2. 
      assert (occ m1 V' F = if in_range (encode_key OCC [t; vt V]) (prefix_end (encode_key OCC [t; vt V])) (ock V' F) then None
        else occ m0 V' F) as -> by apply kv_get_clear_range.
      destruct (in_range _ _ _) eqn:E; [|by apply C2]. apply encode_key_range, (row_prefix OCC) in E as [-> ->]; [|done..]. by right.
    + intros q Hq Hne. rewrite kv_get_clear, decide_False by done. rewrite (S1 PENDING) by done.
      by apply (C4 PENDING).
    + intros _. split; [unfold presence; by rewrite kv_get_clear, decide_True|]. intros F HF HFt. split.
      * rewrite (same_occ m1) by by apply S2. unfold occ, m1. rewrite kv_get_clear_range.
        rewrite (proj2 (encode_key_range _ _ _)); [done|]. by apply (row_prefix OCC).
      * intros Hp x. rewrite (same_rlog m1) by by apply S2. rewrite (same_rlog m0) by by apply S1. apply C3; auto.
    + rewrite Hd. done.
    + intros p' H1 H2 H3. apply (same_trans _ m m0); [by apply C4|]. apply (same_trans _ m0 m1); [by apply S1|by apply S2].
    + done.
  - split; [done|done| | | | |by rewrite Hd].
    + intros q Hq _. by apply (C4 PENDING).
    + by rewrite Hd.
    + intros _. left. split; [|done]. by apply same_presence, C4.
    + intros p' H1 H2 H3. by apply C4.
  - assert (∀ p, p ≠ PENDING → same p m0 (kv_set (pk V t) c m0)) as S2 by (intros p' Hp; apply same_set; intros [= E]; by apply Hp).
    split.
    + intros V' F HV' HF. rewrite (same_rlog m0) by by apply S2. by apply C1.
    + intros V' F HV' HF. rewrite (same_occ m0) by by apply S2. by apply C2.
    + intros q Hq Hne. rewrite kv_get_set, decide_False by done. by apply (C4 PENDING).
    + by rewrite Hd.
    + intros _. right. exists c. split; [done|]. split; [unfold presence; by rewrite kv_get_set, decide_True|]. split.
      * apply last_Some_elem_of in Hl. apply range_limit_elem in Hl as [Hl _]. by apply scan_from_range in Hl as [Hl _].
      * intros F HF HFt Hp Hle x. rewrite (same_rlog m0) by by apply S2. apply C3; [done..|]. right. by exists c, w.
    + intros p' H1 H2 H3. apply (same_trans _ m m0); [by apply C4|by apply S2].
    + by rewrite Hd.
Qed.

(** ** Finishing *)

Lemma clear_fence V V' m :
  ver_ok V → ver_ok V' → fence (kv_clear (fk V) m) V' = if decide (V' = V) then None else fence m V'.
Proof.
  intros HV HV'. unfold fence. rewrite kv_get_clear.
  destruct (decide (fk V' = fk V)) as [E|E], (decide (V' = V)) as [E'|E']; try done.
  - by apply fk_inj in E.
  - by subst.
Qed.

Lemma finish_spec V m m' r :
  ver_ok V → finish_orphan_version V.1 V.2 m = (m', Ok r) →
  (m' = m ∧ (r = true → marker m V = None)) ∨
  (r = true ∧ (∃ p, pending m V p ∧ pv_state p = RECLAIMING) ∧ (∀ t, seg_ok t → presence m V t = None) ∧
   m' = kv_clear (fk V) (kv_clear_range (mk V) (prefix_end (mk V)) m)).
Proof.
  intros HV. unfold finish_orphan_version, finish_txn. rewrite run_Ok, trx_get_bind.
  destruct (kv_get (pending_version_key V.1 V.2) m) as [bytes|] eqn:Em; [|intros [<- _]%pair_equal_spec; by left].
  destruct (decode_pending_version_value bytes) as [p|] eqn:Ep; [|done]. rewrite lift_Ok_bind.
  case_bool_decide as Hr; [|done]. cbn [negb]. rewrite trx_range_limit_bind.
  change (pending_version_subspace_range V.1 V.2) with (mk V, prefix_end (mk V)). cbn [fst snd].
  destruct (Z.ltb_spec 1 (len (kv_range_limit (mk V) (prefix_end (mk V)) 2 m))) as [Hlen|Hlen].
  { intros [<- <-%Ok_inj]%pair_equal_spec. by left. }
  rewrite trx_clear_range_bind, trx_clear_bind. intros [<- <-%Ok_inj]%pair_equal_spec. right. split; [done|].
  split; [exists p; split; [by exists bytes|done]|]. split; [|done]. intros t Ht.
  destruct (presence m V t) as [x|] eqn:Ex; [|done]. exfalso. rewrite range_limit_all in Hlen by lia.
  assert ((mk V, bytes) ∈ kv_range (mk V) (prefix_end (mk V)) m) as H1 by (apply kv_range_elem; split; [by apply mk_prefix|done]).
  assert ((pk V t, x) ∈ kv_range (mk V) (prefix_end (mk V)) m) as H2 by (apply kv_range_elem; split; [by apply pk_prefix|done]).
  destruct (kv_range (mk V) (prefix_end (mk V)) m) as [|a [|b l]]; [by apply not_elem_of_nil in H1| |cbn in Hlen; lia].
  apply list_elem_of_singleton in H1, H2. subst a. apply pair_equal_spec in H2 as [E _]. symmetry in E. by apply mk_pk in E.
Qed.

(** ** Fences *)

Lemma recheck_fences_Ok cs m m' keys :
  recheck_fences cs m = (m', Ok keys) →
  m' = m ∧ ∀ k, k ∈ keys → ∃ id v, (k, id, v) ∈ cs ∧ kv_get (pending_version_key id v) m = None.
Proof.
  revert keys m'. induction cs as [|[[k id] v] cs IH]; intros keys m'; cbn [recheck_fences].
  { intros [<- <-%Ok_inj]%pair_equal_spec. split; [done|]. intros k Hk. by apply not_elem_of_nil in Hk. }
  rewrite !trx_get_bind. intros (m1 & ks & Hks & [<- <-%Ok_inj]%pair_equal_spec)%M_bind_Ok.
  apply IH in Hks as [-> Hks]. split; [done|]. intros q. 
  assert (q ∈ ks → ∃ id0 v0, (q, id0, v0) ∈ (k, id, v) :: cs ∧ kv_get (pending_version_key id0 v0) m = None) as Hrec.
  { intros Hq. destruct (Hks q Hq) as (id' & v' & Hin & ?). exists id', v'. split; [by right|done]. }
  case_bool_decide as Hm; cbn [andb]; [|done]. destruct (bool_decide _); [|done].
  intros [->|Hq]%elem_of_cons; [|by apply Hrec]. exists id, v. split; [by left|done].
Qed.

Lemma trx_each_clear (l : list (list byte)) m q :
  ∃ m', trx_each trx_clear l m = (m', Ok tt) ∧ kv_get q m' = if decide (q ∈ l) then None else kv_get q m.
Proof.
  revert m. induction l as [|k l IH]; intros m.
  { exists m. split; [done|]. rewrite decide_False; [done|]. apply not_elem_of_nil. }
  destruct (IH (kv_clear k m)) as (m' & E & G). exists m'. split; [exact E|]. rewrite G, kv_get_clear.
  destruct (decide (q ∈ l)) as [D|D], (decide (q ∈ k :: l)) as [D'|D']; try done.
  - exfalso. apply D'. by right.
  - apply elem_of_cons in D' as [->|?]; [by rewrite decide_True|done].
  - rewrite decide_False; [done|]. intros ->. apply D'. by left.
Qed.

(** The sweep clears only fences of versions that have no marker. *)
Lemma sweep_spec snap now older limit cur m m' r :
  sweep_reclaim_fences snap now older limit cur m = (m', Ok r) →
  (∀ p, p ≠ FENCES → same p m m') ∧
  (∀ V, ver_ok V → fence m' V = fence m V ∨ marker m V = None).
Proof.
  unfold sweep_reclaim_fences. destruct (limit =? 0); [intros [<- _]%pair_equal_spec; split; [done|by left]|].
  destruct version_reclaim_fence_scan_range as [sb se]. cbv zeta. rewrite run_Ok.
  intros (m1 & keys & Hk & Ht)%M_bind_Ok. apply recheck_fences_Ok in Hk as [-> Hk].
  apply M_bind_Ok in Ht as (m2 & [] & Ht & [<- _]%pair_equal_spec).
  assert (∀ k, k ∈ keys → ∃ id v, decode_version_reclaim_fence_key_parts k = Ok (id, v) ∧ marker m (id, v) = None) as Hkeys.
  { intros k Hin. destruct (Hk k Hin) as (id & v & Hc & Hm). exists id, v. split; [|done].
    apply list_elem_of_omap in Hc as ([q x] & _ & Hc). unfold fence_candidate in Hc. cbn [fst snd] in Hc.
    destruct (decode_version_reclaim_fence_key_parts q) as [[id' v']|] eqn:Eq; [|done].
    repeat (case_match; try done). injection Hc as <- <- <-. done. }
  assert (∀ k id v, decode_version_reclaim_fence_key_parts k = Ok (id, v) → kspace k = Some FENCES) as Hspace.
  { intros k id v. unfold decode_version_reclaim_fence_key_parts, decode_segments.
    destruct k as [|a [|b k]]; [done..|]. case_bool_decide as Ha; [|done]. intros ([pf segs] & Hs & Hd)%result_bind_Ok.
    apply result_bind_Ok in Hs as (s & _ & [= <- <-]). case_bool_decide as Hb; [|done]. subst. done. }
  split.
  - intros p Hp q Hq. destruct (trx_each_clear keys m q) as (m'' & E & G). rewrite Ht in E. apply pair_equal_spec in E as [<- _]. rewrite G.
    rewrite decide_False; [done|]. intros Hin. destruct (Hkeys q Hin) as (id & v & Hd & _).
    apply Hspace in Hd. rewrite Hq in Hd. by injection Hd as ->.
  - intros V [Hid Hv]. destruct (trx_each_clear keys m (fk V)) as (m'' & E & G). rewrite Ht in E. apply pair_equal_spec in E as [<- _].
    unfold fence. rewrite G. case_decide as D; [|by left]. right. destruct (Hkeys _ D) as (id & v & Hd & Hm).
    unfold fk in Hd. rewrite decode_fence_key in Hd by done. injection Hd as <- <-. by destruct V.
Qed.

(** The backfill only adds fences. *)
Lemma backfill_spec snap now start m m' r :
  backfill_page snap now start m = (m', Ok r) →
  (∀ p, p ≠ FENCES → same p m m') ∧ (∀ V, fence m V ≠ None → fence m' V ≠ None).
Proof.
  unfold backfill_page. cbv zeta. rewrite run_Ok. set (vs := first_occurrences _ _).
  intros (m1 & [] & Ht & [<- _]%pair_equal_spec)%M_bind_Ok.
  rewrite (trx_each_ext _ (fun x : Z * Z => trx_set (version_reclaim_fence_key x.1 x.2) (be64 now))) in Ht by by intros [].
  rewrite trx_each_set in Ht. apply pair_equal_spec in Ht as [<- _]. split.
  - intros p Hp. apply same_put_all, Forall_forall. intros kv (x & -> & _)%list_elem_of_fmap. cbn [fst]. by intros [= <-].
  - intros V Hf. unfold fence in *.
    destruct (decide (fk V ∈ ((fun x : Z * Z => (version_reclaim_fence_key x.1 x.2, be64 now)) <$> vs).*1)) as [D|D].
    + destruct (kv_put_all_get _ (fk V) m D) as (v & _ & ->). done.
    + by rewrite kv_put_all_other.
Qed.

(** ** Leases *)

Lemma reap_rows_touches now grace limit reaped rows :
  Forall (fun row => kspace row.1 = Some PREFIX_OBJECT_LEASE) rows →
  touches [PREFIX_OBJECT_LEASE] (reap_rows now grace limit reaped rows).
Proof.
  intros Hr. revert reaped. induction Hr as [|[k x] rows Hk _ IH]; intros reaped; cbn [reap_rows]; [touch|].
  destruct (limit <=? reaped); [touch|]. apply touches_bind; [touch|]. intros e. destruct (_ <=? now); [|apply IH].
  apply touches_bind; [|intros _; apply IH]. apply touches_clear. cbn in Hk. rewrite Hk. in_spaces.
Qed.

Lemma reap_spec now grace limit m m' r :
  reap_expired_leases now grace limit m = (m', r) → ∀ p, p ≠ PREFIX_OBJECT_LEASE → same p m m'.
Proof.
  intros E p Hne. unfold reap_expired_leases, run in E. rewrite trx_range_bind in E.
  destruct (reap_rows _ _ _ _ _ m) as [m1 r1] eqn:Er.
  assert (same p m m1) as Hs.
  { eapply touches_same; [apply reap_rows_touches|exact Er|by rewrite list_elem_of_singleton].
    apply Forall_forall. intros [k x] Hin. apply kv_range_elem in Hin as [Hin _].
    apply prefix_range_exact in Hin; [by apply kspace_prefix in Hin|by left]. }
  destruct r1; apply pair_equal_spec in E as [<- _]; done.
Qed.

(** ** Deleting *)

Record delete_effect (V : option Version) (b k : list byte) (m m' : KV) : Prop := {
  de_head' : ∀ b' k', seg_ok b' → seg_ok k' → head m' b' k' = if decide (b' = b ∧ k' = k) then None else head m b' k';
  de_rlog : ∀ V' F, ver_ok V' → frag_ok F → rlog m' V' F = rlog m V' F ∨ (V = Some V' ∧ rlog m' V' F = None);
  de_occ : ∀ V' F, ver_ok V' → frag_ok F → occ m' V' F = occ m V' F ∨ occ m' V' F = None;
  de_same : ∀ p, p ∈ [PENDING; FENCES] → same p m m';
}.

(** A loop of clears either leaves a key or removes it. *)
Lemma each_keeps {A} (f : A → M KV Status unit) l m q :
  (∀ x m, ∃ m', f x m = (m', Ok tt) ∧ (kv_get q m' = kv_get q m ∨ kv_get q m' = None)) →
  ∃ m', trx_each f l m = (m', Ok tt) ∧ (kv_get q m' = kv_get q m ∨ kv_get q m' = None).
Proof.
  intros Hf. revert m. induction l as [|x l IH]; intros m; [exists m; split; [done|by left]|].
  destruct (Hf x m) as (m1 & E1 & G1). destruct (IH m1) as (m2 & E2 & G2). exists m2. cbn [trx_each].
  rewrite (M_bind_run _ _ _ _ _ E1). split; [done|]. destruct G2 as [G2|G2]; [rewrite G2; tauto|by right].
Qed.

Lemma clear_index_keeps v stripes m m' q :
  clear_target_current_fragment_index v stripes m = (m', Ok tt) → kv_get q m' = kv_get q m ∨ kv_get q m' = None.
Proof.
  unfold clear_target_current_fragment_index. rewrite trx_each_flat. intros E.
  destruct (each_keeps (fun f => _ ← trx_clear (occ_key_of v f); trx_clear (kco_key_of f)) (fragments stripes) m q) as (m1 & E1 & G).
  { intros f m0. eexists. rewrite trx_clear_bind. split; [done|]. rewrite !kv_get_clear. repeat case_decide; tauto. }
  rewrite E in E1. by apply pair_equal_spec in E1 as [-> _].
Qed.

Lemma clear_version_rows_views V roster m m' :
  ver_ok V → Forall seg_ok roster → clear_version_rows (vt V) roster m = (m', Ok tt) →
  (∀ V' F, ver_ok V' → frag_ok F → rlog m' V' F = rlog m V' F ∨ (V' = V ∧ rlog m' V' F = None)) ∧
  (∀ V' F, ver_ok V' → frag_ok F → occ m' V' F = occ m V' F ∨ occ m' V' F = None) ∧
  (∀ F, frag_ok F → F.1.1 ∈ roster → rlog m' V F = None ∧ occ m' V F = None) ∧
  (∀ p, p ∈ [HEADS; PENDING; FENCES] → same p m m').
Proof.
  intros HV Hr. revert m. induction Hr as [|t roster Ht Hr IH]; intros m.
  { intros [<- _]%pair_equal_spec. split_and!; [by left|by left| |done]. intros F _ Hin. by apply not_elem_of_nil in Hin. }
  unfold clear_version_rows. cbn [trx_each]. rewrite (M_bind_run _ _ m
    (kv_clear_range (encode_key OCC [t; vt V]) (prefix_end (encode_key OCC [t; vt V]))
      (kv_clear_range (rl_prefix V t) (prefix_end (rl_prefix V t)) m)) tt) by done.
  set (m1 := kv_clear_range _ _ m). set (m2 := kv_clear_range _ _ m1). intros (I1 & I2 & I3 & I4)%IH.
  assert (∀ V' F, ver_ok V' → frag_ok F → rlog m2 V' F = if decide (V' = V ∧ F.1.1 = t) then None else rlog m V' F) as G1.
  { intros V' F HV' HF. rewrite (same_rlog m1) by by apply same_clear_prefix. unfold rlog, m1. rewrite kv_get_clear_range.
    pose proof (rl_prefix_rk V V' t F HV HV' HF Ht) as Hp. unfold rl_prefix in *. rewrite <-encode_key_range in Hp.
    destruct (in_range _ _ _), (decide _); try done; tauto || (exfalso; intuition congruence). }
  assert (∀ V' F, ver_ok V' → frag_ok F → occ m2 V' F = if decide (V' = V ∧ F.1.1 = t) then None else occ m V' F) as G2.
  { intros V' F HV' HF. unfold occ at 1, m2. rewrite kv_get_clear_range. fold (occ m1 V' F).
    rewrite (same_occ m m1) by by apply same_clear_prefix.
    pose proof (row_prefix OCC V V' F t HV HV' HF Ht) as Hp. rewrite <-encode_key_range in Hp.
    destruct (in_range _ _ _) eqn:E, (decide _) as [D|D]; try done; exfalso.
    - by apply D, Hp.
    - apply Hp in D. unfold ock, target_current_fragment_key in E. unfold OCC in D. congruence. }
  split_and!.
  - intros V' F HV' HF. destruct (I1 V' F HV' HF) as [E|[-> E]]; [|by right]. rewrite E, G1 by done.
    case_decide as D; [|by left]. destruct D as [-> _]. by right.
  - intros V' F HV' HF. destruct (I2 V' F HV' HF) as [E|E]; [|by right]. rewrite E, G2 by done. case_decide; tauto.
  - intros F HF Hin. destruct (decide (F.1.1 ∈ roster)) as [Hin'|Hn]; [by apply I3|].
    apply elem_of_cons in Hin as [Hin|?]; [|done]. split.
    + destruct (I1 V F HV HF) as [E|[_ E]]; [|done]. rewrite E, G1, decide_True by done. done.
    + destruct (I2 V F HV HF) as [E|E]; [|done]. rewrite E, G2, decide_True by done. done.
  - intros p Hp. eapply same_trans; [|by apply I4]. rewrite !elem_of_cons, elem_of_nil in Hp.
    apply (same_trans _ m m1); apply same_clear_prefix; by destruct Hp as [->|[->|[->|[]]]].
Qed.

Lemma load_manifest_reads v : reads (load_manifest v).
Proof.
  unfold load_manifest, load_blob. apply reads_bind; [done|]. intros [x|]; [|done].
  destruct (decode_blob_meta x) as [[c n]|]; [|done]. apply reads_bind; [|done].
  generalize (seqZ 0 c). intros l. induction l as [|i l IH]; cbn [load_chunks]; [done|].
  apply reads_bind; [done|]. intros o. apply reads_bind; [done|]. intros chunk. by apply reads_bind.
Qed.

(** The rows of the version go, the rest of the store stays. *)
Lemma delete_rows_views V b k ns roster h mb m m' x :
  ver_ok V → Forall seg_ok roster → oh_current_version_id h = vt V → delete_rows b k ns roster h mb m = (m', Ok x) →
  (∀ V' F, ver_ok V' → frag_ok F → rlog m' V' F = rlog m V' F ∨ (V' = V ∧ rlog m' V' F = None)) ∧
  (∀ V' F, ver_ok V' → frag_ok F → occ m' V' F = occ m V' F ∨ occ m' V' F = None) ∧
  (mb = None → ∀ F, frag_ok F → F.1.1 ∈ roster → rlog m' V F = None ∧ occ m' V F = None) ∧
  (∀ p, p ∈ [HEADS; PENDING; FENCES] → same p m m').
Proof.
  intros HV Hr Hh. unfold delete_rows. cbv zeta. destruct mb as [bytes|].
  - destruct (decode_manifest_bytes bytes) as [y|]; [|done]. rewrite lift_Ok_bind.
    intros (m1 & [] & Hc & [<- _]%pair_equal_spec)%M_bind_Ok. split_and!; [|  |done|].
    + intros V' F HV' HF. left. eapply same_rlog, touches_same; [apply clear_index_touches|exact Hc|].
      by rewrite list_elem_of_singleton.
    + intros V' F HV' HF. by eapply clear_index_keeps.
    + intros p Hp. eapply touches_same; [apply clear_index_touches|exact Hc|]. rewrite list_elem_of_singleton.
      by rewrite !elem_of_cons, elem_of_nil in Hp; destruct Hp as [->|[->|[->|[]]]].
  - rewrite Hh. destruct (map_err _ _) as [pv|]; [|done]. rewrite lift_Ok_bind.
    intros (m1 & [] & Hc & [<- _]%pair_equal_spec)%M_bind_Ok.
    apply clear_version_rows_views in Hc as (C1 & C2 & C3 & C4); [|done..]. by split_and!.
Qed.

Lemma clear_entry_touches ns id : touches [PREFIX_NAMESPACE_ENTRY; PREFIX_NAMESPACE_PATH] (clear_entry ns id).
Proof. unfold clear_entry. touch. Qed.

(** The tail of the deletion: the head, the manifest and the namespace entry. *)
Lemma delete_tail b k v ns id m m' :
  (_ ← trx_clear (object_head_key b k);
   _ ← trx_clear (object_version_key v);
   _ ← trx_clear_range (object_version_chunk_prefix v, prefix_range_end (object_version_chunk_prefix v));
   clear_entry ns id) m = (m', Ok tt) →
  (∀ p, p ∈ [PENDING; RLOG; OCC; FENCES] → same p m m') ∧
  (∀ q, kspace q = Some HEADS → kv_get q m' = if decide (q = object_head_key b k) then None else kv_get q m).
Proof.
  rewrite trx_clear_bind, trx_clear_bind, trx_clear_range_bind. cbn [fst snd].
  set (m1 := kv_clear _ m). set (m2 := kv_clear _ m1). set (m3 := kv_clear_range _ _ m2). intros He.
  assert (∀ p, p ∈ [HEADS; PENDING; RLOG; OCC; FENCES] → same p m1 m') as HS.
  { intros p Hp. rewrite !elem_of_cons, elem_of_nil in Hp.
    apply (same_trans _ m1 m2); [apply same_clear; intros [= <-]; by destruct Hp as [?|[?|[?|[?|[?|[]]]]]]|].
    apply (same_trans _ m2 m3).
    { apply (same_clear_prefix p PREFIX_OBJECT_VERSION_CHUNK [v]). by destruct Hp as [->|[->|[->|[->|[->|[]]]]]]. }
    eapply touches_same; [apply clear_entry_touches|exact He|]. rewrite !elem_of_cons, elem_of_nil.
    by destruct Hp as [->|[->|[->|[->|[->|[]]]]]]; intros [?|[?|[]]]. }
  split.
  - intros p Hp. apply (same_trans _ m m1); [|apply HS; rewrite !elem_of_cons in *; tauto].
    apply same_clear. intros [= <-]. by rewrite !elem_of_cons, elem_of_nil in Hp; destruct Hp as [?|[?|[?|[?|[]]]]].
  - intros q Hq. rewrite (HS HEADS) by (done || (rewrite !elem_of_cons; tauto)). unfold m1. by rewrite kv_get_clear.
Qed.

Lemma delete_spec b k ns roster vids m m' d :
  seg_ok b → seg_ok k → Forall seg_ok roster → delete_txn b k ns roster vids m = (m', Ok d) →
  ∃ bytes h, head m b k = Some bytes ∧ decode_object_head bytes = Ok h ∧
    ∀ V, ver_ok V → oh_current_version_id h = vt V → delete_effect (Some V) b k m m' ∧
      (load_manifest (vt V) m = (m, Ok None) → ∀ F, frag_ok F → F.1.1 ∈ roster → rlog m' V F = None ∧ occ m' V F = None).
Proof.
  intros Hb Hk Hr. unfold delete_txn. cbv zeta. rewrite trx_get_bind. fold (head m b k).
  destruct (head m b k) as [bytes|] eqn:Eh; [|done]. cbn [ok_or]. rewrite lift_Ok_bind.
  destruct (decode_object_head bytes) as [h|] eqn:Ed; [|done]. rewrite lift_Ok_bind. destruct (_ && _); [done|].
  intros (m0 & mb & Hmb & Ht)%M_bind_Ok. pose proof (load_manifest_reads (oh_current_version_id h) m) as E. rewrite Hmb in E.
  cbn in E. subst m0. apply M_bind_Ok in Ht as (m1 & x & Hx & Ht). exists bytes, h. split; [done|]. split; [done|].
  intros V HV Hv. apply (delete_rows_views V) in Hx as (D1 & D2 & D3 & D4); [|done..].
  assert (∃ m2, (_ ← trx_clear (object_head_key b k);
     _ ← trx_clear (object_version_key (oh_current_version_id h));
     _ ← trx_clear_range (object_version_chunk_prefix (oh_current_version_id h), prefix_range_end (object_version_chunk_prefix (oh_current_version_id h)));
     clear_entry (ovm_namespace_id x) (oh_object_entry_id h)) m1 = (m2, Ok tt) ∧ m' = m2) as (m2 & Htail & ->).
  { rewrite trx_clear_bind, trx_clear_bind, trx_clear_range_bind in Ht. apply M_bind_Ok in Ht as (m2 & [] & Hc & [<- _]%pair_equal_spec).
    exists m2. split; [|done]. by rewrite trx_clear_bind, trx_clear_bind, trx_clear_range_bind. }
  apply delete_tail in Htail as [T1 T2].
  assert (same RLOG m1 m2) as S1 by (apply T1; rewrite !elem_of_cons; tauto).
  assert (same OCC m1 m2) as S2 by (apply T1; rewrite !elem_of_cons; tauto).
  split.
  - split.
    + intros b' k' Hb' Hk'. unfold head. rewrite T2 by done.
      destruct (decide (object_head_key b' k' = object_head_key b k)) as [E|E], (decide (b' = b ∧ k' = k)) as [D|D]; try done.
      * by apply head_key_inj in E.
      * by destruct D as [-> ->].
      * apply (D4 HEADS); [by left|done].
    + intros V' F HV' HF. rewrite (same_rlog m1 m2) by done. destruct (D1 V' F HV' HF) as [?|[-> ?]]; [by left|by right].
    + intros V' F HV' HF. rewrite (same_occ m1 m2) by done. by apply D2.
    + intros p Hp. apply (same_trans _ m m1); [apply D4|apply T1]; rewrite !elem_of_cons in *; tauto.
  - intros Hnone F HF Hin. rewrite (same_rlog m1 m2), (same_occ m1 m2) by done. apply D3; [|done..].
    rewrite Hv in Hmb. rewrite Hnone in Hmb. by apply pair_equal_spec in Hmb as [_ <-%Ok_inj].
Qed.
End reap.
