(* ===== verification/KmsInv.v ===== *)
(** The invariant of the write protocol: markers, presence rows, the reverse log, occupancy,
    fences and heads, kept by every transaction of the metadata store. *)
From S2P Require Import Prelude Bytes Fdb KmsKeys KmsValues KmsStore KmsViews KmsEffects KmsReap.

(** What happened so far: ids whose write has begun, versions that became a head, the
    fragments they consist of, fragments appended by segments, fragments whose granule was
    given to the reclaimer, and the resume cursors handed to cleaners. *)
Record Ghost := mkGhost {
  g_begun : list Z;
  g_committed : list Version;
  g_parts : list (Version * Frag);
  g_appended : list (Version * Frag);
  g_freed : list (Version * Frag);
  g_cursors : list (Version * list byte * list byte);
}.

Section inv.
Context {KV : Type} {Hdb : Fdb KV} {Hlaws : FdbLaws KV} {Hcodec : KmsCodec} {Hcodecl : KmsCodecLaws}.

Definition committed_row (m : KV) (V : Version) (F : Frag) : Prop := ∃ x, rlog m V F = Some x ∧ is_committed x.
Definition writing (m : KV) (V : Version) : Prop := ∃ p, pending m V p ∧ pv_state p = WRITING.
Definition reclaiming (m : KV) (V : Version) : Prop := ∃ p, pending m V p ∧ pv_state p = RECLAIMING.

(** The version is the current one of a key. *)
Definition live_at (m : KV) (b k : list byte) (V : Version) : Prop :=
  ∃ bytes h, head m b k = Some bytes ∧ decode_object_head bytes = Ok h ∧ oh_current_version_id h = vt V.

(** Every row up to the cursor has been cleaned. *)
Definition cleaned_upto (m : KV) (V : Version) (t c : list byte) : Prop :=
  (rl_prefix V t `prefix_of` c) ∧
  ∀ F, frag_ok F → F.1.1 = t → bytes_ltb c (rk V F) = false → ¬ committed_row m V F.

Record Rows (m : KV) (g : Ghost) : Prop := {
  (* rows exist only for versions whose write has begun *)
  r_marker_begun : ∀ V, ver_ok V → marker m V ≠ None → V.1 ∈ g_begun g;
  r_rlog_begun : ∀ V F, ver_ok V → frag_ok F → rlog m V F ≠ None → V.1 ∈ g_begun g;
  r_occ_begun : ∀ V F, ver_ok V → frag_ok F → occ m V F ≠ None → V.1 ∈ g_begun g;
  r_presence_marker : ∀ V t, ver_ok V → seg_ok t → presence m V t ≠ None → marker m V ≠ None;
  (* the history is about such versions *)
  r_committed_ok : ∀ V, V ∈ g_committed g → ver_ok V ∧ V.1 ∈ g_begun g;
  r_appended_ok : ∀ V F, (V, F) ∈ g_appended g → ver_ok V ∧ frag_ok F ∧ V.1 ∈ g_begun g;
  r_freed_ok : ∀ V F, (V, F) ∈ g_freed g → ver_ok V ∧ frag_ok F ∧ V.1 ∈ g_begun g;
  r_parts_ok : ∀ V F, (V, F) ∈ g_parts g → V ∈ g_committed g ∧ frag_ok F;
  r_cursors_ok : ∀ V t c, (V, t, c) ∈ g_cursors g → ver_ok V ∧ V.1 ∈ g_begun g;
  (* values *)
  r_marker_value : ∀ V bytes, ver_ok V → marker m V = Some bytes → ∃ p, decode_pending_version_value bytes = Ok p;
  r_rlog_value : ∀ V F x, ver_ok V → frag_ok F → rlog m V F = Some x → x = TOMB ∨ is_committed x;
  r_pending_keys : ∀ q, kspace q = Some PENDING → kv_get q m ≠ None →
    (∃ V, ver_ok V ∧ q = mk V) ∨ (∃ V t, ver_ok V ∧ seg_ok t ∧ utf8_valid t = true ∧ q = pk V t);
  (* heads *)
  r_head : ∀ b k bytes, seg_ok b → seg_ok k → head m b k = Some bytes →
    ∃ h V, decode_object_head bytes = Ok h ∧ ver_ok V ∧ oh_current_version_id h = vt V ∧ oh_version h = 1 ∧
      V ∈ g_committed g;
  r_live_parts : ∀ b k V F, seg_ok b → seg_ok k → ver_ok V → live_at m b k V → (V, F) ∈ g_parts g →
    committed_row m V F ∧ (V, F) ∉ g_freed g;
  r_live_unique : ∀ b k b' k' V, seg_ok b → seg_ok k → seg_ok b' → seg_ok k' → ver_ok V →
    live_at m b k V → live_at m b' k' V → b = b' ∧ k = k';
  (* a committed version has no marker *)
  r_committed_unmarked : ∀ V, V ∈ g_committed g → marker m V = None;
  (* a version still being written keeps every row its segments wrote *)
  r_writing_rows : ∀ V F, ver_ok V → writing m V → (V, F) ∈ g_appended g → committed_row m V F ∧ (V, F) ∉ g_freed g;
  (* a tombstone on a version still being written is fenced *)
  r_writing_fenced : ∀ V F, ver_ok V → frag_ok F → writing m V → rlog m V F = Some TOMB → fence m V ≠ None;
  (* a freed fragment keeps its tombstone until its version is committed *)
  r_freed_tomb : ∀ V F, (V, F) ∈ g_freed g → (V ∉ g_committed g) → rlog m V F = Some TOMB;
  (* a version that was reaped, or never begun, has no rows but tombstones *)
  r_reaped : ∀ V F, ver_ok V → frag_ok F → (V ∉ g_committed g) → marker m V = None →
    ¬ committed_row m V F ∧ occ m V F = None;
  (* presence rows cover the rows of a pending version *)
  r_presence : ∀ V F, ver_ok V → frag_ok F → marker m V ≠ None → committed_row m V F ∨ occ m V F ≠ None →
    presence m V F.1.1 ≠ None;
  (* resume cursors *)
  r_writing_presence : ∀ V t x, ver_ok V → seg_ok t → writing m V → presence m V t = Some x → x = [];
  r_writing_cursors : ∀ V t c, ver_ok V → writing m V → (V, t, c) ∉ g_cursors g;
  r_presence_cursor : ∀ V t c, ver_ok V → seg_ok t → reclaiming m V → presence m V t = Some c → c ≠ [] → cleaned_upto m V t c;
  r_cursors : ∀ V t c, ver_ok V → reclaiming m V → (V, t, c) ∈ g_cursors g → cleaned_upto m V t c;
}.

(** Two databases with the same rows in the protocol's keyspaces. *)
Definition agree (m m' : KV) : Prop := ∀ p, p ∈ [HEADS; PENDING; RLOG; OCC; FENCES] → same p m m'.

Lemma agree_views m m' : agree m m' →
  (∀ V, marker m' V = marker m V) ∧ (∀ V t, presence m' V t = presence m V t) ∧ (∀ V, fence m' V = fence m V) ∧
  (∀ V F, rlog m' V F = rlog m V F) ∧ (∀ V F, occ m' V F = occ m V F) ∧ (∀ b k, head m' b k = head m b k).
Proof.
  intros Ha. split_and!; intros.
  - apply same_marker, Ha. rewrite !elem_of_cons. tauto.
  - apply same_presence, Ha. rewrite !elem_of_cons. tauto.
  - apply same_fence, Ha. rewrite !elem_of_cons. tauto.
  - apply same_rlog, Ha. rewrite !elem_of_cons. tauto.
  - apply same_occ, Ha. rewrite !elem_of_cons. tauto.
  - apply same_head, Ha. rewrite !elem_of_cons. tauto.
Qed.

(** Decoded markers and heads follow the rows they are read from. *)
Lemma pending_eq m m' V p : marker m' V = marker m V → pending m' V p ↔ pending m V p.
Proof. unfold pending. by intros ->. Qed.

Lemma writing_eq m m' V : marker m' V = marker m V → writing m' V ↔ writing m V.
Proof. unfold writing, pending. by intros ->. Qed.

Lemma reclaiming_eq m m' V : marker m' V = marker m V → reclaiming m' V ↔ reclaiming m V.
Proof. unfold reclaiming, pending. by intros ->. Qed.

Lemma live_at_eq m m' b k V : head m' b k = head m b k → live_at m' b k V ↔ live_at m b k V.
Proof. unfold live_at. by intros ->. Qed.

Lemma committed_row_eq m m' V F : rlog m' V F = rlog m V F → committed_row m' V F ↔ committed_row m V F.
Proof. unfold committed_row. by intros ->. Qed.

Lemma pending_inj m V p p' : pending m V p → pending m V p' → p = p'.
Proof. intros (x & H1 & H2) (y & H3 & H4). congruence. Qed.

Lemma pending_marker m V p : pending m V p → marker m V ≠ None.
Proof. intros (x & -> & _). done. Qed.

Lemma writing_marker m V : writing m V → marker m V ≠ None.
Proof. intros (p & Hp & _). by eapply pending_marker. Qed.

Lemma reclaiming_marker m V : reclaiming m V → marker m V ≠ None.
Proof. intros (p & Hp & _). by eapply pending_marker. Qed.

Lemma writing_not_reclaiming m V : writing m V → reclaiming m V → False.
Proof. intros (p & Hp & H1) (q & Hq & H2). rewrite (pending_inj _ _ _ _ Hp Hq) in H1. rewrite H1 in H2. done. Qed.

Lemma live_at_inj m b k V V' : ver_ok V → ver_ok V' → live_at m b k V → live_at m b k V' → V = V'.
Proof.
  intros HV HV' (x & h & H1 & H2 & H3) (y & h' & H4 & H5 & H6). apply vt_inj; [done..|]. congruence.
Qed.

Lemma live_committed m g b k V : Rows m g → seg_ok b → seg_ok k → ver_ok V → live_at m b k V → V ∈ g_committed g.
Proof.
  intros Hr Hb Hk HV (x & h & H1 & H2 & H3). destruct (r_head _ _ Hr b k x Hb Hk H1) as (h' & V' & E1 & HV' & E2 & _ & E4).
  assert (V' = V) as -> by (apply vt_inj; [done..|]; congruence). done.
Qed.

Lemma committed_not_tomb m V F : committed_row m V F → rlog m V F ≠ Some TOMB.
Proof. intros (x & -> & Hx) [= ->]. by apply tomb_not_committed. Qed.

Lemma Rows_agree m m' g : agree m m' → Rows m g → Rows m' g.
Proof.
  intros Ha Hr. destruct (agree_views m m' Ha) as (A1 & A2 & A3 & A4 & A5 & A6).
  assert (∀ V F, committed_row m' V F ↔ committed_row m V F) as B1 by (intros; by apply committed_row_eq).
  assert (∀ V, writing m' V ↔ writing m V) as B2 by (intros; by apply writing_eq).
  assert (∀ V, reclaiming m' V ↔ reclaiming m V) as B3 by (intros; by apply reclaiming_eq).
  assert (∀ b k V, live_at m' b k V ↔ live_at m b k V) as B4 by (intros; by apply live_at_eq).
  assert (∀ V t c, cleaned_upto m V t c → cleaned_upto m' V t c) as B5.
  { intros V t c [H1 H2]. split; [done|]. intros F HF Ht Hc. rewrite B1. by apply H2. }
  destruct Hr. split; intros; rewrite ?A1, ?A2, ?A3, ?A4, ?A5, ?A6, ?B1, ?B2, ?B3, ?B4 in *; eauto.
  - assert (kv_get q m ≠ None); [|eauto]. rewrite <-(Ha PENDING); [done| |done]. rewrite !elem_of_cons. tauto.
Qed.

(** ** Markers *)

Definition add_begun (id : Z) (g : Ghost) : Ghost :=
  mkGhost (id :: g_begun g) (g_committed g) (g_parts g) (g_appended g) (g_freed g) (g_cursors g).

Lemma Rows_add_begun m g id : Rows m g → Rows m (add_begun id g).
Proof.
  intros Hr. destruct Hr. split; intros; cbn [add_begun g_begun g_committed g_parts g_appended g_freed g_cursors] in *; eauto.
  - apply elem_of_cons. eauto.
  - apply elem_of_cons. eauto.
  - apply elem_of_cons. eauto.
  - match goal with Hc : _ ∈ g_committed g |- _ => destruct (r_committed_ok0 _ Hc) as [? ?] end. split; [done|]. by right.
  - match goal with Hc : _ ∈ g_appended g |- _ => destruct (r_appended_ok0 _ _ Hc) as (? & ? & ?) end. split_and!; [done..|]. by right.
  - match goal with Hc : _ ∈ g_freed g |- _ => destruct (r_freed_ok0 _ _ Hc) as (? & ? & ?) end. split_and!; [done..|]. by right.
  - match goal with Hc : _ ∈ g_cursors g |- _ => destruct (r_cursors_ok0 _ _ _ Hc) as [? ?] end. split; [done|]. by right.
Qed.

(** A version nothing is known of yet. *)
Record fresh (m : KV) (g : Ghost) (V : Version) : Prop := {
  fr_marker : marker m V = None;
  fr_rlog : ∀ F, frag_ok F → rlog m V F = None;
  fr_occ : ∀ F, frag_ok F → occ m V F = None;
  fr_presence : ∀ t, seg_ok t → presence m V t = None;
  fr_committed : V ∉ g_committed g;
  fr_appended : ∀ F, (V, F) ∉ g_appended g;
  fr_cursors : ∀ t c, (V, t, c) ∉ g_cursors g;
}.

Lemma not_begun_fresh m g V : Rows m g → ver_ok V → (V.1 ∉ g_begun g) → fresh m g V.
Proof.
  intros Hr HV Hn.
  assert (marker m V = None) as Hm.
  { destruct (marker m V) eqn:E; [|done]. exfalso. apply Hn. eapply r_marker_begun; [done..|]. by rewrite E. }
  split; [done|..].
  - intros F HF. destruct (rlog m V F) eqn:E; [|done]. exfalso. apply Hn. eapply (r_rlog_begun _ _ Hr V F); [done..|]. by rewrite E.
  - intros F HF. destruct (occ m V F) eqn:E; [|done]. exfalso. apply Hn. eapply (r_occ_begun _ _ Hr V F); [done..|]. by rewrite E.
  - intros t Ht. destruct (presence m V t) eqn:E; [|done]. exfalso. eapply (r_presence_marker _ _ Hr V t); [done..| |done]. by rewrite E.
  - intros Hc. apply Hn. by apply (r_committed_ok _ _ Hr V Hc).
  - intros F Hc. apply Hn. by apply (r_appended_ok _ _ Hr V F Hc).
  - intros t c Hc. apply Hn. by apply (r_cursors_ok _ _ Hr V t c Hc).
Qed.

Lemma marker_effect_pending V p m m' :
  ver_ok V → PendingVersion_ok p → marker_effect V p m m' → pending m' V p.
Proof.
  intros HV Hp He. exists (encode_pending_version_value p). split; [|by apply decode_encode_pending_version].
  rewrite (me_marker' _ _ _ _ He) by done. by rewrite decide_True.
Qed.

Lemma marker_effect_other V p m m' V' : marker_effect V p m m' → ver_ok V' → V' ≠ V → marker m' V' = marker m V'.
Proof. intros He HV' Hne. rewrite (me_marker' _ _ _ _ He) by done. by rewrite decide_False. Qed.

Lemma cleaned_upto_mono m m' V t c :
  (∀ F, frag_ok F → F.1.1 = t → committed_row m' V F → committed_row m V F) → cleaned_upto m V t c → cleaned_upto m' V t c.
Proof. intros Hsub [H1 H2]. split; [done|]. intros F HF Ht Hc Hr. by apply (H2 F HF Ht Hc), Hsub. Qed.

(** A marker is minted, renewed, or turned to reclaiming. *)
Lemma Rows_marker m m' g V p :
  Rows m g → ver_ok V → V.1 ∈ g_begun g → PendingVersion_ok p → marker_effect V p m m' →
  (pv_state p = WRITING ∧ (writing m V ∨ fresh m g V)) ∨ (pv_state p = RECLAIMING ∧ writing m V) → Rows m' g.
Proof.
  intros Hr HV Hbegun Hp He Htr. pose proof (marker_effect_pending _ _ _ _ HV Hp He) as Hpend.
  pose proof (λ V', marker_effect_other _ _ _ _ V' He) as Hother. destruct He as [He1 He2 He3 He4].
  assert (∀ V F, rlog m' V F = rlog m V F) as A4 by (intros; apply same_rlog, He4; rewrite !elem_of_cons; tauto).
  assert (∀ V F, occ m' V F = occ m V F) as A5 by (intros; apply same_occ, He4; rewrite !elem_of_cons; tauto).
  assert (∀ b k, head m' b k = head m b k) as A6 by (intros; apply same_head, He4; rewrite !elem_of_cons; tauto).
  assert (∀ V, fence m' V = fence m V) as A3 by (intros; apply same_fence, He4; rewrite !elem_of_cons; tauto).
  assert (∀ V F, committed_row m' V F ↔ committed_row m V F) as B1 by (intros; by apply committed_row_eq).
  assert (∀ b k V, live_at m' b k V ↔ live_at m b k V) as B4 by (intros; by apply live_at_eq).
  assert (V ∉ g_committed g) as Hnc.
  { intros Hc. pose proof (r_committed_unmarked _ _ Hr V Hc) as E.
    destruct Htr as [[_ [Hw|Hf]]|[_ Hw]]; [by apply writing_marker in Hw|by apply (fr_committed _ _ _ Hf)|by apply writing_marker in Hw]. }
  assert (∀ V', ver_ok V' → writing m' V' → writing m V' ∨ V' = V ∧ fresh m g V) as Hwr.
  { intros V' HV' Hw. destruct (decide (V' = V)) as [->|Hne]; [|left; by eapply writing_eq; [symmetry; apply Hother|]].
    destruct Hw as (q & Hq & Hs). rewrite (pending_inj _ _ _ _ Hq Hpend) in Hs.
    destruct Htr as [[_ [Hw|Hf]]|[Hs' _]]; [by left|by right|]. rewrite Hs in Hs'. done. }
  assert (∀ V', ver_ok V' → reclaiming m' V' → (V' ≠ V ∧ reclaiming m V') ∨ (V' = V ∧ writing m V)) as Hrc.
  { intros V' HV' Hw. destruct (decide (V' = V)) as [->|Hne]; [|left; split; [done|]; by eapply reclaiming_eq; [symmetry; apply Hother|]].
    destruct Hw as (q & Hq & Hs). rewrite (pending_inj _ _ _ _ Hq Hpend) in Hs.
    destruct Htr as [[Hs' _]|[_ Hw]]; [|by right]. rewrite Hs in Hs'. done. }
  assert (∀ V t c, cleaned_upto m V t c → cleaned_upto m' V t c) as B5 by (intros; eapply cleaned_upto_mono; [|done]; intros; by apply B1).
  split; [| | | |exact (r_committed_ok _ _ Hr)|exact (r_appended_ok _ _ Hr)|exact (r_freed_ok _ _ Hr)|exact (r_parts_ok _ _ Hr)
    |exact (r_cursors_ok _ _ Hr)|..].
  - intros V' HV' Hm. destruct (decide (V' = V)) as [->|Hne]; [done|]. rewrite Hother in Hm by done. by apply (r_marker_begun _ _ Hr).
  - intros V' F HV' HF. rewrite A4. by apply (r_rlog_begun _ _ Hr).
  - intros V' F HV' HF. rewrite A5. by apply (r_occ_begun _ _ Hr).
  - intros V' t HV' Ht. rewrite He2 by done. intros Hx. destruct (decide (V' = V)) as [->|Hne]; [by eapply pending_marker|].
    rewrite Hother by done. by eapply r_presence_marker.
  - intros V' x HV' Hx. destruct (decide (V' = V)) as [->|Hne].
    + destruct Hpend as (y & H1 & H2). exists p. congruence.
    + rewrite Hother in Hx by done. by eapply r_marker_value.
  - intros V' F x HV' HF. rewrite A4. by apply (r_rlog_value _ _ Hr).
  - intros q Hq Hx. destruct (decide (q = mk V)) as [->|Hne]; [left; by exists V|]. rewrite He3 in Hx by done. by apply (r_pending_keys _ _ Hr).
  - intros b k x Hb Hk. rewrite A6. by apply (r_head _ _ Hr).
  - intros b k V' F Hb Hk HV'. rewrite B4, B1. by apply (r_live_parts _ _ Hr).
  - intros b k b' k' V'. rewrite !B4. by apply (r_live_unique _ _ Hr).
  - intros V' Hc. rewrite Hother; [by apply (r_committed_unmarked _ _ Hr)| |by intros ->]. by apply (r_committed_ok _ _ Hr).
  - intros V' F HV' Hw Ha. rewrite B1. destruct (Hwr V' HV' Hw) as [Hw'|[-> Hf]]; [by apply (r_writing_rows _ _ Hr)|]. by apply (fr_appended _ _ _ Hf) in Ha.
  - intros V' F HV' HF Hw. rewrite A4, A3. destruct (Hwr V' HV' Hw) as [Hw'|[-> Hf]]; [by apply (r_writing_fenced _ _ Hr)|]. by rewrite (fr_rlog _ _ _ Hf).
  - intros V' F. rewrite A4. by apply (r_freed_tomb _ _ Hr).
  - intros V' F HV' HF Hc Hm. rewrite B1, A5. destruct (decide (V' = V)) as [->|Hne]; [by apply pending_marker in Hpend|].
    rewrite Hother in Hm by done. by apply (r_reaped _ _ Hr).
  - intros V' F HV' HF Hm. rewrite B1, A5. rewrite He2 by (done || apply HF). intros Hx.
    destruct (decide (V' = V)) as [->|Hne]; [|rewrite Hother in Hm by done; by apply (r_presence _ _ Hr)].
    destruct Htr as [[_ [Hw|Hf]]|[_ Hw]].
    + apply (r_presence _ _ Hr); [done..|by apply writing_marker|done].
    + exfalso. destruct Hx as [(x & Hx & _)|Hx]; [by rewrite (fr_rlog _ _ _ Hf) in Hx|by apply Hx, (fr_occ _ _ _ Hf)].
    + apply (r_presence _ _ Hr); [done..|by apply writing_marker|done].
  - intros V' t x HV' Ht Hw. rewrite He2 by done. destruct (Hwr V' HV' Hw) as [Hw'|[-> Hf]]; [by apply (r_writing_presence _ _ Hr)|]. by rewrite (fr_presence _ _ _ Hf).
  - intros V' t c HV' Hw. destruct (Hwr V' HV' Hw) as [Hw'|[-> Hf]]; [by apply (r_writing_cursors _ _ Hr)|exact (fr_cursors _ _ _ Hf t c)].
  - intros V' t c HV' Ht Hrec Hx Hne. rewrite He2 in Hx by done. destruct (Hrc V' HV' Hrec) as [[Hn Hrec']|[-> Hw]].
    + by apply B5, (r_presence_cursor _ _ Hr).
    + exfalso. apply Hne. by eapply (r_writing_presence _ _ Hr V t).
  - intros V' t c HV' Hrec Hx. destruct (Hrc V' HV' Hrec) as [[Hn Hrec']|[-> Hw]].
    + by apply B5, (r_cursors _ _ Hr).
    + exfalso. by eapply (r_writing_cursors _ _ Hr V t c).
Qed.

(** ** Appending *)

(** A row either was just written for [V], and is committed, or is as before. *)
Lemma rows_written_cases V fs m m' V' F :
  Forall fplan_ok fs → rows_written V fs m m' → ver_ok V' → frag_ok F →
  (V' = V ∧ F ∈ frag_of <$> fs ∧ committed_row m' V' F ∧ occ m' V' F = Some []) ∨
  (¬ (V' = V ∧ F ∈ frag_of <$> fs) ∧ rlog m' V' F = rlog m V' F ∧ occ m' V' F = occ m V' F).
Proof.
  intros Hfs (W1 & W2 & W3) HV' HF. destruct (decide (V' = V ∧ F ∈ frag_of <$> fs)) as [[-> Hin]|Hn].
  - left. split; [done|]. split; [done|]. split; [|rewrite W3 by done; by rewrite decide_True].
    destruct (W1 V F HV' HF eq_refl Hin) as (f & Hf & E). exists (rl_value_of f). split; [done|].
    rewrite Forall_forall in Hfs. by apply rl_value_committed, Hfs.
  - right. split; [done|]. split; [by apply W2|]. rewrite W3 by done. by rewrite decide_False.
Qed.

(** A write that passed the rendezvous does not bury a tombstone. *)
Lemma no_tombstone m g V fs (fenced : bool) :
  Rows m g → ver_ok V → Forall fplan_ok fs → (fenced = true → writing m V) →
  (if fenced then fence m V = None else ∀ F, F ∈ frag_of <$> fs → rlog m V F ≠ Some TOMB) →
  ∀ F, F ∈ frag_of <$> fs → rlog m V F ≠ Some TOMB.
Proof.
  intros Hr HV Hfs Hw Hc F HF. destruct fenced; [|by apply Hc]. intros E.
  apply (r_writing_fenced _ _ Hr V F HV) in E; [done| |by apply Hw].
  apply list_elem_of_fmap in HF as (f & -> & Hf). rewrite Forall_forall in Hfs. by apply Hfs.
Qed.

Definition add_appended (V : Version) (fs : list FragmentPlan) (g : Ghost) : Ghost :=
  mkGhost (g_begun g) (g_committed g) (g_parts g) (((fun f => (V, frag_of f)) <$> fs) ++ g_appended g) (g_freed g) (g_cursors g).

Lemma add_appended_elem V fs g V' F :
  (V', F) ∈ g_appended (add_appended V fs g) ↔ (V' = V ∧ F ∈ frag_of <$> fs) ∨ (V', F) ∈ g_appended g.
Proof.
  cbn [add_appended g_appended]. rewrite elem_of_app. split.
  - intros [(f & [-> ->]%pair_equal_spec & Hf)%list_elem_of_fmap|?]; [left|by right]. split; [done|].
    apply list_elem_of_fmap. by exists f.
  - intros [[-> (f & -> & Hf)%list_elem_of_fmap]|?]; [left|by right]. apply list_elem_of_fmap. by exists f.
Qed.

Lemma with_expiry_max_ok e p : is_u64 e → PendingVersion_ok p → PendingVersion_ok (with_expiry_max e p).
Proof. intros He (H1 & H2). split; [|done]. unfold fits in *. cbn. lia. Qed.

Lemma pending_ok m V p : pending m V p → PendingVersion_ok p.
Proof. intros (x & _ & Hx). apply decode_pending_version_Ok in Hx as [_ Hx]. exact Hx. Qed.

Lemma Rows_append m m' g V fs e fenced p :
  Rows m g → ver_ok V → is_u64 e → Forall fplan_ok fs → append_effect V fs e fenced p m m' → Rows m' (add_appended V fs g).
Proof.
  intros Hr HV He Hfs [Hp Hw Hc M' P' K' W Hhead Hfence _].
  assert (writing m V) as Hwr by by exists p.
  assert (V.1 ∈ g_begun g) as Hbeg by (apply (r_marker_begun _ _ Hr); [done|by apply writing_marker]).
  assert (V ∉ g_committed g) as Hnc.
  { intros Hc'. apply writing_marker in Hwr. by rewrite (r_committed_unmarked _ _ Hr V Hc') in Hwr. }
  pose proof (no_tombstone m g V fs fenced Hr HV Hfs (λ _, Hwr) Hc) as Hnt.
  assert (∀ F, F ∈ frag_of <$> fs → frag_ok F) as Hfok.
  { intros F (f & -> & Hf)%list_elem_of_fmap. rewrite Forall_forall in Hfs. by apply Hfs. }
  assert (pending m' V (with_expiry_max e p)) as Hpend.
  { exists (encode_pending_version_value (with_expiry_max e p)). rewrite M', decide_True by done. split; [done|].
    by apply decode_encode_pending_version, with_expiry_max_ok; [|eapply pending_ok]. }
  assert (∀ V', ver_ok V' → V' ≠ V → marker m' V' = marker m V') as Mo by (intros; rewrite M', decide_False by done; done).
  assert (∀ V', ver_ok V' → marker m' V' ≠ None → marker m V' ≠ None) as Mn.
  { intros V' HV'. destruct (decide (V' = V)) as [->|Hne]; [intros _; by apply writing_marker|by rewrite Mo]. }
  assert (∀ V', ver_ok V' → writing m' V' → writing m V') as Wr.
  { intros V' HV'. destruct (decide (V' = V)) as [->|Hne]; [done|]. by rewrite (writing_eq m) by by apply Mo. }
  assert (∀ V', ver_ok V' → reclaiming m' V' → V' ≠ V ∧ reclaiming m V') as Rc.
  { intros V' HV' Hrec. destruct (decide (V' = V)) as [->|Hne]; [|split; [done|]; by apply (reclaiming_eq m m' V'); [apply Mo|]].
    exfalso. eapply (writing_not_reclaiming m' V); [|done]. by exists (with_expiry_max e p). }
  pose proof (λ V' F, rows_written_cases V fs m m' V' F Hfs W) as Cs.
  assert (∀ V' F, ver_ok V' → frag_ok F → V' ≠ V → rlog m' V' F = rlog m V' F ∧ occ m' V' F = occ m V' F) as Ro.
  { intros V' F HV' HF Hne. destruct (Cs V' F HV' HF) as [[-> _]|(_ & ? & ?)]; done. }
  assert (∀ V' t c, ver_ok V' → V' ≠ V → seg_ok t → cleaned_upto m V' t c → cleaned_upto m' V' t c) as Cl.
  { intros V' t c HV' Hne Ht. apply cleaned_upto_mono. intros F HF _. by rewrite (committed_row_eq m) by by apply Ro. }
  assert (∀ b k V', live_at m' b k V' ↔ live_at m b k V') as Lv by (intros; by apply live_at_eq, same_head).
  split.
  - intros V' HV' Hm. by apply (r_marker_begun _ _ Hr), Mn.
  - intros V' F HV' HF Hx. destruct (Cs V' F HV' HF) as [[-> _]|(_ & E & _)]; [done|]. rewrite E in Hx. by apply (r_rlog_begun _ _ Hr V' F).
  - intros V' F HV' HF Hx. destruct (Cs V' F HV' HF) as [[-> _]|(_ & _ & E)]; [done|]. rewrite E in Hx. by apply (r_occ_begun _ _ Hr V' F).
  - intros V' t HV' Ht. rewrite P' by done. case_decide as D; [intros _; destruct D as [-> _]; by eapply pending_marker|].
    intros Hx. destruct (decide (V' = V)) as [->|Hne]; [by eapply pending_marker|]. rewrite Mo by done. by eapply r_presence_marker.
  - exact (r_committed_ok _ _ Hr).
  - intros V' F [[-> HF]|Ha]%add_appended_elem; [by auto|by apply (r_appended_ok _ _ Hr)].
  - exact (r_freed_ok _ _ Hr).
  - exact (r_parts_ok _ _ Hr).
  - exact (r_cursors_ok _ _ Hr).
  - intros V' x HV' Hx. destruct (decide (V' = V)) as [->|Hne]; [|rewrite Mo in Hx by done; by eapply r_marker_value].
    destruct Hpend as (y & H1 & H2). exists (with_expiry_max e p). congruence.
  - intros V' F x HV' HF Hx. destruct (Cs V' F HV' HF) as [(_ & _ & (y & Hy & ?) & _)|(_ & E & _)]; [right; congruence|].
    rewrite E in Hx. by apply (r_rlog_value _ _ Hr V' F).
  - intros q Hq Hx. destruct (K' q Hq Hx) as [?|[->|(t & Ht & ->)]]; [by apply (r_pending_keys _ _ Hr)|left; by exists V|right].
    exists V, t. apply list_elem_of_fmap in Ht as (f & -> & Hf). rewrite Forall_forall in Hfs. destruct (Hfs f Hf) as ([? _] & ? & _). done.
  - intros b k x Hb Hk. rewrite (same_head m) by done. by apply (r_head _ _ Hr).
  - intros b k V' F Hb Hk HV' Hl%Lv Hpt. assert (V' ≠ V) as Hne by (intros ->; by apply Hnc, (live_committed m g b k V)).
    destruct (r_live_parts _ _ Hr b k V' F Hb Hk HV' Hl Hpt) as [H1 H2]. split; [|done].
    rewrite (committed_row_eq m) by (apply Ro; [done|by apply (r_parts_ok _ _ Hr V' F)|done]). done.
  - intros b k b' k' V'. rewrite !Lv. by apply (r_live_unique _ _ Hr).
  - intros V' Hc'. rewrite Mo; [by apply (r_committed_unmarked _ _ Hr)|by apply (r_committed_ok _ _ Hr)|by intros ->].
  - intros V' F HV' Hw' Ha. apply add_appended_elem in Ha as [[-> HF]|Ha].
    + destruct (Cs V F HV' (Hfok F HF)) as [(_ & _ & ? & _)|[Hn _]]; [|tauto]. split; [done|]. intros Hf.
      by apply (Hnt F HF), (r_freed_tomb _ _ Hr).
    + destruct (r_writing_rows _ _ Hr V' F HV' (Wr V' HV' Hw') Ha) as [H1 H2]. split; [|done].
      destruct (Cs V' F) as [(_ & _ & ? & _)|(_ & E & _)]; [done|by apply (r_appended_ok _ _ Hr V' F)|done|]. by apply (committed_row_eq m).
  - intros V' F HV' HF Hw' Hx. rewrite (same_fence m) by done.
    destruct (Cs V' F HV' HF) as [(_ & _ & Hcr & _)|(_ & E & _)]; [by apply committed_not_tomb in Hcr|].
    rewrite E in Hx. apply (r_writing_fenced _ _ Hr V' F); auto.
  - intros V' F Hf Hc'. destruct (r_freed_ok _ _ Hr V' F Hf) as (HV' & HF & _).
    pose proof (r_freed_tomb _ _ Hr V' F Hf Hc') as Ht. destruct (Cs V' F HV' HF) as [(-> & Hin & _)|(_ & E & _)]; [|congruence].
    by apply (Hnt F Hin) in Ht.
  - intros V' F HV' HF Hc' Hm. destruct (decide (V' = V)) as [->|Hne]; [by eapply pending_marker in Hpend|].
    rewrite Mo in Hm by done. destruct (Ro V' F HV' HF Hne) as [E1 E2]. rewrite (committed_row_eq m), E2 by done. by apply (r_reaped _ _ Hr).
  - intros V' F HV' HF Hm Hx. rewrite P' by (done || apply HF). case_decide as D; [done|].
    apply (r_presence _ _ Hr); [done..|by apply Mn|]. destruct (Cs V' F HV' HF) as [(-> & Hin & _)|(_ & E1 & E2)].
    + exfalso. apply D. split; [done|]. apply list_elem_of_fmap in Hin as (f & -> & Hf). apply list_elem_of_fmap. by exists f.
    + by rewrite (committed_row_eq m), E2 in Hx by done.
  - intros V' t x HV' Ht Hw'. rewrite P' by done. case_decide; [by intros [= <-]|]. apply (r_writing_presence _ _ Hr); auto.
  - intros V' t c HV' Hw'. apply (r_writing_cursors _ _ Hr); auto.
  - intros V' t c HV' Ht [Hne Hrec]%Rc Hx Hcne; [|done]. rewrite P', decide_False in Hx by tauto.
    apply Cl; [done..|]. by apply (r_presence_cursor _ _ Hr).
  - intros V' t c HV' [Hne Hrec]%Rc Hx; [|done]. pose proof (r_cursors _ _ Hr V' t c HV' Hrec Hx) as [C1 C2]. split; [done|].
    intros F HF HFt Hle. rewrite (committed_row_eq m) by by apply Ro. by apply C2.
Qed.
End inv.
