(* ===== verification/KmsKeep.v ===== *)
(** Committing, reclaiming, cleaning, finishing, sweeping and deleting keep the invariant of
    the write protocol. *)
From S2P Require Import Prelude Bytes Fdb KmsKeys KmsValues KmsStore KmsViews KmsEffects KmsReap KmsInv.

Section keep.
Context {KV : Type} {Hdb : Fdb KV} {Hlaws : FdbLaws KV} {Hcodec : KmsCodec} {Hcodecl : KmsCodecLaws}.

(** ** Committing *)

(** The committed version consists of the commit's fragments and, when its marker was live,
    of those its segments appended. *)
Definition add_committed (V : Version) (fs : list FragmentPlan) (present : bool) (g : Ghost) : Ghost :=
  mkGhost (g_begun g) (V :: g_committed g)
    (((fun f => (V, frag_of f)) <$> fs) ++ (if present then filter (fun x => x.1 = V) (g_appended g) else []) ++ g_parts g)
    (g_appended g) (g_freed g) (g_cursors g).

Lemma add_committed_parts V fs present g V' F :
  (V', F) ∈ g_parts (add_committed V fs present g) ↔
  (V' = V ∧ F ∈ frag_of <$> fs) ∨ (present = true ∧ V' = V ∧ (V', F) ∈ g_appended g) ∨ (V', F) ∈ g_parts g.
Proof.
  cbn [add_committed g_parts]. rewrite !elem_of_app.
  assert ((V', F) ∈ (fun f => (V, frag_of f)) <$> fs ↔ V' = V ∧ F ∈ frag_of <$> fs) as ->.
  { split.
    - intros (f & [-> ->]%pair_equal_spec & Hf)%list_elem_of_fmap. split; [done|]. apply list_elem_of_fmap. by exists f.
    - intros [-> (f & -> & Hf)%list_elem_of_fmap]. apply list_elem_of_fmap. by exists f. }
  destruct present; [rewrite list_elem_of_filter; cbn; tauto|]. rewrite elem_of_nil. split; [tauto|]. intros [?|[[? _]|?]]; [tauto|done|tauto].
Qed.

Lemma Rows_commit m m' g V b k fs required fenced present h :
  Rows m g → ver_ok V → seg_ok b → seg_ok k → V.1 ∈ g_begun g → Forall fplan_ok fs →
  (required = false → V ∉ g_committed g) → (fenced = true → required = true) →
  head m b k = None → oh_current_version_id h = vt V → oh_version h = 1 →
  commit_allowed V fs required fenced present m → commit_effect V b k fs present h m m' →
  Rows m' (add_committed V fs present g).
Proof.
  intros Hr HV Hb Hk Hbeg Hfs Hdisc Hfr Hnone Hcur Hver [Hpres Hc] [H' M' P' K' W Hfence _].
  assert (V ∉ g_committed g) as Hnc.
  { destruct present; [|by apply Hdisc; destruct Hpres]. intros Hc'. destruct Hpres as (p & Hp & _).
    apply pending_marker in Hp. by rewrite (r_committed_unmarked _ _ Hr V Hc') in Hp. }
  assert (∀ F, F ∈ frag_of <$> fs → rlog m V F ≠ Some TOMB) as Hnt.
  { apply (no_tombstone m g V fs fenced); try done. intros Hf. specialize (Hfr Hf). destruct present; [exact Hpres|].
    destruct Hpres. congruence. }
  assert (∀ F, F ∈ frag_of <$> fs → frag_ok F) as Hfok.
  { intros F (f & -> & Hf)%list_elem_of_fmap. rewrite Forall_forall in Hfs. by apply Hfs. }
  assert (marker m' V = None) as Hmn.
  { rewrite M' by done. destruct (decide (present = true ∧ V = V)) as [D|D]; [done|].
    destruct present; [by exfalso; apply D|by destruct Hpres]. }
  assert (∀ t, seg_ok t → presence m' V t = None) as Hpn.
  { intros t Ht. rewrite P' by done. destruct (decide (present = true ∧ V = V)) as [D|D]; [done|].
    destruct present; [by exfalso; apply D|]. destruct Hpres as [Hp _].
    destruct (presence m V t) eqn:E; [|done]. exfalso. apply (r_presence_marker _ _ Hr V t HV Ht); [by rewrite E|done]. }
  assert (∀ V', ver_ok V' → V' ≠ V → marker m' V' = marker m V') as Mo by (intros; rewrite M', decide_False by tauto; done).
  assert (∀ V' t, ver_ok V' → seg_ok t → V' ≠ V → presence m' V' t = presence m V' t) as Po by (intros; rewrite P', decide_False by tauto; done).
  pose proof (λ V' F, rows_written_cases V fs m m' V' F Hfs W) as Cs.
  assert (∀ V' F, ver_ok V' → frag_ok F → V' ≠ V → rlog m' V' F = rlog m V' F ∧ occ m' V' F = occ m V' F) as Ro.
  { intros V' F HV' HF Hne. destruct (Cs V' F HV' HF) as [[-> _]|(_ & ? & ?)]; done. }
  assert (∀ V', ver_ok V' → writing m' V' → V' ≠ V ∧ writing m V') as Wr.
  { intros V' HV' Hw. assert (V' ≠ V) by (intros ->; by apply writing_marker in Hw). split; [done|]. by apply (writing_eq m m'); [apply Mo|]. }
  assert (∀ V', ver_ok V' → reclaiming m' V' → V' ≠ V ∧ reclaiming m V') as Rc.
  { intros V' HV' Hw. assert (V' ≠ V) by (intros ->; by apply reclaiming_marker in Hw). split; [done|]. by apply (reclaiming_eq m m'); [apply Mo|]. }
  assert (∀ b' k' V', seg_ok b' → seg_ok k' → ver_ok V' → live_at m' b' k' V' →
    (b' = b ∧ k' = k ∧ V' = V) ∨ (live_at m b' k' V' ∧ V' ≠ V)) as Lv.
  { intros b' k' V' Hb' Hk' HV' Hl. destruct (decide (b' = b ∧ k' = k)) as [[-> ->]|Hne].
    - left. split; [done|]. split; [done|]. destruct Hl as (x & h' & E1 & E2 & E3). rewrite H', decide_True in E1 by done.
      apply (inj Some) in E1. subst x. rewrite decode_encode_object_head in E2. injection E2 as <-. apply vt_inj; [done..|congruence].
    - right. assert (live_at m b' k' V') as Hl' by (apply (live_at_eq m m'); [by rewrite H', decide_False|done]). split; [done|].
      intros ->. by apply Hnc, (live_committed m g b' k' V). }
  split.
  - intros V' HV' Hm. destruct (decide (V' = V)) as [->|Hne]; [done|]. rewrite Mo in Hm by done. by apply (r_marker_begun _ _ Hr).
  - intros V' F HV' HF Hx. destruct (Cs V' F HV' HF) as [[-> _]|(_ & E & _)]; [done|]. rewrite E in Hx. by apply (r_rlog_begun _ _ Hr V' F).
  - intros V' F HV' HF Hx. destruct (Cs V' F HV' HF) as [[-> _]|(_ & _ & E)]; [done|]. rewrite E in Hx. by apply (r_occ_begun _ _ Hr V' F).
  - intros V' t HV' Ht Hx. destruct (decide (V' = V)) as [->|Hne]; [by rewrite Hpn in Hx|]. rewrite Po in Hx by done. rewrite Mo by done.
    by eapply r_presence_marker.
  - intros V' [->|Hc']%elem_of_cons; [done|by apply (r_committed_ok _ _ Hr)].
  - exact (r_appended_ok _ _ Hr).
  - exact (r_freed_ok _ _ Hr).
  - intros V' F [[-> HF]|[(_ & -> & HF)|Hp]]%add_committed_parts.
    + split; [by left|by apply Hfok].
    + split; [by left|]. by apply (r_appended_ok _ _ Hr V F).
    + destruct (r_parts_ok _ _ Hr V' F Hp). split; [by right|done].
  - exact (r_cursors_ok _ _ Hr).
  - intros V' x HV' Hx. destruct (decide (V' = V)) as [->|Hne]; [congruence|]. rewrite Mo in Hx by done. by eapply r_marker_value.
  - intros V' F x HV' HF Hx. destruct (Cs V' F HV' HF) as [(_ & _ & (y & Hy & ?) & _)|(_ & E & _)]; [right; congruence|].
    rewrite E in Hx. by apply (r_rlog_value _ _ Hr V' F).
  - intros q Hq Hx. apply (r_pending_keys _ _ Hr); [done|]. destruct (K' q Hq) as [E|E]; congruence.
  - intros b' k' x Hb' Hk'. rewrite H' by done. destruct (decide (b' = b ∧ k' = k)) as [D|D].
    + intros E%(inj Some). subst x. exists h, V. rewrite decode_encode_object_head. do 4 (split; [done|]). by left.
    + intros Hx. destruct (r_head _ _ Hr b' k' x Hb' Hk' Hx) as (h' & V' & ? & ? & ? & ? & ?). exists h', V'. do 4 (split; [done|]). by right.
  - intros b' k' V' F Hb' Hk' HV' Hl Hp. destruct (Lv b' k' V' Hb' Hk' HV' Hl) as [(-> & -> & ->)|[Hl' Hne]].
    + apply add_committed_parts in Hp as [[_ HF]|[(-> & _ & Ha)|Hp]].
      * destruct (Cs V F HV (Hfok F HF)) as [(_ & _ & ? & _)|[Hn _]]; [|tauto]. split; [done|]. intros Hf.
        by apply (Hnt F HF), (r_freed_tomb _ _ Hr).
      * destruct (r_writing_rows _ _ Hr V F HV Hpres Ha) as [H1 H2]. split; [|done].
        destruct (Cs V F) as [(_ & _ & ? & _)|(_ & E & _)]; [done|by apply (r_appended_ok _ _ Hr V F)|done|]. by apply (committed_row_eq m).
      * by apply (r_parts_ok _ _ Hr) in Hp as [Hp _].
    + apply add_committed_parts in Hp as [[? _]|[(_ & ? & _)|Hp]]; [done..|].
      destruct (r_live_parts _ _ Hr b' k' V' F Hb' Hk' HV' Hl' Hp) as [H1 H2]. split; [|done].
      rewrite (committed_row_eq m) by (apply Ro; [done|by apply (r_parts_ok _ _ Hr V' F)|done]). done.
  - intros b1 k1 b2 k2 V' Hb1 Hk1 Hb2 Hk2 HV' L1 L2.
    destruct (Lv b1 k1 V' Hb1 Hk1 HV' L1) as [(-> & -> & ->)|[L1' N1]], (Lv b2 k2 _ Hb2 Hk2 HV' L2) as [(-> & -> & E)|[L2' N2]];
      try done. by apply (r_live_unique _ _ Hr b1 k1 b2 k2 V').
  - intros V' [->|Hc']%elem_of_cons; [done|]. destruct (decide (V' = V)) as [->|Hne]; [done|].
    rewrite Mo; [by apply (r_committed_unmarked _ _ Hr)|by apply (r_committed_ok _ _ Hr)|done].
  - intros V' F HV' [Hne Hw]%Wr Ha; [|done]. destruct (r_writing_rows _ _ Hr V' F HV' Hw Ha) as [H1 H2]. split; [|done].
    rewrite (committed_row_eq m) by (apply Ro; [done|by apply (r_appended_ok _ _ Hr V' F)|done]). done.
  - intros V' F HV' HF [Hne Hw]%Wr Hx; [|done]. rewrite (same_fence m) by done. destruct (Ro V' F HV' HF Hne) as [E _].
    rewrite E in Hx. by apply (r_writing_fenced _ _ Hr V' F).
  - intros V' F Hf Hc'. cbn in Hc'. apply not_elem_of_cons in Hc' as [Hne Hc']. destruct (r_freed_ok _ _ Hr V' F Hf) as (HV' & HF & _).
    destruct (Ro V' F HV' HF Hne) as [-> _]. by apply (r_freed_tomb _ _ Hr).
  - intros V' F HV' HF Hc' Hm. cbn in Hc'. apply not_elem_of_cons in Hc' as [Hne Hc']. rewrite Mo in Hm by done.
    destruct (Ro V' F HV' HF Hne) as [E1 E2]. rewrite (committed_row_eq m), E2 by done. by apply (r_reaped _ _ Hr).
  - intros V' F HV' HF Hm Hx. assert (V' ≠ V) as Hne by by intros ->. rewrite Mo in Hm by done. rewrite Po by (done || apply HF).
    destruct (Ro V' F HV' HF Hne) as [E1 E2]. rewrite (committed_row_eq m), E2 in Hx by done. by apply (r_presence _ _ Hr).
  - intros V' t x HV' Ht [Hne Hw]%Wr; [|done]. rewrite Po by done. by apply (r_writing_presence _ _ Hr).
  - intros V' t c HV' [Hne Hw]%Wr; [|done]. by apply (r_writing_cursors _ _ Hr).
  - intros V' t c HV' Ht [Hne Hrec]%Rc Hx Hcne; [|done]. rewrite Po in Hx by done.
    eapply cleaned_upto_mono; [|by apply (r_presence_cursor _ _ Hr)]. intros F HF _. by rewrite (committed_row_eq m) by by apply Ro.
  - intros V' t c HV' [Hne Hrec]%Rc Hx; [|done]. eapply cleaned_upto_mono; [|by apply (r_cursors _ _ Hr)].
    intros F HF _. by rewrite (committed_row_eq m) by by apply Ro.
Qed.

(** ** Reclaiming a granule *)

Definition add_freed (V : Version) (F : Frag) (g : Ghost) : Ghost :=
  mkGhost (g_begun g) (g_committed g) (g_parts g) (g_appended g) ((V, F) :: g_freed g) (g_cursors g).

Lemma Rows_tombstone m m' g V F :
  Rows m g → ver_ok V → frag_ok F → V.1 ∈ g_begun g → (rlog m V F = None ∨ rlog m V F = Some TOMB) →
  tombstone_effect V F m m' → Rows m' (add_freed V F g).
Proof.
  intros Hr HV HF Hbeg Hold [R' F' S'].
  assert (∀ V', marker m' V' = marker m V') as A1 by (intros; apply same_marker, S'; rewrite !elem_of_cons; tauto).
  assert (∀ V' t, presence m' V' t = presence m V' t) as A2 by (intros; apply same_presence, S'; rewrite !elem_of_cons; tauto).
  assert (∀ V' F, occ m' V' F = occ m V' F) as A5 by (intros; apply same_occ, S'; rewrite !elem_of_cons; tauto).
  assert (∀ b k, head m' b k = head m b k) as A6 by (intros; apply same_head, S'; rewrite !elem_of_cons; tauto).
  assert (∀ V, writing m' V ↔ writing m V) as B2 by (intros; by apply writing_eq).
  assert (∀ V, reclaiming m' V ↔ reclaiming m V) as B3 by (intros; by apply reclaiming_eq).
  assert (∀ b k V, live_at m' b k V ↔ live_at m b k V) as B4 by (intros; by apply live_at_eq).
  assert (∀ V' F', ver_ok V' → frag_ok F' → committed_row m' V' F' ↔ committed_row m V' F') as B1.
  { intros V1 F1 HV1 HF1. unfold committed_row. rewrite R' by done. destruct (decide (V1 = V ∧ F1 = F)) as [[-> ->]|D]; [|done].
    split; intros (x & Hx & Hc); exfalso.
    - apply (inj Some) in Hx. subst x. by apply tomb_not_committed.
    - destruct Hold as [E|E]; rewrite E in Hx; [done|]. apply (inj Some) in Hx. subst x. by apply tomb_not_committed. }
  assert (∀ V' F', ver_ok V' → frag_ok F' → committed_row m V' F' → ¬ (V' = V ∧ F' = F)) as Hne.
  { intros V1 F1 HV1 HF1 (x & Hx & Hc) [-> ->]. destruct Hold as [E|E]; rewrite E in Hx; [done|].
    apply (inj Some) in Hx. subst x. by apply tomb_not_committed. }
  assert (∀ V t c, ver_ok V → cleaned_upto m V t c → cleaned_upto m' V t c) as Cl.
  { intros V1 t c HV1. apply cleaned_upto_mono. intros F1 HF1 _. by apply B1. }
  split; cbn [add_freed g_begun g_committed g_parts g_appended g_freed g_cursors]; [| | | |exact (r_committed_ok _ _ Hr)|exact (r_appended_ok _ _ Hr)
    | |exact (r_parts_ok _ _ Hr)|exact (r_cursors_ok _ _ Hr)|..].
  - intros V1 HV1. rewrite A1. by apply (r_marker_begun _ _ Hr).
  - intros V1 F1 HV1 HF1. rewrite R' by done. destruct (decide (V1 = V ∧ F1 = F)) as [[-> ->]|D]; [done|]. by apply (r_rlog_begun _ _ Hr).
  - intros V1 F1 HV1 HF1. rewrite A5. by apply (r_occ_begun _ _ Hr).
  - intros V1 t HV1 Ht. rewrite A1, A2. by apply (r_presence_marker _ _ Hr).
  - intros V1 F1 [[-> ->]%pair_equal_spec|Hf]%elem_of_cons; [done|by apply (r_freed_ok _ _ Hr)].
  - intros V1 x HV1. rewrite A1. by apply (r_marker_value _ _ Hr).
  - intros V1 F1 x HV1 HF1. rewrite R' by done. destruct (decide (V1 = V ∧ F1 = F)) as [_|D]; [|by apply (r_rlog_value _ _ Hr)].
    intros E%(inj Some). by left.
  - intros q Hq. rewrite (S' PENDING) by (done || (rewrite !elem_of_cons; tauto)). by apply (r_pending_keys _ _ Hr).
  - intros b k x Hb Hk. rewrite A6. by apply (r_head _ _ Hr).
  - intros b k V1 F1 Hb Hk HV1 Hl%B4 Hp. destruct (r_live_parts _ _ Hr b k V1 F1 Hb Hk HV1 Hl Hp) as [H1 H2].
    assert (frag_ok F1) as HF1 by by apply (r_parts_ok _ _ Hr V1 F1). split; [by apply B1|].
    intros [E%pair_equal_spec|Hf]%elem_of_cons; [by apply (Hne V1 F1 HV1 HF1 H1)|done].
  - intros b k b' k' V1. rewrite !B4. by apply (r_live_unique _ _ Hr).
  - intros V1. rewrite A1. by apply (r_committed_unmarked _ _ Hr).
  - intros V1 F1 HV1 Hw%B2 Ha. destruct (r_writing_rows _ _ Hr V1 F1 HV1 Hw Ha) as [H1 H2].
    assert (frag_ok F1) as HF1 by by apply (r_appended_ok _ _ Hr V1 F1). split; [by apply B1|].
    intros [E%pair_equal_spec|Hf]%elem_of_cons; [by apply (Hne V1 F1 HV1 HF1 H1)|done].
  - intros V1 F1 HV1 HF1 Hw%B2 Hx. destruct (decide (V1 = V)) as [->|D]; [by apply (F' V HV)|].
    destruct (F' V1 HV1) as [_ ->]; [|done]. rewrite R', decide_False in Hx by tauto. by apply (r_writing_fenced _ _ Hr V1 F1).
  - intros V1 F1 Hf Hc. apply elem_of_cons in Hf as [[-> ->]%pair_equal_spec|Hf]; [rewrite R' by done; by rewrite decide_True|].
    destruct (r_freed_ok _ _ Hr V1 F1 Hf) as (HV1 & HF1 & _). rewrite R' by done.
    destruct (decide (V1 = V ∧ F1 = F)); [done|]. by apply (r_freed_tomb _ _ Hr).
  - intros V1 F1 HV1 HF1. rewrite A1, A5, B1 by done. by apply (r_reaped _ _ Hr).
  - intros V1 F1 HV1 HF1. rewrite A1, A5, A2, B1 by done. by apply (r_presence _ _ Hr).
  - intros V1 t x HV1 Ht. rewrite B2, A2. by apply (r_writing_presence _ _ Hr).
  - intros V1 t c HV1. rewrite B2. by apply (r_writing_cursors _ _ Hr).
  - intros V1 t c HV1 Ht Hrec%B3. rewrite A2. intros Hx Hne'. apply Cl; [done|]. by apply (r_presence_cursor _ _ Hr).
  - intros V1 t c HV1 Hrec%B3 Hx. apply Cl; [done|]. by apply (r_cursors _ _ Hr).
Qed.

(** ** Cleaning *)

Definition add_cursor (V : Version) (t : list byte) (page : OrphanVersionCleanPage) (g : Ghost) : Ghost :=
  mkGhost (g_begun g) (g_committed g) (g_parts g) (g_appended g) (g_freed g)
    (match cp_next_cursor page with Some c => (V, t, c) :: g_cursors g | None => g_cursors g end).

(** The rows a cleaned page leaves behind its cursor. *)
Lemma clean_behind m m' V t cur page :
  ver_ok V → clean_effect V t cur page m m' → (∀ c, cur = Some c → cleaned_upto m V t c) →
  ∀ F, frag_ok F → F.1.1 = t → ¬ past cur (rk V F) → ¬ committed_row m' V F.
Proof.
  intros HV He Hcur F HF HFt Hp (x & Hx & Hc). destruct cur as [c|]; [|by apply Hp].
  destruct (Hcur c eq_refl) as [_ Hcl]. cbn [past] in Hp. apply not_true_is_false in Hp.
  apply (Hcl F HF HFt Hp). destruct (cl_rlog _ _ _ _ _ _ He V F HV HF) as [E|(_ & _ & E & _)]; [|congruence].
  exists x. by rewrite <-E.
Qed.

Lemma past_dec cur q : past cur q ∨ ¬ past cur q.
Proof. destruct cur as [c|]; cbn [past]; [|by left]. destruct (bytes_ltb c q); [by left|by right]. Qed.

Lemma Rows_clean m m' g V t cur page :
  Rows m g → ver_ok V → seg_ok t → utf8_valid t = true → reclaiming m V → clean_effect V t cur page m m' →
  (∀ c, cur = Some c → cleaned_upto m V t c) → Rows m' (add_cursor V t page g).
Proof.
  intros Hr HV Ht Hu Hrec He Hcur. pose proof (clean_behind m m' V t cur page HV He Hcur) as Hb. destruct He as [R' O' K' D' N' S' Hdn].
  assert (∀ V', ver_ok V' → marker m' V' = marker m V') as A1 by (intros; apply K'; [done|]; by apply mk_pk).
  assert (∀ V' t', ver_ok V' → seg_ok t' → ¬ (V' = V ∧ t' = t) → presence m' V' t' = presence m V' t') as A2.
  { intros V1 t1 HV1 Ht1 Hn. apply K'; [done|]. intros E. by apply pk_inj in E. }
  assert (∀ b k, head m' b k = head m b k) as A6 by (intros; by apply same_head, S').
  assert (∀ V, fence m' V = fence m V) as A3 by (intros; by apply same_fence, S').
  assert (∀ V', ver_ok V' → writing m' V' ↔ writing m V') as B2 by (intros; by apply writing_eq, A1).
  assert (∀ V', ver_ok V' → reclaiming m' V' ↔ reclaiming m V') as B3 by (intros; by apply reclaiming_eq, A1).
  assert (∀ b k V, live_at m' b k V ↔ live_at m b k V) as B4 by (intros; by apply live_at_eq).
  assert (∀ V' F, ver_ok V' → frag_ok F → V' ≠ V → rlog m' V' F = rlog m V' F ∧ occ m' V' F = occ m V' F) as Ro.
  { intros V1 F HV1 HF Hne. split; [by destruct (R' V1 F HV1 HF) as [?|[? _]]|by destruct (O' V1 F HV1 HF) as [?|[? _]]]. }
  assert (∀ V' F, ver_ok V' → frag_ok F → committed_row m' V' F → committed_row m V' F) as Sub.
  { intros V1 F HV1 HF (x & Hx & Hc). destruct (R' V1 F HV1 HF) as [E|(_ & _ & E & _)]; [|congruence]. exists x. by rewrite <-E. }
  assert (V ∉ g_committed g) as Hnc.
  { intros Hc. apply reclaiming_marker in Hrec. by rewrite (r_committed_unmarked _ _ Hr V Hc) in Hrec. }
  assert (∀ c, cp_next_cursor page = Some c → cleaned_upto m' V t c) as Hnew.
  { intros c Hc. destruct (cp_target_done page) eqn:Ed; [by rewrite Hdn in Hc|].
    destruct (N' eq_refl) as [[_ ?]|(c' & E & _ & Hpf & Hcl)]; [congruence|]. assert (c' = c) as -> by congruence. split; [done|].
    intros F HF HFt Hle. destruct (past_dec cur (rk V F)) as [Hp|Hp]; [|by apply Hb]. intros (x & Hx & Hcx). by apply (Hcl F HF HFt Hp Hle x). }
  assert (∀ V' t' c, (V', t', c) ∈ g_cursors (add_cursor V t page g) →
    (V', t', c) ∈ g_cursors g ∨ (V' = V ∧ t' = t ∧ cp_next_cursor page = Some c)) as Cu.
  { intros V1 t1 c. cbn. destruct (cp_next_cursor page) as [c1|]; [|by left]. intros [E|?]%elem_of_cons; [right|by left]. by injection E as -> -> ->. }
  split; [| | | |exact (r_committed_ok _ _ Hr)|exact (r_appended_ok _ _ Hr)|exact (r_freed_ok _ _ Hr)|exact (r_parts_ok _ _ Hr)|..].
  - intros V1 HV1. rewrite A1 by done. by apply (r_marker_begun _ _ Hr).
  - intros V1 F HV1 HF Hx. apply (r_rlog_begun _ _ Hr V1 F); [done..|]. destruct (R' V1 F HV1 HF) as [E|(_ & _ & E & _)]; congruence.
  - intros V1 F HV1 HF Hx. apply (r_occ_begun _ _ Hr V1 F); [done..|]. destruct (O' V1 F HV1 HF) as [E|(_ & _ & E)]; congruence.
  - intros V1 t1 HV1 Ht1 Hx. rewrite A1 by done. destruct (decide (V1 = V ∧ t1 = t)) as [[-> ->]|Hn]; [by apply reclaiming_marker|].
    rewrite A2 in Hx by done. by apply (r_presence_marker _ _ Hr V1 t1).
  - intros V1 t1 c [Hc|(-> & -> & _)]%Cu; [by apply (r_cursors_ok _ _ Hr V1 t1 c)|]. split; [done|].
    apply (r_marker_begun _ _ Hr); [done|by apply reclaiming_marker].
  - intros V1 x HV1. rewrite A1 by done. by apply (r_marker_value _ _ Hr).
  - intros V1 F x HV1 HF Hx. apply (r_rlog_value _ _ Hr V1 F); [done..|]. destruct (R' V1 F HV1 HF) as [E|(_ & _ & E & _)]; congruence.
  - intros q Hq Hx. destruct (decide (q = pk V t)) as [->|Hne]; [right; by exists V, t|]. rewrite K' in Hx by done. by apply (r_pending_keys _ _ Hr).
  - intros b k x Hb' Hk. rewrite A6. by apply (r_head _ _ Hr).
  - intros b k V1 F Hb' Hk HV1 Hl%B4 Hp. assert (V1 ≠ V) as Hne by (intros ->; by apply Hnc, (live_committed m g b k V)).
    rewrite (committed_row_eq m) by (apply Ro; [done|by apply (r_parts_ok _ _ Hr V1 F)|done]). by apply (r_live_parts _ _ Hr b k V1 F).
  - intros b k b' k' V1. rewrite !B4. by apply (r_live_unique _ _ Hr).
  - intros V1 Hc. rewrite A1 by by apply (r_committed_ok _ _ Hr). by apply (r_committed_unmarked _ _ Hr).
  - intros V1 F HV1 Hw%B2 Ha; [|done]. assert (V1 ≠ V) as Hne by (intros ->; by eapply writing_not_reclaiming).
    rewrite (committed_row_eq m) by (apply Ro; [done|by apply (r_appended_ok _ _ Hr V1 F)|done]). by apply (r_writing_rows _ _ Hr).
  - intros V1 F HV1 HF Hw%B2 Hx; [|done]. assert (V1 ≠ V) as Hne by (intros ->; by eapply writing_not_reclaiming).
    rewrite A3. destruct (Ro V1 F HV1 HF Hne) as [E _]. rewrite E in Hx. by apply (r_writing_fenced _ _ Hr V1 F).
  - intros V1 F Hf Hc. destruct (r_freed_ok _ _ Hr V1 F Hf) as (HV1 & HF & _). pose proof (r_freed_tomb _ _ Hr V1 F Hf Hc) as Htm.
    destruct (R' V1 F HV1 HF) as [E|(_ & _ & _ & x & E & Hcx)]; [congruence|]. rewrite Htm in E. apply (inj Some) in E. subst x.
    by apply tomb_not_committed in Hcx.
  - intros V1 F HV1 HF Hc Hm. rewrite A1 in Hm by done. destruct (r_reaped _ _ Hr V1 F HV1 HF Hc Hm) as [H1 H2].
    split; [by intros ?%Sub|]. destruct (O' V1 F HV1 HF) as [E|(_ & _ & E)]; congruence.
  - intros V1 F HV1 HF Hm Hx. rewrite A1 in Hm by done. destruct (decide (V1 = V ∧ F.1.1 = t)) as [[-> HFt]|Hn].
    + rewrite HFt. destruct (cp_target_done page) eqn:Ed.
      * exfalso. destruct (D' eq_refl) as [_ Hcl]. destruct (Hcl F HF HFt) as [Ho Hcl']. destruct Hx as [Hx|Hx]; [|done].
        destruct (past_dec cur (rk V F)) as [Hp|Hp]; [|by apply (Hb F HF HFt Hp)]. destruct Hx as (x & Hx & Hcx). by apply (Hcl' Hp x).
      * destruct (N' eq_refl) as [[E _]|(c & _ & E & _)]; [|by rewrite E]. rewrite E, <-HFt. apply (r_presence _ _ Hr); [done..|].
        destruct Hx as [Hx|Hx]; [left; by apply Sub|right]. destruct (O' V F HV HF) as [E'|(_ & _ & E')]; congruence.
    + rewrite A2 by (done || apply HF). apply (r_presence _ _ Hr); [done..|].
      destruct Hx as [Hx|Hx]; [left; by apply Sub|right]. destruct (O' V1 F HV1 HF) as [E'|(_ & _ & E')]; congruence.
  - intros V1 t1 x HV1 Ht1 Hw%B2 Hx; [|done]. assert (V1 ≠ V) as Hne by (intros ->; by eapply writing_not_reclaiming).
    rewrite A2 in Hx by (done || tauto). by apply (r_writing_presence _ _ Hr V1 t1).
  - intros V1 t1 c HV1 Hw%B2 [Hc|(-> & -> & _)]%Cu; [| |done]; [by apply (r_writing_cursors _ _ Hr V1 t1 c)|by eapply writing_not_reclaiming].
  - intros V1 t1 c HV1 Ht1 Hrec1%B3 Hx Hne; [|done]. destruct (decide (V1 = V ∧ t1 = t)) as [[-> ->]|Hn].
    + destruct (cp_target_done page) eqn:Ed; [destruct (D' eq_refl) as [E _]; congruence|].
      destruct (N' eq_refl) as [[E _]|(c' & Ec & E & _)].
      * eapply cleaned_upto_mono; [intros F HF _; by apply Sub|]. apply (r_presence_cursor _ _ Hr); [done..|congruence|done].
      * apply Hnew. congruence.
    + rewrite A2 in Hx by done. eapply cleaned_upto_mono; [intros F HF _; by apply Sub|]. by apply (r_presence_cursor _ _ Hr).
  - intros V1 t1 c HV1 Hrec1%B3 [Hc|(-> & -> & Hc)]%Cu; [| |done]; [|by apply Hnew].
    eapply cleaned_upto_mono; [intros F HF _; by apply Sub|]. by apply (r_cursors _ _ Hr).
Qed.

(** ** Finishing *)

Lemma Rows_finish m g V :
  Rows m g → ver_ok V → reclaiming m V → (∀ t, seg_ok t → presence m V t = None) →
  Rows (kv_clear (fk V) (kv_clear_range (mk V) (prefix_end (mk V)) m)) g.
Proof.
  intros Hr HV Hrec Hnone. set (m1 := kv_clear_range _ _ m). set (m' := kv_clear _ m1).
  assert (∀ p, p ≠ FENCES → same p m1 m') as S1 by (intros p Hp; apply same_clear; intros [= E]; by apply Hp).
  assert (∀ p, p ≠ PENDING → same p m m1) as S0 by (intros p Hp; by apply same_clear_prefix).
  assert (∀ p, p ∈ [HEADS; RLOG; OCC] → same p m m') as SS.
  { intros p Hp. rewrite !elem_of_cons, elem_of_nil in Hp. apply (same_trans _ m m1); [apply S0|apply S1]; by destruct Hp as [->|[->|[->|[]]]]. }
  assert (∀ V', ver_ok V' → marker m' V' = if decide (V' = V) then None else marker m V') as A1.
  { intros V1 HV1. rewrite (same_marker m1) by by apply S1. by apply clear_subspace_marker. }
  assert (∀ V' t, ver_ok V' → seg_ok t → presence m' V' t = if decide (V' = V) then None else presence m V' t) as A2.
  { intros V1 t HV1 Ht. rewrite (same_presence m1) by by apply S1. by apply clear_subspace_presence. }
  assert (∀ V', ver_ok V' → V' ≠ V → fence m' V' = fence m V') as A3.
  { intros V1 HV1 Hne. unfold m'. rewrite clear_fence, decide_False by done. by apply same_fence, S0. }
  assert (∀ V' F, rlog m' V' F = rlog m V' F) as A4 by (intros; apply same_rlog, SS; rewrite !elem_of_cons; tauto).
  assert (∀ V' F, occ m' V' F = occ m V' F) as A5 by (intros; apply same_occ, SS; rewrite !elem_of_cons; tauto).
  assert (∀ b k, head m' b k = head m b k) as A6 by (intros; apply same_head, SS; by left).
  assert (∀ V F, committed_row m' V F ↔ committed_row m V F) as B1 by (intros; by apply committed_row_eq).
  assert (∀ b k V, live_at m' b k V ↔ live_at m b k V) as B4 by (intros; by apply live_at_eq).
  assert (∀ V', ver_ok V' → marker m' V' ≠ None → V' ≠ V ∧ marker m' V' = marker m V') as Mn.
  { intros V1 HV1. rewrite A1 by done. by destruct (decide (V1 = V)). }
  assert (∀ V', ver_ok V' → writing m' V' → V' ≠ V ∧ writing m V') as Wr.
  { intros V1 HV1 Hw. destruct (Mn V1 HV1 (writing_marker _ _ Hw)) as [Hne E]. split; [done|]. by apply (writing_eq m m'). }
  assert (∀ V', ver_ok V' → reclaiming m' V' → V' ≠ V ∧ reclaiming m V') as Rc.
  { intros V1 HV1 Hw. destruct (Mn V1 HV1 (reclaiming_marker _ _ Hw)) as [Hne E]. split; [done|]. by apply (reclaiming_eq m m'). }
  assert (∀ V t c, cleaned_upto m V t c → cleaned_upto m' V t c) as Cl by (intros V1 t c; apply cleaned_upto_mono; intros F _ _; by apply B1).
  split; [| | | |exact (r_committed_ok _ _ Hr)|exact (r_appended_ok _ _ Hr)|exact (r_freed_ok _ _ Hr)|exact (r_parts_ok _ _ Hr)
    |exact (r_cursors_ok _ _ Hr)|..].
  - intros V1 HV1 Hm. destruct (Mn V1 HV1 Hm) as [_ E]. rewrite E in Hm. by apply (r_marker_begun _ _ Hr).
  - intros V1 F HV1 HF. rewrite A4. by apply (r_rlog_begun _ _ Hr).
  - intros V1 F HV1 HF. rewrite A5. by apply (r_occ_begun _ _ Hr).
  - intros V1 t HV1 Ht. rewrite A2, A1 by done. destruct (decide (V1 = V)); [done|]. by apply (r_presence_marker _ _ Hr).
  - intros V1 x HV1 Hx. destruct (Mn V1 HV1) as [_ E]; [by rewrite Hx|]. rewrite E in Hx. by apply (r_marker_value _ _ Hr V1).
  - intros V1 F x HV1 HF. rewrite A4. by apply (r_rlog_value _ _ Hr).
  - intros q Hq Hx. apply (r_pending_keys _ _ Hr); [done|]. rewrite (S1 PENDING) in Hx by done. unfold m1 in Hx.
    rewrite kv_get_clear_range in Hx. by destruct (in_range _ _ _).
  - intros b k x Hb Hk. rewrite A6. by apply (r_head _ _ Hr).
  - intros b k V1 F Hb Hk HV1. rewrite B4, B1. by apply (r_live_parts _ _ Hr).
  - intros b k b' k' V1. rewrite !B4. by apply (r_live_unique _ _ Hr).
  - intros V1 Hc. rewrite A1 by by apply (r_committed_ok _ _ Hr). destruct (decide (V1 = V)); [done|]. by apply (r_committed_unmarked _ _ Hr).
  - intros V1 F HV1 [_ Hw]%Wr Ha; [|done]. rewrite B1. by apply (r_writing_rows _ _ Hr).
  - intros V1 F HV1 HF [Hne Hw]%Wr; [|done]. rewrite A4, A3 by done. by apply (r_writing_fenced _ _ Hr).
  - intros V1 F. rewrite A4. by apply (r_freed_tomb _ _ Hr).
  - intros V1 F HV1 HF Hc. rewrite A1, B1, A5 by done. destruct (decide (V1 = V)) as [->|Hne]; [|by apply (r_reaped _ _ Hr)].
    intros _. assert (¬ (committed_row m V F ∨ occ m V F ≠ None)) as Hn.
    { intros Hx. apply (r_presence _ _ Hr V F HV HF (reclaiming_marker _ _ Hrec)) in Hx. by rewrite Hnone in Hx by apply HF. }
    split; [tauto|]. destruct (occ m V F); [exfalso; apply Hn; by right|done].
  - intros V1 F HV1 HF Hm. destruct (Mn V1 HV1 Hm) as [Hne E]. rewrite E in Hm. rewrite B1, A5, A2, decide_False by (done || apply HF).
    by apply (r_presence _ _ Hr).
  - intros V1 t x HV1 Ht [Hne Hw]%Wr; [|done]. rewrite A2, decide_False by done. by apply (r_writing_presence _ _ Hr).
  - intros V1 t c HV1 [Hne Hw]%Wr; [|done]. by apply (r_writing_cursors _ _ Hr).
  - intros V1 t c HV1 Ht [Hne Hrec1]%Rc; [|done]. rewrite A2, decide_False by done. intros. apply Cl. by apply (r_presence_cursor _ _ Hr).
  - intros V1 t c HV1 [Hne Hrec1]%Rc Hx; [|done]. apply Cl. by apply (r_cursors _ _ Hr).
Qed.

(** ** Fences *)

Lemma Rows_fences m m' g :
  Rows m g → (∀ p, p ∈ [HEADS; PENDING; RLOG; OCC] → same p m m') →
  (∀ V, ver_ok V → writing m V → fence m V ≠ None → fence m' V ≠ None) → Rows m' g.
Proof.
  intros Hr Hs Hf.
  assert (∀ V, marker m' V = marker m V) as A1 by (intros; apply same_marker, Hs; rewrite !elem_of_cons; tauto).
  assert (∀ V t, presence m' V t = presence m V t) as A2 by (intros; apply same_presence, Hs; rewrite !elem_of_cons; tauto).
  assert (∀ V F, rlog m' V F = rlog m V F) as A4 by (intros; apply same_rlog, Hs; rewrite !elem_of_cons; tauto).
  assert (∀ V F, occ m' V F = occ m V F) as A5 by (intros; apply same_occ, Hs; rewrite !elem_of_cons; tauto).
  assert (∀ b k, head m' b k = head m b k) as A6 by (intros; apply same_head, Hs; rewrite !elem_of_cons; tauto).
  assert (∀ V F, committed_row m' V F ↔ committed_row m V F) as B1 by (intros; by apply committed_row_eq).
  assert (∀ V, writing m' V ↔ writing m V) as B2 by (intros; by apply writing_eq).
  assert (∀ V, reclaiming m' V ↔ reclaiming m V) as B3 by (intros; by apply reclaiming_eq).
  assert (∀ b k V, live_at m' b k V ↔ live_at m b k V) as B4 by (intros; by apply live_at_eq).
  assert (∀ V t c, cleaned_upto m V t c → cleaned_upto m' V t c) as B5 by (intros V t c; apply cleaned_upto_mono; intros F _ _; by apply B1).
  destruct Hr. split; intros; rewrite ?A1, ?A2, ?A4, ?A5, ?A6, ?B1, ?B2, ?B3, ?B4 in *; eauto.
  assert (kv_get q m ≠ None); [|eauto]. rewrite <-(Hs PENDING); [done| |done]. rewrite !elem_of_cons. tauto.
Qed.

(** ** Deleting *)

Lemma Rows_delete m m' g V b k :
  Rows m g → ver_ok V → seg_ok b → seg_ok k → live_at m b k V → delete_effect (Some V) b k m m' → Rows m' g.
Proof.
  intros Hr HV Hb Hk Hlive [H' R' O' S']. pose proof (live_committed m g b k V Hr Hb Hk HV Hlive) as Hc.
  pose proof (r_committed_unmarked _ _ Hr V Hc) as Hum.
  assert (∀ V', marker m' V' = marker m V') as A1 by (intros; apply same_marker, S'; by left).
  assert (∀ V' t, presence m' V' t = presence m V' t) as A2 by (intros; apply same_presence, S'; by left).
  assert (∀ V', fence m' V' = fence m V') as A3 by (intros; apply same_fence, S'; right; by left).
  assert (∀ V' F, ver_ok V' → frag_ok F → V' ≠ V → rlog m' V' F = rlog m V' F) as A4.
  { intros V1 F HV1 HF Hne. destruct (R' V1 F HV1 HF) as [?|[E _]]; [done|]. by injection E as ->. }
  assert (∀ V' F, ver_ok V' → frag_ok F → occ m' V' F ≠ None → occ m V' F ≠ None) as A5.
  { intros V1 F HV1 HF. by destruct (O' V1 F HV1 HF) as [-> | ->]. }
  assert (∀ V, writing m' V ↔ writing m V) as B2 by (intros; by apply writing_eq).
  assert (∀ V, reclaiming m' V ↔ reclaiming m V) as B3 by (intros; by apply reclaiming_eq).
  assert (∀ V', marker m V' ≠ None → V' ≠ V) as Mn by (by intros V1 Hm ->).
  assert (∀ V' F, ver_ok V' → frag_ok F → V' ≠ V → committed_row m' V' F ↔ committed_row m V' F) as B1.
  { intros V1 F HV1 HF Hne. by apply committed_row_eq, A4. }
  assert (∀ b' k' V', seg_ok b' → seg_ok k' → ver_ok V' → live_at m' b' k' V' → live_at m b' k' V' ∧ V' ≠ V) as Lv.
  { intros b1 k1 V1 Hb1 Hk1 HV1 Hl. assert (¬ (b1 = b ∧ k1 = k)) as Hn.
    { intros [-> ->]. destruct Hl as (x & h & E & _). by rewrite H', decide_True in E. }
    assert (live_at m b1 k1 V1) as Hl' by (apply (live_at_eq m m'); [by rewrite H', decide_False|done]). split; [done|].
    intros ->. by apply Hn, (r_live_unique _ _ Hr b1 k1 b k V). }
  assert (∀ V' t c, ver_ok V' → V' ≠ V → cleaned_upto m V' t c → cleaned_upto m' V' t c) as Cl.
  { intros V1 t c HV1 Hne. apply cleaned_upto_mono. intros F HF _. by apply B1. }
  split; [| | | |exact (r_committed_ok _ _ Hr)|exact (r_appended_ok _ _ Hr)|exact (r_freed_ok _ _ Hr)|exact (r_parts_ok _ _ Hr)
    |exact (r_cursors_ok _ _ Hr)|..].
  - intros V1 HV1. rewrite A1. by apply (r_marker_begun _ _ Hr).
  - intros V1 F HV1 HF Hx. apply (r_rlog_begun _ _ Hr V1 F); [done..|]. destruct (R' V1 F HV1 HF) as [E|[_ E]]; congruence.
  - intros V1 F HV1 HF Hx. apply (r_occ_begun _ _ Hr V1 F); [done..|]. by apply A5.
  - intros V1 t HV1 Ht. rewrite A1, A2. by apply (r_presence_marker _ _ Hr).
  - intros V1 x HV1. rewrite A1. by apply (r_marker_value _ _ Hr).
  - intros V1 F x HV1 HF Hx. apply (r_rlog_value _ _ Hr V1 F); [done..|]. destruct (R' V1 F HV1 HF) as [E|[_ E]]; congruence.
  - intros q Hq. rewrite (S' PENDING) by (done || by left). by apply (r_pending_keys _ _ Hr).
  - intros b1 k1 x Hb1 Hk1 Hx. apply (r_head _ _ Hr b1 k1 x Hb1 Hk1). rewrite H' in Hx by done.
    by destruct (decide (b1 = b ∧ k1 = k)).
  - intros b1 k1 V1 F Hb1 Hk1 HV1 Hl Hp. destruct (Lv b1 k1 V1 Hb1 Hk1 HV1 Hl) as [Hl' Hne].
    rewrite B1 by (done || by apply (r_parts_ok _ _ Hr V1 F)). by apply (r_live_parts _ _ Hr b1 k1).
  - intros b1 k1 b2 k2 V1 Hb1 Hk1 Hb2 Hk2 HV1 L1 L2. destruct (Lv b1 k1 V1 Hb1 Hk1 HV1 L1) as [L1' _], (Lv b2 k2 V1 Hb2 Hk2 HV1 L2) as [L2' _].
    by apply (r_live_unique _ _ Hr b1 k1 b2 k2 V1).
  - intros V1. rewrite A1. by apply (r_committed_unmarked _ _ Hr).
  - intros V1 F HV1 Hw%B2 Ha. rewrite B1; [by apply (r_writing_rows _ _ Hr)|done|by apply (r_appended_ok _ _ Hr V1 F)|by apply Mn, writing_marker].
  - intros V1 F HV1 HF Hw%B2. rewrite A3, A4 by (done || by apply Mn, writing_marker). by apply (r_writing_fenced _ _ Hr).
  - intros V1 F Hf Hn. destruct (r_freed_ok _ _ Hr V1 F Hf) as (HV1 & HF & _). rewrite A4; [by apply (r_freed_tomb _ _ Hr)|done|done|by intros ->].
  - intros V1 F HV1 HF Hn. rewrite A1. intros Hm. destruct (r_reaped _ _ Hr V1 F HV1 HF Hn Hm) as [H1 H2].
    rewrite B1 by (done || by intros ->). split; [done|]. destruct (O' V1 F HV1 HF) as [E|E]; congruence.
  - intros V1 F HV1 HF. rewrite A1, A2. intros Hm. rewrite B1 by (done || by apply Mn). intros Hx. apply (r_presence _ _ Hr); [done..|].
    destruct Hx as [?|Hx]; [by left|right; by apply A5].
  - intros V1 t x HV1 Ht. rewrite B2, A2. by apply (r_writing_presence _ _ Hr).
  - intros V1 t c HV1. rewrite B2. by apply (r_writing_cursors _ _ Hr).
  - intros V1 t c HV1 Ht Hrec%B3. rewrite A2. intros. apply Cl; [done|by apply Mn, reclaiming_marker|]. by apply (r_presence_cursor _ _ Hr).
  - intros V1 t c HV1 Hrec%B3 Hx. apply Cl; [done|by apply Mn, reclaiming_marker|]. by apply (r_cursors _ _ Hr).
Qed.
End keep.
