(* ===== verification/KmsAlloc.v ===== *)
(** Object ids: the shared counter and the block each process hands ids out of. *)
From S2P Require Import Prelude Bytes Fdb KmsKeys KmsValues KmsStore KmsViews KmsEffects.

Section alloc.
Context {KV : Type} {Hdb : Fdb KV} {Hlaws : FdbLaws KV}.

Definition counter (m : KV) : Z := from_option counter_value 0 (kv_get object_id_counter_key m).

Definition in_block (b : ObjectIdBlock) (x : Z) : Prop := oib_next b ≤ x < oib_end b.

(** One process's block after an allocation. *)
Definition set_block (p : nat) (b : ObjectIdBlock) (blocks : nat → ObjectIdBlock) : nat → ObjectIdBlock :=
  fun q => if decide (q = p) then b else blocks q.

(** The blocks of all processes against the ids handed out so far. *)
Record Ids (m : KV) (blocks : nat → ObjectIdBlock) (handed : list Z) : Prop := {
  i_counter : 0 ≤ counter m < u32_max;
  i_block : ∀ p x, in_block (blocks p) x → 1 ≤ x ≤ counter m;
  i_disjoint : ∀ p q x, in_block (blocks p) x → in_block (blocks q) x → p = q;
  i_unused : ∀ p x, in_block (blocks p) x → x ∉ handed;
  i_used : ∀ x, x ∈ handed → 1 ≤ x ≤ counter m;
  i_once : NoDup handed;
}.

Lemma same_counter m m' : same COUNTER m m' → counter m' = counter m.
Proof. intros Hs. unfold counter. rewrite (Hs object_id_counter_key); [done|reflexivity]. Qed.

Lemma Ids_same m m' blocks handed : same COUNTER m m' → Ids m blocks handed → Ids m' blocks handed.
Proof. intros Hs [? ? ? ? ? ?]. split; rewrite ?(same_counter m m' Hs); done. Qed.

(** A process that restarts forgets its block; the ids left in it are never used. *)
Lemma Ids_restart m blocks handed p : Ids m blocks handed → Ids m (set_block p ObjectIdBlock_default blocks) handed.
Proof.
  assert (∀ x, ¬ in_block ObjectIdBlock_default x) as He by (unfold in_block; cbn; lia).
  intros [I1 I2 I3 I4 I5 I6]. split; [done|..|done|done]; unfold set_block.
  - intros q x. destruct (decide (q = p)); [by intros ?%He|apply I2].
  - intros q r x. destruct (decide (q = p)); [by intros ?%He|]. destruct (decide (r = p)); [by intros _ ?%He|apply I3].
  - intros q x. destruct (decide (q = p)); [by intros ?%He|apply I4].
Qed.

(** Handing out the next id of a block that has one. *)
Lemma Ids_hand_out m blocks handed p :
  Ids m blocks handed → oib_next (blocks p) < oib_end (blocks p) →
  Ids m (set_block p (mkObjectIdBlock (Z.min u32_max (oib_next (blocks p) + 1)) (oib_end (blocks p))) blocks)
    (oib_next (blocks p) :: handed).
Proof.
  intros [I1 I2 I3 I4 I5 I6] Hlt. set (n := oib_next (blocks p)) in *. set (e := oib_end (blocks p)) in *.
  assert (in_block (blocks p) n) as Hn by (unfold in_block; fold n e; lia).
  assert (in_block (blocks p) (e - 1)) as Hlast by (unfold in_block; fold n e; lia).
  pose proof (I2 p n Hn) as Hr. pose proof (I2 p _ Hlast) as He.
  replace (Z.min u32_max (n + 1)) with (n + 1) by lia.
  assert (∀ x, in_block (mkObjectIdBlock (n + 1) e) x → in_block (blocks p) x ∧ x ≠ n) as Hsub.
  { unfold in_block. cbn [oib_next oib_end]. fold n e. lia. }
  split; [done|unfold set_block..| |].
  - intros q x. destruct (decide (q = p)); [intros [? _]%Hsub; eauto|apply I2].
  - intros q r x. destruct (decide (q = p)) as [->|Hq], (decide (r = p)) as [->|Hr']; [done|..|apply I3].
    + intros [H1 _]%Hsub H2. eauto.
    + intros H1 [H2 _]%Hsub. eauto.
  - intros q x. rewrite not_elem_of_cons. destruct (decide (q = p)) as [->|Hq].
    + intros [H1 H2]%Hsub. eauto.
    + intros Hx. split; [|eauto]. intros ->. apply Hq. eauto.
  - intros x [->|Hx]%elem_of_cons; [done|by apply I5].
  - constructor; [by eapply I4|done].
Qed.

Lemma counter_refill c m : 0 ≤ c < u32_max → counter (kv_set object_id_counter_key (le_bytes 4 c) m) = c.
Proof.
  intros Hc. unfold counter. rewrite kv_get_set, decide_True by done. cbn [from_option]. unfold counter_value.
  rewrite take_ge by (rewrite length_le_bytes; lia). rewrite length_le_bytes. cbn [Nat.sub replicate].
  rewrite app_nil_r. apply of_le_small. unfold fits, u32_max in *. change (8 * Z.of_nat 4) with 32. lia.
Qed.

(** A refill moves the counter past the new block, which no process has had. *)
Lemma Ids_refill m blocks handed p :
  Ids m blocks handed → counter m < u32_max - OBJECT_ID_BLOCK_SIZE →
  Ids (kv_set object_id_counter_key (le_bytes 4 (counter m + OBJECT_ID_BLOCK_SIZE)) m)
    (set_block p (mkObjectIdBlock (counter m + 1) (counter m + 1 + OBJECT_ID_BLOCK_SIZE)) blocks) handed.
Proof.
  intros [I1 I2 I3 I4 I5 I6] Hlt. unfold OBJECT_ID_BLOCK_SIZE in *.
  pose proof (counter_refill (counter m + 1024) m ltac:(lia)) as Hc.
  assert (∀ x, in_block (mkObjectIdBlock (counter m + 1) (counter m + 1 + 1024)) x → counter m + 1 ≤ x ≤ counter m + 1024) as Hb.
  { unfold in_block. cbn [oib_next oib_end]. lia. }
  split; rewrite ?Hc; [lia|unfold set_block..| |done].
  - intros q x. destruct (decide (q = p)); [intros ?%Hb; lia|intros ?%I2; lia].
  - intros q r x. destruct (decide (q = p)) as [->|Hq], (decide (r = p)) as [->|Hr']; [done|..|apply I3].
    + intros ?%Hb ?%I2. lia.
    + intros ?%I2 ?%Hb. lia.
  - intros q x. destruct (decide (q = p)); [intros ?%Hb ?%I5; lia|apply I4].
  - intros x ?%I5. lia.
Qed.

Lemma set_block_eq p b blocks : set_block p b blocks p = b.
Proof. unfold set_block. by rewrite decide_True. Qed.

Lemma set_block_twice p b b' blocks q : set_block p b (set_block p b' blocks) q = set_block p b blocks q.
Proof. unfold set_block. by destruct (decide (q = p)). Qed.

Lemma Ids_ext m blocks blocks' handed : (∀ q, blocks q = blocks' q) → Ids m blocks handed → Ids m blocks' handed.
Proof.
  intros E [I1 I2 I3 I4 I5 I6]. split; [done|..|done|done].
  - intros p x. rewrite <-E. apply I2.
  - intros p q x. rewrite <-!E. apply I3.
  - intros p x. rewrite <-E. apply I4.
Qed.

(** An allocation writes nothing but the counter. *)
Lemma allocate_frame b m b' m' r k :
  allocate_object_id (b, m) = ((b', m'), r) → k ≠ object_id_counter_key → kv_get k m' = kv_get k m.
Proof.
  unfold allocate_object_id. destruct (oib_end b <=? oib_next b).
  - unfold refill_txn, run. rewrite trx_get_bind. destruct (_ <=? _).
    { cbv [lift]. by intros [[_ <-]%pair_equal_spec _]%pair_equal_spec. }
    rewrite trx_set_bind. intros [[_ <-]%pair_equal_spec _]%pair_equal_spec Hk. by rewrite kv_get_set, decide_False.
  - by intros [[_ <-]%pair_equal_spec _]%pair_equal_spec.
Qed.

(** What an allocation does: a fresh id on success, nothing otherwise. *)
Lemma allocate_spec m blocks handed p blk m' r :
  Ids m blocks handed → allocate_object_id (blocks p, m) = ((blk, m'), r) →
  match r with
  | Ok id => Ids m' (set_block p blk blocks) (id :: handed)
  | Err _ => m' = m ∧ blk = blocks p
  end.
Proof.
  intros Hi. unfold allocate_object_id. destruct (Z.leb_spec (oib_end (blocks p)) (oib_next (blocks p))) as [Hle|Hlt].
  - unfold refill_txn, run. rewrite trx_get_bind. fold (counter m).
    destruct (Z.leb_spec (u32_max - OBJECT_ID_BLOCK_SIZE) (counter m)) as [Hx|Hx].
    { cbv [lift]. by intros [[= <- <-] <-]%pair_equal_spec. }
    rewrite trx_set_bind. intros [[<- <-]%pair_equal_spec <-]%pair_equal_spec.
    pose proof (Ids_refill m blocks handed p Hi Hx) as Hr. apply (Ids_hand_out _ _ _ p) in Hr.
    + rewrite !set_block_eq in Hr. eapply Ids_ext; [|exact Hr]. apply set_block_twice.
    + rewrite set_block_eq. cbn. unfold OBJECT_ID_BLOCK_SIZE. lia.
  - intros [[<- <-]%pair_equal_spec <-]%pair_equal_spec. by apply Ids_hand_out.
Qed.

(** An id that is not given to anyone. *)
Lemma Ids_forget m blocks handed id : Ids m blocks (id :: handed) → Ids m blocks handed.
Proof.
  intros [I1 I2 I3 I4 I5 I6]. split; [done..| | |].
  - intros p x Hx Hin. apply (I4 p x Hx). by right.
  - intros x Hx. apply I5. by right.
  - by apply NoDup_cons in I6 as [_ ?].
Qed.

Lemma Ids_id m blocks handed id : Ids m blocks (id :: handed) → is_u32 id ∧ 1 ≤ id < u32_max ∧ (id ∉ handed).
Proof.
  intros [I1 I2 I3 I4 I5 I6]. pose proof (I5 id ltac:(by left)) as Hr. apply NoDup_cons in I6 as [? _].
  split; [unfold fits, u32_max in *; lia|]. split; [lia|done].
Qed.
End alloc.
