(* ===== verification/KmsSystem.v ===== *)
(** The metadata service as a system: several processes, each with its block of object ids,
    run the operations of the store against one database, in any order. Every reachable
    state satisfies the invariant of the write protocol and of the id allocator. *)
From S2P Require Import Prelude Bytes Fdb KmsKeys KmsValues KmsStore KmsViews KmsEffects KmsReap KmsInv KmsKeep KmsAlloc.

(** ** Operations *)

Inductive KmsOp (KV : Type) : Type :=
| OpMint (bucket_id key : list byte)
| OpBegin (object_id object_version : Z) (bucket_id key : list byte) (expires : Z)
| OpBeginResolved (bucket_id key namespace_id bucket_entry_id bucket_path : list byte)
    (hint : option (list byte * list byte)) (expires : Z)
| OpRenew (object_id expires : Z)
| OpForfeit (object_id object_version : Z)
| OpAppend (version_id : list byte) (stripes : list StripeManifest) (expires : Z) (fenced : bool)
| OpCommit (uuid : list byte) (commit : SingleShotCommit)
| OpAuthorize (target_id : list byte) (object_id object_version stripe fragment now grace : Z)
| OpReapLeases (now grace limit : Z)
| OpClaim (object_id object_version now claim_grace lease_grace : Z)
| OpClean (object_id object_version : Z) (target_id : list byte) (cursor : option (list byte)) (limit : Z)
| OpFinish (object_id object_version : Z)
| OpSweep (snap : KV) (now older_than limit : Z) (cursor : option (list byte))
| OpBackfill (snap : KV) (now : Z) (start : list byte)
| OpDelete (bucket_id key namespace_id : list byte) (roster version_ids : list (list byte))
| OpSalt (random_salt : list byte)
| OpRegister (target : TargetRecord)
| OpHeartbeat (target_id : list byte) (healthy : bool) (observed : Z)
| OpLifecycle (target_id : list byte) (state now : Z).

Arguments OpMint {_} _ _.
Arguments OpBegin {_} _ _ _ _ _.
Arguments OpBeginResolved {_} _ _ _ _ _ _ _.
Arguments OpRenew {_} _ _.
Arguments OpForfeit {_} _ _.
Arguments OpAppend {_} _ _ _ _.
Arguments OpCommit {_} _ _.
Arguments OpAuthorize {_} _ _ _ _ _ _ _.
Arguments OpReapLeases {_} _ _ _.
Arguments OpClaim {_} _ _ _ _ _.
Arguments OpClean {_} _ _ _ _ _.
Arguments OpFinish {_} _ _.
Arguments OpSweep {_} _ _ _ _ _.
Arguments OpBackfill {_} _ _ _.
Arguments OpDelete {_} _ _ _ _ _.
Arguments OpSalt {_} _.
Arguments OpRegister {_} _.
Arguments OpHeartbeat {_} _ _ _.
Arguments OpLifecycle {_} _ _ _.

Inductive KmsReply : Type :=
| RUnit
| RMinted (object_id object_version : Z)
| RBegun (object_id object_version : Z) (parent_entry_id parent_path : list byte)
| RHead (head : ObjectHead)
| RDecision (decision : OrphanReclaimDecision)
| RClaim (claim : OrphanVersionClaim)
| RPage (page : OrphanVersionCleanPage)
| RFinished (finished : bool)
| RCount (count : Z) (cursor : option (list byte))
| RDeleted (deleted : DeletedObject)
| RSalt (salt : list byte)
| RTarget (target : TargetRecord).

Definition reply {S A : Type} (f : A → KmsReply) (t : M S Status A) : M S Status KmsReply := fun s =>
  let '(s', r) := t s in
  (s', match r with Ok a => Ok (f a) | Err e => Err e end).

(** An operation that leaves the block of ids alone. *)
Definition at_db {KV A : Type} (t : M KV Status A) : M (ObjectIdBlock * KV) Status A := fun s =>
  let '(m', r) := t s.2 in ((s.1, m'), r).

Lemma reply_Ok {S A} (f : A → KmsReply) (t : M S Status A) s s' r :
  reply f t s = (s', Ok r) → ∃ a, t s = (s', Ok a) ∧ r = f a.
Proof. unfold reply. destruct (t s) as [s1 [a|e]]; intros [= <- <-]. by exists a. Qed.

Lemma reply_Err {S A} (f : A → KmsReply) (t : M S Status A) s s' e :
  reply f t s = (s', Err e) → t s = (s', Err e).
Proof. unfold reply. destruct (t s) as [s1 [a|e']]; by intros [= <- <-]. Qed.

Lemma at_db_run {KV A} (t : M KV Status A) b m b' m' r :
  at_db t (b, m) = ((b', m'), r) → b' = b ∧ t m = (m', r).
Proof. unfold at_db. cbn. destruct (t m) as [m1 r1]. by intros [= <- <- <-]. Qed.

Section system.
Context {KV : Type} {Hdb : Fdb KV} {Hlaws : FdbLaws KV} {Hcodec : KmsCodec} {Hcodecl : KmsCodecLaws}.

Definition run_op (op : KmsOp KV) : M (ObjectIdBlock * KV) Status KmsReply :=
  match op with
  | OpMint b k => reply (fun x => RMinted x.1 x.2) (mint_object_id b k)
  | OpBegin id v b k e => reply (fun _ => RUnit) (at_db (begin_object_write id v b k e))
  | OpBeginResolved b k ns be bp hint e =>
      reply (fun '(id, v, pe, pp) => RBegun id v pe pp) (begin_object_write_resolved b k ns be bp hint e)
  | OpRenew id e => reply (fun _ => RUnit) (at_db (renew_object_write id e))
  | OpForfeit id v => reply (fun _ => RUnit) (at_db (forfeit_object_write id v))
  | OpAppend v stripes e fenced => reply (fun _ => RUnit) (at_db (append_manifest_segment v stripes e fenced))
  | OpCommit uuid c => reply RHead (at_db (commit_object_single_shot uuid c))
  | OpAuthorize t id v s f now grace => reply RDecision (at_db (authorize_orphan_reclaim t id v s f now grace))
  | OpReapLeases now grace limit => reply (fun n => RCount n None) (at_db (reap_expired_leases now grace limit))
  | OpClaim id v now cg lg => reply RClaim (at_db (claim_orphan_version id v now cg lg))
  | OpClean id v t cur limit => reply RPage (at_db (clean_orphan_version_target_page id v t cur limit))
  | OpFinish id v => reply RFinished (at_db (finish_orphan_version id v))
  | OpSweep snap now older limit cur =>
      reply (fun x => RCount x.1 x.2) (at_db (sweep_reclaim_fences snap now older limit cur))
  | OpBackfill snap now start => reply (fun x => RCount x.1 x.2) (at_db (backfill_page snap now start))
  | OpDelete b k ns roster vids => reply RDeleted (at_db (run (delete_txn b k ns roster vids)))
  | OpSalt salt => reply RSalt (at_db (get_or_init_cluster_salt salt))
  | OpRegister t => reply RTarget (at_db (register_target t))
  | OpHeartbeat t healthy now => reply RTarget (at_db (heartbeat_target t healthy now))
  | OpLifecycle t state now => reply RTarget (at_db (set_target_lifecycle t state now))
  end.

(** ** States *)

Record Sys := mkSys {
  s_db : KV;
  s_blocks : nat → ObjectIdBlock;
  s_handed : list Z;
  s_ghost : Ghost;
}.

Definition empty_ghost : Ghost := mkGhost [] [] [] [] [] [].

Definition sys_init (m : KV) : Sys := mkSys m (fun _ => ObjectIdBlock_default) [] empty_ghost.

Definition add_cursors (V : Version) (ts : list OrphanTargetResume) (g : Ghost) : Ghost :=
  mkGhost (g_begun g) (g_committed g) (g_parts g) (g_appended g) (g_freed g)
    (omap (fun t => c ← otr_cursor t; Some (V, otr_target_id t, c)) ts ++ g_cursors g).

(** What an acknowledged operation adds to the history. *)
Definition ghost_after (m : KV) (op : KmsOp KV) (r : result Status KmsReply) (g : Ghost) : Ghost :=
  match op, r with
  | OpBegin id _ _ _ _, Ok _ => add_begun id g
  | OpBeginResolved _ _ _ _ _ _ _, Ok (RBegun id _ _ _) => add_begun id g
  | OpAppend v stripes _ _, Ok _ =>
      match parse_version_id_parts v with Ok V => add_appended V (fragments stripes) g | Err _ => g end
  | OpCommit _ c, Ok _ =>
      match parse_version_id_parts (ovm_version_id (ssc_manifest c)), normalize_object_key (ovm_key (ssc_manifest c)) with
      | Ok V, Ok k =>
          match head m (ovm_bucket_id (ssc_manifest c)) k with
          | Some _ => g
          | None => add_committed V (fragments (ovm_stripes (ssc_manifest c))) (bool_decide (is_Some (marker m V)))
                      (add_begun V.1 g)
          end
      | _, _ => g
      end
  | OpAuthorize t id v s f _ _, Ok (RDecision (Authorized | AlreadyReclaimed)) =>
      add_freed (id, v) (t, s, f) (add_begun id g)
  | OpClaim id v _ _ _, Ok (RClaim (Claimed ts | Resumed ts)) => add_cursors (id, v) ts g
  | OpClean id v t _ _, Ok (RPage page) => add_cursor (id, v) t page g
  | _, _ => g
  end.

Definition handed_after (r : result Status KmsReply) (handed : list Z) : list Z :=
  match r with
  | Ok (RMinted id _) | Ok (RBegun id _ _ _) => id :: handed
  | _ => handed
  end.

Definition kms_exec (p : nat) (op : KmsOp KV) (s : Sys) : Sys * result Status KmsReply :=
  let '((b, m), r) := run_op op (s_blocks s p, s_db s) in
  (mkSys m (set_block p b (s_blocks s)) (handed_after r (s_handed s)) (ghost_after (s_db s) op r (s_ghost s)), r).

(** A process restarts: its block is lost. *)
Definition kms_restart (p : nat) (s : Sys) : Sys :=
  mkSys (s_db s) (set_block p ObjectIdBlock_default (s_blocks s)) (s_handed s) (s_ghost s).

(** ** What callers respect *)

(** A string of the source, short enough to be a key segment. *)
Definition text_ok (v : list byte) : Prop := seg_ok v ∧ utf8_valid v = true.
Definition key_ok (key : list byte) : Prop := ∀ k, normalize_object_key key = Ok k → text_ok k.

Definition marker_required (c : SingleShotCommit) : bool := ssc_seals_segments c || ssc_require_pending_version_marker c.

(** Machine widths and string lengths, and the protocol's use of ids and cursors: writes use
    ids that were handed out, an id begins one write, a commit that does not require its
    marker is not sent again once its version has been superseded or deleted, and a cleaner
    resumes from a cursor it was given. *)
Definition op_ok (s : Sys) (op : KmsOp KV) : Prop :=
  match op with
  | OpBegin id v b key e =>
      is_u32 id ∧ is_u32 v ∧ id ∈ s_handed s ∧ ((id ∉ g_begun (s_ghost s)) ∨ writing (s_db s) (id, v)) ∧
      text_ok b ∧ key_ok key ∧ is_u64 e
  | OpBeginResolved b key _ _ _ _ e => text_ok b ∧ key_ok key ∧ is_u64 e
  | OpRenew _ e => is_u64 e
  | OpForfeit id v => ver_ok (id, v)
  | OpAppend _ stripes e _ => Forall fplan_ok (fragments stripes) ∧ is_u64 e
  | OpCommit _ c =>
      seg_ok (ovm_bucket_id (ssc_manifest c)) ∧ key_ok (ovm_key (ssc_manifest c)) ∧
      Forall fplan_ok (fragments (ovm_stripes (ssc_manifest c))) ∧
      ∀ V k, ver_ok V → ovm_version_id (ssc_manifest c) = vt V → normalize_object_key (ovm_key (ssc_manifest c)) = Ok k →
        V.1 ∈ s_handed s ∧
        (marker_required c = true ∨ (V ∉ g_committed (s_ghost s)) ∨ head (s_db s) (ovm_bucket_id (ssc_manifest c)) k ≠ None)
  | OpAuthorize t id v si fi _ _ => ver_ok (id, v) ∧ frag_ok (t, si, fi) ∧ id ∈ s_handed s
  | OpClaim id v now _ _ => ver_ok (id, v) ∧ is_u64 now
  | OpClean id v t cur _ => ver_ok (id, v) ∧ text_ok t ∧ ∀ c, cur = Some c → ((id, v), t, c) ∈ g_cursors (s_ghost s)
  | OpFinish id v => ver_ok (id, v)
  | OpDelete b k _ roster _ => seg_ok b ∧ seg_ok k ∧ Forall seg_ok roster
  | _ => True
  end.

Inductive kms_reachable : Sys → Prop :=
| reach_init m : (∀ k, kv_get k m = None) → kms_reachable (sys_init m)
| reach_op s p op : kms_reachable s → op_ok s op → kms_reachable (kms_exec p op s).1
| reach_restart s p : kms_reachable s → kms_reachable (kms_restart p s).

Record Inv (s : Sys) : Prop := {
  inv_ids : Ids (s_db s) (s_blocks s) (s_handed s);
  inv_rows : Rows (s_db s) (s_ghost s);
  inv_begun : ∀ id, id ∈ g_begun (s_ghost s) → id ∈ s_handed s;
}.
End system.
