(* ===== verification/KmsSteps.v ===== *)
(** Every operation of the metadata service keeps the invariant. *)
From S2P Require Import Prelude Bytes Fdb KmsKeys KmsValues KmsStore KmsViews KmsEffects KmsReap KmsInv KmsKeep KmsAlloc KmsSystem.

Section steps.
Context {KV : Type} {Hdb : Fdb KV} {Hlaws : FdbLaws KV} {Hcodec : KmsCodec} {Hcodecl : KmsCodecLaws}.

(** Keyspaces other than the protocol's and the counter's. *)
Lemma touches_agree {A} ps (t : M KV Status A) m m' r :
  touches ps t → t m = (m', r) → Forall (fun p => p ∉ [HEADS; PENDING; RLOG; OCC; FENCES; COUNTER]) ps →
  agree m m' ∧ same COUNTER m m'.
Proof.
  intros Ht E Hps. rewrite Forall_forall in Hps. split.
  - intros p Hp. eapply touches_same; [exact Ht|exact E|]. intros Hin. apply (Hps p Hin). rewrite !elem_of_cons in *. tauto.
  - eapply touches_same; [exact Ht|exact E|]. intros Hin. apply (Hps _ Hin). rewrite !elem_of_cons. tauto.
Qed.

Lemma touches_counter {A} ps (t : M KV Status A) m m' r :
  touches ps t → t m = (m', r) → (COUNTER ∉ ps) → same COUNTER m m'.
Proof. intros Ht E Hp. by eapply touches_same. Qed.

Lemma fresh_add_begun m g id V : fresh m g V → fresh m (add_begun id g) V.
Proof. by intros []. Qed.

Lemma begin_value_ok e b k : is_u64 e → text_ok b → text_ok k → PendingVersion_ok (begin_value e b k).
Proof. intros He [? ?] [? ?]. split; [done|]. by split_and!; [left|..]. Qed.

(** ** Beginning a write *)

Lemma step_marker_begin m m' g V e b k :
  Rows m g → ver_ok V → is_u64 e → text_ok b → text_ok k → (V.1 ∉ g_begun g) ∨ writing m V →
  marker_effect V (begin_value e b k) m m' → Rows m' (add_begun V.1 g).
Proof.
  intros Hr HV He Hb Hk Hf Heff. apply (Rows_marker m m' _ V (begin_value e b k)); [by apply Rows_add_begun|done|by left|
    by apply begin_value_ok|done|]. left. split; [done|]. destruct Hf as [Hf|Hf]; [right|by left].
  by apply fresh_add_begun, not_begun_fresh.
Qed.

Lemma step_begin m m' g id v b key e :
  Rows m g → is_u32 id → is_u32 v → (id ∉ g_begun g) ∨ writing m (id, v) → text_ok b → key_ok key → is_u64 e →
  begin_object_write id v b key e m = (m', Ok tt) → Rows m' (add_begun id g) ∧ same COUNTER m m'.
Proof.
  intros Hr Hid Hv Hf Hb Hkey He E. split.
  - apply begin_object_write_spec in E as (k & Hk & Heff); [|done..].
    by apply (step_marker_begin m m' g (id, v) e b k); auto.
  - refine (touches_counter [PREFIX_OBJECT_LEASE; PENDING] _ _ _ _ _ E _); [unfold begin_object_write; touch|].
    by rewrite !elem_of_cons, elem_of_nil; intros [?|[?|[]]].
Qed.

Lemma rows_head_version m g b k : Rows m g → seg_ok b → seg_ok k → head_version_ok m b k.
Proof.
  intros Hr Hb Hk bytes h Hh Hd. destruct (r_head _ _ Hr b k bytes Hb Hk Hh) as (h' & V & E1 & _ & _ & E2 & _).
  assert (h' = h) as -> by congruence. lia.
Qed.

Lemma begin_txn_touches id b k ns be bp hint e :
  touches [PREFIX_NAMESPACE_ENTRY; PREFIX_NAMESPACE_PATH; PENDING; PREFIX_OBJECT_LEASE]
    (begin_txn id b k ns be bp hint e : M KV Status _).
Proof.
  unfold begin_txn. apply touches_bind; [unfold next_version; touch|]. intros v.
  apply touches_bind; [eapply touches_weaken; [|apply resolve_parent_touches]; intros p; rewrite !elem_of_cons; tauto|]. intros [pe pp]. touch.
Qed.

Lemma step_begin_txn m m' g id v b k ns be bp hint e pe pp :
  Rows m g → is_u32 id → (id ∉ g_begun g) → text_ok b → text_ok k → is_u64 e →
  begin_txn id b k ns be bp hint e m = (m', Ok (v, pe, pp)) → Rows m' (add_begun id g) ∧ same COUNTER m m'.
Proof.
  intros Hr Hid Hf Hb Hk He E. split.
  - apply begin_txn_spec in E as [HV Heff]; [|done|by eapply rows_head_version; [|apply Hb|apply Hk]].
    by apply (step_marker_begin m m' g (id, v) e b k); auto.
  - refine (touches_counter _ _ _ _ _ (begin_txn_touches _ _ _ _ _ _ _ _) E _).
    by rewrite !elem_of_cons, elem_of_nil; intros [?|[?|[?|[?|[]]]]].
Qed.

(** ** Renewing and forfeiting *)

Lemma marker_key_decode m g q value id v :
  Rows m g → kspace q = Some PENDING → kv_get q m = Some value → decode_pending_version_key_parts q = Ok (id, v, None) →
  ∃ V, ver_ok V ∧ q = mk V.
Proof.
  intros Hr Hq Hg Hd. destruct (r_pending_keys _ _ Hr q Hq) as [(V & HV & ->)|(V & t & [HV1 HV2] & Ht & Hu & ->)]; [by rewrite Hg|..].
  - by exists V.
  - unfold pk in Hd. rewrite decode_presence_key in Hd by done. done.
Qed.

Lemma step_renew m m' g id e :
  Rows m g → is_u64 e → renew_object_write id e m = (m', Ok tt) → Rows m' g ∧ same COUNTER m m'.
Proof.
  intros Hr He E. apply renew_spec in E as (key & value & id' & v & p & Hg & Hsp & Hd & Hp & Hst & ->).
  destruct (marker_key_decode m g key value id' v Hr Hsp Hg Hd) as (V & HV & ->).
  assert (pending m V p) as Hpend by by exists value. pose proof (pending_ok _ _ _ Hpend) as Hok.
  assert (pv_state p = WRITING) as Hw by (destruct Hok as (_ & [?|?] & _); done). split.
  - apply (Rows_marker m _ g V (with_expiry_max e p)); [done|done| |by apply with_expiry_max_ok| |].
    + eapply r_marker_begun; [done..|]. by eapply pending_marker.
    + apply set_marker_effect; [done|]. intros q Hq. apply same_set. intros [= <-].
      by rewrite !elem_of_cons, elem_of_nil in Hq; destruct Hq as [?|[?|[?|[?|[?|[]]]]]].
    + left. split; [done|]. left. by exists p.
  - eapply same_trans; apply same_set; done.
Qed.

Lemma step_forfeit m m' g V :
  Rows m g → ver_ok V → forfeit_object_write V.1 V.2 m = (m', Ok tt) → Rows m' g ∧ same COUNTER m m'.
Proof.
  intros Hr HV E. split.
  - apply forfeit_spec in E as [Ha|(p & Hp & Hw & Heff)]; [by eapply Rows_agree| |done].
    pose proof (pending_ok _ _ _ Hp) as (_ & _ & Hok).
    apply (Rows_marker m m' g V _ Hr HV) in Heff; [done|..].
    + eapply r_marker_begun; [done..|]. by eapply pending_marker.
    + split; [by unfold fits|]. split; [by right|done].
    + right. split; [done|]. by exists p.
  - refine (touches_counter [PENDING; PREFIX_OBJECT_LEASE] _ _ _ _ _ E _); [unfold forfeit_object_write; touch|].
    by rewrite !elem_of_cons, elem_of_nil; intros [?|[?|[]]].
Qed.

(** ** Segments and commits *)

Lemma parse_vt V : ver_ok V → parse_version_id_parts (vt V) = Ok V.
Proof. intros [H1 H2]. destruct V as [i v]. by apply parse_version_id_text. Qed.

Lemma step_append m m' g v stripes e fenced :
  Rows m g → Forall fplan_ok (fragments stripes) → is_u64 e → append_manifest_segment v stripes e fenced m = (m', Ok tt) →
  ∃ V, ver_ok V ∧ parse_version_id_parts v = Ok V ∧ Rows m' (add_appended V (fragments stripes) g) ∧ same COUNTER m m'.
Proof.
  intros Hr Hfs He E. apply append_spec in E as (V & p & -> & HV & Heff); [|done]. exists V.
  split; [done|]. split; [by apply parse_vt|]. split; [by eapply Rows_append|by eapply ae_counter].
Qed.

Lemma step_commit m m' g uuid c h :
  Rows m g → seg_ok (ovm_bucket_id (ssc_manifest c)) → key_ok (ovm_key (ssc_manifest c)) →
  Forall fplan_ok (fragments (ovm_stripes (ssc_manifest c))) →
  commit_object_single_shot uuid c m = (m', Ok h) →
  ∃ V k, ver_ok V ∧ ovm_version_id (ssc_manifest c) = vt V ∧ normalize_object_key (ovm_key (ssc_manifest c)) = Ok k ∧
    same COUNTER m m' ∧ oh_current_version_id h = vt V ∧
    ((m' = m ∧ head m (ovm_bucket_id (ssc_manifest c)) k ≠ None) ∨
     (head m (ovm_bucket_id (ssc_manifest c)) k = None ∧ live_at m' (ovm_bucket_id (ssc_manifest c)) k V ∧
      (marker_required c = true → marker m V ≠ None) ∧
      (marker_required c = true ∨ (V ∉ g_committed g) →
       Rows m' (add_committed V (fragments (ovm_stripes (ssc_manifest c))) (bool_decide (is_Some (marker m V))) (add_begun V.1 g))))).
Proof.
  intros Hr Hb Hk Hfs E. apply commit_spec in E as (V & k & HV & Ev & Hkey & Hcur & E); [|done|by intros k [? _]%Hk|done].
  destruct (Hk k Hkey) as [Hks _]. exists V, k. do 3 (split; [done|]). destruct E as [[-> (x & Hx & _)]|(Hnone & Hver & present & Hal & Heff)].
  { do 2 (split; [done|]). left. by rewrite Hx. }
  split; [by eapply ce_counter|]. split; [done|]. right. split; [done|].
  assert (present = bool_decide (is_Some (marker m V))) as ->.
  { destruct Hal as [Hp _]. destruct present.
    - destruct Hp as (p & (x & Hx & _) & _). by rewrite Hx.
    - destruct Hp as [-> _]. done. }
  split_and!.
  - exists (encode_object_head h), h. rewrite (ce_head' _ _ _ _ _ _ _ _ Heff), decide_True by done.
    by rewrite decode_encode_object_head.
  - intros Hreq. destruct Hal as [Hp _]. unfold marker_required in Hreq. case_bool_decide as Hm; [by apply not_eq_None_Some|].
    destruct Hp as [_ Hp]. congruence.
  - intros Hd. refine (Rows_commit m m' _ V _ k _ (marker_required c) (ssc_marker_fenced c && marker_required c) _ h
      (Rows_add_begun _ _ _ Hr) HV Hb Hks _ Hfs _ _ Hnone Hcur Hver Hal Heff).
    + by left.
    + intros Hreq. destruct Hd as [Hd|Hd]; [congruence|done].
    + by intros [_ ?]%andb_true_iff.
Qed.

(** ** Reclaiming *)

Lemma step_authorize m m' g V F now grace d :
  Rows m g → ver_ok V → frag_ok F →
  authorize_orphan_reclaim F.1.1 V.1 V.2 F.1.2 F.2 now grace m = (m', Ok d) →
  Rows m' (match d with Authorized | AlreadyReclaimed => add_freed V F (add_begun V.1 g) | _ => g end) ∧ same COUNTER m m'.
Proof.
  intros Hr HV HF E. split.
  - apply authorize_spec in E; [|done..]. pose proof (Rows_add_begun m g V.1 Hr) as Hr'. destruct d.
    + destruct E as (E1 & _ & E2). apply (Rows_tombstone m m' _ V F Hr' HV HF); [by left|by left|done].
    + by destruct E as [-> _].
    + by subst m'.
    + destruct E as (E1 & E2). apply (Rows_tombstone m m' _ V F Hr' HV HF); [by left|by right|done].
  - refine (touches_counter [RLOG; FENCES] _ _ _ _ _ E _); [unfold authorize_orphan_reclaim; touch|].
    by rewrite !elem_of_cons, elem_of_nil; intros [?|[?|[]]].
Qed.

Lemma Rows_add_cursors m g V ts :
  Rows m g → ver_ok V → reclaiming m V →
  (∀ t c, mkResume t (Some c) ∈ ts → cleaned_upto m V t c) → Rows m (add_cursors V ts g).
Proof.
  intros Hr HV Hrec Hts.
  assert (∀ V' t c, (V', t, c) ∈ g_cursors (add_cursors V ts g) → (V' = V ∧ mkResume t (Some c) ∈ ts) ∨ (V', t, c) ∈ g_cursors g) as Hin.
  { intros V' t c [Hin|?]%elem_of_app; [left|by right]. apply list_elem_of_omap in Hin as ([t' [c'|]] & Hin & E); [|done].
    cbn in E. apply (inj Some), pair_equal_spec in E as [[-> ->]%pair_equal_spec ->]. done. }
  destruct Hr. split; intros; cbn [add_cursors g_begun g_committed g_parts g_appended g_freed] in *; eauto.
  - match goal with Hc : _ ∈ g_cursors _ |- _ => apply Hin in Hc as [[-> _]|Hc]; [|eauto] end.
    split; [done|]. apply r_marker_begun; [done|]. by apply reclaiming_marker.
  - intros [[-> _]|Hc]%Hin; [by eapply writing_not_reclaiming|by eapply r_writing_cursors].
  - match goal with Hc : _ ∈ g_cursors _ |- _ => apply Hin in Hc as [[-> Hc]|Hc] end; eauto.
Qed.

Lemma subspace_kspace V q : in_range (mk V) (prefix_end (mk V)) q = true → kspace q = Some PENDING.
Proof. unfold mk, pending_version_key. intros Hq%encode_key_range. by apply kspace_prefix in Hq. Qed.

Lemma resume_of_marker q x id v : decode_pending_version_key_parts q = Ok (id, v, None) → resume_of_row (q, x) = None.
Proof. intros E. unfold resume_of_row. cbn [fst]. by rewrite E. Qed.

Lemma resume_of_presence q x id v t : decode_pending_version_key_parts q = Ok (id, v, Some t) →
  resume_of_row (q, x) = Some (mkResume t (if bool_decide (x = []) then None else Some x)).
Proof. intros E. unfold resume_of_row. cbn [fst snd]. by rewrite E. Qed.

Lemma resume_presence m g V t c :
  Rows m g → ver_ok V → mkResume t (Some c) ∈ omap resume_of_row (kv_range (mk V) (prefix_end (mk V)) m) →
  seg_ok t ∧ presence m V t = Some c ∧ c ≠ [].
Proof.
  intros Hr HV Hin. apply list_elem_of_omap in Hin as ([q x] & [Hq Hg]%kv_range_elem & E).
  pose proof (subspace_kspace V q Hq) as Hsp.
  destruct (r_pending_keys _ _ Hr q Hsp) as [(V' & [HV1 HV2] & ->)|(V' & t' & HV' & Ht & Hu & ->)]; [by rewrite Hg|..].
  - rewrite (resume_of_marker _ _ _ _ (decode_marker_key V'.1 V'.2 HV1 HV2)) in E. discriminate E.
  - apply pk_prefix in Hq as ->; [|done..]. destruct HV as [HV1 HV2].
    rewrite (resume_of_presence _ _ _ _ _ (decode_presence_key V.1 V.2 t' HV1 HV2 Ht Hu)) in E. apply (inj Some) in E.
    case_bool_decide as Hx; [done|]. injection E as <- <-. split; [done|]. split; [exact Hg|done].
Qed.

Lemma step_claim m m' g V now cg lg c :
  Rows m g → ver_ok V → is_u64 now → claim_orphan_version V.1 V.2 now cg lg m = (m', Ok c) →
  Rows m' (match c with Claimed ts | Resumed ts => add_cursors V ts g | _ => g end) ∧ same COUNTER m m'.
Proof.
  intros Hr HV Hnow E. split.
  - apply claim_spec in E; [|done]. destruct c as [ts|ts| | |].
    + destruct E as (p & Hp & Hw & _ & Heff & ->). pose proof (pending_ok _ _ _ Hp) as (_ & _ & Hok).
      assert (writing m V) as Hwr by by exists p.
      assert (PendingVersion_ok (mkPendingVersion now RECLAIMING (pv_bucket_id p) (pv_key p))) as Hpok.
      { split; [done|]. split; [by right|done]. }
      pose proof (marker_effect_pending _ _ _ _ HV Hpok Heff) as Hp'.
      apply Rows_add_cursors; [|done|by eexists|].
      * apply (Rows_marker m m' g V _ Hr HV) in Heff; [done| |done|by right].
        eapply r_marker_begun; [done..|]. by eapply pending_marker.
      * intros t x (Ht & Hpr & Hne)%(resume_presence m g); [|done..]. exfalso. apply Hne. by eapply r_writing_presence.
    + destruct E as (-> & (p & Hp & Hrc) & ->). assert (reclaiming m V) as Hrec by by exists p.
      apply Rows_add_cursors; [done..|]. intros t x (Ht & Hpr & Hne)%(resume_presence m g); [|done..].
      by eapply r_presence_cursor.
    + by subst m'.
    + destruct E as (p & x & h & Hp & Hh & Hd & Hcur & ->). exfalso. pose proof (pending_ok _ _ _ Hp) as (_ & _ & Hb & _ & Hk & _).
      assert (V ∈ g_committed g) as Hc by (eapply (live_committed m g); [done|exact Hb|exact Hk|done|by exists x, h]).
      apply pending_marker in Hp. by apply Hp, (r_committed_unmarked _ _ Hr).
    + by destruct E as [-> _].
  - refine (touches_counter [PENDING] _ _ _ _ _ E _); [unfold claim_orphan_version, claim_txn, head_is_live, claim_targets; touch|].
    by rewrite !elem_of_cons, elem_of_nil; intros [?|[]].
Qed.

(** ** Cleaning and finishing *)

Lemma clean_not_reclaiming m m' V t cur limit page :
  ¬ reclaiming m V → clean_orphan_version_target_page V.1 V.2 t cur limit m = (m', Ok page) →
  m' = m ∧ cp_next_cursor page = None.
Proof.
  intros Hn. unfold clean_orphan_version_target_page, clean_txn. rewrite run_Ok. cbv zeta.
  destruct (target_reverse_log_version_range _ _) as [rb re]. rewrite trx_get_bind.
  change (kv_get (pending_version_key V.1 V.2) m) with (marker m V). destruct (marker m V) as [bytes|] eqn:Em.
  - destruct (decode_pending_version_value bytes) as [p|] eqn:Ep; [|done]. rewrite lift_Ok_bind.
    case_bool_decide as Hs; [|done]. exfalso. apply Hn. exists p. split; [by exists bytes|done].
  - by intros [<- <-%Ok_inj]%pair_equal_spec.
Qed.

Lemma reclaiming_dec m V : reclaiming m V ∨ ¬ reclaiming m V.
Proof.
  destruct (marker m V) as [x|] eqn:Em; [|right; intros Hr%reclaiming_marker; done].
  destruct (decode_pending_version_value x) as [p|] eqn:Ep.
  - destruct (decide (pv_state p = RECLAIMING)) as [E|E]; [left; exists p; split; [by exists x|done]|].
    right. intros (q & (y & Hy & Hq) & Hs). congruence.
  - right. intros (q & (y & Hy & Hq) & Hs). congruence.
Qed.

Lemma add_cursor_None V t page g : cp_next_cursor page = None → add_cursor V t page g = g.
Proof. unfold add_cursor. intros ->. by destruct g. Qed.

Lemma step_clean m m' g V t cur limit page :
  Rows m g → ver_ok V → text_ok t → (∀ c, cur = Some c → (V, t, c) ∈ g_cursors g) →
  clean_orphan_version_target_page V.1 V.2 t cur limit m = (m', Ok page) →
  Rows m' (add_cursor V t page g) ∧ same COUNTER m m'.
Proof.
  intros Hr HV [Ht Hu] Hcur E. destruct (reclaiming_dec m V) as [Hrec|Hn].
  - assert (∀ c, cur = Some c → cleaned_upto m V t c) as Hcl.
    { intros c Hc. apply (r_cursors _ _ Hr); auto. }
    apply clean_spec in E as [[-> Hm]|[_ Heff]]; [|..|done|done|].
    + by apply reclaiming_marker in Hrec.
    + split; [by eapply Rows_clean|]. by apply (cl_same _ _ _ _ _ _ Heff).
    + destruct cur as [c|]; [|done]. by apply Hcl.
  - apply clean_not_reclaiming in E as [-> Hp]; [|done]. by rewrite add_cursor_None.
Qed.

Lemma step_finish m m' g V r :
  Rows m g → ver_ok V → finish_orphan_version V.1 V.2 m = (m', Ok r) → Rows m' g ∧ same COUNTER m m'.
Proof.
  intros Hr HV E. apply finish_spec in E as [[-> _]|(-> & Hrec & Hnone & ->)]; [done| |done]. split.
  - by apply Rows_finish.
  - apply (same_trans _ m (kv_clear_range (mk V) (prefix_end (mk V)) m)); [by apply same_clear_prefix|by apply same_clear].
Qed.

(** ** Fences, leases, deletion *)

Lemma step_sweep m m' g snap now older limit cur r :
  Rows m g → sweep_reclaim_fences snap now older limit cur m = (m', Ok r) → Rows m' g ∧ same COUNTER m m'.
Proof.
  intros Hr E. apply sweep_spec in E as [Hs Hf]. split; [|by apply Hs]. apply (Rows_fences m m' g Hr).
  - intros p Hp. apply Hs. by rewrite !elem_of_cons, elem_of_nil in Hp; destruct Hp as [->|[->|[->|[->|[]]]]].
  - intros V HV Hw%writing_marker. by destruct (Hf V HV) as [->|?].
Qed.

Lemma step_backfill m m' g snap now start r :
  Rows m g → backfill_page snap now start m = (m', Ok r) → Rows m' g ∧ same COUNTER m m'.
Proof.
  intros Hr E. apply backfill_spec in E as [Hs Hf]. split; [|by apply Hs]. apply (Rows_fences m m' g Hr).
  - intros p Hp. apply Hs. by rewrite !elem_of_cons, elem_of_nil in Hp; destruct Hp as [->|[->|[->|[->|[]]]]].
  - intros V HV _. apply Hf.
Qed.

Lemma step_reap m m' g now grace limit r :
  Rows m g → reap_expired_leases now grace limit m = (m', r) → Rows m' g ∧ same COUNTER m m'.
Proof.
  intros Hr E. pose proof (reap_spec _ _ _ _ _ _ E) as Hs. split; [|by apply Hs].
  apply (Rows_agree m); [|done]. intros p Hp. apply Hs.
  by rewrite !elem_of_cons, elem_of_nil in Hp; destruct Hp as [->|[->|[->|[->|[->|[]]]]]].
Qed.

Definition DELETING : list byte :=
  [RLOG; OCC; HEADS; PREFIX_OBJECT_VERSION; PREFIX_OBJECT_VERSION_CHUNK; PREFIX_NAMESPACE_ENTRY; PREFIX_NAMESPACE_PATH].

Lemma delete_txn_touches b k ns roster vids : touches DELETING (delete_txn b k ns roster vids : M KV Status _).
Proof.
  unfold DELETING, delete_txn. apply touches_bind; [touch|]. intros hb. apply touches_bind; [touch|]. intros hb'.
  apply touches_bind; [touch|]. intros h. cbv zeta. destruct (_ && _); [touch|].
  apply touches_bind; [apply reads_touches, load_manifest_reads|]. intros mb. apply touches_bind.
  - unfold delete_rows. destruct mb as [x|].
    + apply touches_bind; [touch|]. intros y. apply touches_bind; [|intros _; touch].
      eapply touches_weaken; [|apply clear_index_touches]. intros p. rewrite !elem_of_cons. tauto.
    + apply touches_bind; [touch|]. intros y. apply touches_bind; [|intros _; touch]. unfold clear_version_rows. touch.
  - intros x. apply touches_bind; [touch|]. intros _. apply touches_bind; [touch|]. intros _.
    apply touches_bind; [apply (touches_clear_prefix _ PREFIX_OBJECT_VERSION_CHUNK [_]); in_spaces|]. intros _.
    apply touches_bind; [|intros _; touch]. eapply touches_weaken; [|apply clear_entry_touches].
    intros p. rewrite !elem_of_cons. tauto.
Qed.

Lemma step_delete m m' g b k ns roster vids d :
  Rows m g → seg_ok b → seg_ok k → Forall seg_ok roster → delete_txn b k ns roster vids m = (m', Ok d) →
  Rows m' g ∧ same COUNTER m m'.
Proof.
  intros Hr Hb Hk Hro E. split.
  - apply delete_spec in E as (x & h & Hh & Hd & E); [|done..].
    destruct (r_head _ _ Hr b k x Hb Hk Hh) as (h' & V & E1 & HV & E2 & _ & _). assert (h' = h) as -> by congruence.
    destruct (E V HV E2) as [Heff _]. eapply Rows_delete; [done|exact HV|exact Hb|exact Hk|by exists x, h|done].
  - refine (touches_counter _ _ _ _ _ (delete_txn_touches _ _ _ _ _) E _).
    by unfold DELETING; rewrite !elem_of_cons, elem_of_nil; intros [?|[?|[?|[?|[?|[?|[?|[]]]]]]]].
Qed.

(** ** The roster and the salt *)

Lemma step_other {A} p (t : M KV Status A) m m' g r :
  Rows m g → touches [p] t → t m = (m', r) → (p ∉ [HEADS; PENDING; RLOG; OCC; FENCES; COUNTER]) →
  Rows m' g ∧ same COUNTER m m'.
Proof.
  intros Hr Ht E Hp. destruct (touches_agree [p] t m m' r Ht E) as [Ha Hc]; [by apply Forall_singleton|].
  split; [by eapply Rows_agree|done].
Qed.
End steps.
