(* ===== verification/KmsProtocol.v ===== *)
(** Every reachable state of the metadata service keeps the invariants; what follows from
    them for live objects, reclaimed fragments, reaped versions and object ids. *)
From S2P Require Import Prelude Bytes Fdb KmsKeys KmsValues KmsStore KmsViews KmsEffects KmsReap KmsInv KmsKeep KmsAlloc KmsSystem KmsSteps.

(** A keyspace is not one of the protocol's. *)
Ltac other_space := rewrite !elem_of_cons, elem_of_nil; intros Hin; decompose [or] Hin; done.

Section protocol.
Context {KV : Type} {Hdb : Fdb KV} {Hlaws : FdbLaws KV} {Hcodec : KmsCodec} {Hcodecl : KmsCodecLaws}.

(** ** Allocating operations *)

Lemma frame_same m m' : (∀ k, k ≠ object_id_counter_key → kv_get k m' = kv_get k m) → ∀ p, p ≠ COUNTER → same p m m'.
Proof. intros Hf p Hp q Hq. apply Hf. intros ->. injection Hq as <-. done. Qed.

Lemma frame_agree m m' : (∀ k, k ≠ object_id_counter_key → kv_get k m' = kv_get k m) → agree m m'.
Proof.
  intros Hf p Hp. apply frame_same; [done|].
  by rewrite !elem_of_cons, elem_of_nil in Hp; destruct Hp as [->|[->|[->|[->|[->|[]]]]]].
Qed.

Lemma next_version_run k m m' r : next_version k m = (m', r) → m' = m.
Proof.
  unfold next_version. rewrite trx_get_bind. destruct (decode_opt _ _) as [h|e]; by intros [<- _]%pair_equal_spec.
Qed.

Lemma mint_spec b key m blk m' blk' r :
  mint_object_id b key (blk, m) = ((blk', m'), r) →
  (∃ ra, allocate_object_id (blk, m) = ((blk', m'), ra) ∧ match r with Ok (id, _) => ra = Ok id | Err _ => True end) ∨
  (blk' = blk ∧ m' = m ∧ ∃ e, r = Err e).
Proof.
  unfold mint_object_id. destruct (normalize_object_key key) as [k|e].
  2: { intros [[<- <-]%pair_equal_spec <-]%pair_equal_spec. right. eauto. }
  unfold mbind, M_mbind, lift. destruct (allocate_object_id (blk, m)) as [[b1 m1] [id|e]].
  2: { intros [[<- <-]%pair_equal_spec <-]%pair_equal_spec. left. by eexists. }
  unfold on_db, run. destruct (next_version _ m1) as [m2 [v|e]] eqn:Ev; apply next_version_run in Ev as ->;
    intros [[<- <-]%pair_equal_spec <-]%pair_equal_spec; left; by eexists.
Qed.

Lemma begin_resolved_spec b key ns be bp hint e m blk m' blk' r :
  begin_object_write_resolved b key ns be bp hint e (blk, m) = ((blk', m'), r) →
  (blk' = blk ∧ m' = m ∧ ∃ st, r = Err st) ∨
  ∃ k m1 ra, normalize_object_key key = Ok k ∧ allocate_object_id (blk, m) = ((blk', m1), ra) ∧
    match r with
    | Ok (id, v, pe, pp) => ra = Ok id ∧ begin_txn id b k ns be bp hint e m1 = (m', Ok (v, pe, pp))
    | Err _ => m' = m1
    end.
Proof.
  unfold begin_object_write_resolved. destruct (normalize_object_key key) as [k|st].
  2: { intros [[<- <-]%pair_equal_spec <-]%pair_equal_spec. left. eauto. }
  unfold mbind, M_mbind, lift. destruct (allocate_object_id (blk, m)) as [[b1 m1] [id|st]].
  2: { intros [[<- <-]%pair_equal_spec <-]%pair_equal_spec. right. by exists k, m1, (Err st). }
  unfold on_db, run. destruct (begin_txn id b k ns be bp hint e m1) as [m2 [[[v pe] pp]|st]] eqn:Eb;
    intros [[<- <-]%pair_equal_spec <-]%pair_equal_spec; right; by exists k, m1, (Ok id).
Qed.

(** ** Errors *)

(** The operations that do not allocate fail without a trace. *)
Lemma at_db_error {A} (f : A → KmsReply) (t : M KV Status A) b m b' m' e :
  (∀ m m' e, t m = (m', Err e) → m' = m) → reply f (at_db t) (b, m) = ((b', m'), Err e) → m' = m ∧ b' = b.
Proof. intros Ht E. apply reply_Err, at_db_run in E as [-> E]. by apply Ht in E. Qed.

Lemma bind_error {A B} (t : M KV Status A) (f : A → M KV Status B) :
  (∀ m, (t m).1 = m) → (∀ a m m' e, f a m = (m', Err e) → m' = m) →
  ∀ m m' e, (t ≫= f) m = (m', Err e) → m' = m.
Proof.
  intros Ht Hf m m' e. unfold mbind, M_mbind. specialize (Ht m). destruct (t m) as [m1 [a|e1]]; cbn in Ht; subst m1.
  - apply Hf.
  - congruence.
Qed.

Lemma lift_bind_error {A B} (r : result Status A) (f : A → M KV Status B) :
  (∀ a m m' e, f a m = (m', Err e) → m' = m) → ∀ m m' e, (lift r ≫= f) m = (m', Err e) → m' = m.
Proof. intros Hf. by apply bind_error. Qed.

Lemma lift_error {A} (r : result Status A) (m m' : KV) e : lift r m = (m', Err e) → m' = m.
Proof. by intros [<- _]%pair_equal_spec. Qed.

Lemma append_error v stripes e fenced (m m' : KV) st :
  append_manifest_segment v stripes e fenced m = (m', Err st) → m' = m.
Proof.
  unfold append_manifest_segment. apply lift_bind_error. intros [id ver] m1 m2 st'. cbv zeta.
  destruct (_ <? _); [apply lift_error|apply run_Err].
Qed.

Lemma commit_error uuid c (m m' : KV) st : commit_object_single_shot uuid c m = (m', Err st) → m' = m.
Proof. unfold commit_object_single_shot. apply lift_bind_error. intros vc m1 m2 st'. apply run_Err. Qed.

Lemma begin_error id v b key e (m m' : KV) st : begin_object_write id v b key e m = (m', Err st) → m' = m.
Proof. unfold begin_object_write. apply lift_bind_error. intros k m1 m2 st'. apply run_Err. Qed.

Lemma sweep_error snap now older limit cur (m m' : KV) st :
  sweep_reclaim_fences snap now older limit cur m = (m', Err st) → m' = m.
Proof.
  unfold sweep_reclaim_fences. destruct (limit =? 0); [done|]. destruct version_reclaim_fence_scan_range. apply run_Err.
Qed.

Lemma register_error t (m m' : KV) st : register_target t m = (m', Err st) → m' = m.
Proof. unfold register_target. case_bool_decide; [apply lift_error|done]. Qed.

Lemma lifecycle_error t state now (m m' : KV) st : set_target_lifecycle t state now m = (m', Err st) → m' = m.
Proof. unfold set_target_lifecycle. destruct (_ =? _); [apply lift_error|apply run_Err]. Qed.

Lemma run_op_error op b m b' m' e :
  run_op op (b, m) = ((b', m'), Err e) →
  (∀ k, k ≠ object_id_counter_key → kv_get k m' = kv_get k m) ∧
  match op with OpMint _ _ | OpBeginResolved _ _ _ _ _ _ _ => True | _ => m' = m ∧ b' = b end.
Proof.
  destruct op; cbn [run_op];
    try (intros E; apply at_db_error in E as [-> ->]; [done|]; intros ? ? ?;
         first [apply run_Err|apply append_error|apply commit_error|apply begin_error|apply sweep_error|
                apply register_error|apply lifecycle_error]).
  - intros E%reply_Err. split; [|done]. apply mint_spec in E as [(ra & E & _)|(-> & -> & _)]; [|done].
    intros k Hk. by eapply allocate_frame.
  - intros E%reply_Err. split; [|done]. apply begin_resolved_spec in E as [(-> & -> & _)|(k & m1 & ra & _ & E & ->)]; [done|].
    intros q Hq. by eapply allocate_frame.
Qed.

(** ** Every step keeps the invariant *)

(** An operation on the database alone. *)
Lemma Inv_db_step p s m' g' :
  Inv s → Rows m' g' ∧ same COUNTER (s_db s) m' → (∀ id, id ∈ g_begun g' → id ∈ s_handed s) →
  Inv (mkSys m' (set_block p (s_blocks s p) (s_blocks s)) (s_handed s) g').
Proof.
  intros [I1 I2 I3] [Hr Hc] Hb. split; cbn [s_db s_blocks s_handed s_ghost]; [|done..].
  apply (Ids_ext _ (s_blocks s)); [|by eapply Ids_same]. intros q. unfold set_block. by destruct (decide (q = p)) as [->|].
Qed.

(** What a step leaves: the invariant of the rows, the counter, and a history of ids that were handed out. *)
Definition keeps (s : Sys) (m' : KV) (g' : Ghost) : Prop :=
  (Rows m' g' ∧ same COUNTER (s_db s) m') ∧ ∀ id, id ∈ g_begun g' → id ∈ s_handed s.

Lemma keeps_commit s uuid c m' h :
  Inv s → op_ok s (OpCommit uuid c) → commit_object_single_shot uuid c (s_db s) = (m', Ok h) →
  keeps s m' (ghost_after (s_db s) (OpCommit uuid c) (Ok (RHead h)) (s_ghost s)).
Proof.
  intros [_ Hr Hb] (H1 & H2 & H3 & H4) E.
  destruct (step_commit (s_db s) m' (s_ghost s) uuid c h Hr H1 H2 H3 E) as (V & k & HV & Ev & Ek & Hc & _ & Hcase).
  destruct (H4 V k HV Ev Ek) as [Hh Hd]. cbn [ghost_after]. rewrite Ev, parse_vt, Ek by done.
  destruct Hcase as [[-> Hhead]|(Hnone & _ & _ & Hrows)].
  - destruct (head _ _ k); [|done]. done.
  - rewrite Hnone in *. split; [split; [|done]|].
    + apply Hrows. by destruct Hd as [?|[?|?]]; [left|right|].
    + intros id [->|?]%elem_of_cons; auto.
Qed.

Lemma keeps_db s op m' r b b' :
  Inv s → op_ok s op → (∀ b k, op ≠ OpMint b k) → (∀ b k ns be bp hint e, op ≠ OpBeginResolved b k ns be bp hint e) →
  run_op op (b, s_db s) = ((b', m'), Ok r) →
  b' = b ∧ handed_after (Ok r) (s_handed s) = s_handed s ∧ keeps s m' (ghost_after (s_db s) op (Ok r) (s_ghost s)).
Proof.
  intros HI Hok Hn1 Hn2 E. pose proof HI as [I1 I2 I3].
  destruct op; cbn [run_op] in E; try (by exfalso; eapply Hn1); try (by exfalso; eapply Hn2);
    apply reply_Ok in E as (a & E & ->); apply at_db_run in E as [-> E]; (split; [done|]); (split; [done|]).
  - destruct Hok as (H1 & H2 & H3 & H4 & H5 & H6 & H7). destruct a. split; [by eapply step_begin|].
    intros id [->|?]%elem_of_cons; auto.
  - destruct a. split; [by eapply step_renew|auto].
  - destruct a. split; [by apply (step_forfeit _ _ _ (object_id, object_version))|auto].
  - destruct Hok as [H1 H2]. destruct a. eapply step_append in E as (V & HV & Ep & Hr & Hc); [|done..].
    cbn [ghost_after]. rewrite Ep. done.
  - by apply (keeps_commit s uuid).
  - destruct Hok as (H1 & H2 & H3).
    eapply (step_authorize _ _ _ (object_id, object_version) (target_id, stripe, fragment)) in E; [|done..].
    split; [by destruct a|]. intros id Hin. destruct a; cbn [ghost_after add_freed add_begun g_begun] in Hin; auto;
      apply elem_of_cons in Hin as [->|?]; auto.
  - split; [by eapply step_reap|auto].
  - destruct Hok as [H1 H2]. eapply (step_claim _ _ _ (object_id, object_version)) in E; [|done..].
    split; [by destruct a|]. intros id Hin. apply I3. by destruct a.
  - destruct Hok as (H1 & H2 & H3). eapply (step_clean _ _ _ (object_id, object_version)) in E; [|done..]. split; [done|auto].
  - split; [by eapply (step_finish _ _ _ (object_id, object_version))|auto].
  - split; [by eapply step_sweep|auto].
  - split; [by eapply step_backfill|auto].
  - destruct Hok as (H1 & H2 & H3). rewrite run_Ok in E. split; [exact (step_delete _ _ _ _ _ _ _ _ _ I2 H1 H2 H3 E)|auto].
  - split; [|auto]. eapply (step_other PREFIX_CLUSTER_CONFIG); [exact I2| |exact E|other_space].
    unfold get_or_init_cluster_salt. touch.
  - split; [|auto]. eapply (step_other PREFIX_TARGET_INVENTORY); [exact I2| |exact E|other_space].
    unfold register_target. touch.
  - split; [|auto]. eapply (step_other PREFIX_TARGET_INVENTORY); [exact I2| |exact E|other_space].
    unfold heartbeat_target, update_target. touch.
  - split; [|auto]. eapply (step_other PREFIX_TARGET_INVENTORY); [exact I2| |exact E|other_space].
    unfold set_target_lifecycle, update_target. touch.
Qed.

Lemma alloc_step m blocks handed g p b' m' ra :
  Ids m blocks handed → Rows m g → allocate_object_id (blocks p, m) = ((b', m'), ra) →
  Rows m' g ∧ Ids m' (set_block p b' blocks) (match ra with Ok id => id :: handed | Err _ => handed end).
Proof.
  intros Hi Hr E. split.
  - eapply Rows_agree; [|exact Hr]. apply frame_agree. intros q Hq. by eapply allocate_frame.
  - pose proof (allocate_spec _ _ _ p _ _ _ Hi E) as Ha. destruct ra as [id|st]; [done|]. destruct Ha as [-> ->].
    eapply Ids_ext; [|exact Hi]. intros q. unfold set_block. by destruct (decide (q = p)) as [->|].
Qed.

Lemma Inv_mint p s b k : Inv s → Inv (kms_exec p (OpMint b k) s).1.
Proof.
  intros [I1 I2 I3]. unfold kms_exec. cbn [run_op]. destruct (reply _ _ _) as [[b' m'] r] eqn:E. cbn [fst ghost_after].
  destruct r as [rp|e].
  - apply reply_Ok in E as ([id v] & E & ->). apply mint_spec in E as [(ra & E & ->)|(_ & _ & e & He)]; [|done].
    apply (alloc_step _ _ _ _ p _ _ _ I1 I2) in E as [Hr Hi]. split; [exact Hi|exact Hr|].
    intros x Hx. right. by apply I3.
  - apply reply_Err, mint_spec in E as [(ra & E & _)|(-> & -> & _)].
    + apply (alloc_step _ _ _ _ p _ _ _ I1 I2) in E as [Hr Hi]. split; [|exact Hr|exact I3].
      destruct ra; [by eapply Ids_forget|done].
    + apply (Inv_db_step p s); [by split|done|auto].
Qed.

Lemma Inv_begin_resolved p s b k ns be bp hint e :
  Inv s → text_ok b → key_ok k → is_u64 e → Inv (kms_exec p (OpBeginResolved b k ns be bp hint e) s).1.
Proof.
  intros [I1 I2 I3] Hb Hk He. unfold kms_exec. cbn [run_op]. destruct (reply _ _ _) as [[b' m'] r] eqn:E. cbn [fst].
  destruct r as [rp|st].
  - apply reply_Ok in E as ([[[id v] pe] pp] & E & ->).
    apply begin_resolved_spec in E as [(_ & _ & st & Hst)|(nk & m1 & ra & Hnk & E & -> & Et)]; [done|].
    apply (alloc_step _ _ _ _ p _ _ _ I1 I2) in E as [Hr Hi]. destruct (Ids_id _ _ _ _ Hi) as (Hid & _ & Hnew).
    apply (step_begin_txn m1 m' (s_ghost s)) in Et as [Hr' Hc]; [|done|done|by intros ?%I3|done|by apply Hk|done].
    split; cbn [s_db s_blocks s_handed s_ghost handed_after ghost_after].
    + by eapply Ids_same.
    + exact Hr'.
    + intros x [->|Hx]%elem_of_cons; [by left|]. right. by apply I3.
  - apply reply_Err, begin_resolved_spec in E as [(-> & -> & _)|(nk & m1 & ra & _ & E & ->)].
    + apply (Inv_db_step p s); [by split|done|auto].
    + apply (alloc_step _ _ _ _ p _ _ _ I1 I2) in E as [Hr Hi]. split; [|exact Hr|exact I3].
      destruct ra; [by eapply Ids_forget|done].
Qed.

Lemma ghost_after_Err m op e (g : Ghost) : ghost_after m op (Err e : result Status KmsReply) g = g.
Proof. by destruct op. Qed.

Lemma Inv_exec p s op : Inv s → op_ok s op → Inv (kms_exec p op s).1.
Proof.
  intros HI Hok. destruct op as [b k| |b k ns be bp hint e| | | | | | | | | | | | | | | | ] eqn:Eop.
  1: by apply Inv_mint.
  2: by destruct Hok as (H1 & H2 & H3); apply Inv_begin_resolved.
  all: rewrite <-Eop in *; unfold kms_exec; destruct (run_op op (s_blocks s p, s_db s)) as [[b' m'] [r|e]] eqn:E; cbn [fst];
    [apply keeps_db in E as (-> & -> & [K1 K2]); [by apply (Inv_db_step p s)|done|done|by subst op|by subst op]|].
  all: rewrite ghost_after_Err; subst op; apply run_op_error in E as [_ [-> ->]]; by apply (Inv_db_step p s _ _ HI); [split; [exact (inv_rows _ HI)|]|exact (inv_begun _ HI)].
Qed.

Lemma Inv_init m : (∀ k, kv_get k m = None) → Inv (sys_init m).
Proof.
  intros Hm. split; cbn [sys_init s_db s_blocks s_handed s_ghost].
  - assert (∀ x, ¬ in_block ObjectIdBlock_default x) as He by (unfold in_block; cbn; lia).
    split.
    + unfold counter. rewrite Hm. done.
    + intros p x []%He.
    + intros p q x []%He.
    + intros p x []%He.
    + intros x []%not_elem_of_nil.
    + constructor.
  - split; unfold empty_ghost; cbn [g_begun g_committed g_parts g_appended g_freed g_cursors].
    all: unfold marker, rlog, occ, presence, head, fence, committed_row, writing, reclaiming, pending, live_at, marker, rlog, occ, head.
    all: try (intros; rewrite Hm in *; done).
    all: try (intros; match goal with Hin : _ ∈ [] |- _ => by apply not_elem_of_nil in Hin end).
    + intros b k b' k' V _ _ _ _ _ (x & h & Hx & _). by rewrite Hm in Hx.
    + intros V F _ _ _ _. rewrite !Hm. split; [|done]. by intros (x & Hx & _).
    + intros V t c _ (p & (x & Hx & _) & _). by rewrite Hm in Hx.
  - intros id []%not_elem_of_nil.
Qed.

Lemma Inv_restart p s : Inv s → Inv (kms_restart p s).
Proof. intros [I1 I2 I3]. split; [by apply Ids_restart|done|done]. Qed.

Lemma kms_reachable_Inv s : kms_reachable s → Inv s.
Proof.
  induction 1 as [m Hm|s p op _ IH Hok|s p _ IH]; [by apply Inv_init|by apply Inv_exec|by apply Inv_restart].
Qed.

(** ** Histories *)

(** States further along the same execution. *)
Inductive kms_after (s : Sys) : Sys → Prop :=
| after_refl : kms_after s s
| after_op s' p op : kms_after s s' → op_ok s' op → kms_after s (kms_exec p op s').1
| after_restart s' p : kms_after s s' → kms_after s (kms_restart p s').

Lemma after_reachable s s' : kms_reachable s → kms_after s s' → kms_reachable s'.
Proof. intros Hs. induction 1; [done|by apply reach_op|by apply reach_restart]. Qed.

(** The history only grows. *)
Definition grows (g g' : Ghost) : Prop :=
  g_committed g ⊆ g_committed g' ∧ g_parts g ⊆ g_parts g' ∧ g_appended g ⊆ g_appended g' ∧ g_freed g ⊆ g_freed g'.

Global Instance grows_preorder : PreOrder grows.
Proof. split; [done|]. intros x y z (A1 & A2 & A3 & A4) (B1 & B2 & B3 & B4). split_and!; by etrans. Qed.

Lemma ghost_after_grows m op r g : grows g (ghost_after m op r g).
Proof.
  assert (∀ V fs present id, grows g (add_committed V fs present (add_begun id g))) as Hc.
  { intros V fs present id. split_and!; [| |done..]; cbn [add_committed add_begun g_committed g_parts g_appended].
    - by intros x ?; right.
    - intros x Hx. rewrite !elem_of_app. tauto. }
  assert (∀ V fs, grows g (add_appended V fs g)) as Ha.
  { intros V fs. split_and!; [done..| |done]. intros x Hx. apply elem_of_app. by right. }
  assert (∀ V F id, grows g (add_freed V F (add_begun id g))) as Hf.
  { intros V F id. split_and!; [done..|]. by intros x ?; right. }
  destruct op, r as [[]|]; cbn [ghost_after]; try done; try (by repeat case_match).
Qed.

Lemma after_grows s s' : kms_after s s' → grows (s_ghost s) (s_ghost s').
Proof.
  induction 1 as [|s' p op _ IH _|s' p _ IH]; [done| |done]. etrans; [exact IH|].
  unfold kms_exec. destruct (run_op op _) as [[b m] r]. cbn. apply ghost_after_grows.
Qed.

(** ** What the invariant gives *)

Lemma authorize_committed m V F now grace :
  (∃ x, rlog m V F = Some x ∧ is_committed x) →
  authorize_orphan_reclaim F.1.1 V.1 V.2 F.1.2 F.2 now grace m = (m, Ok CommittedLive).
Proof.
  intros (x & Hx & Hc). unfold authorize_orphan_reclaim. cbv zeta. unfold run. rewrite trx_get_bind.
  change (kv_get (target_reverse_log_key F.1.1 (version_id_text V.1 V.2) F.1.2 F.2) m) with (rlog m V F). rewrite Hx.
  destruct (is_reverse_log_reclaim_tombstone x) eqn:Et; [|done]. apply bool_decide_eq_true in Et. subst x.
  by apply tomb_not_committed in Hc.
Qed.

Lemma live_part_protected s b k V F now grace :
  kms_reachable s → seg_ok b → seg_ok k → ver_ok V → live_at (s_db s) b k V → (V, F) ∈ g_parts (s_ghost s) →
  authorize_orphan_reclaim F.1.1 V.1 V.2 F.1.2 F.2 now grace (s_db s) = (s_db s, Ok CommittedLive).
Proof.
  intros Hs%kms_reachable_Inv Hb Hk HV Hl Hp. apply authorize_committed.
  by apply (r_live_parts _ _ (inv_rows _ Hs) b k V F).
Qed.

(** A commit that creates the head of its key. *)
Lemma exec_commit s p uuid c s1 r k :
  kms_reachable s → op_ok s (OpCommit uuid c) → kms_exec p (OpCommit uuid c) s = (s1, Ok r) →
  normalize_object_key (ovm_key (ssc_manifest c)) = Ok k → head (s_db s) (ovm_bucket_id (ssc_manifest c)) k = None →
  ∃ V, ver_ok V ∧ ovm_version_id (ssc_manifest c) = vt V ∧ seg_ok k ∧
    live_at (s_db s1) (ovm_bucket_id (ssc_manifest c)) k V ∧
    (marker_required c = true → marker (s_db s) V ≠ None) ∧
    s_ghost s1 = add_committed V (fragments (ovm_stripes (ssc_manifest c))) (bool_decide (is_Some (marker (s_db s) V)))
                   (add_begun V.1 (s_ghost s)).
Proof.
  intros Hs%kms_reachable_Inv (H1 & H2 & H3 & _) E Hk Hnone. unfold kms_exec in E. cbn [run_op] in E.
  destruct (reply _ _ _) as [[b' m'] r'] eqn:Er. apply pair_equal_spec in E as [<- ->].
  apply reply_Ok in Er as (h & Er & ->). apply at_db_run in Er as [-> Er].
  destruct (step_commit (s_db s) m' (s_ghost s) uuid c h (inv_rows _ Hs) H1 H2 H3 Er) as (V & k' & HV & Ev & Ek & _ & _ & Hcase).
  assert (k' = k) as -> by congruence. exists V. split; [done|]. split; [done|]. split; [by apply H2|].
  destruct Hcase as [[_ ?]|(_ & Hl & Hreq & _)]; [done|]. split; [exact Hl|]. split; [exact Hreq|].
  cbn [s_ghost ghost_after]. by rewrite Ev, parse_vt, Hk, Hnone.
Qed.

Lemma exec_append s p v stripes e fenced s1 r :
  kms_reachable s → op_ok s (OpAppend v stripes e fenced) → kms_exec p (OpAppend v stripes e fenced) s = (s1, Ok r) →
  ∃ V, ver_ok V ∧ v = vt V ∧ writing (s_db s1) V ∧ s_ghost s1 = add_appended V (fragments stripes) (s_ghost s).
Proof.
  intros Hs%kms_reachable_Inv [H1 H2] E. unfold kms_exec in E. cbn [run_op] in E.
  destruct (reply _ _ _) as [[b' m'] r'] eqn:Er. apply pair_equal_spec in E as [<- ->].
  apply reply_Ok in Er as ([] & Er & ->). apply at_db_run in Er as [-> Er].
  apply append_spec in Er as (V & p' & -> & HV & Heff); [|done]. exists V. split; [done|]. split; [done|]. split.
  - exists (with_expiry_max e p'). split; [|by apply (ae_writing _ _ _ _ _ _ _ Heff)].
    exists (encode_pending_version_value (with_expiry_max e p')). cbn [s_db].
    rewrite (ae_marker' _ _ _ _ _ _ _ Heff), decide_True by done. split; [done|].
    apply decode_encode_pending_version, with_expiry_max_ok; [done|]. by eapply pending_ok, ae_marker.
  - cbn [s_ghost ghost_after]. by rewrite parse_vt.
Qed.

Lemma exec_authorized s p t id v si fi now grace s1 :
  kms_exec p (OpAuthorize t id v si fi now grace) s = (s1, Ok (RDecision Authorized)) →
  ((id, v), (t, si, fi)) ∈ g_freed (s_ghost s1).
Proof.
  unfold kms_exec. destruct (run_op _ _) as [[b' m'] r']. intros [<- ->]%pair_equal_spec. cbn. by left.
Qed.
End protocol.
