(* ===== verification/KmsSafety.v ===== *)
(** The promises of the write protocol between writers, committers, the granule reclaimer
    and the orphan-version reaper, over every execution of the metadata service. *)
From S2P Require Import Prelude Bytes Fdb KmsKeys KmsValues KmsStore KmsViews KmsEffects KmsReap KmsInv KmsKeep KmsAlloc KmsSystem KmsSteps KmsProtocol.

Section safety.
Context {KV : Type} {Hdb : Fdb KV} {Hlaws : FdbLaws KV} {Hcodec : KmsCodec} {Hcodecl : KmsCodecLaws}.

(** C1: A committed object is never reclaimed under its readers: after a commit that created
    the head of its key, in every later state of the service in which the head still names
    that version, the reclaimer asking about any fragment of the commit is told it is
    committed, and the question changes nothing. *)
Theorem committed_fragments_kept (s s1 s2 : Sys) p uuid c r k V f now grace :
  kms_reachable s → op_ok s (OpCommit uuid c) → kms_exec p (OpCommit uuid c) s = (s1, Ok r) →
  normalize_object_key (ovm_key (ssc_manifest c)) = Ok k → head (s_db s) (ovm_bucket_id (ssc_manifest c)) k = None →
  kms_after s1 s2 → ver_ok V → ovm_version_id (ssc_manifest c) = vt V →
  live_at (s_db s2) (ovm_bucket_id (ssc_manifest c)) k V →
  f ∈ fragments (ovm_stripes (ssc_manifest c)) →
  authorize_orphan_reclaim (fp_target_id f) V.1 V.2 (fp_stripe_index f) (fp_fragment_index f) now grace (s_db s2) =
    (s_db s2, Ok CommittedLive).
Proof.
  intros Hs Hok E Hk Hnone Ha HV Ev Hl Hf. pose proof Hok as (Hb & _).
  destruct (exec_commit s p uuid c s1 r k Hs Hok E Hk Hnone) as (V' & HV' & Ev' & Hks & _ & _ & Hg).
  assert (V' = V) as -> by (apply vt_inj; congruence).
  apply (live_part_protected s2 (ovm_bucket_id (ssc_manifest c)) k V (frag_of f)); [|done..|].
  - eapply after_reachable; [|exact Ha]. replace s1 with (kms_exec p (OpCommit uuid c) s).1 by by rewrite E.
    by apply reach_op.
  - destruct (after_grows _ _ Ha) as (_ & Hp & _). apply Hp. rewrite Hg. apply add_committed_parts. left.
    split; [done|]. apply list_elem_of_fmap. by exists f.
Qed.

(** C4: A sealed object keeps what its segments wrote: a segment acknowledged before the
    commit that seals the version is part of the object, and in every later state in which
    the head names the version the reclaimer is told its fragments are committed. *)
Theorem sealed_segments_kept (s s1 s2 s3 s4 : Sys) p q v stripes e fenced r uuid c r' k V f now grace :
  kms_reachable s → op_ok s (OpAppend v stripes e fenced) → kms_exec p (OpAppend v stripes e fenced) s = (s1, Ok r) →
  kms_after s1 s2 → op_ok s2 (OpCommit uuid c) → kms_exec q (OpCommit uuid c) s2 = (s3, Ok r') →
  ssc_seals_segments c = true → ovm_version_id (ssc_manifest c) = v →
  normalize_object_key (ovm_key (ssc_manifest c)) = Ok k → head (s_db s2) (ovm_bucket_id (ssc_manifest c)) k = None →
  kms_after s3 s4 → ver_ok V → v = vt V → live_at (s_db s4) (ovm_bucket_id (ssc_manifest c)) k V →
  f ∈ fragments stripes →
  authorize_orphan_reclaim (fp_target_id f) V.1 V.2 (fp_stripe_index f) (fp_fragment_index f) now grace (s_db s4) =
    (s_db s4, Ok CommittedLive).
Proof.
  intros Hs Hok E Ha Hok2 E2 Hseal Hv Hk Hnone Ha2 HV Ev Hl Hf. pose proof Hok2 as (Hb & _).
  destruct (exec_append s p v stripes e fenced s1 r Hs Hok E) as (V0 & HV0 & Ev0 & _ & Hg0).
  assert (V0 = V) as -> by (apply vt_inj; congruence).
  assert (kms_reachable s1) as Hs1.
  { replace s1 with (kms_exec p (OpAppend v stripes e fenced) s).1 by by rewrite E. by apply reach_op. }
  pose proof (after_reachable _ _ Hs1 Ha) as Hs2.
  destruct (exec_commit s2 q uuid c s3 r' k Hs2 Hok2 E2 Hk Hnone) as (V' & HV' & Ev' & Hks & _ & Hreq & Hg).
  assert (V' = V) as -> by (apply vt_inj; congruence).
  apply (live_part_protected s4 (ovm_bucket_id (ssc_manifest c)) k V (frag_of f)); [|done..|].
  - eapply after_reachable; [|exact Ha2]. replace s3 with (kms_exec q (OpCommit uuid c) s2).1 by by rewrite E2.
    by apply reach_op.
  - destruct (after_grows _ _ Ha2) as (_ & Hp & _). apply Hp. rewrite Hg. apply add_committed_parts. right. left.
    split; [|split; [done|]].
    + apply bool_decide_eq_true, not_eq_None_Some, Hreq. unfold marker_required. by rewrite Hseal.
    + destruct (after_grows _ _ Ha) as (_ & _ & Hap & _). apply (Hap (V, frag_of f)). rewrite Hg0. apply add_appended_elem. left.
      split; [done|]. apply list_elem_of_fmap. by exists f.
Qed.

(** C6: A reclaimed granule is never committed to: once the reclaimer has been authorized to
    free a fragment of a version, no later segment of the version containing the fragment is
    accepted, and no later commit of the version containing it creates a head. *)
Theorem reclaimed_fragment_never_committed (s s1 s2 : Sys) p t id v si fi now grace :
  kms_reachable s → op_ok s (OpAuthorize t id v si fi now grace) →
  kms_exec p (OpAuthorize t id v si fi now grace) s = (s1, Ok (RDecision Authorized)) → kms_after s1 s2 →
  (∀ q stripes e fenced s3 r, op_ok s2 (OpAppend (vt (id, v)) stripes e fenced) →
     kms_exec q (OpAppend (vt (id, v)) stripes e fenced) s2 = (s3, Ok r) →
     (t, si, fi) ∉ frag_of <$> fragments stripes) ∧
  (∀ q uuid c s3 r k, op_ok s2 (OpCommit uuid c) → kms_exec q (OpCommit uuid c) s2 = (s3, Ok r) →
     ovm_version_id (ssc_manifest c) = vt (id, v) → normalize_object_key (ovm_key (ssc_manifest c)) = Ok k →
     head (s_db s2) (ovm_bucket_id (ssc_manifest c)) k = None →
     (t, si, fi) ∉ frag_of <$> fragments (ovm_stripes (ssc_manifest c))).
Proof.
  intros Hs Hok E Ha. pose proof Hok as (HV & HF & _). apply exec_authorized in E as Hfreed.
  assert (kms_reachable s2) as Hs2.
  { eapply after_reachable; [|exact Ha]. replace s1 with (kms_exec p (OpAuthorize t id v si fi now grace) s).1 by by rewrite E.
    by apply reach_op. }
  destruct (after_grows _ _ Ha) as (_ & _ & _ & Hfr). apply Hfr in Hfreed. split.
  - intros q stripes e fenced s3 r Hok2 E2 Hin.
    destruct (exec_append s2 q _ stripes e fenced s3 r Hs2 Hok2 E2) as (V & HV' & Ev & Hw & Hg).
    assert (V = (id, v)) as -> by (by apply vt_inj).
    assert (kms_reachable s3) as Hs3%kms_reachable_Inv.
    { replace s3 with (kms_exec q (OpAppend (vt (id, v)) stripes e fenced) s2).1 by by rewrite E2. by apply reach_op. }
    destruct (r_writing_rows _ _ (inv_rows _ Hs3) (id, v) (t, si, fi) HV Hw) as [_ Hn].
    { rewrite Hg. apply add_appended_elem. by left. }
    apply Hn. by rewrite Hg.
  - intros q uuid c s3 r k Hok2 E2 Ev Hk Hnone Hin. pose proof Hok2 as (Hb & _).
    destruct (exec_commit s2 q uuid c s3 r k Hs2 Hok2 E2 Hk Hnone) as (V & HV' & Ev' & Hks & Hl & _ & Hg).
    assert (V = (id, v)) as -> by (apply vt_inj; congruence).
    assert (kms_reachable s3) as Hs3%kms_reachable_Inv.
    { replace s3 with (kms_exec q (OpCommit uuid c) s2).1 by by rewrite E2. by apply reach_op. }
    destruct (r_live_parts _ _ (inv_rows _ Hs3) _ _ (id, v) (t, si, fi) Hb Hks HV Hl) as [_ Hn].
    { rewrite Hg. apply add_committed_parts. by left. }
    apply Hn. by rewrite Hg.
Qed.

(** C8: Object ids are never handed out twice, across processes, refills and restarts: an id
    that the service mints in any reachable state is a nonzero [u32] that no earlier mint
    returned and no write has used. *)
Theorem minted_ids_fresh (s s1 : Sys) p b key id v :
  kms_reachable s → kms_exec p (OpMint b key) s = (s1, Ok (RMinted id v)) →
  1 ≤ id < u32_max ∧ (id ∉ s_handed s) ∧ (id ∉ g_begun (s_ghost s)) ∧ s_handed s1 = id :: s_handed s.
Proof.
  intros Hs%kms_reachable_Inv E. pose proof (Inv_mint p s b key Hs) as Hs1. rewrite E in Hs1. cbn [fst] in Hs1.
  assert (s_handed s1 = id :: s_handed s) as Hh.
  { unfold kms_exec in E. destruct (run_op _ _) as [[b' m'] r']. by apply pair_equal_spec in E as [<- ->]. }
  pose proof (inv_ids _ Hs1) as Hi. rewrite Hh in Hi. apply Ids_id in Hi as (_ & Hr & Hn).
  split_and!; [lia|lia|done| |done]. intros Hin. by apply Hn, (inv_begun _ Hs).
Qed.

(** A failed operation changes nothing: every row of the database is as it was, the id
    counter aside, which a refused mint may have moved on; an operation that allocates no
    id leaves the database itself. *)
Theorem failed_operation_unchanged (s s1 : Sys) p op e :
  kms_exec p op s = (s1, Err e) →
  (∀ k, k ≠ object_id_counter_key → kv_get k (s_db s1) = kv_get k (s_db s)) ∧ s_ghost s1 = s_ghost s ∧
  match op with OpMint _ _ | OpBeginResolved _ _ _ _ _ _ _ => True | _ => s_db s1 = s_db s end.
Proof.
  unfold kms_exec. destruct (run_op op _) as [[b m] r] eqn:E. intros [<- ->]%pair_equal_spec. cbn [s_db s_ghost].
  apply run_op_error in E as [Hf Hm]. split; [done|]. split; [apply ghost_after_Err|]. destruct op; try done; apply Hm.
Qed.
End safety.
