(* ===== verification/KmsScan.v ===== *)
(** The shape of the rows the metadata store keeps, and the discovery scan of the
    orphan-version reaper, which relies on it. *)
From S2P Require Import Prelude Bytes Fdb KmsKeys KmsValues KmsStore KmsViews KmsEffects KmsReap KmsInv KmsKeep KmsAlloc KmsSystem KmsSteps KmsProtocol.

(** A marker the reaper has work for: a reclamation under way, or a lapsed write. *)
Definition orphaned (p : PendingVersion) (now grace : Z) : bool :=
  bool_decide (pv_state p = PENDING_VERSION_STATE_RECLAIMING) ||
  (bool_decide (pv_state p = PENDING_VERSION_STATE_WRITING) && pending_version_claim_eligible p now grace).

Definition candidate (V : Version) (p : PendingVersion) : OrphanVersionCandidate :=
  mkCandidate V.1 V.2 (pv_state p) (pv_expires_at_unix_ms p).

(** A row of the pending-version keyspace: a marker with a value that decodes, or the
    presence row of a target. *)
Definition marker_row (V : Version) (p : PendingVersion) (kv : list byte * list byte) : Prop :=
  ver_ok V ∧ kv.1 = mk V ∧ decode_pending_version_value kv.2 = Ok p.
Definition presence_row (kv : list byte * list byte) : Prop :=
  ∃ V t, ver_ok V ∧ seg_ok t ∧ utf8_valid t = true ∧ kv.1 = pk V t.

Lemma scan_marker q x id v p now grace rows :
  decode_pending_version_key_parts q = Ok (id, v, None) → decode_pending_version_value x = Ok p →
  scan_rows now grace ((q, x) :: rows) =
    ((if orphaned p now grace then [mkCandidate id v (pv_state p) (pv_expires_at_unix_ms p)] else []) ++
       (scan_rows now grace rows).1, (scan_rows now grace rows).2).
Proof.
  intros Hk Hv. cbn [scan_rows]. destruct (scan_rows now grace rows) as [c u]. rewrite Hk, Hv. unfold orphaned.
  by destruct (_ || _).
Qed.

Lemma scan_presence q x id v t now grace rows :
  decode_pending_version_key_parts q = Ok (id, v, Some t) →
  scan_rows now grace ((q, x) :: rows) = scan_rows now grace rows.
Proof. intros Hk. cbn [scan_rows]. destruct (scan_rows now grace rows) as [c u]. by rewrite Hk. Qed.

Lemma scan_rows_exact now grace rows :
  Forall (fun kv => (∃ V p, marker_row V p kv) ∨ presence_row kv) rows →
  (scan_rows now grace rows).2 = 0 ∧
  ∀ c, c ∈ (scan_rows now grace rows).1 ↔
    ∃ V p kv, kv ∈ rows ∧ marker_row V p kv ∧ orphaned p now grace = true ∧ c = candidate V p.
Proof.
  induction 1 as [|[q x] rows Hrow _ [IH1 IH2]].
  { split; [done|]. intros c. split; [by intros ?%not_elem_of_nil|]. by intros (V & p & kv & Hin%not_elem_of_nil & _). }
  destruct Hrow as [(V & p & HV & Eq & Ev)|(V & t & HV & Ht & Hu & Eq)]; cbn [fst snd] in *; subst q.
  - rewrite (scan_marker (mk V) x V.1 V.2 p now grace rows (decode_marker_key V.1 V.2 (proj1 HV) (proj2 HV)) Ev).
    cbn [fst snd]. split; [done|]. intros c. rewrite elem_of_app, IH2. split.
    + intros [Hc|(W & p' & kv & Hin & Hrest)]; [|exists W, p', kv; split; [by right|done]].
      destruct (orphaned p now grace) eqn:Ho; [|by apply not_elem_of_nil in Hc]. apply list_elem_of_singleton in Hc.
      exists V, p, (mk V, x). split; [by left|]. done.
    + intros (W & p' & kv & [->|Hin]%elem_of_cons & (HW & Ek & Ev') & Ho & ->).
      * cbn [fst snd] in *. apply mk_inj in Ek as <-; [|done..]. assert (p' = p) as -> by congruence. left. rewrite Ho.
        apply list_elem_of_here.
      * right. by exists W, p', kv.
  - rewrite (scan_presence (pk V t) x V.1 V.2 t now grace rows (decode_presence_key V.1 V.2 t (proj1 HV) (proj2 HV) Ht Hu)).
    split; [done|]. intros c. rewrite IH2. split; intros (W & p & kv & Hin & Hrow & Ho & ->); exists W, p, kv.
    + split; [by right|done].
    + apply elem_of_cons in Hin as [->|Hin]; [|done]. destruct Hrow as (HW & Ek & _). cbn [fst] in Ek.
      symmetry in Ek. by apply mk_pk in Ek.
Qed.

Section scan.
Context {KV : Type} {Hdb : Fdb KV} {Hlaws : FdbLaws KV} {Hcodec : KmsCodec} {Hcodecl : KmsCodecLaws}.

(** The rows of the pending-version keyspace. *)
Definition pending_rows (m : KV) : list (list byte * list byte) :=
  kv_range pending_version_scan_range.1 pending_version_scan_range.2 m.

Lemma pending_rows_elem m q x : (q, x) ∈ pending_rows m ↔ (encode_key PENDING [] `prefix_of` q) ∧ kv_get q m = Some x.
Proof. unfold pending_rows. rewrite kv_range_elem. by rewrite (encode_key_range PENDING []). Qed.

Lemma mk_pending V : encode_key PENDING [] `prefix_of` mk V.
Proof. apply encode_key_prefix; [segs|repeat constructor; solve [apply hex8_ok|apply shard_ok]|]. split; [done|apply prefix_nil]. Qed.

Lemma pending_rows_typed m g kv :
  Rows m g → kv ∈ pending_rows m → (∃ V p, marker_row V p kv) ∨ presence_row kv.
Proof.
  intros Hr. destruct kv as [q x]. intros [Hq Hx]%pending_rows_elem. apply kspace_prefix in Hq.
  destruct (r_pending_keys _ _ Hr q Hq) as [(V & HV & ->)|(V & t & HV & Ht & Hu & ->)]; [congruence|..].
  - left. destruct (r_marker_value _ _ Hr V x HV Hx) as [p Hp]. by exists V, p.
  - right. by exists V, t.
Qed.

(** C29: Rows keep their types: in every reachable state every row of the pending-version
    keyspace has a key that decodes, every marker a value that decodes, every reverse-log
    row is a reclaim tombstone or a committed granule, and every head decodes and names a
    version in canonical spelling that no other key names and that has no marker. *)
Theorem kms_rows_well_formed (s : Sys) :
  kms_reachable s →
  (∀ q x, (q, x) ∈ pending_rows (s_db s) → ∃ parts, decode_pending_version_key_parts q = Ok parts) ∧
  (∀ V x, ver_ok V → marker (s_db s) V = Some x → ∃ p, decode_pending_version_value x = Ok p) ∧
  (∀ V F x, ver_ok V → frag_ok F → rlog (s_db s) V F = Some x →
     classify_reverse_log_value x = ReclaimTombstone ∨ ∃ g i, classify_reverse_log_value x = Committed g i) ∧
  ∀ b k x, seg_ok b → seg_ok k → head (s_db s) b k = Some x →
    ∃ h V, decode_object_head x = Ok h ∧ parse_version_id_parts (oh_current_version_id h) = Ok V ∧ marker (s_db s) V = None ∧
      ∀ b' k', seg_ok b' → seg_ok k' → live_at (s_db s) b' k' V → b' = b ∧ k' = k.
Proof.
  intros Hs%kms_reachable_Inv. pose proof (inv_rows _ Hs) as Hr. split_and!.
  - intros q x Hin. destruct (pending_rows_typed _ _ _ Hr Hin) as [(V & p & HV & Eq & _)|(V & t & HV & Ht & Hu & Eq)];
      cbn [fst] in Eq; subst q.
    + eexists. exact (decode_marker_key V.1 V.2 (proj1 HV) (proj2 HV)).
    + eexists. exact (decode_presence_key V.1 V.2 t (proj1 HV) (proj2 HV) Ht Hu).
  - intros V x HV. by apply (r_marker_value _ _ Hr).
  - intros V F x HV HF Hx. destruct (r_rlog_value _ _ Hr V F x HV HF Hx) as [->|Hc]; [by left|by right].
  - intros b k x Hb Hk Hx. destruct (r_head _ _ Hr b k x Hb Hk Hx) as (h & V & Hd & HV & Hcur & _ & Hc). exists h, V.
    split; [done|]. split; [by rewrite Hcur; apply parse_vt|]. split; [by apply (r_committed_unmarked _ _ Hr)|].
    intros b' k' Hb' Hk' Hl. apply (r_live_unique _ _ Hr b' k' b k V); [done..|]. by exists x, h.
Qed.

(** The reaper's discovery: it starts without a cursor and scans on from the cursor each
    page returned, on a database nobody changes meanwhile, until a page returns none.
    [None]: the sweep did not end within [fuel] pages. *)
Fixpoint sweep_pages (fuel : nat) (cursor : option (list byte)) (limit now grace : Z) (m : KV) :
    option (list OrphanVersionCandidate * Z) :=
  match fuel with
  | O => None
  | S fuel =>
      match scan_pending_versions cursor limit now grace m with
      | (cs, None, u) => Some (cs, u)
      | (cs, Some c, u) => '(cs', u') ← sweep_pages fuel (Some c) limit now grace m; Some (cs ++ cs', u + u')
      end
  end.

Lemma scan_rows_app now grace l1 l2 :
  scan_rows now grace (l1 ++ l2) =
    ((scan_rows now grace l1).1 ++ (scan_rows now grace l2).1, (scan_rows now grace l1).2 + (scan_rows now grace l2).2).
Proof.
  induction l1 as [|[q x] l1 IH]; cbn [app scan_rows]; [by destruct (scan_rows now grace l2)|].
  rewrite IH. destruct (scan_rows now grace l1) as [c1 u1], (scan_rows now grace l2) as [c2 u2]. cbn [fst snd].
  destruct (decode_pending_version_key_parts q) as [[[id v] [t|]]|]; [done| |apply pair_equal_spec; cbn [fst snd]; split; [done|lia]].
  destruct (decode_pending_version_value x) as [p|]; [|apply pair_equal_spec; cbn [fst snd]; split; [done|lia]]. by destruct (_ || _).
Qed.

(** The pages of a sweep are the range cut into pieces: together they hold every row once. *)
Lemma sweep_pages_all fuel cursor limit now grace m :
  0 < limit → (length (kv_range (scan_from cursor pending_version_scan_range.1) pending_version_scan_range.2 m) < fuel)%nat →
  sweep_pages fuel cursor limit now grace m =
    Some (scan_rows now grace (kv_range (scan_from cursor pending_version_scan_range.1) pending_version_scan_range.2 m)).
Proof.
  intros Hl. revert cursor. induction fuel as [|fuel IH]; intros cursor Hf; [lia|]. cbn [sweep_pages].
  unfold scan_pending_versions. destruct (Z.eqb_spec limit 0); [lia|].
  destruct pending_version_scan_range as [b e]. cbn [fst snd] in *.
  unfold kv_range_limit. destruct (Z.eqb_spec limit 0); [lia|]. set (R := kv_range (scan_from cursor b) e m) in *.
  unfold next_cursor. destruct (Z.leb_spec limit (len (take (Z.to_nat limit) R))) as [Hfull|Hpart].
  2: { rewrite length_take in Hpart. rewrite take_ge by lia. by destruct (scan_rows now grace R). }
  destruct (last (take (Z.to_nat limit) R)) as [[k v]|] eqn:El; [|apply last_None in El; rewrite El in Hfull; cbn in Hfull; lia].
  apply last_Some in El as [l1 El]. rewrite El.
  assert (R = l1 ++ (k, v) :: drop (Z.to_nat limit) R) as ER.
  { rewrite <-(take_drop (Z.to_nat limit) R) at 1. rewrite El. by rewrite <-(assoc_L (++)). }
  pose proof (range_after _ _ _ _ _ _ _ ER) as Ea. specialize (IH (Some k)). cbn [scan_from] in IH. rewrite Ea in IH.
  cbn [fmap option_fmap option_map fst]. destruct (scan_rows now grace (l1 ++ [(k, v)])) as [c1 u1] eqn:E1. rewrite IH.
  - assert (R = (l1 ++ [(k, v)]) ++ drop (Z.to_nat limit) R) as ER' by (rewrite <-(assoc_L (++)); exact ER).
    rewrite (f_equal (scan_rows now grace) ER'), scan_rows_app, E1. by destruct (scan_rows now grace (drop _ R)).
  - rewrite ER, length_app in Hf. cbn in Hf. lia.
Qed.

(** C27: Discovery is exact. In every reachable state a sweep of the pending versions, page
    by page with any positive limit and on an unchanged database, ends within one page
    more than there are rows and reports no undecodable row; its candidates are exactly
    the versions being reclaimed and the writes whose marker has lapsed. A limit above the
    number of rows needs one page, which returns no cursor. *)
Theorem scan_finds_orphans (s : Sys) limit now grace :
  kms_reachable s → 0 < limit →
  ∃ cs, sweep_pages (S (length (pending_rows (s_db s)))) None limit now grace (s_db s) = Some (cs, 0) ∧
    (∀ c, c ∈ cs ↔ ∃ V p, ver_ok V ∧ pending (s_db s) V p ∧ orphaned p now grace = true ∧ c = candidate V p) ∧
    (len (pending_rows (s_db s)) < limit → scan_pending_versions None limit now grace (s_db s) = (cs, None, 0)).
Proof.
  intros Hs%kms_reachable_Inv Hl. pose proof (inv_rows _ Hs) as Hr.
  destruct (scan_rows_exact now grace (pending_rows (s_db s))) as [Hu Hc].
  { apply Forall_forall. intros kv Hin. by apply (pending_rows_typed _ _ _ Hr). }
  exists (scan_rows now grace (pending_rows (s_db s))).1. split_and!.
  - rewrite sweep_pages_all; [|done|unfold pending_rows; cbn [scan_from]; lia]. cbn [scan_from]. fold (pending_rows (s_db s)).
    by rewrite (surjective_pairing (scan_rows _ _ _)), Hu.
  - intros c. rewrite Hc. split.
    + intros (V & p & [q x] & Hin & (HV & Eq & Ev) & Ho & ->). cbn [fst snd] in *. subst q. exists V, p.
      apply pending_rows_elem in Hin as [_ Hin]. split; [done|]. split; [by exists x|done].
    + intros (V & p & HV & (x & Hx & Ev) & Ho & ->). exists V, p, (mk V, x).
      split; [apply pending_rows_elem; split; [apply mk_pending|exact Hx]|]. done.
  - intros Hn. unfold scan_pending_versions. destruct (Z.eqb_spec limit 0); [lia|].
    rewrite (surjective_pairing pending_version_scan_range). cbv beta iota. cbn [scan_from].
    unfold kv_range_limit. destruct (Z.eqb_spec limit 0); [lia|]. fold (pending_rows (s_db s)). rewrite take_ge by lia.
    destruct (scan_rows now grace (pending_rows (s_db s))) as [cs u]. cbn [fst snd] in *. subst u. unfold next_cursor.
    by rewrite (proj2 (Z.leb_gt _ _)).
Qed.
End scan.
