(* ===== verification/KmsReaper.v ===== *)
(** The orphan-version reaper's sweep (poc/kms/src/service.rs, [run_orphan_version_reap]):
    discovery, claims, cleaning within a budget of pages, finishing. A version whose rows
    fit the budget is gone after one sweep. *)
From stdpp Require Import sorting.
From S2P Require Import Prelude Bytes Fdb KmsKeys KmsValues KmsStore KmsViews KmsEffects KmsReap KmsInv KmsKeep KmsAlloc KmsSystem KmsSteps KmsProtocol.

Definition ORPHAN_VERSION_SCAN_ROWS_PER_TXN : Z := 4096.
Definition ORPHAN_VERSION_CLAIMS_PER_TICK : nat := 32.
Definition ORPHAN_VERSION_ROWS_PER_CLEAN_TXN : Z := 2048.
Definition ORPHAN_VERSION_CLEAN_TXNS_PER_TICK : nat := 64.

Record OrphanVersionReapOutcome := mkOutcome {
  ro_claimed : Z;
  ro_resumed : Z;
  ro_reaped : Z;
  ro_rows_cleared : Z;
  ro_kco1_cleared : Z;
  ro_tombstones_skipped : Z;
  ro_targets_cleaned : Z;
  ro_skipped_writer_alive : Z;
  ro_skipped_head_live : Z;
  ro_errors : Z;
  ro_backlog : Z;
  ro_oldest_age_ms : Z;
}.

Definition add_error (o : OrphanVersionReapOutcome) : OrphanVersionReapOutcome :=
  let '(mkOutcome c r d rc kc ts tc sw sh e b a) := o in mkOutcome c r d rc kc ts tc sw sh (e + 1) b a.
Definition add_claimed (o : OrphanVersionReapOutcome) : OrphanVersionReapOutcome :=
  let '(mkOutcome c r d rc kc ts tc sw sh e b a) := o in mkOutcome (c + 1) r d rc kc ts tc sw sh e b a.
Definition add_resumed (o : OrphanVersionReapOutcome) : OrphanVersionReapOutcome :=
  let '(mkOutcome c r d rc kc ts tc sw sh e b a) := o in mkOutcome c (r + 1) d rc kc ts tc sw sh e b a.
Definition add_reaped (o : OrphanVersionReapOutcome) : OrphanVersionReapOutcome :=
  let '(mkOutcome c r d rc kc ts tc sw sh e b a) := o in mkOutcome c r (d + 1) rc kc ts tc sw sh e b a.
Definition add_skipped_writer_alive (o : OrphanVersionReapOutcome) : OrphanVersionReapOutcome :=
  let '(mkOutcome c r d rc kc ts tc sw sh e b a) := o in mkOutcome c r d rc kc ts tc (sw + 1) sh e b a.
Definition add_skipped_head_live (o : OrphanVersionReapOutcome) : OrphanVersionReapOutcome :=
  let '(mkOutcome c r d rc kc ts tc sw sh e b a) := o in mkOutcome c r d rc kc ts tc sw (sh + 1) e b a.
Definition add_page (page : OrphanVersionCleanPage) (o : OrphanVersionReapOutcome) : OrphanVersionReapOutcome :=
  let '(mkOutcome c r d rc kc ts tc sw sh e b a) := o in
  mkOutcome c r d (rc + cp_rows_cleared page) (kc + cp_kco1_cleared page) (ts + cp_tombstones_skipped page)
    (tc + (if cp_target_done page then 1 else 0)) sw sh (e + cp_unrecognized_skipped page) b a.

Section sweep.
Context {KV : Type} {Hdb : Fdb KV} {Hcodec : KmsCodec}.

(** The inner loop over one target's pages: whether the target is done, the budget left. *)
Fixpoint clean_target (clean_budget : nat) (object_id object_version : Z) (target_id : list byte)
    (page_cursor : option (list byte)) (o : OrphanVersionReapOutcome) :
    M KV Status (bool * nat * OrphanVersionReapOutcome) :=
  match clean_budget with
  | O => mret (false, O, o)
  | S clean_budget =>
      r ← attempt (clean_orphan_version_target_page object_id object_version target_id page_cursor
                     ORPHAN_VERSION_ROWS_PER_CLEAN_TXN);
      match r with
      | Ok page =>
          if cp_target_done page then mret (true, clean_budget, add_page page o)
          else clean_target clean_budget object_id object_version target_id (cp_next_cursor page) (add_page page o)
      | Err _ => mret (false, clean_budget, add_error o)
      end
  end.

(** The ['targets] loop: [all_targets_done], the budget left. *)
Fixpoint clean_targets (clean_budget : nat) (object_id object_version : Z) (targets : list OrphanTargetResume)
    (o : OrphanVersionReapOutcome) : M KV Status (bool * nat * OrphanVersionReapOutcome) :=
  match targets with
  | [] => mret (true, clean_budget, o)
  | resume :: targets' =>
      '(target_done, clean_budget, o) ←
        clean_target clean_budget object_id object_version (otr_target_id resume) (otr_cursor resume) o;
      if (target_done : bool) then clean_targets clean_budget object_id object_version targets' o
      else mret (false, clean_budget, o)
  end.

(** The cleaning and finishing of a claimed version. *)
Definition clean_version (clean_budget : nat) (object_id object_version : Z) (targets : list OrphanTargetResume)
    (o : OrphanVersionReapOutcome) : M KV Status (nat * OrphanVersionReapOutcome) :=
  '(all_targets_done, clean_budget, o) ← clean_targets clean_budget object_id object_version targets o;
  if (all_targets_done : bool) then
    r ← attempt (finish_orphan_version object_id object_version);
    mret (clean_budget, match r with Ok true => add_reaped o | Ok false => o | Err _ => add_error o end)
  else mret (clean_budget, o).

Definition reap_version (clean_budget : nat) (now_unix_ms claim_grace_ms lease_grace_ms object_id object_version : Z)
    (o : OrphanVersionReapOutcome) : M KV Status (nat * OrphanVersionReapOutcome) :=
  r ← attempt (claim_orphan_version object_id object_version now_unix_ms claim_grace_ms lease_grace_ms);
  match r with
  | Ok (Claimed targets) => clean_version clean_budget object_id object_version targets (add_claimed o)
  | Ok (Resumed targets) => clean_version clean_budget object_id object_version targets (add_resumed o)
  | Ok SkippedWriterAlive => mret (clean_budget, add_skipped_writer_alive o)
  | Ok SkippedHeadLive => mret (clean_budget, add_skipped_head_live o)
  | Ok Gone => mret (clean_budget, o)
  | Err _ => mret (clean_budget, add_error o)
  end.

Fixpoint reap_candidates (clean_budget : nat) (now_unix_ms claim_grace_ms lease_grace_ms : Z)
    (candidates : list OrphanVersionCandidate) (o : OrphanVersionReapOutcome) : M KV Status OrphanVersionReapOutcome :=
  match candidates, clean_budget with
  | [], _ | _, O => mret o
  | candidate :: candidates', _ =>
      '(clean_budget, o) ← reap_version clean_budget now_unix_ms claim_grace_ms lease_grace_ms
                             (oc_object_id candidate) (oc_object_version candidate) o;
      reap_candidates clean_budget now_unix_ms claim_grace_ms lease_grace_ms candidates' o
  end.

(** A stable sort by a boolean key: reclaiming versions first. *)
Definition sort_reclaiming_first (candidates : list OrphanVersionCandidate) : list OrphanVersionCandidate :=
  filter (fun c => oc_state c = PENDING_VERSION_STATE_RECLAIMING) candidates ++
  filter (fun c => oc_state c ≠ PENDING_VERSION_STATE_RECLAIMING) candidates.

Definition initial_outcome (now_unix_ms undecodable_rows : Z) (candidates : list OrphanVersionCandidate) :
    OrphanVersionReapOutcome :=
  mkOutcome 0 0 0 0 0 0 0 0 0 undecodable_rows (len candidates)
    (foldr Z.max 0 ((fun c => Z.max 0 (now_unix_ms - oc_expires_at_unix_ms c)) <$> candidates)).

(** One sweep: the outcome recorded and the cursor of the next scan. *)
Definition run_orphan_version_reap (snap : KV) (now_unix_ms claim_grace_ms lease_grace_ms : Z)
    (scan_cursor : option (list byte)) : M KV Status (OrphanVersionReapOutcome * option (list byte)) :=
  let '(candidates, next_cursor, undecodable_rows) :=
    scan_pending_versions scan_cursor ORPHAN_VERSION_SCAN_ROWS_PER_TXN now_unix_ms claim_grace_ms snap in
  o ← reap_candidates ORPHAN_VERSION_CLEAN_TXNS_PER_TICK now_unix_ms claim_grace_ms lease_grace_ms
        (take ORPHAN_VERSION_CLAIMS_PER_TICK (sort_reclaiming_first candidates))
        (initial_outcome now_unix_ms undecodable_rows candidates);
  mret (o, next_cursor).
End sweep.

(** ** The sweep makes progress *)

Section progress.
Context {KV : Type} {Hdb : Fdb KV} {Hlaws : FdbLaws KV} {Hcodec : KmsCodec} {Hcodecl : KmsCodecLaws}.

(** The reverse-log rows of a version on a target that a scan from the cursor still sees. *)
Definition target_rows (m : KV) (V : Version) (t : list byte) (cur : option (list byte)) : list (list byte * list byte) :=
  kv_range (scan_from cur (rl_prefix V t)) (prefix_end (rl_prefix V t)) m.

Lemma target_rows_elem m V t cur k x :
  cursor_ok V t cur → (k, x) ∈ target_rows m V t cur ↔ rl_prefix V t `prefix_of` k ∧ past cur k ∧ kv_get k m = Some x.
Proof. intros Hc. unfold target_rows. rewrite kv_range_elem, scan_from_range by done. tauto. Qed.

Lemma strictly_sorted_NoDup (l : list (list byte * list byte)) :
  StronglySorted (fun x y => bytes_ltb x.1 y.1 = true) l → NoDup l.
Proof.
  induction 1 as [|x l _ IH Hf]; constructor; [|done]. intros Hin. rewrite Forall_forall in Hf.
  specialize (Hf x Hin). by rewrite bytes_ltb_irrefl in Hf.
Qed.

Lemma sorted_upto_last (l : list (list byte * list byte)) c w k x :
  StronglySorted (fun x y => bytes_ltb x.1 y.1 = true) l → last l = Some (c, w) → (k, x) ∈ l → bytes_ltb c k = false.
Proof.
  intros Hs (l' & ->)%last_Some [Hin|Hin]%elem_of_app.
  - apply bytes_ltb_asym. apply (sorted_app_lt l' [(c, w)] (k, x) (c, w) Hs Hin). by left.
  - apply list_elem_of_singleton in Hin. injection Hin as -> ->. apply bytes_ltb_irrefl.
Qed.

Lemma sorted_take (n : nat) (l : list (list byte * list byte)) :
  StronglySorted (fun x y => bytes_ltb x.1 y.1 = true) l → StronglySorted (fun x y => bytes_ltb x.1 y.1 = true) (take n l).
Proof. intros Hs. rewrite <-(take_drop n l) in Hs. by apply StronglySorted_app_1_l in Hs. Qed.

(** A full page leaves fewer rows past its cursor. *)
Lemma page_fewer_rows m m' V t cur (n : nat) c w :
  cursor_ok V t cur → (∀ q, kspace q = Some RLOG → kv_get q m' = kv_get q m ∨ kv_get q m' = None) →
  last (take n (target_rows m V t cur)) = Some (c, w) → (n ≤ length (take n (target_rows m V t cur)))%nat →
  cursor_ok V t (Some c) ∧ (length (target_rows m' V t (Some c)) + n ≤ length (target_rows m V t cur))%nat.
Proof.
  intros Hc Hkeep Hl Hn. set (R := target_rows m V t cur) in *.
  pose proof (kv_range_sorted _ _ _ : StronglySorted (fun x y => bytes_ltb x.1 y.1 = true) R) as Hs.
  assert ((c, w) ∈ R) as Hin.
  { apply last_Some_elem_of in Hl. rewrite <-(take_drop n R). apply elem_of_app. by left. }
  apply target_rows_elem in Hin as (Hp & Hpast & _); [|done]. split; [exact Hp|].
  assert (target_rows m' V t (Some c) ⊆+ drop n R) as Hsub%submseteq_length.
  { apply NoDup_submseteq; [apply strictly_sorted_NoDup, kv_range_sorted|]. intros [k x] Hk.
    apply target_rows_elem in Hk as (Hkp & Hkc & Hg); [|done]. cbn [past] in Hkc.
    assert ((k, x) ∈ R) as HkR.
    { apply target_rows_elem; [done|]. split; [done|]. split.
      - destruct cur as [c0|]; [|done]. cbn [past] in *. by eapply bytes_ltb_trans.
      - destruct (Hkeep k) as [E|E]; [by apply kspace_prefix in Hkp|congruence|congruence]. }
    rewrite <-(take_drop n R) in HkR. apply elem_of_app in HkR as [HkR|?]; [|done].
    eapply sorted_upto_last in HkR; [|by apply sorted_take|exact Hl]. congruence. }
  rewrite length_drop in Hsub. rewrite length_take in Hn. lia.
Qed.

(** What a cleaning page runs once its marker has been checked. *)
Lemma clean_txn_run V t cur limit m :
  reclaiming m V →
  let rows := kv_range_limit (scan_from cur (rl_prefix V t)) (prefix_end (rl_prefix V t)) limit m in
  clean_orphan_version_target_page V.1 V.2 t cur limit m =
  run (page ← clean_rows t clean_page_default rows; clean_finish V.1 V.2 t limit rows page) m.
Proof.
  intros (p & (bytes & Em & Ep) & Hst) rows. unfold clean_orphan_version_target_page, clean_txn, run. cbv zeta.
  change (target_reverse_log_version_range t (version_id_text V.1 V.2)) with (rl_prefix V t, prefix_end (rl_prefix V t)).
  cbv iota beta. rewrite trx_get_bind. change (kv_get (pending_version_key V.1 V.2) m) with (marker m V).
  rewrite Em, Ep, lift_Ok_bind, Hst. rewrite bool_decide_eq_true_2 by done. cbn [negb]. by rewrite trx_range_limit_bind.
Qed.

(** A page of a reclaiming version succeeds; it finishes the target or moves on. *)
Lemma clean_page_progress V t cur (n : nat) m :
  cursor_ok V t cur → reclaiming m V → (0 < n)%nat →
  ∃ m' page, clean_orphan_version_target_page V.1 V.2 t cur (Z.of_nat n) m = (m', Ok page) ∧
    (∀ q, kspace q = Some RLOG → kv_get q m' = kv_get q m ∨ (kv_get q m' = None ∧ rl_prefix V t `prefix_of` q)) ∧
    (cp_target_done page = true ∨
     cp_target_done page = false ∧ ∃ c, cp_next_cursor page = Some c ∧ cursor_ok V t (Some c) ∧
       (length (target_rows m' V t (Some c)) + n ≤ length (target_rows m V t cur))%nat).
Proof.
  intros Hc Hrec Hpos. rewrite clean_txn_run by done. set (rows := kv_range_limit _ _ _ m).
  assert (rows = take n (target_rows m V t cur)) as Erows.
  { unfold rows, kv_range_limit. rewrite (proj2 (Z.eqb_neq _ _)) by lia. by rewrite Nat2Z.id. }
  assert (∀ row, row ∈ rows → rl_prefix V t `prefix_of` row.1) as Hpre.
  { intros [k x] [Hin _]%range_limit_elem. by apply scan_from_range in Hin as [? _]. }
  destruct (clean_rows_effect t rows clean_page_default m) as (m0 & pg & Ecl & Hcl).
  { apply Forall_forall. intros row Hin%Hpre. by apply kspace_prefix in Hin. }
  pose proof (clean_rows_flags _ _ _ _ _ _ Ecl) as [F1 F2]. cbn in F1, F2.
  assert (∀ q, kspace q = Some RLOG → kv_get q m0 = kv_get q m ∨ (kv_get q m0 = None ∧ rl_prefix V t `prefix_of` q)) as Hk0.
  { intros q Hq. destruct (rc_rlog _ _ _ Hcl q Hq) as [?|(? & row & Hin & <- & _)]; [by left|right; split; [done|by apply Hpre]]. }
  unfold run. rewrite (M_bind_run _ _ _ _ _ Ecl).
  destruct (clean_finish V.1 V.2 t (Z.of_nat n) rows pg m0) as [m' [page|e]] eqn:Ef.
  2: { exfalso. unfold clean_finish in Ef. destruct pg. destruct (_ <? _); [done|]. by destruct (fst <$> last rows). }
  apply clean_page_finish in Ef as [(_ & Hd & _ & ->)|[(Hge & _ & Hnil & _ & ->)|(Hge & Hd & c & w & Hl & Hn & ->)]]; [| | |done..].
  - eexists _, page. split; [done|]. split; [|by left]. intros q Hq. rewrite kv_get_clear, decide_False by by intros ->.
    rewrite kv_get_clear_range. destruct (in_range _ _ q) eqn:Er; [|by apply Hk0].
    apply encode_key_range, kspace_prefix in Er. rewrite Hq in Er. discriminate Er.
  - rewrite Hnil in Hge. cbn in Hge. lia.
  - eexists _, page. split; [done|]. split; [|right; split; [done|]; exists c; split; [done|]].
    + intros q Hq. rewrite kv_get_set, decide_False by by intros ->. by apply Hk0.
    + rewrite Erows in Hl, Hge. apply (page_fewer_rows m _ V t cur n c w); [done| |done|lia].
      intros q Hq. rewrite kv_get_set, decide_False by by intros ->. destruct (Hk0 q Hq) as [?|[? _]]; tauto.
Qed.

(** Two targets' ranges do not meet. *)
Lemma rl_prefix_disjoint V t t' q :
  seg_ok t → seg_ok t' → rl_prefix V t `prefix_of` q → rl_prefix V t' `prefix_of` q → t = t'.
Proof.
  intros Ht Ht' H1 H2. destruct (prefix_weak_total _ _ _ H1 H2) as [H|H]; unfold rl_prefix in H;
    apply encode_key_prefix in H as [_ H]; try segs; by apply prefix_cons_inv_1 in H.
Qed.

Lemma target_rows_fewer m m' V t cur :
  cursor_ok V t cur → (∀ q, rl_prefix V t `prefix_of` q → kv_get q m' = kv_get q m) →
  (length (target_rows m' V t cur) ≤ length (target_rows m V t cur))%nat.
Proof.
  intros Hc Hq. apply submseteq_length, NoDup_submseteq; [apply strictly_sorted_NoDup, kv_range_sorted|].
  intros [k x]. rewrite !target_rows_elem by done. intros (H1 & H2 & H3). rewrite Hq in H3 by done. done.
Qed.

(** Pages a target still needs. *)
Definition pages (m : KV) (V : Version) (t : list byte) (cur : option (list byte)) : nat :=
  S (length (target_rows m V t cur) / 2048).

(** What cleaning leaves of a version on its way to being reaped. *)
Record cleaned_target (V : Version) (t : list byte) (m : KV) (g : Ghost) (m' : KV) (g' : Ghost) : Prop := {
  ct_rows : Rows m' g';
  ct_committed : g_committed g' = g_committed g;
  ct_cursors : ∀ x, x ∈ g_cursors g → x ∈ g_cursors g';
  ct_marker : marker m' V = marker m V;
  ct_presence : ∀ t', seg_ok t' → t' ≠ t → presence m' V t' = presence m V t';
  ct_other : ∀ t' q, seg_ok t' → t' ≠ t → rl_prefix V t' `prefix_of` q → kv_get q m' = kv_get q m;
}.

Lemma cleaned_target_trans V t m g m1 g1 m2 g2 :
  cleaned_target V t m g m1 g1 → cleaned_target V t m1 g1 m2 g2 → cleaned_target V t m g m2 g2.
Proof.
  intros [A1 A2 A3 A4 A5 A6] [B1 B2 B3 B4 B5 B6]. split; [done|congruence|auto|congruence|..].
  - intros t' Ht Hne. by rewrite B5, A5.
  - intros t' q Ht Hne Hq. rewrite (B6 t'), (A6 t') by done. done.
Qed.

Lemma clean_page_step V t cur m g :
  Rows m g → ver_ok V → text_ok t → reclaiming m V → (∀ c, cur = Some c → (V, t, c) ∈ g_cursors g) →
  ∃ m' page, clean_orphan_version_target_page V.1 V.2 t cur ORPHAN_VERSION_ROWS_PER_CLEAN_TXN m = (m', Ok page) ∧
    cleaned_target V t m g m' (add_cursor V t page g) ∧
    if cp_target_done page then presence m' V t = None
    else ∃ c, cp_next_cursor page = Some c ∧ (S (pages m' V t (Some c)) ≤ pages m V t cur)%nat.
Proof.
  intros Hr HV Ht Hrec Hcur. pose proof Ht as [Hts Htu].
  assert (cursor_ok V t cur) as Hc by (destruct cur as [c|]; [|done]; apply (r_cursors _ _ Hr V t c HV Hrec); auto).
  destruct (clean_page_progress V t cur 2048 m Hc Hrec) as (m' & page & E & Hk & Hd); [lia|].
  change (Z.of_nat 2048) with ORPHAN_VERSION_ROWS_PER_CLEAN_TXN in E. exists m', page. split; [done|].
  destruct (step_clean m m' g V t cur _ page Hr HV Ht Hcur E) as [Hr' _].
  apply clean_spec in E as [[_ Hm]|[_ Heff]]; [by apply reclaiming_marker in Hrec| |done..]. split; [split|].
  - exact Hr'.
  - done.
  - intros x Hx. unfold add_cursor. cbn [g_cursors]. destruct (cp_next_cursor page); [by right|done].
  - apply (cl_pending _ _ _ _ _ _ Heff); [done|]. by apply mk_pk.
  - intros t' Ht' Hne. apply (cl_pending _ _ _ _ _ _ Heff); [apply kspace_pk|]. intros Epk. by apply pk_inj in Epk as [_ ?].
  - intros t' q Ht' Hne Hq. destruct (Hk q) as [?|[_ Hq']]; [by apply kspace_prefix in Hq|done|].
    exfalso. apply Hne. symmetry. by eapply rl_prefix_disjoint.
  - destruct Hd as [Hd|(Hd & c & Hn & _ & Hlen)]; rewrite Hd.
    + by apply (cl_done _ _ _ _ _ _ Heff).
    + exists c. split; [done|]. unfold pages. apply le_n_S.
      transitivity ((length (target_rows m' V t (Some c)) + 1 * 2048) / 2048)%nat; [rewrite Nat.div_add; lia|].
      apply Nat.Div0.div_le_mono. lia.
Qed.

Lemma add_page_reaped page o : ro_reaped (add_page page o) = ro_reaped o.
Proof. by destruct o. Qed.

Lemma attempt_Ok {A} (t : M KV Status A) m m' r : t m = (m', r) → attempt t m = (m', Ok r).
Proof. unfold attempt. by intros ->. Qed.

(** A target is done within the pages its rows need. *)
Lemma clean_target_completes budget V t cur m g o :
  Rows m g → ver_ok V → text_ok t → reclaiming m V → (∀ c, cur = Some c → (V, t, c) ∈ g_cursors g) →
  (pages m V t cur ≤ budget)%nat →
  ∃ m' g' b' o', clean_target budget V.1 V.2 t cur o m = (m', Ok (true, b', o')) ∧ (budget ≤ b' + pages m V t cur)%nat ∧
    cleaned_target V t m g m' g' ∧ presence m' V t = None ∧ ro_reaped o' = ro_reaped o.
Proof.
  revert cur m g o. induction budget as [|budget IH]; intros cur m g o Hr HV Ht Hrec Hcur Hb; [unfold pages in Hb; lia|].
  destruct (clean_page_step V t cur m g Hr HV Ht Hrec Hcur) as (m1 & page & E & Hct & Hd).
  cbn [clean_target]. rewrite (M_bind_run _ _ _ _ _ (attempt_Ok _ _ _ _ E)). destruct (cp_target_done page) eqn:Ed.
  - exists m1, (add_cursor V t page g), budget, (add_page page o). split; [done|]. split; [unfold pages; lia|].
    split; [done|]. split; [done|]. apply add_page_reaped.
  - destruct Hd as (c & Hn & Hp). rewrite Hn.
    destruct (IH (Some c) m1 (add_cursor V t page g) (add_page page o)) as (m2 & g2 & b2 & o2 & E2 & Hb2 & Hct2 & Hpr & Ho).
    + by apply (ct_rows _ _ _ _ _ _ Hct).
    + done.
    + done.
    + eapply reclaiming_eq; [|exact Hrec]. symmetry. symmetry. by apply (ct_marker _ _ _ _ _ _ Hct).
    + intros c' [= <-]. unfold add_cursor. rewrite Hn. by left.
    + lia.
    + exists m2, g2, b2, o2. split; [done|]. split; [lia|]. split; [by eapply cleaned_target_trans|]. split; [done|].
      by rewrite Ho, add_page_reaped.
Qed.

(** The pages the version's targets need, from the claim's cursors. *)
Definition resume_pages (m : KV) (V : Version) (ts : list OrphanTargetResume) : nat :=
  sum_list ((fun r => pages m V (otr_target_id r) (otr_cursor r)) <$> ts).

Definition resumes_ok (V : Version) (g : Ghost) (ts : list OrphanTargetResume) : Prop :=
  NoDup (otr_target_id <$> ts) ∧
  Forall (fun r => text_ok (otr_target_id r) ∧ ∀ c, otr_cursor r = Some c → (V, otr_target_id r, c) ∈ g_cursors g) ts.

Lemma resume_pages_fewer m m' V ts :
  Forall (fun r => cursor_ok V (otr_target_id r) (otr_cursor r)) ts →
  (∀ t q, t ∈ otr_target_id <$> ts → rl_prefix V t `prefix_of` q → kv_get q m' = kv_get q m) →
  (resume_pages m' V ts ≤ resume_pages m V ts)%nat.
Proof.
  intros Hc Hq. induction Hc as [|r ts Hr _ IH]; [done|].
  change (pages m' V (otr_target_id r) (otr_cursor r) + resume_pages m' V ts ≤
          pages m V (otr_target_id r) (otr_cursor r) + resume_pages m V ts)%nat.
  apply Nat.add_le_mono.
  - unfold pages. apply le_n_S, Nat.Div0.div_le_mono, target_rows_fewer; [done|]. intros q. apply Hq. by left.
  - apply IH. intros t q Ht. apply Hq. by right.
Qed.

Lemma clean_targets_complete budget V ts m g o :
  Rows m g → ver_ok V → reclaiming m V → resumes_ok V g ts → (resume_pages m V ts ≤ budget)%nat →
  ∃ m' g' b' o', clean_targets budget V.1 V.2 ts o m = (m', Ok (true, b', o')) ∧ Rows m' g' ∧
    g_committed g' = g_committed g ∧ marker m' V = marker m V ∧ ro_reaped o' = ro_reaped o ∧
    ∀ t, seg_ok t → presence m' V t = if decide (t ∈ otr_target_id <$> ts) then None else presence m V t.
Proof.
  revert budget m g o. induction ts as [|r ts IH]; intros budget m g o Hr HV Hrec [Hnd Hts] Hb.
  { exists m, g, budget, o. split_and!; [done..|]. intros t _. rewrite decide_False; [done|]. apply not_elem_of_nil. }
  apply NoDup_cons in Hnd as [Hnin Hnd]. apply Forall_cons in Hts as [[Ht Hcur] Hts].
  assert (resume_pages m V (r :: ts) = pages m V (otr_target_id r) (otr_cursor r) + resume_pages m V ts)%nat as Esum by done.
  destruct (clean_target_completes budget V (otr_target_id r) (otr_cursor r) m g o) as (m1 & g1 & b1 & o1 & E1 & Hb1 & Hct & Hp1 & Ho1);
    [done..|lia|]. destruct Hct as [A1 A2 A3 A4 A5 A6].
  assert (∀ t, t ∈ otr_target_id <$> ts → seg_ok t ∧ t ≠ otr_target_id r) as Hne.
  { intros t Hin. split; [|by intros ->]. apply list_elem_of_fmap in Hin as (r' & -> & Hin).
    rewrite Forall_forall in Hts. by apply Hts. }
  assert (reclaiming m1 V) as Hrec1 by by apply (reclaiming_eq m).
  assert (resume_pages m1 V ts ≤ resume_pages m V ts)%nat as Hfewer.
  { apply resume_pages_fewer.
    - eapply Forall_impl; [exact Hts|]. intros r' [_ Hc]. destruct (otr_cursor r') as [c|] eqn:Er; [|done].
      by apply (r_cursors _ _ Hr V _ c HV Hrec), Hc.
    - intros t q Hin Hq. destruct (Hne t Hin). by apply (A6 t). }
  destruct (IH b1 m1 g1 o1) as (m2 & g2 & b2 & o2 & E2 & R1 & R2 & R3 & R4 & R5); [done|done|done| |lia|].
  { split; [done|]. eapply Forall_impl; [exact Hts|]. intros r' [H1 H2]. split; [done|]. intros c Hc. by apply A3, H2. }
  exists m2, g2, b2, o2. cbn [clean_targets]. rewrite (M_bind_run _ _ _ _ _ E1). split; [exact E2|].
  split_and!; [done|congruence|congruence|congruence|]. intros t Hseg. rewrite R5 by done. cbn [fmap list_fmap].
  destruct (decide (t ∈ otr_target_id <$> ts)) as [D|D], (decide (t ∈ otr_target_id r :: (otr_target_id <$> ts))) as [D'|D']; try done.
  - exfalso. apply D'. by right.
  - by apply elem_of_cons in D' as [->|?].
  - apply A5; [done|]. intros ->. apply D'. by left.
Qed.

(** With no presence row left, finishing removes the marker. *)
Lemma finish_completes V m g :
  Rows m g → ver_ok V → reclaiming m V → (∀ t, seg_ok t → presence m V t = None) →
  ∃ m', finish_orphan_version V.1 V.2 m = (m', Ok true) ∧ marker m' V = None.
Proof.
  intros Hr HV (p & (bytes & Em & Ep) & Hst) Hnone. unfold finish_orphan_version, finish_txn, run. rewrite trx_get_bind.
  change (kv_get (pending_version_key V.1 V.2) m) with (marker m V). rewrite Em, Ep, lift_Ok_bind, Hst.
  rewrite bool_decide_eq_true_2 by done. cbn [negb]. rewrite trx_range_limit_bind.
  change (pending_version_subspace_range V.1 V.2) with (mk V, prefix_end (mk V)). cbn [fst snd].
  assert (kv_range (mk V) (prefix_end (mk V)) m ⊆+ [(mk V, bytes)]) as Hlen%submseteq_length.
  { apply NoDup_submseteq; [apply strictly_sorted_NoDup, kv_range_sorted|]. intros [q x] [Hq Hg]%kv_range_elem.
    destruct (r_pending_keys _ _ Hr q (subspace_kspace V q Hq)) as [(V' & HV' & ->)|(V' & t & HV' & Ht & _ & ->)]; [by rewrite Hg|..].
    - apply mk_prefix in Hq as ->; [|done..]. apply list_elem_of_singleton. f_equal. unfold marker in Em. congruence.
    - apply pk_prefix in Hq as ->; [|done..]. specialize (Hnone t Ht). unfold presence in Hnone. congruence. }
  cbn [length] in Hlen. destruct (Z.ltb_spec 1 (len (kv_range_limit (mk V) (prefix_end (mk V)) 2 m))) as [Hlt|_].
  - exfalso. unfold kv_range_limit in Hlt. cbn [Z.eqb] in Hlt. rewrite length_take in Hlt. lia.
  - rewrite trx_clear_range_bind, trx_clear_bind. eexists. split; [done|]. unfold marker. rewrite kv_get_clear, decide_False.
    2: { intros E. unfold mk, pending_version_key, version_reclaim_fence_key in E. apply (f_equal kspace) in E.
         rewrite !kspace_encode in E. discriminate E. }
    cbn [fst snd]. rewrite kv_get_clear_range. by rewrite (proj2 (mk_prefix V V HV HV) eq_refl).
Qed.

(** ** The claim's targets *)

Definition version_row (V : Version) (q : list byte) : Prop := q = mk V ∨ ∃ t, text_ok t ∧ q = pk V t.

Lemma subspace_rows m g V row :
  Rows m g → ver_ok V → row ∈ kv_range (mk V) (prefix_end (mk V)) m → version_row V row.1.
Proof.
  intros Hr HV. destruct row as [q x]. intros [Hq Hg]%kv_range_elem.
  destruct (r_pending_keys _ _ Hr q (subspace_kspace V q Hq)) as [(V' & HV' & ->)|(V' & t & HV' & Ht & Hu & ->)]; [by rewrite Hg|..].
  - left. by apply mk_prefix in Hq as ->.
  - right. exists t. split; [done|]. by apply pk_prefix in Hq as ->.
Qed.

Lemma resume_row V row r :
  ver_ok V → version_row V row.1 → resume_of_row row = Some r →
  text_ok (otr_target_id r) ∧ row.1 = pk V (otr_target_id r) ∧ otr_cursor r = if bool_decide (row.2 = []) then None else Some row.2.
Proof.
  intros [HV1 HV2] Hv E. destruct row as [q x]. cbn [fst snd] in *. destruct Hv as [->|(t & [Ht Hu] & ->)].
  - rewrite (resume_of_marker _ _ _ _ (decode_marker_key V.1 V.2 HV1 HV2)) in E. discriminate E.
  - rewrite (resume_of_presence _ _ _ _ _ (decode_presence_key V.1 V.2 t HV1 HV2 Ht Hu)) in E.
    apply (inj Some) in E. subst r. done.
Qed.

Lemma resume_NoDup V l :
  ver_ok V → (∀ row, row ∈ l → version_row V row.1) → StronglySorted (fun x y => bytes_ltb x.1 y.1 = true) l →
  NoDup (otr_target_id <$> omap resume_of_row l).
Proof.
  intros HV Hrows Hs. induction Hs as [|row l _ IH Hf]; [constructor|]. cbn [omap list_omap].
  assert (∀ row', row' ∈ l → version_row V row'.1) as Hl by (intros; apply Hrows; by right).
  destruct (resume_of_row row) as [r|] eqn:Er; [|by apply IH]. apply NoDup_cons. split; [|by apply IH].
  intros (r' & Eid & Hin)%list_elem_of_fmap. apply list_elem_of_omap in Hin as (row' & Hin & Er').
  apply (resume_row V) in Er as (_ & E1 & _); [|done|apply Hrows; by left].
  apply (resume_row V) in Er' as (_ & E2 & _); [|done|by apply Hl].
  rewrite Forall_forall in Hf. specialize (Hf row' Hin). cbn in Hf. rewrite E1, E2, Eid, bytes_ltb_irrefl in Hf. done.
Qed.

Definition claim_resumes (m : KV) (V : Version) : list OrphanTargetResume :=
  omap resume_of_row (kv_range (mk V) (prefix_end (mk V)) m).

Lemma claim_resumes_ok m g V :
  Rows m g → ver_ok V → resumes_ok V (add_cursors V (claim_resumes m V) g) (claim_resumes m V).
Proof.
  intros Hr HV. split.
  - apply (resume_NoDup V); [done|by intros row; apply (subspace_rows m g)|apply kv_range_sorted].
  - apply Forall_forall. intros r Hin. pose proof Hin as (row & Hrow & Er)%list_elem_of_omap.
    apply (resume_row V) in Er as (Ht & _ & _); [|done|by eapply subspace_rows]. split; [done|]. intros c Hc.
    cbn [add_cursors g_cursors]. apply elem_of_app. left. apply list_elem_of_omap. exists r. by rewrite Hc.
Qed.

Lemma claim_resumes_all m g V t :
  Rows m g → ver_ok V → seg_ok t → presence m V t ≠ None → t ∈ otr_target_id <$> claim_resumes m V.
Proof.
  intros Hr HV Ht Hp. destruct (presence m V t) as [x|] eqn:Ex; [|done]. unfold presence in Ex.
  assert (utf8_valid t = true) as Hu.
  { destruct (r_pending_keys _ _ Hr (pk V t) (kspace_pk V t)) as [(V' & HV' & E)|(V' & t' & HV' & Ht' & Hu & E)]; [by rewrite Ex|..].
    - symmetry in E. by apply mk_pk in E.
    - apply pk_inj in E as [_ ->]; done. }
  apply list_elem_of_fmap. exists (mkResume t (if bool_decide (x = []) then None else Some x)). split; [done|].
  apply list_elem_of_omap. exists (pk V t, x). split; [apply kv_range_elem; split; [by apply pk_prefix|done]|].
  destruct HV as [HV1 HV2]. exact (resume_of_presence (pk V t) x V.1 V.2 t (decode_presence_key V.1 V.2 t HV1 HV2 Ht Hu)).
Qed.

(** A version the reaper may claim: its reclamation has begun, or its marker has expired and
    its lease is not active. *)
Definition claimable (m : KV) (V : Version) (now cg lg : Z) : Prop :=
  ∃ p, pending m V p ∧
    (pv_state p = RECLAIMING ∨
     pending_version_claim_eligible p now cg = true ∧ lease_active now lg (kv_get (object_lease_key V.1) m) = Ok false).

Lemma head_is_live_false m g V p :
  Rows m g → ver_ok V → pending m V p → head_is_live (vt V) p m = (m, Ok false).
Proof.
  intros Hr HV Hp. pose proof (pending_ok _ _ _ Hp) as (_ & _ & Hb & _ & Hk & _). unfold head_is_live.
  destruct (_ || _); [done|]. rewrite trx_get_bind.
  change (kv_get (object_head_key (pv_bucket_id p) (pv_key p)) m) with (head m (pv_bucket_id p) (pv_key p)).
  destruct (head m (pv_bucket_id p) (pv_key p)) as [x|] eqn:Eh; [|done]. cbn [decode_opt].
  destruct (r_head _ _ Hr _ _ x Hb Hk Eh) as (h & V' & Ed & HV' & Ecur & _ & Hc). rewrite Ed, result_bind_eq, lift_Ok_bind.
  rewrite bool_decide_eq_false_2; [done|]. rewrite Ecur. intros E%vt_inj; [|done..]. subst V'.
  apply pending_marker in Hp. by apply Hp, (r_committed_unmarked _ _ Hr).
Qed.

Lemma claim_completes m g V now cg lg :
  Rows m g → ver_ok V → claimable m V now cg lg →
  ∃ m' c, claim_orphan_version V.1 V.2 now cg lg m = (m', Ok c) ∧
    (c = Claimed (claim_resumes m V) ∨ c = Resumed (claim_resumes m V)).
Proof.
  intros Hr HV (p & Hp & Hcl). pose proof Hp as (x & Ex & Ep). unfold claim_orphan_version, claim_txn, run. cbv zeta.
  rewrite trx_get_bind. change (kv_get (pending_version_key V.1 V.2) m) with (marker m V). rewrite Ex, Ep, lift_Ok_bind.
  assert (∀ k : list OrphanTargetResume → M KV Status OrphanVersionClaim,
    (claim_targets V.1 V.2 ≫= k) m = k (claim_resumes m V) m) as Ht by done.
  case_bool_decide as Hs; [rewrite Ht; eexists _, _; split; [done|by right]|].
  destruct Hcl as [?|[He Hl]]; [done|]. rewrite He. cbn [negb]. rewrite trx_get_bind, Hl, lift_Ok_bind.
  rewrite (M_bind_run _ _ _ _ _ (head_is_live_false m g V p Hr HV Hp)), Ht, trx_set_bind.
  eexists _, _. split; [done|by left].
Qed.

(** The state after a claim: the version is being reclaimed, its rows are as they were. *)
Lemma claim_state m g V now cg lg m1 c :
  Rows m g → ver_ok V → is_u64 now → claim_orphan_version V.1 V.2 now cg lg m = (m1, Ok c) →
  c = Claimed (claim_resumes m V) ∨ c = Resumed (claim_resumes m V) →
  Rows m1 (add_cursors V (claim_resumes m V) g) ∧ reclaiming m1 V ∧ same RLOG m m1 ∧
  ∀ t, seg_ok t → presence m1 V t = presence m V t.
Proof.
  intros Hr HV Hnow E Hc. destruct (step_claim m m1 g V now cg lg c Hr HV Hnow E) as [Hr1 _].
  apply claim_spec in E; [|done]. destruct Hc as [-> | ->].
  - destruct E as (p & Hp & _ & _ & Heff & _). split; [exact Hr1|].
    assert (PendingVersion_ok (mkPendingVersion now RECLAIMING (pv_bucket_id p) (pv_key p))) as Hok.
    { destruct (pending_ok _ _ _ Hp) as (_ & _ & Hok). split; [done|]. split; [by right|done]. }
    split; [eexists; split; [by eapply marker_effect_pending|done]|]. split.
    + apply (me_same _ _ _ _ Heff). rewrite !elem_of_cons. tauto.
    + intros t Ht. by apply (me_presence' _ _ _ _ Heff).
  - destruct E as (-> & Hrec & _). done.
Qed.

Lemma clean_version_completes budget V m g o ts :
  Rows m g → ver_ok V → reclaiming m V → resumes_ok V g ts → (resume_pages m V ts ≤ budget)%nat →
  (∀ t, seg_ok t → presence m V t ≠ None → t ∈ otr_target_id <$> ts) →
  ∃ m' g' b' o', clean_version budget V.1 V.2 ts o m = (m', Ok (b', o')) ∧ Rows m' g' ∧ g_committed g' = g_committed g ∧
    marker m' V = None ∧ ro_reaped o' = ro_reaped o + 1.
Proof.
  intros Hr HV Hrec Hts Hb Hall.
  destruct (clean_targets_complete budget V ts m g o Hr HV Hrec Hts Hb) as (m1 & g1 & b1 & o1 & E1 & R1 & R2 & R3 & R4 & R5).
  assert (reclaiming m1 V) as Hrec1 by by apply (reclaiming_eq m).
  destruct (finish_completes V m1 g1 R1 HV Hrec1) as (m2 & E2 & Hm2).
  { intros t Ht. rewrite R5 by done. destruct (decide _) as [D|D]; [done|]. destruct (presence m V t) eqn:Ep; [|done].
    exfalso. apply D, Hall; [done|]. by rewrite Ep. }
  exists m2, g1, b1, (add_reaped o1). unfold clean_version. rewrite (M_bind_run _ _ _ _ _ E1).
  rewrite (M_bind_run _ _ _ _ _ (attempt_Ok _ _ _ _ E2)). split; [done|]. split.
  - by destruct (step_finish m1 m2 g1 V true R1 HV E2).
  - split; [done|]. split; [done|]. rewrite <-R4. by destruct o1.
Qed.

Lemma reaped_rows m g V F :
  Rows m g → ver_ok V → frag_ok F → (V ∉ g_committed g) → marker m V = None →
  (rlog m V F = None ∨ rlog m V F = Some TOMB) ∧ occ m V F = None.
Proof.
  intros Hr HV HF Hc Hm. destruct (r_reaped _ _ Hr V F HV HF Hc Hm) as [Hn Ho]. split; [|done].
  destruct (rlog m V F) as [x|] eqn:Ex; [right|by left]. destruct (r_rlog_value _ _ Hr V F x HV HF Ex) as [->|Hx]; [done|].
  exfalso. apply Hn. by exists x.
Qed.

Lemma reap_version_rows budget V m g now cg lg o :
  Rows m g → ver_ok V → is_u64 now → claimable m V now cg lg → (resume_pages m V (claim_resumes m V) ≤ budget)%nat →
  ∃ m' b' o', reap_version budget now cg lg V.1 V.2 o m = (m', Ok (b', o')) ∧ ro_reaped o' = ro_reaped o + 1 ∧
    marker m' V = None ∧ ∀ F, frag_ok F → (rlog m' V F = None ∨ rlog m' V F = Some TOMB) ∧ occ m' V F = None.
Proof.
  intros Hr HV Hnow Hcl Hb. pose proof Hcl as (p & Hp & _).
  destruct (claim_completes m g V now cg lg Hr HV Hcl) as (m1 & c & E & Hc).
  destruct (claim_state m g V now cg lg m1 c Hr HV Hnow E Hc) as (Hr1 & Hrec & HS & Hpr).
  set (ts := claim_resumes m V) in *. set (g1 := add_cursors V ts g) in *.
  pose proof (claim_resumes_ok m g V Hr HV) as Hts.
  assert (resume_pages m1 V ts ≤ budget)%nat as Hb1.
  { etrans; [|exact Hb]. apply resume_pages_fewer.
    - destruct Hts as [_ Hts]. eapply Forall_impl; [exact Hts|]. intros r [_ Hcur].
      destruct (otr_cursor r) as [x|] eqn:Er; [|done]. by apply (r_cursors _ _ Hr1 V _ x HV Hrec), Hcur.
    - intros t q _ Hq. apply HS. by apply kspace_prefix in Hq. }
  assert (V ∉ g_committed g) as Hnc.
  { intros Hin. apply pending_marker in Hp. by apply Hp, (r_committed_unmarked _ _ Hr). }
  assert (∀ o, ∃ m' g' b' o', clean_version budget V.1 V.2 ts o m1 = (m', Ok (b', o')) ∧ Rows m' g' ∧
    g_committed g' = g_committed g1 ∧ marker m' V = None ∧ ro_reaped o' = ro_reaped o + 1) as Hclean.
  { intros o0. apply clean_version_completes; [done..|]. intros t Ht Hne. rewrite Hpr in Hne by done. by eapply claim_resumes_all. }
  unfold reap_version. rewrite (M_bind_run _ _ _ _ _ (attempt_Ok _ _ _ _ E)).
  destruct Hc as [-> | ->]; [destruct (Hclean (add_claimed o)) as (m' & g' & b' & o' & E' & R1 & R2 & R3 & R4)|
    destruct (Hclean (add_resumed o)) as (m' & g' & b' & o' & E' & R1 & R2 & R3 & R4)]; exists m', b', o'; (split; [done|]);
    (split; [rewrite R4; by destruct o|]); (split; [done|]); intros F HF;
    apply (reaped_rows m' g'); auto; by rewrite R2.
Qed.

(** C14: The reaper finishes: in every reachable state, a version whose reclamation has begun,
    or whose marker has expired with no active lease, is gone after one visit of the sweep
    whose budget covers its pages (a page per 2048 reverse-log rows and target). Its marker
    is removed, none of its fragments has a committed row or an occupancy row left, and the
    reclaimer asking about any of them is never again told it is committed. *)
Theorem reap_version_completes (s : Sys) budget V now cg lg o :
  kms_reachable s → ver_ok V → is_u64 now → claimable (s_db s) V now cg lg →
  (resume_pages (s_db s) V (claim_resumes (s_db s) V) ≤ budget)%nat →
  ∃ m' b' o', reap_version budget now cg lg V.1 V.2 o (s_db s) = (m', Ok (b', o')) ∧ ro_reaped o' = ro_reaped o + 1 ∧
    marker m' V = None ∧
    ∀ t si fi now' grace, frag_ok (t, si, fi) →
      (authorize_orphan_reclaim t V.1 V.2 si fi now' grace m').2 ≠ Ok CommittedLive.
Proof.
  intros Hs%kms_reachable_Inv HV Hnow Hcl Hb.
  destruct (reap_version_rows budget V (s_db s) (s_ghost s) now cg lg o (inv_rows _ Hs) HV Hnow Hcl Hb)
    as (m' & b' & o' & E & Ho & Hm & Hrows). exists m', b', o'. do 3 (split; [done|]). intros t si fi now' grace HF Heq.
  destruct (authorize_orphan_reclaim t V.1 V.2 si fi now' grace m') as [m2 r] eqn:Ea. cbn [snd] in Heq. subst r.
  apply (authorize_spec V (t, si, fi)) in Ea as [_ Hc]; [|done..]. destruct (Hrows _ HF) as [Hnc Hocc].
  destruct Hc as [(x & Hx & Hne)|[_ Hne]]; [|done]. destruct Hnc; congruence.
Qed.
End progress.
