(* ===== verification/KmsFences.v ===== *)
(** The backfill of reclaim fences (poc/kms/src/fdb_hot_store.rs, [backfill_reclaim_fences]):
    the loop over pages of the reverse log ends, and every tombstoned version is fenced. *)
From stdpp Require Import sorting.
From S2P Require Import Prelude Bytes Fdb KmsKeys KmsValues KmsStore KmsViews KmsEffects KmsReap KmsSystem KmsReaper.

Section backfill.
Context {KV : Type} {Hdb : Fdb KV} {Hlaws : FdbLaws KV} {Hcodec : KmsCodec}.

(** The loop over pages; each reads the reverse log at its own transaction's version. [None]
    is running out of fuel. *)
Fixpoint backfill_loop (fuel : nat) (now_unix_ms : Z) (cursor : list byte) (stamped_total : Z) : M KV Status (option Z) :=
  match fuel with
  | O => mret None
  | S fuel =>
      snap ← get_state;
      '(stamped, next_cursor) ← backfill_page snap now_unix_ms cursor;
      match next_cursor with
      | Some key => backfill_loop fuel now_unix_ms (key ++ [x00]) (stamped_total + stamped)
      | None => mret (Some (stamped_total + stamped))
      end
  end.

Definition backfill_reclaim_fences (fuel : nat) (now_unix_ms : Z) : M KV Status (option Z) :=
  backfill_loop fuel now_unix_ms target_reverse_log_scan_range.1 0.

(** The rows of the reverse log from a key on. *)
Definition log_rows (m : KV) (start : list byte) : list (list byte * list byte) :=
  kv_range start target_reverse_log_scan_range.2 m.

Lemma bytes_le_lt_trans a b c : bytes_ltb b a = false → bytes_ltb b c = true → bytes_ltb a c = true.
Proof.
  intros H1 H2. destruct (decide (a = b)) as [->|Hne]; [done|].
  destruct (bytes_ltb_total a b Hne) as [H|H]; [by eapply bytes_ltb_trans|congruence].
Qed.

Definition log_start : list byte := encode_key RLOG [].

Lemma log_rows_elem m start k x :
  bytes_ltb start log_start = false → (k, x) ∈ log_rows m start →
  kspace k = Some RLOG ∧ bytes_ltb k start = false ∧ bytes_ltb k target_reverse_log_scan_range.2 = true ∧ kv_get k m = Some x.
Proof.
  intros Hs [Hr Hg]%kv_range_elem. unfold in_range in Hr. apply andb_true_iff in Hr as [H1 H2]. apply negb_true_iff in H1.
  split_and!; [|done..]. apply (kspace_prefix RLOG []), encode_key_range. unfold in_range. apply andb_true_iff.
  split; [|exact H2]. apply negb_true_iff. destruct (bytes_ltb k (encode_key RLOG [])) eqn:E; [|done].
  rewrite (bytes_le_lt_trans start k log_start H1 E) in Hs. done.
Qed.

Lemma first_occurrences_elem x seen l : x ∈ l → x ∈ seen ∨ x ∈ first_occurrences seen l.
Proof.
  revert seen. induction l as [|y l IH]; intros seen; [by intros ?%not_elem_of_nil|]. cbn [first_occurrences].
  intros [->|Hin]%elem_of_cons.
  - case_bool_decide; [by left|]. right. by left.
  - case_bool_decide as D; [by apply IH|]. destruct (IH (y :: seen) Hin) as [[->|?]%elem_of_cons|?]; [right; by left|by left|right; by right].
Qed.

(** A page stamps the version of every tombstone it read. *)
Lemma backfill_page_run snap now start m :
  ∃ m' n, backfill_page snap now start m =
    (m', Ok (n, next_cursor BACKFILL_ROWS_PER_TXN (kv_range_limit start target_reverse_log_scan_range.2 BACKFILL_ROWS_PER_TXN snap))) ∧
    ∀ row V, row ∈ kv_range_limit start target_reverse_log_scan_range.2 BACKFILL_ROWS_PER_TXN snap →
      tombstone_version row = Some V → fence m' V ≠ None.
Proof.
  unfold backfill_page. cbv zeta. set (rows := kv_range_limit _ _ _ snap). set (vs := first_occurrences _ _). unfold run.
  assert (trx_each (fun '(object_id, object_version) => trx_set (version_reclaim_fence_key object_id object_version) (be64 now)) vs m =
    (kv_put_all ((fun x : Z * Z => (version_reclaim_fence_key x.1 x.2, be64 now)) <$> vs) m, Ok tt)) as E.
  { rewrite (trx_each_ext _ (fun x : Z * Z => trx_set (version_reclaim_fence_key x.1 x.2) (be64 now))) by by intros [].
    apply trx_each_set. }
  rewrite (M_bind_run _ _ _ _ _ E). eexists _, _. split; [done|]. intros row V Hin HV. unfold fence.
  assert (V ∈ vs) as Hvs.
  { destruct (first_occurrences_elem V [] (omap tombstone_version rows)) as [?%not_elem_of_nil|?]; [|done..].
    apply list_elem_of_omap. by exists row. }
  destruct (kv_put_all_get ((fun x : Z * Z => (version_reclaim_fence_key x.1 x.2, be64 now)) <$> vs) (fk V) m) as (y & _ & ->); [|done].
  rewrite <-list_fmap_compose. apply list_elem_of_fmap. by exists V.
Qed.

(** The rows past a full page's cursor are those the page did not read. *)
Lemma log_rows_after m m' start (n : nat) c w :
  same RLOG m m' → bytes_ltb start log_start = false → last (take n (log_rows m start)) = Some (c, w) →
  bytes_ltb (c ++ [x00]) log_start = false ∧
  (∀ row, row ∈ log_rows m start → row ∈ take n (log_rows m start) ∨ row ∈ log_rows m' (c ++ [x00])) ∧
  (n ≤ length (take n (log_rows m start)) → length (log_rows m' (c ++ [x00])) + n ≤ length (log_rows m start))%nat.
Proof.
  intros HS Hst Hl. set (R := log_rows m start) in *.
  pose proof (kv_range_sorted _ _ _ : StronglySorted (fun x y => bytes_ltb x.1 y.1 = true) R) as Hso.
  assert ((c, w) ∈ take n R) as Hc by by apply last_Some_elem_of in Hl.
  assert ((c, w) ∈ R) as HcR by (rewrite <-(take_drop n R); apply elem_of_app; by left).
  destruct (log_rows_elem m start c w Hst HcR) as (_ & Hcs & Hce & _).
  assert (bytes_ltb (c ++ [x00]) log_start = false) as Hcl.
  { destruct (bytes_ltb (c ++ [x00]) log_start) eqn:E; [|done]. rewrite <-Hst. symmetry.
    eapply bytes_le_lt_trans; [exact Hcs|]. eapply bytes_ltb_trans; [|exact E].
    destruct (bytes_ltb c (c ++ [x00])) eqn:E'; [done|]. exfalso. apply not_false_iff_true in E. apply E.
    pose proof (after_cursor c (c ++ [x00])) as Hac. rewrite bytes_ltb_irrefl in Hac. rewrite E' in Hac. by destruct Hac as [Hac _]; specialize (Hac eq_refl). }
  split; [exact Hcl|]. split.
  - intros [k x] Hin. pose proof Hin as Hin'. rewrite <-(take_drop n R) in Hin'. apply elem_of_app in Hin' as [?|Hd]; [by left|right].
    destruct (log_rows_elem m start k x Hst Hin) as (Hk & _ & Hke & Hg).
    assert (bytes_ltb c k = true) as Hck.
    { rewrite <-(take_drop n R) in Hso. exact (sorted_app_lt _ _ (c, w) (k, x) Hso Hc Hd). }
    apply kv_range_elem. split; [|by rewrite (HS k Hk)]. unfold in_range. rewrite Hke, (proj2 (after_cursor c k) Hck). done.
  - intros Hn. assert (log_rows m' (c ++ [x00]) ⊆+ drop n R) as Hsub%submseteq_length.
    { apply NoDup_submseteq; [apply strictly_sorted_NoDup, kv_range_sorted|]. intros [k x] Hin.
      destruct (log_rows_elem m' (c ++ [x00]) k x Hcl Hin) as (Hk & Hkc%after_cursor & Hke & Hg). rewrite (HS k Hk) in Hg.
      assert ((k, x) ∈ R) as HkR.
      { apply kv_range_elem. split; [|done]. unfold in_range. rewrite Hke, andb_true_r. apply negb_true_iff.
        destruct (bytes_ltb k start) eqn:E; [|done]. rewrite (bytes_ltb_trans c k start Hkc E) in Hcs. done. }
      rewrite <-(take_drop n R) in HkR. apply elem_of_app in HkR as [HkR|?]; [|done].
      eapply sorted_upto_last in HkR; [|by apply sorted_take|exact Hl]. congruence. }
    rewrite length_drop in Hsub. rewrite length_take in Hn. lia.
Qed.

Lemma backfill_rows_take start (m : KV) :
  kv_range_limit start target_reverse_log_scan_range.2 BACKFILL_ROWS_PER_TXN m = take (Z.to_nat 8192) (log_rows m start).
Proof. reflexivity. Qed.

Lemma backfill_loop_completes fuel now start total m :
  bytes_ltb start log_start = false → (length (log_rows m start) / Z.to_nat 8192 < fuel)%nat →
  ∃ m' n, backfill_loop fuel now start total m = (m', Ok (Some n)) ∧ (∀ p, p ≠ FENCES → same p m m') ∧
    (∀ V, fence m V ≠ None → fence m' V ≠ None) ∧
    ∀ row V, row ∈ log_rows m start → tombstone_version row = Some V → fence m' V ≠ None.
Proof.
  revert start total m. induction fuel as [|fuel IH]; intros start total m Hst Hf; [lia|]. cbn [backfill_loop].
  destruct (backfill_page_run m now start m) as (m1 & n1 & E1 & Hrows). rewrite backfill_rows_take in *.
  destruct (backfill_spec _ _ _ _ _ _ E1) as [HS Hfence]. unfold mbind, M_mbind, get_state. rewrite E1. unfold next_cursor.
  set (R := log_rows m start) in *.
  destruct (Z.leb_spec BACKFILL_ROWS_PER_TXN (len (take (Z.to_nat 8192) R))) as [Hfull|Hpart].
  - destruct (last (take (Z.to_nat 8192) R)) as [[c w]|] eqn:El.
    2: { apply last_None in El. rewrite El in Hfull. cbn in Hfull. unfold BACKFILL_ROWS_PER_TXN in Hfull. lia. }
    cbn [fmap option_fmap option_map fst]. unfold BACKFILL_ROWS_PER_TXN in Hfull.
    destruct (log_rows_after m m1 start (Z.to_nat 8192) c w) as (Hcl & Hcov & Hlen); [by apply HS|done|done|].
    destruct (IH (c ++ [x00]) (total + n1) m1 Hcl) as (m2 & n2 & E2 & HS2 & Hf2 & Hr2).
    { fold R in Hlen. specialize (Hlen ltac:(lia)). apply Nat.succ_lt_mono. eapply Nat.le_lt_trans; [|exact Hf].
      transitivity ((length (log_rows m1 (c ++ [x00])) + 1 * Z.to_nat 8192) / Z.to_nat 8192)%nat; [rewrite Nat.div_add; lia|].
      apply Nat.Div0.div_le_mono. lia. }
    exists m2, n2. split; [exact E2|]. split; [intros p Hp; eapply same_trans; [by apply HS|by apply HS2]|].
    split; [by intros V HV; apply Hf2, Hfence|]. intros row V Hin HV. destruct (Hcov row Hin) as [Hin'|Hin'].
    + apply Hf2. by eapply Hrows.
    + by eapply Hr2.
  - eexists m1, _. split; [done|]. split; [done|]. split; [done|]. intros row V Hin HV. eapply Hrows; [|done].
    unfold BACKFILL_ROWS_PER_TXN in Hpart. rewrite length_take in Hpart. rewrite take_ge by lia. done.
Qed.

Lemma vt_utf8 V : ver_ok V → utf8_valid (vt V) = true.
Proof.
  intros [[H1 _] [H2 _]]. apply ascii_utf8. unfold vt, version_id_text. rewrite !Forall_app.
  assert (∀ n, 0 ≤ n → Forall (fun b => byte_in 0 127 b = true) (dec_to_string n)) as Hd.
  { intros n Hn. eapply Forall_impl; [by apply dec_digits_ascii|]. intros b. unfold byte_in. lia. }
  split_and!; auto.
Qed.

Lemma tombstone_version_of V F :
  ver_ok V → text_ok F.1.1 → tombstone_version (rk V F, TOMB) = Some V.
Proof.
  intros HV [Ht Hu]. unfold tombstone_version. cbn [fst snd].
  change (is_reverse_log_reclaim_tombstone TOMB) with true. cbn [negb]. unfold rk.
  rewrite decode_reverse_log_key by (done || apply vt_seg || by apply vt_utf8). cbn [result_ok mbind option_bind].
  destruct V as [id v], HV as [H1 H2]. unfold vt. by rewrite parse_version_id_text.
Qed.

(** The backfill fences every tombstoned version: with one step of fuel per 8192 rows of
    the reverse log, and one more, the loop ends, changes nothing but fences, keeps the
    fences there were, and leaves a fence for the version of every tombstone in the log. *)
Theorem backfill_fences_all fuel now (m : KV) :
  (length (log_rows m log_start) / Z.to_nat 8192 < fuel)%nat →
  ∃ m' n, backfill_reclaim_fences fuel now m = (m', Ok (Some n)) ∧ (∀ p, p ≠ FENCES → same p m m') ∧
    (∀ V, fence m V ≠ None → fence m' V ≠ None) ∧
    ∀ V F, ver_ok V → text_ok F.1.1 → rlog m V F = Some TOMB → fence m' V ≠ None.
Proof.
  intros Hf. destruct (backfill_loop_completes fuel now log_start 0 m) as (m' & n & E & H1 & H2 & H3);
    [apply bytes_ltb_irrefl|done|]. exists m', n. split; [exact E|]. split; [done|]. split; [done|].
  intros V F HV HF Hrow. apply (H3 (rk V F, TOMB)); [|by apply tombstone_version_of]. apply kv_range_elem. split; [|exact Hrow].
  apply (encode_key_range RLOG []). unfold rk, target_reverse_log_key. apply encode_key_prefix; [segs..|].
  - apply Forall_cons_2; [apply HF|segs].
  - split; [done|]. apply prefix_nil.
Qed.
End backfill.
