(* ===== verification/KmsBatch.v ===== *)
(** The batched commit against commits made one by one: one transaction that reads for every
    object before it writes for any has the effect and the answers of the single commits in
    order, when the objects' keys and versions are distinct. *)
From S2P Require Import Prelude Bytes Fdb KmsKeys KmsValues KmsStore KmsViews KmsEffects.

Section batch.
Context {KV : Type} {Hdb : Fdb KV} {Hlaws : FdbLaws KV} {Hcodec : KmsCodec}.

(** The reference: each commit is its own transaction; [i] counts the UUIDs used. *)
Fixpoint commits_one_by_one (uuid : nat → list byte) (i : nat) (commits : list SingleShotCommit) :
    M KV Status (list (result Status ObjectHead)) :=
  match commits with
  | [] => mret []
  | c :: commits' =>
      r ← attempt (commit_object_single_shot (uuid i) c);
      rs ← commits_one_by_one uuid (match validate_single_shot_commit c with Ok _ => S i | Err _ => i end) commits';
      mret (r :: rs)
  end.

Definition vc_ver (vc : ValidatedSingleShotCommit) : Version := (vc_object_id vc, vc_object_version vc).
Definition vc_name (vc : ValidatedSingleShotCommit) : list byte * list byte :=
  (ovm_bucket_id (vc_manifest vc), ovm_key (vc_manifest vc)).

Record vc_good (vc : ValidatedSingleShotCommit) : Prop := {
  vg_ver : ver_ok (vc_ver vc);
  vg_bucket : seg_ok (vc_name vc).1;
  vg_key : seg_ok (vc_name vc).2;
  vg_version_id : ovm_version_id (vc_manifest vc) = vt (vc_ver vc);
  vg_head_key : vc_head_key vc = object_head_key (vc_name vc).1 (vc_name vc).2;
  vg_fragments : Forall fplan_ok (fragments (ovm_stripes (vc_manifest vc)));
}.

Lemma validate_good c vc :
  validate_single_shot_commit c = Ok vc → seg_ok (vc_name vc).1 → seg_ok (vc_name vc).2 →
  Forall fplan_ok (fragments (ovm_stripes (ssc_manifest c))) → vc_good vc.
Proof.
  intros Hv Hb Hk Hfs. apply validate_Ok in Hv as (V & k & HV & E1 & E2 & _ & Em & Ev & Eh & _).
  assert (vc_ver vc = V) as Ever by (unfold vc_ver; rewrite E1, E2; by destruct V).
  split; [by rewrite Ever|done|done|rewrite Em, Ever; exact Ev|rewrite Eh; unfold vc_name; by rewrite Em|by rewrite Em].
Qed.

(** The head a commit would replace is readable. *)
Definition head_readable (m : KV) (vc : ValidatedSingleShotCommit) : Prop :=
  ∀ bytes, kv_get (vc_head_key vc) m = Some bytes → ∃ h, decode_object_head bytes = Ok h.

(** ** Pass 1 depends on few rows *)

Record same_reads (vc : ValidatedSingleShotCommit) (m m' : KV) : Prop := {
  sr_head : kv_get (vc_head_key vc) m' = kv_get (vc_head_key vc) m;
  sr_marker : marker m' (vc_ver vc) = marker m (vc_ver vc);
  sr_fence : fence m' (vc_ver vc) = fence m (vc_ver vc);
  sr_rows : ∀ f, f ∈ fragments (ovm_stripes (vc_manifest vc)) →
    kv_get (rl_key_of (ovm_version_id (vc_manifest vc)) f) m' = kv_get (rl_key_of (ovm_version_id (vc_manifest vc)) f) m;
}.

Lemma check_rows_ext v fs m m' :
  (∀ f, f ∈ fs → kv_get (rl_key_of v f) m' = kv_get (rl_key_of v f) m) → (check_rows v fs m').2 = (check_rows v fs m).2.
Proof.
  induction fs as [|f fs IH]; intros He; [done|]. cbn [check_rows]. rewrite !trx_get_bind, (He f) by by left.
  destruct (match kv_get (rl_key_of v f) m with Some x => is_reverse_log_reclaim_tombstone x | None => false end); [done|].
  apply IH. intros g Hg. apply He. by right.
Qed.

Lemma pass1_ext uuid vc m m' :
  same_reads vc m m' → (single_shot_pass1 uuid vc m').2 = (single_shot_pass1 uuid vc m).2.
Proof.
  intros [H1 H2 H3 H4]. unfold single_shot_pass1. rewrite !trx_get_bind, H1.
  change (kv_get (pending_version_key (vc_object_id vc) (vc_object_version vc)) m') with (marker m' (vc_ver vc)). rewrite H2.
  change (kv_get (pending_version_key (vc_object_id vc) (vc_object_version vc)) m) with (marker m (vc_ver vc)).
  assert (∀ m (k : option (list byte) → M KV Status SingleShotPass1),
    ((if vc_marker_fenced vc then trx_get (version_reclaim_fence_key (vc_object_id vc) (vc_object_version vc)) else mret None) ≫= k) m =
    k (if vc_marker_fenced vc then fence m (vc_ver vc) else None) m) as Hf by (intros; by destruct (vc_marker_fenced vc)).
  rewrite !Hf, H3. destruct (decode_opt _ _) as [prior|]; [|done]. rewrite !lift_Ok_bind. cbv zeta.
  destruct (idempotent_head _ prior); [done|]. destruct (negb _); [done|]. destruct (bool_decide _); [done|].
  destruct (pass1_marker vc _ _) as [present|]; [|done]. destruct (vc_marker_fenced vc); [done|].
  unfold mbind, M_mbind, attempt. pose proof (check_rows_ext (ovm_version_id (vc_manifest vc)) _ m m' H4) as Hc.
  destruct (check_rows _ _ m') as [m1 r1], (check_rows _ _ m) as [m2 r2]. cbn in Hc. by subst r1.
Qed.

(** The decision on one object; pass 1 always answers when the head is readable. *)
Definition pass1_outcome (uuid : list byte) (vc : ValidatedSingleShotCommit) (m : KV) : SingleShotPass1 :=
  match (single_shot_pass1 uuid vc m).2 with Ok out => out | Err e => Rejected e end.

Lemma pass1_run uuid vc m :
  head_readable m vc → single_shot_pass1 uuid vc m = (m, Ok (pass1_outcome uuid vc m)).
Proof.
  intros Hh. pose proof (pass1_reads uuid vc m) as Hm. unfold pass1_outcome.
  destruct (single_shot_pass1 uuid vc m) as [m1 [out|e]] eqn:E; cbn [fst snd] in *; subst m1; [done|]. exfalso.
  unfold single_shot_pass1 in E. rewrite !trx_get_bind in E. unfold head_readable in Hh.
  destruct (kv_get (vc_head_key vc) m) as [bytes|].
  - destruct (Hh bytes eq_refl) as (h & Hd). cbn [decode_opt] in E. rewrite Hd in E.
    destruct (vc_marker_fenced vc); rewrite result_bind_eq in E; revert E; cbv zeta;
      unfold mbind, M_mbind, lift, trx_get, mret, M_mret, attempt;
      (destruct (idempotent_head _ _); [done|]); (destruct (negb _); [done|]); (destruct (bool_decide _); [done|]);
      (destruct (pass1_marker vc _ _); [|done]); [done|]; by destruct (check_rows _ _ m).
  - cbn [decode_opt] in E. destruct (vc_marker_fenced vc); revert E; cbv zeta;
      unfold mbind, M_mbind, lift, trx_get, mret, M_mret, attempt;
      (destruct (idempotent_head _ _); [done|]); (destruct (negb _); [done|]); (destruct (bool_decide _); [done|]);
      (destruct (pass1_marker vc _ _); [|done]); [done|]; by destruct (check_rows _ _ m).
Qed.

(** ** One attempt *)

Definition write_outcome (outcome : SingleShotPass1) : M KV Status unit :=
  match outcome with WriteReady plan => single_shot_pass2 plan | _ => mret tt end.

Definition attempt_state (uuid : list byte) (vc : ValidatedSingleShotCommit) (m : KV) : KV :=
  (write_outcome (pass1_outcome uuid vc m) m).1.

Lemma write_outcome_run uuid vc m :
  vc_good vc → head_readable m vc →
  write_outcome (pass1_outcome uuid vc m) m = (attempt_state uuid vc m, Ok tt) ∧
  (attempt_state uuid vc m = m ∨
   ∃ present h, commit_effect (vc_ver vc) (vc_name vc).1 (vc_name vc).2 (fragments (ovm_stripes (vc_manifest vc))) present h m
     (attempt_state uuid vc m)).
Proof.
  intros [G1 G2 G3 G4 G5 G6] Hh. unfold attempt_state. pose proof (pass1_run uuid vc m Hh) as Hp.
  destruct (pass1_outcome uuid vc m) as [plan|h|st]; cbn [write_outcome]; [|by split; [|left]..].
  apply pass1_ready in Hp as (_ & _ & _ & present & Hplan & _).
  apply prepare_plan_ready in Hplan as (P1 & P2 & P3 & P4 & P5 & P6 & _).
  destruct (pass2_effect (vc_ver vc) (vc_name vc).1 (vc_name vc).2 plan m) as (m' & E & Heff);
    [done|done|done|by rewrite P6|congruence|done|done|congruence|].
  rewrite E. split; [done|]. right. rewrite P6 in Heff. eauto.
Qed.

Lemma attempt_keeps_reads uuid vc vc' m :
  vc_good vc → vc_good vc' → head_readable m vc → vc_ver vc' ≠ vc_ver vc → vc_name vc' ≠ vc_name vc →
  same_reads vc' m (attempt_state uuid vc m).
Proof.
  intros Hg [G1 G2 G3 G4 G5 G6] Hh Hv Hn. destruct (write_outcome_run uuid vc m Hg Hh) as [_ [->|(present & h & Heff)]]; [done|].
  destruct Heff as [E1 E2 _ _ (_ & E4 & _) E5 _]. split.
  - rewrite G5. change (head (attempt_state uuid vc m) (vc_name vc').1 (vc_name vc').2 = head m (vc_name vc').1 (vc_name vc').2).
    rewrite E1 by done. rewrite decide_False; [done|]. intros [? ?]. apply Hn. by apply injective_projections.
  - rewrite E2 by done. rewrite decide_False; [done|]. by intros [_ ?].
  - by apply same_fence.
  - intros f Hf. rewrite Forall_forall in G6. destruct (G6 f Hf) as [Hfo _]. rewrite G4.
    apply (E4 (vc_ver vc') (frag_of f)); [done|done|]. by intros [? _].
Qed.

Lemma commit_attempt uuid c vc m :
  validate_single_shot_commit c = Ok vc → vc_good vc → head_readable m vc →
  attempt (commit_object_single_shot uuid c) m = (attempt_state uuid vc m, Ok (outcome_result (pass1_outcome uuid vc m))).
Proof.
  intros Hv Hg Hh. destruct (write_outcome_run uuid vc m Hg Hh) as [Hw _]. unfold attempt, commit_object_single_shot.
  rewrite Hv, lift_Ok_bind. unfold run. rewrite (M_bind_run _ _ _ _ _ (pass1_run uuid vc m Hh)). unfold attempt_state in *.
  destruct (pass1_outcome uuid vc m) as [plan|h|st]; cbn [write_outcome outcome_result] in *; [|done..].
  by rewrite (M_bind_run _ _ _ _ _ Hw).
Qed.

Lemma head_readable_keeps uuid vc vc' m :
  vc_good vc → vc_good vc' → head_readable m vc → vc_ver vc' ≠ vc_ver vc → vc_name vc' ≠ vc_name vc →
  head_readable m vc' → head_readable (attempt_state uuid vc m) vc'.
Proof.
  intros Hg Hg' Hh Hv Hn Hr bytes. rewrite (sr_head _ _ _ (attempt_keeps_reads uuid vc vc' m Hg Hg' Hh Hv Hn)). apply Hr.
Qed.

(** ** The transaction of a batch *)

Abbreviation attempts_t := (list (list byte * ValidatedSingleShotCommit)).

Fixpoint seq_run (attempts : attempts_t) (m : KV) : KV * list (result Status ObjectHead) :=
  match attempts with
  | [] => (m, [])
  | (uuid, vc) :: attempts' =>
      let '(m', rs) := seq_run attempts' (attempt_state uuid vc m) in
      (m', outcome_result (pass1_outcome uuid vc m) :: rs)
  end.

Definition outcomes (attempts : attempts_t) (m : KV) : list SingleShotPass1 :=
  (fun a => pass1_outcome a.1 a.2 m) <$> attempts.

Record batch_ok (attempts : attempts_t) (m : KV) : Prop := {
  bo_good : Forall (fun a => vc_good a.2) attempts;
  bo_readable : Forall (fun a => head_readable m a.2) attempts;
  bo_versions : NoDup ((fun a => vc_ver a.2) <$> attempts);
  bo_names : NoDup ((fun a => vc_name a.2) <$> attempts);
}.

Lemma batch_pass1_run attempts m :
  Forall (fun a => head_readable m a.2) attempts → batch_pass1 attempts m = (m, Ok (outcomes attempts m)).
Proof.
  induction 1 as [|[uuid vc] attempts Hh _ IH]; [done|]. cbn [batch_pass1].
  by rewrite (M_bind_run _ _ _ _ _ (pass1_run uuid vc m Hh)), (M_bind_run _ _ _ _ _ IH).
Qed.

Lemma batch_ok_tail uuid vc attempts m :
  batch_ok ((uuid, vc) :: attempts) m → batch_ok attempts (attempt_state uuid vc m) ∧
  outcomes attempts (attempt_state uuid vc m) = outcomes attempts m.
Proof.
  intros [B1 B2 B3 B4]. apply Forall_cons in B1 as [G B1]. apply Forall_cons in B2 as [R B2]. cbn [snd] in *.
  apply NoDup_cons in B3 as [N3 B3]. apply NoDup_cons in B4 as [N4 B4]. cbn [snd] in *.
  assert (∀ a, a ∈ attempts → vc_good a.2 ∧ vc_ver a.2 ≠ vc_ver vc ∧ vc_name a.2 ≠ vc_name vc) as Ha.
  { intros a Hin. rewrite Forall_forall in B1. split; [by apply B1|]. split; intros E.
    - apply N3, list_elem_of_fmap. by exists a.
    - apply N4, list_elem_of_fmap. by exists a. }
  split; [split; [done| |done|done]|].
  - rewrite Forall_forall in *. intros a Hin. destruct (Ha a Hin) as (H1 & H2 & H3). apply head_readable_keeps; auto.
  - apply list_fmap_ext. intros i a Hi. destruct (Ha a) as (H1 & H2 & H3); [by eapply list_elem_of_lookup_2|].
    unfold pass1_outcome. by rewrite (pass1_ext _ _ _ _ (attempt_keeps_reads uuid vc a.2 m G H1 R H2 H3)).
Qed.

Lemma batch_writes attempts m :
  batch_ok attempts m →
  trx_each write_outcome (outcomes attempts m) m = ((seq_run attempts m).1, Ok tt) ∧
  outcome_result <$> outcomes attempts m = (seq_run attempts m).2.
Proof.
  revert m. induction attempts as [|[uuid vc] attempts IH]; intros m Hb; [done|].
  destruct (batch_ok_tail _ _ _ _ Hb) as [Ht Eo]. destruct (IH _ Ht) as [E1 E2]. rewrite Eo in E1, E2.
  destruct Hb as [B1 B2 _ _]. apply Forall_cons in B1 as [G _]. apply Forall_cons in B2 as [R _].
  destruct (write_outcome_run uuid vc m G R) as [Ew _]. cbn [seq_run]. destruct (seq_run attempts _) as [m' rs]. cbn [fst snd] in *.
  split.
  - change (outcomes ((uuid, vc) :: attempts) m) with (pass1_outcome uuid vc m :: outcomes attempts m). cbn [trx_each].
    by rewrite (M_bind_run _ _ _ _ _ Ew).
  - by rewrite <-E2.
Qed.

Lemma batch_txn_run attempts m :
  batch_ok attempts m → run (batch_txn attempts) m = ((seq_run attempts m).1, Ok (seq_run attempts m).2).
Proof.
  intros Hb. destruct (batch_writes attempts m Hb) as [E1 E2]. unfold run, batch_txn.
  rewrite (M_bind_run _ _ _ _ _ (batch_pass1_run attempts m (bo_readable _ _ Hb))).
  rewrite (M_bind_run _ _ m _ _ E1). by rewrite E2.
Qed.

(** ** Slots *)

(** The commits of a request that pass validation. *)
Definition valid_commits (commits : list SingleShotCommit) : list ValidatedSingleShotCommit :=
  omap (fun c => result_ok (validate_single_shot_commit c)) commits.

Lemma batch_slots_validate seen commits :
  NoDup (vc_name <$> valid_commits commits) → (∀ x, x ∈ vc_name <$> valid_commits commits → x ∉ seen) →
  batch_slots seen commits = validate_single_shot_commit <$> commits.
Proof.
  revert seen. induction commits as [|c commits IH]; intros seen Hnd Hs; [done|]. cbn [batch_slots fmap list_fmap].
  unfold valid_commits in *. cbn [omap list_omap] in *. destruct (validate_single_shot_commit c) as [vc|e] eqn:Ev; cbn [result_ok] in *.
  - cbn [fmap list_fmap] in *. apply NoDup_cons in Hnd as [Hn Hnd].
    change (ovm_bucket_id (vc_manifest vc), ovm_key (vc_manifest vc)) with (vc_name vc).
    rewrite bool_decide_eq_false_2 by (apply Hs; by left). rewrite IH; [done|done|]. intros x Hx [->|Hin]%elem_of_cons; [done|].
    apply (Hs x); [by right|done].
  - by rewrite IH.
Qed.

Lemma valid_commits_slots commits : omap result_ok (validate_single_shot_commit <$> commits) = valid_commits commits.
Proof. unfold valid_commits. induction commits as [|c commits IH]; [done|]. cbn. rewrite IH. done. Qed.

Definition offset_attempts (uuid : nat → list byte) (i : nat) (vcs : list ValidatedSingleShotCommit) : attempts_t :=
  imap (fun j vc => (uuid (i + j)%nat, vc)) vcs.

Lemma offset_attempts_cons uuid i vc vcs :
  offset_attempts uuid i (vc :: vcs) = (uuid i, vc) :: offset_attempts uuid (S i) vcs.
Proof.
  unfold offset_attempts. rewrite imap_cons. f_equal; [by rewrite Nat.add_0_r|]. apply imap_ext. intros j x _.
  cbn. by rewrite Nat.add_succ_r.
Qed.

Lemma offset_attempts_snd uuid i vcs {A} (f : ValidatedSingleShotCommit → A) :
  (fun a => f a.2) <$> offset_attempts uuid i vcs = f <$> vcs.
Proof.
  revert i. induction vcs as [|vc vcs IH]; intros i; [done|]. rewrite offset_attempts_cons. cbn [fmap list_fmap]. f_equal. apply IH.
Qed.

Lemma one_by_one_run uuid i commits m :
  batch_ok (offset_attempts uuid i (valid_commits commits)) m →
  let res := seq_run (offset_attempts uuid i (valid_commits commits)) m in
  commits_one_by_one uuid i commits m = (res.1, Ok (merge_slots (validate_single_shot_commit <$> commits) res.2)).
Proof.
  revert i m. induction commits as [|c commits IH]; intros i m Hb; [done|]. cbn [commits_one_by_one].
  unfold valid_commits in Hb |- *. cbn [omap list_omap] in Hb |- *.
  destruct (validate_single_shot_commit c) as [vc|e] eqn:Ev; cbn [result_ok] in Hb |- *.
  - rewrite offset_attempts_cons in Hb |- *. destruct (batch_ok_tail _ _ _ _ Hb) as [Ht _].
    destruct Hb as [B1 B2 _ _]. apply Forall_cons in B1 as [G _]. apply Forall_cons in B2 as [R _].
    rewrite (M_bind_run _ _ _ _ _ (commit_attempt _ c vc m Ev G R)). rewrite (M_bind_run _ _ _ _ _ (IH _ _ Ht)).
    cbn [seq_run fmap list_fmap]. rewrite Ev. unfold valid_commits. by destruct (seq_run _ _) as [m' rs].
  - assert (attempt (commit_object_single_shot (uuid i) c) m = (m, Ok (Err e))) as E.
    { unfold attempt, commit_object_single_shot. by rewrite Ev. }
    rewrite (M_bind_run _ _ _ _ _ E), (M_bind_run _ _ _ _ _ (IH _ _ Hb)). cbn [fmap list_fmap]. by rewrite Ev.
Qed.

Lemma merge_slots_length {A B} (slots : list (result Status A)) (rs : list (result Status B)) :
  length rs = length (omap result_ok slots) → length (merge_slots slots rs) = length slots.
Proof.
  revert rs. induction slots as [|[a|e] slots IH]; intros rs Hl; [done|..]; cbn in *.
  - destruct rs as [|r rs]; [done|]. cbn in *. f_equal. apply IH. congruence.
  - f_equal. by apply IH.
Qed.

Lemma seq_run_length attempts m : length (seq_run attempts m).2 = length attempts.
Proof.
  revert m. induction attempts as [|[u vc] attempts IH]; intros m; [done|]. cbn [seq_run].
  specialize (IH (attempt_state u vc m)). destruct (seq_run _ _). cbn in *. congruence.
Qed.

(** A request whose commits have distinct keys and distinct versions. *)
Definition batch_request_ok (commits : list SingleShotCommit) (m : KV) : Prop :=
  (∀ vc, vc ∈ valid_commits commits → vc_good vc ∧ head_readable m vc) ∧
  NoDup (vc_ver <$> valid_commits commits) ∧ NoDup (vc_name <$> valid_commits commits).

Lemma batch_request_attempts uuid i commits m :
  batch_request_ok commits m → batch_ok (offset_attempts uuid i (valid_commits commits)) m.
Proof.
  intros (H1 & H2 & H3). split; [| |by rewrite offset_attempts_snd..].
  - apply Forall_forall. intros a Ha%(list_elem_of_fmap_2 snd). rewrite (offset_attempts_snd _ _ _ (fun x => x)) in Ha.
    rewrite list_fmap_id in Ha. by apply H1.
  - apply Forall_forall. intros a Ha%(list_elem_of_fmap_2 snd). rewrite (offset_attempts_snd _ _ _ (fun x => x)) in Ha.
    rewrite list_fmap_id in Ha. by apply H1.
Qed.

(** C12: A batched commit is its commits made one by one: for a request whose valid commits
    name distinct keys and distinct versions, and whose heads can be read, the one
    transaction that checks every object before writing any leaves the database that
    committing them in order, each in its own transaction, leaves; it gives every commit the
    answer it would get on its own, in the order of the request, rejections included. *)
Theorem batch_is_sequential uuid commits (m : KV) :
  batch_request_ok commits m →
  commit_objects_single_shot_batch uuid commits m = commits_one_by_one uuid 0 commits m ∧
  ∃ m' rs, commits_one_by_one uuid 0 commits m = (m', Ok rs) ∧ length rs = length commits.
Proof.
  intros Hr. pose proof (batch_request_attempts uuid 0 commits m Hr) as Hb. destruct Hr as (H1 & H2 & H3).
  pose proof (one_by_one_run uuid 0 commits m Hb) as Eo. cbv zeta in Eo. rewrite Eo. split.
  - unfold commit_objects_single_shot_batch, batch_attempts. rewrite batch_slots_validate; [|done|by intros x _ ?%not_elem_of_nil].
    rewrite valid_commits_slots. change (imap (fun i vc => (uuid i, vc)) (valid_commits commits)) with
      (offset_attempts uuid 0 (valid_commits commits)).
    case_bool_decide as Hn; [by rewrite Hn|]. cbv zeta. by rewrite (M_bind_run _ _ _ _ _ (batch_txn_run _ _ Hb)).
  - eexists _, _. split; [done|]. rewrite merge_slots_length, length_fmap; [done|].
    rewrite seq_run_length, valid_commits_slots. unfold offset_attempts. by rewrite length_imap.
Qed.
End batch.
