(* ===== verification/KmsObjects.v ===== *)
(** Objects through their life: what was committed is what a read resolves, a deleted object
    is missing, and what deletion leaves for the granule reclaimer. *)
From S2P Require Import Prelude Bytes Fdb KmsKeys KmsValues KmsStore KmsViews KmsEffects KmsReap KmsInv KmsSystem KmsSteps KmsProtocol.

Section objects.
Context {KV : Type} {Hdb : Fdb KV} {Hlaws : FdbLaws KV} {Hcodec : KmsCodec} {Hcodecl : KmsCodecLaws}.

(** ** Reading back *)

Lemma load_chunks_ext ck ix (m m' : KV) :
  (∀ i, kv_get (ck i) m' = kv_get (ck i) m) → (load_chunks ck ix m').2 = (load_chunks ck ix m).2.
Proof.
  intros He. induction ix as [|i ix IH]; [done|]. cbn [load_chunks]. rewrite !trx_get_bind, He.
  destruct (ok_or _ _) as [chunk|]; [|done]. rewrite !lift_Ok_bind. unfold mbind, M_mbind.
  destruct (load_chunks ck ix m') as [m1 r1], (load_chunks ck ix m) as [m2 r2]. cbn in IH. subst r1. by destruct r2.
Qed.

Lemma load_manifest_ext v m m' :
  same PREFIX_OBJECT_VERSION m m' → same PREFIX_OBJECT_VERSION_CHUNK m m' → (load_manifest v m').2 = (load_manifest v m).2.
Proof.
  intros H1 H2. unfold load_manifest, load_blob. rewrite !trx_get_bind, (H1 (object_version_key v)) by reflexivity.
  destruct (kv_get (object_version_key v) m) as [x|]; [|done]. destruct (decode_blob_meta x) as [[n total]|]; [|done].
  pose proof (load_chunks_ext (object_version_chunk_key v) (seqZ 0 n) m m') as He.
  unfold mbind, M_mbind. destruct (load_chunks _ _ m') as [m1 r1], (load_chunks _ _ m) as [m2 r2]. cbn in He.
  rewrite He; [by destruct r2|]. intros i. by apply H2.
Qed.

Lemma load_manifest_run v m : load_manifest v m = (m, (load_manifest v m).2).
Proof. pose proof (load_manifest_reads v m) as E. destruct (load_manifest v m) as [m1 r]. cbn in *. by subst m1. Qed.

(** The part of the writes that comes after the manifest's. *)
Definition pass2_rest (plan : SingleShotWritePlan) (b k : list byte) : M KV Status unit :=
  let manifest := pl_manifest plan in
  let version_id := ovm_version_id manifest in
  _ ← write_reverse_log version_id (ovm_stripes manifest);
  _ ← write_target_current_fragment_index version_id (ovm_stripes manifest);
  _ ← trx_set (namespace_entry_key (ovm_namespace_id manifest) (ovm_object_entry_id manifest)) (pl_object_entry_json plan);
  _ ← trx_set (namespace_path_key (ovm_namespace_id manifest) (pl_object_entry_path plan)) (ovm_object_entry_id manifest);
  _ ← trx_set (object_head_key b k) (encode_object_head (pl_head plan));
  _ ← trx_clear (object_lease_key (pl_object_id plan));
  if pl_marker_present plan
  then trx_clear_range (pending_version_subspace_range (pl_object_id plan) (pl_object_version plan))
  else mret tt.

Definition REST : list byte :=
  [RLOG; OCC; PREFIX_NAMESPACE_ENTRY; PREFIX_NAMESPACE_PATH; HEADS; PREFIX_OBJECT_LEASE; PENDING].

Lemma pass2_rest_touches plan b k : touches REST (pass2_rest plan b k).
Proof.
  unfold REST, pass2_rest. cbv zeta.
  apply touches_bind; [eapply touches_weaken; [|apply write_reverse_log_touches]; intros p; rewrite !elem_of_cons; tauto|]. intros _.
  apply touches_bind; [eapply touches_weaken; [|apply write_index_touches]; intros p; rewrite !elem_of_cons; tauto|]. intros _.
  touch.
Qed.

Lemma chunk_key_inj v i j :
  seg_ok v → is_u32 i → is_u32 j → object_version_chunk_key v i = object_version_chunk_key v j → i = j.
Proof.
  intros Hv Hi Hj E. unfold object_version_chunk_key in E. apply encode_key_inj in E as [_ E]; [|segs..].
  apply cons_both in E as [_ E]. apply cons_both in E as [E _]. by apply hex8_inj in E.
Qed.

(** A manifest whose stored form is not taken for a chunk table. *)
Definition plain_manifest (x : ObjectVersionManifest) : Prop :=
  len (encode_manifest x) ≤ MAX_FDB_BLOB_CHUNK_BYTES → decode_blob_meta (encode_manifest x) = None.

(** The manifest a commit stores: the key normalized, the entry id filled in. *)
Definition stored_manifest (uuid k : list byte) (c : SingleShotCommit) : ObjectVersionManifest :=
  let x := set_manifest_key k (ssc_manifest c) in
  if bool_decide (ovm_object_entry_id x = []) then set_object_entry_id uuid x else x.

Lemma prepare_plan_manifest uuid vc present plan :
  prepare_plan uuid vc present = WriteReady plan →
  pl_manifest plan = (if bool_decide (ovm_object_entry_id (vc_manifest vc) = []) then set_object_entry_id uuid (vc_manifest vc) else vc_manifest vc) ∧
  pl_omit_manifest plan = vc_omit_manifest vc ∧
  (vc_omit_manifest vc = false → pl_manifest_bytes plan = encode_manifest (pl_manifest plan) ∧
     len (encode_manifest (pl_manifest plan)) ≤ MAX_SINGLE_SHOT_TXN_BYTES).
Proof.
  unfold prepare_plan. cbv zeta. set (x := if bool_decide _ then _ else _). destruct (Z.ltb_spec MAX_SINGLE_SHOT_TXN_BYTES
    (saturating_add64 (len (if vc_omit_manifest vc then [] else encode_manifest x))
       (saturating_mul 64 (len (fragments (ovm_stripes x))) SINGLE_SHOT_PER_FRAGMENT_TXN_BYTES))) as [|Hle]; [done|].
  injection 1 as <-. cbn [pl_manifest pl_omit_manifest pl_manifest_bytes]. split; [done|]. split; [done|]. intros Ho.
  rewrite Ho in *. split; [done|]. revert Hle. unfold saturating_add64, saturating_mul, MAX_SINGLE_SHOT_TXN_BYTES, SINGLE_SHOT_PER_FRAGMENT_TXN_BYTES. lia.
Qed.

Lemma validate_omit c vc : validate_single_shot_commit c = Ok vc → vc_omit_manifest vc = ssc_omit_manifest c.
Proof.
  unfold validate_single_shot_commit. intros (k & _ & Hc)%result_bind_Ok. cbv zeta in Hc.
  apply result_bind_Ok in Hc as ([id v] & _ & Hc). destruct (_ <? v); [done|]. destruct (existsb _ _); [done|]. by injection Hc as <-.
Qed.

(** The writes of a commit that stores its manifest. *)
Lemma pass2_manifest plan b k v m m' :
  pl_omit_manifest plan = false → pl_head_key plan = object_head_key b k → ovm_version_id (pl_manifest plan) = v → seg_ok v →
  pl_manifest_bytes plan = encode_manifest (pl_manifest plan) →
  len (encode_manifest (pl_manifest plan)) ≤ MAX_SINGLE_SHOT_TXN_BYTES → plain_manifest (pl_manifest plan) →
  single_shot_pass2 plan m = (m', Ok tt) →
  load_manifest v m' = (m', Ok (Some (encode_manifest (pl_manifest plan)))) ∧ same PREFIX_EC_PROFILE m m'.
Proof.
  intros Ho Ehk Ev Hv Eb Hlen Hplain E. unfold single_shot_pass2 in E. rewrite Ho, Eb, Ehk, Ev in E. cbv zeta in E.
  destruct (store_blob_load (object_version_key v) (object_version_chunk_prefix v) (object_version_chunk_key v)
    (encode_manifest (pl_manifest plan)) m) as (m0 & E0 & L0).
  - intros i j Hi Hj. by apply chunk_key_inj.
  - intros i _ Ei. apply (f_equal kspace) in Ei. discriminate Ei.
  - done.
  - unfold MAX_FDB_BLOB_CHUNK_BYTES, MAX_SINGLE_SHOT_TXN_BYTES in *. lia.
  - rewrite (M_bind_run _ _ _ _ _ E0) in E. 
    assert (pass2_rest plan b k m0 = (m', Ok tt)) as Er by (unfold pass2_rest; rewrite Ev; exact E).
    assert (∀ p, p ∉ REST → same p m0 m') as HS by (intros p Hp; by eapply touches_same; [apply pass2_rest_touches|exact Er|]).
    split.
    + rewrite load_manifest_run. f_equal. rewrite (load_manifest_ext v m0 m');
        [|apply HS; unfold REST; other_space..]. unfold load_manifest. by rewrite L0.
    + apply (same_trans _ m m0); [|apply HS; unfold REST; other_space].
      eapply touches_same; [apply store_blob_touches|exact E0|other_space].
Qed.

(** The commit's state and the manifest in it. *)
Lemma commit_manifest uuid c m m' h k :
  seg_ok (ovm_bucket_id (ssc_manifest c)) → seg_ok k → Forall fplan_ok (fragments (ovm_stripes (ssc_manifest c))) →
  normalize_object_key (ovm_key (ssc_manifest c)) = Ok k → ssc_omit_manifest c = false →
  plain_manifest (stored_manifest uuid k c) →
  commit_object_single_shot uuid c m = (m', Ok h) → head m (ovm_bucket_id (ssc_manifest c)) k = None →
  load_manifest (ovm_version_id (ssc_manifest c)) m' = (m', Ok (Some (encode_manifest (stored_manifest uuid k c)))) ∧
  head m' (ovm_bucket_id (ssc_manifest c)) k = Some (encode_object_head h) ∧
  oh_current_version_id h = ovm_version_id (ssc_manifest c) ∧ same PREFIX_EC_PROFILE m m'.
Proof.
  intros Hb Hks Hfs Hk Homit Hplain E Hnone.
  assert (oh_current_version_id h = ovm_version_id (ssc_manifest c) ∧
    head m' (ovm_bucket_id (ssc_manifest c)) k = Some (encode_object_head h)) as [Hcur Hhead].
  { apply commit_spec in E as (V & k' & HV & Ev & Ek & Hc & Hcase); [|done|by intros k' ?; assert (k' = k) as -> by congruence|done].
    assert (k' = k) as -> by congruence. split; [congruence|]. destruct Hcase as [[_ (x & Hx & _)]|(_ & _ & present & _ & Heff)]; [congruence|].
    rewrite (ce_head' _ _ _ _ _ _ _ _ Heff) by done. by rewrite decide_True. }
  unfold commit_object_single_shot in E. destruct (validate_single_shot_commit c) as [vc|] eqn:Evc; [|done].
  rewrite lift_Ok_bind, run_Ok in E. pose proof (validate_omit c vc Evc) as Eo. rewrite Homit in Eo.
  apply validate_Ok in Evc as (V & k' & HV & _ & _ & Ek & Em & Ev & Ehk & _). assert (k' = k) as -> by congruence.
  apply M_bind_Ok in E as (m1 & out & Hout & Ht). destruct out as [plan|h'|st]; [| |done].
  - apply pass1_ready in Hout as (-> & _ & _ & present & Hplan & _).
    pose proof (prepare_plan_ready _ _ _ _ Hplan) as (P1 & _ & _ & _ & P5 & _).
    apply prepare_plan_manifest in Hplan as (Q1 & Q2 & Q3). destruct (Q3 Eo) as [Q4 Q5]. rewrite Em in Q1, P5.
    assert (pl_manifest plan = stored_manifest uuid k c) as Q6 by exact Q1. rewrite Q6 in *.
    apply M_bind_Ok in Ht as (m2 & [] & E2 & [<- _]%pair_equal_spec).
    destruct (pass2_manifest plan (ovm_bucket_id (ssc_manifest c)) k (vt V) m m2) as [L Hs];
      [congruence|congruence|rewrite Q6; cbn in P5; congruence|apply vt_seg|by rewrite Q6|by rewrite Q6|by rewrite Q6|done|].
    rewrite Q6 in L. split; [by rewrite Ev|done].
  - apply pass1_idempotent in Hout as (x & Hx & _). rewrite Ehk in Hx. unfold head in Hnone. congruence.
Qed.

(** C19: What was committed is what a read resolves. The commit creates the head of its key
    (there was none) and stores its manifest (it does not ask to omit it); the stored
    manifest, when it fits one row, does not read as a table of blob rows; the fragments
    and the key have the form the keys of the store need; and the manifest's erasure-coding
    profile is stored and decodes. Then resolving the object, by any path that normalizes
    to the same key, answers that manifest (its key normalized, its entry id filled in when
    it came without one), together with the profile. *)
Theorem commit_then_resolve uuid c (m m' : KV) h k path pb profile :
  seg_ok (ovm_bucket_id (ssc_manifest c)) → seg_ok k → Forall fplan_ok (fragments (ovm_stripes (ssc_manifest c))) →
  normalize_object_key (ovm_key (ssc_manifest c)) = Ok k → ssc_omit_manifest c = false →
  plain_manifest (stored_manifest uuid k c) →
  commit_object_single_shot uuid c m = (m', Ok h) → head m (ovm_bucket_id (ssc_manifest c)) k = None →
  normalize_object_key path = Ok k →
  kv_get (ec_profile_key (ovm_ec_profile_id (ssc_manifest c))) m = Some pb → ec_profile_from_json pb = Ok profile →
  resolve_object_read (ovm_bucket_id (ssc_manifest c)) path m' = (m', Ok (stored_manifest uuid k c, profile)).
Proof.
  intros Hb Hks Hfs Hk Homit Hplain E Hnone Hpath Hpb Hprof.
  destruct (commit_manifest uuid c m m' h k Hb Hks Hfs Hk Homit Hplain E Hnone) as (L & Hh & Hcur & Hs).
  unfold resolve_object_read. rewrite Hpath, lift_Ok_bind. unfold run. rewrite trx_get_bind.
  unfold head in Hh. rewrite Hh. cbn [ok_or]. rewrite lift_Ok_bind, decode_encode_object_head, lift_Ok_bind, Hcur.
  rewrite (M_bind_run _ _ _ _ _ L). cbn [ok_or]. rewrite lift_Ok_bind, decode_encode_manifest, lift_Ok_bind, trx_get_bind.
  assert (ovm_ec_profile_id (stored_manifest uuid k c) = ovm_ec_profile_id (ssc_manifest c)) as -> by (unfold stored_manifest; by case_bool_decide).
  rewrite (Hs (ec_profile_key _)) by reflexivity. rewrite Hpb. cbn [ok_or]. by rewrite lift_Ok_bind, Hprof, lift_Ok_bind.
Qed.

(** ** Deletion *)

Lemma get_object_head_None b path k m :
  normalize_object_key path = Ok k → head m b k = None → get_object_head b path m = (m, Ok None).
Proof. intros Hk Hh. unfold get_object_head. rewrite Hk, lift_Ok_bind. unfold run. rewrite trx_get_bind. unfold head in Hh. by rewrite Hh. Qed.

(** C28: A deleted object is missing and its key is free again: after a deletion in a reachable
    state the head of the key is gone, resolving or deleting the object answers not-found,
    and the heads of all other keys are as they were. *)
Theorem delete_then_missing_object (s s1 : Sys) p b k path ns roster vids d :
  kms_reachable s → op_ok s (OpDelete b k ns roster vids) → kms_exec p (OpDelete b k ns roster vids) s = (s1, Ok d) →
  normalize_object_key path = Ok k →
  get_object_head b path (s_db s1) = (s_db s1, Ok None) ∧ resolve_object_read b path (s_db s1) = (s_db s1, Err NotFound_) ∧
  (∀ ns' roster' vids', run (delete_txn b k ns' roster' vids') (s_db s1) = (s_db s1, Err NotFound_)) ∧
  ∀ b' k', seg_ok b' → seg_ok k' → (b', k') ≠ (b, k) → head (s_db s1) b' k' = head (s_db s) b' k'.
Proof.
  intros Hs%kms_reachable_Inv (Hb & Hk & Hro) E Hpath. unfold kms_exec in E. cbn [run_op] in E.
  destruct (reply _ _ _) as [[b0 m'] r'] eqn:Er. apply pair_equal_spec in E as [<- ->]. cbn [s_db].
  apply reply_Ok in Er as (a & Er & ->). apply at_db_run in Er as [-> Er]. rewrite run_Ok in Er.
  apply delete_spec in Er as (x & h & Hh & Hd & E); [|done..].
  destruct (r_head _ _ (inv_rows _ Hs) b k x Hb Hk Hh) as (h' & V & E1 & HV & E2 & _). assert (h' = h) as -> by congruence.
  destruct (E V HV E2) as [[D1 _ _ _] _].
  assert (head m' b k = None) as Hnone by (rewrite D1 by done; by rewrite decide_True).
  split; [by eapply get_object_head_None|]. unfold head in Hnone. split_and!.
  - unfold resolve_object_read. rewrite Hpath, lift_Ok_bind. unfold run. by rewrite trx_get_bind, Hnone.
  - intros ns' roster' vids'. unfold run, delete_txn. by rewrite trx_get_bind, Hnone.
  - intros b' k' Hb' Hk' Hne. rewrite D1 by done. rewrite decide_False; [done|]. by intros [-> ->].
Qed.

(** Deleting an object whose manifest was not stored releases its granules: for every
    fragment of the version on a target of the roster the reclaimer is no longer told it is
    committed. *)
Theorem delete_releases_unstored (s s1 : Sys) p b k ns roster vids d V F now grace :
  kms_reachable s → op_ok s (OpDelete b k ns roster vids) →
  kms_exec p (OpDelete b k ns roster vids) s = (s1, Ok d) → live_at (s_db s) b k V → ver_ok V →
  load_manifest (vt V) (s_db s) = (s_db s, Ok None) → frag_ok F → F.1.1 ∈ roster →
  (authorize_orphan_reclaim F.1.1 V.1 V.2 F.1.2 F.2 now grace (s_db s1)).2 ≠ Ok CommittedLive.
Proof.
  intros Hs (Hb & Hk & Hro) E (x & h & Hh & Hd & Hcur) HV Hm HF Hin Ha. unfold kms_exec in E. cbn [run_op] in E.
  destruct (reply _ _ _) as [[b' m'] r'] eqn:Er. apply pair_equal_spec in E as [<- ->]. cbn [s_db] in Ha.
  apply reply_Ok in Er as (a & Er & ->). apply at_db_run in Er as [-> Er]. rewrite run_Ok in Er.
  apply delete_spec in Er as (x' & h' & Hh' & Hd' & Er); [|done..].
  assert (x' = x) as -> by congruence. assert (h' = h) as -> by congruence. destruct (Er V HV Hcur) as [_ Hrel].
  destruct (Hrel Hm F HF Hin) as [Hr Ho].
  destruct (authorize_orphan_reclaim F.1.1 V.1 V.2 F.1.2 F.2 now grace m') as [m2 r] eqn:Ea. cbn [snd] in Ha. subst r.
  apply (authorize_spec V F) in Ea as [_ [(y & Hy & _)|[_ Hy]]]; congruence.
Qed.

(** With a stored manifest only the occupancy rows go. *)
Lemma delete_stored_rlog b k ns roster vids m m' d x h bytes :
  head m b k = Some x → decode_object_head x = Ok h → load_manifest (oh_current_version_id h) m = (m, Ok (Some bytes)) →
  delete_txn b k ns roster vids m = (m', Ok d) → same RLOG m m'.
Proof.
  intros Hh Hd Hm E. unfold delete_txn in E. cbv zeta in E. rewrite trx_get_bind in E. unfold head in Hh. rewrite Hh in E.
  cbn [ok_or] in E. rewrite lift_Ok_bind, Hd, lift_Ok_bind in E. destruct (_ && _); [done|].
  rewrite (M_bind_run _ _ _ _ _ Hm) in E. apply M_bind_Ok in E as (m1 & y & Hy & E).
  apply (same_trans _ m m1).
  - unfold delete_rows in Hy. destruct (decode_manifest_bytes bytes) as [z|]; [|done]. rewrite lift_Ok_bind in Hy.
    apply M_bind_Ok in Hy as (m2 & [] & Hc & [<- _]%pair_equal_spec).
    eapply touches_same; [apply clear_index_touches|exact Hc|other_space].
  - refine (touches_same [HEADS; PREFIX_OBJECT_VERSION; PREFIX_OBJECT_VERSION_CHUNK; PREFIX_NAMESPACE_ENTRY; PREFIX_NAMESPACE_PATH]
      _ _ _ _ RLOG _ E _); [|other_space].
    apply touches_bind; [touch|]. intros _. apply touches_bind; [touch|]. intros _.
    apply touches_bind; [apply (touches_clear_prefix _ PREFIX_OBJECT_VERSION_CHUNK [_]); in_spaces|]. intros _.
    apply touches_bind; [|intros _; touch]. eapply touches_weaken; [|apply clear_entry_touches].
    intros p. rewrite !elem_of_cons. tauto.
Qed.

(** C38: Deleting an object whose manifest was stored leaves its reverse log: the reclaimer
    asking about a fragment that had a committed row is still told it is committed, although
    no key names the version any more. *)
Theorem delete_keeps_stored (s s1 : Sys) p b k ns roster vids d V bytes F now grace :
  op_ok s (OpDelete b k ns roster vids) → kms_exec p (OpDelete b k ns roster vids) s = (s1, Ok d) →
  live_at (s_db s) b k V → ver_ok V → load_manifest (vt V) (s_db s) = (s_db s, Ok (Some bytes)) → frag_ok F →
  committed_row (s_db s) V F →
  authorize_orphan_reclaim F.1.1 V.1 V.2 F.1.2 F.2 now grace (s_db s1) = (s_db s1, Ok CommittedLive) ∧
  head (s_db s1) b k = None.
Proof.
  intros (Hb & Hk & Hro) E (x & h & Hh & Hd & Hcur) HV Hm HF (y & Hy & Hc). unfold kms_exec in E. cbn [run_op] in E.
  destruct (reply _ _ _) as [[b' m'] r'] eqn:Er. apply pair_equal_spec in E as [<- ->]. cbn [s_db].
  apply reply_Ok in Er as (a & Er & ->). apply at_db_run in Er as [-> Er]. rewrite run_Ok in Er. split.
  - apply authorize_committed. exists y. split; [|done]. rewrite (same_rlog (s_db s) m'); [done|].
    eapply delete_stored_rlog; [exact Hh|exact Hd|rewrite Hcur; exact Hm|exact Er].
  - apply delete_spec in Er as (x' & h' & Hh' & Hd' & Er); [|done..].
    assert (x' = x) as -> by congruence. assert (h' = h) as -> by congruence. destruct (Er V HV Hcur) as [[D1 _ _ _] _].
    rewrite D1 by done. by rewrite decide_True.
Qed.
End objects.
