(* ===== verification/KmsConcrete.v ===== *)
(** A database in memory and a codec of the stored messages: the parameters of the metadata
    store instantiated, so that its operations can be run. *)
From stdpp Require Import sorting.
From S2P Require Import Prelude Bytes Fdb KmsKeys KmsValues KmsStore.

(** ** A database as a list of rows *)

Definition Rows_t : Type := list (list byte * list byte).

Fixpoint row_get (k : list byte) (m : Rows_t) : option (list byte) :=
  match m with
  | [] => None
  | (k', v) :: m' => if bool_decide (k = k') then Some v else row_get k m'
  end.

(** Insertion in key order; a row replaces the row of its key. *)
Fixpoint row_insert (kv : list byte * list byte) (m : Rows_t) : Rows_t :=
  match m with
  | [] => [kv]
  | kv' :: m' =>
      if bytes_ltb kv.1 kv'.1 then kv :: m
      else if bool_decide (kv.1 = kv'.1) then kv :: m'
      else kv' :: row_insert kv m'
  end.

Definition rows_sorted (m : Rows_t) : Rows_t := foldr row_insert [] m.

(** The rows whose key satisfies a test. *)
Definition keep_rows (P : list byte → bool) (m : Rows_t) : Rows_t := List.filter (fun kv => P kv.1) m.

Global Instance rows_fdb : Fdb Rows_t := {
  kv_get := row_get;
  kv_set := fun k v m => (k, v) :: keep_rows (fun q => negb (bool_decide (q = k))) m;
  kv_clear := fun k m => keep_rows (fun q => negb (bool_decide (q = k))) m;
  kv_clear_range := fun b e m => keep_rows (fun q => negb (in_range b e q)) m;
  kv_range := fun b e m => keep_rows (in_range b e) (rows_sorted m);
}.

Definition row_lt (x y : list byte * list byte) : Prop := bytes_ltb x.1 y.1 = true.

Lemma row_get_filter (P : list byte → bool) k (m : Rows_t) :
  row_get k (keep_rows P m) = if P k then row_get k m else None.
Proof.
  unfold keep_rows. induction m as [|[k' v] m IH]; cbn; [by destruct (P k)|]. destruct (P k') eqn:Ep; cbn.
  - case_bool_decide as E; [subst k'; by rewrite Ep|]. exact IH.
  - rewrite IH. case_bool_decide as E; [subst k'; by rewrite Ep|done].
Qed.

Lemma row_insert_elem kv m x :
  StronglySorted row_lt m → x ∈ row_insert kv m ↔ x = kv ∨ (x ∈ m ∧ x.1 ≠ kv.1).
Proof.
  intros Hs. induction Hs as [|y m Hs IH Hf]; cbn [row_insert]; [rewrite list_elem_of_singleton, elem_of_nil; tauto|].
  rewrite Forall_forall in Hf. destruct (bytes_ltb kv.1 y.1) eqn:Elt.
  - assert (∀ z, z ∈ y :: m → z.1 ≠ kv.1) as Hne.
    { intros z [->|Hz]%elem_of_cons E; [by rewrite E, bytes_ltb_irrefl in Elt|].
      pose proof (bytes_ltb_trans _ _ _ Elt (Hf z Hz)) as Hlt. by rewrite E, bytes_ltb_irrefl in Hlt. }
    split; [intros [->|?]%elem_of_cons; [by left|right; split; auto]|intros [->|[? _]]; [by left|by right]].
  - case_bool_decide as Eq.
    + rewrite !elem_of_cons. split; [intros [?|Hx]; [by left|]|intros [?|[[->|?] Hn]]; [by left|congruence|by right]].
      right. split; [by right|]. rewrite Eq. intros E. specialize (Hf x Hx). unfold row_lt in Hf. by rewrite E, bytes_ltb_irrefl in Hf.
    + rewrite !elem_of_cons, IH. split; [intros [->|[?|[? ?]]]; [right; split; [by left|congruence]|by left|right; tauto]|].
      intros [?|[[?|?] ?]]; tauto.
Qed.

Lemma row_insert_sorted kv m : StronglySorted row_lt m → StronglySorted row_lt (row_insert kv m).
Proof.
  induction 1 as [|y m Hs IH Hf]; cbn [row_insert]; [by repeat constructor|]. pose proof Hf as Hf'. rewrite Forall_forall in Hf'.
  destruct (bytes_ltb kv.1 y.1) eqn:Elt.
  - constructor; [by constructor|]. constructor; [done|]. apply Forall_forall. intros z Hz. unfold row_lt in *.
    eapply bytes_ltb_trans; [exact Elt|by apply Hf'].
  - case_bool_decide as Eq.
    + constructor; [done|]. apply Forall_forall. intros z Hz. unfold row_lt. rewrite Eq. by apply Hf'.
    + constructor; [done|]. apply Forall_forall. intros z Hz. apply row_insert_elem in Hz as [->|[Hz _]]; [|by apply Hf'|done].
      unfold row_lt. destruct (bytes_ltb_total y.1 kv.1) as [?|?]; congruence.
Qed.

Lemma rows_sorted_sorted m : StronglySorted row_lt (rows_sorted m).
Proof. induction m as [|kv m IH]; [constructor|]. by apply row_insert_sorted. Qed.

Lemma rows_sorted_elem m k v : (k, v) ∈ rows_sorted m ↔ row_get k m = Some v.
Proof.
  induction m as [|[k' v'] m IH]; [by rewrite elem_of_nil|].
  change (rows_sorted ((k', v') :: m)) with (row_insert (k', v') (rows_sorted m)).
  rewrite row_insert_elem by apply rows_sorted_sorted. rewrite IH. cbn. case_bool_decide as E.
  - subst k'. split; [intros [[= ->]|[_ ?]]; done|intros [= ->]; by left].
  - split; [intros [[= -> ->]|[? _]]; done|]. intros ?. right. done.
Qed.

Lemma filter_sorted (P : list byte * list byte → bool) m : StronglySorted row_lt m → StronglySorted row_lt (List.filter P m).
Proof.
  induction 1 as [|x m Hs IH Hf]; cbn; [constructor|]. destruct (P x); [|done]. constructor; [done|].
  rewrite Forall_forall in *. intros y Hy. apply list_elem_of_In, filter_In in Hy as [Hy _]. by apply Hf, list_elem_of_In.
Qed.

Global Instance rows_fdb_laws : FdbLaws Rows_t.
Proof.
  split.
  - intros k v k' m. cbn [kv_get kv_set rows_fdb row_get]. rewrite row_get_filter.
    case_bool_decide as E; [by rewrite decide_True|]. by rewrite decide_False.
  - intros k k' m. cbn [kv_get kv_clear rows_fdb]. rewrite row_get_filter.
    case_bool_decide as E; [by rewrite decide_True|by rewrite decide_False].
  - intros b e k m. cbn [kv_get kv_clear_range rows_fdb]. rewrite row_get_filter. by destruct (in_range b e k).
  - intros b e m. apply filter_sorted, rows_sorted_sorted.
  - intros b e m k v. cbn [kv_get kv_range rows_fdb]. unfold keep_rows.
    rewrite list_elem_of_In, filter_In, <-list_elem_of_In, rows_sorted_elem. cbn. tauto.
Qed.

(** ** A codec *)

(** A prefix code: a value is read off the front of the input. *)
Class Ser (A : Type) := {
  ser : A → list byte;
  unser : list byte → option (A * list byte);
  unser_ser : ∀ a rest, unser (ser a ++ rest) = Some (a, rest);
}.

Fixpoint ser_bytes (l : list byte) : list byte :=
  match l with [] => [x00] | b :: l' => x01 :: b :: ser_bytes l' end.
Fixpoint unser_bytes (l : list byte) : option (list byte * list byte) :=
  match l with
  | x01 :: b :: l' => '(v, rest) ← unser_bytes l'; Some (b :: v, rest)
  | x00 :: rest => Some ([], rest)
  | _ => None
  end.

Global Instance bytes_ser : Ser (list byte).
Proof. refine {| ser := ser_bytes; unser := unser_bytes |}. induction a as [|b l IH]; intros rest; [done|]. cbn. by rewrite IH. Defined.

Fixpoint ser_pos (p : positive) : list byte :=
  match p with xH => [x02] | xO p => x00 :: ser_pos p | xI p => x01 :: ser_pos p end.
Fixpoint unser_pos (l : list byte) : option (positive * list byte) :=
  match l with
  | x00 :: l' => '(p, rest) ← unser_pos l'; Some (xO p, rest)
  | x01 :: l' => '(p, rest) ← unser_pos l'; Some (xI p, rest)
  | x02 :: rest => Some (xH, rest)
  | _ => None
  end.

Lemma unser_ser_pos p rest : unser_pos (ser_pos p ++ rest) = Some (p, rest).
Proof. induction p as [p IH|p IH|]; cbn; [by rewrite IH|by rewrite IH|done]. Qed.

Global Instance Z_ser : Ser Z.
Proof.
  refine {| ser := fun z => match z with Z0 => [x00] | Zpos p => x01 :: ser_pos p | Zneg p => x02 :: ser_pos p end;
            unser := fun l => match l with
              | x00 :: rest => Some (0, rest)
              | x01 :: l' => '(p, rest) ← unser_pos l'; Some (Zpos p, rest)
              | x02 :: l' => '(p, rest) ← unser_pos l'; Some (Zneg p, rest)
              | _ => None
              end |}.
  intros [|p|p] rest; cbn; [done|by rewrite unser_ser_pos..].
Defined.

Global Instance pair_ser {A B} `{Ser A} `{Ser B} : Ser (A * B).
Proof.
  refine {| ser := fun x => ser x.1 ++ ser x.2;
            unser := fun l => '(a, l') ← unser l; '(b, rest) ← unser l'; Some ((a, b), rest) |}.
  intros [a b] rest. cbn. by rewrite <-app_assoc, unser_ser; cbn; rewrite unser_ser.
Defined.

(** A list after its length in unary. *)
Fixpoint unser_many {A} `{Ser A} (n : nat) (l : list byte) : option (list A * list byte) :=
  match n with
  | O => Some ([], l)
  | S n' => '(a, l') ← unser l; '(v, rest) ← unser_many n' l'; Some (a :: v, rest)
  end.
Fixpoint unser_unary (l : list byte) : option (nat * list byte) :=
  match l with
  | x01 :: l' => '(n, rest) ← unser_unary l'; Some (S n, rest)
  | x00 :: rest => Some (O, rest)
  | _ => None
  end.

Lemma unser_unary_ser n rest : unser_unary (replicate n x01 ++ x00 :: rest) = Some (n, rest).
Proof. induction n as [|n IH]; cbn; [done|by rewrite IH]. Qed.

Lemma unser_many_ser {A} `{Ser A} (l : list A) rest : unser_many (length l) ((l ≫= ser) ++ rest) = Some (l, rest).
Proof. induction l as [|a l IH]; cbn; [done|]. by rewrite <-app_assoc, unser_ser; cbn; rewrite IH. Qed.

Global Instance list_ser {A} `{Ser A} : Ser (list A) | 10.
Proof.
  refine {| ser := fun l => replicate (length l) x01 ++ x00 :: (l ≫= ser);
            unser := fun l => '(n, l') ← unser_unary l; unser_many n l' |}.
  intros l rest. rewrite <-app_assoc, <-app_comm_cons, unser_unary_ser. cbn. apply unser_many_ser.
Defined.

(** A value and nothing after it. *)
Definition whole {A} `{Ser A} (l : list byte) : result Status A :=
  match unser l with Some (a, []) => Ok a | _ => Err Internal_ end.

Lemma whole_ser {A} `{Ser A} (a : A) : whole (ser a) = Ok a.
Proof. unfold whole. rewrite <-(app_nil_r (ser a)). by rewrite unser_ser. Qed.

(** A record through a tuple. *)
Definition via {A B} `{Ser B} (f : A → B) (g : B → A) (fg : ∀ a, g (f a) = a) : Ser A.
Proof.
  refine {| ser := fun a => ser (f a); unser := fun l => '(b, rest) ← unser l; Some (g b, rest) |}.
  intros a rest. rewrite unser_ser. cbn. by rewrite fg.
Defined.

Global Instance head_ser : Ser ObjectHead.
Proof.
  refine (via (fun h => (oh_object_entry_id h, oh_current_version_id h, oh_revision h, oh_version h,
                         oh_logical_length_bytes h, oh_ec_profile_id h, oh_topology_epoch h))
              (fun '(a, b, c, d, e, f, g) => mkObjectHead a b c d e f g) _). by intros [].
Defined.

Global Instance fragment_ser : Ser FragmentPlan.
Proof.
  refine (via (fun f => (fp_fragment_index f, fp_chunk_id f, fp_target_id f, fp_endpoint f, fp_granule_index f,
                         fp_generation f, fp_stripe_index f))
              (fun '(a, b, c, d, e, f, g) => mkFragmentPlan a b c d e f g) _). by intros [].
Defined.

Global Instance stripe_ser : Ser StripeManifest.
Proof. refine (via sm_fragments mkStripeManifest _). by intros []. Defined.

Global Instance manifest_ser : Ser ObjectVersionManifest.
Proof.
  refine (via (fun x => (ovm_version_id x, ovm_bucket_id x, ovm_key x, ovm_logical_length_bytes x, ovm_ec_profile_id x,
                         ovm_stripes x, ovm_namespace_id x, ovm_object_entry_id x, ovm_bucket_entry_id x))
              (fun '(a, b, c, d, e, f, g, h, i) => mkObjectVersionManifest a b c d e f g h i) _). by intros [].
Defined.

Global Instance entry_ser : Ser NamespaceDomainEntry.
Proof.
  refine (via (fun x => (nde_entry_id x, nde_namespace_id x, nde_parent_entry_id x, nde_name x, nde_kind x, nde_path x,
                         nde_size_bytes x))
              (fun '(a, b, c, d, e, f, g) => mkNamespaceDomainEntry a b c d e f g) _). by intros [].
Defined.

Global Instance bool_ser : Ser bool.
Proof. refine (via (fun b : bool => if b then 1 else 0) (fun z => z =? 1) _). by intros []. Defined.

Global Instance target_ser : Ser TargetRecord.
Proof.
  refine (via (fun t => (tr_target_id t, tr_endpoint t, tr_server_id t, tr_rack_id t, tr_failure_domain t, tr_granule_count t,
                         tr_free_granules t, tr_healthy t, tr_last_heartbeat_unix_ms t, tr_lifecycle_state t, tr_allocation_shard_id t))
              (fun '(a, b, c, d, e, f, g, h, i, j, k) => mkTargetRecord a b c d e f g h i j k) _). by intros [].
Defined.

Global Instance profile_ser : Ser EcProfile.
Proof.
  refine (via (fun p => (ec_id p, ec_codec_id p, ec_data_fragments p, ec_parity_fragments p, ec_fragment_bytes p, ec_failure_domain p))
              (fun '(a, b, c, d, e, f) => mkEcProfile a b c d e f) _). by intros [].
Defined.

Global Instance ser_codec : KmsCodec := {
  encode_object_head := ser;
  decode_object_head := whole;
  encode_manifest := ser;
  decode_manifest_bytes := whole;
  encode_target_record := ser;
  decode_target_record := whole;
  entry_to_json := ser;
  entry_from_json := whole;
  ec_profile_from_json := whole;
  bucket_context_namespace_id := fun bytes => Ok bytes;
}.

Global Instance ser_codec_laws : KmsCodecLaws.
Proof. split; intros; apply whole_ser. Qed.
