(* ===== verification/KmsExamples.v ===== *)
(** The metadata service run on a small database: writes, commits, reclaims and a reap, and
    the theorems about them applied there. *)
From S2P Require Import Prelude Bytes Fdb KmsKeys KmsValues KmsStore KmsViews KmsEffects KmsReap KmsInv KmsKeep KmsAlloc KmsSystem KmsSteps KmsProtocol KmsSafety KmsScan KmsReaper KmsFences KmsBatch KmsObjects KmsConcrete.

(** ** Two writes of object "k" of bucket "b", process 0 *)

Definition ex_b : list byte := bstr "b".
Definition ex_k : list byte := bstr "k".
Definition ex_f (stripe : Z) : FragmentPlan := mkFragmentPlan 0 [] (bstr "t1") [] stripe 1 stripe.
Definition ex_manifest (k : list byte) (version : list byte) (stripe : Z) : ObjectVersionManifest :=
  mkObjectVersionManifest version ex_b k 10 (bstr "p") [mkStripeManifest [ex_f stripe]] (bstr "n") [] [].
Definition ex_commit (seals omit : bool) (k version : list byte) (stripe : Z) : SingleShotCommit :=
  mkSingleShotCommit 0 (ex_manifest k version stripe) (bstr "e") [] 0 omit seals true true.

Definition ex_init : Sys (KV := Rows_t) := sys_init [].
Definition ex_begin : KmsOp Rows_t := OpBeginResolved ex_b ex_k (bstr "n") (bstr "e") (bstr "/b") None 1000.
Definition ex_s1 : Sys := (kms_exec 0 ex_begin ex_init).1.
Definition ex_v : list byte := bstr "1:1".
Definition ex_append : KmsOp Rows_t := OpAppend ex_v [mkStripeManifest [ex_f 0]] 2000 true.
Definition ex_s2 : Sys := (kms_exec 0 ex_append ex_s1).1.
Definition ex_c : SingleShotCommit := ex_commit true true ex_k ex_v 1.
Definition ex_s3 : Sys := (kms_exec 1 (OpCommit (bstr "u") ex_c) ex_s2).1.

Lemma ex_begin_runs : (kms_exec 0 ex_begin ex_init).2 = Ok (RBegun 1 1 (bstr "e") (bstr "/b")).
Proof. vm_compute. reflexivity. Qed.
Lemma ex_append_runs : (kms_exec 0 ex_append ex_s1).2 = Ok RUnit.
Proof. vm_compute. reflexivity. Qed.
Lemma ex_commit_runs : ∃ h, (kms_exec 1 (OpCommit (bstr "u") ex_c) ex_s2).2 = Ok (RHead h).
Proof. eexists. vm_compute. reflexivity. Qed.

Lemma exec_pair {KV} `{Fdb KV} `{KmsCodec} p op (s : Sys) r : (kms_exec p op s).2 = r → kms_exec p op s = ((kms_exec p op s).1, r).
Proof. intros <-. apply surjective_pairing. Qed.

(** Small strings and fragments are within their bounds. *)
Lemma ex_f_ok (stripe : Z) : (0 <=? stripe) && (stripe <? 100) = true → fplan_ok (ex_f stripe).
Proof. intros Hs. unfold fplan_ok, frag_ok, seg_ok, fits, ex_f, frag_of. cbn. split_and!; try done; lia. Qed.

Lemma ex_text (v : list byte) : (len v <? 100) && utf8_valid v = true → text_ok v.
Proof. intros [H1 H2]%andb_true_iff. split; [unfold seg_ok; lia|done]. Qed.

Lemma ex_key (v k : list byte) : normalize_object_key v = Ok k → (len k <? 100) && utf8_valid k = true → key_ok v.
Proof. intros Hk Ht k' Hk'. assert (k' = k) as -> by congruence. by apply ex_text. Qed.

Lemma ex_ver (i v : Z) : (0 <=? i) && (i <? 100) && (0 <=? v) && (v <? 100) = true → ver_ok (i, v).
Proof. intros Hs. split; unfold fits; cbn; lia. Qed.

Lemma ex_reach1 : kms_reachable ex_s1.
Proof.
  apply reach_op; [by apply reach_init|]. split; [by apply ex_text|]. split; [|by unfold fits].
  by eapply ex_key; [vm_compute; reflexivity|].
Qed.

Lemma ex_append_ok : op_ok ex_s1 ex_append.
Proof. split; [|by unfold fits]. constructor; [by apply ex_f_ok|constructor]. Qed.

Lemma ex_reach2 : kms_reachable ex_s2.
Proof. apply reach_op; [exact ex_reach1|exact ex_append_ok]. Qed.

(** A commit of a version that was handed out, with its marker required. *)
Lemma ex_commit_ok s uuid seals omit k k' V stripe :
  ver_ok V → V.1 ∈ s_handed s → normalize_object_key k = Ok k' → (len k' <? 100) && utf8_valid k' = true →
  (0 <=? stripe) && (stripe <? 100) = true →
  op_ok (KV := Rows_t) s (OpCommit uuid (ex_commit seals omit k (vt V) stripe)).
Proof.
  intros HV Hin Hk Ht Hs. split; [by unfold seg_ok|]. split; [by eapply ex_key|]. split.
  - constructor; [by apply ex_f_ok|constructor].
  - intros V' k1 HV' E _. assert (V' = V) as -> by by apply vt_inj. split; [done|]. left. unfold marker_required.
    by destruct seals.
Qed.

Lemma ex_c_ok : op_ok ex_s2 (OpCommit (bstr "u") ex_c).
Proof.
  change ex_c with (ex_commit true true ex_k (vt (1, 1)) 1). apply (ex_commit_ok ex_s2 _ true true ex_k ex_k (1, 1)).
  - exact (ex_ver 1 1 eq_refl).
  - assert (s_handed ex_s2 = [1]) as -> by (vm_compute; reflexivity). by left.
  - vm_compute. reflexivity.
  - done.
  - done.
Qed.

Lemma ex_live3 : live_at (s_db ex_s3) ex_b ex_k (1, 1).
Proof. eexists _, _. split; [vm_compute; reflexivity|]. split; [vm_compute; reflexivity|reflexivity]. Qed.

Lemma committed_fragments_kept_witness :
  authorize_orphan_reclaim (bstr "t1") 1 1 1 0 99999 0 (s_db ex_s3) = (s_db ex_s3, Ok CommittedLive).
Proof.
  destruct ex_commit_runs as [h Hh].
  apply (committed_fragments_kept ex_s2 ex_s3 ex_s3 1 (bstr "u") ex_c (RHead h) ex_k (1, 1) (ex_f 1) 99999 0).
  - exact ex_reach2.
  - exact ex_c_ok.
  - exact (exec_pair _ _ _ _ Hh).
  - vm_compute. reflexivity.
  - vm_compute. reflexivity.
  - apply after_refl.
  - exact (ex_ver 1 1 eq_refl).
  - reflexivity.
  - exact ex_live3.
  - apply list_elem_of_here.
Defined.

Lemma sealed_segments_kept_witness :
  authorize_orphan_reclaim (bstr "t1") 1 1 0 0 99999 0 (s_db ex_s3) = (s_db ex_s3, Ok CommittedLive).
Proof.
  destruct ex_commit_runs as [h Hh].
  apply (sealed_segments_kept ex_s1 ex_s2 ex_s2 ex_s3 ex_s3 0 1 ex_v [mkStripeManifest [ex_f 0]] 2000 true RUnit
    (bstr "u") ex_c (RHead h) ex_k (1, 1) (ex_f 0) 99999 0).
  - exact ex_reach1.
  - exact ex_append_ok.
  - exact (exec_pair _ _ _ _ ex_append_runs).
  - apply after_refl.
  - exact ex_c_ok.
  - exact (exec_pair _ _ _ _ Hh).
  - reflexivity.
  - reflexivity.
  - vm_compute. reflexivity.
  - vm_compute. reflexivity.
  - apply after_refl.
  - exact (ex_ver 1 1 eq_refl).
  - reflexivity.
  - exact ex_live3.
  - apply list_elem_of_here.
Defined.

(** ** A write reclaimed before its commit *)

Definition ex_auth : KmsOp Rows_t := OpAuthorize (bstr "t1") 1 1 1 0 99999 0.
Definition ex_r2 : Sys := (kms_exec 1 ex_auth ex_s1).1.

Lemma ex_auth_runs : (kms_exec 1 ex_auth ex_s1).2 = Ok (RDecision Authorized).
Proof. vm_compute. reflexivity. Qed.

Lemma ex_auth_ok : op_ok ex_s1 ex_auth.
Proof.
  split; [exact (ex_ver 1 1 eq_refl)|]. split; [exact (proj1 (ex_f_ok 1 eq_refl))|].
  assert (s_handed ex_s1 = [1]) as -> by (vm_compute; reflexivity). apply list_elem_of_here.
Qed.

(** A later segment of the version is accepted; it does not contain the fragment. *)
Definition ex_append0 : KmsOp Rows_t := OpAppend (vt (1, 1)) [mkStripeManifest [ex_f 0]] 2000 false.

Lemma ex_append0_runs : (kms_exec 0 ex_append0 ex_r2).2 = Ok RUnit.
Proof. vm_compute. reflexivity. Qed.

Lemma reclaimed_fragment_never_committed_witness :
  ((bstr "t1", 1, 0) : Frag) ∉ frag_of <$> fragments [mkStripeManifest [ex_f 0]].
Proof.
  apply (proj1 (reclaimed_fragment_never_committed ex_s1 ex_r2 ex_r2 1 (bstr "t1") 1 1 1 0 99999 0 ex_reach1 ex_auth_ok
                  (exec_pair _ _ _ _ ex_auth_runs) (after_refl _)) 0%nat _ 2000 false (kms_exec 0 ex_append0 ex_r2).1 RUnit).
  - split; [constructor; [by apply ex_f_ok|constructor]|]. unfold fits. lia.
  - exact (exec_pair _ _ _ _ ex_append0_runs).
Defined.

(** The commit that comes after is refused. *)
Example ex_commit_refused : (kms_exec 1 (OpCommit (bstr "u") (ex_commit false true ex_k ex_v 1)) ex_r2).2 = Err FailedPrecondition_.
Proof. vm_compute. reflexivity. Qed.

Lemma minted_ids_fresh_witness : 2 ∉ s_handed ex_s1.
Proof.
  apply (minted_ids_fresh ex_s1 (kms_exec 0 (OpMint ex_b ex_k) ex_s1).1 0 ex_b ex_k 2 1).
  - exact ex_reach1.
  - apply exec_pair. vm_compute. reflexivity.
Defined.

Lemma failed_operation_unchanged_witness : s_db (kms_exec 0 (OpRenew 7 5000) ex_s1).1 = s_db ex_s1.
Proof.
  apply (failed_operation_unchanged ex_s1 (kms_exec 0 (OpRenew 7 5000) ex_s1).1 0 (OpRenew 7 5000) FailedPrecondition_).
  apply exec_pair. vm_compute. reflexivity.
Defined.

(** ** The segmented write abandoned and reaped *)

Lemma ex_claimable : claimable (s_db ex_s2) (1, 1) 99999 0 0.
Proof.
  eexists. split; [eexists; split; vm_compute; reflexivity|]. right. split; vm_compute; reflexivity.
Qed.

Definition ex_outcome : OrphanVersionReapOutcome := initial_outcome 99999 0 [].

Lemma reap_version_completes_witness :
  ∃ m' b' o', reap_version 64 99999 0 0 1 1 ex_outcome (s_db ex_s2) = (m', Ok (b', o')) ∧ ro_reaped o' = 1 ∧ marker m' (1, 1) = None.
Proof.
  destruct (reap_version_completes ex_s2 64 (1, 1) 99999 0 0 ex_outcome) as (m' & b' & o' & H1 & H2 & H3 & _).
  - exact ex_reach2.
  - exact (ex_ver 1 1 eq_refl).
  - unfold fits. lia.
  - exact ex_claimable.
  - apply Nat.leb_le. vm_compute. reflexivity.
  - exists m', b', o'. split; [exact H1|]. split; [exact H2|exact H3].
Defined.

Lemma backfill_fences_all_witness :
  ∃ m' n, backfill_reclaim_fences 1 5 (s_db ex_r2) = (m', Ok (Some n)) ∧ fence m' (1, 1) ≠ None.
Proof.
  destruct (backfill_fences_all 1 5 (s_db ex_r2)) as (m' & n & H1 & _ & _ & H4).
  - apply Nat.ltb_lt. vm_compute. reflexivity.
  - exists m', n. split; [exact H1|]. apply (H4 (1, 1) (bstr "t1", 1, 0)).
    + exact (ex_ver 1 1 eq_refl).
    + by apply ex_text.
    + vm_compute. reflexivity.
Defined.

(** ** Two objects in one batch *)

Definition ex_k2 : list byte := bstr "dir/k2".
Definition ex_begin2 : KmsOp Rows_t := OpBeginResolved ex_b ex_k2 (bstr "n") (bstr "e") (bstr "/b") None 1000.
Definition ex_b2 : Sys := (kms_exec 1 ex_begin2 ex_s1).1.
Definition ex_v2 : list byte := bstr "1025:1".
Definition ex_batch : list SingleShotCommit :=
  [ex_commit false true ex_k ex_v 1; ex_commit false true (bstr "z") (bstr "1:x") 5; ex_commit false true ex_k2 ex_v2 2].
Definition ex_uuid (i : nat) : list byte := bstr "uuid".

Lemma ex_batch_ok : batch_request_ok ex_batch (s_db ex_b2).
Proof.
  split_and!.
  - intros vc Hin. apply list_elem_of_omap in Hin as (c & Hc & Ev).
    destruct (validate_single_shot_commit c) as [vc'|e] eqn:Hv; [|discriminate Ev]. cbn [result_ok] in Ev. injection Ev as ->.
    unfold ex_batch in Hc. rewrite !elem_of_cons, elem_of_nil in Hc. destruct Hc as [->|[->|[->|[]]]].
    + split; [|vm_compute in Hv; injection Hv as <-; intros bytes Hx; vm_compute in Hx; discriminate Hx].
      apply (validate_good _ _ Hv); [vm_compute in Hv; injection Hv as <-; reflexivity..|].
      constructor; [exact (ex_f_ok 1 eq_refl)|constructor].
    + vm_compute in Hv. discriminate Hv.
    + split; [|vm_compute in Hv; injection Hv as <-; intros bytes Hx; vm_compute in Hx; discriminate Hx].
      apply (validate_good _ _ Hv); [vm_compute in Hv; injection Hv as <-; reflexivity..|].
      constructor; [exact (ex_f_ok 2 eq_refl)|constructor].
  - assert (vc_ver <$> valid_commits ex_batch = [(1, 1); (1025, 1)]) as -> by (vm_compute; reflexivity).
    apply NoDup_cons. split; [rewrite list_elem_of_singleton; intros E; vm_compute in E; discriminate E|apply NoDup_singleton].
  - assert (vc_name <$> valid_commits ex_batch = [(ex_b, ex_k); (ex_b, ex_k2)]) as -> by (vm_compute; reflexivity).
    apply NoDup_cons. split; [rewrite list_elem_of_singleton; intros E; vm_compute in E; discriminate E|apply NoDup_singleton].
Qed.

Lemma batch_is_sequential_witness :
  commit_objects_single_shot_batch ex_uuid ex_batch (s_db ex_b2) = commits_one_by_one ex_uuid 0 ex_batch (s_db ex_b2).
Proof. apply (batch_is_sequential ex_uuid ex_batch (s_db ex_b2)). exact ex_batch_ok. Defined.

(** The answers: a new head, a refused version id, a new head. *)
Example ex_batch_answers :
  ∃ m' h1 e h2, commit_objects_single_shot_batch ex_uuid ex_batch (s_db ex_b2) = (m', Ok [Ok h1; Err e; Ok h2]).
Proof. do 4 eexists. vm_compute. reflexivity. Qed.

(** ** Reading and deleting *)

Definition ex_profile : EcProfile := mkEcProfile (bstr "p") (bstr "rs") 1 0 4096 0.
Definition ex_db : Rows_t := kv_set (ec_profile_key (bstr "p")) (ser ex_profile) (s_db ex_s1).
Definition ex_plain : SingleShotCommit := ex_commit false false ex_k ex_v 1.

Lemma commit_then_resolve_witness :
  ∃ m' h, commit_object_single_shot (bstr "u") ex_plain ex_db = (m', Ok h) ∧
    resolve_object_read ex_b (bstr "/k/") m' = (m', Ok (stored_manifest (bstr "u") ex_k ex_plain, ex_profile)).
Proof.
  assert (∃ m' h, commit_object_single_shot (bstr "u") ex_plain ex_db = (m', Ok h)) as (m' & h & E).
  { do 2 eexists. vm_compute. reflexivity. }
  exists m', h. split; [exact E|].
  apply (commit_then_resolve (bstr "u") ex_plain ex_db m' h ex_k (bstr "/k/") (ser ex_profile) ex_profile).
  - reflexivity.
  - reflexivity.
  - constructor; [exact (ex_f_ok 1 eq_refl)|constructor].
  - vm_compute. reflexivity.
  - reflexivity.
  - intros _. vm_compute. reflexivity.
  - exact E.
  - vm_compute. reflexivity.
  - vm_compute. reflexivity.
  - vm_compute. reflexivity.
  - apply whole_ser.
Defined.

Definition ex_delete : KmsOp Rows_t := OpDelete ex_b ex_k (bstr "n") [bstr "t1"] [].
Definition ex_s4 : Sys := (kms_exec 0 ex_delete ex_s3).1.

Lemma ex_reach3 : kms_reachable ex_s3.
Proof. apply reach_op; [exact ex_reach2|exact ex_c_ok]. Qed.

Lemma ex_delete_ok s : op_ok s ex_delete.
Proof. split_and!; [reflexivity..|]. constructor; [reflexivity|constructor]. Qed.

Lemma ex_delete_runs : ∃ d, (kms_exec 0 ex_delete ex_s3).2 = Ok d.
Proof. eexists. vm_compute. reflexivity. Qed.

Lemma delete_then_missing_object_witness : resolve_object_read ex_b ex_k (s_db ex_s4) = (s_db ex_s4, Err NotFound_).
Proof.
  destruct ex_delete_runs as [d Hd].
  apply (delete_then_missing_object ex_s3 ex_s4 0 ex_b ex_k ex_k (bstr "n") [bstr "t1"] [] d).
  - exact ex_reach3.
  - exact (ex_delete_ok ex_s3).
  - exact (exec_pair _ _ _ _ Hd).
  - vm_compute. reflexivity.
Defined.

Lemma delete_releases_unstored_witness : (authorize_orphan_reclaim (bstr "t1") 1 1 0 0 99999 0 (s_db ex_s4)).2 ≠ Ok CommittedLive.
Proof.
  destruct ex_delete_runs as [d Hd].
  apply (delete_releases_unstored ex_s3 ex_s4 0 ex_b ex_k (bstr "n") [bstr "t1"] [] d (1, 1) (bstr "t1", 0, 0) 99999 0).
  - exact ex_reach3.
  - exact (ex_delete_ok ex_s3).
  - exact (exec_pair _ _ _ _ Hd).
  - exact ex_live3.
  - exact (ex_ver 1 1 eq_refl).
  - vm_compute. reflexivity.
  - exact (proj1 (ex_f_ok 0 eq_refl)).
  - apply list_elem_of_here.
Defined.

(** The same object with its manifest stored. *)
Definition ex_t2 : Sys := (kms_exec 0 (OpCommit (bstr "u") ex_plain) ex_s1).1.
Definition ex_t3 : Sys := (kms_exec 0 ex_delete ex_t2).1.

Lemma delete_keeps_stored_witness :
  authorize_orphan_reclaim (bstr "t1") 1 1 1 0 99999 0 (s_db ex_t3) = (s_db ex_t3, Ok CommittedLive).
Proof.
  assert (∃ d, (kms_exec 0 ex_delete ex_t2).2 = Ok d) as [d Hd] by (eexists; vm_compute; reflexivity).
  apply (delete_keeps_stored ex_t2 ex_t3 0 ex_b ex_k (bstr "n") [bstr "t1"] [] d (1, 1)
    (ser (stored_manifest (bstr "u") ex_k ex_plain)) (bstr "t1", 1, 0) 99999 0).
  - exact (ex_delete_ok ex_t2).
  - exact (exec_pair _ _ _ _ Hd).
  - eexists _, _. split; [vm_compute; reflexivity|]. split; [vm_compute; reflexivity|reflexivity].
  - exact (ex_ver 1 1 eq_refl).
  - vm_compute. reflexivity.
  - exact (proj1 (ex_f_ok 1 eq_refl)).
  - eexists. split; [vm_compute; reflexivity|]. eexists _, _. vm_compute. reflexivity.
Defined.

(** ** Rows and their discovery *)

Lemma kms_rows_well_formed_witness :
  ∃ h V, decode_object_head (default [] (head (s_db ex_s3) ex_b ex_k)) = Ok h ∧
    parse_version_id_parts (oh_current_version_id h) = Ok V ∧ marker (s_db ex_s3) V = None.
Proof.
  destruct (kms_rows_well_formed ex_s3) as (_ & _ & _ & H).
  - exact ex_reach3.
  - destruct (H ex_b ex_k (default [] (head (s_db ex_s3) ex_b ex_k))) as (h & V & H1 & H2 & H3 & _).
    + by apply ex_text.
    + by apply ex_text.
    + vm_compute. reflexivity.
    + exists h, V. split; [exact H1|]. split; [exact H2|exact H3].
Defined.

Lemma scan_finds_orphans_witness :
  ∃ cs, sweep_pages (S (length (pending_rows (s_db ex_s2)))) None 1 99999 0 (s_db ex_s2) = Some (cs, 0) ∧
    candidate (1, 1) (mkPendingVersion 2000 PENDING_VERSION_STATE_WRITING ex_b ex_k) ∈ cs.
Proof.
  destruct (scan_finds_orphans ex_s2 1 99999 0) as (cs & H1 & H2 & _).
  - exact ex_reach2.
  - reflexivity.
  - exists cs. split; [exact H1|]. apply H2. eexists (1, 1), _. split; [exact (ex_ver 1 1 eq_refl)|].
    split; [eexists; split; vm_compute; reflexivity|]. split; vm_compute; reflexivity.
Defined.

(** The rows of target [t1] do not include those of [t10]. *)
Lemma key_range_exact_witness :
  in_range (prefix_range (target_reverse_log_prefix (bstr "t1"))).1 (prefix_range (target_reverse_log_prefix (bstr "t1"))).2
    (target_reverse_log_key (bstr "t10") (bstr "1:1") 0 0) = false.
Proof.
  destruct (in_range _ _ _) eqn:E; [|reflexivity]. exfalso.
  apply (key_range_exact PREFIX_TARGET_REVERSE_LOG [bstr "t1"] PREFIX_TARGET_REVERSE_LOG
           [bstr "t10"; bstr "1:1"; hex8 0; hex8 0]) in E as [_ E].
  - apply prefix_cons_both in E as [E _]. discriminate E.
  - repeat constructor; vm_compute; intuition discriminate.
  - repeat constructor; vm_compute; intuition discriminate.
Defined.
