(* ===== verification/Placement.v ===== *)
(** Computed placement (poc/keinctl/src/placement.rs): the targets of a stripe by rendezvous
    hashing, one per failure domain, and the content hash of the topology. SHA-256 is a
    parameter. Strings are their UTF-8 bytes, compared byte by byte. *)
From S2P Require Import Prelude Bytes Sorts Fdb KmsStore.

Inductive FailureDomain : Set := Unspecified | DriveDomainLab | Node | Rack.

Inductive PlacementError : Set :=
| UnspecifiedFailureDomain
| NotEnoughFailureDomains (requested available : nat).

Definition PLACEMENT_DOMAIN : list byte := bstr "keinfs/placement/hrw/v1".
Definition TOPOLOGY_EPOCH_DOMAIN : list byte := bstr "keinfs/topology-epoch/v1".

Record PlacementTarget := mkPlacementTarget {
  pt_target_id : list byte;
  pt_server_id : list byte;
  pt_rack_id : list byte;
  pt_healthy : bool;
  pt_usable : bool;
}.

#[export] Instance FailureDomain_eq_dec : EqDecision FailureDomain.
Proof. solve_decision. Defined.
#[export] Instance PlacementTarget_eq_dec : EqDecision PlacementTarget.
Proof. solve_decision. Defined.

Definition from_record (record : TargetRecord) : PlacementTarget :=
  mkPlacementTarget (tr_target_id record) (tr_server_id record) (tr_rack_id record) (tr_healthy record)
    (tr_lifecycle_state record =? TARGET_LIFECYCLE_ACTIVE).

Definition accepts_fragments (t : PlacementTarget) : bool := pt_healthy t && pt_usable t.

Definition failure_domain_key (failure_domain : FailureDomain) (t : PlacementTarget) :
    result PlacementError (list byte) :=
  match failure_domain with
  | DriveDomainLab => Ok (bstr "target:" ++ pt_target_id t)
  | Node => Ok (bstr "node:" ++ pt_server_id t)
  | Rack => Ok (bstr "rack:" ++ pt_rack_id t)
  | Unspecified => Err UnspecifiedFailureDomain
  end.

(** [str::cmp] as an order: not greater. *)
Definition bytes_leb (a b : list byte) : bool := negb (bytes_ltb b a).

(** The row [topology_epoch] hashes for a target. *)
Definition length_prefixed (field : list byte) : list byte := le_bytes 4 (len field) ++ field.
Definition bool_byte (b : bool) : byte := if b then x01 else x00.
Definition epoch_row (t : PlacementTarget) : list byte :=
  length_prefixed (pt_target_id t) ++ length_prefixed (pt_server_id t) ++ length_prefixed (pt_rack_id t) ++
  [bool_byte (pt_healthy t); bool_byte (pt_usable t)].

(** Walking the ranked candidates: [used] domains, [chosen] so far. *)
Fixpoint pick_loop (limit : option nat) (failure_domain : FailureDomain) (used : gset (list byte))
    (chosen : list (list byte)) (ranked : list PlacementTarget) : result PlacementError (list (list byte)) :=
  match ranked with
  | [] => Ok chosen
  | target :: ranked' =>
      if bool_decide (limit = Some (length chosen)) then Ok chosen
      else
        domain_key ← failure_domain_key failure_domain target;
        if bool_decide (domain_key ∈ used) then pick_loop limit failure_domain used chosen ranked'
        else pick_loop limit failure_domain ({[domain_key]} ∪ used) (chosen ++ [pt_target_id target]) ranked'
  end.

Section placement.
Context (sha256 : list byte → list byte).

Definition rendezvous_preimage (cluster_salt : list byte) (object_id object_version stripe_index : Z)
    (target_id : list byte) : list byte :=
  PLACEMENT_DOMAIN ++ length_prefixed cluster_salt ++ le_bytes 4 object_id ++ le_bytes 2 object_version ++
  le_bytes 4 stripe_index ++ length_prefixed target_id.

Definition rendezvous_score (cluster_salt : list byte) (object_id object_version stripe_index : Z)
    (target_id : list byte) : Z :=
  of_le (take 8 (sha256 (rendezvous_preimage cluster_salt object_id object_version stripe_index target_id))).

(** Descending score, then ascending target id. *)
Definition rank_leb (score : list byte → Z) (left right : PlacementTarget) : bool :=
  (score (pt_target_id right) <? score (pt_target_id left)) ||
  ((score (pt_target_id left) =? score (pt_target_id right)) && bytes_leb (pt_target_id left) (pt_target_id right)).

Definition eligible (excluded : gset (list byte)) (t : PlacementTarget) : Prop :=
  accepts_fragments t = true ∧ pt_target_id t ∉ excluded.

#[export] Instance eligible_dec excluded t : Decision (eligible excluded t).
Proof. unfold eligible. apply _. Defined.

Definition scored_targets (cluster_salt : list byte) (object_id object_version stripe_index : Z)
    (targets : list PlacementTarget) (excluded : gset (list byte)) : list PlacementTarget :=
  sort_by (rank_leb (rendezvous_score cluster_salt object_id object_version stripe_index))
    (filter (eligible excluded) targets).

Definition pick_distinct_domains (cluster_salt : list byte) (object_id object_version stripe_index : Z)
    (limit : option nat) (failure_domain : FailureDomain) (targets : list PlacementTarget) (excluded : gset (list byte)) :
    result PlacementError (list (list byte)) :=
  if bool_decide (failure_domain = Unspecified) then Err UnspecifiedFailureDomain
  else pick_loop limit failure_domain ∅ []
         (scored_targets cluster_salt object_id object_version stripe_index targets excluded).

Definition place_stripe (cluster_salt : list byte) (object_id object_version stripe_index : Z)
    (fragments_per_stripe : nat) (failure_domain : FailureDomain) (targets : list PlacementTarget)
    (excluded : gset (list byte)) : result PlacementError (list (list byte)) :=
  chosen ← pick_distinct_domains cluster_salt object_id object_version stripe_index (Some fragments_per_stripe)
             failure_domain targets excluded;
  if (length chosen <? fragments_per_stripe)%nat
  then Err (NotEnoughFailureDomains fragments_per_stripe (length chosen))
  else Ok chosen.

Definition ranked_candidates_for_stripe (cluster_salt : list byte) (object_id object_version stripe_index : Z)
    (failure_domain : FailureDomain) (targets : list PlacementTarget) (excluded : gset (list byte)) :
    result PlacementError (list (list byte)) :=
  pick_distinct_domains cluster_salt object_id object_version stripe_index None failure_domain targets excluded.

(** The bytes [topology_epoch] hashes. *)
Definition epoch_preimage (targets : list PlacementTarget) : list byte :=
  let rows := sort_by (fun l r => bytes_leb (pt_target_id l) (pt_target_id r)) targets in
  TOPOLOGY_EPOCH_DOMAIN ++ le_bytes 4 (len rows) ++ concat (epoch_row <$> rows).

Definition topology_epoch (targets : list PlacementTarget) : Z := of_le (take 8 (sha256 (epoch_preimage targets))).
End placement.
