(* ===== verification/PlacementProps.v ===== *)
(** What computed placement promises: a full stripe on distinct failure domains or an error
    that counts them, the same answer for every arrangement of the roster, and few targets
    moved when the roster changes. *)
From S2P Require Import Prelude Bytes Sorts Fdb KmsStore Placement.

(** ** The order of candidates *)

Lemma bytes_leb_total a b : bytes_leb a b = true ∨ bytes_leb b a = true.
Proof.
  unfold bytes_leb. destruct (bytes_ltb b a) eqn:E; [|by left]. right. by rewrite (bytes_ltb_asym b a E).
Qed.

Lemma bytes_leb_trans a b c : bytes_leb a b = true → bytes_leb b c = true → bytes_leb a c = true.
Proof.
  unfold bytes_leb. rewrite !negb_true_iff. intros H1 H2. destruct (bytes_ltb c a) eqn:E; [|done].
  destruct (decide (a = b)) as [->|Hab]; [congruence|].
  destruct (bytes_ltb_total a b Hab) as [H|H]; [|congruence]. by rewrite (bytes_ltb_trans c a b) in H2.
Qed.

Lemma bytes_leb_antisym a b : bytes_leb a b = true → bytes_leb b a = true → a = b.
Proof.
  unfold bytes_leb. rewrite !negb_true_iff. intros H1 H2. destruct (decide (a = b)) as [|Hab]; [done|].
  destruct (bytes_ltb_total a b Hab); congruence.
Qed.

Section order.
Context (score : list byte → Z).

Lemma rank_leb_spec s t :
  rank_leb score s t = true ↔
  score (pt_target_id t) < score (pt_target_id s) ∨
  (score (pt_target_id s) = score (pt_target_id t) ∧ bytes_leb (pt_target_id s) (pt_target_id t) = true).
Proof. unfold rank_leb. rewrite orb_true_iff, andb_true_iff, Z.ltb_lt, Z.eqb_eq. done. Qed.

Lemma rank_leb_total s t : rank_leb score s t = true ∨ rank_leb score t s = true.
Proof.
  rewrite !rank_leb_spec. pose proof (bytes_leb_total (pt_target_id s) (pt_target_id t)).
  destruct (Z.lt_trichotomy (score (pt_target_id s)) (score (pt_target_id t))) as [?|[?|?]]; intuition lia.
Qed.

Lemma rank_leb_trans s t u : rank_leb score s t = true → rank_leb score t u = true → rank_leb score s u = true.
Proof.
  rewrite !rank_leb_spec. intros [H1|[H1 L1]] [H2|[H2 L2]]; [left; lia..|]. right. split; [lia|]. by eapply bytes_leb_trans.
Qed.

Lemma rank_leb_refl t : rank_leb score t t = true.
Proof. by destruct (rank_leb_total t t). Qed.

Lemma rank_leb_antisym s t : rank_leb score s t = true → rank_leb score t s = true → pt_target_id s = pt_target_id t.
Proof. rewrite !rank_leb_spec. intros [H1|[H1 L1]] [H2|[H2 L2]]; try lia. by apply bytes_leb_antisym. Qed.
End order.

(** ** The first candidate of each domain *)

Definition domain_of (fd : FailureDomain) (t : PlacementTarget) : list byte :=
  match failure_domain_key fd t with Ok k => k | Err _ => [] end.

Lemma failure_domain_key_Ok fd t : fd ≠ Unspecified → failure_domain_key fd t = Ok (domain_of fd t).
Proof. by destruct fd. Qed.

Lemma size_first (x : list byte) (D U : gset (list byte)) :
  x ∉ U → size (({[x]} ∪ D) ∖ U) = S (size (D ∖ ({[x]} ∪ U))).
Proof.
  intros Hx. replace (({[x]} ∪ D) ∖ U) with ({[x]} ∪ (D ∖ ({[x]} ∪ U))).
  - rewrite size_union, size_singleton by set_solver. done.
  - apply leibniz_equiv. intros k. destruct (decide (k = x)); set_solver.
Qed.

Lemma size_skip (x : list byte) (D U : gset (list byte)) : x ∈ U → size (({[x]} ∪ D) ∖ U) = size (D ∖ U).
Proof. intros Hx. f_equal. set_solver. Qed.

Ltac in_unions := rewrite ?not_elem_of_union, ?not_elem_of_singleton in *; intuition congruence.

Section firsts.
Context (fd : FailureDomain).
Abbreviation dom_ := (domain_of fd).

Definition domains (l : list PlacementTarget) : gset (list byte) := list_to_set (dom_ <$> l).

Fixpoint firsts (used : gset (list byte)) (l : list PlacementTarget) : list PlacementTarget :=
  match l with
  | [] => []
  | t :: l' => if decide (dom_ t ∈ used) then firsts used l' else t :: firsts ({[dom_ t]} ∪ used) l'
  end.

Lemma pick_loop_firsts limit used chosen ranked :
  fd ≠ Unspecified → (∀ n, limit = Some n → (length chosen ≤ n)%nat) →
  pick_loop limit fd used chosen ranked =
    Ok (chosen ++ (pt_target_id <$> (match limit with Some n => take (n - length chosen) | None => id end) (firsts used ranked))).
Proof.
  intros Hfd. revert used chosen. induction ranked as [|t ranked IH]; intros used chosen Hl; cbn [pick_loop firsts].
  { destruct limit; [rewrite take_nil|]; cbn; by rewrite app_nil_r. }
  rewrite failure_domain_key_Ok by done. cbn [mbind result_mbind result_bind]. case_bool_decide as Hlim.
  { rewrite Hlim. replace (length chosen - length chosen)%nat with 0%nat by lia. cbn. by rewrite app_nil_r. }
  case_bool_decide as Hd; [by rewrite decide_True, IH|]. rewrite decide_False by done.
  rewrite IH by (intros n Hn; rewrite length_app; cbn; specialize (Hl n Hn); destruct (decide (n = length chosen)) as [->|]; [done|lia]).
  rewrite <-app_assoc. f_equal. f_equal. destruct limit as [n|]; [|done]. specialize (Hl n eq_refl).
  assert (n ≠ length chosen) by congruence. rewrite length_app. cbn [length].
  destruct (n - length chosen)%nat as [|k] eqn:Ek; [lia|]. cbn. do 2 f_equal. f_equal. lia.
Qed.

Lemma firsts_sublist used l : firsts used l `sublist_of` l.
Proof.
  revert used. induction l as [|t l IH]; intros used; cbn; [done|]. destruct (decide _); [by apply sublist_cons|by apply sublist_skip].
Qed.

Lemma firsts_elem used l t : t ∈ firsts used l → t ∈ l ∧ dom_ t ∉ used.
Proof.
  revert used. induction l as [|s l IH]; intros used; cbn; [by intros ?%not_elem_of_nil|].
  destruct (decide _) as [Hd|Hd]; [intros [? ?]%IH; split; [by right|done]|].
  intros [->|Hin]%elem_of_cons; [split; [by left|done]|]. apply IH in Hin as [? ?]. split; [by right|set_solver].
Qed.

Lemma firsts_NoDup used l : NoDup (dom_ <$> firsts used l).
Proof.
  revert used. induction l as [|t l IH]; intros used; cbn; [constructor|]. destruct (decide _); [done|].
  cbn. constructor; [|done]. intros (s & Es & Hs)%list_elem_of_fmap. apply firsts_elem in Hs as [_ Hs]. set_solver.
Qed.

Lemma domains_nil : domains [] = ∅.
Proof. done. Qed.

Lemma domains_cons t l : domains (t :: l) = {[dom_ t]} ∪ domains l.
Proof. done. Qed.

Lemma firsts_length used l : length (firsts used l) = size (domains l ∖ used).
Proof.
  revert used. induction l as [|t l IH]; intros used; cbn [firsts].
  { cbn [length]. symmetry. apply size_empty_iff. set_solver. }
  rewrite domains_cons. destruct (decide _) as [Hd|Hd]; [by rewrite size_skip|]. cbn [length]. by rewrite size_first, IH.
Qed.

Lemma domains_app l k : domains (l ++ k) = domains l ∪ domains k.
Proof. unfold domains. by rewrite fmap_app, list_to_set_app_L. Qed.

(** Among the first [n] exactly the candidates before which fewer than [n] domains appear,
    their own not among them. *)
Lemma take_firsts_elem n used l t :
  t ∈ take n (firsts used l) ↔
  ∃ l1 l2, l = l1 ++ t :: l2 ∧ (dom_ t ∉ used ∪ domains l1) ∧ (size (domains l1 ∖ used) < n)%nat.
Proof.
  revert n used. induction l as [|s l IH]; intros n used; cbn [firsts].
  { rewrite take_nil. split; [by intros ?%not_elem_of_nil|]. by intros ([|] & l2 & ? & _). }
  destruct (decide (dom_ s ∈ used)) as [Hs|Hs].
  - rewrite IH. split.
    + intros (l1 & l2 & -> & H1 & H2). exists (s :: l1), l2. rewrite domains_cons, size_skip by done. split; [done|].
      split; [in_unions|done].
    + intros ([|s' l1] & l2 & [= -> ->] & H1 & H2); [in_unions|]. exists l1, l2. rewrite domains_cons in H1, H2.
      rewrite size_skip in H2 by done. split; [done|]. split; [in_unions|done].
  - destruct n as [|n]; [split; [by intros ?%not_elem_of_nil|intros (? & ? & _ & _ & ?); lia]|].
    cbn [take]. rewrite elem_of_cons, IH. split.
    + intros [->|(l1 & l2 & -> & H1 & H2)].
      * exists [], l. split; [done|]. rewrite domains_nil, not_elem_of_union.
        replace (∅ ∖ used) with (∅ : gset (list byte)) by set_solver. rewrite size_empty.
        split; [split; [done|apply not_elem_of_empty]|lia].
      * exists (s :: l1), l2. rewrite domains_cons, size_first by done. split; [done|]. split; [in_unions|lia].
    + intros ([|s' l1] & l2 & [= -> ->] & H1 & H2); [by left|]. right. exists l1, l2. rewrite domains_cons in H1, H2.
      rewrite size_first in H2 by done. split; [done|]. split; [in_unions|lia].
Qed.

(** Every candidate has one of its domain at or before it. *)
Lemma firsts_cover (R : PlacementTarget → PlacementTarget → Prop) used l u :
  (∀ x, R x x) → StronglySorted R l → u ∈ l → dom_ u ∉ used → ∃ t, t ∈ firsts used l ∧ dom_ t = dom_ u ∧ R t u.
Proof.
  intros Hrefl Hs. revert used. induction Hs as [|s l Hs IH Hall]; intros used Hu Hd; [by apply not_elem_of_nil in Hu|].
  cbn [firsts]. apply elem_of_cons in Hu as [->|Hu].
  - rewrite decide_False by done. exists s. split; [by left|]. done.
  - destruct (decide _) as [Hus|Hus]; [by apply IH|]. destruct (decide (dom_ u = dom_ s)) as [E|E].
    + exists s. split; [by left|]. split; [done|]. rewrite Forall_forall in Hall. by apply Hall.
    + destruct (IH ({[dom_ s]} ∪ used)) as (t & Ht & Et & Hr); [done|in_unions|]. exists t. split; [by right|]. done.
Qed.
End firsts.

(** ** Placement *)

Lemma NoDup_ids_eq targets s t :
  NoDup (pt_target_id <$> targets) → s ∈ targets → t ∈ targets → pt_target_id s = pt_target_id t → s = t.
Proof.
  intros Hnd [i Hi]%list_elem_of_lookup [j Hj]%list_elem_of_lookup E.
  assert (i = j) as ->; [|congruence]. eapply NoDup_lookup; [exact Hnd|rewrite list_lookup_fmap, Hi; done|].
  rewrite list_lookup_fmap, Hj. cbn. by rewrite E.
Qed.

(** Of two lists of the same length, the second with all but one element of the first. *)
Lemma joins_one (gone : list byte) (l l' : list (list byte)) :
  NoDup l → length l' = length l → (∀ x, x ∈ l → x ≠ gone → x ∈ l') →
  (size (list_to_set l' ∖ list_to_set l : gset (list byte)) ≤ 1)%nat.
Proof.
  intros Hnd Hlen Hkept. pose proof (size_list_to_set (C := gset (list byte)) l Hnd) as Hs.
  assert (size (list_to_set l' : gset (list byte)) ≤ length l')%nat as Hs'.
  { clear. induction l' as [|x l' IH]; [cbn; by rewrite size_empty|]. cbn. rewrite size_union_alt, size_singleton.
    pose proof (subseteq_size (list_to_set l' ∖ {[x]}) (list_to_set l' : gset (list byte))) as H. set_solver by lia. }
  set (A := list_to_set l : gset (list byte)) in *. set (B := list_to_set l' : gset (list byte)) in *.
  assert (size A ≤ size (A ∩ B) + 1)%nat.
  { rewrite <-(size_singleton (C := gset (list byte)) gone), Nat.add_comm. transitivity (size ({[gone]} ∪ A ∩ B)).
    - apply subseteq_size. intros x Hx. destruct (decide (x = gone)); set_solver.
    - rewrite size_union_alt. pose proof (subseteq_size ((A ∩ B) ∖ {[gone]}) (A ∩ B)) as H. set_solver by lia. }
  assert (size B = size (A ∩ B) + size (B ∖ A))%nat; [|lia]. rewrite <-size_union by set_solver. f_equal.
  apply leibniz_equiv. intros x. destruct (decide (x ∈ A)); set_solver.
Qed.

Section place.
Context (sha256 : list byte → list byte) (salt : list byte) (oid ver stripe : Z).
Abbreviation score_ := (rendezvous_score sha256 salt oid ver stripe).
Abbreviation ranked_ targets excluded := (scored_targets sha256 salt oid ver stripe targets excluded).
Abbreviation place_ n fd targets excluded := (place_stripe sha256 salt oid ver stripe n fd targets excluded).

Lemma ranked_sorted targets excluded : StronglySorted (fun a b => rank_leb score_ a b = true) (ranked_ targets excluded).
Proof. apply sort_by_sorted; [apply rank_leb_total|apply rank_leb_trans]. Qed.

Lemma ranked_elem targets excluded t : t ∈ ranked_ targets excluded ↔ t ∈ targets ∧ eligible excluded t.
Proof. unfold scored_targets. rewrite elem_of_sort_by, list_elem_of_filter. tauto. Qed.

Lemma ranked_perm targets targets' excluded :
  NoDup (pt_target_id <$> targets) → targets ≡ₚ targets' → ranked_ targets excluded = ranked_ targets' excluded.
Proof.
  intros Hnd Hp. unfold scored_targets. apply sort_by_unique; [apply rank_leb_total|apply rank_leb_trans| |by rewrite Hp].
  intros x y [_ Hx]%list_elem_of_filter [_ Hy]%list_elem_of_filter H1 H2. eapply NoDup_ids_eq; [exact Hnd|done..|].
  by eapply rank_leb_antisym.
Qed.

Lemma pick_firsts limit fd targets excluded :
  fd ≠ Unspecified →
  pick_distinct_domains sha256 salt oid ver stripe limit fd targets excluded =
    Ok (pt_target_id <$> (match limit with Some n => take n | None => id end) (firsts fd ∅ (ranked_ targets excluded))).
Proof.
  intros Hfd. unfold pick_distinct_domains. rewrite bool_decide_false by done.
  rewrite pick_loop_firsts by (done || (cbn; lia)). cbn [app length]. f_equal. f_equal. destruct limit as [n|]; [|done].
  by rewrite Nat.sub_0_r.
Qed.

Lemma place_firsts n fd targets excluded :
  fd ≠ Unspecified →
  place_ n fd targets excluded =
    let ts := firsts fd ∅ (ranked_ targets excluded) in
    if (length ts <? n)%nat then Err (NotEnoughFailureDomains n (length ts)) else Ok (pt_target_id <$> take n ts).
Proof.
  intros Hfd. unfold place_stripe. rewrite pick_firsts by done. cbn [mbind result_mbind result_bind]. cbv zeta.
  rewrite length_fmap, length_take. set (k := length _). destruct (Nat.ltb_spec k n).
  - rewrite (proj2 (Nat.ltb_lt _ _)) by lia. f_equal. f_equal. lia.
  - by rewrite (proj2 (Nat.ltb_ge _ _)) by lia.
Qed.

(** The domains of the targets that may hold a fragment. *)
Definition usable_domains (fd : FailureDomain) (targets : list PlacementTarget) (excluded : gset (list byte)) :
    gset (list byte) := domains fd (filter (eligible excluded) targets).

Lemma ranked_domains fd targets excluded : domains fd (ranked_ targets excluded) = usable_domains fd targets excluded.
Proof.
  apply leibniz_equiv. intros k. unfold domains, usable_domains, domains. rewrite !elem_of_list_to_set, !list_elem_of_fmap.
  unfold scored_targets. by setoid_rewrite elem_of_sort_by.
Qed.

Lemma firsts_ranked_length fd targets excluded :
  length (firsts fd ∅ (ranked_ targets excluded)) = size (usable_domains fd targets excluded).
Proof. rewrite firsts_length, ranked_domains. f_equal. set_solver. Qed.

Lemma ranked_app_lt {A} (R : A → A → Prop) l k x y : StronglySorted R (l ++ k) → x ∈ l → y ∈ k → R x y.
Proof.
  induction l as [|z l IH]; intros Hs Hx Hy; [by apply not_elem_of_nil in Hx|]. cbn in Hs.
  apply StronglySorted_inv in Hs as [Hs Hf]. apply elem_of_cons in Hx as [->|Hx]; [|by apply IH].
  rewrite Forall_forall in Hf. apply Hf, elem_of_app. by right.
Qed.

Lemma sublist_sorted {A} (R : A → A → Prop) l k : l `sublist_of` k → StronglySorted R k → StronglySorted R l.
Proof.
  induction 1 as [|x l k Hs IH|x l k Hs IH]; [done|..]; intros [Hk Hf]%StronglySorted_inv; [|by apply IH].
  constructor; [by apply IH|]. rewrite Forall_forall in *. intros y Hy. apply Hf. by eapply elem_of_sublist.
Qed.

(** C15: Placement of a stripe is exact: with a failure domain given it answers the targets of
    a list ranked by rendezvous score, as many as fragments, each a usable target outside the
    exclusions, all in different domains, such that any other usable target is outranked by
    the one chosen in its domain or by all that were chosen; or it fails, exactly when there
    are fewer usable domains than fragments, and reports their number. *)
Theorem place_stripe_spec n fd targets excluded :
  fd ≠ Unspecified →
  match place_ n fd targets excluded with
  | Ok ids =>
      (n ≤ size (usable_domains fd targets excluded))%nat ∧
      ∃ ts, ids = pt_target_id <$> ts ∧ length ts = n ∧ NoDup (domain_of fd <$> ts) ∧
        (∀ t, t ∈ ts → t ∈ targets ∧ eligible excluded t) ∧
        StronglySorted (fun a b => rank_leb score_ a b = true) ts ∧
        ∀ u, u ∈ targets → eligible excluded u →
          (∃ t, t ∈ ts ∧ domain_of fd t = domain_of fd u ∧ rank_leb score_ t u = true) ∨
          (∀ t, t ∈ ts → rank_leb score_ t u = true)
  | Err e =>
      e = NotEnoughFailureDomains n (size (usable_domains fd targets excluded)) ∧
      (size (usable_domains fd targets excluded) < n)%nat
  end.
Proof.
  intros Hfd. rewrite place_firsts by done. cbv zeta. rewrite firsts_ranked_length. set (ts := firsts _ _ _).
  destruct (Nat.ltb_spec (size (usable_domains fd targets excluded)) n) as [Hl|Hl]; [done|]. split; [done|].
  assert (StronglySorted (fun a b => rank_leb score_ a b = true) ts) as Hts
    by (eapply sublist_sorted; [apply firsts_sublist|apply ranked_sorted]).
  exists (take n ts). split; [done|]. split.
  { rewrite length_take. unfold ts. rewrite firsts_ranked_length. lia. }
  split; [|split; [|split]].
  - pose proof (firsts_NoDup fd ∅ (ranked_ targets excluded)) as Hnd. fold ts in Hnd. rewrite <-(take_drop n ts), fmap_app in Hnd.
    by apply NoDup_app in Hnd as [? _].
  - intros t Ht. apply (ranked_elem targets excluded). eapply (firsts_elem fd ∅). eapply elem_of_sublist; [exact Ht|apply sublist_take].
  - eapply sublist_sorted; [apply sublist_take|exact Hts].
  - intros u Hu He.
    destruct (firsts_cover fd (fun a b => rank_leb score_ a b = true) ∅ (ranked_ targets excluded) u) as (t & Ht & Ed & Hr);
      [apply rank_leb_refl|apply ranked_sorted|by apply ranked_elem|apply not_elem_of_empty|].
    fold ts in Ht. rewrite <-(take_drop n ts) in Ht, Hts. apply elem_of_app in Ht as [Ht|Ht]; [left; by exists t|]. right.
    intros s Hs. eapply rank_leb_trans; [|exact Hr].
    exact (ranked_app_lt (fun a b => rank_leb score_ a b = true) _ _ s t Hts Hs Ht).
Qed.

(** ** Changes of the roster *)

Definition without (gone : list byte) (targets : list PlacementTarget) : list PlacementTarget :=
  filter (fun t => pt_target_id t ≠ gone) targets.

Lemma ranked_without gone targets excluded :
  ranked_ (without gone targets) excluded = without gone (ranked_ targets excluded).
Proof.
  unfold scored_targets, without. rewrite sort_by_filter by (apply rank_leb_total || apply rank_leb_trans). f_equal.
  rewrite !list_filter_filter. apply list_filter_iff. intros t. tauto.
Qed.

Lemma ranked_excluding gone targets excluded :
  ranked_ targets ({[gone]} ∪ excluded) = ranked_ (without gone targets) excluded.
Proof.
  unfold scored_targets, without. f_equal. rewrite list_filter_filter. apply list_filter_iff. intros t. unfold eligible.
  rewrite not_elem_of_union, not_elem_of_singleton. tauto.
Qed.

Lemma domains_without fd gone l : domains fd (without gone l) ⊆ domains fd l.
Proof.
  intros k. unfold domains, without. rewrite !elem_of_list_to_set, !list_elem_of_fmap.
  intros (t & -> & [_ Ht]%list_elem_of_filter). by exists t.
Qed.

Lemma take_firsts_kept n fd gone l t :
  t ∈ take n (firsts fd ∅ l) → pt_target_id t ≠ gone → t ∈ take n (firsts fd ∅ (without gone l)).
Proof.
  rewrite !take_firsts_elem. intros (l1 & l2 & -> & H1 & H2) Hne. exists (without gone l1), (without gone l2).
  unfold without at 1. rewrite filter_app, filter_cons, decide_True by done. split; [done|].
  pose proof (domains_without fd gone l1) as Hd. split.
  - rewrite not_elem_of_union in *. intuition.
  - eapply Nat.le_lt_trans; [|exact H2]. apply subseteq_size. apply difference_mono_r, Hd.
Qed.

Lemma take_firsts_unchanged n fd gone used l :
  (∀ t, t ∈ take n (firsts fd used l) → pt_target_id t ≠ gone) →
  take n (firsts fd used (without gone l)) = take n (firsts fd used l).
Proof.
  revert n used. induction l as [|t l IH]; intros n used Hn; [done|]. unfold without. rewrite filter_cons. fold (without gone l).
  cbn [firsts] in Hn |- *. destruct (decide (pt_target_id t ≠ gone)) as [Ht|Ht]; cbn [firsts].
  - destruct (decide _) as [Hd|Hd]; [by apply IH|]. destruct n as [|n]; [done|]. cbn. f_equal. apply IH.
    intros u Hu. apply Hn. by right.
  - destruct (decide _) as [Hd|Hd]; [by apply IH|]. destruct n as [|n]; [done|]. destruct Ht. apply Hn. by left.
Qed.

Lemma place_inv n fd targets excluded ids :
  place_ n fd targets excluded = Ok ids →
  fd ≠ Unspecified ∧ ids = pt_target_id <$> take n (firsts fd ∅ (ranked_ targets excluded)) ∧ length ids = n.
Proof.
  intros E. destruct (decide (fd = Unspecified)) as [->|Hfd]; [done|]. split; [done|]. rewrite place_firsts in E by done.
  cbv zeta in E. destruct (Nat.ltb_spec (length (firsts fd ∅ (ranked_ targets excluded))) n); [done|].
  apply Ok_inj in E as <-. split; [done|]. rewrite length_fmap, length_take. lia.
Qed.

Lemma chosen_NoDup n fd targets excluded ids :
  NoDup (pt_target_id <$> targets) → place_ n fd targets excluded = Ok ids → NoDup ids.
Proof.
  intros Hnd (Hfd & -> & _)%place_inv.
  assert (NoDup (pt_target_id <$> ranked_ targets excluded)) as Hr.
  { unfold scored_targets. rewrite sort_by_perm. eapply sublist_NoDup; [exact Hnd|]. apply fmap_sublist, sublist_filter. }
  eapply sublist_NoDup; [exact Hr|]. apply fmap_sublist. etrans; [apply sublist_take|apply firsts_sublist].
Qed.

(** C24: Placement moves few fragments: the answer does not depend on the order of the roster;
    excluding a target is removing it; a target that held no fragment can be removed, or
    added, without changing the answer; and when one that did is removed, every other chosen
    target is still chosen and at most one new one joins. *)
Theorem placement_stable n fd targets targets' excluded gone ids ids' :
  NoDup (pt_target_id <$> targets) → targets ≡ₚ targets' →
  place_ n fd targets excluded = Ok ids → place_ n fd (without gone targets) excluded = Ok ids' →
  place_ n fd targets' excluded = Ok ids ∧ place_ n fd targets ({[gone]} ∪ excluded) = Ok ids' ∧
  (gone ∉ ids → ids' = ids) ∧ (∀ x, x ∈ ids → x ≠ gone → x ∈ ids') ∧
  (size (list_to_set ids' ∖ list_to_set ids : gset (list byte)) ≤ 1)%nat.
Proof.
  intros Hnd Hp E E'. pose proof (chosen_NoDup _ _ _ _ _ Hnd E) as Hids.
  apply place_inv in E as Hi. destruct Hi as (Hfd & Ei & Hl). apply place_inv in E' as Hi'. destruct Hi' as (_ & Ei' & Hl').
  assert (∀ x, x ∈ ids → x ≠ gone → x ∈ ids') as Hkept.
  { intros x. rewrite Ei, Ei', ranked_without. intros (t & -> & Ht)%list_elem_of_fmap Hne. apply list_elem_of_fmap_2.
    by apply take_firsts_kept. }
  split_and!.
  - rewrite <-E. rewrite !place_firsts by done. by rewrite (ranked_perm targets targets').
  - rewrite <-E'. rewrite !place_firsts by done. by rewrite ranked_excluding.
  - intros Hg. rewrite Ei, Ei', ranked_without, take_firsts_unchanged; [done|]. intros t Ht <-. apply Hg. rewrite Ei.
    by apply list_elem_of_fmap_2.
  - done.
  - apply (joins_one gone); [done|lia|done].
Qed.

Lemma firsts_drives used l :
  NoDup (pt_target_id <$> l) → (∀ t, t ∈ l → domain_of DriveDomainLab t ∉ used) → firsts DriveDomainLab used l = l.
Proof.
  revert used. induction l as [|t l IH]; intros used Hnd Hu; [done|]. cbn [firsts]. rewrite decide_False by (apply Hu; by left).
  cbn in Hnd. apply NoDup_cons in Hnd as [Ht Hnd]. f_equal. apply IH; [done|]. intros u Hin.
  rewrite not_elem_of_union, not_elem_of_singleton. split; [|apply Hu; by right].
  intros E%(inj (app (bstr "target:"))). apply Ht. rewrite <-E. by apply list_elem_of_fmap_2.
Qed.

Lemma filter_all {A} (P : A → Prop) `{∀ x, Decision (P x)} (l : list A) : (∀ x, x ∈ l → P x) → filter P l = l.
Proof.
  induction l as [|x l IH]; intros Hl; [done|]. rewrite filter_cons, decide_True by (apply Hl; by left). f_equal. apply IH.
  intros y Hy. apply Hl. by right.
Qed.

Lemma filter_shift {A B} (f : A → B) `{EqDecision B} (l : list A) i j x :
  NoDup (f <$> l) → (f <$> l) !! i = Some x → (i ≤ j)%nat →
  (f <$> filter (fun a => f a ≠ x) l) !! j = (f <$> l) !! S j.
Proof.
  revert i j. induction l as [|a l IH]; intros i j Hnd Hi Hj; [done|]. cbn in Hnd. apply NoDup_cons in Hnd as [Ha Hnd].
  rewrite filter_cons. destruct i as [|i].
  - cbn in Hi. injection Hi as <-. rewrite decide_False by tauto. cbn. f_equal. f_equal.
    apply filter_all. intros b Hb Hne. apply Ha. rewrite <-Hne. by apply list_elem_of_fmap_2.
  - cbn in Hi. destruct j as [|j]; [lia|]. rewrite decide_True.
    + cbn. apply (IH i); [done|done|lia].
    + intros E. apply Ha. rewrite E. by eapply list_elem_of_lookup_2.
Qed.

(** Removing a target shifts the fragments behind it: in the drive domain, when the
    target of fragment [i] leaves the roster, every later fragment but the last is placed on
    the target that held its successor, although all of those targets are still there. *)
Theorem removal_shifts_fragments n targets excluded gone ids ids' i :
  NoDup (pt_target_id <$> targets) →
  place_ n DriveDomainLab targets excluded = Ok ids → place_ n DriveDomainLab (without gone targets) excluded = Ok ids' →
  ids !! i = Some gone → ∀ j, (i ≤ j)%nat → (S j < n)%nat → ids' !! j = ids !! S j ∧ ids' !! j ≠ ids !! j.
Proof.
  intros Hnd E E' Hi j Hij Hj. pose proof (chosen_NoDup _ _ _ _ _ Hnd E) as Hids.
  assert (NoDup (pt_target_id <$> ranked_ targets excluded)) as Hr.
  { unfold scored_targets. rewrite sort_by_perm. eapply sublist_NoDup; [exact Hnd|]. apply fmap_sublist, sublist_filter. }
  apply place_inv in E as (_ & -> & Hl), E' as (_ & -> & Hl').
  rewrite ranked_without in *. set (l := ranked_ targets excluded) in *.
  assert (firsts DriveDomainLab ∅ l = l) as El by (apply firsts_drives; [done|intros; apply not_elem_of_empty]).
  assert (firsts DriveDomainLab ∅ (without gone l) = without gone l) as El'.
  { apply firsts_drives; [|intros; apply not_elem_of_empty]. eapply sublist_NoDup; [exact Hr|]. apply fmap_sublist, sublist_filter. }
  rewrite El, El' in *. rewrite fmap_take in Hi, Hids. rewrite !fmap_take. apply lookup_take_Some in Hi as [Hi _].
  assert ((pt_target_id <$> without gone l) !! j = (pt_target_id <$> l) !! S j) as Hsh by by eapply filter_shift.
  rewrite !lookup_take_lt by lia. split; [done|]. rewrite Hsh. intros Heq.
  rewrite length_fmap, length_take in Hl. destruct (lookup_lt_is_Some_2 (pt_target_id <$> l) j) as [x Hx]; [rewrite length_fmap; lia|].
  assert (S j = j); [|lia]. eapply NoDup_lookup; [exact Hr|rewrite Heq; exact Hx|exact Hx].
Qed.
End place.

(** ** The topology epoch *)

Lemma length_prefixed_inj a b x y :
  len a < 2 ^ 32 → len b < 2 ^ 32 → length_prefixed a ++ x = length_prefixed b ++ y → a = b ∧ x = y.
Proof.
  intros Ha Hb. unfold length_prefixed. rewrite <-!app_assoc. intros E.
  apply app_inj_1 in E as [El E]; [|by rewrite !length_le_bytes]. apply le_bytes_inj in El; [|unfold fits; lia..].
  apply app_inj_1 in E; [done|lia].
Qed.

Definition target_fits (t : PlacementTarget) : Prop :=
  len (pt_target_id t) < 2 ^ 32 ∧ len (pt_server_id t) < 2 ^ 32 ∧ len (pt_rack_id t) < 2 ^ 32.

Lemma bool_byte_inj a b : bool_byte a = bool_byte b → a = b.
Proof. by destruct a, b. Qed.

Lemma epoch_rows_inj l k :
  length l = length k → Forall target_fits l → Forall target_fits k →
  concat (epoch_row <$> l) = concat (epoch_row <$> k) → l = k.
Proof.
  revert k. induction l as [|s l IH]; intros [|t k] Hlen Hl Hk E; [done..|]. cbn in Hlen, E.
  apply Forall_cons in Hl as [(H1 & H2 & H3) Hl], Hk as [(K1 & K2 & K3) Hk].
  unfold epoch_row in E. rewrite <-!app_assoc in E. do 3 (apply length_prefixed_inj in E as [? E]; [|done..]).
  injection E as E1%bool_byte_inj E2%bool_byte_inj E. f_equal; [|apply IH; [lia|done..]]. destruct s, t; cbn in *; congruence.
Qed.

Lemma epoch_leb_total s t :
  bytes_leb (pt_target_id s) (pt_target_id t) = true ∨ bytes_leb (pt_target_id t) (pt_target_id s) = true.
Proof. apply bytes_leb_total. Qed.
Lemma epoch_leb_trans s t u :
  bytes_leb (pt_target_id s) (pt_target_id t) = true → bytes_leb (pt_target_id t) (pt_target_id u) = true →
  bytes_leb (pt_target_id s) (pt_target_id u) = true.
Proof. apply bytes_leb_trans. Qed.

Lemma epoch_preimage_iff targets targets' :
  NoDup (pt_target_id <$> targets) → Forall target_fits targets → Forall target_fits targets' →
  len targets < 2 ^ 32 → len targets' < 2 ^ 32 →
  epoch_preimage targets = epoch_preimage targets' ↔ targets ≡ₚ targets'.
Proof.
  intros Hnd Hf Hf' Hn Hn'. unfold epoch_preimage.
  set (leb := fun l r => bytes_leb (pt_target_id l) (pt_target_id r)). cbv zeta. split.
  - intros Ep. apply (inj (app TOPOLOGY_EPOCH_DOMAIN)) in Ep.
    apply app_inj_1 in Ep as [El Ep]; [|by rewrite !length_le_bytes].
    rewrite !(Permutation_length (sort_by_perm leb _)) in El. apply le_bytes_inj in El; [|unfold fits; lia..].
    apply epoch_rows_inj in Ep; [|rewrite !(Permutation_length (sort_by_perm leb _)); lia|by rewrite sort_by_perm..].
    by rewrite <-(sort_by_perm leb targets), Ep, sort_by_perm.
  - intros Hp. erewrite sort_by_unique; [done|apply epoch_leb_total|apply epoch_leb_trans| |done].
    intros s t Hs Ht H1 H2. eapply NoDup_ids_eq; [exact Hnd|done..|]. by apply bytes_leb_antisym.
Qed.

(** The topology epoch identifies the topology. For rosters of distinct targets the bytes
    hashed are equal exactly when one roster is a rearrangement of the other, so two epochs
    are equal exactly then, or when the hashes of these two different inputs agree in their
    first eight bytes. *)
Theorem topology_epoch_iff sha256 targets targets' :
  (∀ x, length (sha256 x) = 32%nat) → NoDup (pt_target_id <$> targets) →
  Forall target_fits targets → Forall target_fits targets' → len targets < 2 ^ 32 → len targets' < 2 ^ 32 →
  (epoch_preimage targets = epoch_preimage targets' ↔ targets ≡ₚ targets') ∧
  (topology_epoch sha256 targets = topology_epoch sha256 targets' ↔
   targets ≡ₚ targets' ∨
   epoch_preimage targets ≠ epoch_preimage targets' ∧
   take 8 (sha256 (epoch_preimage targets)) = take 8 (sha256 (epoch_preimage targets'))).
Proof.
  intros Hsha Hnd Hf Hf' Hn Hn'. pose proof (epoch_preimage_iff _ _ Hnd Hf Hf' Hn Hn') as Hpre.
  split; [exact Hpre|]. unfold topology_epoch. split.
  - intros He. apply (f_equal (le_bytes 8)) in He. rewrite !le_bytes_of_le_n in He by (rewrite length_take, Hsha; lia).
    destruct (decide (epoch_preimage targets = epoch_preimage targets')); [left; by apply Hpre|by right].
  - intros [Hp%Hpre|[_ He]]; [by rewrite Hp|by rewrite He].
Qed.

(** ** A roster of four drives *)

Definition pl_sha (x : list byte) : list byte := take 32 (reverse x ++ replicate 32 x00).
Definition pl_target (id : list byte) : PlacementTarget := mkPlacementTarget id (bstr "n" ++ id) (bstr "r") true true.
Definition pl_roster : list PlacementTarget := pl_target <$> [bstr "a"; bstr "b"; bstr "c"; bstr "d"].

Example pl_placed : place_stripe pl_sha (bstr "s") 1 1 0 3 DriveDomainLab pl_roster ∅ = Ok [bstr "d"; bstr "c"; bstr "b"].
Proof. vm_compute. reflexivity. Qed.
Example pl_placed_without :
  place_stripe pl_sha (bstr "s") 1 1 0 3 DriveDomainLab (without (bstr "d") pl_roster) ∅ = Ok [bstr "c"; bstr "b"; bstr "a"].
Proof. vm_compute. reflexivity. Qed.

Lemma pl_distinct : NoDup (pt_target_id <$> pl_roster).
Proof. apply (bool_decide_unpack _). vm_compute. exact I. Qed.

Lemma place_stripe_spec_witness :
  (size (usable_domains Rack pl_roster ∅) < 3)%nat ∧
  place_stripe pl_sha (bstr "s") 1 1 0 3 Rack pl_roster ∅ = Err (NotEnoughFailureDomains 3 1).
Proof.
  pose proof (place_stripe_spec pl_sha (bstr "s") 1 1 0 3 Rack pl_roster ∅ ltac:(discriminate)) as H.
  assert (place_stripe pl_sha (bstr "s") 1 1 0 3 Rack pl_roster ∅ = Err (NotEnoughFailureDomains 3 1)) as E
    by (vm_compute; reflexivity).
  rewrite E in H. split; [exact (proj2 H)|exact E].
Defined.

Lemma placement_stable_witness :
  (size (list_to_set [bstr "c"; bstr "b"; bstr "a"] ∖ list_to_set [bstr "d"; bstr "c"; bstr "b"] : gset (list byte)) ≤ 1)%nat.
Proof.
  apply (placement_stable pl_sha (bstr "s") 1 1 0 3 DriveDomainLab pl_roster pl_roster ∅ (bstr "d")).
  - exact pl_distinct.
  - reflexivity.
  - exact pl_placed.
  - exact pl_placed_without.
Defined.

Lemma removal_shifts_fragments_witness : [bstr "c"; bstr "b"; bstr "a"] !! 1%nat = [bstr "d"; bstr "c"; bstr "b"] !! 2%nat.
Proof.
  apply (removal_shifts_fragments pl_sha (bstr "s") 1 1 0 3 pl_roster ∅ (bstr "d") _ _ 0).
  - exact pl_distinct.
  - exact pl_placed.
  - exact pl_placed_without.
  - reflexivity.
  - lia.
  - lia.
Defined.

Lemma topology_epoch_iff_witness : topology_epoch pl_sha pl_roster = topology_epoch pl_sha (reverse pl_roster).
Proof.
  apply topology_epoch_iff.
  - intros x. unfold pl_sha. rewrite length_take, length_app, length_replicate. lia.
  - exact pl_distinct.
  - repeat constructor.
  - repeat constructor.
  - vm_compute. reflexivity.
  - vm_compute. reflexivity.
  - left. symmetry. apply reverse_Permutation.
Defined.
