(* ===== verification/Gf256.v ===== *)
(** The field GF(2^8) with the polynomial x^8 + x^4 + x^3 + x^2 + 1 (0x11d), in which the
    erasure codes compute. Elements are the integers below 256, addition is exclusive or. *)
From S2P Require Import Prelude.

(** Multiplication by x. *)
Definition xtime (a : Z) : Z := Z.lxor (Z.land (Z.shiftl a 1) 255) (if Z.testbit a 7 then 29 else 0).

(** The sum of [n] elements. *)
Fixpoint xsum (n : nat) (f : nat → Z) : Z :=
  match n with
  | O => 0
  | S n' => Z.lxor (f O) (xsum n' (fun i => f (S i)))
  end.

Definition gf256_mul (a b : Z) : Z :=
  xsum 8 (fun i => if Z.testbit a (Z.of_nat i) then Nat.iter i xtime b else 0).

(** ** Sums *)

Lemma lxor_swap a b c d : Z.lxor (Z.lxor a b) (Z.lxor c d) = Z.lxor (Z.lxor a c) (Z.lxor b d).
Proof. rewrite !Z.lxor_assoc. f_equal. by rewrite <-!Z.lxor_assoc, (Z.lxor_comm b c). Qed.

Lemma xsum_ext n f g : (∀ i, (i < n)%nat → f i = g i) → xsum n f = xsum n g.
Proof.
  revert f g. induction n as [|n IH]; intros f g H; [done|]. cbn. rewrite H by lia. f_equal. apply IH.
  intros i Hi. apply H. lia.
Qed.

Lemma xsum_lxor n f g : xsum n (fun i => Z.lxor (f i) (g i)) = Z.lxor (xsum n f) (xsum n g).
Proof. revert f g. induction n as [|n IH]; intros f g; [done|]. cbn. by rewrite IH, lxor_swap. Qed.

Lemma xsum_zero n : xsum n (fun _ => 0) = 0.
Proof. induction n as [|n IH]; [done|]. exact IH. Qed.

Lemma xsum_swap n k (f : nat → nat → Z) :
  xsum n (fun i => xsum k (fun j => f i j)) = xsum k (fun j => xsum n (fun i => f i j)).
Proof.
  revert f. induction n as [|n IH]; intros f; [symmetry; apply xsum_zero|]. cbn. rewrite IH. by rewrite <-xsum_lxor.
Qed.

(** Picking one term. *)
Lemma xsum_single n k f : (k < n)%nat → (∀ i, (i < n)%nat → i ≠ k → f i = 0) → xsum n f = f k.
Proof.
  revert k f. induction n as [|n IH]; intros k f Hk Hf; [lia|]. cbn. destruct k as [|k].
  - rewrite (xsum_ext n _ (fun _ => 0)), xsum_zero by (intros i Hi; apply Hf; lia). apply Z.lxor_0_r.
  - rewrite (Hf O) by lia. rewrite Z.lxor_0_l. apply (IH k (fun i => f (S i))); [lia|]. intros i Hi Hne. apply Hf; lia.
Qed.

(** ** Elements *)

Lemma lxor_u8 a b : is_u8 a → is_u8 b → is_u8 (Z.lxor a b).
Proof.
  unfold fits. intros Ha Hb. assert (0 ≤ Z.lxor a b) by (apply Z.lxor_nonneg; lia). split; [done|].
  destruct (Z.eq_dec (Z.lxor a b) 0) as [E|E]; [lia|]. apply Z.log2_lt_pow2; [lia|].
  pose proof (Z.log2_lxor a b). assert (Z.log2 a < 8) by (destruct (Z.eq_dec a 0) as [->|]; [done|apply Z.log2_lt_pow2; lia]).
  assert (Z.log2 b < 8) by (destruct (Z.eq_dec b 0) as [->|]; [done|apply Z.log2_lt_pow2; lia]). lia.
Qed.

Lemma xsum_u8 n f : (∀ i, (i < n)%nat → is_u8 (f i)) → is_u8 (xsum n f).
Proof.
  revert f. induction n as [|n IH]; intros f Hf; [done|]. cbn. apply lxor_u8; [apply Hf; lia|]. apply IH. intros i Hi. apply Hf. lia.
Qed.

Lemma land255_u8 a : is_u8 (Z.land a 255).
Proof. change 255 with (Z.ones 8). rewrite Z.land_ones by lia. apply Z.mod_pos_bound. lia. Qed.

Lemma xtime_u8 a : is_u8 (xtime a).
Proof. unfold xtime. apply lxor_u8; [apply land255_u8|]. by destruct (Z.testbit a 7). Qed.

Lemma xtime_lxor a b : xtime (Z.lxor a b) = Z.lxor (xtime a) (xtime b).
Proof.
  unfold xtime. rewrite Z.lxor_spec, Z.shiftl_lxor, lxor_swap. f_equal.
  - apply Z.bits_inj'. intros n Hn. rewrite Z.land_spec, !Z.lxor_spec, !Z.land_spec.
    by destruct (Z.testbit _ _), (Z.testbit _ _), (Z.testbit _ _).
  - by destruct (Z.testbit a 7), (Z.testbit b 7).
Qed.

Lemma iter_xtime_u8 n a : is_u8 a → is_u8 (Nat.iter n xtime a).
Proof. intros Ha. destruct n; [done|]. apply xtime_u8. Qed.

Lemma iter_xtime_lxor n a b : Nat.iter n xtime (Z.lxor a b) = Z.lxor (Nat.iter n xtime a) (Nat.iter n xtime b).
Proof. induction n as [|n IH]; [done|]. rewrite !Nat.iter_succ. by rewrite IH, xtime_lxor. Qed.

(** ** Multiplication *)

Lemma gf256_mul_u8 a b : is_u8 b → is_u8 (gf256_mul a b).
Proof. intros Hb. apply xsum_u8. intros i _. destruct (Z.testbit _ _); [by apply iter_xtime_u8|done]. Qed.

Lemma gf256_mul_lxor_r a b c : gf256_mul a (Z.lxor b c) = Z.lxor (gf256_mul a b) (gf256_mul a c).
Proof.
  unfold gf256_mul. rewrite <-xsum_lxor. apply xsum_ext. intros i _. rewrite iter_xtime_lxor. by destruct (Z.testbit _ _).
Qed.

Lemma gf256_mul_lxor_l a b c : gf256_mul (Z.lxor a b) c = Z.lxor (gf256_mul a c) (gf256_mul b c).
Proof.
  unfold gf256_mul. rewrite <-xsum_lxor. apply xsum_ext. intros i _. rewrite Z.lxor_spec.
  destruct (Z.testbit a _), (Z.testbit b _); cbn; [by rewrite Z.lxor_nilpotent|by rewrite Z.lxor_0_r|done..].
Qed.

Lemma gf256_mul_0_l b : gf256_mul 0 b = 0.
Proof. unfold gf256_mul. rewrite (xsum_ext _ _ (fun _ => 0)); [apply xsum_zero|]. intros i _. by rewrite Z.bits_0. Qed.

Lemma gf256_mul_0_r a : gf256_mul a 0 = 0.
Proof.
  unfold gf256_mul. rewrite (xsum_ext _ _ (fun _ => 0)); [apply xsum_zero|]. intros i _.
  assert (Nat.iter i xtime 0 = 0) as -> by (induction i as [|i IH]; [done|rewrite Nat.iter_succ; by rewrite IH]). by destruct (Z.testbit _ _).
Qed.

(** Two additive maps that agree on the powers of two agree on every element. *)
Definition additive (f : Z → Z) : Prop := f 0 = 0 ∧ ∀ a b, f (Z.lxor a b) = Z.lxor (f a) (f b).

Lemma lxor_top n a : 0 ≤ n → 2 ^ n ≤ a < 2 ^ (n + 1) → a = Z.lxor (2 ^ n) (a - 2 ^ n).
Proof.
  intros Hn Ha. rewrite Z.pow_add_r in Ha by lia. rewrite <-Z.add_nocarry_lxor; [lia|].
  apply Z.bits_inj'. intros i Hi. rewrite Z.land_spec, Z.bits_0, Z.pow2_bits_eqb by lia. destruct (Z.eqb_spec n i) as [<-|]; [|done].
  cbn. destruct (Z.eq_dec (a - 2 ^ n) 0) as [->|]; [apply Z.bits_0|]. apply Z.bits_above_log2; [lia|]. apply Z.log2_lt_pow2; lia.
Qed.

Lemma additive_ext f g :
  additive f → additive g → (∀ i, (i < 8)%nat → f (2 ^ Z.of_nat i) = g (2 ^ Z.of_nat i)) → ∀ a, is_u8 a → f a = g a.
Proof.
  intros [F0 F] [G0 G] Hb. assert (∀ n a, (n ≤ 8)%nat → 0 ≤ a < 2 ^ Z.of_nat n → f a = g a) as H.
  { induction n as [|n IH]; intros a Hn Ha; [assert (a = 0) as -> by lia; congruence|].
    destruct (Z.lt_ge_cases a (2 ^ Z.of_nat n)) as [Hlt|Hge]; [apply IH; lia|].
    replace (Z.of_nat (S n)) with (Z.of_nat n + 1) in Ha by lia. rewrite (lxor_top (Z.of_nat n) a) by lia. rewrite F, G. f_equal.
    - apply Hb. lia.
    - rewrite Z.pow_add_r in Ha by lia. apply IH; lia. }
  intros a Ha. apply (H 8%nat); [lia|]. exact Ha.
Qed.

Lemma additive_mul_l c : additive (fun a => gf256_mul a c).
Proof. split; [apply gf256_mul_0_l|]. intros a b. apply gf256_mul_lxor_l. Qed.
Lemma additive_mul_r c : additive (fun a => gf256_mul c a).
Proof. split; [apply gf256_mul_0_r|]. intros a b. apply gf256_mul_lxor_r. Qed.
Lemma additive_comp f g : additive f → additive g → additive (fun a => f (g a)).
Proof. intros [F0 F] [G0 G]. split; [by rewrite G0|]. intros a b. by rewrite G, F. Qed.

(** A property of the eight powers of two, by evaluation. *)
Lemma below8 (P : nat → bool) : forallb P (seq 0 8) = true → ∀ i, (i < 8)%nat → P i = true.
Proof. intros H i Hi. rewrite forallb_forall in H. apply H, in_seq. lia. Qed.

Lemma gf256_mul_1_l b : is_u8 b → gf256_mul 1 b = b.
Proof.
  apply (additive_ext (fun b => gf256_mul 1 b) (fun b => b)); [apply additive_mul_r|done|].
  intros i Hi. apply Z.eqb_eq. revert i Hi. apply below8. vm_compute. reflexivity.
Qed.

Lemma gf256_mul_comm a b : is_u8 a → is_u8 b → gf256_mul a b = gf256_mul b a.
Proof.
  intros Ha Hb. revert a Ha. apply (additive_ext (fun a => gf256_mul a b)); [apply additive_mul_l|apply additive_mul_r|].
  intros i Hi. revert b Hb. apply (additive_ext (fun b => gf256_mul _ b)); [apply additive_mul_r|apply additive_mul_l|].
  intros j Hj. apply Z.eqb_eq. revert j Hj. apply below8. revert i Hi. apply below8. vm_compute. reflexivity.
Qed.

Lemma gf256_mul_assoc a b c :
  is_u8 a → is_u8 b → is_u8 c → gf256_mul a (gf256_mul b c) = gf256_mul (gf256_mul a b) c.
Proof.
  intros Ha Hb Hc. revert a Ha.
  apply (additive_ext (fun a => gf256_mul a (gf256_mul b c)));
    [apply additive_mul_l|apply (additive_comp (fun a => gf256_mul a c) (fun a => gf256_mul a b)); apply additive_mul_l|].
  intros i Hi. revert b Hb.
  apply (additive_ext (fun b => gf256_mul (2 ^ Z.of_nat i) (gf256_mul b c)));
    [apply (additive_comp (fun b => gf256_mul (2 ^ Z.of_nat i) b)); [apply additive_mul_r|apply additive_mul_l]
    |apply (additive_comp (fun b => gf256_mul b c)); [apply additive_mul_l|apply additive_mul_r]|].
  intros j Hj. revert c Hc.
  apply (additive_ext (fun c => gf256_mul (2 ^ Z.of_nat i) (gf256_mul (2 ^ Z.of_nat j) c)));
    [apply (additive_comp (fun c => gf256_mul (2 ^ Z.of_nat i) c)); apply additive_mul_r|apply additive_mul_r|].
  intros k Hk. apply Z.eqb_eq. revert k Hk. apply below8. revert j Hj. apply below8. revert i Hi. apply below8.
  vm_compute. reflexivity.
Qed.

Lemma gf256_mul_xsum_r a n f : gf256_mul a (xsum n f) = xsum n (fun i => gf256_mul a (f i)).
Proof.
  revert f. induction n as [|n IH]; intros f; [apply gf256_mul_0_r|]. cbn [xsum]. by rewrite gf256_mul_lxor_r, IH.
Qed.

Lemma gf256_mul_xsum_l n f b : gf256_mul (xsum n f) b = xsum n (fun i => gf256_mul (f i) b).
Proof.
  revert f. induction n as [|n IH]; intros f; [apply gf256_mul_0_l|]. cbn [xsum]. by rewrite gf256_mul_lxor_l, IH.
Qed.
