(* ===== verification/Kee.v ===== *)
(** Erasure coding (poc/kee/src: profile.rs, software.rs, isa_l_backend.rs, prepared.rs,
    lib.rs; poc/keisal/src/lib.rs): an object is split into data fragments, parity fragments
    are added, and any [data_fragments] of them restore the rest.

    The [reed_solomon_erasure] crate and the ISA-L library are parameters. Messages of
    errors are left out; [Panicked] is a failed assertion, index or [expect]. *)
From S2P Require Import Prelude Bytes Fdb KmsKeys KmsValues Gf256.

(** ** Profiles (profile.rs) *)

Definition DATA_FRAGMENTS : Z := 8.
Definition PARITY_FRAGMENTS : Z := 2.
Definition TOTAL_FRAGMENTS : Z := DATA_FRAGMENTS + PARITY_FRAGMENTS.
Definition DEFAULT_FRAGMENT_BYTES : Z := 1048576.
Definition MIN_FRAGMENT_BYTES : Z := 64 * 1024.

Inductive FailureDomain : Set := DriveDomainLab | Node | Rack.

Record EcProfile := mkProfile {
  ep_id : list byte;
  ep_codec_id : list byte;
  ep_data_fragments : Z;
  ep_parity_fragments : Z;
  ep_fragment_bytes : Z;
  ep_failure_domain : FailureDomain;
}.

Inductive KeeError : Set :=
| InvalidProfile
| PayloadTooLarge (actual maximum : Z)
| FragmentCountMismatch (expected actual : Z)
| FragmentSizeMismatch (index expected actual : Z)
| TooManyFragmentsMissing (missing allowed : Z)
| TooFewFragmentsPresent (present required : Z)
| CodecError
| Panicked.

Definition single_stripe_8_plus_2 (id codec_id : list byte) (failure_domain : FailureDomain) : EcProfile :=
  mkProfile id codec_id DATA_FRAGMENTS PARITY_FRAGMENTS DEFAULT_FRAGMENT_BYTES failure_domain.

Definition validate (p : EcProfile) : result KeeError unit :=
  if blank (ep_id p) then Err InvalidProfile
  else if blank (ep_codec_id p) then Err InvalidProfile
  else if ep_data_fragments p =? 0 then Err InvalidProfile
  else if ep_parity_fragments p =? 0 then Err InvalidProfile
  else if ep_fragment_bytes p =? 0 then Err InvalidProfile
  else Ok tt.

Definition is_power_of_two (n : Z) : bool := (0 <? n) && (Z.land n (n - 1) =? 0).

(** Sums and products of [usize] wrap around. *)
Definition total_fragments (p : EcProfile) : Z := wrap 64 (ep_data_fragments p + ep_parity_fragments p).

Definition validate_single_stripe (p : EcProfile) : result KeeError unit :=
  _ ← validate p;
  if 256 <? total_fragments p then Err InvalidProfile
  else if ep_fragment_bytes p <? MIN_FRAGMENT_BYTES then Err InvalidProfile
  else if negb (is_power_of_two (ep_fragment_bytes p)) then Err InvalidProfile
  else if negb (ep_fragment_bytes p mod 4096 =? 0) then Err InvalidProfile
  else Ok tt.

Definition max_object_bytes (p : EcProfile) : Z := wrap 64 (ep_data_fragments p * ep_fragment_bytes p).

(** ** Shards *)

(** [vec![vec![0; fragment_bytes]; total]] *)
Definition zero_shards (total fragment_bytes : Z) : list (list byte) :=
  replicate (Z.to_nat total) (replicate (Z.to_nat fragment_bytes) x00).

(** [Vec::resize(n, 0)], then [fill(0)]. *)
Definition resize (n : nat) (l : list byte) : list byte := take n l ++ replicate (n - length l) x00.
Definition cleared (fragment_bytes : Z) (shard : list byte) : list byte :=
  let shard := if negb (len shard =? fragment_bytes) then resize (Z.to_nat fragment_bytes) shard else shard in
  replicate (length shard) x00.

(** [shards[index][..chunk.len()].copy_from_slice(chunk)] for the chunks in order. *)
Fixpoint copy_chunks (pieces shards : list (list byte)) : result KeeError (list (list byte)) :=
  match pieces, shards with
  | [], _ => Ok shards
  | piece :: pieces', shard :: shards' =>
      if len shard <? len piece then Err Panicked
      else
        rest ← copy_chunks pieces' shards';
        Ok ((piece ++ drop (length piece) shard) :: rest)
  | _ :: _, [] => Err Panicked
  end.

Definition count_missing (fragments : list (option (list byte))) : Z :=
  len (filter (fun f => f = None) fragments).
Definition count_present (fragments : list (option (list byte))) : Z :=
  len (filter (fun f => f ≠ None) fragments).

(** The first fragment, from index [i] on, that is present with another size. *)
Fixpoint check_sizes (i fragment_bytes : Z) (fragments : list (option (list byte))) : result KeeError unit :=
  match fragments with
  | [] => Ok tt
  | Some bytes :: rest =>
      if negb (len bytes =? fragment_bytes) then Err (FragmentSizeMismatch i fragment_bytes (len bytes))
      else check_sizes (i + 1) fragment_bytes rest
  | None :: rest => check_sizes (i + 1) fragment_bytes rest
  end.

(** Checks of a stripe to restore, for [data + parity] fragments. *)
Definition check_fragments (data parity total fragment_bytes : Z) (fragments : list (option (list byte))) :
    result KeeError unit :=
  if negb (len fragments =? total) then Err (FragmentCountMismatch total (len fragments))
  else if parity <? count_missing fragments then Err (TooManyFragmentsMissing (count_missing fragments) parity)
  else if count_present fragments <? data then Err (TooFewFragmentsPresent (count_present fragments) data)
  else check_sizes 0 fragment_bytes fragments.

(** Every shard, or an error when one is still missing. *)
Definition all_present (fragments : list (option (list byte))) : result KeeError (list (list byte)) :=
  try_map (fun f => ok_or f CodecError) fragments.

(** Room for the object, cleared and filled with it: [total] shards of a validated profile. *)
Definition prepare_shards (p : EcProfile) (total : Z) (object : list byte) (shards : list (list byte)) :
    result KeeError (list (list byte)) :=
  _ ← validate_single_stripe p;
  if max_object_bytes p <? len object then Err (PayloadTooLarge (len object) (max_object_bytes p))
  else if negb (len shards =? total) then Err (FragmentCountMismatch total (len shards))
  else copy_chunks (chunks (Z.to_nat (ep_fragment_bytes p)) object) (cleared (ep_fragment_bytes p) <$> shards).

(** ** The software codec (software.rs) *)

Class ReedSolomonLib := {
  ReedSolomon : Type;
  rs_new : Z → Z → option ReedSolomon;
  rs_encode : ReedSolomon → list (list byte) → option (list (list byte));
  rs_reconstruct : ReedSolomon → list (option (list byte)) → option (list (option (list byte)));
}.

Section software.
Context `{ReedSolomonLib}.

Definition encode_into_with_codec (p : EcProfile) (object : list byte) (shards : list (list byte)) (codec : ReedSolomon) :
    result KeeError (list (list byte)) :=
  shards ← prepare_shards p (total_fragments p) object shards;
  ok_or (rs_encode codec shards) CodecError.

Definition software_encode_into (p : EcProfile) (object : list byte) (shards : list (list byte)) :
    result KeeError (list (list byte)) :=
  codec ← ok_or (rs_new (ep_data_fragments p) (ep_parity_fragments p)) CodecError;
  encode_into_with_codec p object shards codec.

Definition software_encode (p : EcProfile) (object : list byte) : result KeeError (list (list byte)) :=
  software_encode_into p object (zero_shards (total_fragments p) (ep_fragment_bytes p)).

Definition software_reconstruct (p : EcProfile) (fragments : list (option (list byte))) :
    result KeeError (list (list byte)) :=
  _ ← validate_single_stripe p;
  _ ← check_fragments (ep_data_fragments p) (ep_parity_fragments p) (total_fragments p) (ep_fragment_bytes p) fragments;
  codec ← ok_or (rs_new (ep_data_fragments p) (ep_parity_fragments p)) CodecError;
  shards ← ok_or (rs_reconstruct codec fragments) CodecError;
  all_present shards.
End software.

(** ** ISA-L (keisal/src/lib.rs) *)

(** The C functions: tables for [rows] rows of [k] coefficients, [rows] outputs from [k]
    inputs of a length, one product, the [m] by [k] coding matrix, an inverse. *)
Class IsaL := {
  ec_init_tables : Z → Z → list byte → list byte;
  ec_encode_data : Z → Z → Z → list byte → list (list byte) → list (list byte);
  gf_mul : byte → byte → byte;
  gf_gen_rs_matrix : Z → Z → list byte;
  gf_invert_matrix : list byte → Z → option (list byte);
}.

Definition GF_TABLE_BYTES_PER_COEFF : Z := 32.

(** [as c_int] *)
Definition c_int (z : Z) : Z := let w := wrap 32 z in if w <? 2 ^ 31 then w else w - 2 ^ 32.

Definition byte_at (l : list byte) (i : Z) : result KeeError byte := ok_or (if 0 <=? i then l !! Z.to_nat i else None) Panicked.

(** [&matrix[row * 8..row * 8 + 8]] *)
Definition matrix_row (matrix : list byte) (row : Z) : result KeeError (list byte) :=
  ok_or (slice (row * DATA_FRAGMENTS) DATA_FRAGMENTS matrix) Panicked.

(** The first eight fragments that are not missing. *)
Fixpoint collect_sources (missing : list Z) (acc indexes : list Z) : list Z :=
  match indexes with
  | [] => acc
  | index :: indexes' =>
      if bool_decide (index ∈ missing) then collect_sources missing acc indexes'
      else
        let acc := acc ++ [index] in
        if len acc =? DATA_FRAGMENTS then acc else collect_sources missing acc indexes'
  end.

(** A set of missing fragments as the bits of a [u16]. *)
Definition erasure_key (missing : list Z) : Z :=
  foldl (fun key index => Z.lor key (wrap 16 (Z.shiftl 1 index))) 0 missing.

Record PreparedDecodePlan := mkDecodePlan {
  dp_rows : Z;
  dp_missing_indexes : list Z;
  dp_source_indexes : list Z;
  dp_decode_tables : list byte;
}.

Record PreparedBackendCore := mkCore {
  pc_encode_tables : list byte;
  pc_decode_plans : gmap Z PreparedDecodePlan;
}.

Definition plan_supports (p : EcProfile) : bool :=
  (ep_data_fragments p =? DATA_FRAGMENTS) && (ep_parity_fragments p =? PARITY_FRAGMENTS).

Definition collect_missing_indexes (fragments : list (option (list byte))) : list Z :=
  omap (fun '(i, f) => match f with None => Some (Z.of_nat i) | Some _ => None end) (imap pair fragments).

Section isa_l.
Context `{IsaL}.

Definition init_tables (k rows : Z) (coefficients : list byte) : result KeeError (list byte) :=
  if negb (len coefficients =? k * rows) then Err Panicked
  else Ok (ec_init_tables (c_int k) (c_int rows) coefficients).

Definition encode_data (length_ k rows : Z) (gftbls : list byte) (data : list (list byte)) :
    result KeeError (list (list byte)) :=
  if negb (len gftbls =? GF_TABLE_BYTES_PER_COEFF * k * rows) then Err Panicked
  else if negb (len data =? k) then Err Panicked
  else Ok (ec_encode_data (c_int length_) (c_int k) (c_int rows) gftbls data).

Definition generate_rs_matrix (m k : Z) : list byte := gf_gen_rs_matrix (c_int m) (c_int k).
Definition invert_matrix_owned (matrix : list byte) (n : Z) : option (list byte) := gf_invert_matrix matrix (c_int n).

(** One row of the decode matrix. *)
Definition decode_row (encode_matrix inverted : list byte) (missing_index : Z) : result KeeError (list byte) :=
  if missing_index <? DATA_FRAGMENTS then matrix_row inverted missing_index
  else
    try_map (fun column =>
      value ← try_fold (fun value inner =>
        a ← byte_at inverted (inner * DATA_FRAGMENTS + column);
        b ← byte_at encode_matrix (missing_index * DATA_FRAGMENTS + inner);
        Ok (Z.lxor value (byte_to_Z (gf_mul a b)))) 0 (seqZ 0 DATA_FRAGMENTS);
      Ok (byte_of_Z value)) (seqZ 0 DATA_FRAGMENTS).

Definition build_decode_plan (encode_matrix : list byte) (missing : list Z) : result KeeError PreparedDecodePlan :=
  let source_indexes := collect_sources missing [] (seqZ 0 TOTAL_FRAGMENTS) in
  if negb (len source_indexes =? DATA_FRAGMENTS) then Err (TooFewFragmentsPresent (len source_indexes) DATA_FRAGMENTS)
  else
    survivor_rows ← try_map (matrix_row encode_matrix) source_indexes;
    inverted ← ok_or (invert_matrix_owned (concat survivor_rows) DATA_FRAGMENTS) CodecError;
    rows ← try_map (decode_row encode_matrix inverted) missing;
    tables ← init_tables DATA_FRAGMENTS (len missing) (concat rows);
    Ok (mkDecodePlan (len missing) missing source_indexes tables).

(** Every single and double erasure. *)
Definition erasures : list (list Z) :=
  first ← seqZ 0 TOTAL_FRAGMENTS;
  [first] :: ((fun second => [first; second]) <$> seqZ (first + 1) (TOTAL_FRAGMENTS - (first + 1))).

Definition build_decode_plans (encode_matrix : list byte) : result KeeError (gmap Z PreparedDecodePlan) :=
  try_fold (fun plans missing =>
    plan ← build_decode_plan encode_matrix missing;
    Ok (<[erasure_key missing := plan]> plans)) ∅ erasures.

(** [PreparedBackendCore::build] *)
Definition build_core : result KeeError PreparedBackendCore :=
  let encode_matrix := generate_rs_matrix TOTAL_FRAGMENTS DATA_FRAGMENTS in
  let parity_rows := drop (Z.to_nat (DATA_FRAGMENTS * DATA_FRAGMENTS)) encode_matrix in
  encode_tables ← init_tables DATA_FRAGMENTS PARITY_FRAGMENTS parity_rows;
  decode_plans ← build_decode_plans encode_matrix;
  Ok (mkCore encode_tables decode_plans).

(** [expect] on the core, built once. *)
Definition shared_core : result KeeError PreparedBackendCore := map_err (fun _ => Panicked) build_core.

Definition isal_encode_into (core : PreparedBackendCore) (p : EcProfile) (object : list byte) (shards : list (list byte)) :
    result KeeError (list (list byte)) :=
  shards ← prepare_shards p TOTAL_FRAGMENTS object shards;
  let data := take (Z.to_nat DATA_FRAGMENTS) shards in
  parity ← encode_data (ep_fragment_bytes p) DATA_FRAGMENTS PARITY_FRAGMENTS (pc_encode_tables core) data;
  Ok (data ++ parity).

(** [fragments[missing] = Some(recovered)] for the restored fragments in order. *)
Definition put_recovered (fragments : list (option (list byte))) (recovered : list (list byte)) (missing : list Z) :
    list (option (list byte)) :=
  foldl (fun fragments '(fragment, index) => <[Z.to_nat index := Some fragment]> fragments) fragments (zip recovered missing).

Definition isal_reconstruct (core : PreparedBackendCore) (p : EcProfile) (fragments : list (option (list byte))) :
    result KeeError (list (list byte)) :=
  _ ← validate_single_stripe p;
  _ ← check_fragments DATA_FRAGMENTS PARITY_FRAGMENTS TOTAL_FRAGMENTS (ep_fragment_bytes p) fragments;
  let missing := collect_missing_indexes fragments in
  if bool_decide (missing = []) then all_present fragments
  else
    plan ← ok_or (pc_decode_plans core !! erasure_key missing) CodecError;
    sources ← try_map (fun index => ok_or (mjoin (fragments !! Z.to_nat index)) CodecError) (dp_source_indexes plan);
    recovered ← encode_data (ep_fragment_bytes p) DATA_FRAGMENTS (dp_rows plan) (dp_decode_tables plan) sources;
    all_present (put_recovered fragments recovered (take (Z.to_nat (dp_rows plan)) (dp_missing_indexes plan))).
End isa_l.

(** ** Selection of the backend (backend.rs, prepared.rs, lib.rs)

    [isa_l] is the build feature [isa-l-backend]. *)

Inductive BackendKind : Set := IsaLBackend | SoftwareBackend.

Definition selected_backend (isa_l : bool) : BackendKind := if isa_l then IsaLBackend else SoftwareBackend.

Section kee.
Context `{ReedSolomonLib} `{IsaL} (isa_l : bool).

(** [PreparedBackendPlan] of either build, and the dynamic codec. *)
Inductive PreparedCodec :=
| Backend (core : PreparedBackendCore)
| BackendSoftware (codec : ReedSolomon)
| Dynamic (codec : ReedSolomon).

Record PreparedEcPlan := mkPlan_ {
  pe_profile : EcProfile;
  pe_prepared : PreparedCodec;
}.

Definition new_codec (p : EcProfile) : result KeeError ReedSolomon :=
  ok_or (rs_new (ep_data_fragments p) (ep_parity_fragments p)) CodecError.

(** [PreparedEcPlan::new]: without the feature every profile is supported. *)
Definition prepared_plan_new (p : EcProfile) : result KeeError PreparedEcPlan :=
  _ ← validate_single_stripe p;
  prepared ←
    (if negb isa_l || plan_supports p then
       _ ← validate_single_stripe p;
       if isa_l then core ← shared_core; Ok (Backend core)
       else codec ← new_codec p; Ok (BackendSoftware codec)
     else codec ← new_codec p; Ok (Dynamic codec));
  Ok (mkPlan_ p prepared).

Definition plan_encode_into (plan : PreparedEcPlan) (object : list byte) (shards : list (list byte)) :
    result KeeError (list (list byte)) :=
  match pe_prepared plan with
  | Backend core => isal_encode_into core (pe_profile plan) object shards
  | BackendSoftware codec | Dynamic codec => encode_into_with_codec (pe_profile plan) object shards codec
  end.

(** [allocate_output_buffers], then [encode_into]. *)
Definition plan_encode (plan : PreparedEcPlan) (object : list byte) : result KeeError (list (list byte)) :=
  plan_encode_into plan object (zero_shards (total_fragments (pe_profile plan)) (ep_fragment_bytes (pe_profile plan))).

Definition plan_reconstruct (plan : PreparedEcPlan) (fragments : list (option (list byte))) :
    result KeeError (list (list byte)) :=
  match pe_prepared plan with
  | Backend core => isal_reconstruct core (pe_profile plan) fragments
  | BackendSoftware _ | Dynamic _ => software_reconstruct (pe_profile plan) fragments
  end.

(** [encode] and [reconstruct] of the crate. *)
Definition kee_encode (p : EcProfile) (object : list byte) : result KeeError (list (list byte)) :=
  match selected_backend isa_l, plan_supports p with
  | IsaLBackend, true =>
      _ ← validate_single_stripe p;
      core ← shared_core;
      isal_encode_into core p object (zero_shards TOTAL_FRAGMENTS (ep_fragment_bytes p))
  | _, _ => software_encode p object
  end.

Definition kee_reconstruct (p : EcProfile) (fragments : list (option (list byte))) : result KeeError (list (list byte)) :=
  match selected_backend isa_l, plan_supports p with
  | IsaLBackend, true =>
      _ ← validate_single_stripe p;
      core ← shared_core;
      isal_reconstruct core p fragments
  | _, _ => software_reconstruct p fragments
  end.

(** Whether the fragments are the encoding of the data they carry. *)
Definition kee_verify (p : EcProfile) (fragments : list (list byte)) : result KeeError bool :=
  _ ← validate_single_stripe p;
  if negb (len fragments =? total_fragments p) then Err (FragmentCountMismatch (total_fragments p) (len fragments))
  else
    _ ← check_sizes 0 (ep_fragment_bytes p) (Some <$> fragments);
    encoded ← kee_encode p (concat (take (Z.to_nat (ep_data_fragments p)) fragments));
    Ok (bool_decide (encoded = fragments)).
End kee.
