(* ===== verification/KeeLaws.v ===== *)
(** What the erasure-coding libraries promise, and the matrices behind the ISA-L backend:
    every eight rows that survive one or two erasures can be inverted. *)
From S2P Require Import Prelude Bytes Fdb KmsKeys KmsValues Gf256 Kee.

(** ** Matrices of field elements, stored by rows *)

Definition entry (l : list byte) (i : nat) : Z := byte_to_Z (default x00 (l !! i)).

Definition delta (i j : nat) : Z := if (i =? j)%nat then 1 else 0.

(** [out] times [m] is the identity. *)
Definition is_inverse (n : nat) (out m : list byte) : Prop :=
  length out = (n * n)%nat ∧
  ∀ i j, (i < n)%nat → (j < n)%nat →
    xsum n (fun s => gf256_mul (entry out (i * n + s)) (entry m (s * n + j))) = delta i j.

(** [rows] outputs of [l] bytes: a matrix of [rows] by [k] coefficients times [k] inputs. *)
Definition gf_rows (k rows l : nat) (a : list byte) (data : list (list byte)) : list (list byte) :=
  (fun r => (fun p => byte_of_Z (xsum k (fun j => gf256_mul (entry a (r * k + j)) (entry (default [] (data !! j)) p)))) <$> seq 0 l)
    <$> seq 0 rows.

(** The coding matrix: the identity above rows of powers of two. The documentation gives the
    exponent with [shift] 1, the implementation starts at 0. *)
Definition rs_entry (shift k i j : nat) : Z :=
  if (i <? k)%nat then delta i j else Nat.iter (j * (i - k + shift)) xtime 1.

Definition rs_matrix (shift m k : nat) : list byte :=
  (fun x => byte_of_Z (rs_entry shift k (x / k) (x mod k))) <$> seq 0 (m * k).

(** ** Laws *)

(** The code with [k] data and [m] parity shards. *)
Class ReedSolomonLaws `{ReedSolomonLib} (k m : Z) := {
  rs_new_ok : 0 < k → 0 < m → k + m ≤ 256 → is_Some (rs_new k m);
  rs_encode_ok : ∀ codec shards n,
    rs_new k m = Some codec → 0 < n → len shards = k + m → Forall (fun s => len s = n) shards →
    ∃ out, rs_encode codec shards = Some out ∧ len out = k + m ∧ Forall (fun s => len s = n) out ∧
      take (Z.to_nat k) out = take (Z.to_nat k) shards;
  rs_reconstruct_ok : ∀ codec shards out fragments n,
    rs_new k m = Some codec → 0 < n → len shards = k + m → Forall (fun s => len s = n) shards →
    rs_encode codec shards = Some out →
    Forall2 (fun f s => f = None ∨ f = Some s) fragments out → k ≤ count_present fragments →
    rs_reconstruct codec fragments = Some (Some <$> out);
}.

Class IsaLLaws `{IsaL} := {
  isal_tables_length : ∀ k rows a, 0 ≤ k → 0 ≤ rows → len a = k * rows → len (ec_init_tables k rows a) = 32 * k * rows;
  isal_encode : ∀ (k rows l : nat) a data,
    length a = (k * rows)%nat → length data = k → Forall (fun d => length d = l) data →
    ec_encode_data (Z.of_nat l) (Z.of_nat k) (Z.of_nat rows) (ec_init_tables (Z.of_nat k) (Z.of_nat rows) a) data =
      gf_rows k rows l a data;
  isal_mul : ∀ a b, byte_to_Z (gf_mul a b) = gf256_mul (byte_to_Z a) (byte_to_Z b);
  isal_matrix : ∃ shift, (shift ≤ 1)%nat ∧
    ∀ m k : nat, (0 < k)%nat → (k ≤ m)%nat → (m ≤ 255)%nat →
      gf_gen_rs_matrix (Z.of_nat m) (Z.of_nat k) = rs_matrix shift m k;
  isal_invert_Some : ∀ m (n : nat) out, length m = (n * n)%nat → gf_invert_matrix m (Z.of_nat n) = Some out → is_inverse n out m;
  isal_invert_None : ∀ m (n : nat), length m = (n * n)%nat → gf_invert_matrix m (Z.of_nat n) = None → ∀ out, ¬ is_inverse n out m;
}.

(** ** Decoding undoes coding *)

Lemma entry_u8 l i : is_u8 (entry l i).
Proof. apply byte_to_Z_range. Qed.

Section decode.
Context (E V : nat → nat → Z) (src : nat → nat) (y d : nat → Z).
Context (HE : ∀ i j, is_u8 (E i j)) (HV : ∀ i j, is_u8 (V i j)) (Hd : ∀ j, is_u8 (d j)).
Context (Hinv : ∀ i j, (i < 8)%nat → (j < 8)%nat → xsum 8 (fun s => gf256_mul (V i s) (E (src s) j)) = delta i j).
Context (Hy : ∀ s, (s < 8)%nat → y s = xsum 8 (fun j => gf256_mul (E (src s) j) (d j))).

Lemma decode_data i : (i < 8)%nat → xsum 8 (fun s => gf256_mul (V i s) (y s)) = d i.
Proof.
  intros Hi.
  rewrite (xsum_ext 8 _ (fun s => xsum 8 (fun j => gf256_mul (gf256_mul (V i s) (E (src s) j)) (d j)))).
  2:{ intros s Hs. rewrite Hy by done. rewrite gf256_mul_xsum_r. apply xsum_ext. intros j _. by apply gf256_mul_assoc. }
  rewrite xsum_swap. rewrite (xsum_ext 8 _ (fun j => gf256_mul (delta i j) (d j))).
  2:{ intros j Hj. by rewrite <-gf256_mul_xsum_l, Hinv. }
  rewrite (xsum_single 8 i) by (done || (intros j Hj Hne; unfold delta; rewrite (proj2 (Nat.eqb_neq _ _)) by done; apply gf256_mul_0_l)).
  unfold delta. rewrite Nat.eqb_refl. by apply gf256_mul_1_l.
Qed.

Lemma decode_parity r :
  xsum 8 (fun c => gf256_mul (xsum 8 (fun i => gf256_mul (V i c) (E r i))) (y c)) = xsum 8 (fun i => gf256_mul (E r i) (d i)).
Proof.
  assert (∀ s, (s < 8)%nat → is_u8 (y s)) as Hyu.
  { intros s Hs. rewrite Hy by done. apply xsum_u8. intros j _. by apply gf256_mul_u8. }
  rewrite (xsum_ext 8 _ (fun c => xsum 8 (fun i => gf256_mul (E r i) (gf256_mul (V i c) (y c))))).
  2:{ intros c Hc. rewrite gf256_mul_xsum_l. apply xsum_ext. intros i _.
      rewrite (gf256_mul_comm (V i c)) by done. symmetry. apply gf256_mul_assoc; auto. }
  rewrite xsum_swap. apply xsum_ext. intros i Hi. rewrite <-gf256_mul_xsum_r. f_equal. by apply decode_data.
Qed.
End decode.
