(* ===== verification/KeeMatrix.v ===== *)
(** The rows of the 8+2 coding matrix that survive any one or two erasures are invertible. An
    elimination computes the candidate inverses; only their products are relied upon. *)
From S2P Require Import Prelude Bytes Fdb KmsKeys KmsValues Gf256 Kee KeeLaws.

(** ** Elimination *)

Fixpoint gf_pow (a : Z) (e : positive) : Z :=
  match e with
  | xH => a
  | xO e' => gf_pow (gf256_mul a a) e'
  | xI e' => gf256_mul a (gf_pow (gf256_mul a a) e')
  end.

Definition gf_inv (a : Z) : Z := gf_pow a 254.

Definition scale (c : Z) (row : list Z) : list Z := if c =? 1 then row else gf256_mul c <$> row.
Definition add_row (c : Z) (row row' : list Z) : list Z :=
  if c =? 0 then row' else zip_with (fun x y => Z.lxor (gf256_mul c x) y) row row'.

(** The rows before the first with a nonzero entry in the column, that row, and the rest. *)
Fixpoint find_pivot (col : nat) (rows : list (list Z)) : option (list (list Z) * list Z * list (list Z)) :=
  match rows with
  | [] => None
  | row :: rows' =>
      if default 0 (row !! col) =? 0
      then '(before, pivot, after) ← find_pivot col rows'; Some (row :: before, pivot, after)
      else Some ([], row, rows')
  end.

Fixpoint eliminate (fuel col : nat) (solved rest : list (list Z)) : list (list Z) :=
  match fuel with
  | O => solved
  | S fuel' =>
      match find_pivot col rest with
      | None => solved
      | Some (before, pivot, after) =>
          let pivot := scale (gf_inv (default 0 (pivot !! col))) pivot in
          let clear row := add_row (default 0 (row !! col)) pivot row in
          eliminate fuel' (S col) ((clear <$> solved) ++ [pivot]) (clear <$> (before ++ after))
      end
  end.

Definition candidate_inverse (m : list byte) : list byte :=
  let rows := (fun i => ((fun j => entry m (i * 8 + j)) <$> seq 0 8) ++ (delta i <$> seq 0 8)) <$> seq 0 8 in
  byte_of_Z <$> concat (drop 8 <$> eliminate 8 0 [] rows).

(** ** Checking a product *)

Definition mul_skip (a b : Z) : Z := if a =? 0 then 0 else gf256_mul a b.

Lemma mul_skip_eq a b : mul_skip a b = gf256_mul a b.
Proof. unfold mul_skip. destruct (Z.eqb_spec a 0) as [->|]; [by rewrite gf256_mul_0_l|done]. Qed.

Definition check_inverse (out m : list byte) : bool :=
  (length out =? 64)%nat &&
  forallb (fun i => forallb (fun j =>
    xsum 8 (fun s => mul_skip (entry out (i * 8 + s)) (entry m (s * 8 + j))) =? delta i j) (seq 0 8)) (seq 0 8).

Lemma check_inverse_sound out m : check_inverse out m = true → is_inverse 8 out m.
Proof.
  unfold check_inverse. intros [Hl Hc]%andb_true_iff. split; [by apply Nat.eqb_eq|]. intros i j Hi Hj.
  rewrite forallb_forall in Hc. specialize (Hc i (proj2 (in_seq 8 0 i) ltac:(lia))). rewrite forallb_forall in Hc.
  specialize (Hc j (proj2 (in_seq 8 0 j) ltac:(lia))). apply Z.eqb_eq in Hc. rewrite <-Hc. apply xsum_ext. intros s _.
  symmetry. apply mul_skip_eq.
Qed.

(** ** The surviving rows *)

Definition sources (missing : list Z) : list Z := collect_sources missing [] (seqZ 0 TOTAL_FRAGMENTS).

Definition row_of (m : list byte) (i : Z) : list byte := take 8 (drop (Z.to_nat (i * 8)) m).

Definition survivors (m : list byte) (missing : list Z) : list byte := concat (row_of m <$> sources missing).

Definition survives (shift : nat) (missing : list Z) : bool :=
  check_inverse (candidate_inverse (survivors (rs_matrix shift 10 8) missing)) (survivors (rs_matrix shift 10 8) missing).

Lemma survives_sound shift missing :
  survives shift missing = true →
  is_inverse 8 (candidate_inverse (survivors (rs_matrix shift 10 8) missing)) (survivors (rs_matrix shift 10 8) missing).
Proof. unfold survives. intros H. exact (check_inverse_sound _ _ H). Qed.

Lemma forallb_elem {A} (P : A → bool) l x : forallb P l = true → x ∈ l → P x = true.
Proof. intros H Hx. rewrite forallb_forall in H. by apply H, list_elem_of_In. Qed.

Lemma survivors_ok_0 : forallb (survives 0) erasures = true.
Proof. vm_compute. reflexivity. Qed.
Lemma survivors_ok_1 : forallb (survives 1) erasures = true.
Proof. vm_compute. reflexivity. Qed.

Lemma survivors_invertible shift missing :
  (shift ≤ 1)%nat → missing ∈ erasures → ∃ out, is_inverse 8 out (survivors (rs_matrix shift 10 8) missing).
Proof.
  intros Hs Hm. assert (forallb (survives shift) erasures = true) as H.
  { destruct shift as [|[|?]]; [apply survivors_ok_0|apply survivors_ok_1|lia]. }
  exists (candidate_inverse (survivors (rs_matrix shift 10 8) missing)). apply survives_sound.
  exact (forallb_elem (survives shift) erasures missing H Hm).
Qed.

(** Every erasure leaves eight sources among the ten fragments, none of them missing. *)
Lemma erasures_sources missing :
  missing ∈ erasures →
  length (sources missing) = 8%nat ∧ Forall (fun i => 0 ≤ i < 10 ∧ i ∉ missing) (sources missing) ∧
  Forall (fun i => 0 ≤ i < 10) missing ∧ NoDup missing ∧ (1 ≤ length missing ≤ 2)%nat.
Proof.
  intros Hm. apply (bool_decide_unpack _). revert missing Hm. apply Forall_forall.
  apply (bool_decide_unpack _). vm_compute. exact I.
Qed.

Lemma erasure_keys_distinct : NoDup (erasure_key <$> erasures).
Proof. apply (bool_decide_unpack _). vm_compute. exact I. Qed.
