(* ===== verification/KeeProps.v ===== *)
(** Erasure coding end to end: an object of any permitted size comes back from any set of
    fragments that misses no more than the parity count, with either backend. *)
From S2P Require Import Prelude Bytes Fdb KmsKeys KmsValues Gf256 Kee KeeLaws KeeMatrix.

(** ** Splitting an object *)

(** Fragment [i] of the data: its bytes of the object, zeros after its end. *)
Definition data_fragment (fb : nat) (object : list byte) (i : nat) : list byte := resize fb (take fb (drop (i * fb) object)).
Definition split_object (fb n : nat) (object : list byte) : list (list byte) := data_fragment fb object <$> seq 0 n.

Lemma length_resize n l : length (resize n l) = n.
Proof. unfold resize. rewrite length_app, length_take, length_replicate. lia. Qed.

Lemma resize_pad n l : (length l ≤ n)%nat → resize n l = l ++ replicate (n - length l) x00.
Proof. intros Hl. unfold resize. by rewrite take_ge. Qed.

Lemma cleared_eq fb shard : 0 ≤ fb → cleared fb shard = replicate (Z.to_nat fb) x00.
Proof.
  intros Hf. unfold cleared. destruct (Z.eqb_spec (len shard) fb) as [E|E]; cbn [negb].
  - f_equal. lia.
  - by rewrite length_resize.
Qed.

Lemma split_object_nil fb n : replicate n (replicate fb x00) = split_object fb n [].
Proof.
  unfold split_object. generalize 0%nat. induction n as [|n IH]; intros k; [done|]. cbn. rewrite <-IH. f_equal.
  unfold data_fragment, resize. rewrite drop_nil, !take_nil. cbn. by rewrite Nat.sub_0_r.
Qed.

Lemma copy_chunks_split fb n object fuel :
  (0 < fb)%nat → (length object ≤ fuel)%nat → (length object ≤ n * fb)%nat →
  copy_chunks (chunks_fuel fuel fb object) (replicate n (replicate fb x00)) = Ok (split_object fb n object).
Proof.
  intros Hfb. revert n object. induction fuel as [|fuel IH]; intros n object Hfu Hn.
  { destruct object; [|cbn in Hfu; lia]. cbn [chunks_fuel copy_chunks]. by rewrite split_object_nil. }
  destruct object as [|b object]; [cbn [chunks_fuel copy_chunks]; by rewrite split_object_nil|]. change (chunks_fuel (S fuel) fb (b :: object)) with (take fb (b :: object) :: chunks_fuel fuel fb (drop fb (b :: object))).
  assert (0 < length (b :: object))%nat by (cbn; lia). generalize dependent (b :: object). intros l Hfu Hn Hl. destruct n as [|n]; [lia|]. cbn [replicate copy_chunks].
  rewrite length_take, length_replicate. rewrite (proj2 (Z.ltb_ge _ _)) by lia.
  rewrite IH by (rewrite length_drop; lia). cbn [mbind result_mbind result_bind]. f_equal. unfold split_object. cbn [seq fmap list_fmap].
  f_equal.
  - unfold data_fragment. cbn. rewrite resize_pad by (rewrite length_take; lia). f_equal. rewrite drop_replicate. f_equal. by rewrite length_take.
  - rewrite <-fmap_S_seq, <-list_fmap_compose. apply list_fmap_ext. intros i k _. unfold data_fragment. cbn. by rewrite drop_drop.
Qed.

Lemma split_object_length fb n object : length (split_object fb n object) = n.
Proof. unfold split_object. by rewrite length_fmap, length_seq. Qed.

Lemma split_object_sizes fb n object : Forall (fun s => length s = fb) (split_object fb n object).
Proof. apply Forall_fmap, Forall_forall. intros i _. apply length_resize. Qed.

Lemma split_object_take fb k n object : (k ≤ n)%nat → take k (split_object fb n object) = split_object fb k object.
Proof. intros Hk. unfold split_object. by rewrite <-fmap_take, take_seq, Nat.min_l by lia. Qed.

(** The fragments joined are the object, padded. *)
Lemma split_object_join fb n object :
  (length object ≤ n * fb)%nat → concat (split_object fb n object) = object ++ replicate (n * fb - length object) x00.
Proof.
  revert object. induction n as [|n IH]; intros object Hn.
  { destruct object; [done|cbn in Hn; lia]. }
  unfold split_object. cbn [seq fmap list_fmap concat]. rewrite <-fmap_S_seq, <-list_fmap_compose.
  rewrite (list_fmap_ext _ (data_fragment fb (drop fb object))) by (intros i k _; unfold data_fragment; cbn; by rewrite drop_drop).
  fold (split_object fb n (drop fb object)). rewrite IH by (rewrite length_drop; lia). unfold data_fragment. cbn. rewrite drop_0.
  destruct (decide (length object ≤ fb)%nat) as [Hle|Hgt].
  - rewrite (take_ge object), drop_ge by lia. rewrite resize_pad by lia. rewrite <-app_assoc. f_equal. cbn.
    rewrite <-replicate_add. f_equal. lia.
  - rewrite resize_pad by (rewrite length_take; lia). rewrite length_take, (Nat.min_l fb (length object)) by lia. rewrite Nat.sub_diag. cbn.
    rewrite app_nil_r, app_assoc, take_drop. f_equal. f_equal. rewrite length_drop. lia.
Qed.

Lemma split_object_object fb n object :
  (length object ≤ n * fb)%nat → take (length object) (concat (split_object fb n object)) = object.
Proof. intros Hn. rewrite split_object_join by done. by rewrite take_app_length. Qed.

(** ** Profiles *)

(** Counts and sizes come from 32-bit fields; a fragment's length is passed on as a C [int]. *)
Definition profile_ok (p : EcProfile) : Prop :=
  is_u32 (ep_data_fragments p) ∧ is_u32 (ep_parity_fragments p) ∧ fits 31 (ep_fragment_bytes p) ∧
  validate_single_stripe p = Ok tt.

Lemma profile_ok_facts p :
  profile_ok p →
  0 < ep_data_fragments p ∧ 0 < ep_parity_fragments p ∧ ep_data_fragments p + ep_parity_fragments p ≤ 256 ∧
  0 < ep_fragment_bytes p ∧ total_fragments p = ep_data_fragments p + ep_parity_fragments p ∧
  max_object_bytes p = ep_data_fragments p * ep_fragment_bytes p.
Proof.
  intros (Hd & Hm & Hf & Hv). unfold validate_single_stripe in Hv. apply result_bind_Ok in Hv as ([] & Hv & Hs).
  unfold validate in Hv. destruct (blank (ep_id p)); [done|]. destruct (blank (ep_codec_id p)); [done|].
  destruct (Z.eqb_spec (ep_data_fragments p) 0); [done|]. destruct (Z.eqb_spec (ep_parity_fragments p) 0); [done|].
  destruct (Z.eqb_spec (ep_fragment_bytes p) 0); [done|]. unfold fits in *.
  assert (total_fragments p = ep_data_fragments p + ep_parity_fragments p) as Ht by (apply wrap_small; unfold fits; lia).
  destruct (Z.ltb_spec 256 (total_fragments p)); [done|]. rewrite Ht in *. split_and!; try lia.
  apply wrap_small. unfold fits. nia.
Qed.

Lemma prepare_shards_ok p total object shards :
  profile_ok p → ep_data_fragments p ≤ total → len object ≤ max_object_bytes p → len shards = total →
  prepare_shards p total object shards = Ok (split_object (Z.to_nat (ep_fragment_bytes p)) (Z.to_nat total) object).
Proof.
  intros Hp Ht Ho Hs. destruct (profile_ok_facts p Hp) as (H1 & H2 & H3 & H4 & H5 & H6). destruct Hp as (_ & _ & _ & Hv).
  unfold prepare_shards. rewrite Hv. cbn [mbind result_mbind result_bind].
  rewrite (proj2 (Z.ltb_ge _ _)) by done. rewrite (proj2 (Z.eqb_eq _ _)) by done. cbn [negb].
  assert (cleared (ep_fragment_bytes p) <$> shards = replicate (Z.to_nat total) (replicate (Z.to_nat (ep_fragment_bytes p)) x00)) as ->.
  { rewrite (list_fmap_ext _ (fun _ => replicate (Z.to_nat (ep_fragment_bytes p)) x00)) by (intros; apply cleared_eq; lia).
    rewrite (const_fmap _ _ (replicate (Z.to_nat (ep_fragment_bytes p)) x00)) by done. f_equal. lia. }
  apply copy_chunks_split; [lia|done|]. rewrite H6 in Ho. nia.
Qed.

(** ** Fragments that were lost *)

(** Each position holds the shard or nothing. *)
Definition lost_some (fragments : list (option (list byte))) (shards : list (list byte)) : Prop :=
  Forall2 (fun f s => f = None ∨ f = Some s) fragments shards.

Lemma lost_some_sizes fragments shards i fb :
  lost_some fragments shards → Forall (fun s => len s = fb) shards → check_sizes i fb fragments = Ok tt.
Proof.
  intros H. revert i. induction H as [|f s fragments shards Hf _ IH]; intros i Hs; [done|].
  apply Forall_cons in Hs as [Hs Hss]. destruct Hf as [->| ->]; cbn [check_sizes]; [by apply IH|].
  rewrite (proj2 (Z.eqb_eq _ _)) by done. by apply IH.
Qed.

Lemma count_split fragments : count_missing fragments + count_present fragments = len fragments.
Proof.
  unfold count_missing, count_present. induction fragments as [|[x|] fragments IH]; [done|..]; rewrite !filter_cons.
  - rewrite decide_False, decide_True by done. cbn [length]. lia.
  - rewrite decide_True, decide_False by (done || tauto). cbn [length]. lia.
Qed.

Lemma check_fragments_ok data parity fb fragments shards :
  lost_some fragments shards → len shards = data + parity → Forall (fun s => len s = fb) shards →
  count_missing fragments ≤ parity → check_fragments data parity (data + parity) fb fragments = Ok tt.
Proof.
  intros H Hl Hs Hm. pose proof (Forall2_length _ _ _ H) as Hlen. pose proof (count_split fragments).
  unfold check_fragments. rewrite (proj2 (Z.eqb_eq _ _)) by lia. cbn [negb].
  rewrite (proj2 (Z.ltb_ge _ _)) by lia. rewrite (proj2 (Z.ltb_ge _ _)) by lia. by eapply lost_some_sizes.
Qed.

Lemma all_present_Some shards : all_present (Some <$> shards) = Ok shards.
Proof. unfold all_present. induction shards as [|s shards IH]; [done|]. cbn. by rewrite IH. Qed.
