(* ===== verification/KeeIsaL.v ===== *)
(** The ISA-L backend for eight data and two parity fragments: its decode plans exist for
    every erasure, and they restore what was coded. *)
From S2P Require Import Prelude Bytes Fdb KmsKeys KmsValues Gf256 Kee KeeLaws KeeMatrix KeeProps.

(** ** Loops that do not fail *)

Lemma try_map_pure {E A B} (f : A → result E B) (g : A → B) l :
  (∀ x, x ∈ l → f x = Ok (g x)) → try_map f l = Ok (g <$> l).
Proof.
  induction l as [|x l IH]; intros H; [done|]. cbn. rewrite H by (by left). cbn. rewrite IH; [done|].
  intros y Hy. apply H. by right.
Qed.

Lemma try_fold_pure {E S A} (f : S → A → result E S) (g : S → A → S) s l :
  (∀ t x, x ∈ l → f t x = Ok (g t x)) → try_fold f s l = Ok (foldl g s l).
Proof.
  revert s. induction l as [|x l IH]; intros s H; [done|]. cbn. rewrite H by (by left). cbn. apply IH.
  intros t y Hy. apply H. by right.
Qed.

Lemma foldl_xsum (f : nat → Z) a k n :
  foldl (fun v i => Z.lxor v (f i)) a (seq k n) = Z.lxor a (xsum n (fun i => f (k + i)%nat)).
Proof.
  revert a k. induction n as [|n IH]; intros a k; [cbn; by rewrite Z.lxor_0_r|]. cbn [seq foldl]. rewrite IH, Z.lxor_assoc. cbn [xsum].
  rewrite Nat.add_0_r. do 2 f_equal. apply xsum_ext. intros i _. f_equal. lia.
Qed.

Lemma seqZ_8 : seqZ 0 DATA_FRAGMENTS = Z.of_nat <$> seq 0 8.
Proof. done. Qed.

(** ** Entries of matrices *)

Lemma byte_at_entry l i : (i < length l)%nat → byte_at l (Z.of_nat i) = Ok (default x00 (l !! i)).
Proof.
  intros Hi. unfold byte_at. rewrite (proj2 (Z.leb_le _ _)) by lia. rewrite Nat2Z.id.
  destruct (lookup_lt_is_Some_2 l i Hi) as [x ->]. done.
Qed.

Lemma entry_lookup l i b : l !! i = Some b → entry l i = byte_to_Z b.
Proof. unfold entry. by intros ->. Qed.

Lemma list_eq_entries l k :
  length l = length k → (∀ i, (i < length l)%nat → entry l i = entry k i) → l = k.
Proof.
  intros Hl He. apply list_eq_same_length with (n := length l); [done|done|]. intros i x y Hi Hx Hy.
  specialize (He i Hi). rewrite (entry_lookup l i x Hx), (entry_lookup k i y Hy) in He. by apply byte_to_Z_inj.
Qed.

Lemma length_row_of m (i : nat) : ((i + 1) * 8 ≤ length m)%nat → length (row_of m (Z.of_nat i)) = 8%nat.
Proof. intros Hi. unfold row_of. rewrite length_take, length_drop. lia. Qed.

Lemma entry_row_of m (i j : nat) : (j < 8)%nat → entry (row_of m (Z.of_nat i)) j = entry m (i * 8 + j).
Proof.
  intros Hj. unfold entry, row_of. rewrite lookup_take_lt, lookup_drop by lia. do 3 f_equal. lia.
Qed.

Lemma matrix_row_of m (i : nat) : ((i + 1) * 8 ≤ length m)%nat → matrix_row m (Z.of_nat i) = Ok (row_of m (Z.of_nat i)).
Proof.
  intros Hi. unfold matrix_row, slice, DATA_FRAGMENTS. rewrite (proj2 (Z.leb_le 0 _)) by lia.
  rewrite (proj2 (Z.leb_le (_ + 8) _)) by lia. done.
Qed.

Lemma entry_map (f : nat → Z) n i : (i < n)%nat → is_u8 (f i) → entry ((fun c => byte_of_Z (f c)) <$> seq 0 n) i = f i.
Proof.
  intros Hi Hf. rewrite (entry_lookup _ _ (byte_of_Z (f i))).
  - rewrite byte_to_of_Z. apply Z.mod_small. exact Hf.
  - rewrite list_lookup_fmap, lookup_seq_lt by done. done.
Qed.

Lemma entry_concat (rows : list (list byte)) r j :
  Forall (fun row => length row = 8%nat) rows → (j < 8)%nat →
  entry (concat rows) (r * 8 + j) = entry (default [] (rows !! r)) j.
Proof.
  intros H Hj. revert r. induction H as [|row rows Hr _ IH]; intros r; [done|]. destruct r as [|r]; cbn [concat].
  - cbn. unfold entry. rewrite lookup_app_l by lia. done.
  - unfold entry. rewrite lookup_app_r by lia. rewrite Hr. replace (S r * 8 + j - 8)%nat with (r * 8 + j)%nat by lia. apply IH.
Qed.

Lemma length_concat_rows (rows : list (list byte)) :
  Forall (fun row => length row = 8%nat) rows → length (concat rows) = (length rows * 8)%nat.
Proof. induction 1 as [|row rows Hr _ IH]; [done|]. cbn. rewrite length_app. lia. Qed.

(** ** Decode plans *)

(** The row that restores fragment [mi] from the sources, for the inverse [V] of their rows. *)
Definition dec_row (E V : list byte) (mi : Z) : list byte :=
  if mi <? 8 then row_of V mi
  else (fun c => byte_of_Z (xsum 8 (fun i => gf256_mul (entry V (i * 8 + c)) (entry E (Z.to_nat mi * 8 + i))))) <$> seq 0 8.

Lemma length_dec_row E V mi : length V = 64%nat → 0 ≤ mi → length (dec_row E V mi) = 8%nat.
Proof.
  intros HV Hmi. unfold dec_row. destruct (Z.ltb_spec mi 8) as [Hlt|Hge]; [|by rewrite length_fmap, length_seq].
  rewrite <-(Z2Nat.id mi) by lia. apply length_row_of. lia.
Qed.

Section plans.
Context `{IsaLLaws}.

Lemma decode_column E V (mi : nat) (c : Z) :
  length V = 64%nat → length E = 80%nat → (mi < 10)%nat → c ∈ seqZ 0 DATA_FRAGMENTS →
  try_fold (fun value inner =>
    a ← byte_at V (inner * DATA_FRAGMENTS + c);
    b ← byte_at E (Z.of_nat mi * DATA_FRAGMENTS + inner);
    Ok (Z.lxor value (byte_to_Z (gf_mul a b)))) 0 (seqZ 0 DATA_FRAGMENTS) =
  Ok (xsum 8 (fun i => gf256_mul (entry V (i * 8 + Z.to_nat c)) (entry E (mi * 8 + i)))).
Proof.
  intros HV HE Hmi Hc%elem_of_seqZ. unfold DATA_FRAGMENTS in *.
  rewrite (try_fold_pure _ (fun v i => Z.lxor v (gf256_mul (entry V (Z.to_nat i * 8 + Z.to_nat c)) (entry E (mi * 8 + Z.to_nat i))))).
  - change (seqZ 0 8) with (Z.of_nat <$> seq 0 8). f_equal.
    assert (∀ (g : Z → nat → Z) a l, foldl (fun v i => g v (Z.to_nat i)) a (Z.of_nat <$> l) = foldl g a l) as Hfold.
    { intros g a l. revert a. induction l as [|x l IH]; intros a; [done|]. cbn. by rewrite Nat2Z.id, IH. }
    rewrite (Hfold (fun v i => Z.lxor v (gf256_mul (entry V (i * 8 + Z.to_nat c)) (entry E (mi * 8 + i))))).
    rewrite foldl_xsum, Z.lxor_0_l. done.
  - intros v i Hi%elem_of_seqZ.
    replace (i * 8 + c) with (Z.of_nat (Z.to_nat i * 8 + Z.to_nat c)) by lia.
    replace (Z.of_nat mi * 8 + i) with (Z.of_nat (mi * 8 + Z.to_nat i)) by lia.
    rewrite !byte_at_entry by lia. cbn [mbind result_mbind result_bind]. by rewrite isal_mul.
Qed.

Lemma decode_row_eq E V mi :
  length V = 64%nat → length E = 80%nat → 0 ≤ mi < 10 → decode_row E V mi = Ok (dec_row E V mi).
Proof.
  intros HV HE Hmi. destruct (Z_of_nat_complete mi) as [n ->]; [lia|]. unfold decode_row, dec_row.
  change (Z.of_nat n <? DATA_FRAGMENTS) with (Z.of_nat n <? 8). rewrite Nat2Z.id.
  destruct (Z.ltb_spec (Z.of_nat n) 8) as [Hlt|Hge]; [apply matrix_row_of; lia|].
  rewrite (try_map_pure _ (fun c => byte_of_Z (xsum 8 (fun i =>
    gf256_mul (entry V (i * 8 + Z.to_nat c)) (entry E (n * 8 + i)))))); [done|].
  intros c Hc. by rewrite decode_column by (done || lia).
Qed.

Lemma length_rs_matrix shift m k : length (rs_matrix shift m k) = (m * k)%nat.
Proof. unfold rs_matrix. by rewrite length_fmap, length_seq. Qed.

Definition plan_of (E V : list byte) (missing : list Z) : PreparedDecodePlan :=
  mkDecodePlan (len missing) missing (sources missing)
    (ec_init_tables 8 (len missing) (concat (dec_row E V <$> missing))).

Lemma dec_rows_sizes E V missing :
  length V = 64%nat → Forall (fun i => 0 ≤ i < 10) missing →
  Forall (fun row => length row = 8%nat) (dec_row E V <$> missing).
Proof. intros HV Hm. apply Forall_fmap. eapply Forall_impl; [exact Hm|]. intros i [Hi _]. by apply length_dec_row. Qed.

Lemma build_decode_plan_ok shift missing :
  (shift ≤ 1)%nat → missing ∈ erasures →
  ∃ V, is_inverse 8 V (survivors (rs_matrix shift 10 8) missing) ∧
    build_decode_plan (rs_matrix shift 10 8) missing = Ok (plan_of (rs_matrix shift 10 8) V missing).
Proof.
  intros Hshift Hm. destruct (erasures_sources missing Hm) as (Hl & Hsrc & Hmi & Hnd & Hln).
  pose proof (survivors_invertible shift missing Hshift Hm) as [W HW]. pose proof (length_rs_matrix shift 10 8) as HE.
  generalize dependent (rs_matrix shift 10 8). intros E HW HE. unfold build_decode_plan. fold (sources missing). cbv zeta.
  rewrite Hl. cbn [negb Z.eqb Z.of_nat Pos.eqb DATA_FRAGMENTS].
  rewrite (try_map_pure _ (row_of E)).
  2:{ intros i Hi. rewrite Forall_forall in Hsrc. destruct (Hsrc i Hi) as [Hr _]. rewrite <-(Z2Nat.id i) by lia.
      apply matrix_row_of. lia. }
  cbn [mbind result_mbind result_bind]. fold (survivors E missing). unfold invert_matrix_owned.
  assert (length (survivors E missing) = 64%nat) as Hsl.
  { unfold survivors. rewrite length_concat_rows; [rewrite length_fmap; lia|]. apply Forall_fmap.
    eapply Forall_impl; [exact Hsrc|]. intros i [Hi _]. cbn. rewrite <-(Z2Nat.id i) by lia. apply length_row_of. lia. }
  change (c_int DATA_FRAGMENTS) with (Z.of_nat 8). destruct (gf_invert_matrix (survivors E missing) (Z.of_nat 8)) as [V|] eqn:EV.
  2:{ exfalso. by apply (isal_invert_None _ 8 Hsl EV W). }
  apply (isal_invert_Some _ 8) in EV as HV; [|done]. exists V. split; [done|]. cbn [ok_or mbind result_mbind result_bind].
  assert (length V = 64%nat) as HVl by apply HV.
  rewrite (try_map_pure _ (dec_row E V)) by (intros i Hi; rewrite Forall_forall in Hmi; apply decode_row_eq; [done|done|by apply Hmi]).
  cbn [mbind result_mbind result_bind]. unfold init_tables.
  rewrite length_concat_rows, length_fmap by by apply dec_rows_sizes.
  rewrite (proj2 (Z.eqb_eq _ _)) by (unfold DATA_FRAGMENTS; lia). cbn [negb mbind result_mbind result_bind]. unfold plan_of. do 2 f_equal.
  destruct missing as [|a [|b [|? ?]]]; cbn in Hln; [lia|done|done|lia].
Qed.

Lemma plans_fold (P : list Z → PreparedDecodePlan → Prop) E (l : list (list Z)) (plans : gmap Z PreparedDecodePlan) :
  NoDup (erasure_key <$> l) →
  (∀ missing, missing ∈ l → ∃ plan, build_decode_plan E missing = Ok plan ∧ P missing plan) →
  ∃ plans', try_fold (fun plans missing =>
      plan ← build_decode_plan E missing; Ok (<[erasure_key missing := plan]> plans)) plans l = Ok plans' ∧
    (∀ missing, missing ∈ l → ∃ plan, plans' !! erasure_key missing = Some plan ∧ P missing plan) ∧
    ∀ k, k ∉ erasure_key <$> l → plans' !! k = plans !! k.
Proof.
  revert plans. induction l as [|x l IH]; intros plans Hnd Hb.
  { exists plans. split; [done|]. split; [by intros ? ?%not_elem_of_nil|done]. }
  cbn in Hnd. apply NoDup_cons in Hnd as [Hx Hnd]. destruct (Hb x) as (plan & Ep & HP); [by left|]. cbn [try_fold].
  rewrite Ep. cbn [mbind result_mbind result_bind].
  destruct (IH (<[erasure_key x := plan]> plans)) as (plans' & Ef & H1 & H2); [done|intros; apply Hb; by right|].
  exists plans'. split; [exact Ef|]. split.
  - intros y [->|Hy]%elem_of_cons; [|by apply H1]. exists plan. split; [|done]. rewrite H2 by done. apply lookup_insert_eq.
  - intros k. cbn. rewrite not_elem_of_cons. intros [Hk Hkl]. rewrite H2 by done. by apply lookup_insert_ne.
Qed.

Definition core_ok (shift : nat) (core : PreparedBackendCore) : Prop :=
  pc_encode_tables core = ec_init_tables 8 2 (drop 64 (rs_matrix shift 10 8)) ∧
  ∀ missing, missing ∈ erasures → ∃ V, is_inverse 8 V (survivors (rs_matrix shift 10 8) missing) ∧
    pc_decode_plans core !! erasure_key missing = Some (plan_of (rs_matrix shift 10 8) V missing).

Lemma shared_core_ok : ∃ shift core, shared_core = Ok core ∧ core_ok shift core.
Proof.
  destruct isal_matrix as (shift & Hs & Hm). exists shift. unfold core_ok, shared_core, build_core, generate_rs_matrix. cbv zeta.
  change (c_int TOTAL_FRAGMENTS) with (Z.of_nat 10). change (c_int DATA_FRAGMENTS) with (Z.of_nat 8).
  rewrite Hm by lia. pose proof (length_rs_matrix shift 10 8) as HE.
  pose proof (build_decode_plan_ok shift) as Hp. generalize dependent (rs_matrix shift 10 8). intros E HE Hp.
  unfold init_tables. rewrite length_drop.
  rewrite (proj2 (Z.eqb_eq _ _)) by (unfold DATA_FRAGMENTS, PARITY_FRAGMENTS; lia). cbn [negb mbind result_mbind result_bind].
  destruct (plans_fold (fun missing plan => ∃ V, is_inverse 8 V (survivors E missing) ∧ plan = plan_of E V missing)
              E erasures ∅ erasure_keys_distinct) as (plans & Ef & H1 & _).
  { intros missing Hmi. destruct (Hp missing Hs Hmi) as (V & HV & Eb). eexists. split; [exact Eb|]. by exists V. }
  unfold build_decode_plans. rewrite Ef. cbn [mbind result_mbind result_bind map_err]. eexists. split; [done|].
  split; [done|]. intros missing Hmi. destruct (H1 missing Hmi) as (plan & El & V & HV & ->). by exists V.
Qed.

(** ** Coding *)

(** Fragment [i] of a stripe, at a position, by the coding matrix. *)
Definition coded (E : list byte) (data out : list (list byte)) (fb : nat) : Prop :=
  length out = 10%nat ∧ Forall (fun s => length s = fb) out ∧
  ∀ i p s, (i < 10)%nat → (p < fb)%nat → out !! i = Some s →
    entry s p = xsum 8 (fun j => gf256_mul (entry E (i * 8 + j)) (entry (default [] (data !! j)) p)).

Lemma length_gf_rows k rows l a data : length (gf_rows k rows l a data) = rows.
Proof. unfold gf_rows. by rewrite length_fmap, length_seq. Qed.

Lemma gf_rows_sizes k rows l a data : Forall (fun s => length s = l) (gf_rows k rows l a data).
Proof. unfold gf_rows. apply Forall_fmap, Forall_forall. intros r _. cbn. by rewrite length_fmap, length_seq. Qed.

Lemma gf_rows_entry k rows l a data r p s :
  gf_rows k rows l a data !! r = Some s → (p < l)%nat →
  entry s p = xsum k (fun j => gf256_mul (entry a (r * k + j)) (entry (default [] (data !! j)) p)).
Proof.
  intros Hr Hp. unfold gf_rows in Hr. apply list_lookup_fmap_Some in Hr as (r' & -> & [-> _]%lookup_seq).
  rewrite (entry_map (fun p => xsum k (fun j => gf256_mul (entry a (r * k + j)) (entry (default [] (data !! j)) p)))); [done..|].
  apply xsum_u8. intros j _. apply gf256_mul_u8, entry_u8.
Qed.

Lemma rs_matrix_top shift i j : (i < 8)%nat → (j < 8)%nat → entry (rs_matrix shift 10 8) (i * 8 + j) = delta i j.
Proof.
  intros Hi Hj. unfold rs_matrix. rewrite (entry_map (fun x => rs_entry shift 8 (x / 8) (x mod 8))).
  - unfold rs_entry. replace ((i * 8 + j) / 8)%nat with i by (apply Nat.div_unique with j; lia).
    replace ((i * 8 + j) mod 8)%nat with j by (apply Nat.mod_unique with i; lia).
    by rewrite (proj2 (Nat.ltb_lt _ _)).
  - lia.
  - unfold rs_entry. replace ((i * 8 + j) / 8)%nat with i by (apply Nat.div_unique with j; lia).
    rewrite (proj2 (Nat.ltb_lt _ _)) by done. unfold delta. by destruct (_ =? _)%nat.
Qed.

Lemma coded_data shift data fb :
  length data = 8%nat → Forall (fun s => length s = fb) data →
  coded (rs_matrix shift 10 8) data (data ++ gf_rows 8 2 fb (drop 64 (rs_matrix shift 10 8)) data) fb.
Proof.
  intros Hl Hs. split; [rewrite length_app, length_gf_rows; lia|].
  split; [apply Forall_app; split; [done|apply gf_rows_sizes]|]. intros i p s Hi Hp Hlk.
  pose proof (rs_matrix_top shift) as Htop. generalize dependent (rs_matrix shift 10 8). intros E Hlk Htop.
  destruct (Nat.lt_ge_cases i 8) as [Hlt|Hge].
  - rewrite lookup_app_l in Hlk by lia. symmetry. rewrite (xsum_single 8 i); [|done|].
    + rewrite Htop by done. unfold delta. rewrite Nat.eqb_refl, Hlk. apply gf256_mul_1_l, entry_u8.
    + intros j Hj Hne. rewrite Htop by done. unfold delta. rewrite (proj2 (Nat.eqb_neq _ _)) by done. apply gf256_mul_0_l.
  - rewrite lookup_app_r in Hlk by lia. rewrite Hl in Hlk. rewrite (gf_rows_entry _ _ _ _ _ _ _ _ Hlk Hp).
    apply xsum_ext. intros j _. f_equal. unfold entry. rewrite lookup_drop. do 3 f_equal. lia.
Qed.
End plans.
