(* ===== verification/KeeRestore.v ===== *)
(** Restoring a stripe with the ISA-L backend, and the promise of erasure coding as a whole,
    whichever backend is built in. *)
From S2P Require Import Prelude Bytes Fdb KmsKeys KmsValues Gf256 Kee KeeLaws KeeMatrix KeeProps KeeIsaL.

(** ** The missing fragments *)

Lemma collect_missing_elem fragments i :
  i ∈ collect_missing_indexes fragments ↔ ∃ n, i = Z.of_nat n ∧ fragments !! n = Some None.
Proof.
  unfold collect_missing_indexes. rewrite list_elem_of_omap. split.
  - intros ([n f] & Hin & Hf). apply elem_of_lookup_imap in Hin as (m & y & [= -> ->] & Hl). destruct y; [done|].
    injection Hf as <-. by exists m.
  - intros (n & -> & Hn). exists (n, None). split; [|done]. apply elem_of_lookup_imap. by exists n, None.
Qed.

(** Which fragments are missing, as booleans. *)
Definition gaps (fragments : list (option (list byte))) : list bool := (fun f => bool_decide (f = None)) <$> fragments.

Fixpoint bool_lists (n : nat) : list (list bool) :=
  match n with
  | O => [[]]
  | S n' => (cons true <$> bool_lists n') ++ (cons false <$> bool_lists n')
  end.

Lemma bool_lists_elem l : l ∈ bool_lists (length l).
Proof.
  induction l as [|b l IH]; [apply list_elem_of_here|]. cbn. apply elem_of_app.
  destruct b; [left|right]; by apply list_elem_of_fmap_2.
Qed.

Definition gap_indexes (g : list bool) : list Z :=
  omap (fun '(i, b) => if (b : bool) then Some (Z.of_nat i) else None) (imap pair g).

Lemma collect_missing_gaps fragments : collect_missing_indexes fragments = gap_indexes (gaps fragments).
Proof.
  assert (∀ h : nat → nat,
    omap (fun '(i, f) => match f with None => Some (Z.of_nat i) | Some _ => None end) (imap (fun i f => (h i, f)) fragments) =
    omap (fun '(i, b) => if (b : bool) then Some (Z.of_nat i) else None) (imap (fun i b => (h i, b)) (gaps fragments))) as H;
    [|exact (H id)].
  induction fragments as [|f fragments IH]; intros h; [done|]. specialize (IH (h ∘ S)). cbn [gaps fmap list_fmap imap omap list_omap].
  destruct f; cbn; [exact IH|]. f_equal. exact IH.
Qed.

Definition gaps_ok (g : list bool) : bool :=
  let n := length (gap_indexes g) in
  if (n =? 0)%nat || (2 <? n)%nat then true else bool_decide (gap_indexes g ∈ erasures).

Lemma gaps_all_ok : forallb gaps_ok (bool_lists 10) = true.
Proof. vm_compute. reflexivity. Qed.

Lemma length_collect_missing fragments : len (collect_missing_indexes fragments) = count_missing fragments.
Proof.
  unfold collect_missing_indexes, count_missing.
  assert (∀ h : nat → nat,
    length (omap (fun '(i, f) => match f with None => Some (Z.of_nat i) | Some _ => None end) (imap (fun i f => (h i, f)) fragments)) =
    length (filter (fun f => f = None) fragments)) as H; [|f_equal; exact (H id)].
  induction fragments as [|f fragments IH]; intros h; [done|]. specialize (IH (h ∘ S)). rewrite filter_cons. cbn [imap omap list_omap].
  destruct f; [rewrite decide_False by done; exact IH|]. rewrite decide_True by done. cbn. f_equal. exact IH.
Qed.

Lemma collect_missing_erasure fragments :
  length fragments = 10%nat → 1 ≤ count_missing fragments ≤ 2 → collect_missing_indexes fragments ∈ erasures.
Proof.
  intros Hl Hc. rewrite <-length_collect_missing, collect_missing_gaps in Hc. rewrite collect_missing_gaps.
  assert (gaps fragments ∈ bool_lists 10) as Hg.
  { replace 10%nat with (length (gaps fragments)) by (unfold gaps; by rewrite length_fmap). apply bool_lists_elem. }
  pose proof (forallb_elem gaps_ok _ _ gaps_all_ok Hg) as H. unfold gaps_ok in H. cbv zeta in H.
  destruct (Nat.eqb_spec (length (gap_indexes (gaps fragments))) 0); [lia|].
  destruct (Nat.ltb_spec 2 (length (gap_indexes (gaps fragments)))); [lia|]. cbn [orb] in H. by apply bool_decide_eq_true in H.
Qed.

(** ** Filling the gaps *)

Lemma lost_some_full fragments out :
  lost_some fragments out → (∀ n, fragments !! n ≠ Some None) → fragments = Some <$> out.
Proof.
  induction 1 as [|f s fragments out Hf _ IH]; intros Hn; [done|]. cbn. f_equal.
  - destruct Hf as [->|Hf]; [|done]. by destruct (Hn 0%nat).
  - apply IH. intros n. apply (Hn (S n)).
Qed.

Lemma lost_some_lookup fragments out n s :
  lost_some fragments out → out !! n = Some s → fragments !! n = Some None ∨ fragments !! n = Some (Some s).
Proof.
  intros H Hs. destruct (Forall2_lookup_r _ _ _ _ _ H Hs) as (f & Hf & [->| ->]); auto.
Qed.

Lemma put_recovered_fold (l : list (list byte * Z)) fragments out :
  lost_some fragments out → (∀ x i, (x, i) ∈ l → out !! Z.to_nat i = Some x) →
  let fragments' := foldl (fun fragments '(fragment, index) => <[Z.to_nat index := Some fragment]> fragments) fragments l in
  lost_some fragments' out ∧
  ∀ n, fragments' !! n = Some None → fragments !! n = Some None ∧ Forall (fun xi => Z.to_nat xi.2 ≠ n) l.
Proof.
  revert fragments. induction l as [|[x i] l IH]; intros fragments Hlost Hl; [done|]. cbn [foldl].
  pose proof (Hl x i (list_elem_of_here _ _)) as Hx.
  destruct (IH (<[Z.to_nat i := Some x]> fragments)) as [H1 H2].
  - replace out with (<[Z.to_nat i := x]> out) by by apply list_insert_id. apply Forall2_insert; [done|by right].
  - intros y j Hy. apply Hl. by right.
  - split; [exact H1|]. intros n Hn. destruct (H2 n Hn) as [H3 H4]. destruct (decide (Z.to_nat i = n)) as [<-|Hne].
    + rewrite list_lookup_insert_eq in H3; [done|]. rewrite (Forall2_length _ _ _ Hlost). by eapply lookup_lt_Some.
    + rewrite list_lookup_insert_ne in H3 by done. split; [done|]. constructor; [done|exact H4].
Qed.

(** ** Restoring fragments *)

Definition at_index (out : list (list byte)) (i : Z) : list byte := default [] (out !! Z.to_nat i).

Section restore.
Context (E V : list byte) (missing : list Z) (data out : list (list byte)) (fb : nat).
Context (HE : length E = 80%nat) (Hm : missing ∈ erasures).
Context (Htop : ∀ i j, (i < 8)%nat → (j < 8)%nat → entry E (i * 8 + j) = delta i j).
Context (HV : is_inverse 8 V (survivors E missing)) (Hc : coded E data out fb).

Definition src (s : nat) : nat := Z.to_nat (default 0 (sources missing !! s)).

Lemma src_range s : (s < 8)%nat → (src s < 10)%nat ∧ sources missing !! s = Some (Z.of_nat (src s)).
Proof.
  intros Hs. destruct (erasures_sources missing Hm) as (Hl & Hsrc & _). unfold src.
  destruct (lookup_lt_is_Some_2 (sources missing) s) as [i Hi]; [lia|]. rewrite Hi. cbn.
  destruct (Forall_lookup_1 _ _ _ _ Hsrc Hi) as [Hr _]. split; [lia|]. f_equal. lia.
Qed.

Lemma survivors_entry s j : (s < 8)%nat → (j < 8)%nat → entry (survivors E missing) (s * 8 + j) = entry E (src s * 8 + j).
Proof.
  intros Hs Hj. destruct (erasures_sources missing Hm) as (Hl & Hsrc & _). destruct (src_range s Hs) as [Hr Hk].
  unfold survivors. rewrite entry_concat; [|apply Forall_fmap; eapply Forall_impl; [exact Hsrc|]|done].
  - rewrite list_lookup_fmap, Hk. cbn [fmap option_fmap option_map default]. by apply entry_row_of.
  - intros i [Hi _]. cbn. destruct (Z_of_nat_complete i) as [n ->]; [lia|]. apply length_row_of. lia.
Qed.

Lemma inverse_rows i j :
  (i < 8)%nat → (j < 8)%nat → xsum 8 (fun s => gf256_mul (entry V (i * 8 + s)) (entry E (src s * 8 + j))) = delta i j.
Proof.
  intros Hi Hj. rewrite <-(proj2 HV i j Hi Hj). apply xsum_ext. intros s Hs. by rewrite survivors_entry.
Qed.

Lemma out_entry i p : (i < 10)%nat → (p < fb)%nat →
  entry (at_index out (Z.of_nat i)) p = xsum 8 (fun j => gf256_mul (entry E (i * 8 + j)) (entry (default [] (data !! j)) p)).
Proof.
  intros Hi Hp. destruct Hc as (Hl & _ & H). destruct (lookup_lt_is_Some_2 out i) as [s Hs]; [lia|].
  unfold at_index. rewrite Nat2Z.id, Hs. exact (H i p s Hi Hp Hs).
Qed.

Lemma out_length i : 0 ≤ i < 10 → length (at_index out i) = fb.
Proof.
  intros Hi. destruct Hc as (Hl & Hs & _). destruct (lookup_lt_is_Some_2 out (Z.to_nat i)) as [s Hlk]; [lia|].
  unfold at_index. rewrite Hlk. by apply (Forall_lookup_1 _ _ _ _ Hs Hlk).
Qed.

Lemma source_entry s p : (s < 8)%nat → (p < fb)%nat →
  entry (default [] ((at_index out <$> sources missing) !! s)) p =
    xsum 8 (fun j => gf256_mul (entry E (src s * 8 + j)) (entry (default [] (data !! j)) p)).
Proof.
  intros Hs Hp. destruct (src_range s Hs) as [Hr Hk]. rewrite list_lookup_fmap, Hk. cbn [fmap option_fmap option_map default].
  by apply out_entry.
Qed.

Lemma restored_entry (mi p : nat) : (mi < 10)%nat → (p < fb)%nat →
  xsum 8 (fun j => gf256_mul (entry (dec_row E V (Z.of_nat mi)) j)
                     (entry (default [] ((at_index out <$> sources missing) !! j)) p)) =
  entry (at_index out (Z.of_nat mi)) p.
Proof.
  intros Hmi Hp. set (y := fun j => entry (default [] ((at_index out <$> sources missing) !! j)) p).
  set (d := fun j => entry (default [] (data !! j)) p). rewrite out_entry by done.
  assert (∀ s, (s < 8)%nat → y s = xsum 8 (fun j => gf256_mul (entry E (src s * 8 + j)) (d j))) as Hy
    by (intros s Hs; by apply source_entry).
  unfold dec_row. destruct (Z.ltb_spec (Z.of_nat mi) 8) as [Hlt|Hge].
  - rewrite (xsum_ext 8 _ (fun j => gf256_mul (entry V (mi * 8 + j)) (y j))) by (intros j Hj; by rewrite entry_row_of).
    rewrite (decode_data (fun i j => entry E (i * 8 + j)) (fun i j => entry V (i * 8 + j)) src y d);
      try (done || lia || (intros; apply entry_u8) || apply inverse_rows).
    symmetry. rewrite (xsum_single 8 mi); [|lia|].
    + rewrite Htop by lia. unfold delta. rewrite Nat.eqb_refl. apply gf256_mul_1_l, entry_u8.
    + intros j Hj Hne. rewrite Htop by lia. unfold delta. rewrite (proj2 (Nat.eqb_neq _ _)) by done. apply gf256_mul_0_l.
  - rewrite Nat2Z.id.
    rewrite (xsum_ext 8 _ (fun c => gf256_mul (xsum 8 (fun i => gf256_mul (entry V (i * 8 + c)) (entry E (mi * 8 + i)))) (y c))).
    2:{ intros c Hcc. f_equal.
        apply (entry_map (fun c => xsum 8 (fun i => gf256_mul (entry V (i * 8 + c)) (entry E (mi * 8 + i))))); [done|].
        apply xsum_u8. intros i _. apply gf256_mul_u8, entry_u8. }
    apply (decode_parity (fun i j => entry E (i * 8 + j)) (fun i j => entry V (i * 8 + j)) src y d);
      try (done || (intros; apply entry_u8) || apply inverse_rows).
Qed.

Lemma restored_rows :
  gf_rows 8 (length missing) fb (concat (dec_row E V <$> missing)) (at_index out <$> sources missing) = at_index out <$> missing.
Proof.
  destruct (erasures_sources missing Hm) as (_ & _ & Hmi & _).
  apply list_eq_same_length with (n := length missing); [by rewrite length_fmap|apply length_gf_rows|].
  intros r row s Hr Hrow Hs. rewrite list_lookup_fmap in Hs. apply fmap_Some in Hs as (i & Hi & ->).
  pose proof (Forall_lookup_1 _ _ _ _ Hmi Hi) as Hir. cbn beta in Hir.
  apply list_eq_entries.
  - rewrite out_length by done. by apply (Forall_lookup_1 _ _ _ _ (gf_rows_sizes _ _ _ _ _) Hrow).
  - intros p. rewrite (Forall_lookup_1 _ _ _ _ (gf_rows_sizes _ _ _ _ _) Hrow). intros Hp.
    rewrite (gf_rows_entry _ _ _ _ _ _ _ _ Hrow Hp). destruct (Z_of_nat_complete i) as [mi ->]; [lia|].
    rewrite <-restored_entry by lia. apply xsum_ext. intros j Hj. f_equal.
    rewrite entry_concat; [|apply dec_rows_sizes; [apply HV|done]|done]. by rewrite list_lookup_fmap, Hi.
Qed.
End restore.

(** ** Padding is invisible *)

Lemma resize_zeros fb (a : list byte) n : (length a + n ≤ fb)%nat → resize fb (a ++ replicate n x00) = resize fb a.
Proof.
  intros Hl. rewrite !resize_pad by (rewrite ?length_app, ?length_replicate; lia).
  rewrite length_app, length_replicate, <-app_assoc, <-replicate_add. do 2 f_equal. lia.
Qed.

Lemma data_fragment_zeros fb object n i : data_fragment fb (object ++ replicate n x00) i = data_fragment fb object i.
Proof.
  unfold data_fragment. rewrite drop_app, take_app, drop_replicate, take_replicate. apply resize_zeros. rewrite length_take. lia.
Qed.

Lemma split_object_zeros fb k object n : split_object fb k (object ++ replicate n x00) = split_object fb k object.
Proof. unfold split_object. apply list_fmap_ext. intros i j _. apply data_fragment_zeros. Qed.

(** ** Both backends *)

Section backends.
Context {Rs : ReedSolomonLib} {Isa : IsaL}.

(** A stripe of the profile that carries the object. *)
Record is_stripe (p : EcProfile) (object : list byte) (shards : list (list byte)) : Prop := {
  st_count : len shards = ep_data_fragments p + ep_parity_fragments p;
  st_sizes : Forall (fun s => len s = ep_fragment_bytes p) shards;
  st_data : take (Z.to_nat (ep_data_fragments p)) shards =
    split_object (Z.to_nat (ep_fragment_bytes p)) (Z.to_nat (ep_data_fragments p)) object;
}.

Lemma stripe_object p object shards :
  profile_ok p → len object ≤ max_object_bytes p → is_stripe p object shards →
  concat (take (Z.to_nat (ep_data_fragments p)) shards) =
    object ++ replicate (Z.to_nat (max_object_bytes p - len object)) x00.
Proof.
  intros Hp Ho [_ _ Hd]. destruct (profile_ok_facts p Hp) as (H1 & H2 & H3 & H4 & H5 & H6). rewrite Hd, split_object_join by nia.
  do 2 f_equal. nia.
Qed.

Lemma software_codec p `{!ReedSolomonLaws (ep_data_fragments p) (ep_parity_fragments p)} :
  profile_ok p → ∃ codec, rs_new (ep_data_fragments p) (ep_parity_fragments p) = Some codec.
Proof.
  intros Hp. destruct (profile_ok_facts p Hp) as (H1 & H2 & H3 & _). by apply rs_new_ok.
Qed.

(** What a codec makes of an object, and that it restores it. *)
Lemma software_stripe p `{!ReedSolomonLaws (ep_data_fragments p) (ep_parity_fragments p)} codec :
  profile_ok p → rs_new (ep_data_fragments p) (ep_parity_fragments p) = Some codec →
  ∀ object, len object ≤ max_object_bytes p →
  ∃ out, rs_encode codec (split_object (Z.to_nat (ep_fragment_bytes p)) (Z.to_nat (total_fragments p)) object) = Some out ∧
    is_stripe p object out ∧
    (∀ shards, len shards = total_fragments p → encode_into_with_codec p object shards codec = Ok out) ∧
    ∀ fragments, lost_some fragments out → count_missing fragments ≤ ep_parity_fragments p →
      software_reconstruct p fragments = Ok out.
Proof.
  intros Hp Hcodec object Ho. destruct (profile_ok_facts p Hp) as (H1 & H2 & H3 & H4 & H5 & H6).
  set (fb := Z.to_nat (ep_fragment_bytes p)). set (data := split_object fb (Z.to_nat (total_fragments p)) object).
  assert (len data = ep_data_fragments p + ep_parity_fragments p) as Hl by (unfold data; rewrite split_object_length; lia).
  assert (Forall (fun s => len s = ep_fragment_bytes p) data) as Hs.
  { eapply Forall_impl; [apply split_object_sizes|]. intros s Hls. cbn in *. lia. }
  destruct (rs_encode_ok codec data (ep_fragment_bytes p) Hcodec H4 Hl Hs) as (out & Eo & Hol & Hos & Hod).
  exists out. split; [done|]. split; [|split].
  - split; [done|done|]. rewrite Hod. apply split_object_take. lia.
  - intros shards Hsh. unfold encode_into_with_codec. rewrite prepare_shards_ok by (done || lia).
    cbn [mbind result_mbind result_bind]. fold fb. fold data. by rewrite Eo.
  - intros fragments Hlost Hc. unfold software_reconstruct. destruct Hp as (_ & _ & _ & Hv). rewrite Hv.
    cbn [mbind result_mbind result_bind]. rewrite H5, (check_fragments_ok _ _ _ _ out) by done.
    cbn [mbind result_mbind result_bind]. rewrite Hcodec. cbn [ok_or mbind result_mbind result_bind].
    pose proof (count_split fragments). pose proof (Forall2_length _ _ _ Hlost).
    rewrite (rs_reconstruct_ok codec data out fragments _ Hcodec H4 Hl Hs Eo Hlost) by lia.
    cbn [ok_or mbind result_mbind result_bind]. apply all_present_Some.
Qed.

Section isal.
Context {IsaL_ : IsaLLaws}.

(** [encode_data] on tables it was given, for a length that is a C [int]. *)
Lemma encode_data_rows p (rows : nat) a data :
  profile_ok p → (rows = 1 ∨ rows = 2)%nat → length a = (8 * rows)%nat → length data = 8%nat →
  Forall (fun s => length s = Z.to_nat (ep_fragment_bytes p)) data →
  encode_data (ep_fragment_bytes p) DATA_FRAGMENTS (Z.of_nat rows) (ec_init_tables 8 (Z.of_nat rows) a) data =
    Ok (gf_rows 8 rows (Z.to_nat (ep_fragment_bytes p)) a data).
Proof.
  intros (_ & _ & Hf & _) Hr Ha Hd Hs. unfold encode_data, GF_TABLE_BYTES_PER_COEFF, DATA_FRAGMENTS.
  rewrite isal_tables_length by lia. rewrite (proj2 (Z.eqb_eq _ _)) by done. rewrite Hd. cbn [negb Z.eqb Z.of_nat Pos.eqb].
  f_equal. assert (c_int (ep_fragment_bytes p) = Z.of_nat (Z.to_nat (ep_fragment_bytes p))) as ->.
  { unfold fits in Hf. unfold c_int. cbv zeta. rewrite wrap_small by (unfold fits; lia). rewrite (proj2 (Z.ltb_lt _ _)) by lia. lia. }
  assert (c_int (Z.of_nat rows) = Z.of_nat rows) as -> by by destruct Hr as [->| ->].
  exact (isal_encode 8 rows _ a data Ha Hd Hs).
Qed.

Definition isal_parity (shift fb : nat) (data : list (list byte)) : list (list byte) :=
  gf_rows 8 2 fb (drop 64 (rs_matrix shift 10 8)) data.

Lemma supports_counts p : plan_supports p = true → ep_data_fragments p = 8 ∧ ep_parity_fragments p = 2.
Proof. unfold plan_supports. rewrite andb_true_iff, !Z.eqb_eq. done. Qed.

Lemma isal_encode_ok core shift p object shards :
  core_ok shift core → profile_ok p → plan_supports p = true → len object ≤ max_object_bytes p → len shards = 10 →
  let fb := Z.to_nat (ep_fragment_bytes p) in let data := split_object fb 8 object in
  isal_encode_into core p object shards = Ok (data ++ isal_parity shift fb data).
Proof.
  intros [Ht _] Hp [Hk Hm]%supports_counts Ho Hs fb data. unfold isal_encode_into.
  change TOTAL_FRAGMENTS with 10. rewrite prepare_shards_ok by (done || lia). cbn [mbind result_mbind result_bind]. cbv zeta.
  change (Z.to_nat DATA_FRAGMENTS) with 8%nat. rewrite split_object_take by lia. fold fb. fold data. rewrite Ht.
  pose proof (length_rs_matrix shift 10 8) as HE. unfold isal_parity. generalize dependent (rs_matrix shift 10 8). intros E _ HE.
  change PARITY_FRAGMENTS with (Z.of_nat 2). change (ec_init_tables 8 2) with (ec_init_tables 8 (Z.of_nat 2)).
  rewrite encode_data_rows; [done|done|by right|rewrite length_drop; lia|apply split_object_length|apply split_object_sizes].
Qed.

Lemma sources_present fragments out :
  lost_some fragments out → length out = 10%nat → collect_missing_indexes fragments ∈ erasures →
  try_map (fun index => ok_or (mjoin (fragments !! Z.to_nat index)) CodecError) (sources (collect_missing_indexes fragments)) =
    Ok (at_index out <$> sources (collect_missing_indexes fragments)).
Proof.
  intros Hlost Hl Hm. destruct (erasures_sources _ Hm) as (_ & Hsrc & _). apply try_map_pure. intros i Hi.
  rewrite Forall_forall in Hsrc. destruct (Hsrc i Hi) as [Hr Hn].
  destruct (lookup_lt_is_Some_2 out (Z.to_nat i)) as [s Hs]; [lia|]. unfold at_index. rewrite Hs.
  destruct (lost_some_lookup _ _ _ _ Hlost Hs) as [Hf| ->]; [|done]. destruct Hn. apply collect_missing_elem. exists (Z.to_nat i).
  split; [lia|done].
Qed.

Lemma put_recovered_full fragments out :
  lost_some fragments out → length out = 10%nat → collect_missing_indexes fragments ∈ erasures →
  put_recovered fragments (at_index out <$> collect_missing_indexes fragments) (collect_missing_indexes fragments) = Some <$> out.
Proof.
  intros Hlost Hl Hm. destruct (erasures_sources _ Hm) as (_ & _ & Hmi & _). unfold put_recovered.
  set (missing := collect_missing_indexes fragments) in *.
  assert (zip (at_index out <$> missing) missing = (fun i => (at_index out i, i)) <$> missing) as ->.
  { clear. induction missing as [|i missing IH]; [done|]. cbn. by rewrite IH. }
  destruct (put_recovered_fold ((fun i => (at_index out i, i)) <$> missing) fragments out Hlost) as [H1 H2].
  { intros x i (j & [= -> ->] & Hj)%list_elem_of_fmap. rewrite Forall_forall in Hmi. specialize (Hmi j Hj). cbn beta in Hmi.
    destruct (lookup_lt_is_Some_2 out (Z.to_nat j)) as [s Hs]; [lia|]. unfold at_index. by rewrite Hs. }
  apply lost_some_full; [exact H1|]. intros n Hn. destruct (H2 n Hn) as [H3 H4]. rewrite Forall_fmap, Forall_forall in H4.
  apply (H4 (Z.of_nat n)); [|cbn; lia]. apply collect_missing_elem. by exists n.
Qed.

Lemma rs_coded shift p object :
  let fb := Z.to_nat (ep_fragment_bytes p) in let data := split_object fb 8 object in
  coded (rs_matrix shift 10 8) data (data ++ isal_parity shift fb data) fb.
Proof. cbv zeta. apply coded_data; [apply split_object_length|apply split_object_sizes]. Qed.

(** The plan of an erasure restores it. *)
Lemma plan_restores shift V p data out fragments :
  profile_ok p → collect_missing_indexes fragments ∈ erasures →
  is_inverse 8 V (survivors (rs_matrix shift 10 8) (collect_missing_indexes fragments)) →
  coded (rs_matrix shift 10 8) data out (Z.to_nat (ep_fragment_bytes p)) → lost_some fragments out →
  let plan := plan_of (rs_matrix shift 10 8) V (collect_missing_indexes fragments) in
  (sources ← try_map (fun index => ok_or (mjoin (fragments !! Z.to_nat index)) CodecError) (dp_source_indexes plan);
   recovered ← encode_data (ep_fragment_bytes p) DATA_FRAGMENTS (dp_rows plan) (dp_decode_tables plan) sources;
   all_present (put_recovered fragments recovered (take (Z.to_nat (dp_rows plan)) (dp_missing_indexes plan)))) = Ok out.
Proof.
  intros Hp Hm HV Hc Hlost plan. pose proof (length_rs_matrix shift 10 8) as HE. pose proof (rs_matrix_top shift) as Htop.
  subst plan. generalize dependent (rs_matrix shift 10 8). intros E HV Hc HE Htop.
  destruct (erasures_sources _ Hm) as (Hsl & Hsrc & Hmi & _ & Hln).
  cbn [plan_of dp_source_indexes dp_rows dp_decode_tables dp_missing_indexes].
  rewrite (sources_present fragments out) by (done || apply Hc). rewrite result_bind_eq.
  rewrite encode_data_rows; [|done|lia| | |].
  - rewrite result_bind_eq. rewrite (restored_rows E V _ data out) by done. rewrite Nat2Z.id, take_ge by done.
    rewrite put_recovered_full by (done || apply Hc). apply all_present_Some.
  - rewrite length_concat_rows, length_fmap; [lia|]. apply dec_rows_sizes; [apply HV|done].
  - by rewrite length_fmap.
  - apply Forall_fmap. eapply Forall_impl; [exact Hsrc|]. intros i [Hi _]. by apply (out_length E data out).
Qed.

Lemma isal_reconstruct_ok core shift p object fragments :
  core_ok shift core → profile_ok p → plan_supports p = true →
  let fb := Z.to_nat (ep_fragment_bytes p) in let data := split_object fb 8 object in
  let out := data ++ isal_parity shift fb data in
  lost_some fragments out → count_missing fragments ≤ 2 → isal_reconstruct core p fragments = Ok out.
Proof.
  intros [_ Hplans] Hp [Hk Hm]%supports_counts fb data out Hlost Hc. pose proof (rs_coded shift p object) as Hcoded.
  cbv zeta in Hcoded. fold fb in Hcoded. fold data in Hcoded. fold out in Hcoded. pose proof Hcoded as (Hol & Hos & _).
  assert (Forall (fun s => len s = ep_fragment_bytes p) out) as Hsz.
  { eapply Forall_impl; [exact Hos|]. intros s Hls. destruct (profile_ok_facts p Hp) as (_ & _ & _ & ? & _). cbn in *. lia. }
  unfold isal_reconstruct. pose proof Hp as (_ & _ & _ & Hv). rewrite Hv, result_bind_eq.
  change TOTAL_FRAGMENTS with (DATA_FRAGMENTS + PARITY_FRAGMENTS). rewrite (check_fragments_ok _ _ _ _ out);
    [|done|unfold DATA_FRAGMENTS, PARITY_FRAGMENTS; lia|done|done].
  rewrite result_bind_eq. cbv zeta. case_bool_decide as Hn.
  { rewrite (lost_some_full fragments out Hlost); [apply all_present_Some|]. intros n Hnn.
    assert (Z.of_nat n ∈ collect_missing_indexes fragments) as Hin by (apply collect_missing_elem; by exists n).
    rewrite Hn in Hin. by apply not_elem_of_nil in Hin. }
  pose proof (Forall2_length _ _ _ Hlost) as Hfl. pose proof (length_collect_missing fragments) as Hlm.
  assert (collect_missing_indexes fragments ∈ erasures) as Hmi.
  { apply collect_missing_erasure; [lia|]. destruct (collect_missing_indexes fragments); [done|]. cbn in Hlm. lia. }
  destruct (Hplans _ Hmi) as (V & HV & ->). cbn [ok_or]. rewrite result_bind_eq. by apply (plan_restores shift V p data).
Qed.

Lemma isal_stripe shift p object :
  profile_ok p → plan_supports p = true → len object ≤ max_object_bytes p →
  let fb := Z.to_nat (ep_fragment_bytes p) in let data := split_object fb 8 object in
  is_stripe p object (data ++ isal_parity shift fb data).
Proof.
  intros Hp [Hk Hm]%supports_counts Ho fb data. destruct (profile_ok_facts p Hp) as (_ & _ & _ & H4 & _).
  destruct (rs_coded shift p object) as (Hl & Hs & _). fold fb in Hl, Hs. fold data in Hl, Hs. split.
  - rewrite Hl. lia.
  - eapply Forall_impl; [exact Hs|]. intros s Hls. cbn in *. lia.
  - rewrite Hk. change (Z.to_nat 8) with 8%nat. unfold data. by rewrite take_app_length' by by rewrite split_object_length.
Qed.

End isal.

Lemma zero_shards_count total fb : 0 ≤ total → len (zero_shards total fb) = total.
Proof. intros. unfold zero_shards. rewrite length_replicate. lia. Qed.

(** The selected backend as a function of the object, the prepared plan included. *)
Definition backend_does (isa_l : bool) (p : EcProfile) (plan : PreparedEcPlan) (enc : list byte → list (list byte)) : Prop :=
  ∀ object, len object ≤ max_object_bytes p →
    is_stripe p object (enc object) ∧ kee_encode isa_l p object = Ok (enc object) ∧ plan_encode plan object = Ok (enc object) ∧
    (∀ n, enc (object ++ replicate n x00) = enc object) ∧
    ∀ fragments, lost_some fragments (enc object) → count_missing fragments ≤ ep_parity_fragments p →
      kee_reconstruct isa_l p fragments = Ok (enc object) ∧ plan_reconstruct plan fragments = Ok (enc object).

Lemma backend_software p `{!ReedSolomonLaws (ep_data_fragments p) (ep_parity_fragments p)} prepared codec isa_l :
  profile_ok p → rs_new (ep_data_fragments p) (ep_parity_fragments p) = Some codec → isa_l && plan_supports p = false →
  prepared = BackendSoftware codec ∨ prepared = Dynamic codec → ∃ enc, backend_does isa_l p (mkPlan_ p prepared) enc.
Proof.
  intros Hp Hcodec Hsel Hprep. destruct (profile_ok_facts p Hp) as (H1 & H2 & H3 & H4 & H5 & H6).
  exists (fun object => default [] (rs_encode codec
            (split_object (Z.to_nat (ep_fragment_bytes p)) (Z.to_nat (total_fragments p)) object))).
  intros object Ho. destruct (software_stripe p codec Hp Hcodec object Ho) as (out & Eo & Hst & Henc & Hrec). rewrite Eo. cbn [default].
  assert (len (zero_shards (total_fragments p) (ep_fragment_bytes p)) = total_fragments p) as Hz by (apply zero_shards_count; lia).
  split; [done|]. split; [|split; [|split]].
  - unfold kee_encode. assert (software_encode p object = Ok out) as Hs.
    { unfold software_encode, software_encode_into. rewrite Hcodec. cbn [ok_or]. rewrite result_bind_eq. by apply Henc. }
    by destruct isa_l, (plan_supports p).
  - unfold plan_encode, plan_encode_into. cbn [pe_profile pe_prepared]. destruct Hprep as [->| ->]; by apply Henc.
  - intros n. by rewrite split_object_zeros, Eo.
  - intros fragments Hlost Hc. split.
    + unfold kee_reconstruct. destruct isa_l, (plan_supports p); cbn in Hsel |- *; [done|by apply Hrec..].
    + unfold plan_reconstruct. cbn [pe_profile pe_prepared]. destruct Hprep as [->| ->]; by apply Hrec.
Qed.

Lemma backend_isal `{!IsaLLaws} p core shift :
  profile_ok p → plan_supports p = true → shared_core = Ok core → core_ok shift core →
  ∃ enc, backend_does true p (mkPlan_ p (Backend core)) enc.
Proof.
  intros Hp Hsup Hcore Hok. set (fb := Z.to_nat (ep_fragment_bytes p)). pose proof (supports_counts p Hsup) as [Hk Hm].
  destruct (profile_ok_facts p Hp) as (H1 & H2 & H3 & H4 & H5 & H6). pose proof Hp as (_ & _ & _ & Hv).
  exists (fun object => split_object fb 8 object ++ isal_parity shift fb (split_object fb 8 object)). intros object Ho.
  split; [by apply isal_stripe|]. split; [|split; [|split]].
  - unfold kee_encode. cbn [selected_backend]. rewrite Hsup, Hv, result_bind_eq, Hcore, result_bind_eq.
    apply isal_encode_ok; [done..|]. by apply zero_shards_count.
  - unfold plan_encode, plan_encode_into. cbn [pe_profile pe_prepared]. apply isal_encode_ok; [done..|].
    rewrite zero_shards_count; lia.
  - intros n. by rewrite split_object_zeros.
  - intros fragments Hlost Hc. rewrite Hm in Hc.
    assert (isal_reconstruct core p fragments = Ok (split_object fb 8 object ++ isal_parity shift fb (split_object fb 8 object)))
      as Hr by by apply (isal_reconstruct_ok core shift p object).
    split; [|exact Hr]. unfold kee_reconstruct. cbn [selected_backend].
    by rewrite Hsup, Hv, result_bind_eq, Hcore, result_bind_eq.
Qed.

Lemma plan_software isa_l p `{!ReedSolomonLaws (ep_data_fragments p) (ep_parity_fragments p)} :
  profile_ok p → isa_l && plan_supports p = false →
  ∃ plan enc, prepared_plan_new isa_l p = Ok plan ∧ backend_does isa_l p plan enc.
Proof.
  intros Hp Hsel. pose proof Hp as (_ & _ & _ & Hv). destruct (software_codec p Hp) as [codec Hcodec].
  unfold prepared_plan_new, new_codec. rewrite Hv, result_bind_eq, Hcodec. cbn [ok_or].
  destruct isa_l; cbn [negb orb andb] in *; rewrite ?Hsel, ?result_bind_eq.
  - destruct (backend_software p (Dynamic codec) codec true Hp Hcodec) as [enc Henc]; [by rewrite Hsel|by right|].
    eexists _, enc. by split.
  - destruct (backend_software p (BackendSoftware codec) codec false Hp Hcodec) as [enc Henc]; [done|by left|].
    eexists _, enc. by split.
Qed.

Lemma plan_isal `{!IsaLLaws} p :
  profile_ok p → plan_supports p = true → ∃ plan enc, prepared_plan_new true p = Ok plan ∧ backend_does true p plan enc.
Proof.
  intros Hp Hsup. pose proof Hp as (_ & _ & _ & Hv). unfold prepared_plan_new. rewrite Hv, result_bind_eq, Hsup.
  cbn [negb orb]. rewrite result_bind_eq. destruct shared_core_ok as (shift & core & Ec & Hok). rewrite Ec, !result_bind_eq.
  destruct (backend_isal p core shift Hp Hsup Ec Hok) as [enc Henc]. eexists _, enc. by split.
Qed.

(** A stripe can be checked: the data it carries codes to it. *)
Lemma backend_verify isa_l p plan enc object :
  profile_ok p → backend_does isa_l p plan enc → len object ≤ max_object_bytes p → kee_verify isa_l p (enc object) = Ok true.
Proof.
  intros Hp Hb Ho. destruct (Hb object Ho) as (Hst & _ & _ & Hz & _). destruct (profile_ok_facts p Hp) as (H1 & H2 & H3 & H4 & H5 & H6).
  pose proof Hp as (_ & _ & _ & Hv). unfold kee_verify. rewrite Hv, result_bind_eq, H5.
  rewrite (proj2 (Z.eqb_eq _ _)) by apply Hst. cbn [negb]. rewrite (lost_some_sizes _ (enc object)); [|by apply Forall2_fmap_l, Forall_Forall2_diag, Forall_true; right|apply Hst].
  rewrite result_bind_eq, (stripe_object p object) by done.
  destruct (Hb (object ++ replicate (Z.to_nat (max_object_bytes p - len object)) x00)) as (_ & He & _).
  { rewrite length_app, length_replicate. lia. }
  rewrite He, result_bind_eq, Hz. by rewrite bool_decide_eq_true_2.
Qed.
End backends.
