(* ===== verification/KeeCode.v ===== *)
(** The promises of erasure coding: any stripe with no more fragments lost than it has parity
    is restored to what was coded, with either backend and through a prepared plan, and what
    cannot be coded or restored is refused. *)
From S2P Require Import Prelude Bytes Fdb KmsKeys KmsValues Gf256 Kee KeeLaws KeeMatrix KeeProps KeeIsaL KeeRestore.

Section code.
Context {Rs : ReedSolomonLib} {Isa : IsaL}.

(** A backend codes the object, prepared or not, and restores it from what is left. *)
Definition code_restores (isa_l : bool) (p : EcProfile) (object : list byte) : Prop :=
  ∃ plan shards,
    prepared_plan_new isa_l p = Ok plan ∧ kee_encode isa_l p object = Ok shards ∧ plan_encode plan object = Ok shards ∧
    len shards = ep_data_fragments p + ep_parity_fragments p ∧ Forall (fun s => len s = ep_fragment_bytes p) shards ∧
    concat (take (Z.to_nat (ep_data_fragments p)) shards) =
      object ++ replicate (Z.to_nat (max_object_bytes p - len object)) x00 ∧
    kee_verify isa_l p shards = Ok true ∧
    ∀ fragments, lost_some fragments shards → count_missing fragments ≤ ep_parity_fragments p →
      kee_reconstruct isa_l p fragments = Ok shards ∧ plan_reconstruct plan fragments = Ok shards.

Lemma backend_restores isa_l p plan enc object :
  profile_ok p → prepared_plan_new isa_l p = Ok plan → backend_does isa_l p plan enc → len object ≤ max_object_bytes p →
  code_restores isa_l p object.
Proof.
  intros Hp Hplan Hb Ho. destruct (Hb object Ho) as (Hst & He & Hpe & _ & Hr). exists plan, (enc object).
  split_and!; [done..|apply Hst|apply Hst|by apply stripe_object|by apply (backend_verify isa_l p plan)|done].
Qed.

(** C23: The software codec restores every stripe: whenever the ISA-L backend is not built in
    or does not support the profile, an object that fits is coded into fragments of the
    profile's count and size, the data fragments spell the object followed by zeros, the
    stripe verifies, a prepared plan gives the same stripe, and with any fragments lost, up
    to the parity count, reconstruction returns the whole stripe. *)
Theorem software_code_restores (isa_l : bool) (p : EcProfile) (object : list byte) :
  ReedSolomonLaws (ep_data_fragments p) (ep_parity_fragments p) →
  profile_ok p → isa_l && plan_supports p = false → len object ≤ max_object_bytes p → code_restores isa_l p object.
Proof.
  intros Hlaws Hp Hsel Ho. destruct (plan_software isa_l p Hp Hsel) as (plan & enc & Hplan & Hb). by apply (backend_restores isa_l p plan enc).
Qed.

(** C9: The ISA-L backend restores every stripe of eight data and two parity fragments: its
    tables and decode plans exist for each of the 55 ways to lose one or two fragments, and
    it keeps the promises of the software codec. *)
Theorem isal_code_restores (p : EcProfile) (object : list byte) :
  IsaLLaws → profile_ok p → plan_supports p = true → len object ≤ max_object_bytes p → code_restores true p object.
Proof.
  intros Hlaws Hp Hsup Ho. destruct (plan_isal p Hp Hsup) as (plan & enc & Hplan & Hb). by apply (backend_restores true p plan enc).
Qed.

(** ** Refusals *)

Lemma check_fragments_count data parity total fb fragments :
  len fragments ≠ total → check_fragments data parity total fb fragments = Err (FragmentCountMismatch total (len fragments)).
Proof. intros Hn. unfold check_fragments. by rewrite (proj2 (Z.eqb_neq _ _)). Qed.

Lemma check_fragments_missing data parity total fb fragments :
  len fragments = total → parity < count_missing fragments →
  check_fragments data parity total fb fragments = Err (TooManyFragmentsMissing (count_missing fragments) parity).
Proof. intros Hl Hm. unfold check_fragments. rewrite (proj2 (Z.eqb_eq _ _)) by done. cbn. by rewrite (proj2 (Z.ltb_lt _ _)). Qed.

(** A refusal of [check_fragments] is the answer of either backend. *)
Lemma reconstruct_refuses isa_l p core fragments e :
  profile_ok p → (isa_l && plan_supports p = true → shared_core = Ok core) →
  check_fragments (ep_data_fragments p) (ep_parity_fragments p) (total_fragments p) (ep_fragment_bytes p) fragments = Err e →
  kee_reconstruct isa_l p fragments = Err e.
Proof.
  intros Hp Hcore He. pose proof Hp as (_ & _ & _ & Hv). destruct (profile_ok_facts p Hp) as (_ & _ & _ & _ & H5 & _).
  unfold kee_reconstruct. assert (software_reconstruct p fragments = Err e) as Hs.
  { unfold software_reconstruct. by rewrite Hv, result_bind_eq, He. }
  destruct isa_l, (plan_supports p) eqn:Hsup; cbn [selected_backend]; [|done..].
  apply supports_counts in Hsup as [Hk Hm]. rewrite Hv, result_bind_eq, Hcore, result_bind_eq by done.
  unfold isal_reconstruct. rewrite H5, Hk, Hm in He. change TOTAL_FRAGMENTS with (8 + 2). change DATA_FRAGMENTS with 8.
  change PARITY_FRAGMENTS with 2. by rewrite Hv, result_bind_eq, He.
Qed.

Lemma encode_refuses isa_l p core object e :
  profile_ok p → (isa_l && plan_supports p = true → shared_core = Ok core) →
  (∃ codec, rs_new (ep_data_fragments p) (ep_parity_fragments p) = Some codec) →
  (∀ shards, prepare_shards p (total_fragments p) object shards = Err e) → kee_encode isa_l p object = Err e.
Proof.
  intros Hp Hcore [codec Hcodec] He. pose proof Hp as (_ & _ & _ & Hv). destruct (profile_ok_facts p Hp) as (_ & _ & _ & _ & H5 & _).
  assert (software_encode p object = Err e) as Hs.
  { unfold software_encode, software_encode_into. rewrite Hcodec. cbn [ok_or]. rewrite result_bind_eq. unfold encode_into_with_codec.
    by rewrite He. }
  unfold kee_encode. destruct isa_l, (plan_supports p) eqn:Hsup; cbn [selected_backend]; [|done..].
  apply supports_counts in Hsup as [Hk Hm]. rewrite Hv, result_bind_eq, Hcore, result_bind_eq by done.
  unfold isal_encode_into. replace TOTAL_FRAGMENTS with (total_fragments p) by (rewrite H5, Hk, Hm; done). by rewrite He.
Qed.

(** C33: What cannot be coded is refused, and nothing else: with a valid profile an object is
    coded exactly when it is no longer than the data fragments together, one that is longer
    is answered with its size and the limit; a stripe with a fragment too few or too many,
    or with more lost than the parity count, is answered with the counts. *)
Theorem code_bounds (isa_l : bool) (p : EcProfile) (object : list byte) (fragments : list (option (list byte))) :
  IsaLLaws → ReedSolomonLaws (ep_data_fragments p) (ep_parity_fragments p) → profile_ok p →
  (kee_encode isa_l p object =
     Err (PayloadTooLarge (len object) (ep_data_fragments p * ep_fragment_bytes p)) ↔
   ep_data_fragments p * ep_fragment_bytes p < len object) ∧
  ((∃ shards, kee_encode isa_l p object = Ok shards) ↔ len object ≤ ep_data_fragments p * ep_fragment_bytes p) ∧
  (len fragments ≠ ep_data_fragments p + ep_parity_fragments p →
     kee_reconstruct isa_l p fragments =
       Err (FragmentCountMismatch (ep_data_fragments p + ep_parity_fragments p) (len fragments))) ∧
  (len fragments = ep_data_fragments p + ep_parity_fragments p → ep_parity_fragments p < count_missing fragments →
     kee_reconstruct isa_l p fragments =
       Err (TooManyFragmentsMissing (count_missing fragments) (ep_parity_fragments p))).
Proof.
  intros HI HR Hp. destruct (profile_ok_facts p Hp) as (H1 & H2 & H3 & H4 & H5 & H6). pose proof Hp as (_ & _ & _ & Hv).
  destruct shared_core_ok as (shift & core & Ec & _). destruct (software_codec p Hp) as [codec Hcodec].
  assert (ep_data_fragments p * ep_fragment_bytes p < len object → kee_encode isa_l p object =
            Err (PayloadTooLarge (len object) (ep_data_fragments p * ep_fragment_bytes p))) as Hbig.
  { intros Hl. apply (encode_refuses isa_l p core); [done|done|by exists codec|]. intros shards. unfold prepare_shards.
    by rewrite Hv, result_bind_eq, H6, (proj2 (Z.ltb_lt _ _)). }
  assert (len object ≤ ep_data_fragments p * ep_fragment_bytes p → ∃ shards, kee_encode isa_l p object = Ok shards) as Hsmall.
  { intros Hl. rewrite <-H6 in Hl. destruct (isa_l && plan_supports p) eqn:Hsel.
    - apply andb_true_iff in Hsel as [-> Hsup]. destruct (plan_isal p Hp Hsup) as (plan & enc & _ & Hb). exists (enc object). by apply Hb.
    - destruct (plan_software isa_l p Hp Hsel) as (plan & enc & _ & Hb). exists (enc object). by apply Hb. }
  split_and!.
  - split; [|done]. intros He. apply Z.lt_nge. intros Hl. destruct (Hsmall Hl). congruence.
  - split; [|done]. intros [shards Hs]. apply Z.le_ngt. intros Hl. rewrite (Hbig Hl) in Hs. done.
  - intros Hl. rewrite <-H5 in *. apply (reconstruct_refuses isa_l p core); [done|done|]. by apply check_fragments_count.
  - intros Hl Hm. rewrite <-H5 in *. apply (reconstruct_refuses isa_l p core); [done|done|]. by apply check_fragments_missing.
Qed.

(** A fragment size the profile check admits, but whose length is negative as a C [int]. *)
Lemma fragment_length_overflows :
  validate_single_stripe (mkProfile (bstr "p") (bstr "rs") 8 2 (2 ^ 31) DriveDomainLab) = Ok tt ∧ c_int (2 ^ 31) = - 2 ^ 31.
Proof. done. Qed.
End code.
