(* ===== verification/KeeExamples.v ===== *)
(** Erasure coding with concrete libraries: replication as the code of one data shard, and the
    field arithmetic itself in place of ISA-L, whose inverse is found by search. *)
From S2P Require Import Prelude Bytes Fdb KmsKeys KmsValues Gf256 Kee KeeLaws KeeMatrix KeeProps KeeIsaL KeeRestore KeeCode.

(** ** Replication *)

#[export] Instance replication : ReedSolomonLib := {|
  ReedSolomon := unit;
  rs_new k m := if (0 <? k) && (0 <? m) && (k + m <=? 256) then Some tt else None;
  rs_encode _ shards := match shards with s :: _ => Some (replicate (length shards) s) | [] => None end;
  rs_reconstruct _ fragments :=
    match omap id fragments with s :: _ => Some (Some <$> replicate (length fragments) s) | [] => None end;
|}.

Lemma replicated_present fragments n s :
  lost_some fragments (replicate n s) → 1 ≤ count_present fragments →
  length fragments = n ∧ ∃ l, omap id fragments = s :: l.
Proof.
  intros H Hp. pose proof (Forall2_length _ _ _ H) as Hl. rewrite length_replicate in Hl. split; [done|]. revert n H Hl.
  unfold count_present in Hp. induction fragments as [|f fragments IH]; intros n H Hl; [cbn in Hp; lia|].
  destruct n as [|n]; [done|]. cbn [replicate] in H. apply Forall2_cons in H as [Hf H]. rewrite filter_cons in Hp.
  destruct Hf as [->| ->]; cbn.
  - rewrite decide_False in Hp by tauto. apply (IH Hp n); [done|]. cbn in Hl. lia.
  - by eexists.
Qed.

#[export] Instance replication_laws : ReedSolomonLaws 1 2.
Proof.
  split.
  - intros _ _ _. by exists tt.
  - intros codec [|s shards] n _ Hn Hl Hs; [done|]. exists (replicate (length (s :: shards)) s).
    apply Forall_cons in Hs as [Hs _]. split; [done|]. split; [by rewrite length_replicate|]. split; [|done].
    apply Forall_replicate, Hs.
  - intros codec [|s shards] out fragments n _ Hn Hl Hs Eo Hlost Hp; [done|]. cbn in Eo.
    injection Eo as <-. destruct (replicated_present fragments (S (length shards)) s Hlost Hp) as [Hf [l Ho]].
    cbn. rewrite Ho, Hf. done.
Qed.

(** ** The field in place of ISA-L *)

Definition all_bytes : list byte := byte_of_Z <$> seqZ 0 256.

Fixpoint byte_lists (n : nat) : list (list byte) :=
  match n with
  | O => [[]]
  | S n' => b ← all_bytes; cons b <$> byte_lists n'
  end.

Lemma all_bytes_elem b : b ∈ all_bytes.
Proof.
  apply list_elem_of_fmap. exists (byte_to_Z b). split; [by rewrite byte_of_to_Z|].
  apply elem_of_seqZ. pose proof (byte_to_Z_range b). lia.
Qed.

Lemma byte_lists_elem l : l ∈ byte_lists (length l).
Proof.
  induction l as [|b l IH]; [apply list_elem_of_here|]. cbn. apply list_elem_of_bind. exists b.
  split; [by apply list_elem_of_fmap_2|apply all_bytes_elem].
Qed.

Definition inverse_check (n : nat) (m out : list byte) : bool :=
  (length out =? n * n)%nat &&
  forallb (fun i => forallb (fun j =>
    xsum n (fun s => gf256_mul (entry out (i * n + s)) (entry m (s * n + j))) =? delta i j) (seq 0 n)) (seq 0 n).

Lemma inverse_check_iff n m out : inverse_check n m out = true ↔ is_inverse n out m.
Proof.
  unfold inverse_check, is_inverse. rewrite andb_true_iff, Nat.eqb_eq, forallb_forall. split; intros [Hl Hc]; split; [done| |done|].
  - intros i j Hi Hj. specialize (Hc i (proj2 (in_seq n 0 i) ltac:(lia))). rewrite forallb_forall in Hc.
    apply Z.eqb_eq, Hc, in_seq. lia.
  - intros i Hi%in_seq. apply forallb_forall. intros j Hj%in_seq. apply Z.eqb_eq, Hc; lia.
Qed.

#[export] Instance field_isal : IsaL := {|
  ec_init_tables k rows a := a ++ replicate (Z.to_nat (31 * k * rows)) x00;
  ec_encode_data l k rows tables data :=
    gf_rows (Z.to_nat k) (Z.to_nat rows) (Z.to_nat l) (take (Z.to_nat k * Z.to_nat rows) tables) data;
  gf_mul a b := byte_of_Z (gf256_mul (byte_to_Z a) (byte_to_Z b));
  gf_gen_rs_matrix m k := rs_matrix 0 (Z.to_nat m) (Z.to_nat k);
  gf_invert_matrix m n := List.find (inverse_check (Z.to_nat n) m) (byte_lists (Z.to_nat n * Z.to_nat n));
|}.

#[export] Instance field_isal_laws : IsaLLaws.
Proof.
  split; cbn [ec_init_tables ec_encode_data gf_mul gf_gen_rs_matrix gf_invert_matrix field_isal].
  - intros k rows a Hk Hr Ha. rewrite length_app, length_replicate. nia.
  - intros k rows l a data Ha _ _. rewrite !Nat2Z.id. f_equal. by rewrite take_app_length' by lia.
  - intros a b. rewrite byte_to_of_Z. apply Z.mod_small. exact (gf256_mul_u8 _ _ (byte_to_Z_range b)).
  - exists 0%nat. split; [lia|]. intros m k _ _ _. by rewrite !Nat2Z.id.
  - intros m n out _. rewrite Nat2Z.id. intros [_ Hf]%find_some. by apply inverse_check_iff.
  - intros m n _. rewrite Nat2Z.id. intros Hf out Hinv.
    pose proof (find_none _ _ Hf out) as H. apply inverse_check_iff in Hinv as Hc. rewrite H in Hc; [done|].
    apply list_elem_of_In. destruct Hinv as [<- _]. apply byte_lists_elem.
Qed.

(** ** Profiles *)

Definition replicated : EcProfile := mkProfile (bstr "r") (bstr "rs") 1 2 65536 Node.
Definition wide : EcProfile := mkProfile (bstr "w") (bstr "rs") 8 2 65536 Node.

Lemma replicated_ok : profile_ok replicated.
Proof. unfold profile_ok, fits. cbn. split_and!; (lia || vm_compute; reflexivity). Qed.
Lemma wide_ok : profile_ok wide.
Proof. unfold profile_ok, fits. cbn. split_and!; (lia || vm_compute; reflexivity). Qed.

Lemma software_code_restores_witness : code_restores true replicated (bstr "object").
Proof.
  apply software_code_restores.
  - exact replication_laws.
  - exact replicated_ok.
  - reflexivity.
  - vm_compute. discriminate.
Defined.

Lemma isal_code_restores_witness : code_restores true wide (bstr "object").
Proof.
  apply isal_code_restores.
  - exact field_isal_laws.
  - exact wide_ok.
  - reflexivity.
  - vm_compute. discriminate.
Defined.

Lemma code_bounds_witness :
  kee_reconstruct true replicated [None; None; None] = Err (TooManyFragmentsMissing 3 2).
Proof.
  apply (code_bounds true replicated [] [None; None; None] field_isal_laws replication_laws replicated_ok).
  - reflexivity.
  - vm_compute. reflexivity.
Defined.
