(* ===== verification/Kas.v ===== *)
(** The granule allocator (poc/kas/src/fdb_store.rs): free spans of the storage targets,
    reservations of granules for stripes, and the operations on the state the service keeps
    in memory. [KasStore] has what it stores and when.

    A reservation holds one granule on each of several targets in different failure
    domains until it is finalized, released or expires. The hash that orders domains and
    the generated ids are arguments; the order of a [HashMap] is that of its elements. The
    registry of service instances, timings and counters are left out. *)
From S2P Require Import Prelude Bytes Sorts Fdb KmsKeys KmsValues KmsStore Placement.

(** ** Messages (keinctl/proto/control.proto) *)

Definition RESERVATION_STATE_RESERVED : Z := 1.
Definition RESERVATION_STATE_FINALIZED : Z := 2.
Definition RESERVATION_STATE_RELEASED : Z := 3.

Record PlacementReservation := mkPlacement {
  pr_target_id : list byte;
  pr_endpoint : list byte;
  pr_granule_index : Z;
  pr_fragment_index : Z;
  pr_reservation_id : list byte;
  pr_reservation_placement_index : Z;
}.

Record PlacementReservationRecord := mkReservation {
  rr_reservation_id : list byte;
  rr_state : Z;
  rr_placements : list PlacementReservation;
  rr_expires_at_unix_ms : Z;
}.

Record TargetGranule := mkTargetGranule { tg_target_id : list byte; tg_granule_index : Z }.

Record ReservationMutationSpec := mkMutation { rm_reservation_id : list byte; rm_placement_indexes : list Z }.

Inductive ReservationMutationKind : Set := Finalize | Release.

#[export] Instance ReservationMutationKind_eq_dec : EqDecision ReservationMutationKind.
Proof. solve_decision. Defined.
#[export] Instance PlacementReservation_eq_dec : EqDecision PlacementReservation.
Proof. solve_decision. Defined.

(** ** Free spans *)

Record GranuleSpan := mkSpan { gs_start : Z; gs_len : Z }.

#[export] Instance GranuleSpan_eq_dec : EqDecision GranuleSpan.
Proof. solve_decision. Defined.

Definition span_free_count (spans : list GranuleSpan) : Z :=
  foldl (fun sum span => wrap 64 (sum + gs_len span)) 0 spans.

(** The granule taken and the spans left. *)
Definition allocate_one (spans : list GranuleSpan) : option (Z * list GranuleSpan) :=
  match spans with
  | [] => None
  | first :: rest =>
      let first' := mkSpan (wrap 64 (gs_start first + 1)) (wrap 64 (gs_len first - 1)) in
      Some (gs_start first, if gs_len first' =? 0 then rest else first' :: rest)
  end.

(** One pass of the merging loop; [merged] is in reverse. *)
Definition merge_span (merged : list GranuleSpan) (span : GranuleSpan) : list GranuleSpan :=
  match merged with
  | last :: merged' =>
      if wrap 64 (gs_start last + gs_len last) =? gs_start span
      then mkSpan (gs_start last) (wrap 64 (gs_len last + gs_len span)) :: merged'
      else span :: merged
  | [] => [span]
  end.

Definition release_granule (spans : list GranuleSpan) (granule_index : Z) : list GranuleSpan :=
  let sorted := sort_by (fun a b => gs_start a <=? gs_start b) (spans ++ [mkSpan granule_index 1]) in
  reverse (foldl merge_span [] sorted).

Definition granule_is_free (spans : list GranuleSpan) (granule_index : Z) : bool :=
  existsb (fun span => (gs_start span <=? granule_index) &&
                       (granule_index <? saturating_add64 (gs_start span) (gs_len span))) spans.

(** ** Targets and candidates *)

(** The allocator's view of a target; [CandidateTarget] has the same fields. *)
Record TargetAllocatorState := mkTargetState { ta_target : TargetRecord; ta_spans : list GranuleSpan }.

Record CandidateDomain := mkDomain { cd_key : list byte; cd_members : list TargetAllocatorState }.

Definition with_free_granules (free : Z) (t : TargetRecord) : TargetRecord :=
  mkTargetRecord (tr_target_id t) (tr_endpoint t) (tr_server_id t) (tr_rack_id t) (tr_failure_domain t)
    (tr_granule_count t) free (tr_healthy t) (tr_last_heartbeat_unix_ms t) (tr_lifecycle_state t)
    (tr_allocation_shard_id t).

(** New spans, and the count of free granules they give. *)
Definition with_spans (spans : list GranuleSpan) (t : TargetAllocatorState) : TargetAllocatorState :=
  mkTargetState (with_free_granules (span_free_count spans) (ta_target t)) spans.

Definition ta_id (t : TargetAllocatorState) : list byte := tr_target_id (ta_target t).
Definition ta_free (t : TargetAllocatorState) : Z := tr_free_granules (ta_target t).

Definition target_domain_key (failure_domain : FailureDomain) (target : TargetRecord) : result Status (list byte) :=
  match failure_domain with
  | DriveDomainLab => Ok (bstr "target:" ++ tr_target_id target)
  | Node => Ok (bstr "node:" ++ tr_server_id target)
  | Rack => Ok (bstr "rack:" ++ tr_rack_id target)
  | Unspecified => Err InvalidArgument_
  end.

(** Most free granules first, then by id. *)
Definition sort_domain_members (members : list TargetAllocatorState) : list TargetAllocatorState :=
  sort_by (fun l r => (ta_free r <? ta_free l) || ((ta_free l =? ta_free r) && bytes_leb (ta_id l) (ta_id r))) members.

Definition usable_member (t : TargetAllocatorState) : bool := (0 <? ta_free t) && negb (bool_decide (ta_spans t = [])).

Definition domain_head_index (domain : CandidateDomain) : option nat :=
  fst <$> list_find (fun t => usable_member t = true) (cd_members domain).

Definition domain_head_free (domain : CandidateDomain) : Z :=
  match domain_head_index domain ≫= (cd_members domain !!.) with
  | Some t => ta_free t
  | None => 0
  end.

Definition candidate_domains_from_targets (failure_domain : FailureDomain) (candidates : list TargetAllocatorState) :
    result Status (list CandidateDomain) :=
  grouped ← try_fold (fun (grouped : gmap (list byte) (list TargetAllocatorState)) candidate =>
    key ← target_domain_key failure_domain (ta_target candidate);
    Ok (<[key := default [] (grouped !! key) ++ [candidate]]> grouped)) ∅ candidates;
  let domains := (fun '(key, members) => mkDomain key (sort_domain_members members)) <$> map_to_list grouped in
  Ok (sort_by (fun l r => (domain_head_free r <? domain_head_free l) ||
                          ((domain_head_free l =? domain_head_free r) && bytes_leb (cd_key l) (cd_key r))) domains).

Definition candidate (excluded : gset (list byte)) (banned : option (list byte)) (required : gset (list byte))
    (shard : option (list byte)) (entry : TargetAllocatorState) : bool :=
  tr_healthy (ta_target entry) &&
  (tr_lifecycle_state (ta_target entry) =? TARGET_LIFECYCLE_ACTIVE) &&
  usable_member entry &&
  match shard with Some shard => bool_decide (tr_allocation_shard_id (ta_target entry) = shard) | None => true end &&
  negb (bool_decide (ta_id entry ∈ excluded)) &&
  match banned with Some id => negb (bool_decide (ta_id entry = id)) | None => true end &&
  (bool_decide (required = ∅) || bool_decide (ta_id entry ∈ required)).

Definition candidate_domains_from_state (targets : gmap (list byte) TargetAllocatorState) (failure_domain : FailureDomain)
    (excluded : gset (list byte)) (banned : option (list byte)) (required : gset (list byte)) (shard : option (list byte)) :
    result Status (list CandidateDomain) :=
  candidate_domains_from_targets failure_domain
    (filter (fun entry => candidate excluded banned required shard entry = true) ((map_to_list targets).*2)).

(** ** Planning *)

(** [format!("{n:0w$}")] *)
Definition dec_padded (w : nat) (n : Z) : list byte :=
  let digits := dec_to_string n in replicate (w - length digits) "0"%byte ++ digits.

Section plan.
(** The hash of [domain_order_bias], and the ids [Uuid::new_v4] gives to the reservations
    of a batch. *)
Context (domain_order_bias : list byte → list byte → Z) (uuid : Z → list byte).

Definition reservation_id_of (explicit_id prefix : option (list byte)) (batch_index : Z) : list byte :=
  match explicit_id with
  | Some id => id
  | None =>
      let generated := bstr "reserve-batch-" ++ uuid batch_index ++ bstr "-" ++ dec_padded 4 batch_index in
      match prefix with
      | Some p => if blank p then generated else p ++ bstr "/" ++ generated
      | None => generated
      end
  end.

Definition sort_candidate_domains (reservation_id : list byte) (domains : list CandidateDomain) : list CandidateDomain :=
  sort_by (fun l r =>
    let bl := domain_order_bias reservation_id (cd_key l) in
    let br := domain_order_bias reservation_id (cd_key r) in
    (domain_head_free r <? domain_head_free l) ||
    ((domain_head_free l =? domain_head_free r) &&
     ((bl <? br) || ((bl =? br) && bytes_leb (cd_key l) (cd_key r))))) domains.

(** The domains that can serve a fragment, by index. *)
Definition viable (domains : list CandidateDomain) : list nat :=
  omap (fun '(i, d) => if 0 <? domain_head_free d then Some i else None) (imap pair domains).

(** Takes one granule from the best member of a domain. *)
Definition reserve_fragment (reservation_id : list byte)
    (acc : list CandidateDomain * gset (list byte) * list PlacementReservation) (domain_index : nat) :
    result Status (list CandidateDomain * gset (list byte) * list PlacementReservation) :=
  let '(domains, dirty, placements) := acc in
  domain ← ok_or (domains !! domain_index) Internal_;
  member_index ← ok_or (domain_head_index domain) Internal_;
  candidate ← ok_or (cd_members domain !! member_index) Internal_;
  '(granule_index, spans) ← ok_or (allocate_one (ta_spans candidate)) Internal_;
  let members := sort_domain_members (<[member_index := with_spans spans candidate]> (cd_members domain)) in
  let index := wrap 32 (len placements) in
  Ok (<[domain_index := mkDomain (cd_key domain) members]> domains, {[ta_id candidate]} ∪ dirty,
      placements ++ [mkPlacement (ta_id candidate) (tr_endpoint (ta_target candidate)) granule_index index
                       reservation_id index]).

Definition batch_expiry (expires_at_unix_ms batch_index : Z) : Z :=
  if expires_at_unix_ms =? 0 then 0 else saturating_add64 expires_at_unix_ms batch_index.

(** One reservation after another, until a batch is full or the domains run dry. *)
Fixpoint plan_loop (fragment_count : nat) (explicit_id prefix : option (list byte)) (expires_at_unix_ms : Z)
    (indexes : list Z) (domains : list CandidateDomain) (dirty : gset (list byte))
    (reservations : list PlacementReservationRecord) :
    result Status (list CandidateDomain * gset (list byte) * list PlacementReservationRecord) :=
  match indexes with
  | [] => Ok (domains, dirty, reservations)
  | batch_index :: indexes' =>
      let id := reservation_id_of explicit_id prefix batch_index in
      let domains := sort_candidate_domains id domains in
      let selected := take fragment_count (viable domains) in
      if negb (length selected =? fragment_count)%nat then Ok (domains, dirty, reservations)
      else
        '(domains, dirty, placements) ← try_fold (reserve_fragment id) (domains, dirty, []) selected;
        plan_loop fragment_count explicit_id prefix expires_at_unix_ms indexes' domains dirty
          (reservations ++ [mkReservation id RESERVATION_STATE_RESERVED placements
                              (batch_expiry expires_at_unix_ms batch_index)])
  end.

Definition plan_reservation_batch (domains : list CandidateDomain) (batch_size : Z) (fragment_count : nat)
    (explicit_id prefix : option (list byte)) (expires_at_unix_ms : Z) :
    result Status (list CandidateDomain * gset (list byte) * list PlacementReservationRecord) :=
  plan_loop fragment_count explicit_id prefix expires_at_unix_ms (seqZ 0 batch_size) domains ∅ [].
End plan.

(** ** The state in memory *)

Record AllocatorState := mkAllocator {
  al_targets : gmap (list byte) TargetAllocatorState;
  al_reservations : gmap (list byte) PlacementReservationRecord;
  al_bins : gmap (list byte) (list (list byte));
  al_stamp : option (list byte);
  al_target_state_loaded : bool;
  al_reservation_state_loaded : bool;
  al_committed_granules : gmap (list byte) (gset Z);
}.

Definition AllocatorState_default : AllocatorState := mkAllocator ∅ ∅ ∅ None false false ∅.

Definition set_targets targets s :=
  mkAllocator targets (al_reservations s) (al_bins s) (al_stamp s) (al_target_state_loaded s)
    (al_reservation_state_loaded s) (al_committed_granules s).
Definition set_reservations reservations s :=
  mkAllocator (al_targets s) reservations (al_bins s) (al_stamp s) (al_target_state_loaded s)
    (al_reservation_state_loaded s) (al_committed_granules s).
Definition set_bins bins s :=
  mkAllocator (al_targets s) (al_reservations s) bins (al_stamp s) (al_target_state_loaded s)
    (al_reservation_state_loaded s) (al_committed_granules s).
Definition set_committed committed s :=
  mkAllocator (al_targets s) (al_reservations s) (al_bins s) (al_stamp s) (al_target_state_loaded s)
    (al_reservation_state_loaded s) committed.
Definition set_loaded target_state reservation_state s :=
  mkAllocator (al_targets s) (al_reservations s) (al_bins s) (al_stamp s) target_state reservation_state
    (al_committed_granules s).

Definition modify_state {S E : Type} (f : S → S) : M S E unit := fun s => (f s, Ok tt).

(** A loop whose body changes the state and an accumulator. *)
Fixpoint fold_m {S E A B : Type} (f : B → A → M S E B) (b : B) (l : list A) : M S E B :=
  match l with
  | [] => mret b
  | a :: l' => b' ← f b a; fold_m f b' l'
  end.

(** ** Reserving *)

(** Copies the planned spans of a changed target back into the state. *)
Definition write_back (planned : list TargetAllocatorState)
    (acc : gmap (list byte) TargetAllocatorState * list TargetAllocatorState) (target_id : list byte) :
    gmap (list byte) TargetAllocatorState * list TargetAllocatorState :=
  match snd <$> list_find (fun t => ta_id t = target_id) planned, acc.1 !! target_id with
  | Some member, Some entry =>
      let entry' := mkTargetState (with_free_granules (ta_free member) (ta_target entry)) (ta_spans member) in
      (<[target_id := entry']> acc.1, acc.2 ++ [entry'])
  | _, _ => acc
  end.

Definition insert_reservations (records : list PlacementReservationRecord)
    (reservations : gmap (list byte) PlacementReservationRecord) : gmap (list byte) PlacementReservationRecord :=
  foldl (fun m r => <[rr_reservation_id r := r]> m) reservations records.

(** What [reserve_batch_common_locked] does under the state lock. *)
Definition reserve_in_memory (domain_order_bias : list byte → list byte → Z) (uuid : Z → list byte)
    (shard : option (list byte)) (batch_size : Z) (fragment_count : nat) (failure_domain : FailureDomain)
    (excluded : gset (list byte)) (banned : option (list byte)) (expires_at_unix_ms : Z) (required : gset (list byte))
    (explicit_id : option (list byte)) :
    M AllocatorState Status (list TargetAllocatorState * list PlacementReservationRecord) :=
  s ← get_state;
  domains ← lift (candidate_domains_from_state (al_targets s) failure_domain excluded banned required shard);
  '(domains, dirty, reservations) ←
    lift (plan_reservation_batch domain_order_bias uuid domains batch_size fragment_count explicit_id shard expires_at_unix_ms);
  let '(targets, dirty_targets) := foldl (write_back (mjoin (cd_members <$> domains))) (al_targets s, []) (elements dirty) in
  _ ← put_state (set_reservations (insert_reservations reservations (al_reservations s)) (set_targets targets s));
  mret (dirty_targets, reservations).

(** ** Bins of ready reservations *)

Definition expiry_from (now_ms ttl_ms : Z) : Z := if ttl_ms =? 0 then 0 else saturating_add64 now_ms ttl_ms.

Definition with_expiry (expires_at : Z) (r : PlacementReservationRecord) : PlacementReservationRecord :=
  mkReservation (rr_reservation_id r) (rr_state r) (rr_placements r) expires_at.

(** Whether a queued reservation may still be handed out. *)
Definition claimable (now_ms : Z) (r : PlacementReservationRecord) : bool :=
  (rr_state r =? RESERVATION_STATE_RESERVED) &&
  negb ((0 <? rr_expires_at_unix_ms r) && (rr_expires_at_unix_ms r <=? now_ms)).

(** Pops ids until [batch_size] reservations are claimed; the ids popped are returned. *)
Fixpoint claim_loop (now_ms expires_at batch_size : Z) (queue : list (list byte))
    (reservations : gmap (list byte) PlacementReservationRecord) (claimed : list PlacementReservationRecord)
    (popped : list (list byte)) :
    list (list byte) * gmap (list byte) PlacementReservationRecord * list PlacementReservationRecord * list (list byte) :=
  if batch_size <=? len claimed then (queue, reservations, claimed, popped)
  else
    match queue with
    | [] => ([], reservations, claimed, popped)
    | id :: queue' =>
        match reservations !! id with
        | Some record =>
            if claimable now_ms record then
              let record' := if 0 <? expires_at then with_expiry expires_at record else record in
              claim_loop now_ms expires_at batch_size queue' (<[id := record']> reservations) (claimed ++ [record']) (popped ++ [id])
            else claim_loop now_ms expires_at batch_size queue' reservations claimed (popped ++ [id])
        | None => claim_loop now_ms expires_at batch_size queue' reservations claimed (popped ++ [id])
        end
    end.

Definition claim_ready_bin_records (now_ms : Z) (bin_key : list byte) (batch_size ttl_ms : Z) (s : AllocatorState) :
    AllocatorState * (list PlacementReservationRecord * list (list byte * list byte)) :=
  match al_bins s !! bin_key with
  | None => (s, ([], []))
  | Some queue =>
      let '(queue', reservations, claimed, popped) :=
        claim_loop now_ms (expiry_from now_ms ttl_ms) batch_size queue (al_reservations s) [] [] in
      let bins := if bool_decide (queue' = []) then delete bin_key (al_bins s) else <[bin_key := queue']> (al_bins s) in
      (set_bins bins (set_reservations reservations s), (claimed, (fun id => (bin_key, id)) <$> popped))
  end.

(** The bins without an id, and the bins that had it. *)
Definition remove_reservation_from_bins (bins : gmap (list byte) (list (list byte))) (id : list byte) :
    gmap (list byte) (list (list byte)) * list (list byte * list byte) :=
  (omap (fun queue => let queue' := filter (.≠ id) queue in if bool_decide (queue' = []) then None else Some queue') bins,
   omap (fun '(key, queue) => if bool_decide (id ∈ queue) then Some (key, id) else None) (map_to_list bins)).

(** ** Finalizing and releasing *)

(** [sort_unstable], [dedup] *)
Fixpoint dedup_adjacent (l : list Z) : list Z :=
  match l with
  | x :: (y :: _) as l' => if x =? y then dedup_adjacent l' else x :: dedup_adjacent l'
  | _ => l
  end.

Definition normalize_subset_indexes (total : nat) (raw_indexes : list Z) : result Status (list nat) :=
  if (total =? 0)%nat then Ok []
  else if bool_decide (raw_indexes = []) then Ok (seq 0 total)
  else
    let indexes := dedup_adjacent (sort_by Z.leb raw_indexes) in
    if existsb (fun i => Z.of_nat total <=? i) indexes then Err InvalidArgument_ else Ok (Z.to_nat <$> indexes).

Definition synthetic_reservation_result (id : list byte) (state : Z) : PlacementReservationRecord :=
  mkReservation id state [] 0.

Definition with_placements (placements : list PlacementReservation) (r : PlacementReservationRecord) : PlacementReservationRecord :=
  mkReservation (rr_reservation_id r) (rr_state r) placements (rr_expires_at_unix_ms r).
Definition with_state (state : Z) (r : PlacementReservationRecord) : PlacementReservationRecord :=
  mkReservation (rr_reservation_id r) state (rr_placements r) (rr_expires_at_unix_ms r).

(** Returns one granule to its target, unless it is committed or already free. *)
Definition release_placement (dirty : gset (list byte)) (placement : PlacementReservation) :
    M AllocatorState Status (gset (list byte)) :=
  s ← get_state;
  if bool_decide (pr_granule_index placement ∈ default ∅ (al_committed_granules s !! pr_target_id placement)) then mret dirty
  else
    entry ← lift (ok_or (al_targets s !! pr_target_id placement) NotFound_);
    if granule_is_free (ta_spans entry) (pr_granule_index placement) then mret dirty
    else
      let entry' := with_spans (release_granule (ta_spans entry) (pr_granule_index placement)) entry in
      _ ← put_state (set_targets (<[pr_target_id placement := entry']> (al_targets s)) s);
      mret ({[ta_id entry]} ∪ dirty).

Definition release_record_placements (record : PlacementReservationRecord) (indexes : list nat) (dirty : gset (list byte)) :
    M AllocatorState Status (gset (list byte)) :=
  fold_m release_placement dirty (omap (rr_placements record !!.) indexes).

(** What a batch of mutations has to store. *)
Record MutationEffects := mkEffects {
  me_results : list PlacementReservationRecord;
  me_dirty_targets : gset (list byte);
  me_dirty_reservations : list PlacementReservationRecord;
  me_delete_reservations : list (list byte);
  me_delete_bin_members : list (list byte * list byte);
}.

Definition no_effects : MutationEffects := mkEffects [] ∅ [] [] [].
Definition push_result (record : PlacementReservationRecord) (e : MutationEffects) : MutationEffects :=
  mkEffects (me_results e ++ [record]) (me_dirty_targets e) (me_dirty_reservations e) (me_delete_reservations e)
    (me_delete_bin_members e).

(** The indexes of a list outside a set. *)
Definition drop_indexes {A : Type} (released : list nat) (l : list A) : list A :=
  omap (fun '(i, x) => if bool_decide (i ∈ released) then None else Some x) (imap pair l).

(** The record after its mutation, and the targets that got granules back. *)
Definition mutate_record (kind : ReservationMutationKind) (record : PlacementReservationRecord) (raw_indexes : list Z)
    (dirty : gset (list byte)) : M AllocatorState Status (PlacementReservationRecord * gset (list byte)) :=
  indexes ← lift (normalize_subset_indexes (length (rr_placements record)) raw_indexes);
  match kind with
  | Finalize =>
      mret (with_state RESERVATION_STATE_FINALIZED (with_placements (omap (rr_placements record !!.) indexes) record), dirty)
  | Release =>
      dirty ← release_record_placements record indexes dirty;
      if (length indexes =? length (rr_placements record))%nat
      then mret (with_state RESERVATION_STATE_RELEASED (with_placements [] record), dirty)
      else mret (with_placements (drop_indexes indexes (rr_placements record)) record, dirty)
  end.

(** One pass of the loop of [apply_reservation_mutations_locked]. *)
Definition apply_mutation (kind : ReservationMutationKind) (e : MutationEffects) (mutation : ReservationMutationSpec) :
    M AllocatorState Status MutationEffects :=
  s ← get_state;
  match al_reservations s !! rm_reservation_id mutation with
  | None =>
      mret (push_result (synthetic_reservation_result (rm_reservation_id mutation)
              (match kind with Finalize => RESERVATION_STATE_FINALIZED | Release => RESERVATION_STATE_RELEASED end)) e)
  | Some record =>
      if negb (rr_state record =? RESERVATION_STATE_RESERVED) then mret (push_result record e)
      else
        '(record, dirty) ← mutate_record kind record (rm_placement_indexes mutation) (me_dirty_targets e);
        s ← get_state;
        let '(bins, deleted) := remove_reservation_from_bins (al_bins s) (rr_reservation_id record) in
        let s := set_bins bins s in
        let members := me_delete_bin_members e ++ deleted in
        if bool_decide (kind = Finalize) || (rr_state record =? RESERVATION_STATE_RELEASED) then
          _ ← put_state (set_reservations (delete (rr_reservation_id record) (al_reservations s)) s);
          mret (mkEffects (me_results e ++ [record]) dirty (me_dirty_reservations e)
                  (me_delete_reservations e ++ [rr_reservation_id record]) members)
        else
          _ ← put_state (set_reservations (<[rr_reservation_id record := record]> (al_reservations s)) s);
          mret (mkEffects (me_results e ++ [record]) dirty (me_dirty_reservations e ++ [record])
                  (me_delete_reservations e) members)
  end.

Definition apply_in_memory (kind : ReservationMutationKind) (mutations : list ReservationMutationSpec) :
    M AllocatorState Status MutationEffects :=
  if bool_decide (NoDup (rm_reservation_id <$> mutations)) then fold_m (apply_mutation kind) no_effects mutations
  else lift (Err InvalidArgument_).

(** Whether every mutation finalizes all placements of its reservation. *)
Fixpoint finalize_whole (seen : gset (list byte)) (reservations : gmap (list byte) PlacementReservationRecord)
    (mutations : list ReservationMutationSpec) : result Status bool :=
  match mutations with
  | [] => Ok true
  | mutation :: mutations' =>
      let id := rm_reservation_id mutation in
      if bool_decide (id ∈ seen) then Err InvalidArgument_
      else
        match reservations !! id with
        | Some record =>
            if negb (rr_state record =? RESERVATION_STATE_RESERVED)
            then finalize_whole ({[id]} ∪ seen) reservations mutations'
            else
              keep ← normalize_subset_indexes (length (rr_placements record)) (rm_placement_indexes mutation);
              if negb (length keep =? length (rr_placements record))%nat then Ok false
              else finalize_whole ({[id]} ∪ seen) reservations mutations'
        | None => finalize_whole ({[id]} ∪ seen) reservations mutations'
        end
  end.

(** One pass of the loop that finalizes without touching spans. *)
Definition finalize_mutation (acc : AllocatorState * MutationEffects) (mutation : ReservationMutationSpec) :
    AllocatorState * MutationEffects :=
  let '(s, e) := acc in
  match al_reservations s !! rm_reservation_id mutation with
  | None => (s, push_result (synthetic_reservation_result (rm_reservation_id mutation) RESERVATION_STATE_FINALIZED) e)
  | Some record =>
      if rr_state record =? RESERVATION_STATE_RESERVED then
        let record := with_state RESERVATION_STATE_FINALIZED record in
        let '(bins, deleted) := remove_reservation_from_bins (al_bins s) (rr_reservation_id record) in
        (set_reservations (delete (rr_reservation_id record) (al_reservations s)) (set_bins bins s),
         mkEffects (me_results e ++ [record]) (me_dirty_targets e) (me_dirty_reservations e)
           (me_delete_reservations e ++ [rr_reservation_id record]) (me_delete_bin_members e ++ deleted))
      else (s, push_result record e)
  end.

(** [None]: some mutation finalizes a part only. *)
Definition finalize_in_memory (mutations : list ReservationMutationSpec) : M AllocatorState Status (option MutationEffects) :=
  s ← get_state;
  whole ← lift (finalize_whole ∅ (al_reservations s) mutations);
  if (whole : bool) then
    let '(s', e) := foldl finalize_mutation (s, no_effects) mutations in
    _ ← put_state s'; mret (Some e)
  else mret None.

(** ** Reclaiming *)

Definition group_granules (granules : list TargetGranule) : gmap (list byte) (list Z) :=
  foldl (fun (m : gmap (list byte) (list Z)) g =>
    <[tg_target_id g := default [] (m !! tg_target_id g) ++ [tg_granule_index g]]> m) ∅ granules.

(** One granule of a target; the count so far and the targets changed. *)
Definition reclaim_granule (target_id : list byte) (acc : Z * gset (list byte)) (granule_index : Z) :
    M AllocatorState Status (Z * gset (list byte)) :=
  s ← get_state;
  entry ← lift (ok_or (al_targets s !! target_id) NotFound_);
  if tr_granule_count (ta_target entry) <=? granule_index then lift (Err InvalidArgument_)
  else if granule_is_free (ta_spans entry) granule_index then mret acc
  else
    let entry' := with_spans (release_granule (ta_spans entry) granule_index) entry in
    _ ← put_state (set_targets (<[target_id := entry']> (al_targets s)) s);
    mret (saturating_add64 acc.1 1, {[target_id]} ∪ acc.2).

Definition reclaim_in_memory (granules : list TargetGranule) : M AllocatorState Status (Z * gset (list byte)) :=
  fold_m (fun acc '(target_id, indexes) =>
    s ← get_state;
    _ ← lift (ok_or (al_targets s !! target_id) NotFound_);
    fold_m (reclaim_granule target_id) acc indexes) (0, ∅) (map_to_list (group_granules granules)).

(** ** Expiry *)

Definition expired (now_ms : Z) (r : PlacementReservationRecord) : bool :=
  (rr_state r =? RESERVATION_STATE_RESERVED) && (0 <? rr_expires_at_unix_ms r) && (rr_expires_at_unix_ms r <=? now_ms).

(** The ids to release, in order. *)
Definition expired_ids (now_ms : Z) (limit : nat) (s : AllocatorState) : list (list byte) :=
  take limit (sort_by bytes_leb (rr_reservation_id <$> filter (fun r => expired now_ms r = true) ((map_to_list (al_reservations s)).*2))).

(** The granules they hold. *)
Definition granules_of (s : AllocatorState) (ids : list (list byte)) : list (list byte * Z) :=
  ids ≫= fun id =>
    match al_reservations s !! id with
    | Some r => (fun p => (pr_target_id p, pr_granule_index p)) <$> rr_placements r
    | None => []
    end.

Definition add_committed (committed : list (list byte * Z)) (s : AllocatorState) : AllocatorState :=
  set_committed (foldl (fun (m : gmap (list byte) (gset Z)) '(target_id, granule) => <[target_id := {[granule]} ∪ default ∅ (m !! target_id)]> m)
                   (al_committed_granules s) committed) s.

(** ** Targets *)

Definition full_span (t : TargetRecord) : list GranuleSpan := [mkSpan 0 (tr_granule_count t)].

Definition with_lifecycle (state : Z) (t : TargetRecord) : TargetRecord :=
  mkTargetRecord (tr_target_id t) (tr_endpoint t) (tr_server_id t) (tr_rack_id t) (tr_failure_domain t)
    (tr_granule_count t) (tr_free_granules t) (tr_healthy t) (tr_last_heartbeat_unix_ms t) state
    (tr_allocation_shard_id t).
Definition with_health (healthy : bool) (observed_unix_ms : Z) (t : TargetRecord) : TargetRecord :=
  mkTargetRecord (tr_target_id t) (tr_endpoint t) (tr_server_id t) (tr_rack_id t) (tr_failure_domain t)
    (tr_granule_count t) (tr_free_granules t) healthy observed_unix_ms (tr_lifecycle_state t)
    (tr_allocation_shard_id t).

(** The entry stored, and whether the target is new. *)
Definition register_in_memory (target : TargetRecord) : M AllocatorState Status (TargetAllocatorState * bool) :=
  if blank (tr_allocation_shard_id target) then lift (Err InvalidArgument_)
  else
    let target := if tr_lifecycle_state target =? TARGET_LIFECYCLE_UNSPECIFIED
                  then with_lifecycle TARGET_LIFECYCLE_ACTIVE target else target in
    s ← get_state;
    let existing_spans := ta_spans <$> al_targets s !! tr_target_id target in
    let spans := default (full_span target) existing_spans in
    let stored := with_spans spans (mkTargetState target spans) in
    _ ← put_state (set_targets (<[tr_target_id target := stored]> (al_targets s)) s);
    mret (stored, bool_decide (existing_spans = None)).

Definition update_entry (target_id : list byte) (f : TargetRecord → TargetRecord) : M AllocatorState Status TargetAllocatorState :=
  s ← get_state;
  entry ← lift (ok_or (al_targets s !! target_id) NotFound_);
  let entry' := mkTargetState (f (ta_target entry)) (ta_spans entry) in
  _ ← put_state (set_targets (<[target_id := entry']> (al_targets s)) s);
  mret entry'.

Definition heartbeat_in_memory (target_id : list byte) (healthy : bool) (observed_unix_ms : Z) :
    M AllocatorState Status TargetAllocatorState :=
  update_entry target_id (with_health healthy observed_unix_ms).

Definition set_target_state_in_memory (target_id : list byte) (lifecycle_state now_ms : Z) :
    M AllocatorState Status TargetAllocatorState :=
  if lifecycle_state =? TARGET_LIFECYCLE_UNSPECIFIED then lift (Err InvalidArgument_)
  else
    update_entry target_id (fun t =>
      let t := with_lifecycle lifecycle_state t in
      if lifecycle_state =? TARGET_LIFECYCLE_ACTIVE then with_health true now_ms t
      else if lifecycle_state =? TARGET_LIFECYCLE_UNHEALTHY then with_health false now_ms t
      else t).

(** Every target all free, no reservation. *)
Definition reset_in_memory (s : AllocatorState) : AllocatorState * list TargetAllocatorState :=
  let targets := (fun t => mkTargetState (with_free_granules (tr_granule_count (ta_target t)) (ta_target t))
                             (full_span (ta_target t))) <$> al_targets s in
  (set_bins ∅ (set_reservations ∅ (set_targets targets s)), (map_to_list targets).*2).
