(* ===== verification/KasPlan.v ===== *)
(** Free spans: a target's span list is kept sorted with gaps between the spans, so it is
    the only such list for its set of free granules. Planning a batch of reservations on
    them: the granules taken were free, none is taken twice, and every reservation has its
    granules in different failure domains. *)
From S2P Require Import Prelude Bytes Sorts Fdb KmsKeys KmsValues KmsStore Placement Kas.

(** ** Well-formed span lists *)

(** Spans from [lo] on and below [hi], none empty, each apart from the next. *)
Fixpoint spans_from (lo hi : Z) (spans : list GranuleSpan) : Prop :=
  match spans with
  | [] => True
  | s :: rest => lo ≤ gs_start s ∧ 0 < gs_len s ∧ gs_start s + gs_len s ≤ hi ∧ spans_from (gs_start s + gs_len s + 1) hi rest
  end.

(** The same, where spans may touch. *)
Fixpoint spans_weak (lo hi : Z) (spans : list GranuleSpan) : Prop :=
  match spans with
  | [] => True
  | s :: rest => lo ≤ gs_start s ∧ 0 < gs_len s ∧ gs_start s + gs_len s ≤ hi ∧ spans_weak (gs_start s + gs_len s) hi rest
  end.

Definition in_span (g : Z) (s : GranuleSpan) : Prop := gs_start s ≤ g < gs_start s + gs_len s.
Definition is_free (spans : list GranuleSpan) (g : Z) : Prop := Exists (in_span g) spans.

#[export] Instance in_span_dec g s : Decision (in_span g s).
Proof. unfold in_span. apply _. Defined.
#[export] Instance is_free_dec spans g : Decision (is_free spans g).
Proof. unfold is_free. apply _. Defined.

Lemma is_free_cons s spans g : is_free (s :: spans) g ↔ in_span g s ∨ is_free spans g.
Proof. apply Exists_cons. Qed.

Lemma spans_from_le lo lo' hi spans : lo' ≤ lo → spans_from lo hi spans → spans_from lo' hi spans.
Proof. destruct spans as [|s spans]; [done|]. cbn. intuition lia. Qed.

Lemma spans_weak_le lo lo' hi spans : lo' ≤ lo → spans_weak lo hi spans → spans_weak lo' hi spans.
Proof. destruct spans as [|s spans]; [done|]. cbn. intuition lia. Qed.

Lemma spans_from_weak lo hi spans : spans_from lo hi spans → spans_weak lo hi spans.
Proof.
  revert lo. induction spans as [|s spans IH]; intros lo; [done|]. cbn. intros (? & ? & ? & H).
  split_and!; [done..|]. apply IH. eapply spans_from_le; [|exact H]. lia.
Qed.

Lemma spans_weak_free lo hi spans g : spans_weak lo hi spans → is_free spans g → lo ≤ g < hi.
Proof.
  revert lo. induction spans as [|s spans IH]; intros lo.
  - intros _ H. by apply Exists_nil in H.
  - cbn. intros (? & ? & ? & H) [Hs|Hf]%is_free_cons; [unfold in_span in Hs; lia|]. apply (IH _ H) in Hf. lia.
Qed.

Lemma spans_from_free lo hi spans g : spans_from lo hi spans → is_free spans g → lo ≤ g < hi.
Proof. intros H%spans_from_weak. by apply spans_weak_free. Qed.

(** ** The number of free granules *)

Definition span_total (spans : list GranuleSpan) : Z := foldr (fun s n => gs_len s + n) 0 spans.

Lemma span_total_cons s spans : span_total (s :: spans) = gs_len s + span_total spans.
Proof. done. Qed.

Lemma span_total_bounds lo hi spans : spans_weak lo hi spans → lo ≤ hi → 0 ≤ span_total spans ≤ hi - lo.
Proof.
  revert lo. induction spans as [|s spans IH]; intros lo; cbn; [lia|]. intros (? & ? & ? & H) ?.
  specialize (IH _ H ltac:(lia)). fold (span_total spans). lia.
Qed.

Lemma span_free_count_acc lo hi spans n :
  spans_weak lo hi spans → 0 ≤ lo ≤ hi → 0 ≤ n → n + (hi - lo) < 2 ^ 64 →
  foldl (fun sum span => wrap 64 (sum + gs_len span)) n spans = n + span_total spans.
Proof.
  revert lo n. induction spans as [|s spans IH]; intros lo n; cbn [foldl span_total foldr]; [lia|].
  intros (? & ? & ? & H) ???. rewrite wrap_small by (unfold fits; lia). rewrite (IH _ _ H) by lia. fold (span_total spans). lia.
Qed.

Lemma span_free_count_total hi spans : spans_weak 0 hi spans → 0 ≤ hi < 2 ^ 64 → span_free_count spans = span_total spans.
Proof. intros H Hhi. unfold span_free_count. rewrite (span_free_count_acc 0 hi) by (done || lia). lia. Qed.

Lemma span_total_pos lo hi spans : spans_weak lo hi spans → 0 < span_total spans ↔ spans ≠ [].
Proof.
  destruct spans as [|s spans]; cbn; [intros; split; [lia|done]|]. intros (? & ? & ? & H). split; [done|].
  intros _. fold (span_total spans). pose proof (span_total_bounds _ _ _ H). lia.
Qed.

(** ** Looking for a granule *)

Lemma granule_is_free_iff hi spans g : spans_weak 0 hi spans → hi < 2 ^ 64 → granule_is_free spans g = true ↔ is_free spans g.
Proof.
  intros Hs Hhi. unfold granule_is_free, is_free. rewrite existsb_exists, Exists_exists.
  assert (∀ lo, 0 ≤ lo → spans_weak lo hi spans → ∀ s, s ∈ spans → saturating_add64 (gs_start s) (gs_len s) = gs_start s + gs_len s) as Hsat.
  { clear Hs. induction spans as [|s spans IH]; intros lo Hlo H t Ht; [by apply elem_of_nil in Ht|]. destruct H as (? & ? & ? & H).
    apply elem_of_cons in Ht as [->|Ht]; [unfold saturating_add64; lia|]. eapply (IH (gs_start s + gs_len s)); [lia|done..]. }
  split; intros (s & Hin & H); exists s; (split; [by apply list_elem_of_In|]); apply list_elem_of_In in Hin;
    rewrite ?list_elem_of_In in Hin; specialize (Hsat 0 ltac:(lia) Hs s ltac:(by apply list_elem_of_In));
    rewrite Hsat in *; unfold in_span in *; lia.
Qed.

(** ** Taking a granule *)

Lemma allocate_one_Some lo hi spans :
  0 ≤ lo → hi < 2 ^ 64 → spans_from lo hi spans → spans ≠ [] →
  ∃ g spans', allocate_one spans = Some (g, spans') ∧ spans_from lo hi spans' ∧ is_free spans g ∧
    (∀ x, is_free spans' x ↔ is_free spans x ∧ x ≠ g) ∧ span_total spans' = span_total spans - 1.
Proof.
  intros Hlo Hhi Hs Hne. destruct spans as [|s spans]; [done|]. destruct Hs as (H1 & H2 & H3 & Hs).
  assert (∀ x, is_free spans x → gs_start s + gs_len s < x) as Hafter.
  { intros x Hx. apply (spans_from_free _ _ _ _ Hs) in Hx. lia. }
  cbn [allocate_one]. exists (gs_start s).
  rewrite !wrap_small by (unfold fits; lia). cbn [gs_len].
  destruct (Z.eqb_spec (gs_len s - 1) 0) as [E|E]; eexists; (split; [reflexivity|]); split_and!.
  - eapply spans_from_le; [|exact Hs]. lia.
  - apply is_free_cons. left. unfold in_span. lia.
  - intros x. rewrite is_free_cons. unfold in_span. split; [|intuition lia]. intros Hx. specialize (Hafter x Hx). split; [by right|lia].
  - cbn. fold (span_total spans). lia.
  - cbn. split_and!; [lia..|]. eapply spans_from_le; [|exact Hs]. lia.
  - apply is_free_cons. left. unfold in_span. lia.
  - intros x. rewrite !is_free_cons. unfold in_span. cbn. split.
    + intros [Hx|Hx]; [split; [left|]; lia|]. specialize (Hafter x Hx). split; [by right|lia].
    + intros [[Hx|Hx] ?]; [left; lia|by right].
  - cbn. fold (span_total spans). lia.
Qed.

(** ** Returning a granule *)

(** The merging loop, forwards. *)
Fixpoint merge_from (cur : GranuleSpan) (spans : list GranuleSpan) : list GranuleSpan :=
  match spans with
  | [] => [cur]
  | s :: rest =>
      if wrap 64 (gs_start cur + gs_len cur) =? gs_start s
      then merge_from (mkSpan (gs_start cur) (wrap 64 (gs_len cur + gs_len s))) rest
      else cur :: merge_from s rest
  end.

Lemma merge_span_from cur merged spans : reverse (foldl merge_span (cur :: merged) spans) = reverse merged ++ merge_from cur spans.
Proof.
  revert cur merged. induction spans as [|s spans IH]; intros cur merged; [apply reverse_cons|].
  cbn [foldl merge_span merge_from]. destruct (_ =? _); [apply IH|]. rewrite IH, reverse_cons, <-app_assoc. done.
Qed.

(** Insertion by start, as the sort does it for a sorted list. *)
Fixpoint insert_span (x : GranuleSpan) (spans : list GranuleSpan) : list GranuleSpan :=
  match spans with
  | [] => [x]
  | s :: rest => if gs_start s <=? gs_start x then s :: insert_span x rest else x :: s :: rest
  end.

Lemma insert_span_head lo hi x spans s :
  spans_from lo hi spans → gs_start s ≤ lo → gs_start s ≤ gs_start x →
  insert_by (fun a b => gs_start a <=? gs_start b) s (insert_span x spans) = s :: insert_span x spans.
Proof.
  intros Hs Hlo Hx. destruct spans as [|t spans]; cbn.
  - by rewrite (proj2 (Z.leb_le _ _)).
  - destruct Hs as (? & ? & ? & ?). destruct (gs_start t <=? gs_start x); cbn; by rewrite (proj2 (Z.leb_le _ _)) by lia.
Qed.

Lemma sort_insert_span lo hi x spans :
  spans_from lo hi spans →
  sort_by (fun a b => gs_start a <=? gs_start b) (spans ++ [x]) = insert_span x spans.
Proof.
  revert lo. induction spans as [|s spans IH]; intros lo Hs; [done|]. destruct Hs as (H1 & H2 & H3 & Hs).
  cbn [app sort_by insert_span]. rewrite (IH _ Hs). destruct (Z.leb_spec (gs_start s) (gs_start x)) as [E|E].
  - eapply insert_span_head; [exact Hs|lia|lia].
  - assert (insert_span x spans = x :: spans) as ->.
    { destruct spans as [|t spans]; [done|]. destruct Hs as (? & ? & ? & ?). cbn. by rewrite (proj2 (Z.leb_gt _ _)) by lia. }
    cbn. rewrite (proj2 (Z.leb_gt _ _)) by lia. f_equal.
    destruct spans as [|t spans]; [done|]. destruct Hs as (? & ? & ? & ?). cbn. by rewrite (proj2 (Z.leb_le _ _)) by lia.
Qed.

Lemma insert_span_weak lo hi g spans :
  spans_from lo hi spans → ¬ is_free spans g → lo ≤ g < hi → spans_weak lo hi (insert_span (mkSpan g 1) spans).
Proof.
  revert lo. induction spans as [|s spans IH]; intros lo Hs Hg Hr; [cbn; lia|]. destruct Hs as (H1 & H2 & H3 & Hs).
  rewrite is_free_cons in Hg. unfold in_span in Hg. cbn [insert_span gs_start].
  destruct (Z.leb_spec (gs_start s) g) as [E|E]; cbn [spans_weak gs_start gs_len].
  - split_and!; [done..|]. destruct (decide (g = gs_start s + gs_len s)) as [->|Hne].
    + destruct spans as [|t spans]; [cbn; lia|]. destruct Hs as (? & ? & ? & Hs). cbn [insert_span gs_start].
      rewrite (proj2 (Z.leb_gt _ _)) by lia. cbn [spans_weak gs_start gs_len]. split_and!; try lia.
      apply spans_from_weak. eapply spans_from_le; [|exact Hs]. lia.
    + eapply spans_weak_le; [|apply IH; [exact Hs|intuition|lia]]. lia.
  - split_and!; try lia. apply spans_from_weak. eapply spans_from_le; [|exact Hs]. lia.
Qed.

Lemma is_free_insert_span x spans g : is_free (insert_span x spans) g ↔ in_span g x ∨ is_free spans g.
Proof.
  induction spans as [|s spans IH]; cbn; [apply is_free_cons|]. destruct (_ <=? _); rewrite !is_free_cons; [rewrite IH|]; tauto.
Qed.

Lemma span_total_insert x spans : span_total (insert_span x spans) = gs_len x + span_total spans.
Proof. induction spans as [|s spans IH]; [done|]. cbn [insert_span]. destruct (_ <=? _); rewrite !span_total_cons, ?IH; lia. Qed.

Lemma merge_from_ok lo hi cur spans :
  0 ≤ lo → hi < 2 ^ 64 → spans_weak lo hi (cur :: spans) →
  spans_from lo hi (merge_from cur spans) ∧ (∀ g, is_free (merge_from cur spans) g ↔ is_free (cur :: spans) g) ∧
  span_total (merge_from cur spans) = span_total (cur :: spans).
Proof.
  revert lo cur. induction spans as [|s spans IH]; intros lo cur Hlo Hhi (H1 & H2 & H3 & Hs); [cbn; intuition lia|].
  destruct Hs as (K1 & K2 & K3 & Hs). cbn [merge_from]. rewrite !wrap_small by (unfold fits; lia).
  destruct (Z.eqb_spec (gs_start cur + gs_len cur) (gs_start s)) as [E|E].
  - destruct (IH lo (mkSpan (gs_start cur) (gs_len cur + gs_len s)) Hlo Hhi) as (I1 & I2 & I3).
    { cbn. split_and!; try lia. eapply spans_weak_le; [|exact Hs]. lia. }
    split_and!; [done| |].
    + intros g. rewrite I2, !is_free_cons. unfold in_span. cbn. intuition lia.
    + rewrite I3, !span_total_cons. cbn. lia.
  - destruct (IH (gs_start cur + gs_len cur + 1) s) as (I1 & I2 & I3); [lia|done| |].
    { cbn. split_and!; try lia. done. }
    split_and!; [cbn; by split_and!| |].
    + intros g. by rewrite is_free_cons, I2, (is_free_cons cur).
    + by rewrite span_total_cons, I3.
Qed.

Lemma release_granule_eq lo hi spans g :
  spans_from lo hi spans →
  release_granule spans g = match insert_span (mkSpan g 1) spans with [] => [] | s :: rest => merge_from s rest end.
Proof.
  intros Hs. unfold release_granule. cbv zeta. rewrite (sort_insert_span _ _ _ _ Hs).
  destruct (insert_span (mkSpan g 1) spans) as [|s rest]; [done|]. apply (merge_span_from s []).
Qed.

Lemma release_granule_ok lo hi spans g :
  0 ≤ lo → hi < 2 ^ 64 → spans_from lo hi spans → ¬ is_free spans g → lo ≤ g < hi →
  spans_from lo hi (release_granule spans g) ∧
  (∀ x, is_free (release_granule spans g) x ↔ is_free spans x ∨ x = g) ∧
  span_total (release_granule spans g) = span_total spans + 1.
Proof.
  intros Hlo Hhi Hs Hg Hr. rewrite (release_granule_eq _ _ _ _ Hs).
  pose proof (insert_span_weak _ _ _ _ Hs Hg Hr) as Hw. pose proof (is_free_insert_span (mkSpan g 1) spans) as Hf.
  pose proof (span_total_insert (mkSpan g 1) spans) as Ht.
  destruct (insert_span (mkSpan g 1) spans) as [|s rest] eqn:E; [by destruct spans as [|t spans]; cbn in E; [|destruct (_ <=? _)]|].
  destruct (merge_from_ok _ _ _ _ Hlo Hhi Hw) as (I1 & I2 & I3). split_and!; [done| |rewrite I3, Ht; cbn; lia].
  intros x. rewrite I2, Hf. unfold in_span. cbn. intuition lia.
Qed.

(** ** Round trip *)

Lemma merge_from_canonical lo hi s spans :
  0 ≤ lo → hi < 2 ^ 64 → spans_from lo hi (s :: spans) → merge_from s spans = s :: spans.
Proof.
  revert lo s. induction spans as [|t spans IH]; intros lo s Hlo Hhi (H1 & H2 & H3 & Hs); [done|].
  cbn [merge_from]. pose proof Hs as (? & ? & ? & ?). rewrite wrap_small by (unfold fits; lia). rewrite (proj2 (Z.eqb_neq _ _)) by lia.
  f_equal. eapply IH; [|done|exact Hs]. lia.
Qed.

(** A granule taken and given back leaves the spans as they were. *)
Lemma allocate_release lo hi spans g spans' :
  0 ≤ lo → hi < 2 ^ 64 → spans_from lo hi spans → allocate_one spans = Some (g, spans') → release_granule spans' g = spans.
Proof.
  intros Hlo Hhi Hs E. destruct spans as [|s spans]; [done|].
  destruct (allocate_one_Some lo hi (s :: spans) Hlo Hhi Hs ltac:(done)) as (g1 & k & E1 & Hk & _). rewrite E in E1. injection E1 as <- <-.
  rewrite (release_granule_eq _ _ _ _ Hk). destruct Hs as (H1 & H2 & H3 & Hs). cbn [allocate_one] in E.
  rewrite !wrap_small in E by (unfold fits; lia). cbn [gs_len] in E.
  destruct (Z.eqb_spec (gs_len s - 1) 0) as [El|El]; injection E as <- <-.
  - assert (mkSpan (gs_start s) 1 = s) as Es by (destruct s as [a b]; cbn in *; f_equal; lia).
    assert (insert_span (mkSpan (gs_start s) 1) spans = s :: spans) as ->.
    { rewrite Es. destruct spans as [|t spans]; [done|]. destruct Hs as (? & ? & ? & ?). cbn. by rewrite (proj2 (Z.leb_gt _ _)) by lia. }
    eapply (merge_from_canonical lo hi); [done..|]. by split_and!.
  - cbn [insert_span gs_start]. rewrite (proj2 (Z.leb_gt _ _)) by lia. cbn [merge_from gs_start gs_len].
    rewrite !wrap_small by (unfold fits; lia). rewrite Z.eqb_refl.
    replace (mkSpan (gs_start s) (1 + (gs_len s - 1))) with s by (destruct s as [a b]; cbn; f_equal; lia).
    eapply (merge_from_canonical lo hi); [done..|]. by split_and!.
Qed.

(** ** Targets *)

(** A target's spans are well formed and counted. *)
Definition target_ok (t : TargetAllocatorState) : Prop :=
  0 < tr_granule_count (ta_target t) < 2 ^ 64 ∧ spans_from 0 (tr_granule_count (ta_target t)) (ta_spans t) ∧
  ta_free t = span_total (ta_spans t).

Lemma target_ok_usable t : target_ok t → usable_member t = true ↔ ta_spans t ≠ [].
Proof.
  intros (Hc & Hs & Hf). unfold usable_member. rewrite andb_true_iff, negb_true_iff, bool_decide_eq_false, Z.ltb_lt, Hf.
  rewrite (span_total_pos 0 (tr_granule_count (ta_target t))) by by apply spans_from_weak. tauto.
Qed.

Lemma with_spans_count spans t :
  0 < tr_granule_count (ta_target t) < 2 ^ 64 → spans_from 0 (tr_granule_count (ta_target t)) spans → target_ok (with_spans spans t).
Proof.
  intros Hc Hs. unfold target_ok, with_spans, ta_free. cbn. split_and!; [lia..|done|].
  apply (span_free_count_total (tr_granule_count (ta_target t))); [by apply spans_from_weak|lia].
Qed.

Lemma with_spans_ok spans t :
  target_ok t → spans_from 0 (tr_granule_count (ta_target t)) spans → target_ok (with_spans spans t).
Proof. intros (Hc & _). by apply with_spans_count. Qed.

(** ** Domains as a list of targets *)

Definition flat (domains : list CandidateDomain) : list TargetAllocatorState := mjoin (cd_members <$> domains).

Lemma flat_cons d domains : flat (d :: domains) = cd_members d ++ flat domains.
Proof. done. Qed.

Lemma elem_of_flat t domains : t ∈ flat domains ↔ ∃ d, d ∈ domains ∧ t ∈ cd_members d.
Proof.
  unfold flat. rewrite list_elem_of_join. setoid_rewrite list_elem_of_fmap. split.
  - intros (l & Ht & d & -> & Hd). by exists d.
  - intros (d & Hd & Ht). exists (cd_members d). split; [done|]. by exists d.
Qed.

#[export] Instance flat_proper : Proper ((≡ₚ) ==> (≡ₚ)) flat.
Proof.
  induction 1 as [|d l l' Hp IH|d d' l|l1 l2 l3 H1 IH1 H2 IH2]; [done|by rewrite !flat_cons, IH| |by etrans].
  rewrite !flat_cons, !app_assoc. by rewrite (Permutation_app_comm (cd_members d')).
Qed.

(** Replacing the domain at an index. *)
Lemma flat_insert domains i d d' rest t t' :
  domains !! i = Some d → cd_members d ≡ₚ t :: rest → cd_members d' ≡ₚ t' :: rest →
  ∃ others, flat domains ≡ₚ t :: others ∧ flat (<[i := d']> domains) ≡ₚ t' :: others.
Proof.
  intros Hi Hd Hd'. exists (rest ++ flat (take i domains ++ drop (S i) domains)). split.
  - rewrite <-(take_drop_middle domains i d Hi) at 1. rewrite <-Permutation_middle, flat_cons, Hd. done.
  - rewrite insert_take_drop by (apply lookup_lt_Some in Hi; done).
    rewrite <-Permutation_middle, flat_cons, Hd'. done.
Qed.

(** ** Grouping *)

Section grouping.
Context (fd : FailureDomain).

Definition in_domain (d : CandidateDomain) : Prop :=
  ∀ t, t ∈ cd_members d → target_domain_key fd (ta_target t) = Ok (cd_key d).

Abbreviation groups := (gmap (list byte) (list TargetAllocatorState)).

Definition flat_groups (g : groups) : list TargetAllocatorState := mjoin ((map_to_list g).*2).

Lemma flat_groups_push (g : groups) key c : flat_groups (<[key := default [] (g !! key) ++ [c]]> g) ≡ₚ c :: flat_groups g.
Proof.
  unfold flat_groups. destruct (g !! key) as [l|] eqn:E; cbn [default].
  - rewrite <-insert_delete_eq. rewrite map_to_list_insert by apply lookup_delete_eq.
    rewrite <-(map_to_list_delete g key l E). cbn. rewrite (Permutation_app_comm l [c]). done.
  - rewrite map_to_list_insert by done. done.
Qed.

Definition group_step (grouped : groups) (c : TargetAllocatorState) : result Status groups :=
  key ← target_domain_key fd (ta_target c); Ok (<[key := default [] (grouped !! key) ++ [c]]> grouped).

Lemma group_fold (candidates : list TargetAllocatorState) (g g' : groups) :
  try_fold group_step g candidates = Ok g' →
  (∀ k l t, g !! k = Some l → t ∈ l → target_domain_key fd (ta_target t) = Ok k) →
  (∀ k l t, g' !! k = Some l → t ∈ l → target_domain_key fd (ta_target t) = Ok k) ∧
  flat_groups g' ≡ₚ candidates ++ flat_groups g.
Proof.
  revert g. induction candidates as [|c candidates IH]; intros g H Hg; cbn in H.
  { injection H as <-. done. }
  apply result_bind_Ok in H as (g1 & H1 & H). unfold group_step in H1. apply result_bind_Ok in H1 as (key & Hkey & H1).
  injection H1 as <-. destruct (IH _ H) as [I1 I2].
  { intros k l t [[<- <-]|[Hne Hl]]%lookup_insert_Some Ht; [|by eapply Hg].
    apply elem_of_app in Ht as [Ht|Ht]; [|apply list_elem_of_singleton in Ht as ->; done].
    destruct (g !! key) as [l0|] eqn:E; [|by apply elem_of_nil in Ht]. by eapply Hg. }
  split; [done|]. rewrite I2, flat_groups_push. cbn. symmetry. apply Permutation_middle.
Qed.

Lemma flat_of_groups (l : list (list byte * list TargetAllocatorState)) :
  flat ((fun '(key, members) => mkDomain key (sort_domain_members members)) <$> l) ≡ₚ mjoin (l.*2).
Proof.
  induction l as [|[k ms] l IH]; [done|]. rewrite fmap_cons, flat_cons, IH. cbn [cd_members].
  unfold sort_domain_members at 1. by rewrite sort_by_perm.
Qed.

Lemma candidate_domains_ok candidates domains :
  candidate_domains_from_targets fd candidates = Ok domains →
  flat domains ≡ₚ candidates ∧ NoDup (cd_key <$> domains) ∧ Forall in_domain domains.
Proof.
  unfold candidate_domains_from_targets. intros H. apply result_bind_Ok in H as (g & Hg & H).
  apply (group_fold candidates ∅ g) in Hg as [Hkeys Hflat]; [|by intros k l t Hl%lookup_empty_Some].
  apply Ok_inj in H as <-. split_and!.
  - rewrite sort_by_perm, flat_of_groups. fold (flat_groups g). rewrite Hflat. unfold flat_groups.
    rewrite map_to_list_empty. cbn. by rewrite app_nil_r.
  - rewrite sort_by_perm, <-list_fmap_compose. rewrite (list_fmap_ext _ fst _); [apply NoDup_fst_map_to_list|by intros i [k ms] _].
  - rewrite sort_by_perm. apply Forall_fmap, Forall_forall. intros [k ms] Hin%elem_of_map_to_list t Ht. cbn in *.
    unfold sort_domain_members in Ht. rewrite elem_of_sort_by in Ht. by eapply Hkeys.
Qed.

Lemma candidate_domains_total candidates : fd ≠ Unspecified → ∃ domains, candidate_domains_from_targets fd candidates = Ok domains.
Proof.
  intros Hfd. unfold candidate_domains_from_targets. fold group_step.
  assert (∃ g, try_fold group_step ∅ candidates = Ok g) as [g ->]; [|cbn; eauto].
  generalize (∅ : groups). induction candidates as [|c candidates IH]; intros g; cbn; [eauto|].
  assert (∃ key, target_domain_key fd (ta_target c) = Ok key) as [key Hkey] by (destruct fd; [done|cbn; eauto..]).
  assert (group_step g c = Ok (<[key := default [] (g !! key) ++ [c]]> g)) as -> by (unfold group_step; by rewrite Hkey).
  apply IH.
Qed.
End grouping.

(** ** Heads of domains *)

Lemma domain_head_pos d t : t ∈ cd_members d → usable_member t = true → 0 < domain_head_free d.
Proof.
  intros Ht Hu. unfold domain_head_free, domain_head_index.
  destruct (list_find_elem_of (fun t => usable_member t = true) _ _ Ht Hu) as [[i u] Hf]. rewrite Hf. cbn.
  apply list_find_Some in Hf as (Hl & Hu' & _). rewrite Hl. unfold usable_member in Hu'. apply andb_prop in Hu' as [Hu' _]. lia.
Qed.

Lemma domain_head_Some d : 0 < domain_head_free d → ∃ i t, domain_head_index d = Some i ∧ cd_members d !! i = Some t ∧ usable_member t = true.
Proof.
  unfold domain_head_free. destruct (domain_head_index d) as [i|] eqn:E; [|cbn; lia]. intros _. exists i.
  unfold domain_head_index in E. destruct (list_find _ (cd_members d)) as [[j t]|] eqn:F; [|done]. injection E as ->.
  apply list_find_Some in F as (Hl & Hu & _). by exists t.
Qed.

Lemma viable_elem domains i : i ∈ viable domains ↔ ∃ d, domains !! i = Some d ∧ 0 < domain_head_free d.
Proof.
  unfold viable. rewrite list_elem_of_omap. split.
  - intros ([j d] & Hin & E). apply list_elem_of_lookup in Hin as (k & Hk). rewrite list_lookup_imap in Hk.
    destruct (domains !! k) as [d'|] eqn:Hd; [|done]. injection Hk as -> ->. destruct (Z.ltb_spec 0 (domain_head_free d)); [|done].
    injection E as ->. by exists d.
  - intros (d & Hd & Hf). exists (i, d). split; [|by rewrite (proj2 (Z.ltb_lt _ _))].
    apply list_elem_of_lookup. exists i. by rewrite list_lookup_imap, Hd.
Qed.

Lemma viable_NoDup domains : NoDup (viable domains).
Proof.
  unfold viable. assert (∀ k, NoDup (omap (fun '(i, d) => if 0 <? domain_head_free d then Some i else None) (imap (fun i d => (k + i, d)%nat) domains)) ∧
    ∀ i, i ∈ omap (fun '(i, d) => if 0 <? domain_head_free d then Some i else None) (imap (fun i d => (k + i, d)%nat) domains) → (k ≤ i)%nat) as H.
  { induction domains as [|d domains IH]; intros k; [split; [constructor|by intros i Hi%elem_of_nil]|]. cbn [imap].
    destruct (IH (S k)) as [I1 I2].
    assert (imap ((λ (i : nat) (d : CandidateDomain), (k + i, d)%nat) ∘ S) domains = imap (λ (i : nat) (d : CandidateDomain), (S k + i, d)%nat) domains) as ->
      by (apply imap_ext; intros i x _; cbn; by rewrite Nat.add_succ_r).
    cbn [omap list_omap]. rewrite Nat.add_0_r. destruct (0 <? domain_head_free d).
    - split.
      + constructor; [|exact I1]. intros Hk%I2. lia.
      + intros i [->|Hi%I2]%elem_of_cons; lia.
    - split; [exact I1|]. intros i Hi%I2. lia. }
  exact (proj1 (H 0%nat)).
Qed.

Lemma elem_of_take_viable n domains i : i ∈ take n (viable domains) → ∃ d, domains !! i = Some d ∧ 0 < domain_head_free d.
Proof. intros Hi. apply viable_elem. eapply elem_of_sublist; [exact Hi|apply sublist_take]. Qed.

(** ** The invariant of planning *)

Definition taken_of (placements : list PlacementReservation) : list (list byte * Z) :=
  (fun p => (pr_target_id p, pr_granule_index p)) <$> placements.

Definition taken (reservations : list PlacementReservationRecord) : list (list byte * Z) :=
  reservations ≫= fun r => taken_of (rr_placements r).

Section plan.
Context (bias : list byte → list byte → Z) (uuid : Z → list byte) (fd : FailureDomain)
  (T : gmap (list byte) TargetAllocatorState) (ids : list (list byte)).

(** A target as planned: that of the state without the granules taken. *)
Definition planned (dirty : gset (list byte)) (tk : list (list byte * Z)) (t : TargetAllocatorState) : Prop :=
  ∃ e, T !! ta_id t = Some e ∧ t = mkTargetState (with_free_granules (ta_free t) (ta_target e)) (ta_spans t) ∧ target_ok t ∧
    (∀ g, is_free (ta_spans t) g ↔ is_free (ta_spans e) g ∧ (ta_id t, g) ∉ tk) ∧ (ta_id t ∉ dirty → t = e).

Record plan_inv (D : list CandidateDomain) (dirty : gset (list byte)) (tk : list (list byte * Z)) : Prop := {
  pi_ids : NoDup (ta_id <$> flat D);
  pi_planned : Forall (planned dirty tk) (flat D);
  pi_taken : NoDup tk;
  pi_taken_free : ∀ id g, (id, g) ∈ tk → id ∈ dirty ∧ ∃ e, T !! id = Some e ∧ is_free (ta_spans e) g;
  pi_dirty : ∀ id, id ∈ dirty → id ∈ ids;
  pi_same : ta_id <$> flat D ≡ₚ ids;
  pi_keys : NoDup (cd_key <$> D);
  pi_domain : Forall (in_domain fd) D;
}.

Lemma plan_inv_perm D D' dirty tk : D ≡ₚ D' → plan_inv D dirty tk → plan_inv D' dirty tk.
Proof. intros Hp []. split; try done; by rewrite <-Hp. Qed.

Definition domain_of_placement (p : PlacementReservation) : option (list byte) :=
  e ← T !! pr_target_id p; result_ok (target_domain_key fd (ta_target e)).

Lemma planned_domain_key dirty tk t :
  planned dirty tk t → result_ok (target_domain_key fd (ta_target t)) = e ← T !! ta_id t; result_ok (target_domain_key fd (ta_target e)).
Proof. intros (e & He & Ht & _). rewrite He. cbn. rewrite Ht. by destruct fd. Qed.

(** What taking a granule does to the target it is taken from, and to the others. *)
Lemma planned_taken dirty tk c g spans' :
  planned dirty tk c → spans_from 0 (tr_granule_count (ta_target c)) spans' →
  is_free (ta_spans c) g → (∀ x, is_free spans' x ↔ is_free (ta_spans c) x ∧ x ≠ g) →
  planned ({[ta_id c]} ∪ dirty) (tk ++ [(ta_id c, g)]) (with_spans spans' c).
Proof.
  intros (e & He & Hc & Hok & Hf & _) Hs' Hg Hx. exists e. split_and!.
  - done.
  - rewrite Hc at 1. done.
  - by apply with_spans_ok.
  - intros x. unfold with_spans. cbn. rewrite Hx, Hf, elem_of_app, list_elem_of_singleton. naive_solver.
  - intros Hn. cbn in Hn. set_solver.
Qed.

Lemma planned_other dirty tk c g t : ta_id t ≠ ta_id c → planned dirty tk t → planned ({[ta_id c]} ∪ dirty) (tk ++ [(ta_id c, g)]) t.
Proof.
  intros Hne (e & He & Ht & Hok & Hf & Hd). exists e. split_and!; [done..| |].
  - intros x. rewrite Hf, elem_of_app, list_elem_of_singleton. naive_solver.
  - intros Hn. apply Hd. set_solver.
Qed.

(** Taking a granule from one target keeps the invariant. *)
Lemma plan_inv_take D D' dirty tk c g spans' others :
  plan_inv D dirty tk → flat D ≡ₚ c :: others → flat D' ≡ₚ with_spans spans' c :: others →
  cd_key <$> D' = cd_key <$> D → Forall (in_domain fd) D' →
  spans_from 0 (tr_granule_count (ta_target c)) spans' → is_free (ta_spans c) g →
  (∀ x, is_free spans' x ↔ is_free (ta_spans c) x ∧ x ≠ g) →
  plan_inv D' ({[ta_id c]} ∪ dirty) (tk ++ [(ta_id c, g)]).
Proof.
  intros HI Ho1 Ho2 Hkeys Hdom Hs' Hg Hx.
  pose proof (pi_ids _ _ _ HI) as Hnd. rewrite Ho1 in Hnd. cbn in Hnd. apply NoDup_cons in Hnd as [Hnin Hnd].
  pose proof (pi_planned _ _ _ HI) as Hall. rewrite Ho1 in Hall. apply Forall_cons in Hall as [Hc Hall].
  pose proof Hc as (e & He & _ & _ & Hfree & _). split.
  - rewrite Ho2. cbn. by apply NoDup_cons.
  - rewrite Ho2. apply Forall_cons. split; [by apply planned_taken|]. rewrite Forall_forall in *. intros t Ht.
    apply planned_other; [|by apply Hall]. intros E. apply Hnin. rewrite <-E. by apply list_elem_of_fmap_2.
  - apply NoDup_app. split_and!; [apply HI| |apply NoDup_singleton]. intros q Hq ->%list_elem_of_singleton. by apply Hfree in Hg as [_ ?].
  - intros q x [Hq|[= -> ->]%list_elem_of_singleton]%elem_of_app.
    + apply (pi_taken_free _ _ _ HI) in Hq as [? ?]. split; [set_solver|done].
    + split; [set_solver|]. exists e. split; [done|]. by apply Hfree.
  - intros q. rewrite elem_of_union, elem_of_singleton. intros [->|Hq]; [|by apply (pi_dirty _ _ _ HI)].
    rewrite <-(pi_same _ _ _ HI), Ho1. by left.
  - rewrite <-(pi_same _ _ _ HI), Ho1, Ho2. done.
  - rewrite Hkeys. apply HI.
  - done.
Qed.

Lemma reserve_fragment_ok D dirty tk id placements i d :
  plan_inv D dirty tk → D !! i = Some d → 0 < domain_head_free d →
  ∃ D' c g p, reserve_fragment id (D, dirty, placements) i = Ok (D', {[ta_id c]} ∪ dirty, placements ++ [p]) ∧
    pr_target_id p = ta_id c ∧ pr_granule_index p = g ∧ pr_reservation_id p = id ∧ domain_of_placement p = Some (cd_key d) ∧
    plan_inv D' ({[ta_id c]} ∪ dirty) (tk ++ [(ta_id c, g)]) ∧ cd_key <$> D' = cd_key <$> D ∧ ∀ j, j ≠ i → D' !! j = D !! j.
Proof.
  intros HI Hd Hf. destruct (domain_head_Some d Hf) as (m & c & Hm & Hc & Hu).
  pose proof (proj1 (Forall_forall _ _) (pi_domain _ _ _ HI) d ltac:(by eapply list_elem_of_lookup_2)) as Hdom.
  assert (c ∈ cd_members d) as Hcd by (by eapply list_elem_of_lookup_2).
  assert (c ∈ flat D) as Hin by (apply elem_of_flat; exists d; split; [by eapply list_elem_of_lookup_2|done]).
  pose proof (proj1 (Forall_forall _ _) (pi_planned _ _ _ HI) c Hin) as Hpl. pose proof Hpl as (e & He & Hce & Hok & Hfree & _).
  assert (ta_spans c ≠ []) as Hne by (by apply target_ok_usable). pose proof Hok as (Hcount & Hs & _).
  destruct (allocate_one_Some 0 (tr_granule_count (ta_target c)) (ta_spans c) ltac:(lia) ltac:(lia) Hs Hne)
    as (g & spans' & Ha & Hs' & Hg & Hx & _).
  set (d' := mkDomain (cd_key d) (sort_domain_members (<[m := with_spans spans' c]> (cd_members d)))).
  assert (cd_members d ≡ₚ c :: delete m (cd_members d)) as Hp1 by (by apply delete_Permutation).
  assert (cd_members d' ≡ₚ with_spans spans' c :: delete m (cd_members d)) as Hp2.
  { unfold d', sort_domain_members. cbn [cd_members]. rewrite sort_by_perm.
    rewrite insert_take_drop by (by eapply lookup_lt_Some). rewrite <-Permutation_middle, delete_take_drop. done. }
  assert (cd_key <$> <[i := d']> D = cd_key <$> D) as Hkeys.
  { rewrite list_fmap_insert. cbn. apply list_insert_id. by rewrite list_lookup_fmap, Hd. }
  exists (<[i := d']> D), c, g, (mkPlacement (ta_id c) (tr_endpoint (ta_target c)) g (wrap 32 (len placements)) id (wrap 32 (len placements))).
  split. { unfold reserve_fragment. rewrite Hd. cbn. rewrite Hm. cbn. rewrite Hc. cbn. rewrite Ha. cbn. done. }
  split_and!; [done..| | |done|].
  - unfold domain_of_placement. cbn. rewrite <-(planned_domain_key _ _ _ Hpl). by rewrite (Hdom c Hcd).
  - destruct (flat_insert D i d d' _ _ _ Hd Hp1 Hp2) as (others & Ho1 & Ho2).
    apply (plan_inv_take D _ dirty tk c g spans' others); [done..| |done|done|done].
    apply Forall_insert; [apply HI|]. intros t Ht. change (cd_key d') with (cd_key d). rewrite Hp2 in Ht.
    apply elem_of_cons in Ht as [->|Ht]; [|apply Hdom; rewrite Hp1; by right]. rewrite <-(Hdom c Hcd). by destruct fd.
  - intros j Hj. by apply list_lookup_insert_ne.
Qed.

(** All fragments of a reservation. *)
Lemma reserve_fragments_ok id sel D dirty tk placements :
  plan_inv D dirty tk → NoDup sel → Forall (fun i => ∃ d, D !! i = Some d ∧ 0 < domain_head_free d) sel →
  ∃ D' dirty' new, try_fold (reserve_fragment id) (D, dirty, placements) sel = Ok (D', dirty', placements ++ new) ∧
    plan_inv D' dirty' (tk ++ taken_of new) ∧ cd_key <$> D' = cd_key <$> D ∧ Forall (fun p => pr_reservation_id p = id) new ∧
    domain_of_placement <$> new = (fun i => (cd_key <$> D) !! i) <$> sel.
Proof.
  revert D dirty tk placements. induction sel as [|i sel IH]; intros D dirty tk placements HI Hnd Hsel.
  { exists D, dirty, []. cbn. rewrite !app_nil_r. by split_and!. }
  apply NoDup_cons in Hnd as [Hi Hnd]. apply Forall_cons in Hsel as [(d & Hd & Hf) Hsel].
  destruct (reserve_fragment_ok D dirty tk id placements i d HI Hd Hf) as (D1 & c & g & p & E & Ep & Eg & Er & Edom & HI1 & Hk1 & Hl1).
  destruct (IH D1 ({[ta_id c]} ∪ dirty) (tk ++ [(ta_id c, g)]) (placements ++ [p]) HI1 Hnd) as (D2 & dirty2 & new & E2 & HI2 & Hk2 & Hr2 & Hdom2).
  { rewrite Forall_forall in *. intros j Hj. rewrite Hl1 by (intros ->; done). by apply Hsel. }
  exists D2, dirty2, (p :: new). cbn [try_fold]. rewrite E. cbn. rewrite E2, <-!app_assoc. cbn. split_and!.
  - done.
  - rewrite Ep, Eg. rewrite <-app_assoc in HI2. exact HI2.
  - by rewrite Hk2.
  - by constructor.
  - f_equal; [by rewrite Edom, list_lookup_fmap, Hd|]. rewrite Hdom2, Hk1. done.
Qed.

(** A reservation in different failure domains. *)
Definition reservation_good (n : nat) (r : PlacementReservationRecord) : Prop :=
  rr_state r = RESERVATION_STATE_RESERVED ∧ length (rr_placements r) = n ∧
  Forall (fun p => pr_reservation_id p = rr_reservation_id r) (rr_placements r) ∧
  Forall (fun p => is_Some (domain_of_placement p)) (rr_placements r) ∧ NoDup (domain_of_placement <$> rr_placements r).

Lemma plan_loop_ok n explicit prefix expires indexes D dirty tk reservations :
  plan_inv D dirty tk →
  ∃ D' dirty' new, plan_loop bias uuid n explicit prefix expires indexes D dirty reservations = Ok (D', dirty', reservations ++ new) ∧
    plan_inv D' dirty' (tk ++ taken new) ∧ Forall (reservation_good n) new ∧
    rr_reservation_id <$> new = take (length new) (reservation_id_of uuid explicit prefix <$> indexes) ∧
    rr_expires_at_unix_ms <$> new = take (length new) (batch_expiry expires <$> indexes) ∧
    ((length new < length indexes)%nat → (length (viable D') < n)%nat).
Proof.
  revert D dirty tk reservations. induction indexes as [|b indexes IH]; intros D dirty tk reservations HI.
  { exists D, dirty, []. cbn. rewrite !app_nil_r. split_and!; try done. lia. }
  cbn [plan_loop]. set (id := reservation_id_of uuid explicit prefix b). set (D1 := sort_candidate_domains bias id D).
  assert (plan_inv D1 dirty tk) as HI1 by (eapply plan_inv_perm; [|exact HI]; symmetry; apply sort_by_perm).
  destruct (Nat.eqb_spec (length (take n (viable D1))) n) as [El|El]; cbn [negb].
  2:{ exists D1, dirty, []. rewrite !app_nil_r. split_and!; try done. intros _. rewrite length_take in El. lia. }
  destruct (reserve_fragments_ok id (take n (viable D1)) D1 dirty tk [] HI1) as (D2 & dirty2 & new & E2 & HI2 & Hk2 & Hr2 & Hdom2).
  { eapply sublist_NoDup; [apply viable_NoDup|apply sublist_take]. }
  { apply Forall_forall. apply elem_of_take_viable. }
  rewrite E2. cbn [mbind result_mbind result_bind app]. change (Ok (D2, dirty2, new) ≫= ?f) with (f (D2, dirty2, new)).
  cbn beta iota.
  set (r := mkReservation id RESERVATION_STATE_RESERVED new (batch_expiry expires b)).
  destruct (IH D2 dirty2 (tk ++ taken_of new) (reservations ++ [r]) HI2) as (D3 & dirty3 & new3 & E3 & HI3 & Hg3 & Hid3 & Hex3 & Hv3).
  exists D3, dirty3, (r :: new3). rewrite E3, <-app_assoc. split_and!.
  - done.
  - cbn. rewrite <-app_assoc in HI3. exact HI3.
  - constructor; [|done]. unfold r, reservation_good. cbn.
    assert (length new = n) as Hlen by (rewrite <-(length_fmap domain_of_placement), Hdom2, length_fmap; done).
    split_and!; try done.
    + assert (Forall is_Some (domain_of_placement <$> new)) as Hall; [|by rewrite Forall_fmap in Hall].
      rewrite Hdom2. apply Forall_fmap, Forall_forall. intros i Hi. cbn.
      apply elem_of_take_viable in Hi as (d & Hd & _). by rewrite list_lookup_fmap, Hd.
    + rewrite Hdom2. apply NoDup_fmap_2_strong; [|eapply sublist_NoDup; [apply viable_NoDup|apply sublist_take]].
      intros i j Hi Hj E. apply elem_of_take_viable in Hi as (d & Hd & _).
      eapply (NoDup_lookup (cd_key <$> D1)); [apply HI1|rewrite list_lookup_fmap, Hd; done|]. rewrite <-E, list_lookup_fmap, Hd. done.
  - cbn. by f_equal.
  - cbn. by f_equal.
  - cbn. intros Hlt. apply Hv3. lia.
Qed.
End plan.
