(* ===== verification/KasReserve.v ===== *)
(** The allocator's invariant: the free granules of the targets and the granules of the
    reservations are all different. Every operation on the state in memory keeps it;
    reserving a batch of stripes does. *)
From S2P Require Import Prelude Bytes Sorts Fdb KmsKeys KmsValues KmsStore Placement Kas KasPlan.

Abbreviation by_id := (@gmap (list byte) (@list_eq_dec byte byte_eq_dec) (@list_countable byte byte_eq_dec byte_countable)).
Abbreviation targets := (by_id TargetAllocatorState).
Abbreviation reservations := (by_id PlacementReservationRecord).

(** ** Fields of an updated state *)

Section fields.
Context (s : AllocatorState) (T : targets) (R : reservations) (B : by_id (list (list byte))) (C : by_id (gset Z)) (a b : bool).

Lemma targets_set_targets : al_targets (set_targets T s) = T.
Proof. done. Qed.
Lemma targets_set_reservations : al_targets (set_reservations R s) = al_targets s.
Proof. done. Qed.
Lemma targets_set_bins : al_targets (set_bins B s) = al_targets s.
Proof. done. Qed.
Lemma targets_set_committed : al_targets (set_committed C s) = al_targets s.
Proof. done. Qed.
Lemma reservations_set_targets : al_reservations (set_targets T s) = al_reservations s.
Proof. done. Qed.
Lemma reservations_set_reservations : al_reservations (set_reservations R s) = R.
Proof. done. Qed.
Lemma reservations_set_bins : al_reservations (set_bins B s) = al_reservations s.
Proof. done. Qed.
Lemma reservations_set_committed : al_reservations (set_committed C s) = al_reservations s.
Proof. done. Qed.
Lemma committed_set_targets : al_committed_granules (set_targets T s) = al_committed_granules s.
Proof. done. Qed.
Lemma committed_set_reservations : al_committed_granules (set_reservations R s) = al_committed_granules s.
Proof. done. Qed.
Lemma committed_set_bins : al_committed_granules (set_bins B s) = al_committed_granules s.
Proof. done. Qed.
End fields.

Create Rewrite HintDb alloc.
#[export] Hint Rewrite targets_set_targets targets_set_reservations targets_set_bins targets_set_committed
  reservations_set_targets reservations_set_reservations reservations_set_bins reservations_set_committed
  committed_set_targets committed_set_reservations committed_set_bins : alloc.

(** What operations on targets and reservations leave alone. *)
Definition same_meta (s s' : AllocatorState) : Prop :=
  al_stamp s' = al_stamp s ∧ al_target_state_loaded s' = al_target_state_loaded s ∧
  al_reservation_state_loaded s' = al_reservation_state_loaded s ∧ al_committed_granules s' = al_committed_granules s.

Lemma same_meta_refl s : same_meta s s.
Proof. done. Qed.
Lemma same_meta_trans s1 s2 s3 : same_meta s1 s2 → same_meta s2 s3 → same_meta s1 s3.
Proof. unfold same_meta. intuition congruence. Qed.

Definition targets_ok (T : targets) : Prop := ∀ id t, T !! id = Some t → ta_id t = id ∧ target_ok t.

Definition free_at (T : targets) (q : list byte * Z) : Prop := ∃ t, T !! q.1 = Some t ∧ is_free (ta_spans t) q.2.

(** A granule is held by a reservation. *)
Definition holds (r : PlacementReservationRecord) (q : list byte * Z) : Prop := q ∈ taken_of (rr_placements r).
Definition held (R : reservations) (q : list byte * Z) : Prop := ∃ id r, R !! id = Some r ∧ holds r q.

Record alloc_ok (T : targets) (R : reservations) : Prop := {
  ao_targets : targets_ok T;
  ao_ids : ∀ id r, R !! id = Some r → rr_reservation_id r = id ∧ rr_state r = RESERVATION_STATE_RESERVED;
  ao_once : ∀ id r, R !! id = Some r → NoDup (taken_of (rr_placements r));
  ao_apart : ∀ id1 r1 id2 r2 q, R !! id1 = Some r1 → R !! id2 = Some r2 → holds r1 q → holds r2 q → id1 = id2;
  ao_held : ∀ q, held R q → ∃ t, T !! q.1 = Some t ∧ 0 ≤ q.2 < tr_granule_count (ta_target t) ∧ ¬ is_free (ta_spans t) q.2;
}.

Lemma alloc_not_free T R q : alloc_ok T R → held R q → ¬ free_at T q.
Proof. intros HI Hq (t & Ht & Hf). destruct (ao_held _ _ HI q Hq) as (t' & Ht' & _ & Hn). rewrite Ht in Ht'. by injection Ht' as <-. Qed.

(** ** Fewer reservations, or less in them *)

(** [R'] holds no granule that [R] does not hold under the same id. *)
Definition shrinks (R R' : reservations) : Prop :=
  ∀ id r', R' !! id = Some r' → ∃ r, R !! id = Some r ∧ rr_reservation_id r' = rr_reservation_id r ∧ rr_state r' = rr_state r ∧
    sublist (taken_of (rr_placements r')) (taken_of (rr_placements r)).

Lemma shrinks_refl R : shrinks R R.
Proof. intros id r Hr. by exists r. Qed.

Lemma shrinks_delete R id : shrinks R (delete id R).
Proof. intros id' r [Hne Hr]%lookup_delete_Some. by exists r. Qed.

Lemma shrinks_held R R' q : shrinks R R' → held R' q → held R q.
Proof. intros H (id & r' & Hr' & Hq). destruct (H id r' Hr') as (r & Hr & _ & _ & Hsub). exists id, r. split; [done|]. by eapply elem_of_sublist. Qed.

Lemma shrinks_ok T R R' : alloc_ok T R → shrinks R R' → alloc_ok T R'.
Proof.
  intros HI H. split.
  - apply HI.
  - intros id r' Hr'. destruct (H id r' Hr') as (r & Hr & -> & -> & _). by apply HI.
  - intros id r' Hr'. destruct (H id r' Hr') as (r & Hr & _ & _ & Hsub). eapply sublist_NoDup; [by eapply HI|done].
  - intros id1 r1 id2 r2 q H1 H2 Hq1 Hq2. destruct (H id1 r1 H1) as (s1 & K1 & _ & _ & S1), (H id2 r2 H2) as (s2 & K2 & _ & _ & S2).
    eapply (ao_apart _ _ HI id1 s1 id2 s2 q); [done..|exact (elem_of_sublist _ _ _ Hq1 S1)|exact (elem_of_sublist _ _ _ Hq2 S2)].
  - intros q Hq. apply HI. by eapply shrinks_held.
Qed.

(** ** Targets that keep their spans *)

(** The same targets, up to what does not concern granules. *)
Definition same_spans (T T' : targets) : Prop :=
  ∀ id, match T !! id, T' !! id with
        | Some t, Some t' => ta_spans t' = ta_spans t ∧ ta_free t' = ta_free t ∧ ta_id t' = ta_id t ∧
                             tr_granule_count (ta_target t') = tr_granule_count (ta_target t)
        | None, None => True
        | _, _ => False
        end.

Lemma same_spans_ok T T' R : alloc_ok T R → same_spans T T' → alloc_ok T' R.
Proof.
  intros HI H. split; try apply HI.
  - intros id t' Ht'. specialize (H id). rewrite Ht' in H. destruct (T !! id) as [t|] eqn:Ht; [|done].
    destruct H as (Hs & Hf & Hid & Hc). destruct (ao_targets _ _ HI id t Ht) as [Ei (K1 & K2 & K3)].
    split; [congruence|]. unfold target_ok. rewrite Hs, Hf, Hc. done.
  - intros q Hq. destruct (ao_held _ _ HI q Hq) as (t & Ht & Hr & Hn). specialize (H q.1). rewrite Ht in H.
    destruct (T' !! q.1) as [t'|]; [|done]. destruct H as (Hs & _ & _ & Hc). exists t'. by rewrite Hs, Hc.
Qed.

(** ** Targets whose spans change *)

(** The same targets with other, well-formed spans. *)
Definition evolves (T T' : targets) : Prop :=
  ∀ id, match T !! id, T' !! id with
        | Some t, Some t' => t' = mkTargetState (with_free_granules (ta_free t') (ta_target t)) (ta_spans t') ∧ target_ok t'
        | None, None => True
        | _, _ => False
        end.

Lemma evolves_refl T : targets_ok T → evolves T T.
Proof. intros H id. destruct (T !! id) as [t|] eqn:E; [|done]. split; [by destruct t as [[]]|]. by apply (H id). Qed.

Lemma evolves_trans T1 T2 T3 : evolves T1 T2 → evolves T2 T3 → evolves T1 T3.
Proof.
  intros H1 H2 id. specialize (H1 id). specialize (H2 id). destruct (T1 !! id), (T2 !! id), (T3 !! id); try done.
  destruct H1 as [E1 _], H2 as [E2 Hok]. split; [|done]. rewrite E2, E1. done.
Qed.

Lemma evolves_targets_ok T T' : targets_ok T → evolves T T' → targets_ok T'.
Proof.
  intros H He id t' Ht'. specialize (He id). rewrite Ht' in He. destruct (T !! id) as [t|] eqn:Ht; [|done]. destruct He as [E Hok].
  split; [|done]. rewrite E. by apply (H id t).
Qed.

Lemma evolves_lookup T T' id t : evolves T T' → T !! id = Some t → ∃ t', T' !! id = Some t' ∧
  t' = mkTargetState (with_free_granules (ta_free t') (ta_target t)) (ta_spans t') ∧ target_ok t'.
Proof. intros H Ht. specialize (H id). rewrite Ht in H. destruct (T' !! id) as [t'|]; [|done]. by exists t'. Qed.

Lemma evolves_insert T id t spans :
  targets_ok T → T !! id = Some t → spans_from 0 (tr_granule_count (ta_target t)) spans → evolves T (<[id := with_spans spans t]> T).
Proof.
  intros HT Ht Hs id'. destruct (decide (id' = id)) as [->|Hne].
  - rewrite Ht, lookup_insert_eq. split; [done|]. apply with_spans_ok; [|done]. by apply (HT id).
  - rewrite lookup_insert_ne by done. by apply evolves_refl.
Qed.

Lemma evolves_ok T T' R R' :
  alloc_ok T R → evolves T T' → shrinks R R' → (∀ q, held R' q → ¬ free_at T' q) → alloc_ok T' R'.
Proof.
  intros HI He Hs Hn. pose proof (shrinks_ok _ _ _ HI Hs) as HI'. split; try apply HI'.
  - eapply evolves_targets_ok; [apply HI|done].
  - intros q Hq. destruct (ao_held _ _ HI' q Hq) as (t & Ht & Hr & _). destruct (evolves_lookup _ _ _ _ He Ht) as (t' & Ht' & E & _).
    exists t'. split_and!; [done|lia|rewrite E; cbn; lia|]. intros Hf. apply (Hn q Hq). by exists t'.
Qed.

(** The targets a step changes are among those it reports. *)
Definition only_dirty (T T' : targets) (dirty : gset (list byte)) : Prop := ∀ id, id ∉ dirty → T' !! id = T !! id.

(** ** Returning granules *)

Lemma release_at T id t g :
  targets_ok T → T !! id = Some t → 0 ≤ g < tr_granule_count (ta_target t) → ¬ is_free (ta_spans t) g →
  evolves T (<[id := with_spans (release_granule (ta_spans t) g) t]> T) ∧
  ∀ q, free_at (<[id := with_spans (release_granule (ta_spans t) g) t]> T) q ↔ free_at T q ∨ q = (id, g).
Proof.
  intros HT Ht Hr Hn. destruct (HT id t Ht) as [_ (Hc & Hs & _)].
  destruct (release_granule_ok 0 (tr_granule_count (ta_target t)) (ta_spans t) g) as (R1 & R2 & _); [lia|lia|done..|].
  split; [by apply evolves_insert|]. intros [id' x]. unfold free_at. cbn. destruct (decide (id' = id)) as [->|Hne].
  - rewrite lookup_insert_eq, Ht. split.
    + intros (u & [= <-] & Hf). cbn in Hf. apply R2 in Hf as [Hf| ->]; [left; by exists t|by right].
    + intros [(u & [= <-] & Hf)|[= ->]]; eexists; (split; [done|]); cbn; apply R2; auto.
  - rewrite lookup_insert_ne by done. naive_solver.
Qed.

Definition committed_at (s : AllocatorState) (q : list byte * Z) : Prop := q.2 ∈ default ∅ (al_committed_granules s !! q.1).

#[export] Instance committed_at_dec s q : Decision (committed_at s q).
Proof. unfold committed_at. apply _. Defined.

(** A placement on a known target, in its range. *)
Definition placement_in (T : targets) (p : PlacementReservation) : Prop :=
  ∃ t, T !! pr_target_id p = Some t ∧ 0 ≤ pr_granule_index p < tr_granule_count (ta_target t).

Lemma placement_in_evolves T T' p : evolves T T' → placement_in T p → placement_in T' p.
Proof.
  intros He (t & Ht & Hr). destruct (evolves_lookup _ _ _ _ He Ht) as (t' & Ht' & E & _). exists t'. split; [done|]. by rewrite E.
Qed.

Lemma release_placement_ok s dirty p :
  targets_ok (al_targets s) → placement_in (al_targets s) p →
  ∃ T' dirty', release_placement dirty p s = (set_targets T' s, Ok dirty') ∧ evolves (al_targets s) T' ∧ dirty ⊆ dirty' ∧
    only_dirty (al_targets s) T' dirty' ∧
    ∀ q, free_at T' q ↔ free_at (al_targets s) q ∨ (q ∈ taken_of [p] ∧ ¬ committed_at s q).
Proof.
  intros HT (t & Ht & Hr). unfold release_placement. unfold mbind, M_mbind, get_state.
  assert (al_targets s = al_targets (set_targets (al_targets s) s) ∧ s = set_targets (al_targets s) s) as [_ Es] by (by destruct s).
  case_bool_decide as Hc.
  { exists (al_targets s), dirty. rewrite <-Es. split_and!; [done|by apply evolves_refl|done..|]. intros q. cbn.
    rewrite list_elem_of_singleton. split; [by left|]. intros [?|[-> Hn]]; [done|]. by destruct Hn. }
  rewrite Ht. cbn. destruct (HT _ _ Ht) as [Eid (Hcount & Hs & _)].
  pose proof (granule_is_free_iff (tr_granule_count (ta_target t)) (ta_spans t) (pr_granule_index p) ltac:(by apply spans_from_weak) ltac:(lia)) as Hiff.
  destruct (granule_is_free (ta_spans t) (pr_granule_index p)) eqn:Ef.
  - exists (al_targets s), dirty. rewrite <-Es. split_and!; [done|by apply evolves_refl|done..|]. intros q.
    rewrite list_elem_of_singleton. split; [by left|]. intros [?|[-> _]]; [done|]. exists t. split; [done|]. by apply Hiff.
  - assert (¬ is_free (ta_spans t) (pr_granule_index p)) as Hn by (rewrite <-Hiff; congruence).
    destruct (release_at _ _ _ _ HT Ht Hr Hn) as [He Hf].
    eexists _, ({[ta_id t]} ∪ dirty). split_and!; [done|exact He|set_solver| |].
    + intros id Hid. apply lookup_insert_ne. set_solver.
    + intros q. rewrite Hf, list_elem_of_singleton. split; [|intuition].
      intros [?| ->]; [by left|]. right. split; [done|]. exact Hc.
Qed.

Lemma release_placements_ok ps s dirty :
  targets_ok (al_targets s) → Forall (placement_in (al_targets s)) ps →
  ∃ T' dirty', fold_m release_placement dirty ps s = (set_targets T' s, Ok dirty') ∧ evolves (al_targets s) T' ∧ dirty ⊆ dirty' ∧
    only_dirty (al_targets s) T' dirty' ∧
    ∀ q, free_at T' q ↔ free_at (al_targets s) q ∨ (q ∈ taken_of ps ∧ ¬ committed_at s q).
Proof.
  revert s dirty. induction ps as [|p ps IH]; intros s dirty HT Hps.
  { exists (al_targets s), dirty. split_and!; [by destruct s|by apply evolves_refl|done..|]. intros q. cbn. rewrite elem_of_nil. tauto. }
  apply Forall_cons in Hps as [Hp Hps]. destruct (release_placement_ok s dirty p HT Hp) as (T1 & d1 & E1 & He1 & Hd1 & Ho1 & Hf1).
  destruct (IH (set_targets T1 s) d1) as (T2 & d2 & E2 & He2 & Hd2 & Ho2 & Hf2).
  { by eapply evolves_targets_ok. }
  { eapply Forall_impl; [exact Hps|]. intros x. by apply placement_in_evolves. }
  cbn [al_targets set_targets] in *. exists T2, d2. split_and!.
  - cbn [fold_m]. rewrite (M_bind_run _ _ _ _ _ E1). exact E2.
  - by eapply evolves_trans.
  - set_solver.
  - intros id Hid. rewrite Ho2 by done. apply Ho1. set_solver.
  - intros q. rewrite Hf2, Hf1. unfold taken_of. cbn. rewrite list_elem_of_singleton, elem_of_cons. unfold committed_at. cbn. tauto.
Qed.

Lemma size_list_to_set_le (l : list (list byte)) : (size (list_to_set l : gset (list byte)) ≤ length l)%nat.
Proof.
  induction l as [|x l IH]; [done|]. cbn. rewrite size_union_alt, size_singleton.
  etrans; [apply (Nat.add_le_mono_l _ (size (list_to_set l : gset (list byte)))), subseteq_size; set_solver|]. lia.
Qed.

Lemma NoDup_fmap_inj_on {A B : Type} (f : A → B) (l : list A) x y : NoDup (f <$> l) → x ∈ l → y ∈ l → f x = f y → x = y.
Proof.
  intros Hnd Hx Hy E. apply list_elem_of_lookup in Hx as (i & Hi), Hy as (j & Hj).
  assert (i = j) as ->; [|congruence]. eapply (NoDup_lookup (f <$> l)); [done|rewrite list_lookup_fmap, Hi; done|].
  rewrite list_lookup_fmap, Hj. cbn. congruence.
Qed.

Lemma length_omap_le {A B : Type} (f : A → option B) (l : list A) : (length (omap f l) ≤ length l)%nat.
Proof. induction l as [|x l IH]; [done|]. cbn. destruct (f x); cbn; lia. Qed.

(** ** Writing the plan back *)

Lemma write_back_one fd T ids D dirty tk (Tc : targets) acc id :
  plan_inv fd T ids D dirty tk → id ∈ dirty → Tc !! id = T !! id →
  ∃ t, t ∈ flat D ∧ ta_id t = id ∧ write_back (flat D) (Tc, acc) id = (<[id := t]> Tc, acc ++ [t]).
Proof.
  intros HI Hid HT. apply (pi_dirty _ _ _ _ _ _ HI) in Hid. rewrite <-(pi_same _ _ _ _ _ _ HI) in Hid.
  apply list_elem_of_fmap in Hid as (t0 & E0 & Ht0). unfold write_back.
  destruct (list_find_elem_of (fun t => ta_id t = id) _ _ Ht0 (eq_sym E0)) as [[i t] Hf]. rewrite Hf. cbn [fst snd fmap option_fmap option_map].
  apply list_find_Some in Hf as (Hl & Eid & _). assert (t ∈ flat D) as Ht by (by eapply list_elem_of_lookup_2).
  pose proof (proj1 (Forall_forall _ _) (pi_planned _ _ _ _ _ _ HI) t Ht) as (e & He & Et & _).
  exists t. split_and!; [done..|]. rewrite HT, <-Eid, He. by rewrite <-Et.
Qed.

Lemma write_back_fold fd T ids D dirty tk l (Tc : targets) acc :
  plan_inv fd T ids D dirty tk → NoDup l → (∀ id, id ∈ l → id ∈ dirty ∧ Tc !! id = T !! id) →
  ∃ T' new, foldl (write_back (flat D)) (Tc, acc) l = (T', acc ++ new) ∧ ta_id <$> new = l ∧
    Forall (fun t => t ∈ flat D ∧ T' !! ta_id t = Some t) new ∧ ∀ id, id ∉ l → T' !! id = Tc !! id.
Proof.
  intros HI. revert Tc acc. induction l as [|id l IH]; intros Tc acc Hnd Hl.
  { exists Tc, []. cbn. rewrite app_nil_r. by split_and!. }
  apply NoDup_cons in Hnd as [Hnin Hnd]. destruct (Hl id ltac:(by left)) as [Hd Hid].
  destruct (write_back_one fd T ids D dirty tk Tc acc id HI Hd Hid) as (t & Ht & Et & E). cbn [foldl]. rewrite E.
  destruct (IH (<[id := t]> Tc) (acc ++ [t]) Hnd) as (T' & new & E' & Hids & Hnew & Hother).
  { intros j Hj. destruct (Hl j ltac:(by right)) as [? Hj']. split; [done|]. rewrite lookup_insert_ne; [done|]. by intros ->. }
  exists T', (t :: new). rewrite E', <-app_assoc. split_and!; [done|cbn; by rewrite Et, Hids| |].
  - constructor; [|done]. split; [done|]. rewrite Et, Hother by done. apply lookup_insert_eq.
  - intros j Hj%not_elem_of_cons. destruct Hj as [Hj1 Hj2]. rewrite Hother by done. by apply lookup_insert_ne.
Qed.

(** ** The reservations of a batch *)

(** Domains in which a granule can still be reserved. *)
Definition open_domains (fd : FailureDomain) (excluded : gset (list byte)) (banned : option (list byte)) (required : gset (list byte))
    (shard : option (list byte)) (T : targets) : gset (list byte) :=
  list_to_set (omap (fun t => result_ok (target_domain_key fd (ta_target t)))
    (filter (fun t => candidate excluded banned required shard t = true) ((map_to_list T).*2))).

(** What a batch does: [new] are its reservations, [dirty] the targets as stored. *)
Record reserved (fd : FailureDomain) (excluded : gset (list byte)) (banned : option (list byte)) (required : gset (list byte))
    (shard : option (list byte)) (batch_size : Z) (n : nat) (T T' : targets) (dirty : list TargetAllocatorState)
    (new : list PlacementReservationRecord) : Prop := {
  rd_evolves : evolves T T';
  rd_taken : NoDup (taken new);
  rd_free : ∀ q, free_at T' q ↔ free_at T q ∧ q ∉ taken new;
  rd_was_free : ∀ q, q ∈ taken new → free_at T q ∧ ∃ t, T !! q.1 = Some t ∧ candidate excluded banned required shard t = true;
  rd_good : Forall (reservation_good fd T n) new;
  rd_length : (length new ≤ Z.to_nat batch_size)%nat;
  rd_full : (length new < Z.to_nat batch_size)%nat → (size (open_domains fd excluded banned required shard T') < n)%nat;
  rd_dirty : Forall (fun t => T' !! ta_id t = Some t) dirty;
  rd_other : ∀ id, id ∉ ta_id <$> dirty → T' !! id = T !! id;
  rd_dirty_ids : NoDup (ta_id <$> dirty);
}.

Section reserve.
Context (bias : list byte → list byte → Z) (uuid : Z → list byte) (fd : FailureDomain) (excluded : gset (list byte))
  (banned : option (list byte)) (required : gset (list byte)) (shard : option (list byte)).

Abbreviation cands T := (filter (fun t => candidate excluded banned required shard t = true) ((map_to_list T).*2)).

Lemma elem_of_cands (T : targets) t : t ∈ cands T ↔ candidate excluded banned required shard t = true ∧ ∃ id, T !! id = Some t.
Proof.
  rewrite list_elem_of_filter, list_elem_of_fmap. apply and_iff_compat_l. split.
  - intros ([id u] & -> & Hu%elem_of_map_to_list). by exists id.
  - intros (id & Hid). exists (id, t). split; [done|]. by apply elem_of_map_to_list.
Qed.

Lemma cands_ids (T : targets) : targets_ok T → NoDup (ta_id <$> cands T).
Proof.
  intros HT. eapply sublist_NoDup; [|apply fmap_sublist, sublist_filter]. rewrite <-list_fmap_compose.
  rewrite (list_fmap_ext _ fst _); [apply NoDup_fst_map_to_list|]. intros i [id t] Ht. cbn.
  apply list_elem_of_lookup_2, elem_of_map_to_list in Ht. by apply (HT id t).
Qed.

Lemma plan_inv_start T D :
  targets_ok T → candidate_domains_from_targets fd (cands T) = Ok D → plan_inv fd T (ta_id <$> cands T) D ∅ [].
Proof.
  intros HT HD. destruct (candidate_domains_ok fd _ _ HD) as (Hp & Hk & Hd). split; [| | | | |by rewrite Hp|done|done].
  - rewrite Hp. by apply cands_ids.
  - rewrite Hp. apply Forall_forall. intros t Ht%elem_of_cands. destruct Ht as [_ (id & Hid)].
    destruct (HT id t Hid) as [Eid Hok]. exists t. rewrite Eid. split_and!; [done|by destruct t as [[]]|done| |done].
    intros g. rewrite elem_of_nil. tauto.
  - constructor.
  - by intros id g ?%elem_of_nil.
  - set_solver.
Qed.

(** A target that could still serve was planned with. *)
Lemma candidate_planned T D dirty tk (T' : targets) id t' :
  targets_ok T → plan_inv fd T (ta_id <$> cands T) D dirty tk →
  (∀ j, j ∉ dirty → T' !! j = T !! j) → (∀ t, t ∈ flat D → ta_id t ∈ dirty → T' !! ta_id t = Some t) →
  T' !! id = Some t' → candidate excluded banned required shard t' = true → t' ∈ flat D.
Proof.
  intros HT HI Hother Hdirty Ht' Hc.
  assert (id ∈ ta_id <$> flat D) as Hin.
  { destruct (decide (id ∈ dirty)) as [Hd|Hd].
    - rewrite (pi_same _ _ _ _ _ _ HI). by apply (pi_dirty _ _ _ _ _ _ HI).
    - rewrite (pi_same _ _ _ _ _ _ HI). rewrite Hother in Ht' by done. destruct (HT id t' Ht') as [<- _].
      apply list_elem_of_fmap_2, elem_of_cands. eauto. }
  apply list_elem_of_fmap in Hin as (t & Et & Ht). destruct (decide (id ∈ dirty)) as [Hd|Hd].
  - pose proof (Hdirty t Ht ltac:(by rewrite <-Et)) as E. rewrite <-Et, Ht' in E. by injection E as ->.
  - pose proof (proj1 (Forall_forall _ _) (pi_planned _ _ _ _ _ _ HI) t Ht) as (e & He & _ & _ & _ & Hsame).
    rewrite <-Et in He, Hsame. rewrite Hother in Ht' by done. rewrite He in Ht'. injection Ht' as <-. by rewrite <-(Hsame Hd).
Qed.

Lemma open_domains_viable T D dirty tk (T' : targets) :
  targets_ok T → plan_inv fd T (ta_id <$> cands T) D dirty tk →
  (∀ j, j ∉ dirty → T' !! j = T !! j) → (∀ t, t ∈ flat D → ta_id t ∈ dirty → T' !! ta_id t = Some t) →
  (size (open_domains fd excluded banned required shard T') ≤ length (viable D))%nat.
Proof.
  intros HT HI Hother Hdirty. unfold open_domains.
  assert (list_to_set (omap (fun t => result_ok (target_domain_key fd (ta_target t))) (cands T')) ⊆
          (list_to_set (omap (fun i => cd_key <$> D !! i) (viable D)) : gset (list byte))) as Hsub.
  { intros k. rewrite !elem_of_list_to_set, !list_elem_of_omap. intros (t & Ht & Hk). apply elem_of_cands in Ht as [Hc (id & Hid)].
    pose proof (candidate_planned T D dirty tk T' id t HT HI Hother Hdirty Hid Hc) as Hf.
    apply elem_of_flat in Hf as (d & Hd & Htd). pose proof (proj1 (Forall_forall _ _) (pi_domain _ _ _ _ _ _ HI) d Hd t Htd) as Hkey.
    rewrite Hkey in Hk. injection Hk as <-. apply list_elem_of_lookup in Hd as (i & Hi). exists i. rewrite Hi. split; [|done].
    apply viable_elem. exists d. split; [done|]. eapply domain_head_pos; [done|]. unfold candidate in Hc. bools. done. }
  etrans; [by apply subseteq_size|]. etrans; [apply size_list_to_set_le|]. apply length_omap_le.
Qed.

(** The plan written back gives the targets without the granules taken. *)
Lemma plan_written T D dirty tk T' new :
  targets_ok T → plan_inv fd T (ta_id <$> cands T) D dirty tk →
  ta_id <$> new = elements dirty → Forall (fun t => t ∈ flat D ∧ T' !! ta_id t = Some t) new →
  (∀ id, id ∉ elements dirty → T' !! id = T !! id) →
  evolves T T' ∧ (∀ q, free_at T' q ↔ free_at T q ∧ q ∉ tk) ∧ (∀ t, t ∈ flat D → ta_id t ∈ dirty → T' !! ta_id t = Some t).
Proof.
  intros HT HI Hids Hnew Hother. rewrite Forall_forall in Hnew.
  assert (∀ t, t ∈ flat D → ta_id t ∈ dirty → T' !! ta_id t = Some t) as Hdirty.
  { intros t Ht Hd. assert (ta_id t ∈ ta_id <$> new) as (u & Eu & Hu)%list_elem_of_fmap by (rewrite Hids; by apply elem_of_elements).
    destruct (Hnew u Hu) as [Hf Hl]. rewrite Eu, Hl. f_equal.
    eapply (NoDup_fmap_inj_on ta_id); [apply (pi_ids _ _ _ _ _ _ HI)|done..]. }
  assert (∀ id t, T !! id = Some t → ∃ t', T' !! id = Some t' ∧ t' = mkTargetState (with_free_granules (ta_free t') (ta_target t)) (ta_spans t') ∧
    target_ok t' ∧ ∀ g, is_free (ta_spans t') g ↔ is_free (ta_spans t) g ∧ (id, g) ∉ tk) as Hall.
  { intros id t Ht. destruct (decide (id ∈ dirty)) as [Hd|Hd].
    - assert (id ∈ ta_id <$> flat D) as (u & -> & Hu)%list_elem_of_fmap
        by (rewrite (pi_same _ _ _ _ _ _ HI); by apply (pi_dirty _ _ _ _ _ _ HI)).
      exists u. rewrite (Hdirty u Hu Hd). pose proof (proj1 (Forall_forall _ _) (pi_planned _ _ _ _ _ _ HI) u Hu) as (e & He & Eu & Hok & Hf & _).
      rewrite Ht in He. injection He as <-. done.
    - exists t. rewrite Hother by (by rewrite elem_of_elements). destruct (HT id t Ht) as [Eid Hok]. split_and!; [done|by destruct t as [[]]|done|].
      intros g. split; [|tauto]. intros Hg. split; [done|]. intros Hin. apply (pi_taken_free _ _ _ _ _ _ HI) in Hin as [? _]. done. }
  assert (∀ id, T !! id = None → T' !! id = None) as Hnone.
  { intros id Hid. destruct (decide (id ∈ dirty)) as [Hd|Hd]; [|by rewrite Hother by (by rewrite elem_of_elements)].
    apply (pi_dirty _ _ _ _ _ _ HI) in Hd. apply list_elem_of_fmap in Hd as (u & -> & Hu). apply elem_of_cands in Hu as [_ (j & Hj)].
    destruct (HT j u Hj) as [Ej _]. rewrite Ej, Hj in Hid. done. }
  split_and!; [| |done].
  - intros id. destruct (T !! id) as [t|] eqn:Ht; [|by rewrite Hnone]. destruct (Hall id t Ht) as (t' & -> & ? & ? & _). done.
  - intros [id g]. unfold free_at. cbn. destruct (T !! id) as [t|] eqn:Ht.
    + destruct (Hall id t Ht) as (t' & -> & _ & _ & Hf). specialize (Hf g). naive_solver.
    + rewrite (Hnone id Ht). naive_solver.
Qed.

Lemma reserve_in_memory_ok batch_size n expires explicit s :
  targets_ok (al_targets s) → fd ≠ Unspecified →
  ∃ T' dirty new, reserve_in_memory bias uuid shard batch_size n fd excluded banned expires required explicit s =
      (set_reservations (insert_reservations new (al_reservations s)) (set_targets T' s), Ok (dirty, new)) ∧
    reserved fd excluded banned required shard batch_size n (al_targets s) T' dirty new ∧
    rr_reservation_id <$> new = take (length new) (reservation_id_of uuid explicit shard <$> seqZ 0 batch_size) ∧
    rr_expires_at_unix_ms <$> new = take (length new) (batch_expiry expires <$> seqZ 0 batch_size).
Proof.
  intros HT Hfd. destruct (candidate_domains_total fd (cands (al_targets s)) Hfd) as (D0 & HD0).
  destruct (plan_loop_ok bias uuid fd (al_targets s) _ n explicit shard expires (seqZ 0 batch_size) D0 ∅ [] [] (plan_inv_start _ _ HT HD0))
    as (D & dirty & new & E & HI & Hgood & Hids & Hexp & Hfull). cbn [app] in *.
  destruct (write_back_fold fd (al_targets s) _ D dirty (taken new) (elements dirty) (al_targets s) [] HI) as (T' & dts & Ew & Hdts & Hnew & Hother).
  { apply NoDup_elements. } { intros id Hid%elem_of_elements. done. }
  destruct (plan_written _ _ _ _ T' dts HT HI Hdts Hnew Hother) as (Hev & Hfree & Hdirty).
  exists T', dts, new. split.
  { unfold reserve_in_memory, plan_reservation_batch, candidate_domains_from_state. unfold mbind, M_mbind, get_state, lift.
    rewrite HD0. cbn. rewrite E. cbn. unfold flat in Ew. rewrite Ew. done. }
  split; [|done]. split; try done.
  - apply HI.
  - intros q Hq. destruct q as [id g]. destruct (pi_taken_free _ _ _ _ _ _ HI _ _ Hq) as [Hd (e & He & Hf)]. split; [by exists e|].
    apply (pi_dirty _ _ _ _ _ _ HI), list_elem_of_fmap in Hd as (u & -> & Hu). apply elem_of_cands in Hu as [Hc (j & Hj)].
    destruct (HT j u Hj) as [Ej _]. exists u. cbn. by rewrite Ej.
  - assert (length new = length (rr_reservation_id <$> new)) as El by (by rewrite length_fmap).
    rewrite El, Hids, length_take, length_fmap, length_seqZ. lia.
  - intros Hlt. rewrite length_seqZ in Hfull. eapply Nat.le_lt_trans; [|by apply Hfull].
    eapply open_domains_viable; [exact HT|exact HI| |done]. intros j Hj. apply Hother. by rewrite elem_of_elements.
  - eapply Forall_impl; [exact Hnew|]. naive_solver.
  - intros id Hid. apply Hother. by rewrite <-Hdts.
  - rewrite Hdts. apply NoDup_elements.
Qed.
End reserve.

(** ** The invariant *)

Lemma insert_reservations_lookup new (R : reservations) id r :
  insert_reservations new R !! id = Some r → (r ∈ new ∧ rr_reservation_id r = id) ∨ (id ∉ rr_reservation_id <$> new ∧ R !! id = Some r).
Proof.
  unfold insert_reservations. revert R. induction new as [|x new IH]; intros R H; [by right; split; [apply not_elem_of_nil|]|].
  cbn in H. destruct (IH _ H) as [[Hin Hid]|[Hn Hl]]; [left; split; [by right|done]|].
  apply lookup_insert_Some in Hl as [[<- <-]|[Hne Hl]]; [left; split; [by left|done]|]. right. split; [|done]. cbn. by apply not_elem_of_cons.
Qed.

Lemma taken_elem r new q : r ∈ new → holds r q → q ∈ taken new.
Proof. intros Hr Hq. unfold taken. apply list_elem_of_bind. by exists r. Qed.

(** Two reservations of a batch hold different granules. *)
Lemma taken_apart new r1 r2 q : NoDup (taken new) → r1 ∈ new → r2 ∈ new → holds r1 q → holds r2 q → r1 = r2.
Proof.
  induction new as [|x new IH]; [by intros _ ?%elem_of_nil|]. unfold taken. cbn. intros Hnd%NoDup_app. destruct Hnd as (Hx & Hd & Hnew).
  intros [->|H1]%elem_of_cons [->|H2]%elem_of_cons Hq1 Hq2; [done| | |by apply IH].
  - destruct (Hd q Hq1). by eapply taken_elem.
  - destruct (Hd q Hq2). by eapply taken_elem.
Qed.

Lemma taken_once new r : NoDup (taken new) → r ∈ new → NoDup (taken_of (rr_placements r)).
Proof.
  induction new as [|x new IH]; [by intros _ ?%elem_of_nil|]. unfold taken. cbn. intros Hnd%NoDup_app. destruct Hnd as (Hx & _ & Hnew).
  intros [->|H1]%elem_of_cons; [done|by apply IH].
Qed.

(** Any reservations that were apart from the free granules are apart from the new ones. *)
Lemma reserved_ok fd excluded banned required shard batch_size n T T' dirty new R :
  alloc_ok T R → reserved fd excluded banned required shard batch_size n T T' dirty new → alloc_ok T' (insert_reservations new R).
Proof.
  intros HI HR. pose proof (rd_evolves _ _ _ _ _ _ _ _ _ _ _ HR) as He.
  assert (∀ q, q ∈ taken new → ¬ held R q) as Hapart.
  { intros q Hq Hh. apply (alloc_not_free _ _ _ HI Hh). by apply (rd_was_free _ _ _ _ _ _ _ _ _ _ _ HR). }
  split.
  - eapply evolves_targets_ok; [apply HI|done].
  - intros id r [[Hin Hid]|[_ Hr]]%insert_reservations_lookup; [|by apply HI]. split; [done|].
    by apply (proj1 (Forall_forall _ _) (rd_good _ _ _ _ _ _ _ _ _ _ _ HR) r Hin).
  - intros id r [[Hin Hid]|[_ Hr]]%insert_reservations_lookup; [|by eapply HI]. eapply taken_once; [apply HR|done].
  - intros id1 r1 id2 r2 q [[I1 E1]|[N1 L1]]%insert_reservations_lookup [[I2 E2]|[N2 L2]]%insert_reservations_lookup Q1 Q2.
    + rewrite <-E1, <-E2. f_equal. eapply taken_apart; [apply HR|done..].
    + destruct (Hapart q); [by eapply taken_elem|by exists id2, r2].
    + destruct (Hapart q); [by eapply taken_elem|by exists id1, r1].
    + by eapply (ao_apart _ _ HI).
  - intros q (id & r & [[Hin Hid]|[_ Hr]]%insert_reservations_lookup & Hq).
    + apply taken_elem with (new := new) in Hq; [|done]. destruct (rd_was_free _ _ _ _ _ _ _ _ _ _ _ HR q Hq) as [(t & Ht & Hf) _].
      destruct (evolves_lookup _ _ _ _ He Ht) as (t' & Ht' & Et & _). exists t'. destruct (ao_targets _ _ HI _ _ Ht) as [_ (Hc & Hs & _)].
      pose proof (spans_from_free _ _ _ _ Hs Hf). split_and!; [done|lia|rewrite Et; cbn; lia|].
      intros Hf'. assert (free_at T' q) as Hf2 by (by exists t'). by apply (rd_free _ _ _ _ _ _ _ _ _ _ _ HR) in Hf2 as [_ ?].
    + destruct (ao_held _ _ HI q ltac:(by exists id, r)) as (t & Ht & Hr' & Hn). destruct (evolves_lookup _ _ _ _ He Ht) as (t' & Ht' & Et & _).
      exists t'. split_and!; [done|lia|rewrite Et; cbn; lia|]. intros Hf'. apply Hn.
      assert (free_at T' q) as Hf2 by (by exists t'). apply (rd_free _ _ _ _ _ _ _ _ _ _ _ HR) in Hf2 as [(u & Hu & Hfu) _].
      rewrite Ht in Hu. by injection Hu as <-.
Qed.
