(* ===== verification/KasOps.v ===== *)
(** The other operations on the state in memory: finalizing and releasing, claiming from a
    bin, reclaiming granules, and the records of targets. *)
From S2P Require Import Prelude Bytes Sorts Fdb KmsKeys KmsValues KmsStore Placement Kas KasPlan KasReserve.

(** ** Indexes *)

Lemma dedup_sorted l : StronglySorted (fun a b => (a <=? b) = true) l →
  StronglySorted Z.lt (dedup_adjacent l) ∧ ∀ x, x ∈ dedup_adjacent l ↔ x ∈ l.
Proof.
  induction 1 as [|x l Hs IH Hx]; [split; [constructor|done]|]. destruct IH as [I1 I2]. destruct l as [|y l]; [split; [by repeat constructor|done]|].
  cbn [dedup_adjacent]. destruct (Z.eqb_spec x y) as [->|Hne].
  - split; [done|]. intros z. rewrite I2, !elem_of_cons. tauto.
  - split; [|intros z; rewrite elem_of_cons, I2, !elem_of_cons; tauto].
    constructor; [done|]. apply Forall_forall. intros z Hz%I2. apply Forall_cons in Hx as [Hxy Hx]. apply StronglySorted_inv in Hs as [_ Hy].
    apply elem_of_cons in Hz as [->|Hz]; [lia|]. rewrite Forall_forall in Hy. specialize (Hy z Hz). lia.
Qed.

Lemma normalize_ok total raw indexes :
  Forall (fun i => 0 ≤ i) raw → normalize_subset_indexes total raw = Ok indexes →
  NoDup indexes ∧ Forall (fun i => (i < total)%nat) indexes.
Proof.
  unfold normalize_subset_indexes. intros Hraw. destruct (Nat.eqb_spec total 0) as [->|Ht]; [intros [= <-]; by repeat constructor|].
  case_bool_decide; [intros [= <-]; split; [apply NoDup_seq|apply Forall_forall; intros i Hi%elem_of_seq; lia]|].
  set (l := dedup_adjacent (sort_by Z.leb raw)). destruct (existsb _ l) eqn:E; [done|]. intros [= <-].
  assert (StronglySorted (fun a b => (a <=? b) = true) (sort_by Z.leb raw)) as Hs by (apply sort_by_sorted; intros; lia).
  destruct (dedup_sorted _ Hs) as [Hlt Hin]. fold l in Hlt, Hin.
  assert (∀ x, x ∈ l → 0 ≤ x < Z.of_nat total) as Hrange.
  { intros x Hx. split; [rewrite Hin, elem_of_sort_by in Hx; rewrite Forall_forall in Hraw; by apply Hraw|].
    destruct (Z.ltb_spec x (Z.of_nat total)) as [|Hge]; [done|]. exfalso.
    assert (existsb (λ i : Z, Z.of_nat total <=? i) l = true) as E'; [|congruence]. apply existsb_exists. exists x.
    split; [by apply list_elem_of_In|lia]. }
  split.
  - assert (NoDup l) as Hnd.
    { clear -Hlt. induction Hlt as [|x l Hl IH Hx]; constructor; [|done]. intros Hin. rewrite Forall_forall in Hx. specialize (Hx x Hin). lia. }
    apply NoDup_fmap_2_strong; [|done]. intros x y Hx%Hrange Hy%Hrange. lia.
  - apply Forall_fmap, Forall_forall. intros x Hx%Hrange. cbn. lia.
Qed.

Lemma normalize_err total raw e : normalize_subset_indexes total raw = Err e → e = InvalidArgument_.
Proof. unfold normalize_subset_indexes. destruct (total =? 0)%nat; [done|]. case_bool_decide; [done|]. destruct (existsb _ _); congruence. Qed.

(** ** Parts of a list by index *)

Section parts.
Context {A : Type}.

Lemma drop_indexes_sublist (indexes : list nat) (l : list A) : sublist (drop_indexes indexes l) l.
Proof.
  unfold drop_indexes. assert (∀ k, sublist (omap (fun '(i, x) => if bool_decide (i ∈ indexes) then None else Some x) (imap (fun i x => (k + i, x)%nat) l)) l) as H.
  { induction l as [|x l IH]; intros k; [constructor|]. cbn. rewrite Nat.add_0_r.
    assert (imap ((λ (i : nat) (x : A), (k + i, x)%nat) ∘ S) l = imap (λ (i : nat) (x : A), (S k + i, x)%nat) l) as ->
      by (apply imap_ext; intros i y _; cbn; by rewrite Nat.add_succ_r).
    specialize (IH (S k)). case_bool_decide; by constructor. }
  exact (H 0%nat).
Qed.

Lemma drop_indexes_elem (indexes : list nat) (l : list A) x : x ∈ drop_indexes indexes l ↔ ∃ i, i ∉ indexes ∧ l !! i = Some x.
Proof.
  unfold drop_indexes. rewrite list_elem_of_omap. split.
  - intros ([i y] & Hin & E). apply list_elem_of_lookup in Hin as (k & Hk). rewrite list_lookup_imap in Hk.
    destruct (l !! k) as [z|] eqn:Hz; [|done]. injection Hk as -> ->. case_bool_decide; [done|]. injection E as ->. by exists i.
  - intros (i & Hi & Hx). exists (i, x). rewrite bool_decide_eq_false_2 by done. split; [|done].
    apply list_elem_of_lookup. exists i. by rewrite list_lookup_imap, Hx.
Qed.

Lemma omap_lookup_elem (indexes : list nat) (l : list A) x : x ∈ omap (l !!.) indexes ↔ ∃ i, i ∈ indexes ∧ l !! i = Some x.
Proof. rewrite list_elem_of_omap. done. Qed.

(** An element of a list without repetitions is in one part. *)
Lemma parts_disjoint {B : Type} (f : A → B) (indexes : list nat) (l : list A) :
  NoDup (f <$> l) → ∀ y, y ∈ f <$> omap (l !!.) indexes → y ∈ f <$> drop_indexes indexes l → False.
Proof.
  intros Hnd y (x1 & -> & H1)%list_elem_of_fmap (x2 & E & H2)%list_elem_of_fmap.
  apply omap_lookup_elem in H1 as (i & Hi & L1). apply drop_indexes_elem in H2 as (j & Hj & L2).
  assert (i = j) as ->; [|done]. eapply (NoDup_lookup (f <$> l)); [done|rewrite list_lookup_fmap, L1; done|]. rewrite list_lookup_fmap, L2. cbn. by rewrite E.
Qed.

Lemma parts_cover {B : Type} (f : A → B) (indexes : list nat) (l : list A) y :
  y ∈ f <$> l ↔ y ∈ f <$> omap (l !!.) indexes ∨ y ∈ f <$> drop_indexes indexes l.
Proof.
  rewrite !list_elem_of_fmap. split.
  - intros (x & -> & (i & Hi)%list_elem_of_lookup). destruct (decide (i ∈ indexes)).
    + left. exists x. split; [done|]. apply omap_lookup_elem. eauto.
    + right. exists x. split; [done|]. apply drop_indexes_elem. eauto.
  - intros [(x & -> & (i & _ & Hi)%omap_lookup_elem)|(x & -> & (i & _ & Hi)%drop_indexes_elem)]; exists x; (split; [done|]); by eapply list_elem_of_lookup_2.
Qed.

(** As many different indexes as elements leave nothing. *)
Lemma drop_all (indexes : list nat) (l : list A) : NoDup indexes → Forall (fun i => (i < length l)%nat) indexes → length indexes = length l → drop_indexes indexes l = [].
Proof.
  intros Hnd Hlt Hlen. assert (indexes ≡ₚ seq 0 (length l)) as Hp.
  { apply submseteq_length_Permutation; [|rewrite length_seq; lia]. apply NoDup_submseteq; [done|]. intros i Hi.
    rewrite Forall_forall in Hlt. apply elem_of_seq. specialize (Hlt i Hi). lia. }
  destruct (drop_indexes indexes l) as [|x k] eqn:E; [done|]. exfalso.
  assert (x ∈ drop_indexes indexes l) as Hx by (rewrite E; by left). apply drop_indexes_elem in Hx as (i & Hi & Hl). apply Hi.
  rewrite Hp. apply elem_of_seq. apply lookup_lt_Some in Hl. lia.
Qed.
End parts.

(** ** One mutation *)

Lemma lift_Ok_bind_M {S E A B : Type} (a : A) (f : A → M S E B) s : (lift (Ok a) ≫= f) s = f a s.
Proof. done. Qed.

(** The granules a mutation frees when it is a release. *)
Definition selected (R : reservations) (m : ReservationMutationSpec) : list (list byte * Z) :=
  match R !! rm_reservation_id m with
  | Some r =>
      match normalize_subset_indexes (length (rr_placements r)) (rm_placement_indexes m) with
      | Ok indexes => taken_of (omap (rr_placements r !!.) indexes)
      | Err _ => []
      end
  | None => []
  end.

Lemma held_placement T R id r : alloc_ok T R → R !! id = Some r → Forall (placement_in T) (rr_placements r).
Proof.
  intros HI Hr. apply Forall_forall. intros p Hp.
  destruct (ao_held _ _ HI (pr_target_id p, pr_granule_index p)) as (t & Ht & Hrange & _); [|by exists t].
  exists id, r. split; [done|]. unfold holds, taken_of. apply list_elem_of_fmap. by exists p.
Qed.

(** What a mutation does to the reservation with its id. *)
Definition mutated (kind : ReservationMutationKind) (r : PlacementReservationRecord) (indexes : list nat) : option PlacementReservationRecord :=
  match kind with
  | Finalize => None
  | Release => if (length indexes =? length (rr_placements r))%nat then None
               else Some (with_placements (drop_indexes indexes (rr_placements r)) r)
  end.

Definition update_at (R : reservations) (id : list byte) (o : option PlacementReservationRecord) : reservations :=
  match o with Some r => <[id := r]> R | None => delete id R end.

Lemma mutated_shrinks kind R id r indexes : R !! id = Some r → shrinks R (update_at R id (mutated kind r indexes)).
Proof.
  intros Hr. unfold mutated, update_at. destruct kind; [apply shrinks_delete|]. destruct (_ =? _)%nat; [apply shrinks_delete|].
  intros id' r' [[<- <-]|[Hne Hr']]%lookup_insert_Some; [|by exists r'].
  exists r. split_and!; [done..|]. cbn. apply fmap_sublist, drop_indexes_sublist.
Qed.

(** A released granule is no longer held. *)
Lemma released_not_held T R id r indexes q :
  alloc_ok T R → R !! id = Some r → NoDup indexes → Forall (fun i => (i < length (rr_placements r))%nat) indexes →
  q ∈ taken_of (omap (rr_placements r !!.) indexes) → ¬ held (update_at R id (mutated Release r indexes)) q.
Proof.
  intros HI Hr Hnd Hlt Hq (id' & r' & Hr' & Hq').
  assert (holds r q) as Hrq by (apply (parts_cover _ indexes); by left).
  unfold mutated, update_at in Hr'. destruct (Nat.eqb_spec (length indexes) (length (rr_placements r))) as [E|E].
  - apply lookup_delete_Some in Hr' as [Hne Hr']. by apply Hne, (ao_apart _ _ HI id r id' r' q).
  - apply lookup_insert_Some in Hr' as [[<- <-]|[Hne Hr']]; [|by apply Hne, (ao_apart _ _ HI id r id' r' q)].
    cbn in Hq'. eapply (parts_disjoint _ indexes (rr_placements r)); [by eapply HI|done..].
Qed.

(** The effects recorded so far, as a change of the reservations. *)
Definition apply_effects (R : reservations) (e : MutationEffects) : reservations :=
  foldl (fun R id => delete id R) (insert_reservations (me_dirty_reservations e) R) (me_delete_reservations e).

Lemma apply_effects_delete R e results dirty members id :
  apply_effects R (mkEffects results dirty (me_dirty_reservations e) (me_delete_reservations e ++ [id]) members) = delete id (apply_effects R e).
Proof. unfold apply_effects. cbn. by rewrite foldl_app. Qed.

Lemma foldl_delete_insert (R : reservations) (ids : list (list byte)) id r :
  id ∉ ids → foldl (fun R id => delete id R) (<[id := r]> R) ids = <[id := r]> (foldl (fun R id => delete id R) R ids).
Proof.
  revert R. induction ids as [|j ids IH]; intros R Hn; [done|]. apply not_elem_of_cons in Hn as [Hj Hn]. cbn.
  rewrite delete_insert_ne by done. by apply IH.
Qed.

Lemma apply_effects_insert R e results dirty members r :
  rr_reservation_id r ∉ me_delete_reservations e →
  apply_effects R (mkEffects results dirty (me_dirty_reservations e ++ [r]) (me_delete_reservations e) members) =
  <[rr_reservation_id r := r]> (apply_effects R e).
Proof.
  intros Hn. unfold apply_effects, insert_reservations. cbn. rewrite foldl_app. cbn. by apply foldl_delete_insert.
Qed.

(** The ids an effect names. *)
Definition effect_ids (e : MutationEffects) : list (list byte) := (rr_reservation_id <$> me_dirty_reservations e) ++ me_delete_reservations e.

Definition mutation_ok (m : ReservationMutationSpec) : Prop := Forall (fun i => 0 ≤ i) (rm_placement_indexes m).

Lemma mutate_release r raw indexes dirty dirty' (s s' : AllocatorState) :
  normalize_subset_indexes (length (rr_placements r)) raw = Ok indexes →
  fold_m release_placement dirty (omap (rr_placements r !!.) indexes) s = (s', Ok dirty') →
  mutate_record Release r raw dirty s =
    (s', Ok (if (length indexes =? length (rr_placements r))%nat then with_state RESERVATION_STATE_RELEASED (with_placements [] r)
             else with_placements (drop_indexes indexes (rr_placements r)) r, dirty')).
Proof.
  intros En E. unfold mutate_record. rewrite En. unfold release_record_placements.
  rewrite lift_Ok_bind_M. rewrite (M_bind_run _ _ _ _ _ E). by destruct (_ =? _)%nat.
Qed.

(** One pass of the loop, from a state the effects describe. *)
(** A mutation names a placement its reservation does not have. *)
Definition bad_index (R : reservations) (m : ReservationMutationSpec) : Prop :=
  ∃ r err, R !! rm_reservation_id m = Some r ∧ normalize_subset_indexes (length (rr_placements r)) (rm_placement_indexes m) = Err err.

Lemma bad_index_eq (R R' : reservations) m : R' !! rm_reservation_id m = R !! rm_reservation_id m → bad_index R' m → bad_index R m.
Proof. unfold bad_index. by intros ->. Qed.

Lemma apply_mutation_ok kind R0 e m s :
  alloc_ok (al_targets s) (al_reservations s) → al_reservations s = apply_effects R0 e →
  mutation_ok m → rm_reservation_id m ∉ effect_ids e →
  match apply_mutation kind e m s with
  | (s', Err err) => s' = s ∧ err = InvalidArgument_ ∧ bad_index (al_reservations s) m
  | (s', Ok e') =>
      alloc_ok (al_targets s') (al_reservations s') ∧ al_reservations s' = apply_effects R0 e' ∧
      (∀ id, id ∈ effect_ids e' → id ∈ effect_ids e ∨ (id = rm_reservation_id m ∧ is_Some (al_reservations s !! id))) ∧
      evolves (al_targets s) (al_targets s') ∧ same_meta s s' ∧
      me_dirty_targets e ⊆ me_dirty_targets e' ∧ only_dirty (al_targets s) (al_targets s') (me_dirty_targets e') ∧
      (∀ id, id ≠ rm_reservation_id m → al_reservations s' !! id = al_reservations s !! id) ∧
      ∀ q, free_at (al_targets s') q ↔
           free_at (al_targets s) q ∨ (kind = Release ∧ q ∈ selected (al_reservations s) m ∧ ¬ committed_at s q)
  end.
Proof.
  intros HI HR Hm Hfresh. unfold apply_mutation, selected. unfold mbind at 1, M_mbind at 1, get_state at 1. cbv beta iota.
  destruct (al_reservations s !! rm_reservation_id m) as [r|] eqn:Hr.
  2:{ cbn. split_and!; try done; [by left|by apply evolves_refl; apply HI|]. intros q. rewrite elem_of_nil. tauto. }
  destruct (ao_ids _ _ HI _ _ Hr) as [Eid Est]. rewrite Est. cbn [negb Z.eqb RESERVATION_STATE_RESERVED Pos.eqb].
  destruct (normalize_subset_indexes (length (rr_placements r)) (rm_placement_indexes m)) as [indexes|err] eqn:En.
  2:{ unfold mutate_record. rewrite En. cbn. split_and!; [done|by eapply normalize_err|]. by exists r, err. }
  destruct (normalize_ok _ _ _ Hm En) as [Hnd Hlt]. rewrite <-Eid in *. apply not_elem_of_app in Hfresh as [Hf1 Hf2].
  destruct kind.
  - unfold mutate_record. rewrite En. cbn. autorewrite with alloc. split_and!; try done.
    + eapply shrinks_ok; [exact HI|apply shrinks_delete].
    + autorewrite with alloc. by rewrite apply_effects_delete, HR.
    + unfold effect_ids. cbn. intros id. rewrite !elem_of_app, list_elem_of_singleton. intuition (subst; eauto).
    + by apply evolves_refl; apply HI.
    + intros id Hne. autorewrite with alloc. by rewrite lookup_delete_ne.
    + intros q. autorewrite with alloc. split; [by left|]. by intros [?|[? _]].
  - destruct (release_placements_ok (omap (rr_placements r !!.) indexes) s (me_dirty_targets e)) as (T' & dirty' & E & Hev & Hsub & Hod & Hfree).
    { apply HI. } { pose proof (held_placement _ _ _ _ HI Hr) as Hall. rewrite Forall_forall in *. intros p (i & _ & Hp)%omap_lookup_elem.
      apply Hall. by eapply list_elem_of_lookup_2. }
    rewrite (M_bind_run _ _ _ _ _ (mutate_release r _ _ _ _ _ _ En E)).
    assert (alloc_ok T' (update_at (al_reservations s) (rr_reservation_id r) (mutated Release r indexes))) as HI'.
    { eapply evolves_ok; [exact HI|exact Hev|by apply mutated_shrinks|]. intros q Hh [Hq|[Hq _]]%Hfree.
      - by eapply alloc_not_free, Hq; [exact HI|eapply shrinks_held; [by apply mutated_shrinks|]].
      - by eapply released_not_held. }
    destruct (Nat.eqb_spec (length indexes) (length (rr_placements r))) as [El|El]; cbn; unfold mutated in HI'; rewrite ?(proj2 (Nat.eqb_eq _ _) El), ?(proj2 (Nat.eqb_neq _ _) El) in HI'; cbn in HI' |- *; autorewrite with alloc.
    + split_and!; try done.
      * autorewrite with alloc. by rewrite apply_effects_delete, HR.
      * unfold effect_ids. cbn. intros id. rewrite !elem_of_app, list_elem_of_singleton. intuition (subst; eauto).
      * intros id Hne. autorewrite with alloc. by rewrite lookup_delete_ne.
      * intros q. autorewrite with alloc. rewrite Hfree. tauto.
    + rewrite Est. cbn. split_and!; try done.
      * autorewrite with alloc. by rewrite apply_effects_insert, HR.
      * unfold effect_ids. cbn. intros id. rewrite !fmap_app, !elem_of_app. cbn. rewrite list_elem_of_singleton. intuition (subst; eauto).
      * intros id Hne. autorewrite with alloc. by rewrite lookup_insert_ne.
      * intros q. autorewrite with alloc. rewrite Hfree. tauto.
Qed.

(** ** A batch of mutations *)

Lemma selected_eq (R R' : reservations) m : R' !! rm_reservation_id m = R !! rm_reservation_id m → selected R' m = selected R m.
Proof. unfold selected. by intros ->. Qed.

Lemma apply_mutations_ok kind R0 ms e s :
  alloc_ok (al_targets s) (al_reservations s) → al_reservations s = apply_effects R0 e →
  Forall mutation_ok ms → NoDup (rm_reservation_id <$> ms) → (∀ id, id ∈ effect_ids e → id ∉ rm_reservation_id <$> ms) →
  match fold_m (apply_mutation kind) e ms s with
  | (s', Err err) => alloc_ok (al_targets s') (al_reservations s') ∧ same_meta s s' ∧ err = InvalidArgument_ ∧
      ∃ m, m ∈ ms ∧ bad_index (al_reservations s) m
  | (s', Ok e') =>
      alloc_ok (al_targets s') (al_reservations s') ∧ al_reservations s' = apply_effects R0 e' ∧
      evolves (al_targets s) (al_targets s') ∧ same_meta s s' ∧
      me_dirty_targets e ⊆ me_dirty_targets e' ∧ only_dirty (al_targets s) (al_targets s') (me_dirty_targets e') ∧
      (∀ id, id ∈ effect_ids e' → id ∈ effect_ids e ∨ is_Some (al_reservations s !! id)) ∧
      ∀ q, free_at (al_targets s') q ↔
           free_at (al_targets s) q ∨ (kind = Release ∧ q ∈ ms ≫= selected (al_reservations s) ∧ ¬ committed_at s q)
  end.
Proof.
  revert e s. induction ms as [|m ms IH]; intros e s HI HR Hms Hnd Hfresh.
  { cbn. split_and!; try done; [apply evolves_refl, HI|by left|]. intros q. rewrite elem_of_nil. tauto. }
  apply Forall_cons in Hms as [Hm Hms]. cbn in Hnd. apply NoDup_cons in Hnd as [Hnin Hnd].
  pose proof (apply_mutation_ok kind R0 e m s HI HR Hm) as H1.
  destruct (apply_mutation kind e m s) as [s1 [e1|err]] eqn:E1; cbn [fold_m]; [|rewrite (M_bind_Err _ _ _ _ _ E1)].
  2:{ destruct H1 as (-> & -> & Hbad); [intros Hin; by apply (Hfresh _ Hin); left|]. split_and!; [done..|]. exists m. split; [by left|done]. }
  rewrite (M_bind_run _ _ _ _ _ E1).
  destruct H1 as (HI1 & HR1 & Hids1 & He1 & Hm1 & Hd1 & Ho1 & Hl1 & Hf1); [intros Hin; by apply (Hfresh _ Hin); left|].
  specialize (IH e1 s1 HI1 HR1 Hms Hnd). destruct (fold_m (apply_mutation kind) e1 ms s1) as [s2 [e2|err]].
  - destruct IH as (HI2 & HR2 & He2 & Hm2 & Hd2 & Ho2 & Hids2 & Hf2).
    { intros id [Hid|[-> _]]%Hids1; [|done]. intros Hin. apply (Hfresh id Hid). by right. }
    split_and!; [done..|by eapply evolves_trans|by eapply same_meta_trans|set_solver| | |].
    + intros id Hid. rewrite Ho2 by done. apply Ho1. set_solver.
    + intros id [[Hid|[_ Hid]]%Hids1|Hid]%Hids2; [by left|by right|].
      destruct (decide (id = rm_reservation_id m)) as [->|Hne]; [|right; by rewrite <-Hl1].
      destruct (al_reservations s !! rm_reservation_id m) as [r|] eqn:Er; [by right; eexists|]. left.
      exfalso. destruct Hid as [r Hr]. unfold apply_mutation in E1. unfold mbind at 1, M_mbind at 1, get_state at 1 in E1. rewrite Er in E1. cbn in E1.
      injection E1 as <- _. congruence.
    + intros q. rewrite Hf2, Hf1. cbn. rewrite elem_of_app.
      assert (q ∈ ms ≫= selected (al_reservations s1) ↔ q ∈ ms ≫= selected (al_reservations s)) as ->.
      { rewrite !list_elem_of_bind. assert (∀ x, x ∈ ms → selected (al_reservations s1) x = selected (al_reservations s) x) as Hsel.
        { intros x Hx. apply selected_eq, Hl1. intros Ex. apply Hnin. rewrite <-Ex. by apply list_elem_of_fmap_2. }
        split; intros (x & Hq & Hx); exists x; (split; [|done]); [by rewrite <-Hsel|by rewrite Hsel]. }
      assert (committed_at s1 q ↔ committed_at s q) as -> by (unfold committed_at; by destruct Hm1 as (_ & _ & _ & ->)). tauto.
  - destruct IH as (HI2 & Hm2 & -> & x & Hx & Hbad).
    { intros id [Hid|[-> _]]%Hids1; [|done]. intros Hin. apply (Hfresh id Hid). by right. }
    split_and!; [done|by eapply same_meta_trans|done|]. exists x. split; [by right|]. eapply bad_index_eq, Hbad. apply Hl1.
    intros Ex. apply Hnin. rewrite <-Ex. by apply list_elem_of_fmap_2.
Qed.

Lemma apply_in_memory_ok kind ms s :
  alloc_ok (al_targets s) (al_reservations s) → Forall mutation_ok ms →
  match apply_in_memory kind ms s with
  | (s', Err err) => alloc_ok (al_targets s') (al_reservations s') ∧ same_meta s s' ∧ err = InvalidArgument_ ∧
      ((s' = s ∧ ¬ NoDup (rm_reservation_id <$> ms)) ∨ ∃ m, m ∈ ms ∧ bad_index (al_reservations s) m)
  | (s', Ok e') =>
      alloc_ok (al_targets s') (al_reservations s') ∧ al_reservations s' = apply_effects (al_reservations s) e' ∧
      evolves (al_targets s) (al_targets s') ∧ same_meta s s' ∧ only_dirty (al_targets s) (al_targets s') (me_dirty_targets e') ∧
      (∀ id, id ∈ effect_ids e' → is_Some (al_reservations s !! id)) ∧
      ∀ q, free_at (al_targets s') q ↔
           free_at (al_targets s) q ∨ (kind = Release ∧ q ∈ ms ≫= selected (al_reservations s) ∧ ¬ committed_at s q)
  end.
Proof.
  intros HI Hms. unfold apply_in_memory. case_bool_decide as Hnd; [|by split_and!; auto].
  pose proof (apply_mutations_ok kind (al_reservations s) ms no_effects s HI eq_refl Hms Hnd) as H.
  destruct (fold_m (apply_mutation kind) no_effects ms s) as [s' [e'|err]].
  - destruct H as (H1 & H2 & H3 & H4 & _ & H5 & H6 & H7); [by intros id ?%elem_of_nil|]. split_and!; [done..| |done].
    intros id [Hid%elem_of_nil|?]%H6; done.
  - destruct H as (H1 & H2 & H3 & H4); [by intros id ?%elem_of_nil|]. split_and!; [done..|]. by right.
Qed.

(** ** Finalizing *)

Lemma finalize_mutation_ok R0 s e m :
  alloc_ok (al_targets s) (al_reservations s) → al_reservations s = apply_effects R0 e →
  let '(s', e') := finalize_mutation (s, e) m in
  alloc_ok (al_targets s') (al_reservations s') ∧ al_reservations s' = apply_effects R0 e' ∧ al_targets s' = al_targets s ∧
  same_meta s s' ∧ me_dirty_targets e' = me_dirty_targets e ∧ me_dirty_reservations e' = me_dirty_reservations e ∧
  shrinks (al_reservations s) (al_reservations s') ∧
  ∀ id, id ∈ me_delete_reservations e' → id ∈ me_delete_reservations e ∨ is_Some (al_reservations s !! id).
Proof.
  intros HI HR. unfold finalize_mutation. destruct (al_reservations s !! rm_reservation_id m) as [r|] eqn:Hr.
  2:{ split_and!; try done; [apply shrinks_refl|by left]. }
  destruct (ao_ids _ _ HI _ _ Hr) as [Eid Est]. rewrite Est, Z.eqb_refl.
  destruct (remove_reservation_from_bins _ _) as [bins deleted]. autorewrite with alloc. split_and!; try done.
  - eapply shrinks_ok; [exact HI|apply shrinks_delete].
  - by rewrite apply_effects_delete, HR.
  - apply shrinks_delete.
  - cbn. intros id [?|Hid]%elem_of_app; [by left|]. apply list_elem_of_singleton in Hid as ->. right. rewrite Eid. by eexists.
Qed.

Lemma finalize_mutations_ok R0 ms s e :
  alloc_ok (al_targets s) (al_reservations s) → al_reservations s = apply_effects R0 e →
  let '(s', e') := foldl finalize_mutation (s, e) ms in
  alloc_ok (al_targets s') (al_reservations s') ∧ al_reservations s' = apply_effects R0 e' ∧ al_targets s' = al_targets s ∧
  same_meta s s' ∧ me_dirty_targets e' = me_dirty_targets e ∧ me_dirty_reservations e' = me_dirty_reservations e ∧
  ∀ id, id ∈ me_delete_reservations e' → id ∈ me_delete_reservations e ∨ is_Some (al_reservations s !! id).
Proof.
  revert s e. induction ms as [|m ms IH]; intros s e HI HR; [cbn; split_and!; try done; by left|]. cbn [foldl].
  pose proof (finalize_mutation_ok R0 s e m HI HR) as H. destruct (finalize_mutation (s, e) m) as [s1 e1].
  destruct H as (HI1 & HR1 & HT1 & Hm1 & Hd1 & Hr1 & Hs1 & Hi1). specialize (IH s1 e1 HI1 HR1). destruct (foldl finalize_mutation (s1, e1) ms) as [s2 e2].
  destruct IH as (HI2 & HR2 & HT2 & Hm2 & Hd2 & Hr2 & Hi2). split_and!; try congruence; [by eapply same_meta_trans|].
  intros id [?%Hi1|[r Hr]]%Hi2; [done|]. right. destruct (Hs1 id r Hr) as (r0 & Hr0 & _). by exists r0.
Qed.

Lemma finalize_in_memory_ok ms s :
  alloc_ok (al_targets s) (al_reservations s) →
  match finalize_in_memory ms s with
  | (s', Err err) => s' = s ∧ err = InvalidArgument_
  | (s', Ok None) => s' = s
  | (s', Ok (Some e)) =>
      alloc_ok (al_targets s') (al_reservations s') ∧ al_reservations s' = apply_effects (al_reservations s) e ∧
      al_targets s' = al_targets s ∧ same_meta s s' ∧ me_dirty_targets e = ∅ ∧ me_dirty_reservations e = [] ∧
      ∀ id, id ∈ me_delete_reservations e → is_Some (al_reservations s !! id)
  end.
Proof.
  intros HI. unfold finalize_in_memory. unfold mbind, M_mbind, get_state, lift.
  destruct (finalize_whole ∅ (al_reservations s) ms) as [[]|err] eqn:E.
  - pose proof (finalize_mutations_ok (al_reservations s) ms s no_effects HI eq_refl) as H.
    destruct (foldl finalize_mutation (s, no_effects) ms) as [s' e]. destruct H as (H1 & H2 & H3 & H4 & H5 & H6 & H7). cbn. split_and!; try done.
    intros id [Hid%elem_of_nil|?]%H7; done.
  - done.
  - split; [done|]. clear HI. revert E. generalize (∅ : gset (list byte)). induction ms as [|m ms IH]; intros seen; cbn; [done|].
    case_bool_decide; [congruence|]. destruct (al_reservations s !! rm_reservation_id m) as [r|]; [|apply IH].
    destruct (negb _); [apply IH|]. destruct (normalize_subset_indexes _ _) as [k|e'] eqn:En; cbn; [|intros [= ->]; by eapply normalize_err].
    destruct (negb _); [done|apply IH].
Qed.

(** ** Claiming from a bin *)

Lemma claim_shrinks (R : reservations) id r x : R !! id = Some r → shrinks R (<[id := with_expiry x r]> R).
Proof. intros Hr id' r' [[<- <-]|[Hne Hr']]%lookup_insert_Some; [by exists r|by exists r']. Qed.

Lemma shrinks_trans (R1 R2 R3 : reservations) : shrinks R1 R2 → shrinks R2 R3 → shrinks R1 R3.
Proof.
  intros H1 H2 id r3 H3. destruct (H2 id r3 H3) as (r2 & K2 & E1 & E2 & S2), (H1 id r2 K2) as (r1 & K1 & F1 & F2 & S1).
  exists r1. split_and!; [done|congruence|congruence|by etrans].
Qed.

Lemma claim_loop_ok now expires batch queue (R0 R : reservations) claimed popped :
  (∀ id r, R0 !! id = Some r → rr_reservation_id r = id) → shrinks R0 R → R = insert_reservations claimed R0 →
  let '(queue', R', claimed', popped') := claim_loop now expires batch queue R claimed popped in
  shrinks R0 R' ∧ R' = insert_reservations claimed' R0.
Proof.
  intros Hids. revert R claimed popped. induction queue as [|id queue IH]; intros R claimed popped Hs HR; cbn [claim_loop].
  { by destruct (batch <=? len claimed). }
  destruct (batch <=? len claimed); [done|]. destruct (R !! id) as [r|] eqn:Hr; [|by apply IH].
  destruct (claimable now r); [|by apply IH].
  assert (rr_reservation_id r = id) as Eid by (destruct (Hs id r Hr) as (r0 & H0 & -> & _); by apply Hids).
  apply IH.
  - eapply shrinks_trans; [exact Hs|]. destruct (0 <? expires); [by apply claim_shrinks|].
    rewrite insert_id by done. apply shrinks_refl.
  - unfold insert_reservations. rewrite foldl_app. cbn. fold (insert_reservations claimed R0). rewrite <-HR. by destruct (0 <? expires); cbn; rewrite Eid.
Qed.

Lemma claim_ready_ok now bin_key batch ttl s :
  alloc_ok (al_targets s) (al_reservations s) →
  let '(s', (claimed, popped)) := claim_ready_bin_records now bin_key batch ttl s in
  alloc_ok (al_targets s') (al_reservations s') ∧ al_targets s' = al_targets s ∧ same_meta s s' ∧
  shrinks (al_reservations s) (al_reservations s') ∧ al_reservations s' = insert_reservations claimed (al_reservations s).
Proof.
  intros HI. unfold claim_ready_bin_records. destruct (al_bins s !! bin_key) as [queue|]; [|split_and!; try done; apply shrinks_refl].
  pose proof (claim_loop_ok now (expiry_from now ttl) batch queue (al_reservations s) (al_reservations s) [] []) as H.
  destruct (claim_loop _ _ _ _ _ _ _) as [[[queue' R'] claimed] popped]. autorewrite with alloc.
  destruct H as [Hs HR]; [by intros id r Hr; apply HI|apply shrinks_refl|done|].
  split_and!; try done. by eapply shrinks_ok.
Qed.

(** ** Reclaiming *)

(** A granule of no known target, or outside it. *)
Definition bad_granule (T : targets) (q : list byte * Z) : Prop :=
  match T !! q.1 with Some t => tr_granule_count (ta_target t) ≤ q.2 | None => True end.

Lemma bad_granule_evolves T T' q : evolves T T' → bad_granule T' q → bad_granule T q.
Proof.
  intros H. specialize (H q.1). unfold bad_granule. destruct (T !! q.1) as [t|], (T' !! q.1) as [t'|]; try done.
  destruct H as [-> _]. done.
Qed.

Lemma reclaim_granule_ok id acc g s :
  alloc_ok (al_targets s) (al_reservations s) → 0 ≤ g → ¬ held (al_reservations s) (id, g) →
  match reclaim_granule id acc g s with
  | (s', Err err) => s' = s ∧ (err = NotFound_ ∨ err = InvalidArgument_) ∧ bad_granule (al_targets s) (id, g)
  | (s', Ok acc') =>
      alloc_ok (al_targets s') (al_reservations s') ∧ al_reservations s' = al_reservations s ∧ evolves (al_targets s) (al_targets s') ∧
      same_meta s s' ∧ acc.2 ⊆ acc'.2 ∧ only_dirty (al_targets s) (al_targets s') acc'.2 ∧
      ∀ q, free_at (al_targets s') q ↔ free_at (al_targets s) q ∨ q = (id, g)
  end.
Proof.
  intros HI Hg Hn. unfold reclaim_granule. unfold mbind, M_mbind, get_state, lift. pose proof (ao_targets _ _ HI) as HT.
  destruct (al_targets s !! id) as [t|] eqn:Ht; cbn [ok_or]; [|split_and!; [done|by left|unfold bad_granule; cbn; by rewrite Ht]].
  destruct (HT _ _ Ht) as [_ (Hc & Hs & _)]. destruct (Z.leb_spec (tr_granule_count (ta_target t)) g); [split_and!; [done|by right|unfold bad_granule; cbn; by rewrite Ht]|].
  pose proof (granule_is_free_iff (tr_granule_count (ta_target t)) (ta_spans t) g ltac:(by apply spans_from_weak) ltac:(lia)) as Hiff.
  destruct (granule_is_free (ta_spans t) g) eqn:Ef.
  - cbn. split_and!; try done; [by apply evolves_refl|]. intros q. split; [by left|]. intros [?| ->]; [done|]. exists t. split; [done|]. by apply Hiff.
  - assert (¬ is_free (ta_spans t) g) as Hnf by (rewrite <-Hiff; congruence).
    destruct (release_at _ id t g HT Ht ltac:(lia) Hnf) as [He Hf]. cbn. split_and!; try done.
    + eapply evolves_ok; [exact HI|exact He|apply shrinks_refl|]. intros q Hq [Hfq| ->]%Hf; [by eapply alloc_not_free|done].
    + set_solver.
    + intros j Hj. apply lookup_insert_ne. set_solver.
Qed.

Lemma reclaim_granules_ok id gs acc s :
  alloc_ok (al_targets s) (al_reservations s) → Forall (fun g => 0 ≤ g ∧ ¬ held (al_reservations s) (id, g)) gs →
  match fold_m (reclaim_granule id) acc gs s with
  | (s', Err err) => alloc_ok (al_targets s') (al_reservations s') ∧ al_reservations s' = al_reservations s ∧ same_meta s s' ∧ (err = NotFound_ ∨ err = InvalidArgument_) ∧
      ∃ g, g ∈ gs ∧ bad_granule (al_targets s) (id, g)
  | (s', Ok acc') =>
      alloc_ok (al_targets s') (al_reservations s') ∧ al_reservations s' = al_reservations s ∧ evolves (al_targets s) (al_targets s') ∧
      same_meta s s' ∧ acc.2 ⊆ acc'.2 ∧ only_dirty (al_targets s) (al_targets s') acc'.2 ∧
      ∀ q, free_at (al_targets s') q ↔ free_at (al_targets s) q ∨ (q.1 = id ∧ q.2 ∈ gs)
  end.
Proof.
  revert acc s. induction gs as [|g gs IH]; intros acc s HI Hgs.
  { cbn. split_and!; try done; [apply evolves_refl, HI|]. intros q. rewrite elem_of_nil. tauto. }
  apply Forall_cons in Hgs as [[Hg Hn] Hgs]. pose proof (reclaim_granule_ok id acc g s HI Hg Hn) as H1.
  destruct (reclaim_granule id acc g s) as [s1 [a1|err]] eqn:E1; cbn [fold_m]; [|rewrite (M_bind_Err _ _ _ _ _ E1); destruct H1 as (-> & ? & ?); split_and!; try done; exists g; by split; [left|]].
  rewrite (M_bind_run _ _ _ _ _ E1). destruct H1 as (HI1 & HR1 & He1 & Hm1 & Hd1 & Ho1 & Hf1).
  specialize (IH a1 s1 HI1). rewrite HR1 in IH. specialize (IH Hgs). destruct (fold_m (reclaim_granule id) a1 gs s1) as [s2 [a2|err]].
  - destruct IH as (HI2 & HR2 & He2 & Hm2 & Hd2 & Ho2 & Hf2).
    split_and!; [done|by rewrite HR2|by eapply evolves_trans|by eapply same_meta_trans|set_solver| |].
    + intros j Hj. rewrite Ho2 by done. apply Ho1. set_solver.
    + intros [j x]. rewrite Hf2, Hf1. cbn. rewrite elem_of_cons. naive_solver.
  - destruct IH as (HI2 & HR2 & Hm2 & ? & x & Hx & Hbad). split_and!; [done|done|by eapply same_meta_trans|done|].
    exists x. split; [by right|]. by eapply bad_granule_evolves.
Qed.

Definition granule_of (g : TargetGranule) : list byte * Z := (tg_target_id g, tg_granule_index g).

Lemma elem_of_default_Some {A : Type} (x : A) l : x ∈ default [] (Some l) ↔ x ∈ l.
Proof. done. Qed.

Lemma group_granules_elem granules id gs g :
  group_granules granules !! id = Some gs → g ∈ gs ↔ (id, g) ∈ granule_of <$> granules.
Proof.
  unfold group_granules.
  assert (∀ (m : by_id (list Z)) id g,
    g ∈ default [] (foldl (fun (m : by_id (list Z)) g => <[tg_target_id g := default [] (m !! tg_target_id g) ++ [tg_granule_index g]]> m) m granules !! id) ↔
    g ∈ default [] (m !! id) ∨ (id, g) ∈ granule_of <$> granules) as H.
  { induction granules as [|x granules IH]; intros m i y; cbn [foldl fmap list_fmap]; [rewrite elem_of_nil; tauto|].
    rewrite IH, elem_of_cons. unfold granule_of at 2. destruct (decide (i = tg_target_id x)) as [->|Hne].
    - rewrite lookup_insert_eq, elem_of_default_Some, elem_of_app, list_elem_of_singleton. naive_solver.
    - rewrite lookup_insert_ne by done. naive_solver. }
  intros E. specialize (H ∅ id g). rewrite E in H. cbn in H. rewrite H, elem_of_nil. tauto.
Qed.

Lemma group_granules_dom granules id g : (id, g) ∈ granule_of <$> granules → is_Some (group_granules granules !! id).
Proof.
  unfold group_granules. assert (∀ (m : by_id (list Z)),
    is_Some (m !! id) ∨ (∃ g, (id, g) ∈ granule_of <$> granules) →
    is_Some (foldl (fun (m : by_id (list Z)) g => <[tg_target_id g := default [] (m !! tg_target_id g) ++ [tg_granule_index g]]> m) m granules !! id)) as H.
  { induction granules as [|x granules IH]; intros m; cbn; [intros [?|(y & Hy%elem_of_nil)]; done|]. intros Hor. apply IH.
    destruct (decide (id = tg_target_id x)) as [->|Hne]; [left; by rewrite lookup_insert_eq|].
    destruct Hor as [?|(y & [[= ? ?]|Hy]%elem_of_cons)]; [left; by rewrite lookup_insert_ne|done|right; by exists y]. }
  intros Hg. apply H. right. by exists g.
Qed.

Lemma reclaim_loop_ok l acc s :
  alloc_ok (al_targets s) (al_reservations s) →
  Forall (fun '(id, gs) => Forall (fun g => 0 ≤ g ∧ ¬ held (al_reservations s) (id, g)) gs) l →
  match fold_m (fun acc '(target_id, indexes) =>
    s ← get_state; _ ← lift (ok_or (al_targets s !! target_id) NotFound_); fold_m (reclaim_granule target_id) acc indexes) acc l s with
  | (s', Err err) => alloc_ok (al_targets s') (al_reservations s') ∧ al_reservations s' = al_reservations s ∧ same_meta s s' ∧ (err = NotFound_ ∨ err = InvalidArgument_) ∧
      ∃ id gs, (id, gs) ∈ l ∧ (al_targets s !! id = None ∨ ∃ g, g ∈ gs ∧ bad_granule (al_targets s) (id, g))
  | (s', Ok acc') =>
      alloc_ok (al_targets s') (al_reservations s') ∧ al_reservations s' = al_reservations s ∧ evolves (al_targets s) (al_targets s') ∧
      same_meta s s' ∧ acc.2 ⊆ acc'.2 ∧ only_dirty (al_targets s) (al_targets s') acc'.2 ∧
      ∀ q, free_at (al_targets s') q ↔ free_at (al_targets s) q ∨ ∃ gs, (q.1, gs) ∈ l ∧ q.2 ∈ gs
  end.
Proof.
  revert acc s. induction l as [|[id gs] l IH]; intros acc s HI Hl.
  { cbn. split_and!; try done; [apply evolves_refl, HI|]. intros q. setoid_rewrite elem_of_nil. naive_solver. }
  apply Forall_cons in Hl as [Hgs Hl]. cbn [fold_m]. unfold mbind at 1, M_mbind at 1, mbind at 1, M_mbind at 1, get_state at 1, mbind at 1, M_mbind at 1, lift at 1.
  destruct (al_targets s !! id) as [t|] eqn:Ht; cbn [ok_or]; [|split_and!; try done; [by left|]; exists id, gs; split; [by left|by left]].
  pose proof (reclaim_granules_ok id gs acc s HI Hgs) as H1.
  destruct (fold_m (reclaim_granule id) acc gs s) as [s1 [a1|err]].
  2:{ destruct H1 as (? & ? & ? & ? & ?). split_and!; try done. exists id, gs. split; [by left|by right]. }
  destruct H1 as (HI1 & HR1 & He1 & Hm1 & Hd1 & Ho1 & Hf1). specialize (IH a1 s1 HI1). rewrite HR1 in IH. specialize (IH Hl).
  destruct (fold_m _ a1 l s1) as [s2 [a2|err]].
  - destruct IH as (HI2 & HR2 & He2 & Hm2 & Hd2 & Ho2 & Hf2).
    split_and!; [done|done|by eapply evolves_trans|by eapply same_meta_trans|set_solver| |].
    + intros j Hj. rewrite Ho2 by done. apply Ho1. set_solver.
    + intros [j x]. rewrite Hf2, Hf1. cbn. setoid_rewrite elem_of_cons. naive_solver.
  - destruct IH as (HI2 & HR2 & Hm2 & ? & id' & gs' & Hin & Hbad). split_and!; [done|done|by eapply same_meta_trans|done|].
    exists id', gs'. split; [by right|]. destruct Hbad as [Hb|(g & Hg & Hb)].
    + left. specialize (He1 id'). rewrite Hb in He1. by destruct (al_targets s !! id').
    + right. exists g. split; [done|]. by eapply bad_granule_evolves.
Qed.

Lemma group_granules_named granules id gs : group_granules granules !! id = Some gs → id ∈ tg_target_id <$> granules.
Proof.
  unfold group_granules. assert (∀ (m : by_id (list Z)),
    is_Some (foldl (fun (m : by_id (list Z)) g => <[tg_target_id g := default [] (m !! tg_target_id g) ++ [tg_granule_index g]]> m) m granules !! id) →
    is_Some (m !! id) ∨ id ∈ tg_target_id <$> granules) as H.
  { induction granules as [|x granules IH]; intros m; cbn; [by left|]. intros [Hs|Hin]%IH; [|right; by right].
    destruct (decide (id = tg_target_id x)) as [->|Hne]; [right; by left|left]. by rewrite lookup_insert_ne in Hs. }
  intros E. destruct (H ∅ ltac:(by eexists)) as [[? Hx]|?]; done.
Qed.

Lemma reclaim_in_memory_ok granules s :
  alloc_ok (al_targets s) (al_reservations s) →
  Forall (fun g => 0 ≤ tg_granule_index g ∧ ¬ held (al_reservations s) (granule_of g)) granules →
  match reclaim_in_memory granules s with
  | (s', Err err) => alloc_ok (al_targets s') (al_reservations s') ∧ al_reservations s' = al_reservations s ∧ same_meta s s' ∧ (err = NotFound_ ∨ err = InvalidArgument_) ∧
      ∃ g, g ∈ granules ∧ bad_granule (al_targets s) (granule_of g)
  | (s', Ok (count, dirty)) =>
      alloc_ok (al_targets s') (al_reservations s') ∧ al_reservations s' = al_reservations s ∧ evolves (al_targets s) (al_targets s') ∧
      same_meta s s' ∧ only_dirty (al_targets s) (al_targets s') dirty ∧
      ∀ q, free_at (al_targets s') q ↔ free_at (al_targets s) q ∨ q ∈ granule_of <$> granules
  end.
Proof.
  intros HI Hg. unfold reclaim_in_memory. pose proof (reclaim_loop_ok (map_to_list (group_granules granules)) (0, ∅) s HI) as H.
  assert (Forall (fun '(id, gs) => Forall (fun g => 0 ≤ g ∧ ¬ held (al_reservations s) (id, g)) gs) (map_to_list (group_granules granules))) as Hall.
  { apply Forall_forall; intros [id gs] Hin%elem_of_map_to_list; apply Forall_forall; intros g Hgg;
    apply (group_granules_elem _ _ _ _ Hin), list_elem_of_fmap in Hgg as (x & [= -> ->] & Hx); rewrite Forall_forall in Hg; by apply Hg. }
  specialize (H Hall). destruct (fold_m _ _ _ s) as [s' [[n dirty]|err]].
  - destruct H as (HI' & HR & He & Hm & _ & Ho & Hf). split_and!; try done. intros [id g]. rewrite Hf. cbn. apply or_iff_compat_l. split.
    + intros (gs & Hin%elem_of_map_to_list & Hgg). by apply (group_granules_elem _ _ _ _ Hin).
    + intros Hin. destruct (group_granules_dom _ _ _ Hin) as [gs Hgs]. exists gs. split; [by apply elem_of_map_to_list|].
      by apply (group_granules_elem _ _ _ _ Hgs).
  - destruct H as (HI' & HR & Hm & Herr & id & gs & Hin%elem_of_map_to_list & Hbad). split_and!; try done. destruct Hbad as [Hb|(g & Hgg & Hb)].
    + apply group_granules_named, list_elem_of_fmap in Hin as (x & -> & Hx). exists x. split; [done|]. unfold bad_granule. cbn. by rewrite Hb.
    + apply (group_granules_elem _ _ _ _ Hin), list_elem_of_fmap in Hgg as (x & [= -> ->] & Hx). by exists x.
Qed.

(** ** Targets *)

(** A target that comes back has the granules it had; a new one has some. *)
Definition registration_ok (T : targets) (target : TargetRecord) : Prop :=
  match T !! tr_target_id target with
  | Some t => tr_granule_count target = tr_granule_count (ta_target t)
  | None => 0 < tr_granule_count target < 2 ^ 64
  end.

Lemma full_span_ok target : 0 < tr_granule_count target < 2 ^ 64 → target_ok (with_spans (full_span target) (mkTargetState target (full_span target))).
Proof.
  intros Hc. unfold target_ok, with_spans, full_span, ta_free. cbn. split_and!; try lia.
  unfold span_free_count. cbn. rewrite wrap_small; unfold fits; lia.
Qed.

Lemma insert_target_ok T R id t :
  alloc_ok T R → ta_id t = id → target_ok t →
  match T !! id with
  | Some u => ta_spans t = ta_spans u ∧ tr_granule_count (ta_target t) = tr_granule_count (ta_target u)
  | None => True
  end → alloc_ok (<[id := t]> T) R.
Proof.
  intros HI Eid Hok Hsame. split; try apply HI.
  - intros j u [[<- <-]|[Hne Hu]]%lookup_insert_Some; [done|by apply HI].
  - intros q Hq. destruct (ao_held _ _ HI q Hq) as (u & Hu & Hr & Hn). destruct (decide (q.1 = id)) as [E|Hne].
    + rewrite E in Hu. rewrite Hu in Hsame. destruct Hsame as [Hs Hc]. exists t. rewrite E, lookup_insert_eq, Hs, Hc. done.
    + exists u. by rewrite lookup_insert_ne.
Qed.

Lemma register_in_memory_ok target R s :
  alloc_ok (al_targets s) R → registration_ok (al_targets s) target →
  match register_in_memory target s with
  | (s', Err err) => s' = s ∧ err = InvalidArgument_
  | (s', Ok (stored, is_new)) =>
      s' = set_targets (<[ta_id stored := stored]> (al_targets s)) s ∧ alloc_ok (al_targets s') R ∧
      is_new = bool_decide (al_targets s !! ta_id stored = None) ∧
      match al_targets s !! ta_id stored with
      | Some t => ta_spans stored = ta_spans t
      | None => ta_spans stored = full_span (ta_target stored)
      end
  end.
Proof.
  intros HI Hreg. unfold register_in_memory. destruct (blank _); [done|]. unfold mbind, M_mbind, get_state.
  set (target' := if _ =? _ then _ else _). cbn.
  assert (tr_target_id target' = tr_target_id target ∧ tr_granule_count target' = tr_granule_count target) as [Eid Ec]
    by (unfold target'; by destruct (_ =? _)).
  unfold registration_ok in Hreg. rewrite <-Eid, <-Ec in Hreg. clearbody target'.
  unfold ta_id, with_spans. cbn. destruct (al_targets s !! tr_target_id target') as [t|] eqn:Ht; cbn; autorewrite with alloc.
  - destruct (ao_targets _ _ HI _ _ Ht) as [Et (Hc & Hs & Hf)]. split_and!; [done| |done|done].
    apply insert_target_ok; [done|done| |by rewrite Ht].
    apply (with_spans_count (ta_spans t) (mkTargetState target' (ta_spans t))); cbn; by rewrite Hreg.
  - split_and!; [done| |done|done]. apply insert_target_ok; [done|done|by apply full_span_ok|by rewrite Ht].
Qed.

(** Updates that keep the id, the capacity and the count of a target. *)
Definition span_neutral (f : TargetRecord → TargetRecord) : Prop :=
  ∀ t, tr_target_id (f t) = tr_target_id t ∧ tr_granule_count (f t) = tr_granule_count t ∧ tr_free_granules (f t) = tr_free_granules t.

Lemma update_entry_ok id f R s :
  alloc_ok (al_targets s) R → span_neutral f →
  match update_entry id f s with
  | (s', Err err) => s' = s ∧ err = NotFound_
  | (s', Ok entry) =>
      s' = set_targets (<[ta_id entry := entry]> (al_targets s)) s ∧ alloc_ok (al_targets s') R ∧
      ta_id entry = id ∧ ∃ t, al_targets s !! id = Some t ∧ ta_spans entry = ta_spans t
  end.
Proof.
  intros HI Hf. unfold update_entry. unfold mbind, M_mbind, get_state, lift.
  destruct (al_targets s !! id) as [t|] eqn:Ht; cbn; [|done]. destruct (ao_targets _ _ HI _ _ Ht) as [Et Hok].
  destruct (Hf (ta_target t)) as (F1 & F2 & F3). unfold ta_id in *. cbn. rewrite F1, Et. split_and!; [done| |done|by exists t].
  autorewrite with alloc. apply insert_target_ok; [done|unfold ta_id; cbn; congruence| |by rewrite Ht].
  destruct Hok as (H1 & H2 & H3). unfold target_ok, ta_free in *. cbn. by rewrite F2, F3.
Qed.

Lemma with_health_neutral healthy at_ms : span_neutral (with_health healthy at_ms).
Proof. intros t. done. Qed.

Lemma set_state_neutral state now :
  span_neutral (fun t =>
    let t := with_lifecycle state t in
    if state =? TARGET_LIFECYCLE_ACTIVE then with_health true now t
    else if state =? TARGET_LIFECYCLE_UNHEALTHY then with_health false now t
    else t).
Proof. intros t. cbv zeta. by destruct (state =? TARGET_LIFECYCLE_ACTIVE), (state =? TARGET_LIFECYCLE_UNHEALTHY). Qed.

Lemma reset_in_memory_ok s :
  targets_ok (al_targets s) →
  let '(s', dirty) := reset_in_memory s in
  alloc_ok (al_targets s') (al_reservations s') ∧ al_reservations s' = ∅ ∧ same_meta s s' ∧ dirty = (map_to_list (al_targets s')).*2 ∧
  (∀ q, free_at (al_targets s') q ↔ ∃ t, al_targets s !! q.1 = Some t ∧ 0 ≤ q.2 < tr_granule_count (ta_target t)) ∧
  ∀ id, is_Some (al_targets s' !! id) ↔ is_Some (al_targets s !! id).
Proof.
  intros HT. unfold reset_in_memory. autorewrite with alloc. split_and!; try done.
  - split; try (by intros id r ?%lookup_empty_Some); [| |by intros q (id & r & ?%lookup_empty_Some & _)].
    + intros id t. rewrite lookup_fmap_Some. intros (u & <- & Hu). destruct (HT id u Hu) as [Eid (Hc & _)]. split; [done|].
      unfold target_ok, ta_free, full_span. cbn. lia.
    + by intros id1 r1 id2 r2 q ?%lookup_empty_Some.
  - intros q. unfold free_at. autorewrite with alloc. setoid_rewrite lookup_fmap_Some. split.
    + intros (t & (u & <- & Hu) & Hf). exists u. split; [done|]. cbn in Hf. apply is_free_cons in Hf as [Hf|Hf]; [|by apply Exists_nil in Hf].
      unfold in_span in Hf. cbn in Hf. lia.
    + intros (u & Hu & Hr). eexists. split; [by exists u|]. cbn. apply is_free_cons. left. unfold in_span. cbn. lia.
  - intros id. autorewrite with alloc. rewrite lookup_fmap, fmap_is_Some. done.
Qed.
