(* ===== verification/KasStore.v ===== *)
(** What the granule allocator stores (poc/kas/src/fdb_schema.rs, fdb_store.rs): targets,
    spans and reservations in FoundationDB, the fence on writes, and how the state in
    memory is written and refreshed. [KasService] has the leases and the operations.

    JSON enters as a codec; UUIDs and the clock as sequences of the values that successive
    calls return. A transaction commits or fails as a whole. *)
From S2P Require Import Prelude Bytes Sorts Fdb KmsKeys KmsValues KmsStore Placement Kas.

(** ** Keys (fdb_schema.rs) *)

Definition KAS_NAMESPACE : list byte := bstr "KAS1".
Definition KAS_KEYSPACE_VERSION : byte := x01.
Definition PREFIX_TARGET : byte := x01.
Definition PREFIX_RESERVATION : byte := x02.
Definition PREFIX_COORDINATION_LEASE : byte := x04.
Definition PREFIX_RESERVATION_BIN : byte := x05.
Definition PREFIX_ALLOCATOR_STATE : byte := x06.
Definition PREFIX_TARGET_SPAN : byte := x07.

Definition kas_encode_key (prefix : byte) (segments : list (list byte)) : list byte :=
  KAS_NAMESPACE ++ [KAS_KEYSPACE_VERSION; prefix] ++ concat (push_segment <$> segments).

Definition kas_prefix_range_end (prefix : list byte) : list byte :=
  match bump_last (reverse prefix) with
  | Some bumped => reverse bumped
  | None => prefix ++ [x00]
  end.

Definition target_key (target_id : list byte) : list byte := kas_encode_key PREFIX_TARGET [target_id].
Definition target_prefix : list byte := kas_encode_key PREFIX_TARGET [].
Definition target_span_chunk_key (target_id : list byte) (chunk_index : Z) : list byte :=
  kas_encode_key PREFIX_TARGET_SPAN [target_id; dec_padded 10 chunk_index].
Definition target_span_prefix (target_id : list byte) : list byte := kas_encode_key PREFIX_TARGET_SPAN [target_id].
Definition target_span_all_prefix : list byte := kas_encode_key PREFIX_TARGET_SPAN [].
Definition reservation_key (reservation_id : list byte) : list byte := kas_encode_key PREFIX_RESERVATION [reservation_id].
Definition reservation_prefix : list byte := kas_encode_key PREFIX_RESERVATION [].
Definition coordination_lease_key (lease_name : list byte) : list byte := kas_encode_key PREFIX_COORDINATION_LEASE [lease_name].
Definition reservation_bin_member_key (bin_key reservation_id : list byte) : list byte :=
  kas_encode_key PREFIX_RESERVATION_BIN [bin_key; reservation_id].
Definition reservation_bin_prefix (bin_key : list byte) : list byte := kas_encode_key PREFIX_RESERVATION_BIN [bin_key].

(** [str::trim]: the longest blank prefix is dropped, then the longest blank suffix. *)
Definition trim_start (l : list byte) : list byte :=
  drop (list_max (filter (fun n => blank (take n l) = true) (seq 0 (S (length l))))) l.
Fixpoint trim_end (l : list byte) : list byte :=
  if blank l then [] else match l with [] => [] | b :: l' => b :: trim_end l' end.

(** The shard after [trim], when it is not empty. *)
Definition trimmed_shard (shard : option (list byte)) : option (list byte) :=
  s ← shard; let s := trim_end (trim_start s) in if bool_decide (s = []) then None else Some s.

Definition ALLOCATOR_MUTATION_LEASE_BASE : list byte := bstr "kas-allocator-mutation".

Definition allocator_mutation_lease_name (shard : option (list byte)) : list byte :=
  match trimmed_shard shard with
  | Some s => ALLOCATOR_MUTATION_LEASE_BASE ++ bstr "/" ++ s
  | None => ALLOCATOR_MUTATION_LEASE_BASE
  end.

Definition allocator_state_stamp_key (shard : option (list byte)) : list byte :=
  match trimmed_shard shard with
  | Some s => kas_encode_key PREFIX_ALLOCATOR_STATE [bstr "stamp"; s]
  | None => kas_encode_key PREFIX_ALLOCATOR_STATE [bstr "stamp"]
  end.

(** ** Stored records *)

Record TargetSpanChunk := mkSpanChunk { sc_target_id : list byte; sc_chunk_index : Z; sc_spans : list GranuleSpan }.
Record AllocatorStateStampRecord := mkStamp { st_stamp_id : list byte; st_updated_at_unix_ms : Z; st_owner_id : list byte }.
Record CoordinationLeaseRecord := mkLease { cl_owner_id : list byte; cl_expires_at_unix_ms : Z; cl_epoch : Z }.

(** [serde_json::to_vec] and [from_slice] for the stored types. *)
Class KasCodec := {
  encode_target : TargetRecord → list byte;
  decode_target : list byte → option TargetRecord;
  encode_chunk : TargetSpanChunk → list byte;
  decode_chunk : list byte → option TargetSpanChunk;
  encode_reservation : PlacementReservationRecord → list byte;
  decode_reservation : list byte → option PlacementReservationRecord;
  encode_stamp : AllocatorStateStampRecord → list byte;
  decode_stamp : list byte → option AllocatorStateStampRecord;
  encode_lease : CoordinationLeaseRecord → list byte;
  decode_lease : list byte → option CoordinationLeaseRecord;
}.

Definition SPANS_PER_CHUNK : nat := 1024.
Definition REFILL_PERSIST_BATCH_MAX : Z := 1024.
Definition MAX_TXN_BYTES : Z := 4 * 1024 * 1024.
Definition MAX_ROWS_PER_TXN : Z := 5000.

(** [slice::chunks] *)
Fixpoint span_chunks (fuel n : nat) (spans : list GranuleSpan) : list (list GranuleSpan) :=
  match fuel, spans with
  | S fuel', _ :: _ => take n spans :: span_chunks fuel' n (drop n spans)
  | _, _ => []
  end.

Definition split_spans_into_chunks (target_id : list byte) (spans : list GranuleSpan) : list TargetSpanChunk :=
  match spans with
  | [] => [mkSpanChunk target_id 0 []]
  | _ => imap (fun i slice => mkSpanChunk target_id (Z.of_nat i) slice) (span_chunks (length spans) SPANS_PER_CHUNK spans)
  end.

Definition chunk_leb (a b : TargetSpanChunk) : bool :=
  bytes_ltb (sc_target_id a) (sc_target_id b) ||
  (bool_decide (sc_target_id a = sc_target_id b) && (sc_chunk_index a <=? sc_chunk_index b)).

Definition assemble_spans_from_chunks (chunks : list TargetSpanChunk) : gmap (list byte) (list GranuleSpan) :=
  foldl (fun (m : gmap (list byte) (list GranuleSpan)) chunk =>
    <[sc_target_id chunk := default [] (m !! sc_target_id chunk) ++ sc_spans chunk]> m) ∅ (sort_by chunk_leb chunks).

Inductive WriteOp : Set :=
| OpClearRange (begin end_ : list byte)
| OpSet (key value : list byte)
| OpClear (key : list byte).

(** [is_empty] *)
Definition is_nil {A : Type} (l : list A) : bool := match l with [] => true | _ => false end.

Inductive EpochFence : Set := Leased | Unfenced.

(** Whether [owner_id] may take or keep a lease, and the epoch it would hold. *)
Definition decide_lease_grant (existing : option CoordinationLeaseRecord) (owner_id : list byte) (now_ms : Z) : bool * Z :=
  match existing with
  | None => (true, 1)
  | Some lease =>
      let same_owner := bool_decide (cl_owner_id lease = owner_id) in
      let live := now_ms <? cl_expires_at_unix_ms lease in
      if same_owner && live then (true, cl_epoch lease)
      else if negb live then (true, saturating_add64 (cl_epoch lease) 1)
      else (false, 0)
  end.

(** ** An instance of the service *)

Record LeadershipTerm := mkTerm { lt_epoch : Z; lt_lease_expires_at_unix_ms : Z }.

(** What an instance keeps in memory. *)
Record Kas := mkKas {
  ka_state : AllocatorState;
  ka_leadership : option LeadershipTerm;
  ka_deferred_bin_member_deletes : list (list byte * list byte);
}.

Definition Kas_default : Kas := mkKas AllocatorState_default None [].

Record KasConfig := mkKasConfig {
  kc_owner_id : list byte;
  kc_allocation_shard_id : option (list byte);
  kc_leader_resident_lease : bool;
}.

(** The database, how often the clock and the UUID generator were used, and one instance. *)
Record World (KV : Type) := mkWorld { w_db : KV; w_ticks : nat; w_uuids : nat; w_kas : Kas }.
Arguments mkWorld {KV}.
Arguments w_db {KV}.
Arguments w_ticks {KV}.
Arguments w_uuids {KV}.
Arguments w_kas {KV}.

Definition ALLOCATOR_MUTATION_LEASE_TTL_MS : Z := 30000.
Definition ALLOCATOR_MUTATION_RENEW_FRACTION : Z := 2.

(** What an instance is started with: its configuration, the values of its clock and of its
    UUID generator, and the hash of [domain_order_bias]. *)
Class KasEnv := {
  config : KasConfig;
  clock : nat → Z;
  uuid : nat → list byte;
  domain_order_bias : list byte → list byte → Z;
}.

Section kas.
Context {KV : Type} {Hdb : Fdb KV} {Hcodec : KasCodec} {Henv : KasEnv}.

Abbreviation W := (World KV).

Definition now_unix_ms : M W Status Z := fun w =>
  (mkWorld (w_db w) (S (w_ticks w)) (w_uuids w) (w_kas w), Ok (clock (w_ticks w))).
Definition new_uuid : M W Status (list byte) := fun w =>
  (mkWorld (w_db w) (w_ticks w) (S (w_uuids w)) (w_kas w), Ok (uuid (w_uuids w))).

(** [db.run(...)] with [map_fdb_binding_error]: every failure is an internal error. *)
Definition db_run {A : Type} (t : M KV Status A) : M W Status A := fun w =>
  let '(db, r) := run t (w_db w) in
  (mkWorld db (w_ticks w) (w_uuids w) (w_kas w), map_err (fun _ => Internal_) r).

(** Code under the state lock. *)
Definition on_state {A : Type} (f : M AllocatorState Status A) : M W Status A := fun w =>
  let '(s, r) := f (ka_state (w_kas w)) in
  (mkWorld (w_db w) (w_ticks w) (w_uuids w) (mkKas s (ka_leadership (w_kas w)) (ka_deferred_bin_member_deletes (w_kas w))), r).
Definition get_alloc : M W Status AllocatorState := fun w => (w, Ok (ka_state (w_kas w))).

Definition set_leadership (term : option LeadershipTerm) : M W Status unit := fun w =>
  (mkWorld (w_db w) (w_ticks w) (w_uuids w) (mkKas (ka_state (w_kas w)) term (ka_deferred_bin_member_deletes (w_kas w))), Ok tt).
Definition get_leadership : M W Status (option LeadershipTerm) := fun w => (w, Ok (ka_leadership (w_kas w))).
Definition set_deferred (l : list (list byte * list byte)) : M W Status unit := fun w =>
  (mkWorld (w_db w) (w_ticks w) (w_uuids w) (mkKas (ka_state (w_kas w)) (ka_leadership (w_kas w)) l), Ok tt).
Definition get_deferred : M W Status (list (list byte * list byte)) := fun w => (w, Ok (ka_deferred_bin_member_deletes (w_kas w))).

Definition lease_key : list byte := coordination_lease_key (allocator_mutation_lease_name (kc_allocation_shard_id config)).
Definition stamp_key : list byte := allocator_state_stamp_key (kc_allocation_shard_id config).

(** ** Writing *)

Definition apply_write_op (op : WriteOp) : M KV Status unit :=
  match op with
  | OpClearRange b e => trx_clear_range (b, e)
  | OpSet k v => trx_set k v
  | OpClear k => trx_clear k
  end.

(** The epoch in the lease record; none is epoch 0. *)
Definition stored_epoch (value : option (list byte)) : result Status Z :=
  match value with
  | Some bytes => lease ← ok_or (decode_lease bytes) Internal_; Ok (cl_epoch lease)
  | None => Ok 0
  end.

Definition commit_txn (ops : list WriteOp) (fence_epoch : option Z) : M KV Status unit :=
  _ ← match fence_epoch with
      | Some expected =>
          value ← trx_get lease_key;
          actual ← lift (stored_epoch value);
          if actual =? expected then mret tt else lift (Err Aborted_)
      | None => mret tt
      end;
  trx_each apply_write_op ops.

Definition commit_write_ops (ops : list WriteOp) (fence_epoch : option Z) : M W Status unit :=
  db_run (commit_txn ops fence_epoch).

(** The writes of one target and their size. *)
Definition build_target_write_unit (rewrite_spans : bool) (t : TargetAllocatorState) : list WriteOp * Z :=
  let record := OpSet (target_key (ta_id t)) (encode_target (ta_target t)) in
  let size := len (target_key (ta_id t)) + len (encode_target (ta_target t)) in
  if rewrite_spans then
    let chunks := (fun c => (target_span_chunk_key (ta_id t) (sc_chunk_index c), encode_chunk c)) <$>
                  split_spans_into_chunks (ta_id t) (ta_spans t) in
    let prefix := target_span_prefix (ta_id t) in
    (record :: OpClearRange prefix (kas_prefix_range_end prefix) :: ((fun '(k, v) => OpSet k v) <$> chunks),
     foldl (fun n '(k, v) => n + (len k + len v)) size chunks)
  else ([record], size).

Definition set_unit (key value : list byte) : list WriteOp * Z := ([OpSet key value], len key + len value).
Definition clear_unit (key : list byte) : list WriteOp * Z := ([OpClear key], len key).

(** Units go into transactions of bounded size. *)
Fixpoint commit_units (fence_epoch : option Z) (units : list (list WriteOp * Z)) (batch : list WriteOp) (batch_bytes : Z) :
    M W Status unit :=
  match units with
  | [] => if is_nil batch then mret tt else commit_write_ops batch fence_epoch
  | (ops, bytes) :: units' =>
      if negb (is_nil batch) && (MAX_TXN_BYTES <? saturating_add64 batch_bytes bytes) then
        _ ← commit_write_ops batch fence_epoch;
        commit_units fence_epoch units' ops (saturating_add64 0 bytes)
      else commit_units fence_epoch units' (batch ++ ops) (saturating_add64 batch_bytes bytes)
  end.

(** The epoch to assert: a leased write without leadership is refused. *)
Definition fence_epoch_of (fence : EpochFence) : M W Status (option Z) :=
  match fence with
  | Leased =>
      term ← get_leadership;
      match term with
      | Some term => mret (Some (lt_epoch term))
      | None => lift (Err Aborted_)
      end
  | Unfenced => mret None
  end.

(** Everything [persist_state] is given, service instances aside. *)
Record Changes := mkChanges {
  ch_targets : list TargetAllocatorState;
  ch_reservations : list PlacementReservationRecord;
  ch_delete_reservations : list (list byte);
  ch_delete_bin_members : list (list byte * list byte);
  ch_add_bin_members : list (list byte * list byte);
  ch_rewrite_spans : bool;
}.

Definition change_units (c : Changes) : list (list WriteOp * Z) :=
  (build_target_write_unit (ch_rewrite_spans c) <$> ch_targets c) ++
  ((fun r => set_unit (reservation_key (rr_reservation_id r)) (encode_reservation r)) <$> ch_reservations c) ++
  ((fun id => clear_unit (reservation_key id)) <$> ch_delete_reservations c) ++
  ((fun '(bin, id) => clear_unit (reservation_bin_member_key bin id)) <$> ch_delete_bin_members c) ++
  ((fun '(bin, id) => set_unit (reservation_bin_member_key bin id) id) <$> ch_add_bin_members c).

Definition no_changes (c : Changes) : bool :=
  is_nil (ch_targets c) && is_nil (ch_reservations c) && is_nil (ch_delete_reservations c) &&
  is_nil (ch_delete_bin_members c) && is_nil (ch_add_bin_members c).

Definition with_stamp (stamp_id : list byte) (s : AllocatorState) : AllocatorState :=
  mkAllocator (al_targets s) (al_reservations s) (al_bins s) (Some stamp_id) true (al_reservation_state_loaded s)
    (al_committed_granules s).

Definition persist_state (c : Changes) (fence : EpochFence) : M W Status unit :=
  fence_epoch ← fence_epoch_of fence;
  if no_changes c then commit_units fence_epoch (change_units c) [] 0
  else
    stamp_id ← new_uuid;
    now ← now_unix_ms;
    let stamp := mkStamp stamp_id now (kc_owner_id config) in
    _ ← commit_units fence_epoch (change_units c ++ [([OpSet stamp_key (encode_stamp stamp)], 0)]) [] 0;
    on_state (modify_state (with_stamp stamp_id)).

(** Only the records of claimed reservations, without a new stamp. *)
Definition persist_claim_ttl_bumps_lock_light (claimed : list PlacementReservationRecord) : M W Status unit :=
  fence_epoch ← fence_epoch_of Leased;
  commit_units fence_epoch ((fun r => set_unit (reservation_key (rr_reservation_id r)) (encode_reservation r)) <$> claimed) [] 0.

Definition flush_deferred_bin_member_deletes : M W Status unit :=
  pending ← get_deferred;
  if is_nil pending then mret tt
  else
    _ ← set_deferred [];
    term ← get_leadership;
    match term with
    | None => mret tt
    | Some term => commit_units (Some (lt_epoch term)) ((fun '(bin, id) => clear_unit (reservation_bin_member_key bin id)) <$> pending) [] 0
    end.

(** Drops every reservation; the prefix of the bins is that of the bin named by no bytes. *)
Definition clear_all_reservations_and_bins : M W Status unit :=
  stamp_id ← new_uuid;
  now ← now_unix_ms;
  _ ← db_run (
    _ ← trx_clear_range (reservation_prefix, kas_prefix_range_end reservation_prefix);
    _ ← trx_clear_range (reservation_bin_prefix [], kas_prefix_range_end (reservation_bin_prefix []));
    trx_set stamp_key (encode_stamp (mkStamp stamp_id now (kc_owner_id config))));
  on_state (modify_state (fun s => set_loaded true true (with_stamp stamp_id s))).

(** ** Reading *)

(** The rows of a page: until one of the limits is reached; whether there may be more. *)
Fixpoint page_rows (rows bytes : Z) (kvs : list (list byte * list byte)) : list (list byte * list byte) * bool :=
  match kvs with
  | [] => ([], false)
  | (k, v) :: kvs' =>
      let bytes := bytes + (len k + len v) in
      if (MAX_ROWS_PER_TXN <=? rows + 1) || (MAX_TXN_BYTES <=? bytes) then ([(k, v)], true)
      else let '(page, more) := page_rows (rows + 1) bytes kvs' in ((k, v) :: page, more)
  end.

(** Pages of a range; [fuel] pages at most. *)
Fixpoint scan_pages (fuel : nat) (begin end_ : list byte) : M W Status (list (list byte)) :=
  match fuel with
  | O => mret []
  | S fuel' =>
      '(page, more) ← db_run (
         kvs ← trx_range_limit (begin, end_) MAX_ROWS_PER_TXN;
         mret (page_rows 0 0 kvs));
      if (more : bool) then
        match last page with
        | Some (k, _) => rest ← scan_pages fuel' (k ++ [x00]) end_; mret (page.*2 ++ rest)
        | None => mret (page.*2)
        end
      else mret (page.*2)
  end.

(** Each page but the last has a row, so the rows bound the pages. *)
Definition scan_range_values (begin end_ : list byte) : M W Status (list (list byte)) := fun w =>
  scan_pages (S (length (kv_range begin end_ (w_db w)))) begin end_ w.

(** A whole prefix, decoded. *)
Definition load_all {A : Type} (decode : list byte → option A) (prefix : list byte) : M W Status (list A) :=
  values ← scan_range_values prefix (kas_prefix_range_end prefix);
  lift (try_map (fun bytes => ok_or (decode bytes) Internal_) values).

Definition load_all_targets : M W Status (list TargetAllocatorState) :=
  records ← load_all decode_target target_prefix;
  chunks ← load_all decode_chunk target_span_all_prefix;
  let spans := assemble_spans_from_chunks chunks in
  mret ((fun t => mkTargetState t (default [] (spans !! tr_target_id t))) <$> records).

(** The reservations in force, and the ids of the others. *)
Definition load_active_reservations : M W Status (list PlacementReservationRecord * list (list byte)) :=
  records ← load_all decode_reservation reservation_prefix;
  mret (filter (fun r => rr_state r = RESERVATION_STATE_RESERVED) records,
        rr_reservation_id <$> filter (fun r => rr_state r ≠ RESERVATION_STATE_RESERVED) records).

Definition load_allocator_state_stamp : M W Status (option (list byte)) :=
  value ← db_run (trx_get stamp_key);
  match value with
  | Some bytes => stamp ← lift (ok_or (decode_stamp bytes) Internal_); mret (Some (st_stamp_id stamp))
  | None => mret None
  end.

Definition committed_granules_present (candidates : list (list byte * Z)) : M W Status (list (list byte * Z)) :=
  if is_nil candidates then mret []
  else db_run (fold_m (fun present '(target_id, granule) =>
    value ← trx_get (committed_granule_key target_id granule);
    mret (match value with Some _ => present ++ [(target_id, granule)] | None => present end)) [] (remove_dups candidates)).

(** ** Refreshing the state in memory *)

Definition index_targets (targets : list TargetAllocatorState) : gmap (list byte) TargetAllocatorState :=
  foldl (fun m t => <[ta_id t := t]> m) ∅ targets.

Definition refresh_target_state_from_fdb : M W Status unit :=
  targets ← load_all_targets;
  stamp ← load_allocator_state_stamp;
  on_state (modify_state (fun s => mkAllocator (index_targets targets) ∅ ∅ stamp true false (al_committed_granules s))).

Definition refresh_full_state_from_fdb : M W Status unit :=
  targets ← load_all_targets;
  '(reservations, delete_reservations) ← load_active_reservations;
  _ ← (if is_nil delete_reservations then mret tt
       else persist_state (mkChanges [] [] delete_reservations [] [] false) Unfenced);
  stamp ← load_allocator_state_stamp;
  on_state (modify_state (fun s =>
    mkAllocator (index_targets targets) (insert_reservations reservations ∅) ∅ stamp true true (al_committed_granules s))).

Definition ensure_target_state_current (skip_stamp_read : bool) : M W Status unit :=
  s ← get_alloc;
  if negb (al_target_state_loaded s) then refresh_target_state_from_fdb
  else if skip_stamp_read then mret tt
  else
    remote_stamp ← load_allocator_state_stamp;
    if bool_decide (remote_stamp = al_stamp s) then mret tt else refresh_target_state_from_fdb.

Definition ensure_full_state_current (skip_stamp_read : bool) : M W Status unit :=
  s ← get_alloc;
  if negb (al_target_state_loaded s) || negb (al_reservation_state_loaded s) then refresh_full_state_from_fdb
  else if skip_stamp_read then mret tt
  else
    remote_stamp ← load_allocator_state_stamp;
    if bool_decide (remote_stamp = al_stamp s) then mret tt else refresh_full_state_from_fdb.
End kas.
