(* ===== verification/KasService.v ===== *)
(** The granule allocator's leases and operations (poc/kas/src/fdb_store.rs).

    An instance changes allocator state only while it holds the mutation lease of its
    shard: for one operation, or for a whole term when it is started leader-resident. The
    number of attempts at a lease is an argument of an operation; a caller that gives up
    drops the request, [Cancelled_]. *)
From S2P Require Import Prelude Bytes Sorts Fdb KmsKeys KmsValues KmsStore Placement Kas KasStore.

(** [let r = m.await;] without [?] *)
Definition try_ {S E A : Type} (m : M S E A) : M S E (result E A) := fun s => let '(s', r) := m s in (s', Ok r).

(** [FailureDomain as i32] *)
Definition failure_domain_code (failure_domain : FailureDomain) : Z :=
  match failure_domain with Unspecified => 0 | DriveDomainLab => 1 | Node => 2 | Rack => 3 end.

Definition bin_storage_key (fragment_count : nat) (failure_domain : FailureDomain) : list byte :=
  bstr "fc:" ++ dec_to_string (Z.of_nat fragment_count) ++ bstr ":fd:" ++ dec_to_string (failure_domain_code failure_domain).

Section kas.
Context {KV : Type} {Hdb : Fdb KV} {Hcodec : KasCodec} {Henv : KasEnv}.

Abbreviation W := (World KV).

(** ** Leases *)

Definition acquire_txn (key owner_id : list byte) (now_ms expires_at_unix_ms : Z) : M KV Status (option Z) :=
  current ← trx_get key;
  existing ← match current with
             | Some bytes => lease ← lift (ok_or (decode_lease bytes) Internal_); mret (Some lease)
             | None => mret None
             end;
  let '(available, epoch) := decide_lease_grant existing owner_id now_ms in
  if (available : bool) then
    _ ← trx_set key (encode_lease (mkLease owner_id expires_at_unix_ms epoch));
    mret (Some epoch)
  else mret None.

Definition try_acquire_coordination_lease_epoch (key owner_id : list byte) (lease_ttl_ms : Z) : M W Status (option Z) :=
  now_ms ← now_unix_ms;
  db_run (acquire_txn key owner_id now_ms (saturating_add64 now_ms (Z.max lease_ttl_ms 1000))).

Definition release_txn (key owner_id : list byte) : M KV Status unit :=
  value ← trx_get key;
  match value with
  | None => mret tt
  | Some bytes =>
      lease ← lift (ok_or (decode_lease bytes) Internal_);
      if bool_decide (cl_owner_id lease = owner_id) then trx_clear key else mret tt
  end.

Definition release_coordination_lease (key owner_id : list byte) : M W Status unit :=
  db_run (release_txn key owner_id).

(** The term that starts, or goes on, now. *)
Definition hold_term (epoch : Z) : M W Status unit :=
  now ← now_unix_ms;
  set_leadership (Some (mkTerm epoch (saturating_add64 now ALLOCATOR_MUTATION_LEASE_TTL_MS))).

Fixpoint acquire_allocator_mutation_lease (attempts : nat) : M W Status unit :=
  match attempts with
  | O => lift (Err Cancelled_)
  | S attempts' =>
      granted ← try_acquire_coordination_lease_epoch lease_key (kc_owner_id config) ALLOCATOR_MUTATION_LEASE_TTL_MS;
      match granted with
      | Some epoch => hold_term epoch
      | None => acquire_allocator_mutation_lease attempts'
      end
  end.

Definition release_allocator_mutation_lease : M W Status unit :=
  _ ← set_leadership None;
  release_coordination_lease lease_key (kc_owner_id config).

Definition step_down_leader_resident : M W Status unit :=
  _ ← set_leadership None;
  on_state (modify_state (set_loaded false false)).

Definition acquire_leader_resident_lease : M W Status bool :=
  granted ← try_acquire_coordination_lease_epoch lease_key (kc_owner_id config) ALLOCATOR_MUTATION_LEASE_TTL_MS;
  match granted with
  | None => _ ← step_down_leader_resident; mret false
  | Some epoch =>
      held ← get_leadership;
      _ ← hold_term epoch;
      _ ← (if bool_decide (lt_epoch <$> held = Some epoch) then mret tt
           else on_state (modify_state (set_loaded false false)));
      mret true
  end.

Definition renew_leader_resident_lease : M W Status unit :=
  held ← get_leadership;
  match held with
  | None => _ ← acquire_leader_resident_lease; mret tt
  | Some term =>
      now_ms ← now_unix_ms;
      if ALLOCATOR_MUTATION_LEASE_TTL_MS `div` ALLOCATOR_MUTATION_RENEW_FRACTION
           <? Z.max 0 (lt_lease_expires_at_unix_ms term - now_ms)
      then mret tt
      else
        renewed ← try_ (try_acquire_coordination_lease_epoch lease_key (kc_owner_id config) ALLOCATOR_MUTATION_LEASE_TTL_MS);
        match renewed with
        | Ok (Some epoch) =>
            if epoch =? lt_epoch term then hold_term epoch
            else _ ← step_down_leader_resident; lift (Err Aborted_)
        | Ok None => _ ← step_down_leader_resident; lift (Err Aborted_)
        | Err err => _ ← step_down_leader_resident; lift (Err err)
        end
  end.

Definition ensure_current (full skip_stamp_read : bool) : M W Status unit :=
  if full then ensure_full_state_current skip_stamp_read else ensure_target_state_current skip_stamp_read.

Definition with_per_op_lease {A : Type} (attempts : nat) (full : bool) (op : M W Status A) : M W Status A :=
  _ ← acquire_allocator_mutation_lease attempts;
  result ← try_ (_ ← ensure_current full false; op);
  release_result ← try_ release_allocator_mutation_lease;
  match result, release_result with
  | Ok value, Ok _ => mret value
  | Ok _, Err err => lift (Err err)
  | Err err, _ => lift (Err err)
  end.

Definition with_leader_resident_lease {A : Type} (full : bool) (op : M W Status A) : M W Status A :=
  _ ← renew_leader_resident_lease;
  term ← get_leadership;
  match term with
  | None => lift (Err Unavailable_)
  | Some _ => _ ← ensure_current full true; op
  end.

Definition with_allocator_mutation_lease {A : Type} (attempts : nat) (full : bool) (op : M W Status A) : M W Status A :=
  if kc_leader_resident_lease config then with_leader_resident_lease full op else with_per_op_lease attempts full op.

(** ** Reserving *)

(** The UUIDs of a batch are the next ones of the generator; those not used are dropped. *)
Definition batch_uuids (batch_size : Z) : M W Status (Z → list byte) := fun w =>
  (mkWorld (w_db w) (w_ticks w) (w_uuids w + Z.to_nat batch_size) (w_kas w),
   Ok (fun i => uuid (w_uuids w + Z.to_nat i))).

Record ReserveRequest := mkReserve {
  rq_batch_size : Z;
  rq_fragment_count : nat;
  rq_failure_domain : FailureDomain;
  rq_excluded_target_ids : gset (list byte);
  rq_banned_target_id : option (list byte);
  rq_reservation_ttl_ms : Z;
  rq_required_target_ids : gset (list byte);
  rq_explicit_reservation_id : option (list byte);
}.

Definition reserve_batch_common_locked (rq : ReserveRequest) : M W Status (list PlacementReservationRecord) :=
  if rq_batch_size rq =? 0 then mret []
  else if (rq_fragment_count rq =? 0)%nat then lift (Err InvalidArgument_)
  else
    expires_at ← (if rq_reservation_ttl_ms rq =? 0 then mret 0
                  else now ← now_unix_ms; mret (saturating_add64 now (rq_reservation_ttl_ms rq)));
    ids ← batch_uuids (rq_batch_size rq);
    '(dirty_targets, reservations) ← on_state (reserve_in_memory domain_order_bias ids (kc_allocation_shard_id config)
      (rq_batch_size rq) (rq_fragment_count rq) (rq_failure_domain rq) (rq_excluded_target_ids rq) (rq_banned_target_id rq)
      expires_at (rq_required_target_ids rq) (rq_explicit_reservation_id rq));
    _ ← persist_state (mkChanges dirty_targets reservations [] [] [] true) Leased;
    mret reservations.

(** [records.value.pop()] *)
Definition the_reservation (records : list PlacementReservationRecord) : result Status PlacementReservationRecord :=
  ok_or (last records) ResourceExhausted_.

Definition reserve_stripe_placement (attempts : nat) (reservation_id : list byte) (fragment_count : nat)
    (failure_domain : FailureDomain) (excluded : gset (list byte)) (ttl_ms : Z) : M W Status PlacementReservationRecord :=
  records ← with_allocator_mutation_lease attempts false (reserve_batch_common_locked
    (mkReserve 1 fragment_count failure_domain excluded None ttl_ms ∅ (Some reservation_id)));
  lift (the_reservation records).

Definition reserve_stripe_batch (attempts : nat) (batch_size : Z) (fragment_count : nat) (failure_domain : FailureDomain)
    (excluded : gset (list byte)) (ttl_ms : Z) : M W Status (list PlacementReservationRecord) :=
  with_allocator_mutation_lease attempts false (reserve_batch_common_locked
    (mkReserve batch_size fragment_count failure_domain excluded None ttl_ms ∅ None)).

Definition reserve_rebuild_placement (attempts : nat) (reservation_id failed_target_id : list byte)
    (failure_domain : FailureDomain) (occupied : gset (list byte)) : M W Status PlacementReservationRecord :=
  records ← with_allocator_mutation_lease attempts false (reserve_batch_common_locked
    (mkReserve 1 1 failure_domain occupied (Some failed_target_id) 0 ∅ (Some reservation_id)));
  lift (the_reservation records).

Definition reserve_replacement_placement (attempts : nat) (reservation_id : list byte) (replacement_count : nat)
    (failure_domain : FailureDomain) (excluded : gset (list byte)) (ttl_ms : Z) (required : gset (list byte)) :
    M W Status PlacementReservationRecord :=
  records ← with_allocator_mutation_lease attempts false (reserve_batch_common_locked
    (mkReserve 1 replacement_count failure_domain excluded None ttl_ms required (Some reservation_id)));
  lift (the_reservation records).

(** ** Bins *)

Definition claim_ready (now_ms : Z) (bin_key : list byte) (batch_size ttl_ms : Z) :
    M AllocatorState Status (list PlacementReservationRecord * list (list byte * list byte)) := fun s =>
  let '(s', r) := claim_ready_bin_records now_ms bin_key batch_size ttl_ms s in (s', Ok r).

Definition claim_locked (batch_size : Z) (fragment_count : nat) (failure_domain : FailureDomain) (ttl_ms : Z) :
    M W Status (list PlacementReservationRecord) :=
  _ ← ensure_full_state_current (kc_leader_resident_lease config);
  now_ms ← now_unix_ms;
  '(claimed, delete_bin_members) ← on_state (claim_ready now_ms (bin_storage_key fragment_count failure_domain) batch_size ttl_ms);
  _ ← (if kc_leader_resident_lease config then
         _ ← (if is_nil claimed then mret tt else persist_claim_ttl_bumps_lock_light claimed);
         deferred ← get_deferred;
         set_deferred (deferred ++ delete_bin_members)
       else persist_state (mkChanges [] claimed [] delete_bin_members [] false) Leased);
  mret claimed.

Definition claim_reservation_bin_batch (attempts : nat) (batch_size : Z) (fragment_count : nat)
    (failure_domain : FailureDomain) (ttl_ms : Z) : M W Status (list PlacementReservationRecord) :=
  with_allocator_mutation_lease attempts false (claim_locked batch_size fragment_count failure_domain ttl_ms).

(** The queue of a bin with the ids of new reservations. *)
Definition push_bin (bin_key : list byte) (ids : list (list byte)) (s : AllocatorState) : AllocatorState :=
  set_bins (<[bin_key := default [] (al_bins s !! bin_key) ++ ids]> (al_bins s)) s.

Definition top_up_locked (want : Z) (fragment_count : nat) (failure_domain : FailureDomain) (ttl_ms : Z) : M W Status Z :=
  let bin_key := bin_storage_key fragment_count failure_domain in
  _ ← ensure_full_state_current false;
  records ← reserve_batch_common_locked (mkReserve want fragment_count failure_domain ∅ None ttl_ms ∅ None);
  let ids := rr_reservation_id <$> records in
  _ ← on_state (modify_state (push_bin bin_key ids));
  _ ← persist_state (mkChanges [] [] [] [] ((fun id => (bin_key, id)) <$> ids) false) Leased;
  mret (len ids).

(** Batches until [cycle_target] is reached or a batch comes back short. *)
Fixpoint top_up_loop (fuel attempts : nat) (cycle_target added_total : Z) (fragment_count : nat)
    (failure_domain : FailureDomain) (ttl_ms : Z) : M W Status Z :=
  match fuel with
  | O => mret added_total
  | S fuel' =>
      if cycle_target <=? added_total then mret added_total
      else
        let want := Z.min (cycle_target - added_total) REFILL_PERSIST_BATCH_MAX in
        added ← with_allocator_mutation_lease attempts false (top_up_locked want fragment_count failure_domain ttl_ms);
        if added <? want then mret (added_total + added)
        else top_up_loop fuel' attempts cycle_target (added_total + added) fragment_count failure_domain ttl_ms
  end.

(** A full batch adds at least one, so [cycle_target] bounds the batches. *)
Definition top_up_reservation_bin (attempts : nat) (fragment_count : nat) (failure_domain : FailureDomain)
    (ttl_ms low_watermark high_watermark top_up_chunk : Z) : M W Status Z :=
  if (high_watermark =? 0) || (high_watermark <=? low_watermark) then mret 0
  else
    _ ← (if kc_leader_resident_lease config then _ ← try_ flush_deferred_bin_member_deletes; mret tt else mret tt);
    s ← get_alloc;
    let current := len (default [] (al_bins s !! bin_storage_key fragment_count failure_domain)) in
    if high_watermark <=? current then mret 0
    else
      let cycle_target := Z.min (high_watermark - current) (Z.max top_up_chunk 1) in
      top_up_loop (S (Z.to_nat cycle_target)) attempts cycle_target 0 fragment_count failure_domain ttl_ms.

(** ** Finalizing, releasing, reclaiming *)

(** The entries of the targets changed. *)
Definition dirty_entries (dirty : gset (list byte)) (s : AllocatorState) : list TargetAllocatorState :=
  omap (al_targets s !!.) (elements dirty).

Definition try_finalize_reservations_metadata_only (mutations : list ReservationMutationSpec) :
    M W Status (option (list PlacementReservationRecord)) :=
  if is_nil mutations then mret (Some [])
  else
    effects ← on_state (finalize_in_memory mutations);
    match effects with
    | None => mret None
    | Some e =>
        _ ← persist_state (mkChanges [] [] (me_delete_reservations e) (me_delete_bin_members e) [] false) Leased;
        mret (Some (me_results e))
    end.

Definition apply_reservation_mutations_locked (kind : ReservationMutationKind) (mutations : list ReservationMutationSpec) :
    M W Status (list PlacementReservationRecord) :=
  if is_nil mutations then mret []
  else
    e ← on_state (apply_in_memory kind mutations);
    s ← get_alloc;
    _ ← persist_state (mkChanges (dirty_entries (me_dirty_targets e) s) (me_dirty_reservations e) (me_delete_reservations e)
          (me_delete_bin_members e) [] true) Leased;
    mret (me_results e).

Definition finalize_locked (mutations : list ReservationMutationSpec) : M W Status (list PlacementReservationRecord) :=
  results ← try_finalize_reservations_metadata_only mutations;
  match results with
  | Some results => mret results
  | None => apply_reservation_mutations_locked Finalize mutations
  end.

Definition finalize_reservations_batch (attempts : nat) (mutations : list ReservationMutationSpec) :
    M W Status (list PlacementReservationRecord) :=
  if is_nil mutations then mret []
  else with_allocator_mutation_lease attempts true (finalize_locked mutations).

Definition release_reservations_batch (attempts : nat) (mutations : list ReservationMutationSpec) :
    M W Status (list PlacementReservationRecord) :=
  if is_nil mutations then mret []
  else with_allocator_mutation_lease attempts true (apply_reservation_mutations_locked Release mutations).

Definition finalize_reservations (attempts : nat) (reservation_id : list byte) (placement_indexes : list Z) :
    M W Status PlacementReservationRecord :=
  values ← finalize_reservations_batch attempts [mkMutation reservation_id placement_indexes];
  lift (ok_or (last values) Internal_).

Definition release_reservations (attempts : nat) (reservation_id : list byte) (placement_indexes : list Z) :
    M W Status PlacementReservationRecord :=
  values ← release_reservations_batch attempts [mkMutation reservation_id placement_indexes];
  lift (ok_or (last values) Internal_).

Definition reclaim_locked (granules : list TargetGranule) : M W Status Z :=
  '(reclaimed, dirty) ← on_state (reclaim_in_memory granules);
  s ← get_alloc;
  _ ← persist_state (mkChanges (dirty_entries dirty s) [] [] [] [] true) Leased;
  mret reclaimed.

Definition reclaim_target_granules (attempts : nat) (granules : list TargetGranule) : M W Status Z :=
  if is_nil granules then mret 0 else with_allocator_mutation_lease attempts true (reclaim_locked granules).

Definition expire_locked (now_ms : Z) (limit : nat) : M W Status Z :=
  s ← get_alloc;
  let ids := expired_ids now_ms limit s in
  if is_nil ids then mret 0
  else
    committed ← committed_granules_present (granules_of s ids);
    _ ← on_state (modify_state (add_committed committed));
    released ← try_ (apply_reservation_mutations_locked Release ((fun id => mkMutation id []) <$> ids));
    _ ← on_state (modify_state (set_committed ∅));
    released ← lift released;
    mret (len released).

Definition release_expired_reservations (attempts : nat) (now_ms : Z) (limit : nat) : M W Status Z :=
  with_allocator_mutation_lease attempts true (expire_locked now_ms limit).

(** ** Targets and the whole state *)

Definition init : M W Status unit := refresh_target_state_from_fdb.

Definition register_target (target : TargetRecord) : M W Status TargetRecord :=
  '(stored, is_new_target) ← on_state (register_in_memory target);
  _ ← persist_state (mkChanges [stored] [] [] [] [] is_new_target) Unfenced;
  mret (ta_target stored).

Definition heartbeat_target (target_id : list byte) (healthy : bool) (observed_unix_ms : Z) : M W Status TargetRecord :=
  entry ← on_state (heartbeat_in_memory target_id healthy observed_unix_ms);
  _ ← persist_state (mkChanges [entry] [] [] [] [] false) Unfenced;
  mret (ta_target entry).

Definition set_target_state (target_id : list byte) (lifecycle_state : Z) : M W Status TargetRecord :=
  now_ms ← now_unix_ms;
  entry ← on_state (set_target_state_in_memory target_id lifecycle_state now_ms);
  _ ← persist_state (mkChanges [entry] [] [] [] [] false) Unfenced;
  mret (ta_target entry).

Definition reset_memory : M AllocatorState Status (list TargetAllocatorState) := fun s =>
  let '(s', dirty) := reset_in_memory s in (s', Ok dirty).

Definition reset_allocator_state : M W Status unit :=
  dirty_targets ← on_state reset_memory;
  _ ← clear_all_reservations_and_bins;
  persist_state (mkChanges dirty_targets [] [] [] [] true) Unfenced.

(** ** Reading *)

Definition list_targets : M W Status (list TargetRecord) :=
  s ← get_alloc;
  mret (sort_by (fun l r => bytes_leb (tr_target_id l) (tr_target_id r)) (ta_target <$> (map_to_list (al_targets s)).*2)).

Definition get_reservation (reservation_id : list byte) : M W Status (option PlacementReservationRecord) :=
  _ ← ensure_full_state_current false;
  s ← get_alloc;
  mret (al_reservations s !! reservation_id).

(** Filter by state and by target, latest expiry first. *)
Definition listed (state_filter : option Z) (target_id : option (list byte)) (r : PlacementReservationRecord) : bool :=
  match state_filter with Some state => (state =? 0) || (rr_state r =? state) | None => true end &&
  match target_id with
  | Some id => existsb (fun p => bool_decide (pr_target_id p = id)) (rr_placements r)
  | None => true
  end.

Definition list_reservations (state_filter : option Z) (target_id : option (list byte)) (limit : nat) :
    M W Status (list PlacementReservationRecord) :=
  _ ← ensure_full_state_current false;
  s ← get_alloc;
  mret (take (Nat.max limit 1) (sort_by (fun l r =>
    (rr_expires_at_unix_ms r <? rr_expires_at_unix_ms l) ||
    ((rr_expires_at_unix_ms l =? rr_expires_at_unix_ms r) && bytes_leb (rr_reservation_id l) (rr_reservation_id r)))
    (filter (fun r => listed state_filter target_id r = true) (map_to_list (al_reservations s)).*2))).
End kas.
