(* ===== verification/KasTables.v ===== *)
(** What the allocator's tables hold and how they are loaded: the keys of the tables do not
    overlap, a scan in pages returns its whole range, and loading a database that stores
    targets and reservations returns them. *)
From S2P Require Import Prelude Bytes Sorts Fdb KmsKeys KmsValues KmsStore KmsReap Placement Kas KasPlan KasReserve KasStore.

(** ** Keys *)

Lemma kas_key_prefix p segs q segs' :
  Forall seg_ok segs → Forall seg_ok segs' →
  kas_encode_key p segs `prefix_of` kas_encode_key q segs' ↔ p = q ∧ segs `prefix_of` segs'.
Proof.
  intros Hs Hs'. unfold kas_encode_key. split.
  - intros Hp%prefix_app_inv%prefix_cons_inv_2. pose proof (prefix_cons_inv_1 _ _ _ _ Hp) as ->.
    apply prefix_cons_inv_2 in Hp. split; [done|]. by apply segments_prefix.
  - intros [-> Hp]. apply prefix_app, prefix_cons, prefix_cons. by apply segments_prefix.
Qed.

(** The byte that names the table comes after the namespace and the version. *)
Lemma kas_key_table p segs k q segs' : k = kas_encode_key q segs' → kas_encode_key p segs `prefix_of` k → p = q.
Proof. intros -> Hp%prefix_app_inv%prefix_cons_inv_2. by apply prefix_cons_inv_1 in Hp. Qed.

Lemma kas_key_inj p segs q segs' :
  Forall seg_ok segs → Forall seg_ok segs' → kas_encode_key p segs = kas_encode_key q segs' → p = q ∧ segs = segs'.
Proof.
  intros Hs Hs' E.
  destruct (proj1 (kas_key_prefix p segs q segs' Hs Hs') ltac:(by rewrite E)) as [-> H1].
  destruct (proj1 (kas_key_prefix q segs' q segs Hs' Hs) ltac:(by rewrite E)) as [_ H2].
  split; [done|]. by apply (anti_symm prefix).
Qed.

Lemma kas_range p segs k :
  in_range (kas_encode_key p segs) (kas_prefix_range_end (kas_encode_key p segs)) k = true ↔ kas_encode_key p segs `prefix_of` k.
Proof. apply (prefix_range_exact (kas_encode_key p segs) k). by left. Qed.

Lemma kas_table_prefix p segs : kas_encode_key p [] `prefix_of` kas_encode_key p segs.
Proof. unfold kas_encode_key. apply prefix_app, prefix_cons, prefix_cons, prefix_nil. Qed.

(** ** Padded decimals *)

Lemma parse_zeros n l : parse_digits 64 0 (replicate n "0"%byte ++ l) = parse_digits 64 0 l.
Proof. induction n as [|n IH]; [done|]. cbn [replicate app]. cbn [parse_digits]. exact IH. Qed.

Lemma dec_padded_parse w n : 0 ≤ n < 2 ^ 64 → parse_digits 64 0 (dec_padded w n) = Some n.
Proof.
  intros Hn. unfold dec_padded. rewrite parse_zeros. apply parse_dec_digits; [|done].
  split; [lia|]. eapply Z.lt_trans; [apply Hn|]. done.
Qed.

Lemma dec_padded_inj w a b : 0 ≤ a < 2 ^ 64 → 0 ≤ b < 2 ^ 64 → dec_padded w a = dec_padded w b → a = b.
Proof. intros Ha Hb E. pose proof (dec_padded_parse w a Ha) as Ea. rewrite E, dec_padded_parse in Ea by done. by injection Ea. Qed.

Lemma length_dec_digits fuel n : (length (dec_digits fuel n) ≤ fuel)%nat.
Proof.
  revert n. induction fuel as [|fuel IH]; intros n; [done|]. cbn [dec_digits]. rewrite length_app. cbn.
  destruct (n <? 10); cbn; [lia|]. specialize (IH (n / 10)). lia.
Qed.

Lemma dec_padded_length w n : (length (dec_padded w n) ≤ w + 20)%nat.
Proof. unfold dec_padded. rewrite length_app, length_replicate. pose proof (length_dec_digits 20 n). unfold dec_to_string. lia. Qed.

Lemma dec_padded_seg w n : (w ≤ 20)%nat → seg_ok (dec_padded w n).
Proof. intros Hw. unfold seg_ok. pose proof (dec_padded_length w n). lia. Qed.

(** ** Scans *)

Section scan.
Context {KV : Type} {Hdb : Fdb KV} {Hlaws : FdbLaws KV} {Hcodec : KasCodec} {Henv : KasEnv}.
Implicit Types (w : World KV).

Lemma page_rows_split rows bytes kvs :
  let '(page, more) := page_rows rows bytes kvs in
  page `prefix_of` kvs ∧ (more = false → page = kvs ∧ (0 ≤ rows → rows < MAX_ROWS_PER_TXN → rows + len kvs < MAX_ROWS_PER_TXN)) ∧ (more = true → page ≠ []).
Proof.
  revert rows bytes. induction kvs as [|[k v] kvs IH]; intros rows bytes; cbn [page_rows].
  { split_and!; [done| |done]. intros _. split; [done|]. cbn. lia. }
  destruct (Z.leb_spec MAX_ROWS_PER_TXN (rows + 1)); cbn [orb].
  { split_and!; [apply prefix_cons, prefix_nil|done|done]. }
  destruct (MAX_TXN_BYTES <=? bytes + (len k + len v)).
  { split_and!; [apply prefix_cons, prefix_nil|done|done]. }
  specialize (IH (rows + 1) (bytes + (len k + len v))). destruct (page_rows _ _ kvs) as [page more].
  destruct IH as (H1 & H2 & _). split_and!; [by apply prefix_cons| |done].
  intros Hm. destruct (H2 Hm) as [-> H3]. split; [done|]. intros. rewrite length_cons. specialize (H3 ltac:(lia) ltac:(lia)). lia.
Qed.

Lemma scan_pages_all fuel b e w :
  (length (kv_range b e (w_db w)) < fuel)%nat → scan_pages fuel b e w = (w, Ok ((kv_range b e (w_db w)).*2)).
Proof.
  revert b. induction fuel as [|fuel IH]; intros b Hf; [lia|]. cbn [scan_pages].
  pose proof (page_rows_split 0 0 (kv_range_limit b e MAX_ROWS_PER_TXN (w_db w))) as Hp.
  destruct (page_rows 0 0 (kv_range_limit b e MAX_ROWS_PER_TXN (w_db w))) as [page more] eqn:Epage.
  assert (∀ g : list (list byte * list byte) * bool → M (World KV) Status (list (list byte)),
    (db_run (kvs ← trx_range_limit (b, e) MAX_ROWS_PER_TXN; mret (page_rows 0 0 kvs)) ≫= g) w = g (page, more) w) as Hbind.
  { intros g. unfold db_run, run, mbind, M_mbind, trx_range_limit, mret, M_mret. cbn [fst snd]. rewrite Epage. by destruct w. }
  rewrite Hbind. clear Hbind. unfold kv_range_limit in *. change (MAX_ROWS_PER_TXN =? 0) with false in *. cbv iota in *.
  destruct Hp as (Hpre & Hfull & Hmore). destruct more.
  - destruct (last page) as [[k v]|] eqn:El; [|apply last_None in El; by destruct Hmore].
    apply last_Some in El as [l1 ->]. destruct Hpre as [rest Hrest].
    assert (kv_range b e (w_db w) = l1 ++ (k, v) :: (rest ++ drop (Z.to_nat MAX_ROWS_PER_TXN) (kv_range b e (w_db w)))) as E.
    { rewrite <-(take_drop (Z.to_nat MAX_ROWS_PER_TXN) (kv_range b e (w_db w))) at 1. rewrite Hrest. by rewrite <-!(assoc_L (++)). }
    set (tail := rest ++ _) in E. clearbody tail.
    pose proof (range_after _ _ _ _ _ _ _ E) as Ea. unfold mbind, M_mbind. rewrite IH.
    + rewrite Ea, E. unfold mret, M_mret. do 2 f_equal. rewrite !fmap_app, !fmap_cons, fmap_nil. cbn. by rewrite <-(assoc_L (++)).
    + rewrite Ea. rewrite E in Hf. rewrite length_app in Hf. cbn in Hf. lia.
  - destruct (Hfull eq_refl) as [-> Hlen]. specialize (Hlen ltac:(lia) ltac:(done)). rewrite length_take in Hlen.
    unfold mret, M_mret. rewrite take_ge by lia. done.
Qed.

Lemma scan_range_values_all b e w : scan_range_values b e w = (w, Ok ((kv_range b e (w_db w)).*2)).
Proof. unfold scan_range_values. apply scan_pages_all. lia. Qed.
End scan.

(** ** Chunks of spans *)

Section chunks.
Context (id : list byte).

Lemma span_chunks_concat fuel n spans : (length spans ≤ fuel)%nat → (0 < n)%nat → concat (span_chunks fuel n spans) = spans.
Proof.
  revert spans. induction fuel as [|fuel IH]; intros [|s spans] Hf Hn; cbn [length] in *; try done; [lia|].
  cbn [span_chunks concat]. rewrite IH; [apply take_drop| |done]. rewrite length_drop. cbn. lia.
Qed.

Lemma length_span_chunks fuel n spans : (length (span_chunks fuel n spans) ≤ fuel)%nat.
Proof. revert spans. induction fuel as [|fuel IH]; intros [|s spans]; cbn; try lia. specialize (IH (drop n (s :: spans))). lia. Qed.

Lemma split_lookup spans i c :
  split_spans_into_chunks id spans !! i = Some c → sc_target_id c = id ∧ sc_chunk_index c = Z.of_nat i.
Proof.
  unfold split_spans_into_chunks. destruct spans as [|s spans].
  - intros Hi. apply list_lookup_singleton_Some in Hi as [-> <-]. done.
  - rewrite list_lookup_imap. intros (slice & _ & ->)%fmap_Some. done.
Qed.

Lemma split_concat spans : concat (sc_spans <$> split_spans_into_chunks id spans) = spans.
Proof.
  unfold split_spans_into_chunks. destruct spans as [|s spans]; [done|].
  rewrite fmap_imap. unfold compose. cbn [sc_spans].
  assert (∀ l : list (list GranuleSpan), imap (fun _ x => x) l = l) as Hid.
  { induction l as [|x l IH]; [done|]. rewrite imap_cons. unfold compose. by rewrite IH. }
  rewrite Hid. apply span_chunks_concat; [lia|]. unfold SPANS_PER_CHUNK. lia.
Qed.

Lemma length_split spans : (length (split_spans_into_chunks id spans) ≤ S (length spans))%nat.
Proof.
  unfold split_spans_into_chunks. destruct spans as [|s spans]; [done|]. rewrite length_imap.
  etransitivity; [apply length_span_chunks|lia].
Qed.

Lemma split_nonempty spans : split_spans_into_chunks id spans ≠ [].
Proof. unfold split_spans_into_chunks. by destruct spans. Qed.

Lemma split_elem spans c :
  len spans < 2 ^ 64 - 1 → c ∈ split_spans_into_chunks id spans → sc_target_id c = id ∧ 0 ≤ sc_chunk_index c < 2 ^ 64.
Proof.
  intros Hs [i Hi]%list_elem_of_lookup. destruct (split_lookup _ _ _ Hi) as [-> ->]. split; [done|].
  apply lookup_lt_Some in Hi. pose proof (length_split spans). lia.
Qed.

Lemma split_inj spans c c' : c ∈ split_spans_into_chunks id spans → c' ∈ split_spans_into_chunks id spans →
  sc_chunk_index c = sc_chunk_index c' → c = c'.
Proof.
  intros [i Hi]%list_elem_of_lookup [j Hj]%list_elem_of_lookup E. destruct (split_lookup _ _ _ Hi) as [_ Ei], (split_lookup _ _ _ Hj) as [_ Ej].
  assert (i = j) as -> by lia. congruence.
Qed.

Lemma imap_sorted {A B : Type} (f : nat → A → B) (g : B → Z) (l : list A) :
  (∀ i x, g (f i x) = Z.of_nat i) → StronglySorted (fun a b => g a < g b) (imap f l).
Proof.
  intros Hg. assert (∀ k, StronglySorted (fun a b => g a < g b) (imap (fun i x => f (k + i)%nat x) l)) as H; [|exact (H 0%nat)].
  induction l as [|x l IH]; intros k; [constructor|]. rewrite imap_cons. unfold compose.
  rewrite (imap_ext _ (fun i y => f (S k + i)%nat y)) by (intros; f_equal; lia). constructor; [apply IH|].
  apply Forall_forall. intros y (i & z & -> & _)%elem_of_lookup_imap. rewrite !Hg. lia.
Qed.

Lemma split_sorted spans : StronglySorted (fun a b => sc_chunk_index a < sc_chunk_index b) (split_spans_into_chunks id spans).
Proof.
  unfold split_spans_into_chunks. destruct spans as [|s spans]; [by repeat constructor|]. by apply imap_sorted.
Qed.
End chunks.

Lemma bytes_ltb_neq a b : bytes_ltb a b = true → a ≠ b.
Proof. intros H ->. by rewrite bytes_ltb_irrefl in H. Qed.

Lemma chunk_leb_total a b : chunk_leb a b = true ∨ chunk_leb b a = true.
Proof.
  unfold chunk_leb. destruct (decide (sc_target_id a = sc_target_id b)) as [E|Hne].
  - rewrite E, bytes_ltb_irrefl, !bool_decide_eq_true_2 by done. cbn. destruct (Z.leb_spec (sc_chunk_index a) (sc_chunk_index b)); [by left|right]. apply Z.leb_le. lia.
  - destruct (bytes_ltb_total _ _ Hne) as [->| ->]; auto.
Qed.

Lemma chunk_leb_trans a b c : chunk_leb a b = true → chunk_leb b c = true → chunk_leb a c = true.
Proof.
  unfold chunk_leb. rewrite !orb_true_iff, !andb_true_iff, !bool_decide_eq_true, !Z.leb_le.
  intros [H1|[E1 H1]] [H2|[E2 H2]].
  - left. by eapply bytes_ltb_trans.
  - left. by rewrite <-E2.
  - left. by rewrite E1.
  - right. split; [congruence|lia].
Qed.

Lemma assemble_fold (l : list TargetSpanChunk) (m : gmap (list byte) (list GranuleSpan)) id :
  foldl (fun (m : gmap (list byte) (list GranuleSpan)) chunk =>
    <[sc_target_id chunk := default [] (m !! sc_target_id chunk) ++ sc_spans chunk]> m) m l !! id =
  match filter (fun c => sc_target_id c = id) l with
  | [] => m !! id
  | cs => Some (default [] (m !! id) ++ concat (sc_spans <$> cs))
  end.
Proof.
  revert m. induction l as [|c l IH]; intros m; [done|]. cbn [foldl]. rewrite IH, filter_cons.
  destruct (decide (sc_target_id c = id)) as [<-|Hne].
  - rewrite lookup_insert_eq. destruct (filter _ l) as [|c' cs]; cbn; [by rewrite app_nil_r|]. by rewrite <-!(assoc_L (++)).
  - rewrite lookup_insert_ne by done. done.
Qed.

(** The spans of a target whose chunks are among those loaded, in any order. *)
Lemma assemble_lookup (l : list TargetSpanChunk) id spans :
  NoDup l → (∀ c, c ∈ l ∧ sc_target_id c = id ↔ c ∈ split_spans_into_chunks id spans) →
  assemble_spans_from_chunks l !! id = Some spans.
Proof.
  intros Hnd Hc. unfold assemble_spans_from_chunks. rewrite assemble_fold.
  assert (filter (fun c => sc_target_id c = id) (sort_by chunk_leb l) = split_spans_into_chunks id spans) as E.
  { apply (sorted_unique chunk_leb).
    - intros x y Hx Hy Hxy Hyx. apply list_elem_of_filter in Hx as [Ex Hx], Hy as [Ey Hy]. rewrite sort_by_perm in Hx, Hy.
      unfold chunk_leb in Hxy, Hyx. rewrite Ex, Ey, bytes_ltb_irrefl, bool_decide_eq_true_2 in Hxy, Hyx by done. cbn in Hxy, Hyx.
      apply (split_inj id spans); [by apply Hc|by apply Hc|lia].
    - rewrite (sort_by_filter chunk_leb) by (apply chunk_leb_total || apply chunk_leb_trans). apply sort_by_sorted; [apply chunk_leb_total|apply chunk_leb_trans].
    - pose proof (split_sorted id spans) as Hs. pose proof (split_lookup id spans) as Hl.
      assert (Forall (fun c => sc_target_id c = id) (split_spans_into_chunks id spans)) as Hid.
      { apply Forall_forall. intros c [i Hi]%list_elem_of_lookup. by eapply split_lookup. }
      clear Hc Hl. induction Hs as [|x k Hs IH Hx]; [constructor|]. apply Forall_cons in Hid as [E Hid]. constructor; [by apply IH|].
      rewrite Forall_forall in Hx, Hid |- *. intros y Hy. unfold chunk_leb. rewrite E, (Hid y Hy), bytes_ltb_irrefl, bool_decide_eq_true_2 by done. cbn. specialize (Hx y Hy). lia.
    - apply NoDup_Permutation.
      + apply NoDup_filter. by rewrite sort_by_perm.
      + pose proof (split_sorted id spans) as Hs. clear Hc. induction Hs as [|x k Hs IH Hx]; constructor; [|done]. intros Hin. rewrite Forall_forall in Hx. specialize (Hx x Hin). lia.
      + intros c. rewrite list_elem_of_filter, sort_by_perm. rewrite <-Hc. tauto. }
  rewrite E, lookup_empty. pose proof (split_nonempty id spans). destruct (split_spans_into_chunks id spans) as [|c cs] eqn:Es; [done|].
  rewrite <-Es, split_concat. done.
Qed.

(** ** What the tables hold *)

(** A stored value decodes to what was encoded. *)
Class KasCodecLaws `{KasCodec} := {
  decode_encode_target : ∀ t, decode_target (encode_target t) = Some t;
  decode_encode_chunk : ∀ c, decode_chunk (encode_chunk c) = Some c;
  decode_encode_reservation : ∀ r, decode_reservation (encode_reservation r) = Some r;
  decode_encode_stamp : ∀ s, decode_stamp (encode_stamp s) = Some s;
  decode_encode_lease : ∀ l, decode_lease (encode_lease l) = Some l;
}.

Section tables.
Context {KV : Type} {Hdb : Fdb KV} {Hlaws : FdbLaws KV} {Hcodec : KasCodec} {Hclaws : KasCodecLaws} {Henv : KasEnv}.
Implicit Types (db : KV) (w : World KV) (T : targets) (R : reservations).

(** The rows of a table are the encodings of the records [P] puts at their keys. *)
Definition table_is {A : Type} (encode : A → list byte) (p : byte) (P : list byte → A → Prop) (db : KV) : Prop :=
  ∀ k v, kas_encode_key p [] `prefix_of` k → kv_get k db = Some v ↔ ∃ a, P k a ∧ v = encode a.

Definition target_row T (k : list byte) (r : TargetRecord) : Prop := ∃ id t, T !! id = Some t ∧ k = target_key id ∧ r = ta_target t.
Definition chunk_row T (k : list byte) (c : TargetSpanChunk) : Prop :=
  ∃ id t, T !! id = Some t ∧ c ∈ split_spans_into_chunks id (ta_spans t) ∧ k = target_span_chunk_key id (sc_chunk_index c).
Definition reservation_row R (k : list byte) (r : PlacementReservationRecord) : Prop := ∃ id, R !! id = Some r ∧ k = reservation_key id.

(** The database stores these targets and reservations. *)
Record stored (db : KV) (T : targets) (R : reservations) : Prop := {
  sd_targets : table_is encode_target PREFIX_TARGET (target_row T) db;
  sd_chunks : table_is encode_chunk PREFIX_TARGET_SPAN (chunk_row T) db;
  sd_reservations : table_is encode_reservation PREFIX_RESERVATION (reservation_row R) db;
  sd_target_ids : ∀ id t, T !! id = Some t → ta_id t = id ∧ seg_ok id ∧ len (ta_spans t) < 2 ^ 64 - 1;
  sd_reservation_ids : ∀ id r, R !! id = Some r → rr_reservation_id r = id ∧ seg_ok id;
}.

Lemma load_all_ok {A : Type} (decode : list byte → option A) encode p P w :
  table_is encode p P (w_db w) → (∀ a, decode (encode a) = Some a) → (∀ k a, P k a → kas_encode_key p [] `prefix_of` k) →
  (∀ k k' a b, P k a → P k' b → k = k' ↔ a = b) →
  ∃ l, load_all decode (kas_encode_key p []) w = (w, Ok l) ∧ NoDup l ∧ ∀ a, a ∈ l ↔ ∃ k, P k a.
Proof.
  intros HT Hd Hin Hinj. unfold load_all. rewrite (M_bind_run _ _ _ _ _ (scan_range_values_all _ _ w)).
  pose proof (kv_range_sorted (kas_encode_key p []) (kas_prefix_range_end (kas_encode_key p [])) (w_db w)) as Hs.
  assert (∀ k v, (k, v) ∈ kv_range (kas_encode_key p []) (kas_prefix_range_end (kas_encode_key p [])) (w_db w) ↔ ∃ a, P k a ∧ v = encode a) as He.
  { intros k v. rewrite kv_range_elem, kas_range. split; [intros [Hp Hg]; by apply HT|].
    intros (a & Ha & ->). pose proof (Hin k a Ha). split; [done|]. apply HT; [done|]. by exists a. }
  set (rows := kv_range _ _ _) in *. clearbody rows.
  assert (∃ l, try_map (fun bytes => ok_or (decode bytes) Internal_) (rows.*2) = Ok l ∧ NoDup l ∧
    ∀ a, a ∈ l ↔ ∃ k v, (k, v) ∈ rows ∧ P k a) as (l & El & Hnd & Hl).
  { assert (∀ k v, (k, v) ∈ rows → ∃ a, P k a ∧ v = encode a) as He' by (intros k v; by apply He). clear He.
    induction Hs as [|[k v] rows Hs IH Hk].
    - exists []. split_and!; [done|constructor|]. intros a. split; [by intros ?%not_elem_of_nil|]. by intros (k & v & Hx%not_elem_of_nil & _).
    - destruct IH as (l & El & Hnd & Hl); [intros k' v' Hx; apply He'; by right|]. destruct (He' k v ltac:(by left)) as (a & Ha & ->).
      exists (a :: l). rewrite Forall_forall in Hk. split_and!.
      + cbn. rewrite Hd. cbn in El |- *. by rewrite El.
      + constructor; [|done]. intros (k' & v' & Hr & Hp)%Hl. specialize (Hk _ Hr). cbn in Hk. rewrite (proj2 (Hinj k k' a a Ha Hp) eq_refl) in Hk. by rewrite bytes_ltb_irrefl in Hk.
      + intros b. rewrite elem_of_cons, Hl. split.
        * intros [->|(k' & v' & Hr & Hp)]; [exists k, (encode a); split; [by left|done]|exists k', v'; split; [by right|done]].
        * intros (k' & v' & [[= -> ->]|Hr]%elem_of_cons & Hp); [|right; by exists k', v']. left. by apply (Hinj k k b a). }
  rewrite El. exists l. split_and!; [done..|]. intros a. rewrite Hl. split; [naive_solver|].
  intros (k & Hp). exists k, (encode a). split; [|done]. apply He. by exists a.
Qed.

Lemma target_key_inj id id' : seg_ok id → seg_ok id' → target_key id = target_key id' → id = id'.
Proof. intros H H' E. apply kas_key_inj in E as [_ [= ->]]; [done|by repeat constructor..]. Qed.
Lemma reservation_key_inj id id' : seg_ok id → seg_ok id' → reservation_key id = reservation_key id' → id = id'.
Proof. intros H H' E. apply kas_key_inj in E as [_ [= ->]]; [done|by repeat constructor..]. Qed.
Lemma span_chunk_key_inj id id' i i' :
  seg_ok id → seg_ok id' → 0 ≤ i < 2 ^ 64 → 0 ≤ i' < 2 ^ 64 → target_span_chunk_key id i = target_span_chunk_key id' i' → id = id' ∧ i = i'.
Proof.
  intros H H' Hi Hi' E. apply kas_key_inj in E as [_ [= -> E]]; [|repeat constructor; [done|apply dec_padded_seg; lia]..].
  split; [done|]. by apply (dec_padded_inj 10).
Qed.

(** Inserting records under their own names, each name once. *)
Lemma index_lookup {A : Type} (name : A → list byte) (l : list A) (m : gmap (list byte) A) k a :
  (∀ x y, x ∈ l → y ∈ l → name x = name y → x = y) → a ∈ l → name a = k → foldl (fun m x => <[name x := x]> m) m l !! k = Some a.
Proof.
  revert m. induction l as [|x l IH] using rev_ind; intros m Hinj Ha <-; [by apply not_elem_of_nil in Ha|].
  rewrite foldl_snoc. destruct (decide (name x = name a)) as [E|Hne].
  - rewrite E, lookup_insert_eq. f_equal. apply Hinj; [apply elem_of_app; right; by left|done|done].
  - rewrite lookup_insert_ne by done. apply IH; [|by apply elem_of_app in Ha as [?| ->%list_elem_of_singleton]|done].
    intros y z Hy Hz. apply Hinj; apply elem_of_app; by left.
Qed.

Lemma index_lookup_Some {A : Type} (name : A → list byte) (l : list A) (m : gmap (list byte) A) k a :
  foldl (fun m x => <[name x := x]> m) m l !! k = Some a → (a ∈ l ∧ name a = k) ∨ m !! k = Some a.
Proof.
  induction l as [|x l IH] using rev_ind; [by right|]. rewrite foldl_snoc. destruct (decide (name x = k)) as [<-|Hne].
  - rewrite lookup_insert_eq. intros [= ->]. left. split; [apply elem_of_app; right; by left|done].
  - rewrite lookup_insert_ne by done. intros [[? ?]|?]%IH; [left|by right]. split; [apply elem_of_app; by left|done].
Qed.

Lemma index_all {A : Type} (name : A → list byte) (l : list A) (m : gmap (list byte) A) :
  (∀ a, a ∈ l ↔ ∃ k, m !! k = Some a) → (∀ k a, m !! k = Some a → name a = k) → foldl (fun m x => <[name x := x]> m) ∅ l = m.
Proof.
  intros Hl Hn. apply map_eq. intros k. apply option_eq. intros a. split.
  - intros [[Ha Ek]|?]%index_lookup_Some; [|done]. apply Hl in Ha as [k' Hk]. rewrite <-Ek, (Hn _ _ Hk). done.
  - intros Hk. apply index_lookup; [|apply Hl; by exists k|by apply Hn].
    intros x y [kx Hx]%Hl [ky Hy]%Hl E. rewrite (Hn _ _ Hx), (Hn _ _ Hy) in E. subst. congruence.
Qed.

Lemma load_all_targets_ok w T R :
  stored (w_db w) T R → ∃ l, load_all_targets w = (w, Ok l) ∧ index_targets l = T.
Proof.
  intros HS. unfold load_all_targets.
  destruct (load_all_ok decode_target encode_target PREFIX_TARGET (target_row T) w) as (records & Er & _ & Hr).
  { apply HS. } { apply decode_encode_target. } { intros k a (id & t & _ & -> & _). apply kas_table_prefix. }
  { intros k k' a b (id & t & Ht & -> & ->) (id' & t' & Ht' & -> & ->). destruct (sd_target_ids _ _ _ HS _ _ Ht) as (Ei & Hs & _), (sd_target_ids _ _ _ HS _ _ Ht') as (Ei' & Hs' & _).
    split; [intros ->%target_key_inj; congruence|]. intros E. f_equal. rewrite <-Ei, <-Ei'. unfold ta_id. by rewrite E. }
  change target_prefix with (kas_encode_key PREFIX_TARGET []). rewrite (M_bind_run _ _ _ _ _ Er).
  destruct (load_all_ok decode_chunk encode_chunk PREFIX_TARGET_SPAN (chunk_row T) w) as (chunks & Ec & Hnd & Hc).
  { apply HS. } { apply decode_encode_chunk. } { intros k a (id & t & _ & _ & ->). apply kas_table_prefix. }
  { intros k k' a b (id & t & Ht & Ha & ->) (id' & t' & Ht' & Hb & ->). destruct (sd_target_ids _ _ _ HS _ _ Ht) as (Ei & Hs & Hl), (sd_target_ids _ _ _ HS _ _ Ht') as (Ei' & Hs' & Hl').
    destruct (split_elem _ _ _ Hl Ha) as [Ea Ra], (split_elem _ _ _ Hl' Hb) as [Eb Rb]. split.
    - intros [<- E]%span_chunk_key_inj; [|done..]. assert (t' = t) as -> by congruence. by eapply split_inj.
    - intros ->. by rewrite <-Ea, <-Eb. }
  change target_span_all_prefix with (kas_encode_key PREFIX_TARGET_SPAN []). rewrite (M_bind_run _ _ _ _ _ Ec).
  eexists. split; [done|]. unfold index_targets. apply index_all; [|intros k t Ht; by apply HS].
  assert (∀ id t, T !! id = Some t → assemble_spans_from_chunks chunks !! id = Some (ta_spans t)) as Hspans.
  { intros id t Ht. apply assemble_lookup; [done|]. intros c. rewrite Hc. destruct (sd_target_ids _ _ _ HS _ _ Ht) as (Ei & Hs & Hl). split.
    - intros [(k & id' & t' & Ht' & Hin & ->) Eid]. destruct (sd_target_ids _ _ _ HS _ _ Ht') as (Ei' & Hs' & Hl').
      destruct (split_elem _ _ _ Hl' Hin) as [E _]. assert (id' = id) as -> by congruence. by simplify_eq.
    - intros Hin. destruct (split_elem _ _ _ Hl Hin) as [E _]. split; [|done]. by exists (target_span_chunk_key id (sc_chunk_index c)), id, t. }
  intros t. rewrite list_elem_of_fmap. split.
  - intros (r & -> & (k & id & u & Hu & -> & ->)%Hr). destruct (sd_target_ids _ _ _ HS _ _ Hu) as (Ei & _). exists id.
    unfold ta_id in Ei. rewrite Ei, (Hspans id u Hu). cbn. rewrite Hu. by destruct u.
  - intros (id & Ht). exists (ta_target t). destruct (sd_target_ids _ _ _ HS _ _ Ht) as (Ei & _). unfold ta_id in Ei. split.
    + rewrite Ei, (Hspans id t Ht). by destruct t.
    + apply Hr. by exists (target_key id), id, t.
Qed.

Lemma load_active_reservations_ok w T R :
  stored (w_db w) T R → (∀ id r, R !! id = Some r → rr_state r = RESERVATION_STATE_RESERVED) →
  ∃ l, load_active_reservations w = (w, Ok (l, [])) ∧ insert_reservations l ∅ = R.
Proof.
  intros HS Hst. unfold load_active_reservations.
  destruct (load_all_ok decode_reservation encode_reservation PREFIX_RESERVATION (reservation_row R) w) as (l & El & _ & Hl).
  { apply HS. } { apply decode_encode_reservation. } { intros k a (id & _ & ->). apply kas_table_prefix. }
  { intros k k' a b (id & Ha & ->) (id' & Hb & ->). destruct (sd_reservation_ids _ _ _ HS _ _ Ha) as (Ei & Hs), (sd_reservation_ids _ _ _ HS _ _ Hb) as (Ei' & Hs').
    split; [intros ->%reservation_key_inj; congruence|]. intros ->. congruence. }
  change reservation_prefix with (kas_encode_key PREFIX_RESERVATION []). rewrite (M_bind_run _ _ _ _ _ El).
  assert (Forall (fun r => rr_state r = RESERVATION_STATE_RESERVED) l) as Hall.
  { apply Forall_forall. intros r (k & id & Hr & _)%Hl. by eapply Hst. }
  exists l. split.
  - unfold mret, M_mret. do 2 f_equal. clear -Hall. induction Hall as [|r l Hr _ IH]; [done|]. injection IH as IH1 IH2.
    rewrite !filter_cons, decide_True, decide_False by (done || by intros []). by rewrite IH1, IH2.
  - apply index_all; [|intros k r Hr; by apply HS]. intros r. rewrite Hl. split; [intros (k & id & Hr & _); by exists id|].
    intros (id & Hr). by exists (reservation_key id), id.
Qed.
End tables.
