(* ===== verification/KasPersist.v ===== *)
(** Writing the allocator's state: a commit applies its writes or, when the fence is
    another's, nothing; the batches of one change amount to its writes in order; and the
    writes of a change bring the tables to the state that change describes. *)
From S2P Require Import Prelude Bytes Sorts Fdb KmsKeys KmsValues KmsStore Placement Kas KasPlan KasReserve KasOps KasStore KasTables.

Section persist.
Context {KV : Type} {Hdb : Fdb KV} {Hlaws : FdbLaws KV} {Hcodec : KasCodec} {Hclaws : KasCodecLaws} {Henv : KasEnv}.
Implicit Types (db : KV) (w : World KV) (T : targets) (R : reservations).

(** ** Writes in order *)

Definition apply_op db (op : WriteOp) : KV :=
  match op with
  | OpClearRange b e => kv_clear_range b e db
  | OpSet k v => kv_set k v db
  | OpClear k => kv_clear k db
  end.

Definition apply_ops (ops : list WriteOp) db : KV := foldl apply_op db ops.

Definition with_db db w : World KV := mkWorld db (w_ticks w) (w_uuids w) (w_kas w).

Lemma apply_ops_cons op ops db : apply_ops (op :: ops) db = apply_ops ops (apply_op db op).
Proof. done. Qed.
Lemma apply_ops_app ops ops' db : apply_ops (ops ++ ops') db = apply_ops ops' (apply_ops ops db).
Proof. apply foldl_app. Qed.

Lemma trx_each_ops ops db : trx_each apply_write_op ops db = (apply_ops ops db, Ok tt).
Proof. revert db. induction ops as [|op ops IH]; intros db; [done|]. cbn [trx_each]. unfold mbind, M_mbind. destruct op; cbn; apply IH. Qed.

Lemma with_db_same w : with_db (w_db w) w = w.
Proof. by destruct w. Qed.

(** ** The fence *)

(** A commit that asserts this epoch passes. *)
Definition fence_holds (fence : option Z) db : Prop :=
  match fence with Some e => stored_epoch (kv_get lease_key db) = Ok e | None => True end.

Lemma commit_write_ops_ok ops fence w :
  fence_holds fence (w_db w) → commit_write_ops ops fence w = (with_db (apply_ops ops (w_db w)) w, Ok tt).
Proof.
  intros Hf. unfold commit_write_ops, db_run, run, commit_txn. destruct fence as [e|]; unfold mbind, M_mbind.
  - unfold trx_get, lift. unfold fence_holds in Hf. rewrite Hf. cbn. rewrite Z.eqb_refl. cbn. by rewrite trx_each_ops.
  - cbn. by rewrite trx_each_ops.
Qed.

Lemma commit_write_ops_fenced ops e e' w :
  stored_epoch (kv_get lease_key (w_db w)) = Ok e' → e' ≠ e → commit_write_ops ops (Some e) w = (w, Err Internal_).
Proof.
  intros Hf Hne. unfold commit_write_ops, db_run, run, commit_txn, mbind, M_mbind, trx_get, lift. rewrite Hf. cbn.
  rewrite (proj2 (Z.eqb_neq _ _) Hne). by destruct w.
Qed.

(** A write that leaves the lease alone. *)
Definition off_lease (op : WriteOp) : Prop :=
  match op with
  | OpClearRange b e => in_range b e lease_key = false
  | OpSet k _ | OpClear k => k ≠ lease_key
  end.

Lemma off_lease_get ops db : Forall off_lease ops → kv_get lease_key (apply_ops ops db) = kv_get lease_key db.
Proof.
  intros H. revert db. induction H as [|op ops Hop _ IH]; intros db; [done|]. rewrite apply_ops_cons, IH. destruct op; cbn in *.
  - rewrite kv_get_clear_range. by rewrite Hop.
  - rewrite kv_get_set. by rewrite decide_False.
  - rewrite kv_get_clear. by rewrite decide_False.
Qed.

Lemma fence_holds_after ops fence db : Forall off_lease ops → fence_holds fence db → fence_holds fence (apply_ops ops db).
Proof. intros Ho. destruct fence; [|done]. unfold fence_holds. by rewrite off_lease_get. Qed.

Definition unit_ops (units : list (list WriteOp * Z)) : list WriteOp := concat units.*1.

Lemma commit_units_ok fence units batch n w :
  fence_holds fence (w_db w) → Forall off_lease (batch ++ unit_ops units) →
  commit_units fence units batch n w = (with_db (apply_ops (batch ++ unit_ops units) (w_db w)) w, Ok tt).
Proof.
  revert batch n w. induction units as [|[ops bytes] units IH]; intros batch n w Hf Ho; cbn [commit_units].
  - change (unit_ops []) with (@nil WriteOp). rewrite app_nil_r. destruct batch as [|op batch]; [by destruct w|].
    by apply commit_write_ops_ok.
  - change (unit_ops ((ops, bytes) :: units)) with (ops ++ unit_ops units) in *. destruct (negb _ && _).
    + rewrite (M_bind_run _ _ _ _ _ (commit_write_ops_ok _ _ _ Hf)). apply Forall_app in Ho as [Ho1 Ho2]. rewrite IH; [|by apply fence_holds_after|done].
      by rewrite (apply_ops_app batch).
    + rewrite IH; [|done|by rewrite <-(assoc_L (++))]. by rewrite <-(assoc_L (++)).
Qed.

Lemma commit_units_fenced e e' units batch n w :
  stored_epoch (kv_get lease_key (w_db w)) = Ok e' → e' ≠ e → Forall (fun u => u.1 ≠ []) units → batch ≠ [] ∨ units ≠ [] →
  commit_units (Some e) units batch n w = (w, Err Internal_).
Proof.
  intros Hf Hne Hu. revert batch n. induction Hu as [|[ops bytes] units Hops _ IH]; intros batch n Hb; cbn [commit_units].
  - destruct batch as [|op batch]; [by destruct Hb|]. by apply (commit_write_ops_fenced _ _ e').
  - destruct (negb _ && _).
    + by rewrite (M_bind_Err _ _ _ _ _ (commit_write_ops_fenced _ _ _ _ Hf Hne)).
    + apply IH. left. destruct batch, ops; cbn in *; done.
Qed.

(** ** One table at a time *)

(** A write outside a table. *)
Definition off_table (p : byte) (op : WriteOp) : Prop :=
  match op with
  | OpClearRange b e => ∀ k, kas_encode_key p [] `prefix_of` k → in_range b e k = false
  | OpSet k _ | OpClear k => ¬ kas_encode_key p [] `prefix_of` k
  end.

Lemma off_table_get p ops db k :
  Forall (off_table p) ops → kas_encode_key p [] `prefix_of` k → kv_get k (apply_ops ops db) = kv_get k db.
Proof.
  intros H Hk. revert db. induction H as [|op ops Hop _ IH]; intros db; [done|]. rewrite apply_ops_cons, IH. destruct op; cbn in *.
  - rewrite kv_get_clear_range. by rewrite Hop.
  - rewrite kv_get_set, decide_False; [done|]. by intros ->.
  - rewrite kv_get_clear, decide_False; [done|]. by intros ->.
Qed.

Lemma off_table_is {A : Type} (encode : A → list byte) p P ops db :
  Forall (off_table p) ops → table_is encode p P db → table_is encode p P (apply_ops ops db).
Proof. intros Ho HT k v Hk. rewrite (off_table_get p) by done. by apply HT. Qed.

(** A key, a set or clear of a key, and a clear of a prefix, all of another table. *)
Lemma key_off p q segs : p ≠ q → ¬ kas_encode_key p [] `prefix_of` kas_encode_key q segs.
Proof. intros Hne Hp. by apply (kas_key_table _ _ _ _ _ eq_refl) in Hp. Qed.
Lemma set_off p q segs v : p ≠ q → off_table p (OpSet (kas_encode_key q segs) v).
Proof. apply key_off. Qed.
Lemma clear_off p q segs : p ≠ q → off_table p (OpClear (kas_encode_key q segs)).
Proof. apply key_off. Qed.
Lemma range_off p q segs : p ≠ q → off_table p (OpClearRange (kas_encode_key q segs) (kas_prefix_range_end (kas_encode_key q segs))).
Proof.
  intros Hne k Hk. apply not_true_is_false. rewrite kas_range. intros Hq. apply Hne.
  assert (kas_encode_key q [] `prefix_of` k) as Hq0 by (etransitivity; [apply kas_table_prefix|done]).
  destruct (prefix_weak_total _ _ _ Hk Hq0) as [H|H]; by apply (kas_key_table _ _ _ _ _ eq_refl) in H.
Qed.

Lemma set_in {A : Type} (encode : A → list byte) p P (P' : list byte → A → Prop) key a db :
  table_is encode p P db → (∀ k x, P' k x ↔ (k = key ∧ x = a) ∨ (k ≠ key ∧ P k x)) → table_is encode p P' (kv_set key (encode a) db).
Proof.
  intros HT HP k v Hk. rewrite kv_get_set. destruct (decide (k = key)) as [->|Hne].
  - split; [intros [= <-]; exists a; rewrite HP; auto|]. intros (x & Hx & ->). apply HP in Hx as [[_ ->]|[? _]]; [done|by exfalso].
  - rewrite (HT k v Hk). split; intros (x & Hx & ->); exists x; (split; [|done]); [apply HP; by right|]. by apply HP in Hx as [[? _]|[_ ?]].
Qed.

Lemma clear_in {A : Type} (encode : A → list byte) p P (P' : list byte → A → Prop) key db :
  table_is encode p P db → (∀ k x, P' k x ↔ k ≠ key ∧ P k x) → table_is encode p P' (kv_clear key db).
Proof.
  intros HT HP k v Hk. rewrite kv_get_clear. destruct (decide (k = key)) as [->|Hne].
  - split; [done|]. intros (x & [? _]%HP & _). by exfalso.
  - rewrite (HT k v Hk). split; intros (x & Hx & ->); exists x; (split; [|done]); [by apply HP|]. by apply HP in Hx as [_ ?].
Qed.

(** ** The effect of a unit on the tables *)

Definition off_tables (op : WriteOp) : Prop :=
  off_table PREFIX_TARGET op ∧ off_table PREFIX_TARGET_SPAN op ∧ off_table PREFIX_RESERVATION op.

Lemma stored_off ops db T R : Forall off_tables ops → stored db T R → stored (apply_ops ops db) T R.
Proof.
  intros Ho [H1 H2 H3 H4 H5]. split; try done; (apply off_table_is; [|done]); (eapply Forall_impl; [exact Ho|]); by intros op (? & ? & ?).
Qed.

Lemma stored_set_reservation db T R r :
  stored db T R → seg_ok (rr_reservation_id r) →
  stored (kv_set (reservation_key (rr_reservation_id r)) (encode_reservation r) db) T (<[rr_reservation_id r := r]> R).
Proof.
  intros HS Hseg. pose proof HS as [H1 H2 H3 H4 H5].
  pose (op := OpSet (reservation_key (rr_reservation_id r)) (encode_reservation r)). change (kv_set _ _ db) with (apply_ops [op] db).
  split; try done.
  - apply off_table_is; [|done]. repeat constructor. by apply set_off.
  - apply off_table_is; [|done]. repeat constructor. by apply set_off.
  - apply (set_in encode_reservation _ (reservation_row R)); [done|]. intros k x. unfold reservation_row. split.
    + intros (id & Hx & ->). destruct (decide (id = rr_reservation_id r)) as [->|Hne].
      * rewrite lookup_insert_eq in Hx. injection Hx as ->. by left.
      * rewrite lookup_insert_ne in Hx by done. right. split; [|by exists id]. intros E%reservation_key_inj; [done|by eapply H5|done].
    + intros [[-> ->]|[Hne (id & Hx & ->)]].
      * exists (rr_reservation_id r). by rewrite lookup_insert_eq.
      * exists id. split; [|done]. rewrite lookup_insert_ne; [done|]. by intros <-.
  - intros id x. destruct (decide (id = rr_reservation_id r)) as [->|Hne]; [rewrite lookup_insert_eq|rewrite lookup_insert_ne by done; apply H5].
    by intros [= ->].
Qed.

Lemma stored_clear_reservation db T R id :
  stored db T R → seg_ok id → stored (kv_clear (reservation_key id) db) T (delete id R).
Proof.
  intros HS Hseg. pose proof HS as [H1 H2 H3 H4 H5].
  pose (op := OpClear (reservation_key id)). change (kv_clear _ db) with (apply_ops [op] db).
  split; try done.
  - apply off_table_is; [|done]. repeat constructor. by apply clear_off.
  - apply off_table_is; [|done]. repeat constructor. by apply clear_off.
  - apply (clear_in encode_reservation _ (reservation_row R)); [done|]. intros k x. unfold reservation_row. split.
    + intros (id' & [Hne Hx]%lookup_delete_Some & ->). split; [|by exists id']. intros E%reservation_key_inj; [done|by eapply H5|done].
    + intros [Hne (id' & Hx & ->)]. exists id'. split; [|done]. apply lookup_delete_Some. split; [|done]. by intros ->.
  - intros id' x [_ Hx]%lookup_delete_Some. by apply H5.
Qed.

Lemma stored_set_target db T R t :
  stored db T R → seg_ok (ta_id t) →
  table_is encode_target PREFIX_TARGET (target_row (<[ta_id t := t]> T)) (kv_set (target_key (ta_id t)) (encode_target (ta_target t)) db).
Proof.
  intros HS Hseg. apply (set_in encode_target _ (target_row T)); [apply HS|]. intros k x. unfold target_row. split.
  - intros (id & u & Hu & -> & ->). destruct (decide (id = ta_id t)) as [->|Hne].
    + rewrite lookup_insert_eq in Hu. injection Hu as ->. by left.
    + rewrite lookup_insert_ne in Hu by done. right. split; [|by exists id, u]. intros E%target_key_inj; [done|by eapply HS|done].
  - intros [[-> ->]|[Hne (id & u & Hu & -> & ->)]].
    + exists (ta_id t), t. by rewrite lookup_insert_eq.
    + exists id, u. split; [|done]. rewrite lookup_insert_ne; [done|]. by intros <-.
Qed.

(** The record alone, when the spans are those stored. *)
Lemma stored_record_unit db T R t u :
  stored db T R → T !! ta_id t = Some u → ta_spans t = ta_spans u →
  stored (apply_ops (build_target_write_unit false t).1 db) (<[ta_id t := t]> T) R.
Proof.
  intros HS Hu Es. destruct (sd_target_ids _ _ _ HS _ _ Hu) as (_ & Hseg & Hlen). pose proof HS as [H1 H2 H3 H4 H5].
  cbn [build_target_write_unit fst]. split; [by eapply stored_set_target| | | |done].
  - intros k v Hk. rewrite (off_table_get PREFIX_TARGET_SPAN); [|repeat constructor; by apply set_off|done]. rewrite (H2 k v Hk).
    assert (∀ c, chunk_row T k c ↔ chunk_row (<[ta_id t := t]> T) k c) as Hc; [|by setoid_rewrite Hc].
    intros c. unfold chunk_row. split.
    + intros (id & x & Hx & Hin & ->). destruct (decide (id = ta_id t)) as [->|Hne].
      * exists (ta_id t), t. rewrite lookup_insert_eq. rewrite Hu in Hx. injection Hx as <-. by rewrite Es.
      * exists id, x. by rewrite lookup_insert_ne.
    + intros (id & x & Hx & Hin & ->). destruct (decide (id = ta_id t)) as [->|Hne].
      * rewrite lookup_insert_eq in Hx. injection Hx as <-. exists (ta_id t), u. by rewrite <-Es.
      * rewrite lookup_insert_ne in Hx by done. by exists id, x.
  - apply off_table_is; [|done]. repeat constructor. by apply set_off.
  - intros id x. destruct (decide (id = ta_id t)) as [->|Hne]; [rewrite lookup_insert_eq|rewrite lookup_insert_ne by done; apply H4].
    intros [= <-]. by rewrite Es.
Qed.

Definition chunk_writes (t : TargetAllocatorState) : list (list byte * list byte) :=
  (fun c => (target_span_chunk_key (ta_id t) (sc_chunk_index c), encode_chunk c)) <$> split_spans_into_chunks (ta_id t) (ta_spans t).

Lemma apply_sets l db : apply_ops ((fun '(k, v) => OpSet k v) <$> l) db = kv_put_all l db.
Proof. revert db. induction l as [|[k v] l IH]; intros db; [done|]. apply IH. Qed.

Lemma chunk_writes_keys t : seg_ok (ta_id t) → len (ta_spans t) < 2 ^ 64 - 1 → NoDup (chunk_writes t).*1.
Proof.
  intros Hseg Hl. unfold chunk_writes. rewrite <-list_fmap_compose. unfold compose. cbn.
  assert (∀ c, c ∈ split_spans_into_chunks (ta_id t) (ta_spans t) → 0 ≤ sc_chunk_index c < 2 ^ 64) as Hr by (intros c Hc; by eapply split_elem).
  pose proof (split_sorted (ta_id t) (ta_spans t)) as Hs. induction Hs as [|c l Hs IH Hc]; [constructor|]. rewrite fmap_cons. constructor.
  - intros (c' & E & Hc')%list_elem_of_fmap. rewrite Forall_forall in Hc. specialize (Hc c' Hc').
    apply span_chunk_key_inj in E as [_ E]; [lia|done..|apply Hr; by left|apply Hr; by right].
  - apply IH. intros c' Hc'. apply Hr. by right.
Qed.

Lemma elem_of_chunk_writes t k v :
  (k, v) ∈ chunk_writes t ↔ ∃ c, c ∈ split_spans_into_chunks (ta_id t) (ta_spans t) ∧ k = target_span_chunk_key (ta_id t) (sc_chunk_index c) ∧ v = encode_chunk c.
Proof. unfold chunk_writes. rewrite list_elem_of_fmap. naive_solver. Qed.

(** Whose chunks a key can be. *)
Lemma chunk_key_owner id id' i : seg_ok id → seg_ok id' → target_span_prefix id `prefix_of` target_span_chunk_key id' i → id = id'.
Proof.
  intros H H' [_ Hp]%kas_key_prefix; [|by repeat constructor|repeat constructor; [done|apply dec_padded_seg; lia]]. by apply prefix_cons_inv_1 in Hp.
Qed.
Lemma chunk_key_own id i : seg_ok id → target_span_prefix id `prefix_of` target_span_chunk_key id i.
Proof.
  intros H. apply kas_key_prefix; [by repeat constructor|repeat constructor; [done|apply dec_padded_seg; lia]|]. split; [done|]. apply prefix_cons, prefix_nil.
Qed.

(** The chunks after those of a target were cleared and written again. *)
Lemma stored_chunks db T R t db' :
  stored db T R → seg_ok (ta_id t) → len (ta_spans t) < 2 ^ 64 - 1 →
  (∀ k, kas_encode_key PREFIX_TARGET_SPAN [] `prefix_of` k → kv_get k db' = if in_range (target_span_prefix (ta_id t)) (kas_prefix_range_end (target_span_prefix (ta_id t))) k then None else kv_get k db) →
  table_is encode_chunk PREFIX_TARGET_SPAN (chunk_row (<[ta_id t := t]> T)) (kv_put_all (chunk_writes t) db').
Proof.
  intros HS Hseg Hlen Hdb' k v Hk. pose proof (sd_target_ids _ _ _ HS) as Hids. destruct (decide (k ∈ (chunk_writes t).*1)) as [Hin|Hnin].
  - destruct (kv_put_all_get (chunk_writes t) k db' Hin) as (v0 & Hv0 & ->). apply elem_of_chunk_writes in Hv0 as (c & Hc & Ek & ->). split.
    + intros [= <-]. exists c. split; [|done]. exists (ta_id t), t. by rewrite lookup_insert_eq.
    + intros (a & (id & x & Hx & Ha & ->) & ->). destruct (decide (id = ta_id t)) as [->|Hne].
      * rewrite lookup_insert_eq in Hx. injection Hx as <-. apply span_chunk_key_inj in Ek as [_ Ek]; [|done..|by eapply split_elem|by eapply split_elem].
        do 2 f_equal. by eapply split_inj.
      * rewrite lookup_insert_ne in Hx by done. destruct (Hids _ _ Hx) as (_ & Hs & Hl).
        apply span_chunk_key_inj in Ek as [? _]; [done..|apply (split_elem _ _ _ Hl Ha)|apply (split_elem _ _ _ Hlen Hc)].
  - rewrite kv_put_all_other, Hdb' by done.
    assert (∀ a, chunk_row (<[ta_id t := t]> T) k a ↔ chunk_row T k a ∧ ¬ target_span_prefix (ta_id t) `prefix_of` k) as Hrow.
    { intros a. unfold chunk_row. split.
      - intros (id & x & Hx & Ha & ->). destruct (decide (id = ta_id t)) as [->|Hne].
        + rewrite lookup_insert_eq in Hx. injection Hx as <-. destruct Hnin. apply list_elem_of_fmap. exists (target_span_chunk_key (ta_id t) (sc_chunk_index a), encode_chunk a).
          split; [done|]. apply elem_of_chunk_writes. by exists a.
        + rewrite lookup_insert_ne in Hx by done. split; [by exists id, x|]. intros E%chunk_key_owner; [by subst|done|by eapply Hids].
      - intros [(id & x & Hx & Ha & ->) Hn]. exists id, x. split; [|done]. rewrite lookup_insert_ne; [done|]. intros <-. by destruct Hn; apply chunk_key_own. }
    destruct (in_range _ _ k) eqn:Er.
    + apply kas_range in Er. split; [done|]. intros (a & Ha & _). apply Hrow in Ha as [_ Hn]. by destruct Hn.
    + rewrite (sd_chunks _ _ _ HS k v Hk). assert (¬ target_span_prefix (ta_id t) `prefix_of` k) as Hn.
      { intros Hp. apply (kas_range PREFIX_TARGET_SPAN [ta_id t] k) in Hp. unfold target_span_prefix in Er. congruence. }
      split; intros (a & Ha & ->); exists a; (split; [|done]); by apply Hrow.
Qed.

Lemma stored_spans_unit db T R t :
  stored db T R → seg_ok (ta_id t) → len (ta_spans t) < 2 ^ 64 - 1 →
  stored (apply_ops (build_target_write_unit true t).1 db) (<[ta_id t := t]> T) R.
Proof.
  intros HS Hseg Hlen. pose proof HS as [H1 H2 H3 H4 H5].
  change (build_target_write_unit true t).1 with
    (OpSet (target_key (ta_id t)) (encode_target (ta_target t)) ::
     OpClearRange (target_span_prefix (ta_id t)) (kas_prefix_range_end (target_span_prefix (ta_id t))) :: ((fun '(k, v) => OpSet k v) <$> chunk_writes t)).
  assert (∀ p, p ≠ PREFIX_TARGET_SPAN → Forall (off_table p) (OpClearRange (target_span_prefix (ta_id t)) (kas_prefix_range_end (target_span_prefix (ta_id t))) :: ((fun '(k, v) => OpSet k v) <$> chunk_writes t))) as Hoff.
  { intros p Hp. constructor; [by apply range_off|]. apply Forall_fmap, Forall_forall. intros [k v] (c & _ & -> & _)%elem_of_chunk_writes. by apply set_off. }
  split.
  - rewrite apply_ops_cons. apply off_table_is; [by apply Hoff|]. by eapply stored_set_target.
  - rewrite !apply_ops_cons, apply_sets. eapply stored_chunks; [done..|]. intros k Hk. cbn [apply_op]. rewrite kv_get_clear_range, kv_get_set.
    destruct (in_range _ _ k); [done|]. rewrite decide_False; [done|]. intros ->. by apply key_off in Hk.
  - apply off_table_is; [|done]. constructor; [by apply set_off|by apply Hoff].
  - intros id x. destruct (decide (id = ta_id t)) as [->|Hne]; [rewrite lookup_insert_eq|rewrite lookup_insert_ne by done; apply H4]. by intros [= <-].
  - done.
Qed.

(** ** The effect of a change *)

Definition put_targets (l : list TargetAllocatorState) T : targets := foldl (fun T t => <[ta_id t := t]> T) T l.
Definition delete_ids (ids : list (list byte)) R : reservations := foldl (fun R id => delete id R) R ids.

Record change_ok (c : Changes) T : Prop := {
  ck_targets : Forall (fun t => seg_ok (ta_id t) ∧ len (ta_spans t) < 2 ^ 64 - 1 ∧
    (ch_rewrite_spans c = false → ∃ u, T !! ta_id t = Some u ∧ ta_spans t = ta_spans u)) (ch_targets c);
  ck_reservations : Forall (fun r => seg_ok (rr_reservation_id r)) (ch_reservations c);
  ck_deletes : Forall seg_ok (ch_delete_reservations c);
}.

Lemma unit_ops_app u u' : unit_ops (u ++ u') = unit_ops u ++ unit_ops u'.
Proof. unfold unit_ops. by rewrite fmap_app, concat_app. Qed.

Lemma target_units_stored rewrite l db T R :
  stored db T R → Forall (fun t => seg_ok (ta_id t) ∧ len (ta_spans t) < 2 ^ 64 - 1 ∧
    (rewrite = false → ∃ u, T !! ta_id t = Some u ∧ ta_spans t = ta_spans u)) l →
  stored (apply_ops (unit_ops (build_target_write_unit rewrite <$> l)) db) (put_targets l T) R.
Proof.
  intros HS Hl. revert db T HS Hl. induction l as [|t l IH]; intros db T HS Hl; [done|]. apply Forall_cons in Hl as [(Hseg & Hlen & Hu) Hl].
  rewrite fmap_cons. change (unit_ops (?u :: ?us)) with (u.1 ++ unit_ops us). rewrite apply_ops_app. cbn [put_targets foldl].
  apply IH.
  - destruct rewrite; [by apply stored_spans_unit|]. destruct (Hu eq_refl) as (u & Hu1 & Hu2). by eapply stored_record_unit.
  - eapply Forall_impl; [exact Hl|]. intros t' (? & ? & Hu'). split_and!; [done..|]. intros E. destruct (Hu' E) as (u' & Ht' & Es).
    destruct (decide (ta_id t' = ta_id t)) as [Eid|Hne]; [|exists u'; by rewrite lookup_insert_ne].
    exists t. rewrite Eid, lookup_insert_eq. split; [done|]. destruct (Hu E) as (u & Hu1 & Hu2). rewrite Eid in Ht'. congruence.
Qed.

Lemma reservation_units_stored l db T R :
  stored db T R → Forall (fun r => seg_ok (rr_reservation_id r)) l →
  stored (apply_ops (unit_ops ((fun r => set_unit (reservation_key (rr_reservation_id r)) (encode_reservation r)) <$> l)) db) T (insert_reservations l R).
Proof.
  intros HS Hl. revert db R HS. induction Hl as [|r l Hr _ IH]; intros db R HS; [done|].
  rewrite fmap_cons. change (unit_ops (?u :: ?us)) with (u.1 ++ unit_ops us). rewrite apply_ops_app. cbn [insert_reservations foldl].
  apply IH. by apply stored_set_reservation.
Qed.

Lemma delete_units_stored l db T R :
  stored db T R → Forall seg_ok l → stored (apply_ops (unit_ops ((fun id => clear_unit (reservation_key id)) <$> l)) db) T (delete_ids l R).
Proof.
  intros HS Hl. revert db R HS. induction Hl as [|id l Hr _ IH]; intros db R HS; [done|].
  rewrite fmap_cons. change (unit_ops (?u :: ?us)) with (u.1 ++ unit_ops us). rewrite apply_ops_app. cbn [delete_ids foldl].
  apply IH. by apply stored_clear_reservation.
Qed.

Lemma bin_units_off (f : list byte * list byte → list WriteOp * Z) l :
  (∀ bin id, ∃ v, (f (bin, id)).1 = [OpSet (reservation_bin_member_key bin id) v] ∨ (f (bin, id)).1 = [OpClear (reservation_bin_member_key bin id)]) →
  Forall (fun op => ∀ p, p ≠ PREFIX_RESERVATION_BIN → off_table p op) (unit_ops (f <$> l)).
Proof.
  intros Hf. apply Forall_concat, Forall_fmap, Forall_fmap, Forall_forall. intros [bin id] _. destruct (Hf bin id) as [v [E|E]]; unfold compose; rewrite E; repeat constructor; intros p Hp.
  - by apply set_off.
  - by apply clear_off.
Qed.

Lemma clear_bins_off l : Forall (fun op => ∀ p, p ≠ PREFIX_RESERVATION_BIN → off_table p op)
  (unit_ops ((fun '(bin, id) => clear_unit (reservation_bin_member_key bin id)) <$> l)).
Proof. apply bin_units_off. intros bin id. exists []. by right. Qed.
Lemma set_bins_off l : Forall (fun op => ∀ p, p ≠ PREFIX_RESERVATION_BIN → off_table p op)
  (unit_ops ((fun '(bin, id) => set_unit (reservation_bin_member_key bin id) id) <$> l)).
Proof. apply bin_units_off. intros bin id. exists id. by left. Qed.

Lemma change_units_stored c db T R :
  stored db T R → change_ok c T →
  stored (apply_ops (unit_ops (change_units c)) db) (put_targets (ch_targets c) T)
    (delete_ids (ch_delete_reservations c) (insert_reservations (ch_reservations c) R)).
Proof.
  intros HS [H1 H2 H3]. unfold change_units. rewrite !unit_ops_app, !apply_ops_app. apply stored_off; [|apply stored_off].
  - eapply Forall_impl; [apply set_bins_off|]. intros op Hop. split_and!; by apply Hop.
  - eapply Forall_impl; [apply clear_bins_off|]. intros op Hop. split_and!; by apply Hop.
  - apply delete_units_stored; [|done]. apply reservation_units_stored; [|done]. by apply target_units_stored.
Qed.

Lemma off_table_lease op : off_table PREFIX_COORDINATION_LEASE op → off_lease op.
Proof.
  assert (kas_encode_key PREFIX_COORDINATION_LEASE [] `prefix_of` lease_key) as Hk by apply kas_table_prefix.
  destruct op as [b e|k v|k]; cbn; intros H; [by apply H|by intros ->..].
Qed.

(** The tables a change does not touch. *)
Definition no_change_table (p : byte) : Prop := p ∉ [PREFIX_TARGET; PREFIX_TARGET_SPAN; PREFIX_RESERVATION; PREFIX_RESERVATION_BIN].

Lemma no_change_lease : no_change_table PREFIX_COORDINATION_LEASE.
Proof. by apply (bool_decide_unpack (PREFIX_COORDINATION_LEASE ∉ _)). Qed.
Lemma no_change_stamp : no_change_table PREFIX_ALLOCATOR_STATE.
Proof. by apply (bool_decide_unpack (PREFIX_ALLOCATOR_STATE ∉ _)). Qed.

Lemma change_units_off p c : no_change_table p → Forall (off_table p) (unit_ops (change_units c)).
Proof.
  unfold no_change_table. rewrite !not_elem_of_cons. intros (Hp1 & Hp2 & Hp3 & Hp4 & _). unfold change_units. rewrite !unit_ops_app. repeat (apply Forall_app; split).
  - apply Forall_concat, Forall_fmap, Forall_fmap, Forall_forall. intros t _. unfold compose. destruct (ch_rewrite_spans c).
    + constructor; [by apply set_off|]. constructor; [by apply range_off|]. apply Forall_fmap, Forall_forall.
      intros [k v] (x & -> & _)%list_elem_of_fmap. by apply set_off.
    + repeat constructor. by apply set_off.
  - apply Forall_concat, Forall_fmap, Forall_fmap, Forall_forall. intros r _. repeat constructor. by apply set_off.
  - apply Forall_concat, Forall_fmap, Forall_fmap, Forall_forall. intros r _. repeat constructor. by apply clear_off.
  - eapply Forall_impl; [apply clear_bins_off|]. intros op Hop. by apply Hop.
  - eapply Forall_impl; [apply set_bins_off|]. intros op Hop. by apply Hop.
Qed.

Lemma change_units_lease c : Forall off_lease (unit_ops (change_units c)).
Proof. eapply Forall_impl; [|apply off_table_lease]. apply change_units_off, no_change_lease. Qed.

(** The stamp, when there is one, reads back. *)
Definition stamp_good db : Prop := ∀ v, kv_get stamp_key db = Some v → ∃ s, v = encode_stamp s.

Lemma stamp_key_table : kas_encode_key PREFIX_ALLOCATOR_STATE [] `prefix_of` stamp_key.
Proof. unfold stamp_key, allocator_state_stamp_key. destruct (trimmed_shard _); apply kas_table_prefix. Qed.

Lemma stamp_off v : off_tables (OpSet stamp_key v) ∧ off_lease (OpSet stamp_key v).
Proof.
  unfold stamp_key, allocator_state_stamp_key.
  split; [split_and!|apply off_table_lease]; destruct (trimmed_shard _); by apply set_off.
Qed.

(** ** Persisting *)

Definition with_kas (k : Kas) w : World KV := mkWorld (w_db w) (w_ticks w) (w_uuids w) k.

(** The instance up to its stamp: what it holds in memory, and its lease. *)
Definition same_memory (w w' : World KV) : Prop :=
  al_targets (ka_state (w_kas w')) = al_targets (ka_state (w_kas w)) ∧
  al_reservations (ka_state (w_kas w')) = al_reservations (ka_state (w_kas w)) ∧
  al_bins (ka_state (w_kas w')) = al_bins (ka_state (w_kas w)) ∧
  al_committed_granules (ka_state (w_kas w')) = al_committed_granules (ka_state (w_kas w)) ∧
  al_reservation_state_loaded (ka_state (w_kas w')) = al_reservation_state_loaded (ka_state (w_kas w)) ∧
  ka_leadership (w_kas w') = ka_leadership (w_kas w).

Definition leads (w : World KV) (e : Z) : Prop := lt_epoch <$> ka_leadership (w_kas w) = Some e.

(** The fence of a write: the epoch of the instance's term, or none. *)
Definition fence_value (fence : EpochFence) (w : World KV) : option Z :=
  match fence with Leased => lt_epoch <$> ka_leadership (w_kas w) | Unfenced => None end.

Lemma fence_epoch_of_ok fence w : (fence = Leased → ∃ e, leads w e) → fence_epoch_of fence w = (w, Ok (fence_value fence w)).
Proof.
  intros H. destruct fence; [|done]. destruct (H eq_refl) as [e He]. unfold leads in He. unfold fence_epoch_of, fence_value, mbind, M_mbind, get_leadership.
  by destruct (ka_leadership (w_kas w)) as [term|].
Qed.

Lemma persist_state_ok c fence w T R :
  stored (w_db w) T R → change_ok c T → (fence = Leased → ∃ e, leads w e) → fence_holds (fence_value fence w) (w_db w) →
  ∃ w', persist_state c fence w = (w', Ok tt) ∧ same_memory w w' ∧
    stored (w_db w') (put_targets (ch_targets c) T) (delete_ids (ch_delete_reservations c) (insert_reservations (ch_reservations c) R)) ∧
    kv_get lease_key (w_db w') = kv_get lease_key (w_db w) ∧ (stamp_good (w_db w) → stamp_good (w_db w')) ∧
    al_target_state_loaded (ka_state (w_kas w')) = al_target_state_loaded (ka_state (w_kas w)) || negb (no_changes c).
Proof.
  intros HS Hc Hl Hf. unfold persist_state. rewrite (M_bind_run _ _ _ _ _ (fence_epoch_of_ok fence w Hl)). destruct (no_changes c).
  - exists (with_db (apply_ops (unit_ops (change_units c)) (w_db w)) w). split_and!.
    + by apply (commit_units_ok _ (change_units c) []); [|apply change_units_lease].
    + done.
    + by apply change_units_stored.
    + by apply off_lease_get, change_units_lease.
    + intros Hst v. cbn. rewrite (off_table_get PREFIX_ALLOCATOR_STATE); [apply Hst|apply change_units_off, no_change_stamp|apply stamp_key_table].
    + cbn. by rewrite orb_false_r.
  - unfold mbind at 1, M_mbind at 1, new_uuid. unfold mbind at 1, M_mbind at 1, now_unix_ms. cbn [w_db w_ticks w_uuids w_kas].
    set (w1 := mkWorld (w_db w) (S (w_ticks w)) (S (w_uuids w)) (w_kas w)).
    set (stamp := encode_stamp _).
    assert (Forall off_lease (unit_ops (change_units c ++ [([OpSet stamp_key stamp], 0)]))) as Ho.
    { rewrite unit_ops_app. apply Forall_app. split; [apply change_units_lease|]. constructor; [by apply stamp_off|constructor]. }
    assert (commit_units (fence_value fence w) (change_units c ++ [([OpSet stamp_key stamp], 0)]) [] 0 w1 =
      (with_db (apply_ops (unit_ops (change_units c ++ [([OpSet stamp_key stamp], 0)])) (w_db w)) w1, Ok tt)) as Ec.
    { by apply (commit_units_ok _ _ [] 0 w1). }
    rewrite (M_bind_run _ _ _ _ _ Ec). eexists. split; [done|]. split_and!; [done..| | | |by rewrite orb_true_r].
    + cbn [w_db with_db on_state modify_state]. rewrite unit_ops_app, apply_ops_app. apply stored_off; [constructor; [by apply stamp_off|constructor]|]. by apply change_units_stored.
    + by apply off_lease_get.
    + intros _ v. cbn. rewrite unit_ops_app, apply_ops_app. cbn. rewrite kv_get_set, decide_True by done. intros [= <-]. by eexists.
Qed.

(** A superseded writer changes nothing in the database. *)
Lemma persist_state_fenced c w e e' :
  leads w e → stored_epoch (kv_get lease_key (w_db w)) = Ok e' → e' ≠ e → no_changes c = false →
  ∃ w', persist_state c Leased w = (w', Err Internal_) ∧ w_db w' = w_db w ∧ w_kas w' = w_kas w.
Proof.
  intros He Hf Hne Hc. unfold persist_state. rewrite (M_bind_run _ _ _ _ _ (fence_epoch_of_ok Leased w ltac:(by exists e))). rewrite Hc.
  unfold fence_value. unfold leads in He. rewrite He. unfold mbind at 1, M_mbind at 1, new_uuid. unfold mbind at 1, M_mbind at 1, now_unix_ms. cbn [w_db w_ticks w_uuids w_kas].
  set (w1 := mkWorld (w_db w) (S (w_ticks w)) (S (w_uuids w)) (w_kas w)).
  exists w1. split; [|done]. apply M_bind_Err. apply (commit_units_fenced _ e'); [done..| |right; by destruct (change_units c)].
  apply Forall_app. split; [|by repeat constructor]. unfold change_units. repeat (apply Forall_app; split); apply Forall_fmap, Forall_forall; unfold compose.
  - intros t _. by destruct (ch_rewrite_spans c).
  - by intros r _.
  - by intros id _.
  - by intros [bin id] _.
  - by intros [bin id] _.
Qed.
End persist.
