(* ===== verification/KasLocked.v ===== *)
(** The allocator's operations by an instance that holds the lease and has loaded the
    state, bins and the records of targets included: each keeps database and memory in step
    and the granules apart. *)
From S2P Require Import Prelude Bytes Sorts Fdb KmsKeys KmsValues KmsStore Placement Kas KasPlan KasReserve KasOps KasStore KasService KasTables KasPersist.

(** UUIDs and the name of the shard are short enough to be parts of a key. *)
Class KasEnvOk `{KasEnv} := {
  uuid_length : ∀ n, len (uuid n) < 2 ^ 16;
  shard_length : ∀ s, kc_allocation_shard_id config = Some s → len s < 2 ^ 16;
}.

Section locked.
Context {KV : Type} {Hdb : Fdb KV} {Hlaws : FdbLaws KV} {Hcodec : KasCodec} {Hclaws : KasCodecLaws} {Henv : KasEnv} {Heok : KasEnvOk}.
Implicit Types (db : KV) (w : World KV) (T : targets) (R : reservations).

Abbreviation state w := (ka_state (w_kas w)).

(** ** Loading *)

Lemma load_stamp_ok w : stamp_good (w_db w) → ∃ stamp, load_allocator_state_stamp w = (w, Ok stamp).
Proof.
  intros H. unfold load_allocator_state_stamp. assert (db_run (trx_get stamp_key) w = (w, Ok (kv_get stamp_key (w_db w)))) as E by (by destruct w).
  rewrite (M_bind_run _ _ _ _ _ E). destruct (kv_get stamp_key (w_db w)) as [v|] eqn:Ev; [|by eexists].
  destruct (H v Ev) as [s ->]. rewrite decode_encode_stamp. by eexists.
Qed.

(** What memory has of the database. *)
Definition in_sync T R (s : AllocatorState) : Prop :=
  al_target_state_loaded s = true → al_targets s = T ∧ (al_reservation_state_loaded s = true → al_reservations s = R).

(** A refreshed instance: the database as it was, memory loaded. *)
Definition refreshed (full : bool) T R w w' : Prop :=
  w_db w' = w_db w ∧ ka_leadership (w_kas w') = ka_leadership (w_kas w) ∧ in_sync T R (state w') ∧
  al_target_state_loaded (state w') = true ∧ (full = true → al_reservation_state_loaded (state w') = true).

Lemma refresh_target_ok w T R : stored (w_db w) T R → stamp_good (w_db w) → ∃ w', refresh_target_state_from_fdb w = (w', Ok tt) ∧ refreshed false T R w w'.
Proof.
  intros HS Hst. unfold refresh_target_state_from_fdb. destruct (load_all_targets_ok w T R HS) as (l & El & <-). rewrite (M_bind_run _ _ _ _ _ El).
  destruct (load_stamp_ok w Hst) as (stamp & Es). rewrite (M_bind_run _ _ _ _ _ Es). eexists. split; [done|]. by split_and!.
Qed.

Lemma refresh_full_ok w T R :
  stored (w_db w) T R → alloc_ok T R → stamp_good (w_db w) → ∃ w', refresh_full_state_from_fdb w = (w', Ok tt) ∧ refreshed true T R w w'.
Proof.
  intros HS HI Hst. unfold refresh_full_state_from_fdb. destruct (load_all_targets_ok w T R HS) as (l & El & <-). rewrite (M_bind_run _ _ _ _ _ El).
  destruct (load_active_reservations_ok w _ R HS) as (r & Er & <-); [intros id r Hr; by apply (ao_ids _ _ HI id r)|]. rewrite (M_bind_run _ _ _ _ _ Er).
  cbn [is_nil]. rewrite (M_bind_run _ _ w w tt) by done.
  destruct (load_stamp_ok w Hst) as (stamp & Es). rewrite (M_bind_run _ _ _ _ _ Es). eexists. split; [done|]. by split_and!.
Qed.

(** With or without looking at the stamp, memory is then in step. *)
Lemma ensure_current_ok full skip w T R :
  stored (w_db w) T R → alloc_ok T R → stamp_good (w_db w) → in_sync T R (state w) →
  ∃ w', ensure_current full skip w = (w', Ok tt) ∧ refreshed full T R w w'.
Proof.
  intros HS HI Hst Hsy. destruct (refresh_target_ok w T R HS Hst) as (w1 & E1 & H1), (refresh_full_ok w T R HS HI Hst) as (w2 & E2 & H2).
  destruct (load_stamp_ok w Hst) as (stamp & Es).
  unfold ensure_current. destruct full; unfold ensure_full_state_current, ensure_target_state_current; rewrite (M_bind_run _ _ w w (state w)) by done.
  - destruct (al_target_state_loaded (state w)) eqn:Et; cbn [negb orb]; [|by exists w2].
    destruct (al_reservation_state_loaded (state w)) eqn:Er; cbn [negb]; [|by exists w2].
    destruct skip; [exists w; by split_and!|]. rewrite (M_bind_run _ _ _ _ _ Es). case_bool_decide; [exists w; by split_and!|by exists w2].
  - destruct (al_target_state_loaded (state w)) eqn:Et; cbn [negb]; [|by exists w1].
    destruct skip; [exists w; by split_and!|]. rewrite (M_bind_run _ _ _ _ _ Es). case_bool_decide; [exists w; by split_and!|by exists w1].
Qed.

(** ** Ready to run *)

(** The instance holds the lease in force and memory is what the database stores. *)
Record ready (full : bool) T R w : Prop := {
  rd_stored : stored (w_db w) T R;
  rd_alloc : alloc_ok T R;
  rd_stamp : stamp_good (w_db w);
  rd_leads : ∃ e, leads w e ∧ stored_epoch (kv_get lease_key (w_db w)) = Ok e;
  rd_targets : al_target_state_loaded (state w) = true ∧ al_targets (state w) = T;
  rd_reservations : al_reservation_state_loaded (state w) = true → al_reservations (state w) = R;
  rd_full : full = true → al_reservation_state_loaded (state w) = true;
}.

(** The lease and the instance's term are as before. *)
Definition same_term w w' : Prop :=
  kv_get lease_key (w_db w') = kv_get lease_key (w_db w) ∧ ka_leadership (w_kas w') = ka_leadership (w_kas w).

Lemma same_term_trans w1 w2 w3 : same_term w1 w2 → same_term w2 w3 → same_term w1 w3.
Proof. unfold same_term. intuition congruence. Qed.

Lemma ready_ensure full full' skip T R w :
  ready full T R w → ∃ w', ensure_current full' skip w = (w', Ok tt) ∧ ready full' T R w' ∧ same_term w w'.
Proof.
  intros [HS HI Hst Hl [Ht HT] HR _]. destruct (ensure_current_ok full' skip w T R HS HI Hst ltac:(done)) as (w' & E & Edb & Elead & Hsy & Htl & Hfl).
  exists w'. split_and!; [done| |split; [by rewrite Edb|done]]. split; rewrite ?Edb; try done.
  - unfold leads. by rewrite Elead.
  - split; [done|]. by apply Hsy.
  - by apply Hsy.
Qed.


(** ** Persisting what memory has *)

Definition with_alloc (s : AllocatorState) w : World KV :=
  mkWorld (w_db w) (w_ticks w) (w_uuids w) (mkKas s (ka_leadership (w_kas w)) (ka_deferred_bin_member_deletes (w_kas w))).

Lemma with_alloc_same w : with_alloc (state w) w = w.
Proof. by destruct w as [? ? ? []]. Qed.

Lemma on_state_run {A : Type} (f : M AllocatorState Status A) w s' r : f (state w) = (s', r) → on_state f w = (with_alloc s' w, r).
Proof. unfold on_state. by intros ->. Qed.

Lemma get_alloc_run w : get_alloc w = (w, Ok (state w)).
Proof. done. Qed.

(** The holder of the lease over a database that stores [T] and [R]. *)
Definition holder T R w : Prop :=
  stored (w_db w) T R ∧ stamp_good (w_db w) ∧ ∃ e, leads w e ∧ stored_epoch (kv_get lease_key (w_db w)) = Ok e.

Lemma ready_holder full T R w : ready full T R w → holder T R w.
Proof. by intros []. Qed.

(** Memory after a step, as [ready] asks. *)
Definition memory_is (full : bool) T R (s : AllocatorState) : Prop :=
  al_target_state_loaded s = true ∧ al_targets s = T ∧ (al_reservation_state_loaded s = true → al_reservations s = R) ∧
  (full = true → al_reservation_state_loaded s = true).

Lemma ready_memory full T R w : ready full T R w → memory_is full T R (state w).
Proof. intros []. by split_and!; destruct rd_targets0. Qed.

Lemma make_ready full T R w : holder T R w → alloc_ok T R → memory_is full T R (state w) → ready full T R w.
Proof. intros (? & ? & ?) ? (? & ? & ? & ?). by split. Qed.

Lemma memory_step full T R T' R' s s' :
  memory_is full T R s → same_meta s s' → al_targets s' = T' → (al_reservation_state_loaded s = true → al_reservations s' = R') → memory_is full T' R' s'.
Proof. intros (H1 & H2 & H3 & H4) (M1 & M2 & M3 & M4) HT HR. split_and!; [congruence|done|rewrite M3; auto|rewrite M3; auto]. Qed.

Lemma persist_ready_any fence full c w T R T' R' :
  holder T R w → memory_is full T' R' (state w) → alloc_ok T' R' → change_ok c T →
  put_targets (ch_targets c) T = T' → delete_ids (ch_delete_reservations c) (insert_reservations (ch_reservations c) R) = R' →
  ∃ w', persist_state c fence w = (w', Ok tt) ∧ ready full T' R' w' ∧ same_term w w'.
Proof.
  intros (HS & Hst & e & He & Hr) (M1 & M2 & M3 & M4) HI Hc <- <-.
  destruct (persist_state_ok c fence w T R HS Hc ltac:(by exists e)) as (w' & E & Hm & HS' & Hk & Hst' & Hl).
  { destruct fence; [|done]. unfold fence_value. by rewrite He. }
  destruct Hm as (N1 & N2 & N3 & N4 & N5 & N6). exists w'. split_and!; [done| |done]. apply make_ready; [|done|].
  - split_and!; [done|auto|]. exists e. unfold leads. by rewrite N6, Hk.
  - unfold memory_is. rewrite N1, N2, N5, Hl, M1. by split_and!.
Qed.

Definition persist_ready := persist_ready_any Leased.

Lemma put_targets_eq l T T' :
  Forall (fun t => T' !! ta_id t = Some t) l → (∀ id, id ∉ ta_id <$> l → T' !! id = T !! id) → put_targets l T = T'.
Proof.
  intros Hl Ho. rewrite Forall_forall in Hl. apply map_eq. intros id. destruct (decide (id ∈ ta_id <$> l)) as [(t & -> & Ht)%list_elem_of_fmap|Hn].
  - rewrite (Hl t Ht). apply (index_lookup ta_id); [|done..]. intros x y Hx%Hl Hy%Hl E. rewrite E in Hx. congruence.
  - rewrite (Ho id Hn). unfold put_targets. clear Hl Ho. revert T. induction l as [|t l IH]; intros T; [done|].
    rewrite fmap_cons in Hn. apply not_elem_of_cons in Hn as [Hne Hn]. cbn [foldl]. rewrite IH by done. by rewrite lookup_insert_ne.
Qed.

Lemma spans_length lo hi spans : spans_from lo hi spans → spans ≠ [] → 2 * len spans ≤ hi - lo + 1.
Proof.
  revert lo. induction spans as [|s spans IH]; intros lo; [done|]. cbn [spans_from]. intros (H1 & H2 & H3 & H4) _.
  destruct spans as [|s' spans]; [cbn; lia|]. specialize (IH _ H4 ltac:(done)). rewrite length_cons. lia.
Qed.

Lemma target_ok_length t : target_ok t → len (ta_spans t) < 2 ^ 64 - 1.
Proof.
  intros (Hc & Hs & _). destruct (decide (ta_spans t = [])) as [->|Hne]; [cbn; lia|]. pose proof (spans_length _ _ _ Hs Hne). lia.
Qed.

(** Targets that evolved can be stored. *)
Lemma dirty_ok db T R T' l :
  stored db T R → evolves T T' → Forall (fun t => T' !! ta_id t = Some t) l → Forall (fun t => seg_ok (ta_id t) ∧ len (ta_spans t) < 2 ^ 64 - 1 ∧
    (true = false → ∃ u, T !! ta_id t = Some u ∧ ta_spans t = ta_spans u)) l.
Proof.
  intros HS He Hl. eapply Forall_impl; [exact Hl|]. intros t Ht. specialize (He (ta_id t)). rewrite Ht in He.
  destruct (T !! ta_id t) as [u|] eqn:Eu; [|done]. destruct He as [_ Hok]. split_and!; [by eapply HS|by apply target_ok_length|done].
Qed.

(** ** Reserving *)

Definition same_instance w w' : Prop := w_db w' = w_db w ∧ w_kas w' = w_kas w.

Lemma holder_same T R w w' : same_instance w w' → holder T R w → holder T R w'.
Proof. intros [E1 E2]. unfold holder, leads. by rewrite E1, E2. Qed.

Lemma ready_same full T R w w' : same_instance w w' → ready full T R w → ready full T R w'.
Proof. intros [E1 E2] []. split; unfold leads; by rewrite ?E1, ?E2. Qed.

Lemma same_instance_term w w' : same_instance w w' → same_term w w'.
Proof. intros [E1 E2]. split; by rewrite ?E1, ?E2. Qed.

Lemma generated_id_seg ids explicit i :
  (∀ j, len (ids j) < 2 ^ 16) → (∀ id, explicit = Some id → seg_ok id) →
  seg_ok (reservation_id_of ids explicit (kc_allocation_shard_id config) i).
Proof.
  intros Hids He. unfold reservation_id_of. destruct explicit as [id|]; [by apply He|].
  pose proof (dec_padded_length 4 i) as Hd. specialize (Hids i).
  assert (len (bstr "reserve-batch-" ++ ids i ++ bstr "-" ++ dec_padded 4 i) < 2 ^ 17) as Hg.
  { rewrite !length_app. change (length (bstr "reserve-batch-")) with 14%nat. change (length (bstr "-")) with 1%nat. lia. }
  destruct (kc_allocation_shard_id config) as [sh|] eqn:Es; [|unfold seg_ok; lia].
  destruct (blank sh); [unfold seg_ok; lia|]. unfold seg_ok. pose proof (shard_length sh Es). rewrite !length_app in *.
  change (length (bstr "/")) with 1%nat. lia.
Qed.

Definition request_ok (rq : ReserveRequest) : Prop := ∀ id, rq_explicit_reservation_id rq = Some id → seg_ok id.

Lemma reserve_unspecified bias ids shard batch n excluded banned expires required explicit s s' r :
  n ≠ 0%nat → reserve_in_memory bias ids shard batch n Unspecified excluded banned expires required explicit s = (s', r) →
  s' = s ∧ (r = Ok ([], []) ∨ r = Err InvalidArgument_).
Proof.
  intros Hn. unfold reserve_in_memory, candidate_domains_from_state.
  unfold mbind at 1, M_mbind at 1, get_state. destruct (filter _ _) as [|c cs].
  - intros H.
    assert (plan_reservation_batch bias ids [] batch n explicit shard expires = Ok ([], ∅, [])) as Ep.
    { unfold plan_reservation_batch. destruct (seqZ 0 batch) as [|i l]; [done|]. cbn [plan_loop]. destruct n; [done|]. done. }
    assert (candidate_domains_from_targets Unspecified [] = Ok []) as Ec by done. rewrite Ec in H.
    rewrite lift_Ok_bind_M, Ep, lift_Ok_bind_M in H. cbn in H. injection H as <- <-. split; [by destruct s|by left].
  - cbn. intros [= <- <-]. split; [done|by right].
Qed.

(** What a batch of reservations returns: the new reservations and the targets after it. *)
Definition reserve_result (rq : ReserveRequest) T T' (new : list PlacementReservationRecord) : Prop :=
  ∃ dirty, reserved (rq_failure_domain rq) (rq_excluded_target_ids rq) (rq_banned_target_id rq) (rq_required_target_ids rq)
    (kc_allocation_shard_id config) (rq_batch_size rq) (rq_fragment_count rq) T T' dirty new.

Lemma expiry_step ttl w :
  ∃ w1 ex, (if ttl =? 0 then mret 0 else now ← now_unix_ms; mret (saturating_add64 now ttl)) w = (w1, @Ok Status Z ex) ∧ same_instance w w1.
Proof. destruct (ttl =? 0); eexists _, _; (split; [done|]); by split. Qed.

Lemma persist_nothing full T R w rewrite :
  ready full T R w → ∃ w', persist_state (mkChanges [] [] [] [] [] rewrite) Leased w = (w', Ok tt) ∧ ready full T R w' ∧ same_term w w'.
Proof.
  intros Hr. apply (persist_ready full _ w T R); [by eapply ready_holder|by apply ready_memory|apply Hr|by split|done..].
Qed.

Lemma reserve_locked_ok full rq T R w :
  ready full T R w → request_ok rq →
  match reserve_batch_common_locked rq w with
  | (w', Ok new) => same_term w w' ∧ ∃ T', ready full T' (insert_reservations new R) w' ∧
      (rq_failure_domain rq ≠ Unspecified → rq_batch_size rq ≠ 0 → reserve_result rq T T' new)
  | (w', Err err) => same_term w w' ∧ ready full T R w' ∧ err = InvalidArgument_ ∧
      (rq_failure_domain rq = Unspecified ∨ rq_fragment_count rq = 0%nat)
  end.
Proof.
  intros Hr Hrq. unfold reserve_batch_common_locked. destruct (Z.eqb_spec (rq_batch_size rq) 0) as [Hb|Hb].
  { split; [done|]. by exists T. }
  destruct (Nat.eqb_spec (rq_fragment_count rq) 0) as [Hn|Hn]; [split_and!; auto; done|].
  destruct (expiry_step (rq_reservation_ttl_ms rq) w) as (w1 & ex & E1 & S1). rewrite (M_bind_run _ _ _ _ _ E1).
  unfold batch_uuids. unfold mbind at 1, M_mbind at 1. set (w2 := mkWorld _ _ _ _). set (ids := fun i => uuid _).
  assert (same_instance w w2) as S2 by (by destruct S1 as [E2 E3]; split).
  assert (ready full T R w2) as Hr2 by (by eapply ready_same). clearbody w2.
  assert (∀ j, len (ids j) < 2 ^ 16) as Huuid by (intros j; apply uuid_length). clearbody ids. clear E1 S1 w1.
  destruct (decide (rq_failure_domain rq = Unspecified)) as [Eu|Hu].
  { destruct (reserve_in_memory domain_order_bias ids (kc_allocation_shard_id config) (rq_batch_size rq) (rq_fragment_count rq) (rq_failure_domain rq)
      (rq_excluded_target_ids rq) (rq_banned_target_id rq) ex (rq_required_target_ids rq) (rq_explicit_reservation_id rq) (state w2)) as [s' r] eqn:Er.
    pose proof (on_state_run _ _ _ _ Er) as Eo. rewrite Eu in Er. apply reserve_unspecified in Er as [-> Er]; [|done].
    rewrite with_alloc_same in Eo. destruct Er as [-> | ->].
    - rewrite (M_bind_run _ _ _ _ _ Eo). destruct (persist_nothing full T R w2 true Hr2) as (w3 & E3 & H3 & S3). rewrite (M_bind_run _ _ _ _ _ E3).
      split; [eapply same_term_trans; [by apply same_instance_term|done]|]. by exists T.
    - rewrite (M_bind_Err _ _ _ _ _ Eo). split; [by apply same_instance_term|by auto]. }
  pose proof (ready_memory _ _ _ _ Hr2) as Hm. destruct Hm as (M1 & M2 & M3 & M4).
  destruct (reserve_in_memory_ok domain_order_bias ids (rq_failure_domain rq) (rq_excluded_target_ids rq) (rq_banned_target_id rq) (rq_required_target_ids rq)
    (kc_allocation_shard_id config) (rq_batch_size rq) (rq_fragment_count rq) ex (rq_explicit_reservation_id rq) (state w2)) as (T' & dirty & new & Em & Hres & Hids & _).
  { rewrite M2. apply Hr2. } { done. }
  rewrite (M_bind_run _ _ _ _ _ (on_state_run _ _ _ _ Em)). set (w3 := with_alloc _ w2). rewrite M2 in Hres.
  pose proof (reserved_ok _ _ _ _ _ _ _ _ _ _ _ R (rd_alloc _ _ _ _ Hr2) Hres) as HI'.
  destruct (persist_ready full (mkChanges dirty new [] [] [] true) w3 T R T' (insert_reservations new R)) as (w4 & E4 & H4 & S4); [| |done| | |done|].
  - exact (ready_holder _ _ _ _ Hr2).
  - split_and!; [done|done| |done]. intros Hl. cbn. by rewrite (M3 Hl).
  - split; [|cbn; apply Forall_forall|done].
    + eapply dirty_ok; [apply Hr2|apply Hres|apply Hres].
    + intros r Hin. apply (list_elem_of_fmap_2 rr_reservation_id) in Hin. rewrite Hids in Hin. pose proof (elem_of_sublist _ _ _ Hin (sublist_take _ _)) as Hin'.
      apply list_elem_of_fmap in Hin' as (i & -> & _). by apply generated_id_seg.
  - apply put_targets_eq; apply Hres.
  - rewrite (M_bind_run _ _ _ _ _ E4). split; [eapply same_term_trans; [by apply same_instance_term|done]|]. exists T'. split; [done|]. by exists dirty.
Qed.

(** ** Finalizing, releasing and reclaiming *)

Lemma effect_ids_ok full T R w e : ready full T R w → (∀ id, id ∈ effect_ids e → is_Some (R !! id)) →
  Forall (fun r => seg_ok (rr_reservation_id r)) (me_dirty_reservations e) ∧ Forall seg_ok (me_delete_reservations e).
Proof.
  intros Hr Hids. assert (∀ id, id ∈ effect_ids e → seg_ok id) as H.
  { intros id [r Hx]%Hids. by apply (sd_reservation_ids _ _ _ (rd_stored _ _ _ _ Hr) id r). }
  split; apply Forall_forall; intros x Hx; apply H; apply elem_of_app; [left; by apply list_elem_of_fmap_2|by right].
Qed.

Lemma dirty_entries_ok T T' (dirty : gset (list byte)) s :
  targets_ok T' → al_targets s = T' → only_dirty T T' dirty →
  Forall (fun t => T' !! ta_id t = Some t) (dirty_entries dirty s) ∧ ∀ id, id ∉ ta_id <$> dirty_entries dirty s → (is_Some (T !! id) ↔ is_Some (T' !! id)) → T' !! id = T !! id.
Proof.
  intros HT <- Ho. unfold dirty_entries. split.
  - apply Forall_forall. intros t (id & _ & Ht)%list_elem_of_omap. by destruct (HT _ _ Ht) as [-> _].
  - intros id Hid Hdom. destruct (decide (id ∈ dirty)) as [Hin|Hn]; [|by apply Ho].
    destruct (al_targets s !! id) as [t|] eqn:Et.
    + destruct Hid. destruct (HT _ _ Et) as [Eid _]. rewrite <-Eid. apply list_elem_of_fmap_2, list_elem_of_omap. exists id. split; [by apply elem_of_elements|done].
    + destruct (T !! id) eqn:ET; [|done]. destruct (proj1 Hdom ltac:(done)) as [? ?]. done.
Qed.

Lemma evolves_dom T T' id : evolves T T' → is_Some (T !! id) ↔ is_Some (T' !! id).
Proof. intros H. specialize (H id). destruct (T !! id), (T' !! id); try done; split; intros [? ?]; done. Qed.

Lemma put_dirty_entries T T' dirty s : targets_ok T' → al_targets s = T' → evolves T T' → only_dirty T T' dirty → put_targets (dirty_entries dirty s) T = T'.
Proof.
  intros HT Hs He Ho. destruct (dirty_entries_ok T T' dirty s HT Hs Ho) as [H1 H2]. apply put_targets_eq; [done|].
  intros id Hid. apply H2; [done|by apply evolves_dom].
Qed.

Lemma apply_locked_ok kind ms T R w :
  ready true T R w → Forall mutation_ok ms →
  match apply_reservation_mutations_locked kind ms w with
  | (w', Ok results) => same_term w w' ∧ ∃ T' R', ready true T' R' w' ∧
      ∀ q, free_at T' q ↔ free_at T q ∨ (kind = Release ∧ q ∈ ms ≫= selected R ∧ ¬ committed_at (state w) q)
  | (w', Err err) => same_term w w' ∧ err = InvalidArgument_ ∧ w_db w' = w_db w ∧
      ((ready true T R w' ∧ ¬ NoDup (rm_reservation_id <$> ms)) ∨ ∃ m, m ∈ ms ∧ bad_index R m)
  end.
Proof.
  intros Hr Hms. unfold apply_reservation_mutations_locked. destruct ms as [|m0 ms0].
  { split; [done|]. exists T, R. split; [done|]. intros q. cbn. rewrite elem_of_nil. tauto. }
  cbn [is_nil]. set (ms := m0 :: ms0) in *. clearbody ms. pose proof (ready_memory _ _ _ _ Hr) as Hm. pose proof Hm as (M1 & M2 & M3 & M4).
  pose proof (M3 (M4 eq_refl)) as M5. pose proof (apply_in_memory_ok kind ms (state w)) as H. rewrite M2, M5 in H. specialize (H (rd_alloc _ _ _ _ Hr) Hms).
  destruct (apply_in_memory kind ms (state w)) as [s' [e|err]] eqn:E.
  - destruct H as (HI & HR & He & Hme & Ho & Hids & Hf). rewrite (M_bind_run _ _ _ _ _ (on_state_run _ _ _ _ E)).
    rewrite (M_bind_run _ _ _ _ _ (get_alloc_run _)). set (w1 := with_alloc s' w).
    destruct (effect_ids_ok _ _ _ _ _ Hr Hids) as [Hi1 Hi2].
    edestruct (persist_ready true (mkChanges (dirty_entries (me_dirty_targets e) (state w1)) (me_dirty_reservations e) (me_delete_reservations e) (me_delete_bin_members e) [] true)
      w1 T R (al_targets s') (al_reservations s')) as (w2 & E2 & H2 & S2).
    + exact (ready_holder _ _ _ _ Hr).
    + by eapply memory_step.
    + done.
    + split; [|done..]. eapply dirty_ok; [apply Hr|exact He|]. eapply dirty_entries_ok; [by eapply evolves_targets_ok; [apply Hr|]|done|exact Ho].
    + apply put_dirty_entries; [by eapply evolves_targets_ok; [apply Hr|]|done..].
    + by rewrite HR.
    + rewrite (M_bind_run _ _ _ _ _ E2). split; [exact S2|]. exists (al_targets s'), (al_reservations s'). done.
  - rewrite (M_bind_Err _ _ _ _ _ (on_state_run _ _ _ _ E)). destruct H as (_ & _ & -> & H). split_and!; [done..|].
    destruct H as [[-> ?]|H]; [left|by right]. by rewrite with_alloc_same.
Qed.

Lemma metadata_only_ok ms T R w :
  ready true T R w →
  match try_finalize_reservations_metadata_only ms w with
  | (w', Ok (Some results)) => same_term w w' ∧ ∃ R', ready true T R' w'
  | (w', Ok None) => w' = w
  | (w', Err err) => w' = w ∧ err = InvalidArgument_
  end.
Proof.
  intros Hr. unfold try_finalize_reservations_metadata_only. destruct (is_nil ms); [split; [done|by exists R]|].
  pose proof (ready_memory _ _ _ _ Hr) as Hm. pose proof Hm as (M1 & M2 & M3 & M4). pose proof (M3 (M4 eq_refl)) as M5.
  pose proof (finalize_in_memory_ok ms (state w)) as H. rewrite M2, M5 in H. specialize (H (rd_alloc _ _ _ _ Hr)).
  destruct (finalize_in_memory ms (state w)) as [s' [[e|]|err]] eqn:E.
  - destruct H as (HI & HR & HT & Hme & Hd & Hdr & Hids). rewrite (M_bind_run _ _ _ _ _ (on_state_run _ _ _ _ E)).
    destruct (persist_ready true (mkChanges [] [] (me_delete_reservations e) (me_delete_bin_members e) [] false) (with_alloc s' w) T R T (al_reservations s')) as (w2 & E2 & H2 & S2).
    + exact (ready_holder _ _ _ _ Hr).
    + by eapply memory_step.
    + by rewrite HT in HI.
    + split; [done..|]. apply Forall_forall. intros id [r Hx]%Hids. by apply (sd_reservation_ids _ _ _ (rd_stored _ _ _ _ Hr) id r).
    + done.
    + rewrite HR. unfold apply_effects. by rewrite Hdr.
    + rewrite (M_bind_run _ _ _ _ _ E2). split; [exact S2|]. by exists (al_reservations s').
  - subst s'. rewrite (M_bind_run _ _ _ _ _ (on_state_run _ _ _ _ E)). by rewrite with_alloc_same.
  - destruct H as [-> ->]. rewrite (M_bind_Err _ _ _ _ _ (on_state_run _ _ _ _ E)). by rewrite with_alloc_same.
Qed.

(** What [finalize_reservations_batch] runs under the lease. *)
Lemma finalize_locked_ok ms T R w :
  ready true T R w → Forall mutation_ok ms →
  match finalize_locked ms w with
  | (w', Ok results) => same_term w w' ∧ ∃ T' R', ready true T' R' w' ∧ ∀ q, free_at T' q ↔ free_at T q
  | (w', Err err) => same_term w w' ∧ err = InvalidArgument_ ∧ (ready true T R w' ∨ ∃ m, m ∈ ms ∧ bad_index R m)
  end.
Proof.
  intros Hr Hms. unfold finalize_locked. pose proof (metadata_only_ok ms T R w Hr) as H.
  destruct (try_finalize_reservations_metadata_only ms w) as [w1 [[results|]|err]] eqn:E.
  - rewrite (M_bind_run _ _ _ _ _ E). destruct H as (S1 & R' & H1). split; [done|]. by exists T, R'.
  - subst w1. rewrite (M_bind_run _ _ _ _ _ E). pose proof (apply_locked_ok Finalize ms T R w Hr Hms) as Ha.
    destruct (apply_reservation_mutations_locked Finalize ms w) as [w2 [results|err]]; [|destruct Ha as (? & ? & _ & [[? ?]|?]); auto].
    destruct Ha as (S2 & T' & R' & H2 & Hf). split; [done|]. exists T', R'. split; [done|]. intros q. rewrite Hf. split; [|by left]. by intros [?|[? _]].
  - rewrite (M_bind_Err _ _ _ _ _ E). destruct H as [-> ->]. split_and!; [done..|]. by left.
Qed.

Lemma reclaim_locked_ok granules T R w :
  ready true T R w → Forall (fun g => 0 ≤ tg_granule_index g ∧ ¬ held R (granule_of g)) granules →
  match reclaim_locked granules w with
  | (w', Ok reclaimed) => same_term w w' ∧ ∃ T', ready true T' R w' ∧ ∀ q, free_at T' q ↔ free_at T q ∨ q ∈ granule_of <$> granules
  | (w', Err err) => same_term w w' ∧ ∃ g, g ∈ granules ∧ bad_granule T (granule_of g)
  end.
Proof.
  intros Hr Hg. unfold reclaim_locked. pose proof (ready_memory _ _ _ _ Hr) as Hm. pose proof Hm as (M1 & M2 & M3 & M4). pose proof (M3 (M4 eq_refl)) as M5.
  pose proof (reclaim_in_memory_ok granules (state w)) as H. rewrite M2, M5 in H. specialize (H (rd_alloc _ _ _ _ Hr) Hg).
  destruct (reclaim_in_memory granules (state w)) as [s' [[n dirty]|err]] eqn:E.
  - destruct H as (HI & HR & He & Hme & Ho & Hf). rewrite (M_bind_run _ _ _ _ _ (on_state_run _ _ _ _ E)). cbn beta iota.
    rewrite (M_bind_run _ _ _ _ _ (get_alloc_run _)). set (w1 := with_alloc s' w).
    destruct (persist_ready true (mkChanges (dirty_entries dirty (state w1)) [] [] [] [] true) w1 T R (al_targets s') R) as (w2 & E2 & H2 & S2).
    + exact (ready_holder _ _ _ _ Hr).
    + eapply memory_step; [done..|]. by intros _.
    + by rewrite HR in HI.
    + split; [|done..]. eapply dirty_ok; [apply Hr|exact He|]. eapply dirty_entries_ok; [by eapply evolves_targets_ok; [apply Hr|]|done|exact Ho].
    + apply put_dirty_entries; [by eapply evolves_targets_ok; [apply Hr|]|done..].
    + done.
    + rewrite (M_bind_run _ _ _ _ _ E2). split; [exact S2|]. by exists (al_targets s').
  - rewrite (M_bind_Err _ _ _ _ _ (on_state_run _ _ _ _ E)). by destruct H as (_ & _ & _ & _ & H).
Qed.

(** ** Expiry *)

Lemma expired_valid R ids : Forall mutation_ok ((fun id => mkMutation id []) <$> ids) ∧ ∀ m, m ∈ (fun id => mkMutation id []) <$> ids → ¬ bad_index R m.
Proof.
  split; [apply Forall_fmap, Forall_forall; intros id _; constructor|].
  intros m (id & -> & _)%list_elem_of_fmap (r & err & _ & E). unfold normalize_subset_indexes in E. by destruct (_ =? _)%nat.
Qed.

(** The granules of the expired reservations that an object committed. *)
Lemma committed_present_ok (candidates : list (list byte * Z)) w :
  ∃ l, committed_granules_present candidates w = (w, Ok l) ∧
    ∀ q, q ∈ l ↔ q ∈ candidates ∧ is_Some (kv_get (committed_granule_key q.1 q.2) (w_db w)).
Proof.
  unfold committed_granules_present. destruct candidates as [|c0 cs0].
  { exists []. split; [done|]. intros q. rewrite elem_of_nil. naive_solver. }
  cbn [is_nil]. set (cs := c0 :: cs0). clearbody cs.
  assert (∀ l0 l, ∃ r, fold_m (fun present '(target_id, granule) => value ← trx_get (committed_granule_key target_id granule);
      mret (match value with Some _ => present ++ [(target_id, granule)] | None => present end)) l0 l (w_db w) = (w_db w, @Ok Status _ r) ∧
    ∀ q, q ∈ r ↔ q ∈ l0 ∨ q ∈ l ∧ is_Some (kv_get (committed_granule_key q.1 q.2) (w_db w))) as H.
  { intros l0 l. revert l0. induction l as [|[id g] l IH]; intros l0.
    - exists l0. split; [done|]. intros q. rewrite elem_of_nil. tauto.
    - cbn [fold_m]. edestruct (IH (match kv_get (committed_granule_key id g) (w_db w) with Some _ => l0 ++ [(id, g)] | None => l0 end)) as (r & Er & Hr).
      exists r. split; [exact Er|]. intros q. rewrite Hr, elem_of_cons. destruct (kv_get (committed_granule_key id g) (w_db w)) as [v|] eqn:Ev.
      + rewrite elem_of_app, list_elem_of_singleton. split; [intros [[?| ->]|?]; [by left|right; split; [by left|cbn [fst snd]; rewrite Ev; by eexists]|naive_solver]|naive_solver].
      + split; [naive_solver|]. intros [?|[[->|?] ?]]; [by left| |by right]. exfalso. cbn [fst snd] in *. match goal with H : is_Some (kv_get _ _) |- _ => rewrite Ev in H; by destruct H end. }
  destruct (H [] (remove_dups cs)) as (r & Er & Hr). exists r. split.
  - unfold db_run, run. rewrite Er. by destruct w.
  - intros q. rewrite Hr, elem_of_nil, elem_of_remove_dups. tauto.
Qed.

Lemma add_committed_at l s q : committed_at (add_committed l s) q ↔ q ∈ l ∨ committed_at s q.
Proof.
  unfold committed_at, add_committed. cbn [al_committed_granules set_committed]. generalize (al_committed_granules s). intros m.
  revert m. induction l as [|[id g] l IH]; intros m; cbn [foldl]; [rewrite elem_of_nil; tauto|]. rewrite IH, elem_of_cons. destruct q as [i x]. cbn.
  destruct (decide (i = id)) as [->|Hne].
  - rewrite lookup_insert_eq. cbn. rewrite elem_of_union, elem_of_singleton. naive_solver.
  - rewrite lookup_insert_ne by done. naive_solver.
Qed.

Lemma omap_seq {A : Type} (l : list A) : omap (l !!.) (seq 0 (length l)) = l.
Proof.
  assert (∀ k, omap (fun i => l !! i) (seq k (length l - k)) = drop k l) as H; [|specialize (H 0%nat); by rewrite Nat.sub_0_r, drop_0 in H].
  intros k. remember (length l - k)%nat as n eqn:En. revert k En. induction n as [|n IH]; intros k En.
  - cbn. rewrite drop_ge by lia. done.
  - cbn. destruct (l !! k) as [x|] eqn:Ex; [|apply lookup_ge_None in Ex; lia]. rewrite (drop_S _ _ _ Ex), IH by lia. done.
Qed.

Lemma selected_all R id r : R !! id = Some r → selected R (mkMutation id []) = taken_of (rr_placements r).
Proof.
  intros Hr. unfold selected. cbn [rm_reservation_id rm_placement_indexes]. rewrite Hr. unfold normalize_subset_indexes.
  destruct (Nat.eqb_spec (length (rr_placements r)) 0) as [E|E].
  - apply length_zero_iff_nil in E. by rewrite E.
  - rewrite bool_decide_eq_true_2 by done. by rewrite omap_seq.
Qed.

Lemma selected_granules s ids q : q ∈ ((fun id => mkMutation id []) <$> ids) ≫= selected (al_reservations s) ↔ q ∈ granules_of s ids.
Proof.
  unfold granules_of. rewrite !list_elem_of_bind. split.
  - intros (m & Hq & (id & -> & Hid)%list_elem_of_fmap). exists id. split; [|done]. destruct (al_reservations s !! id) as [r|] eqn:Hr.
    + by rewrite (selected_all _ _ _ Hr) in Hq.
    + unfold selected in Hq. cbn in Hq. by rewrite Hr in Hq.
  - intros (id & Hq & Hid). exists (mkMutation id []). split; [|by apply (list_elem_of_fmap_2 (fun id => mkMutation id []))]. destruct (al_reservations s !! id) as [r|] eqn:Hr.
    + by rewrite (selected_all _ _ _ Hr).
    + by apply elem_of_nil in Hq.
Qed.

(** Only the record of committed granules changes. *)
Lemma ready_committed full T R w C : ready full T R w → ready full T R (with_alloc (set_committed C (state w)) w).
Proof. intros Hr. apply make_ready; [exact (ready_holder _ _ _ _ Hr)|apply Hr|exact (ready_memory _ _ _ _ Hr)]. Qed.

Lemma expired_ids_NoDup now limit s : alloc_ok (al_targets s) (al_reservations s) → NoDup (expired_ids now limit s).
Proof.
  intros HI. unfold expired_ids. eapply sublist_NoDup; [|apply sublist_take]. rewrite sort_by_perm.
  eapply sublist_NoDup; [|apply (fmap_sublist rr_reservation_id), sublist_filter]. rewrite <-list_fmap_compose.
  rewrite (list_fmap_ext _ fst); [apply NoDup_fst_map_to_list|]. intros i [k r] Hi%list_elem_of_lookup_2. apply elem_of_map_to_list in Hi. cbn. by apply HI.
Qed.

Lemma expire_locked_ok now limit T R w :
  ready true T R w →
  ∃ w' n T' R', expire_locked now limit w = (w', Ok n) ∧ same_term w w' ∧ ready true T' R' w' ∧
    ∀ q, free_at T' q ↔ free_at T q ∨ (q ∈ granules_of (state w) (expired_ids now limit (state w)) ∧
      kv_get (committed_granule_key q.1 q.2) (w_db w) = None ∧ ¬ committed_at (state w) q).
Proof.
  intros Hr. unfold expire_locked. rewrite (M_bind_run _ _ _ _ _ (get_alloc_run w)).
  pose proof (expired_ids_NoDup now limit (state w)) as Hnd. rewrite (proj2 (rd_targets _ _ _ _ Hr)) in Hnd.
  assert (al_reservations (state w) = R) as HR by (destruct Hr as [_ _ _ _ _ H1 H2]; by apply H1, H2). rewrite HR in Hnd. specialize (Hnd (rd_alloc _ _ _ _ Hr)).
  destruct (expired_ids now limit (state w)) as [|i0 is0].
  { exists w, 0, T, R. split_and!; [done..|]. intros q. cbn. rewrite elem_of_nil. tauto. }
  cbn [is_nil]. set (ids := i0 :: is0) in *. clearbody ids.
  destruct (committed_present_ok (granules_of (state w) ids) w) as (l & El & Hl). rewrite (M_bind_run _ _ _ _ _ El).
  rewrite (M_bind_run _ _ w (with_alloc (add_committed l (state w)) w) tt) by done. set (w1 := with_alloc _ w).
  assert (ready true T R w1) as Hr1 by (by apply ready_committed).
  destruct (expired_valid R ids) as [Hms Hbad]. pose proof (apply_locked_ok Release _ T R w1 Hr1 Hms) as H.
  destruct (apply_reservation_mutations_locked Release _ w1) as [w2 [results|err]] eqn:E.
  - destruct H as (S2 & T' & R' & Hr2 & Hf). rewrite (M_bind_run _ _ w1 w2 (Ok results)) by (unfold try_; by rewrite E).
    rewrite (M_bind_run _ _ w2 (with_alloc (set_committed ∅ (state w2)) w2) tt) by done.
    eexists _, _, T', R'. split; [done|]. split; [exact S2|]. split; [by apply ready_committed|].
    intros q. rewrite Hf, <-HR, selected_granules. unfold w1. cbn [ka_state w_kas with_alloc]. rewrite add_committed_at.
    rewrite Hl, eq_None_not_Some. tauto.
  - destruct H as (_ & _ & _ & [[_ Hx]|(m & Hm & Hx)]); [|by destruct (Hbad m Hm)]. destruct Hx. rewrite <-list_fmap_compose.
    change (NoDup ((fun x : list byte => x) <$> ids)). by rewrite list_fmap_id.
Qed.
End locked.

Section handlers.
Context {KV : Type} {Hdb : Fdb KV} {Hlaws : FdbLaws KV} {Hcodec : KasCodec} {Hclaws : KasCodecLaws} {Henv : KasEnv} {Heok : KasEnvOk}.
Implicit Types (db : KV) (w : World KV) (T : targets) (R : reservations).

Abbreviation state w := (ka_state (w_kas w)).

(** ** Bins *)

Lemma insert_reservations_dom l R r : r ∈ l → is_Some (insert_reservations l R !! rr_reservation_id r).
Proof.
  unfold insert_reservations. induction l as [|x l IH] using rev_ind; intros Hr; [by apply not_elem_of_nil in Hr|]. rewrite foldl_snoc.
  destruct (decide (rr_reservation_id x = rr_reservation_id r)) as [E|Hne]; [rewrite E, lookup_insert_eq; by eexists|].
  rewrite lookup_insert_ne by done. apply IH. apply elem_of_app in Hr as [?| ->%list_elem_of_singleton]; done.
Qed.

Lemma shrinks_seg full T R R' w : ready full T R w → shrinks R R' → ∀ id, is_Some (R' !! id) → seg_ok id.
Proof. intros Hr Hs id [r' Hr']. destruct (Hs id r' Hr') as (r & Hx & _). by apply (sd_reservation_ids _ _ _ (rd_stored _ _ _ _ Hr) id r). Qed.

(** The lighter way to store claims: no stamp, no bins. *)
Lemma claim_bumps_ok full claimed T R w :
  holder T R w → Forall (fun r => seg_ok (rr_reservation_id r)) claimed → alloc_ok T (insert_reservations claimed R) →
  memory_is full T (insert_reservations claimed R) (state w) →
  ∃ w', persist_claim_ttl_bumps_lock_light claimed w = (w', Ok tt) ∧ ready full T (insert_reservations claimed R) w' ∧ same_term w w'.
Proof.
  intros (HS & Hst & e & He & Hr) Hseg HI Hm. unfold persist_claim_ttl_bumps_lock_light.
  rewrite (M_bind_run _ _ _ _ _ (fence_epoch_of_ok Leased w ltac:(by exists e))). unfold fence_value. unfold leads in He. rewrite He.
  set (units := _ <$> claimed).
  assert (∀ p, p ≠ PREFIX_RESERVATION → Forall (off_table p) (unit_ops units)) as Hoff.
  { intros p Hp. apply Forall_concat, Forall_fmap, Forall_fmap, Forall_forall. intros r _. repeat constructor. by apply set_off. }
  assert (Forall off_lease (unit_ops units)) as Hl by (eapply Forall_impl; [by apply (Hoff PREFIX_COORDINATION_LEASE)|apply off_table_lease]).
  exists (with_db (apply_ops (unit_ops units) (w_db w)) w). split; [by apply (commit_units_ok (Some e) units [] 0 w)|].
  assert (kv_get lease_key (apply_ops (unit_ops units) (w_db w)) = kv_get lease_key (w_db w)) as Ek by (by apply off_lease_get).
  split; [|done]. apply make_ready; [|done|done]. split_and!.
  - by apply reservation_units_stored.
  - intros v. cbn. rewrite (off_table_get PREFIX_ALLOCATOR_STATE); [apply Hst|by apply Hoff|apply stamp_key_table].
  - exists e. split; [done|]. by rewrite <-Hr, <-Ek.
Qed.

(** Neither the clock nor the deferred deletions matter to what is stored. *)
Lemma ready_deferred full T R w l : ready full T R w →
  ready full T R (mkWorld (w_db w) (w_ticks w) (w_uuids w) (mkKas (state w) (ka_leadership (w_kas w)) l)).
Proof. intros []. by split. Qed.

Lemma claim_locked_ok batch n fd ttl T R w :
  ready false T R w →
  ∃ w' claimed, claim_locked batch n fd ttl w = (w', Ok claimed) ∧ same_term w w' ∧
    ready true T (insert_reservations claimed R) w' ∧ shrinks R (insert_reservations claimed R).
Proof.
  intros Hr. unfold claim_locked. destruct (ready_ensure _ true (kc_leader_resident_lease config) _ _ _ Hr) as (w1 & E1 & Hr1 & S1).
  rewrite (M_bind_run _ _ _ _ _ E1). unfold mbind at 1, M_mbind at 1, now_unix_ms. set (w2 := mkWorld _ (S _) _ _).
  assert (ready true T R w2) as Hr2 by (by eapply ready_same; [|exact Hr1]). assert (same_term w w2) as S2 by (exact S1). clearbody w2. clear E1 S1 Hr1.
  pose proof (ready_memory _ _ _ _ Hr2) as Hm. pose proof Hm as (M1 & M2 & M3 & M4). pose proof (M3 (M4 eq_refl)) as M5.
  pose proof (claim_ready_ok (clock (w_ticks w1)) (bin_storage_key n fd) batch ttl (state w2)) as H. rewrite M2, M5 in H. specialize (H (rd_alloc _ _ _ _ Hr2)).
  destruct (claim_ready_bin_records _ _ _ _ (state w2)) as [s' [claimed popped]] eqn:E. destruct H as (HI & HT & Hme & Hs & HR).
  assert (on_state (claim_ready (clock (w_ticks w1)) (bin_storage_key n fd) batch ttl) w2 = (with_alloc s' w2, Ok (claimed, popped))) as E2.
  { apply on_state_run. unfold claim_ready. by rewrite E. }
  rewrite (M_bind_run _ _ _ _ _ E2). set (w3 := with_alloc s' w2). rewrite HR in Hs, HI. rewrite HT in HI.
  assert (memory_is true T (insert_reservations claimed R) (state w3)) as Hm3 by (by eapply memory_step).
  assert (holder T R w3) as Hh3 by exact (ready_holder _ _ _ _ Hr2).
  assert (Forall (fun r => seg_ok (rr_reservation_id r)) claimed) as Hseg.
  { apply Forall_forall. intros r Hin. eapply (shrinks_seg _ _ _ _ _ Hr2 Hs). by apply insert_reservations_dom. }
  destruct (kc_leader_resident_lease config).
  - assert (∃ w4, (if is_nil claimed then mret tt else persist_claim_ttl_bumps_lock_light claimed) w3 = (w4, Ok tt) ∧
      ready true T (insert_reservations claimed R) w4 ∧ same_term w3 w4) as (w4 & E4 & Hr4 & S4).
    { destruct claimed as [|c cs]; [exists w3; split_and!; [done|by apply make_ready|done]|]. by apply claim_bumps_ok. }
    exists (mkWorld (w_db w4) (w_ticks w4) (w_uuids w4) (mkKas (state w4) (ka_leadership (w_kas w4)) (ka_deferred_bin_member_deletes (w_kas w4) ++ popped))), claimed.
    split; [|split; [eapply same_term_trans; [exact S2|exact S4]|split; [by apply ready_deferred|done]]].
    unfold mbind at 1, M_mbind at 1. unfold mbind at 1, M_mbind at 1. rewrite E4. done.
  - destruct (persist_ready true (mkChanges [] claimed [] popped [] false) w3 T R T (insert_reservations claimed R)) as (w4 & E4 & Hr4 & S4); [done..|by split|done|done|].
    rewrite (M_bind_run _ _ _ _ _ E4). exists w4, claimed. split_and!; [done|eapply same_term_trans; [exact S2|exact S4]|done|done].
Qed.

Lemma top_up_locked_ok want n fd ttl T R w :
  ready false T R w →
  match top_up_locked want n fd ttl w with
  | (w', Ok added) => same_term w w' ∧ ∃ T' new, ready true T' (insert_reservations new R) w' ∧ added = len new ∧
      (fd ≠ Unspecified → want ≠ 0 → reserve_result (mkReserve want n fd ∅ None ttl ∅ None) T T' new)
  | (w', Err err) => same_term w w' ∧ ready true T R w' ∧ err = InvalidArgument_
  end.
Proof.
  intros Hr. unfold top_up_locked. destruct (ready_ensure _ true false _ _ _ Hr) as (w1 & E1 & Hr1 & S1). rewrite (M_bind_run _ _ _ _ _ E1).
  pose proof (reserve_locked_ok true (mkReserve want n fd ∅ None ttl ∅ None) T R w1 Hr1 ltac:(done)) as H.
  destruct (reserve_batch_common_locked _ w1) as [w2 [new|err]] eqn:E2.
  - destruct H as (S2 & T' & Hr2 & Hres). rewrite (M_bind_run _ _ _ _ _ E2).
    set (ids := rr_reservation_id <$> new). set (key := bin_storage_key n fd).
    rewrite (M_bind_run _ _ w2 (with_alloc (push_bin key ids (state w2)) w2) tt) by done. set (w3 := with_alloc _ w2).
    destruct (persist_ready true (mkChanges [] [] [] [] ((fun id => (key, id)) <$> ids) false) w3 T' (insert_reservations new R) T' (insert_reservations new R)) as (w4 & E4 & Hr4 & S4).
    + exact (ready_holder _ _ _ _ Hr2).
    + exact (ready_memory _ _ _ _ Hr2).
    + apply Hr2.
    + by split.
    + done.
    + done.
    + rewrite (M_bind_run _ _ _ _ _ E4). split; [eapply same_term_trans; [exact S1|eapply same_term_trans; [exact S2|exact S4]]|].
      exists T', new. split_and!; [done| |exact Hres]. unfold ids. by rewrite length_fmap.
  - rewrite (M_bind_Err _ _ _ _ _ E2). destruct H as (S2 & Hr2 & -> & _). split_and!; [by eapply same_term_trans|done..].
Qed.

(** ** Records of targets *)

(** One entry stored, with or without its spans. *)
Lemma persist_entry fence full rewrite entry w T R :
  holder T R w → memory_is full (<[ta_id entry := entry]> T) R (state w) → alloc_ok (<[ta_id entry := entry]> T) R → seg_ok (ta_id entry) →
  (rewrite = false → ∃ u, T !! ta_id entry = Some u ∧ ta_spans entry = ta_spans u) →
  ∃ w', persist_state (mkChanges [entry] [] [] [] [] rewrite) fence w = (w', Ok tt) ∧ ready full (<[ta_id entry := entry]> T) R w' ∧ same_term w w'.
Proof.
  intros Hh Hm HI Hseg Hu. apply (persist_ready_any fence full _ w T R); [done..| |done|done]. split; [|done..]. constructor; [|done]. split_and!; [done| |done].
  apply target_ok_length. apply (ao_targets _ _ HI (ta_id entry) entry). by rewrite lookup_insert_eq.
Qed.

Lemma register_target_ok target full T R w :
  ready full T R w → registration_ok T target → seg_ok (tr_target_id target) →
  match register_target target w with
  | (w', Ok t) => same_term w w' ∧ ∃ T', ready full T' R w' ∧ (∀ q, free_at T q → free_at T' q) ∧ is_Some (T' !! tr_target_id target)
  | (w', Err err) => w' = w
  end.
Proof.
  intros Hr Hreg Hseg. unfold register_target. pose proof (ready_memory _ _ _ _ Hr) as Hm. pose proof Hm as (M1 & M2 & M3 & M4).
  pose proof (register_in_memory_ok target R (state w)) as H. rewrite M2 in H. specialize (H (rd_alloc _ _ _ _ Hr) Hreg).
  destruct (register_in_memory target (state w)) as [s' [[stored is_new]|err]] eqn:E.
  - destruct H as (Es & HI & -> & Hspans). rewrite (M_bind_run _ _ _ _ _ (on_state_run _ _ _ _ E)).
    assert (ta_id stored = tr_target_id target) as Eid.
    { clear -E. unfold register_in_memory in E. destruct (blank _); [done|]. unfold mbind, M_mbind, get_state, put_state in E. cbn in E.
      injection E as _ <- _. cbn. by destruct (_ =? _). }
    edestruct (persist_entry Unfenced full (bool_decide (T !! ta_id stored = None)) stored (with_alloc s' w) T R) as (w2 & E2 & H2 & S2).
    + exact (ready_holder _ _ _ _ Hr).
    + rewrite Es. split_and!; [done..|exact M3|exact M4].
    + rewrite Es in HI. exact HI.
    + by rewrite Eid.
    + intros Hn%bool_decide_eq_false. destruct (T !! ta_id stored) as [u|] eqn:Eu; [by exists u|done].
    + cbn beta iota. rewrite (M_bind_run _ _ _ _ _ E2). split; [exact S2|]. eexists. split; [exact H2|]. split.
      * intros [j g] (t & Ht & Hf). cbn in *. destruct (decide (j = ta_id stored)) as [->|Hne].
        { exists stored. rewrite lookup_insert_eq. split; [done|]. rewrite Ht in Hspans. by rewrite Hspans. }
        exists t. by rewrite lookup_insert_ne.
      * rewrite <-Eid, lookup_insert_eq. by eexists.
  - destruct H as [-> ->]. rewrite (M_bind_Err _ _ _ _ _ (on_state_run _ _ _ _ E)). by rewrite with_alloc_same.
Qed.

Lemma update_target_ok id f full T R w :
  ready full T R w → span_neutral f →
  match (entry ← on_state (update_entry id f); _ ← persist_state (mkChanges [entry] [] [] [] [] false) Unfenced; mret (ta_target entry)) w with
  | (w', Ok t) => same_term w w' ∧ ∃ T', ready full T' R w' ∧ ∀ q, free_at T' q ↔ free_at T q
  | (w', Err err) => w' = w ∧ err = NotFound_ ∧ T !! id = None
  end.
Proof.
  intros Hr Hf. pose proof (ready_memory _ _ _ _ Hr) as Hm. pose proof Hm as (M1 & M2 & M3 & M4).
  pose proof (update_entry_ok id f R (state w)) as H. rewrite M2 in H. specialize (H (rd_alloc _ _ _ _ Hr) Hf).
  destruct (update_entry id f (state w)) as [s' [entry|err]] eqn:E.
  - destruct H as (Es & HI & Eid & t & Ht & Hs). rewrite (M_bind_run _ _ _ _ _ (on_state_run _ _ _ _ E)).
    destruct (persist_entry Unfenced full false entry (with_alloc s' w) T R) as (w2 & E2 & H2 & S2).
    + exact (ready_holder _ _ _ _ Hr).
    + rewrite Es. split_and!; [done..|exact M3|exact M4].
    + rewrite Es in HI. exact HI.
    + rewrite Eid. by apply (sd_target_ids _ _ _ (rd_stored _ _ _ _ Hr) id t).
    + intros _. exists t. by rewrite Eid.
    + rewrite (M_bind_run _ _ _ _ _ E2). split; [exact S2|]. eexists. split; [exact H2|]. rewrite Eid.
      intros [j g]. unfold free_at. cbn. destruct (decide (j = id)) as [->|Hne]; [|by rewrite lookup_insert_ne].
      rewrite lookup_insert_eq, Ht. split; intros (x & [= <-] & Hx); eexists; (split; [done|]); congruence.
  - destruct H as [-> ->]. rewrite (M_bind_Err _ _ _ _ _ (on_state_run _ _ _ _ E)). rewrite with_alloc_same. split_and!; [done..|].
    unfold update_entry, mbind, M_mbind, get_state, lift in E. rewrite M2 in E. by destruct (T !! id).
Qed.

(** ** Starting over *)

Lemma stored_clear_all db T R :
  stored db T R → stored (kv_clear_range reservation_prefix (kas_prefix_range_end reservation_prefix) db) T ∅.
Proof.
  intros [H1 H2 H3 H4 H5]. change (kv_clear_range _ _ db) with (apply_ops [OpClearRange reservation_prefix (kas_prefix_range_end reservation_prefix)] db).
  split; [| | |done|by intros id r ?%lookup_empty_Some].
  - apply off_table_is; [|done]. repeat constructor. by apply (range_off _ PREFIX_RESERVATION []).
  - apply off_table_is; [|done]. repeat constructor. by apply (range_off _ PREFIX_RESERVATION []).
  - intros k v Hk. cbn [apply_ops foldl apply_op]. rewrite kv_get_clear_range. unfold reservation_prefix. rewrite (proj2 (kas_range PREFIX_RESERVATION [] k) Hk).
    split; [done|]. by intros (r & (id & ?%lookup_empty_Some & _) & _).
Qed.

Definition clear_ops (value : list byte) : list WriteOp :=
  [OpClearRange reservation_prefix (kas_prefix_range_end reservation_prefix);
   OpClearRange (reservation_bin_prefix []) (kas_prefix_range_end (reservation_bin_prefix [])); OpSet stamp_key value].

Lemma clear_ops_off value : Forall off_lease (clear_ops value).
Proof.
  constructor; [apply off_table_lease; by apply (range_off _ PREFIX_RESERVATION [])|].
  constructor; [apply off_table_lease; by apply (range_off _ PREFIX_RESERVATION_BIN [[]])|]. constructor; [apply stamp_off|constructor].
Qed.

Lemma clear_all_ok T R w :
  holder T R w → ∃ w', clear_all_reservations_and_bins w = (w', Ok tt) ∧ holder T ∅ w' ∧ same_term w w' ∧
    ∃ stamp, state w' = set_loaded true true (with_stamp stamp (state w)).
Proof.
  intros (HS & Hst & e & He & Hr). unfold clear_all_reservations_and_bins.
  unfold mbind at 1, M_mbind at 1, new_uuid. unfold mbind at 1, M_mbind at 1, now_unix_ms. cbn [w_db w_ticks w_uuids w_kas]. set (value := encode_stamp _).
  set (w1 := mkWorld (w_db w) (S (w_ticks w)) (S (w_uuids w)) (w_kas w)). set (db' := kv_set stamp_key value
    (kv_clear_range (reservation_bin_prefix []) (kas_prefix_range_end (reservation_bin_prefix []))
      (kv_clear_range reservation_prefix (kas_prefix_range_end reservation_prefix) (w_db w)))).
  rewrite (M_bind_run _ _ w1 (with_db db' w1) tt) by done. eexists. split; [done|]. split; [|split; [split; [|done]|by eexists]].
  - split_and!.
    + apply (stored_off [OpClearRange (reservation_bin_prefix []) (kas_prefix_range_end (reservation_bin_prefix [])); OpSet stamp_key value]);
        [repeat constructor; try apply stamp_off; by apply (range_off _ PREFIX_RESERVATION_BIN [[]])|by eapply stored_clear_all].
    + intros v. cbn. unfold db'. rewrite kv_get_set, decide_True by done. intros [= <-]. by eexists.
    + exists e. split; [done|]. rewrite <-Hr. cbn [w_db with_db on_state modify_state]. f_equal.
      exact (off_lease_get (clear_ops value) (w_db w) (clear_ops_off value)).
  - exact (off_lease_get (clear_ops value) (w_db w) (clear_ops_off value)).
Qed.

Lemma reset_ok full T R w :
  ready full T R w → ∃ w' T', reset_allocator_state w = (w', Ok tt) ∧ same_term w w' ∧ ready true T' ∅ w' ∧
    ∀ q, free_at T' q ↔ ∃ t, T !! q.1 = Some t ∧ 0 ≤ q.2 < tr_granule_count (ta_target t).
Proof.
  intros Hr. unfold reset_allocator_state. pose proof (ready_memory _ _ _ _ Hr) as (M1 & M2 & M3 & M4).
  pose proof (reset_in_memory_ok (state w)) as H. rewrite M2 in H. specialize (H (ao_targets _ _ (rd_alloc _ _ _ _ Hr))).
  destruct (reset_in_memory (state w)) as [s' dirty] eqn:E. destruct H as (HI & HR & Hme & -> & Hf & Hdom).
  assert (on_state reset_memory w = (with_alloc s' w, Ok ((map_to_list (al_targets s')).*2))) as E1 by (apply on_state_run; unfold reset_memory; by rewrite E).
  rewrite (M_bind_run _ _ _ _ _ E1). destruct (clear_all_ok T R (with_alloc s' w) (ready_holder _ _ _ _ Hr)) as (w2 & E2 & Hh2 & S2 & stamp & Es2).
  rewrite (M_bind_run _ _ _ _ _ E2). rewrite HR in HI.
  assert (Forall (fun t => al_targets s' !! ta_id t = Some t) ((map_to_list (al_targets s')).*2)) as Hall.
  { apply Forall_forall. intros t ([id t'] & -> & Hin%elem_of_map_to_list)%list_elem_of_fmap. cbn. by destruct (ao_targets _ _ HI _ _ Hin) as [-> _]. }
  destruct (persist_ready_any Unfenced true (mkChanges ((map_to_list (al_targets s')).*2) [] [] [] [] true) w2 T ∅ (al_targets s') ∅) as (w3 & E3 & H3 & S3).
  - done.
  - rewrite Es2. by split_and!.
  - done.
  - split; [|done..]. cbn. eapply Forall_impl; [exact Hall|]. intros t Ht. destruct (ao_targets _ _ HI _ _ Ht) as [_ Hok]. split_and!; [|by apply target_ok_length|done].
    destruct (proj1 (Hdom (ta_id t)) (mk_is_Some _ _ Ht)) as [u Hu]. by apply (sd_target_ids _ _ _ (rd_stored _ _ _ _ Hr) (ta_id t) u).
  - apply put_targets_eq; [done|]. intros id Hid. destruct (al_targets s' !! id) as [t|] eqn:Et.
    + destruct Hid. destruct (ao_targets _ _ HI _ _ Et) as [Eid _]. rewrite <-Eid. apply list_elem_of_fmap_2, (list_elem_of_fmap_2 snd _ (id, t)). by apply elem_of_map_to_list.
    + symmetry. apply eq_None_not_Some. rewrite <-Hdom. rewrite Et. by intros [].
  - done.
  - exists w3, (al_targets s'). split_and!; [done|by eapply same_term_trans|done|done].
Qed.
End handlers.
