(* ===== verification/KasLease.v ===== *)
(** The allocator's leases: an instance whose term was superseded writes nothing, and one
    whose term is in force works on the state the database stores. *)
From S2P Require Import Prelude Bytes Sorts Fdb KmsKeys KmsValues KmsStore Placement Kas KasPlan KasReserve KasOps KasStore KasService KasTables KasPersist KasLocked.

Section lease.
Context {KV : Type} {Hdb : Fdb KV} {Hlaws : FdbLaws KV} {Hcodec : KasCodec} {Hclaws : KasCodecLaws} {Henv : KasEnv} {Heok : KasEnvOk}.
Implicit Types (db : KV) (w : World KV) (T : targets) (R : reservations) (l : option CoordinationLeaseRecord).

Abbreviation state w := (ka_state (w_kas w)).
Abbreviation me := (kc_owner_id config).

(** ** The database and an instance *)

Definition lease_at db l : Prop := kv_get lease_key db = encode_lease <$> l.
Definition epoch_of l : Z := from_option cl_epoch 0 l.

Definition base T R l db : Prop :=
  stored db T R ∧ alloc_ok T R ∧ stamp_good db ∧ lease_at db l ∧ ∀ x, l = Some x → 1 ≤ cl_epoch x.

(** The instance's term is not ahead of the lease; a term in force is the instance's own,
    and what is loaded under it is what the database stores. *)
Definition term_ok T R l w : Prop :=
  ∀ term, ka_leadership (w_kas w) = Some term → lt_epoch term ≤ epoch_of l ∧
    (lt_epoch term = epoch_of l → cl_owner_id <$> l = Some me ∧ in_sync T R (state w)).

(** What an instance does to the lease and the tables: nothing, or it holds the lease. *)
Definition advance l T R l' T' R' : Prop :=
  (l' = l ∧ T' = T ∧ R' = R) ∨
  (cl_owner_id <$> l' = Some me ∧ epoch_of l ≤ epoch_of l' ∧ (epoch_of l = epoch_of l' → cl_owner_id <$> l = Some me)).

Lemma advance_refl l T R : advance l T R l T R.
Proof. by left. Qed.

Lemma advance_trans l1 T1 R1 l2 T2 R2 l3 T3 R3 : advance l1 T1 R1 l2 T2 R2 → advance l2 T2 R2 l3 T3 R3 → advance l1 T1 R1 l3 T3 R3.
Proof.
  intros [(-> & -> & ->)|(A1 & A2 & A3)]; [done|]. intros [(-> & -> & ->)|(B1 & B2 & B3)]; [right; by split_and!|].
  right. split_and!; [done|lia|]. intros E. apply A3. lia.
Qed.

Lemma base_epoch T R l db : base T R l db → stored_epoch (kv_get lease_key db) = Ok (epoch_of l).
Proof. intros (_ & _ & _ & -> & _). destruct l as [x|]; [|done]. cbn. by rewrite decode_encode_lease. Qed.

(** A live term: everything an operation needs. *)
Lemma base_ready full T R l w e :
  base T R l (w_db w) → leads w e → e = epoch_of l → in_sync T R (state w) → al_target_state_loaded (state w) = true →
  (full = true → al_reservation_state_loaded (state w) = true) → ready full T R w.
Proof.
  intros Hb He -> Hs Ht Hf. pose proof (base_epoch _ _ _ _ Hb) as Hr. destruct Hb as (HS & HI & Hst & _). split; try done.
  - by exists (epoch_of l).
  - split; [done|]. by apply Hs.
  - by apply Hs.
Qed.

Lemma ready_base full T R T' R' l w w' :
  base T R l (w_db w) → same_term w w' → ready full T' R' w' → base T' R' l (w_db w').
Proof. intros (_ & _ & _ & Hl & He) [Ek _] [HS HI Hst _ _ _ _]. split_and!; try done. unfold lease_at. by rewrite Ek. Qed.

Lemma ready_sync full T R w : ready full T R w → in_sync T R (state w).
Proof. intros [_ _ _ _ [_ HT] HR _]. by intros _. Qed.

(** ** A superseded instance *)

Definition stale w : Prop :=
  ∃ T R l e, base T R l (w_db w) ∧ leads w e ∧ e ≠ epoch_of l.

(** On a superseded instance the program leaves the database and the term alone. *)
Definition inert {A : Type} (m : M (World KV) Status A) : Prop :=
  ∀ w, stale w → w_db (m w).1 = w_db w ∧ ka_leadership (w_kas (m w).1) = ka_leadership (w_kas w).

Lemma stale_same w w' : w_db w' = w_db w → ka_leadership (w_kas w') = ka_leadership (w_kas w) → stale w → stale w'.
Proof. intros Ed El (T & R & l & e & Hb & He & Hne). exists T, R, l, e. unfold leads. by rewrite Ed, El. Qed.

Lemma inert_bind {A B : Type} (m : M (World KV) Status A) (f : A → M (World KV) Status B) :
  inert m → (∀ a, inert (f a)) → inert (m ≫= f).
Proof.
  intros Hm Hf w Hw. specialize (Hm w Hw). unfold mbind, M_mbind. destruct (m w) as [w1 [a|err]]; [|done]. cbn in Hm. destruct Hm as [Ed El].
  destruct (Hf a w1) as [Ed' El']; [by eapply stale_same|]. by rewrite Ed', El'.
Qed.

Lemma inert_keep {A : Type} (m : M (World KV) Status A) :
  (∀ w, w_db (m w).1 = w_db w ∧ ka_leadership (w_kas (m w).1) = ka_leadership (w_kas w)) → inert m.
Proof. intros H w _. apply H. Qed.

Lemma inert_on_state {A : Type} (f : M AllocatorState Status A) : inert (on_state f).
Proof. apply inert_keep. intros w. unfold on_state. by destruct (f _). Qed.
Lemma inert_read {A : Type} (t : M KV Status A) : (∀ db, (t db).1 = db) → inert (db_run t).
Proof. intros Ht. apply inert_keep. intros w. unfold db_run, run. specialize (Ht (w_db w)). destruct (t (w_db w)) as [db [a|e]]; cbn in *; by subst. Qed.
Lemma inert_pure {A : Type} (m : M (World KV) Status A) : (∀ w, w_db (m w).1 = w_db w ∧ w_kas (m w).1 = w_kas w) → inert m.
Proof. intros H. apply inert_keep. intros w. destruct (H w) as [-> ->]. done. Qed.
Lemma inert_lift {A : Type} (r : result Status A) : inert (lift r).
Proof. by apply inert_pure. Qed.
Lemma inert_mret {A : Type} (a : A) : inert (mret a).
Proof. by apply inert_pure. Qed.
Lemma inert_try {A : Type} (m : M (World KV) Status A) : inert m → inert (try_ m).
Proof. intros H w Hw. specialize (H w Hw). unfold try_. by destruct (m w). Qed.

Lemma inert_persist c : inert (persist_state c Leased).
Proof.
  intros w (T & R & l & e & Hb & He & Hne). pose proof (base_epoch _ _ _ _ Hb) as Hr. destruct (no_changes c) eqn:Hc.
  - unfold persist_state. rewrite (M_bind_run _ _ _ _ _ (fence_epoch_of_ok Leased w ltac:(by exists e))). rewrite Hc.
    unfold no_changes in Hc. apply andb_true_iff in Hc as [[[[H1 H2]%andb_true_iff H3]%andb_true_iff H4]%andb_true_iff H5].
    destruct c as [[] [] [] [] [] rw]; cbn in *; try done.
  - destruct (persist_state_fenced c w e (epoch_of l) He Hr ltac:(done) Hc) as (w' & -> & E1 & E2). cbn. by rewrite E1, E2.
Qed.

Lemma inert_commit_bumps claimed : inert (persist_claim_ttl_bumps_lock_light claimed).
Proof.
  intros w (T & R & l & e & Hb & He & Hne). pose proof (base_epoch _ _ _ _ Hb) as Hr. unfold persist_claim_ttl_bumps_lock_light.
  rewrite (M_bind_run _ _ _ _ _ (fence_epoch_of_ok Leased w ltac:(by exists e))). unfold fence_value. unfold leads in He. rewrite He.
  destruct claimed as [|c cs]; [done|]. rewrite (commit_units_fenced e (epoch_of l)); [done|done|done| |by right].
  apply Forall_fmap, Forall_forall. by intros r _.
Qed.

Lemma ensure_keeps full skip T R l w :
  base T R l (w_db w) → w_db (ensure_current full skip w).1 = w_db w ∧ ka_leadership (w_kas (ensure_current full skip w).1) = ka_leadership (w_kas w).
Proof.
  intros (HS & HI & Hst & _).
  destruct (refresh_target_ok w T R HS Hst) as (w1 & E1 & Ed1 & El1 & _), (refresh_full_ok w T R HS HI Hst) as (w2 & E2 & Ed2 & El2 & _).
  destruct (load_stamp_ok w Hst) as (stamp & Es).
  unfold ensure_current. destruct full; unfold ensure_full_state_current, ensure_target_state_current; rewrite (M_bind_run _ _ w w (state w)) by done.
  - destruct (negb _ || negb _); [by rewrite E2|]. destruct skip; [done|]. rewrite (M_bind_run _ _ _ _ _ Es). case_bool_decide; [done|by rewrite E2].
  - destruct (negb _); [by rewrite E1|]. destruct skip; [done|]. rewrite (M_bind_run _ _ _ _ _ Es). case_bool_decide; [done|by rewrite E1].
Qed.

Lemma inert_ensure full skip : inert (ensure_current full skip).
Proof. intros w (T & R & l & e & Hb & _). by eapply ensure_keeps. Qed.

Lemma inert_get_alloc : inert get_alloc.
Proof. by apply inert_pure. Qed.
Lemma inert_now : inert now_unix_ms.
Proof. by apply inert_pure. Qed.
Lemma inert_uuids n : inert (batch_uuids n).
Proof. by apply inert_pure. Qed.

Lemma inert_committed candidates : inert (committed_granules_present candidates).
Proof.
  unfold committed_granules_present. destruct (is_nil _); [apply inert_mret|]. apply inert_read. intros db.
  assert (∀ qs acc, (fold_m (fun present '(target_id, granule) => value ← trx_get (committed_granule_key target_id granule);
    mret (match value with Some _ => present ++ [(target_id, granule)] | None => present end)) acc qs db : KV * result Status _).1 = db) as H; [|apply H].
  induction qs as [|[id g] qs IH]; intros acc; [done|]. exact (IH _).
Qed.

Create HintDb inert.
#[local] Hint Resolve inert_on_state inert_lift inert_mret inert_try inert_persist inert_get_alloc inert_now inert_uuids inert_committed : inert.
#[local] Hint Extern 1 (inert (ensure_full_state_current ?b)) => exact (inert_ensure true b) : inert.

(** Binds, matches and conditionals over programs that leave things alone. *)
Ltac inert_step :=
  match goal with
  | |- inert (_ ≫= _) => apply inert_bind; [|intros ?]
  | |- inert (if ?b then _ else _) => destruct b
  | |- inert (match ?x with _ => _ end) => destruct x
  | |- inert (let _ := _ in _) => cbv zeta
  | |- _ => solve [auto with inert]
  end.

Lemma inert_reserve rq : inert (reserve_batch_common_locked rq).
Proof. unfold reserve_batch_common_locked. repeat inert_step. Qed.
#[local] Hint Resolve inert_reserve : inert.

Lemma inert_apply kind ms : inert (apply_reservation_mutations_locked kind ms).
Proof. unfold apply_reservation_mutations_locked. repeat inert_step. Qed.
#[local] Hint Resolve inert_apply : inert.

Lemma inert_finalize ms : inert (finalize_locked ms).
Proof. unfold finalize_locked, try_finalize_reservations_metadata_only. repeat inert_step. Qed.
Lemma inert_reclaim granules : inert (reclaim_locked granules).
Proof. unfold reclaim_locked. repeat inert_step. Qed.
Lemma inert_expire now limit : inert (expire_locked now limit).
Proof. unfold expire_locked. repeat inert_step. Qed.
Lemma inert_top_up want n fd ttl : inert (top_up_locked want n fd ttl).
Proof. unfold top_up_locked. repeat inert_step. Qed.

Lemma inert_claim batch n fd ttl : inert (claim_locked batch n fd ttl).
Proof. unfold claim_locked. repeat inert_step. apply inert_commit_bumps. Qed.

(** ** Taking and renewing the lease *)

Lemma lease_write_off v : off_tables (OpSet lease_key v) ∧ off_table PREFIX_ALLOCATOR_STATE (OpSet lease_key v).
Proof. unfold lease_key, coordination_lease_key. split; [split_and!|]; by apply set_off. Qed.

Lemma base_set_lease T R l db x : base T R l db → 1 ≤ cl_epoch x → base T R (Some x) (kv_set lease_key (encode_lease x) db).
Proof.
  intros (HS & HI & Hst & Hl & He) Hx. split_and!; [|done| | |by intros y [= <-]].
  - apply (stored_off [OpSet lease_key (encode_lease x)]); [|done]. repeat constructor; apply lease_write_off.
  - intros v. change (kv_set _ _ db) with (apply_ops [OpSet lease_key (encode_lease x)] db).
    rewrite (off_table_get PREFIX_ALLOCATOR_STATE); [apply Hst|repeat constructor; apply lease_write_off|apply stamp_key_table].
  - unfold lease_at. rewrite kv_get_set. by rewrite decide_True.
Qed.

(** The lease after an attempt, and the epoch granted. *)
Definition acquired T R l (granted : option Z) l' : Prop :=
  match granted with
  | Some e => cl_owner_id <$> l' = Some me ∧ epoch_of l' = e ∧ epoch_of l' ≤ epoch_of l + 1 ∧
              (epoch_of l < e ∨ (epoch_of l = e ∧ cl_owner_id <$> l = Some me))
  | None => l' = l
  end.

Lemma acquired_advance T R l granted l' : acquired T R l granted l' → advance l T R l' T R.
Proof.
  unfold acquired, advance. destruct granted as [e|]; [|by intros ->; left]. intros (H1 & H2 & _ & H3). right. split_and!; [done|lia|]. intros E. destruct H3 as [?|[_ ?]]; [lia|done].
Qed.

Lemma try_acquire_ok ttl T R l w :
  base T R l (w_db w) → epoch_of l + 1 < 2 ^ 64 →
  ∃ w' granted l', try_acquire_coordination_lease_epoch lease_key me ttl w = (w', Ok granted) ∧ base T R l' (w_db w') ∧ w_kas w' = w_kas w ∧ acquired T R l granted l'.
Proof.
  intros Hb Hroom. unfold try_acquire_coordination_lease_epoch. unfold mbind at 1, M_mbind at 1, now_unix_ms. set (now := clock _).
  set (w1 := mkWorld _ (S _) _ _). set (exp := saturating_add64 _ _). pose proof Hb as (_ & _ & _ & Hl & He).
  assert (acquire_txn lease_key me now exp (w_db w) =
    let '(available, epoch) := decide_lease_grant l me now in
    if (available : bool) then (kv_set lease_key (encode_lease (mkLease me exp epoch)) (w_db w), Ok (Some epoch)) else (w_db w, Ok None)) as Et.
  { unfold acquire_txn. rewrite trx_get_bind, Hl. destruct l as [x|]; cbn [fmap option_fmap option_map].
    - rewrite decode_encode_lease. unfold mbind, M_mbind, lift. cbn [ok_or]. cbn -[decide_lease_grant]. destruct (decide_lease_grant (Some x) me now) as [[] epoch]; done.
    - done. }
  destruct (decide_lease_grant l me now) as [available epoch] eqn:Ed.
  assert (available = true → 1 ≤ epoch ∧ epoch ≤ epoch_of l + 1 ∧ (epoch_of l < epoch ∨ (epoch_of l = epoch ∧ cl_owner_id <$> l = Some me))) as Hgrant.
  { intros ->. unfold decide_lease_grant in Ed. destruct l as [x|]; [|injection Ed as <-; cbn; lia]. specialize (He x eq_refl). cbn in Hroom |- *.
    case_bool_decide as Ho; cbn in Ed.
    - destruct (now <? cl_expires_at_unix_ms x); cbn in Ed; injection Ed as <-; [split_and!; [lia..|right; by rewrite Ho]|].
      unfold saturating_add64. lia.
    - destruct (now <? cl_expires_at_unix_ms x); cbn in Ed; [done|]. injection Ed as <-. unfold saturating_add64. lia. }
  unfold db_run, run. cbn [w_db w1]. rewrite Et. destruct available.
  - destruct (Hgrant eq_refl) as (H1 & H2 & H3). eexists _, (Some epoch), (Some (mkLease me exp epoch)). split; [done|]. split; [by eapply base_set_lease|]. split; [done|].
    by split_and!.
  - eexists _, None, l. split; [done|]. by split_and!.
Qed.

(** Nothing is loaded. *)
Lemma unloaded_sync T R s : in_sync T R (set_loaded false false s).
Proof. done. Qed.

Lemma step_down_run w : step_down_leader_resident w =
  (mkWorld (w_db w) (w_ticks w) (w_uuids w) (mkKas (set_loaded false false (state w)) None (ka_deferred_bin_member_deletes (w_kas w))), Ok tt).
Proof. done. Qed.

(** What taking or renewing the lease leaves. *)
Definition renewed T R l w w' : Prop :=
  ∃ l', base T R l' (w_db w') ∧ term_ok T R l' w' ∧ advance l T R l' T R ∧ epoch_of l' ≤ epoch_of l + 1.

Lemma acquire_leader_ok T R l w :
  base T R l (w_db w) → term_ok T R l w → epoch_of l + 1 < 2 ^ 64 → ka_leadership (w_kas w) = None →
  ∃ w' b, acquire_leader_resident_lease w = (w', Ok b) ∧ renewed T R l w w'.
Proof.
  intros Hb Ht Hroom Hn. unfold acquire_leader_resident_lease.
  destruct (try_acquire_ok ALLOCATOR_MUTATION_LEASE_TTL_MS T R l w Hb Hroom) as (w1 & granted & l' & E1 & Hb1 & Ek & Ha). rewrite (M_bind_run _ _ _ _ _ E1).
  pose proof (acquired_advance _ _ _ _ _ Ha) as Hadv. destruct granted as [e|].
  - destruct Ha as (Ho & He & Hle & _). eexists _, true. split.
    + unfold mbind, M_mbind, get_leadership, hold_term, now_unix_ms, set_leadership. cbn. rewrite Ek, Hn. rewrite bool_decide_eq_false_2 by done. done.
    + exists l'. split_and!; [exact Hb1| |done|done]. intros term [= <-]. cbn. split; [lia|]. intros _. split; [done|]. by apply unloaded_sync.
  - rewrite (M_bind_run _ _ _ _ _ (step_down_run w1)). eexists _, false. split; [done|]. cbn in Ha. subst l'. exists l. split_and!; [exact Hb1|done|done|lia].
Qed.

Lemma renew_ok T R l w :
  base T R l (w_db w) → term_ok T R l w → epoch_of l + 1 < 2 ^ 64 → renewed T R l w (renew_leader_resident_lease w).1.
Proof.
  intros Hb Ht Hroom. unfold renew_leader_resident_lease. rewrite (M_bind_run _ _ w w (ka_leadership (w_kas w))) by done.
  destruct (ka_leadership (w_kas w)) as [term|] eqn:El.
  2:{ destruct (acquire_leader_ok T R l w Hb Ht Hroom El) as (w' & b & E & H). by rewrite (M_bind_run _ _ _ _ _ E). }
  unfold mbind at 1, M_mbind at 1, now_unix_ms. set (w1 := mkWorld _ (S _) _ _).
  assert (renewed T R l w w1) as H1.
  { exists l. split_and!; [exact Hb|exact Ht|apply advance_refl|lia]. }
  destruct (_ <? _); [exact H1|].
  destruct (try_acquire_ok ALLOCATOR_MUTATION_LEASE_TTL_MS T R l w1 Hb Hroom) as (w2 & granted & l' & E2 & Hb2 & Ek & Ha).
  rewrite (M_bind_run _ _ w1 w2 (Ok granted)) by (unfold try_; by rewrite E2).
  pose proof (acquired_advance _ _ _ _ _ Ha) as Hadv. destruct (Ht term El) as [Hle Hsync].
  assert (epoch_of l' ≤ epoch_of l + 1) as Hle' by (destruct granted; [by destruct Ha as (_ & _ & ? & _)|cbn in Ha; subst; lia]).
  destruct granted as [e|].
  - destruct Ha as (Ho & He & _ & Hor). destruct (Z.eqb_spec e (lt_epoch term)) as [->|Hne].
    + exists l'. split_and!; [exact Hb2| |done|done]. intros t' [= <-]. cbn. split; [lia|]. intros _. split; [done|].
      destruct Hor as [?|[E _]]; [lia|]. change (in_sync T R (state w2)). rewrite Ek. by apply Hsync.
    + rewrite (M_bind_run _ _ _ _ _ (step_down_run w2)). exists l'. split_and!; [exact Hb2|done|done|done].
  - rewrite (M_bind_run _ _ _ _ _ (step_down_run w2)). exists l'. split_and!; [exact Hb2|done|done|done].
Qed.

(** ** Operations of any instance *)

(** The state after an operation that was granted the lease at most [n] times. *)
Definition outcome (n : Z) T R l w' : Prop :=
  ∃ T' R' l', base T' R' l' (w_db w') ∧ term_ok T' R' l' w' ∧ advance l T R l' T' R' ∧ epoch_of l' ≤ epoch_of l + n.

(** The operation is safe on every instance when its request is valid. *)
Definition safe_op {A : Type} (n : Z) (V : targets → reservations → Prop) (m : M (World KV) Status A) : Prop :=
  ∀ T R l w, base T R l (w_db w) → term_ok T R l w → epoch_of l + n < 2 ^ 64 → V T R → outcome n T R l (m w).1.

Definition any_request (T : targets) (R : reservations) : Prop := True.

(** What an operation does while the term is in force. *)
Definition locked_op {A : Type} (full : bool) (V : targets → reservations → Prop) (op : M (World KV) Status A) : Prop :=
  ∀ T R w, ready full T R w → V T R → same_term w (op w).1 ∧ ∃ full' T' R', ready full' T' R' (op w).1.

(** A live holder's step. *)
Lemma live_outcome full T R T' R' l w w' e :
  base T R l (w_db w) → leads w e → e = epoch_of l → cl_owner_id <$> l = Some me → same_term w w' → ready full T' R' w' → outcome 0 T R l w'.
Proof.
  intros Hb He -> Ho Hs Hr. exists T', R', l. split_and!; [by eapply ready_base| |right; by split_and!|lia].
  intros term Hterm. destruct Hs as [_ El]. unfold leads in He. rewrite <-El, Hterm in He. injection He as He. rewrite He.
  split; [done|]. intros _. split; [done|]. by eapply ready_sync.
Qed.

Lemma outcome_trans n k T R l T1 R1 l1 w' :
  advance l T R l1 T1 R1 → epoch_of l1 ≤ epoch_of l + n → outcome k T1 R1 l1 w' → outcome (n + k) T R l w'.
Proof. intros Ha He (T2 & R2 & l2 & Hb & Ht & Ha2 & He2). exists T2, R2, l2. split_and!; [done|done|by eapply advance_trans|lia]. Qed.

Lemma stale_outcome {A : Type} (m : M (World KV) Status A) T R l w term :
  base T R l (w_db w) → term_ok T R l w → ka_leadership (w_kas w) = Some term → lt_epoch term ≠ epoch_of l → inert m → outcome 0 T R l (m w).1.
Proof.
  intros Hb Ht El Hne Hm. destruct (Hm w) as [Ed Ek]; [exists T, R, l, (lt_epoch term); unfold leads; by rewrite El|].
  exists T, R, l. split_and!; [by rewrite Ed| |apply advance_refl|lia]. intros term' Hterm. rewrite Ek, El in Hterm. injection Hterm as <-.
  split; [by apply Ht|done].
Qed.

Lemma leased_safe {A : Type} attempts full V (op : M (World KV) Status A) :
  kc_leader_resident_lease config = true → locked_op full V op → inert op → safe_op 1 V (with_allocator_mutation_lease attempts full op).
Proof.
  intros Hres Hop Hin T R l w Hb Ht Hroom HV. unfold with_allocator_mutation_lease. rewrite Hres. unfold with_leader_resident_lease.
  pose proof (renew_ok T R l w Hb Ht Hroom) as Hren. destruct (renew_leader_resident_lease w) as [w1 [[]|err]] eqn:E1; cbn in Hren; destruct Hren as (l1 & Hb1 & Ht1 & Ha1 & He1).
  2:{ rewrite (M_bind_Err _ _ _ _ _ E1). by exists T, R, l1. }
  rewrite (M_bind_run _ _ _ _ _ E1). rewrite (M_bind_run _ _ w1 w1 (ka_leadership (w_kas w1))) by done.
  destruct (ka_leadership (w_kas w1)) as [term|] eqn:El; [|by exists T, R, l1].
  change 1 with (1 + 0). eapply outcome_trans; [exact Ha1|done|].
  destruct (Z.eq_dec (lt_epoch term) (epoch_of l1)) as [Ee|Hne].
  - destruct (Ht1 term El) as [_ Hlive]. destruct (Hlive Ee) as [Ho Hsync]. pose proof Hb1 as (HS & HI & Hst & _).
    destruct (ensure_current_ok full true w1 T R HS HI Hst Hsync) as (w2 & E2 & Ed & Ek & Hsy & Htl & Hfl). rewrite (M_bind_run _ _ _ _ _ E2).
    assert (leads w2 (epoch_of l1)) as Hl2 by (unfold leads; rewrite Ek, El; cbn; by rewrite Ee).
    assert (base T R l1 (w_db w2)) as Hb2 by (by rewrite Ed). assert (ready full T R w2) as Hr2 by (by eapply base_ready).
    destruct (Hop T R w2 Hr2 HV) as (Hs & full' & T' & R' & Hr'). by eapply live_outcome.
  - eapply stale_outcome; [done..|]. apply inert_bind; [apply inert_ensure|by intros _].
Qed.

Lemma safe_bind {A B : Type} n k V (m : M (World KV) Status A) (f : A → M (World KV) Status B) :
  0 ≤ n → 0 ≤ k → safe_op n V m → (∀ a, safe_op k any_request (f a)) → safe_op (n + k) V (m ≫= f).
Proof.
  intros Hn Hk Hm Hf T R l w Hb Ht Hroom HV. specialize (Hm T R l w Hb Ht ltac:(lia) HV). unfold mbind, M_mbind. destruct (m w) as [w1 [a|err]]; cbn in Hm.
  - destruct Hm as (T1 & R1 & l1 & Hb1 & Ht1 & Ha1 & He1). eapply outcome_trans; [exact Ha1|done|]. apply (Hf a); [done|done|lia|done].
  - destruct Hm as (T1 & R1 & l1 & Hb1 & Ht1 & Ha1 & He1). exists T1, R1, l1. split_and!; [done..|lia].
Qed.

(** Programs that change neither the database nor the instance. *)
Lemma safe_pure {A : Type} (m : M (World KV) Status A) :
  (∀ w, w_db (m w).1 = w_db w ∧ ka_state (w_kas (m w).1) = ka_state (w_kas w) ∧ ka_leadership (w_kas (m w).1) = ka_leadership (w_kas w)) → safe_op 0 any_request m.
Proof.
  intros H T R l w Hb Ht _ _. destruct (H w) as (Ed & Es & El). exists T, R, l. split_and!; [by rewrite Ed| |apply advance_refl|lia].
  unfold term_ok. by rewrite El, Es.
Qed.
End lease.
