(* ===== verification/KasCluster.v ===== *)
(** Instances of the allocator over one database, leader-resident: whatever they run, in
    whatever order, with restarts and with terms that end unnoticed, the granules of the
    stored reservations stay apart from each other and from the free ones. *)
From S2P Require Import Prelude Bytes Sorts Fdb KmsKeys KmsValues KmsStore Placement Kas KasPlan KasReserve KasOps KasStore KasService KasTables KasPersist KasLocked KasLease.

(** ** Operations *)

Inductive KasOp : Type :=
| ORenew
| OInit
| OReservePlacement (reservation_id : list byte) (n : nat) (fd : FailureDomain) (excluded : gset (list byte)) (ttl_ms : Z)
| OReserveBatch (batch_size : Z) (n : nat) (fd : FailureDomain) (excluded : gset (list byte)) (ttl_ms : Z)
| OReserveRebuild (reservation_id failed_target_id : list byte) (fd : FailureDomain) (occupied : gset (list byte))
| OReserveReplacement (reservation_id : list byte) (n : nat) (fd : FailureDomain) (excluded : gset (list byte)) (ttl_ms : Z) (required : gset (list byte))
| OClaim (batch_size : Z) (n : nat) (fd : FailureDomain) (ttl_ms : Z)
| OTopUp (n : nat) (fd : FailureDomain) (ttl_ms low high chunk : Z)
| OFinalize (mutations : list ReservationMutationSpec)
| ORelease (mutations : list ReservationMutationSpec)
| OReclaim (granules : list TargetGranule)
| OExpire (now_ms : Z) (limit : nat)
| OGet (reservation_id : list byte)
| ORegister (target : TargetRecord)
| OHeartbeat (target_id : list byte) (healthy : bool) (observed_unix_ms : Z)
| OSetState (target_id : list byte) (lifecycle_state : Z)
| OReset.

Section run.
Context {KV : Type} {Hdb : Fdb KV} {Hlaws : FdbLaws KV} {Hcodec : KasCodec} {Hclaws : KasCodecLaws} {Henv : KasEnv} {Heok : KasEnvOk}.
Implicit Types (w : World KV) (T : targets) (R : reservations).

Abbreviation state w := (ka_state (w_kas w)).
Abbreviation me := (kc_owner_id config).
Abbreviation quiet m := (_ ← m; mret tt).

Definition run_op (op : KasOp) : M (World KV) Status unit :=
  match op with
  | ORenew => renew_leader_resident_lease
  | OInit => init
  | OReservePlacement id n fd excluded ttl => quiet (reserve_stripe_placement 1 id n fd excluded ttl)
  | OReserveBatch batch n fd excluded ttl => quiet (reserve_stripe_batch 1 batch n fd excluded ttl)
  | OReserveRebuild id failed fd occupied => quiet (reserve_rebuild_placement 1 id failed fd occupied)
  | OReserveReplacement id n fd excluded ttl required => quiet (reserve_replacement_placement 1 id n fd excluded ttl required)
  | OClaim batch n fd ttl => quiet (claim_reservation_bin_batch 1 batch n fd ttl)
  | OTopUp n fd ttl low high chunk => quiet (top_up_reservation_bin 1 n fd ttl low high chunk)
  | OFinalize ms => quiet (finalize_reservations_batch 1 ms)
  | ORelease ms => quiet (release_reservations_batch 1 ms)
  | OReclaim granules => quiet (reclaim_target_granules 1 granules)
  | OExpire now limit => quiet (release_expired_reservations 1 now limit)
  | OGet id => quiet (get_reservation id)
  | ORegister target => quiet (register_target target)
  | OHeartbeat id healthy at_ms => quiet (heartbeat_target id healthy at_ms)
  | OSetState id st => quiet (set_target_state id st)
  | OReset => reset_allocator_state
  end.

(** The instance's term is in force and targets are loaded: who may change records of
    targets, which is done without a fence. *)
Definition in_charge w : Prop :=
  al_target_state_loaded (state w) = true ∧ ∃ e, leads w e ∧ stored_epoch (kv_get lease_key (w_db w)) = Ok e.

(** What callers of the allocator respect. *)
Definition request_valid (op : KasOp) T R w : Prop :=
  match op with
  | OReservePlacement id _ _ _ _ | OReserveRebuild id _ _ _ | OReserveReplacement id _ _ _ _ _ => seg_ok id
  | OFinalize ms | ORelease ms => Forall mutation_ok ms ∧ ∀ m, m ∈ ms → ¬ bad_index R m
  | OReclaim granules => Forall (fun g => 0 ≤ tg_granule_index g ∧ ¬ held R (granule_of g) ∧ ¬ bad_granule T (granule_of g)) granules
  | ORegister target => in_charge w ∧ registration_ok T target ∧ seg_ok (tr_target_id target)
  | OHeartbeat _ _ _ | OSetState _ _ | OReset => in_charge w
  | _ => True
  end.

(** How often an operation can be granted the lease. *)
Definition grants (op : KasOp) : Z :=
  match op with OTopUp _ _ _ _ high _ => Z.max 1 (high + 1) | _ => 1 end.

(** ** The leased operations *)

Lemma reserve_op rq : request_ok rq → locked_op false any_request (reserve_batch_common_locked rq).
Proof.
  intros Hrq T R w Hr _. pose proof (reserve_locked_ok false rq T R w Hr Hrq) as H. destruct (reserve_batch_common_locked rq w) as [w' [new|err]]; cbn.
  - destruct H as (Hs & T' & Hr' & _). split; [done|]. by exists false, T', (insert_reservations new R).
  - destruct H as (Hs & Hr' & _). split; [done|]. by exists false, T, R.
Qed.

Lemma claim_op batch n fd ttl : locked_op false any_request (claim_locked batch n fd ttl).
Proof.
  intros T R w Hr _. destruct (claim_locked_ok batch n fd ttl T R w Hr) as (w' & claimed & -> & Hs & Hr' & _). split; [done|].
  by exists true, T, (insert_reservations claimed R).
Qed.

Lemma top_up_op want n fd ttl : locked_op false any_request (top_up_locked want n fd ttl).
Proof.
  intros T R w Hr _. pose proof (top_up_locked_ok want n fd ttl T R w Hr) as H. destruct (top_up_locked want n fd ttl w) as [w' [added|err]]; cbn.
  - destruct H as (Hs & T' & new & Hr' & _). split; [done|]. by exists true, T', (insert_reservations new R).
  - destruct H as (Hs & Hr' & _). split; [done|]. by exists true, T, R.
Qed.

Definition valid_mutations (ms : list ReservationMutationSpec) T R : Prop := Forall mutation_ok ms ∧ ∀ m, m ∈ ms → ¬ bad_index R m.

Lemma finalize_op ms : locked_op true (valid_mutations ms) (finalize_locked ms).
Proof.
  intros T R w Hr [Hms Hbad]. pose proof (finalize_locked_ok ms T R w Hr Hms) as H. destruct (finalize_locked ms w) as [w' [results|err]]; cbn.
  - destruct H as (Hs & T' & R' & Hr' & _). split; [done|]. by exists true, T', R'.
  - destruct H as (Hs & _ & [Hr'|(m & Hm & Hx)]); [|by destruct (Hbad m Hm)]. split; [done|]. by exists true, T, R.
Qed.

Lemma release_op ms : locked_op true (valid_mutations ms) (apply_reservation_mutations_locked Release ms).
Proof.
  intros T R w Hr [Hms Hbad]. pose proof (apply_locked_ok Release ms T R w Hr Hms) as H. destruct (apply_reservation_mutations_locked Release ms w) as [w' [results|err]]; cbn.
  - destruct H as (Hs & T' & R' & Hr' & _). split; [done|]. by exists true, T', R'.
  - destruct H as (Hs & _ & _ & [[Hr' _]|(m & Hm & Hx)]); [|by destruct (Hbad m Hm)]. split; [done|]. by exists true, T, R.
Qed.

Lemma reclaim_op granules :
  locked_op true (fun T R => Forall (fun g => 0 ≤ tg_granule_index g ∧ ¬ held R (granule_of g) ∧ ¬ bad_granule T (granule_of g)) granules) (reclaim_locked granules).
Proof.
  intros T R w Hr Hg. pose proof (reclaim_locked_ok granules T R w Hr) as H. destruct (reclaim_locked granules w) as [w' [n|err]]; cbn; (destruct H as (Hs & H); [eapply Forall_impl; [exact Hg|]; naive_solver|]).
  - destruct H as (T' & Hr' & _). split; [done|]. by exists true, T', R.
  - destruct H as (g & Hin & Hx). rewrite Forall_forall in Hg. destruct (Hg g Hin) as (_ & _ & Hn). done.
Qed.

Lemma expire_op now limit : locked_op true any_request (expire_locked now limit).
Proof.
  intros T R w Hr _. destruct (expire_locked_ok now limit T R w Hr) as (w' & n & T' & R' & -> & Hs & Hr' & _). split; [done|]. by exists true, T', R'.
Qed.

(** ** The others *)

Lemma safe_weaken {A : Type} n k (V V' : targets → reservations → Prop) (m : M (World KV) Status A) :
  n ≤ k → (∀ T R, V' T R → V T R) → safe_op n V m → safe_op k V' m.
Proof.
  intros Hk HV Hm T R l w Hb Ht Hroom Hv. destruct (Hm T R l w Hb Ht ltac:(lia) (HV T R Hv)) as (T' & R' & l' & ? & ? & ? & ?).
  exists T', R', l'. split_and!; [done..|lia].
Qed.

Lemma safe_then {A B : Type} n V (m : M (World KV) Status A) (f : A → result Status B) : 0 ≤ n → safe_op n V m → safe_op n V (x ← m; lift (f x)).
Proof.
  intros Hn Hm. rewrite <-(Z.add_0_r n) at 1. apply safe_bind; [done|done|done|]. intros a. by apply safe_pure.
Qed.

Lemma safe_quiet {A : Type} n V (m : M (World KV) Status A) : 0 ≤ n → safe_op n V m → safe_op n V (quiet m).
Proof. intros Hn Hm. by apply (safe_then n V m (fun _ => Ok tt)). Qed.

(** The writes of deferred deletions leave the tables alone. *)
Lemma flush_safe : safe_op 0 any_request flush_deferred_bin_member_deletes.
Proof.
  intros T R l w Hb Ht _ _. unfold flush_deferred_bin_member_deletes.
  rewrite (M_bind_run _ _ w w (ka_deferred_bin_member_deletes (w_kas w))) by done.
  assert (∀ w', w_db w' = w_db w → state w' = state w → ka_leadership (w_kas w') = ka_leadership (w_kas w) → outcome 0 T R l w') as Hsame.
  { intros w' Ed Es El. exists T, R, l. split_and!; [by rewrite Ed| |apply advance_refl|lia]. unfold term_ok. by rewrite El, Es. }
  destruct (is_nil _); [by apply Hsame|]. set (pending := ka_deferred_bin_member_deletes (w_kas w)).
  set (w1 := mkWorld (w_db w) (w_ticks w) (w_uuids w) (mkKas (state w) (ka_leadership (w_kas w)) [])).
  rewrite (M_bind_run _ _ w w1 tt) by done. rewrite (M_bind_run _ _ w1 w1 (ka_leadership (w_kas w))) by done.
  destruct (ka_leadership (w_kas w)) as [term|] eqn:El; [|by apply Hsame].
  set (units := _ <$> pending).
  assert (Forall (fun op => ∀ p, p ≠ PREFIX_RESERVATION_BIN → off_table p op) (unit_ops units)) as Hoff by apply clear_bins_off.
  assert (Forall off_lease (unit_ops units)) as Hlease by (eapply Forall_impl; [exact Hoff|]; intros op Hop; by apply off_table_lease, Hop).
  pose proof (base_epoch _ _ _ _ Hb) as Hr. destruct (Z.eq_dec (epoch_of l) (lt_epoch term)) as [Ee|Hne].
  - rewrite (commit_units_ok (Some (lt_epoch term)) units [] 0 w1); [|by rewrite <-Ee|done]. exists T, R, l. destruct Hb as (HS & HI & Hst & Hl & He).
    split_and!; [split_and!| |apply advance_refl|lia]; try done.
    + apply stored_off; [|done]. eapply Forall_impl; [exact Hoff|]. intros op Hop. split_and!; by apply Hop.
    + intros v. change (kv_get stamp_key (apply_ops (unit_ops units) (w_db w)) = Some v → ∃ s, v = encode_stamp s).
      rewrite (off_table_get PREFIX_ALLOCATOR_STATE); [apply Hst| |apply stamp_key_table]. eapply Forall_impl; [exact Hoff|]. intros op Hop. by apply Hop.
    + unfold lease_at. rewrite <-Hl. by apply (off_lease_get (unit_ops units)).
    + unfold term_ok in *. cbn. rewrite El in *. exact Ht.
  - destruct pending as [|[bin id] pending]; [by apply Hsame|].
    rewrite (commit_units_fenced (lt_epoch term) (epoch_of l)); [by apply Hsame|done|done| |by right]. apply Forall_fmap, Forall_forall. by intros [? ?] _.
Qed.

Lemma safe_try {A : Type} n V (m : M (World KV) Status A) : safe_op n V m → safe_op n V (try_ m).
Proof. intros Hm T R l w Hb Ht Hroom HV. specialize (Hm T R l w Hb Ht Hroom HV). unfold try_. by destruct (m w). Qed.

Section resident.
Hypothesis resident : kc_leader_resident_lease config = true.

Lemma reserve_safe rq : request_ok rq → safe_op 1 any_request (with_allocator_mutation_lease 1 false (reserve_batch_common_locked rq)).
Proof. intros Hrq. apply leased_safe; [done|by apply reserve_op|apply inert_reserve]. Qed.

Lemma top_up_loop_safe fuel target added n fd ttl : safe_op (Z.of_nat fuel) any_request (top_up_loop fuel 1 target added n fd ttl).
Proof.
  revert added. induction fuel as [|fuel IH]; intros added; cbn [top_up_loop]; [by apply safe_pure|].
  destruct (target <=? added); [apply (safe_weaken 0 _ any_request); [lia|done|by apply safe_pure]|].
  replace (Z.of_nat (S fuel)) with (1 + Z.of_nat fuel) by lia. apply safe_bind; [lia|lia| |].
  - apply leased_safe; [done|apply top_up_op|apply inert_top_up].
  - intros k. destruct (k <? _); [apply (safe_weaken 0 _ any_request); [lia|done|by apply safe_pure]|apply IH].
Qed.

Lemma top_up_safe n fd ttl low high chunk : safe_op (Z.max 1 (high + 1)) any_request (top_up_reservation_bin 1 n fd ttl low high chunk).
Proof.
  unfold top_up_reservation_bin. rewrite resident.
  destruct ((high =? 0) || (high <=? low)); [apply (safe_weaken 0 _ any_request); [lia|done|by apply safe_pure]|].
  change (Z.max 1 (high + 1)) with (0 + Z.max 1 (high + 1)). apply safe_bind; [lia|lia| |].
  { change 0 with (0 + 0). apply safe_bind; [lia|lia|apply safe_try, flush_safe|]. intros _. by apply safe_pure. }
  intros _. change (Z.max 1 (high + 1)) with (0 + Z.max 1 (high + 1)). apply safe_bind; [lia|lia|by apply safe_pure|]. intros s.
  set (current := len _). destruct (Z.leb_spec high current); [apply (safe_weaken 0 _ any_request); [lia|done|by apply safe_pure]|].
  eapply safe_weaken; [|done|apply top_up_loop_safe]. lia.
Qed.

(** An instance in charge is ready. *)
Lemma in_charge_ready T R l w : base T R l (w_db w) → term_ok T R l w → in_charge w → ready false T R w ∧ cl_owner_id <$> l = Some me ∧ leads w (epoch_of l).
Proof.
  intros Hb Ht (Hl & e & He & Hr). pose proof (base_epoch _ _ _ _ Hb) as Hr'. rewrite Hr in Hr'. injection Hr' as ->.
  pose proof He as He'. unfold leads in He'. destruct (ka_leadership (w_kas w)) as [term|] eqn:El; [|done]. injection He' as He'.
  destruct (Ht term El) as [_ Hlive]. destruct (Hlive He') as [Ho Hsync]. split_and!; [|done|done]. by eapply base_ready.
Qed.

Lemma reload_outcome T R l w w' full :
  base T R l (w_db w) → term_ok T R l w → refreshed full T R w w' → outcome 1 T R l w'.
Proof.
  intros Hb Ht (Ed & El & Hs & _). exists T, R, l. split_and!; [by rewrite Ed| |apply advance_refl|lia].
  intros term Hterm. rewrite El in Hterm. destruct (Ht term Hterm) as [H1 H2]. split; [done|]. intros E. split; [by apply H2|done].
Qed.

Lemma ensure_outcome full skip T R l w : base T R l (w_db w) → term_ok T R l w → outcome 1 T R l (ensure_current full skip w).1.
Proof.
  intros Hb Ht. destruct (ensure_keeps full skip T R l w Hb) as [Ed El]. exists T, R, l. split_and!; [by rewrite Ed| |apply advance_refl|lia].
  intros term Hterm. rewrite El in Hterm. destruct (Ht term Hterm) as [H1 H2]. split; [done|]. intros E. destruct (H2 E) as [Ho Hs]. split; [done|].
  pose proof Hb as (HS & HI & Hst & _). destruct (ensure_current_ok full skip w T R HS HI Hst Hs) as (w' & -> & _ & _ & Hs' & _). done.
Qed.

(** A step of the holder that keeps the term. *)
Lemma charge_outcome full T R T' R' l w w' :
  base T R l (w_db w) → cl_owner_id <$> l = Some me → leads w (epoch_of l) → same_term w w' → ready full T' R' w' → outcome 1 T R l w'.
Proof.
  intros Hb Ho Hl Hs Hr. destruct (live_outcome full T R T' R' l w w' (epoch_of l) Hb Hl eq_refl Ho Hs Hr) as (T2 & R2 & l2 & ? & ? & ? & ?).
  exists T2, R2, l2. split_and!; [done..|lia].
Qed.

Lemma unchanged_outcome T R l w w' :
  base T R l (w_db w) → term_ok T R l w → same_instance w w' → outcome 1 T R l w'.
Proof. intros Hb Ht [Ed Ek]. exists T, R, l. split_and!; [by rewrite Ed|unfold term_ok; by rewrite Ek|apply advance_refl|lia]. Qed.

Lemma quiet_fst {A : Type} (m : M (World KV) Status A) w : ((quiet m) w).1 = (m w).1.
Proof. unfold mbind, M_mbind. by destruct (m w) as [w' [a|e]]. Qed.

Lemma update_outcome id f T R l w :
  base T R l (w_db w) → term_ok T R l w → in_charge w → span_neutral f →
  outcome 1 T R l ((entry ← on_state (update_entry id f); _ ← persist_state (mkChanges [entry] [] [] [] [] false) Unfenced; mret (ta_target entry)) w).1.
Proof.
  intros Hb Ht Hc Hf. destruct (in_charge_ready T R l w Hb Ht Hc) as (Hr & Ho & Hl). pose proof (update_target_ok id f false T R w Hr Hf) as H.
  destruct ((entry ← on_state (update_entry id f); _ ← persist_state (mkChanges [entry] [] [] [] [] false) Unfenced; mret (ta_target entry)) w) as [w' [t|err]]; cbn.
  - destruct H as (Hs & T' & Hr' & _). by eapply charge_outcome.
  - destruct H as [-> _]. by eapply unchanged_outcome.
Qed.

Lemma leased_outcome {A : Type} full V (op : M (World KV) Status A) T R l w :
  locked_op full V op → inert op → base T R l (w_db w) → term_ok T R l w → epoch_of l + 1 < 2 ^ 64 → V T R →
  outcome 1 T R l (with_allocator_mutation_lease 1 full op w).1.
Proof. intros Hop Hin Hb Ht Hroom HV. by eapply (leased_safe 1 full V op). Qed.

Lemma then_fst {A B : Type} (m : M (World KV) Status A) (f : A → result Status B) w : ((x ← m; lift (f x)) w).1 = (m w).1.
Proof. unfold mbind, M_mbind. by destruct (m w) as [w' [a|e]]. Qed.

Lemma explicit_ok batch n fd excluded banned ttl required id : seg_ok id → request_ok (mkReserve batch n fd excluded banned ttl required (Some id)).
Proof. intros H id' [= <-]. done. Qed.

(** Every operation, by any instance, keeps what the cluster relies on. *)
Lemma op_outcome op T R l w :
  base T R l (w_db w) → term_ok T R l w → epoch_of l + grants op < 2 ^ 64 → request_valid op T R w → outcome (grants op) T R l (run_op op w).1.
Proof.
  intros Hb Ht Hroom Hv. destruct op; cbn [run_op grants request_valid] in *; rewrite ?quiet_fst; unfold reserve_stripe_placement, reserve_rebuild_placement,
    reserve_replacement_placement, reserve_stripe_batch; rewrite ?then_fst.
  - destruct (renew_ok T R l w Hb Ht Hroom) as (l' & ? & ? & ? & ?). by exists T, R, l'.
  - unfold init. pose proof Hb as (HS & HI & Hst & _). destruct (refresh_target_ok w T R HS Hst) as (w' & -> & Hw). by eapply reload_outcome.
  - apply (leased_outcome false any_request); [by apply reserve_op, explicit_ok|apply inert_reserve|done..].
  - apply (leased_outcome false any_request); [by apply reserve_op|apply inert_reserve|done..].
  - apply (leased_outcome false any_request); [by apply reserve_op, explicit_ok|apply inert_reserve|done..].
  - apply (leased_outcome false any_request); [by apply reserve_op, explicit_ok|apply inert_reserve|done..].
  - apply (leased_outcome false any_request); [apply claim_op|apply inert_claim|done..].
  - by apply top_up_safe.
  - unfold finalize_reservations_batch. destruct (is_nil _); [by eapply unchanged_outcome|].
    apply (leased_outcome true (valid_mutations mutations)); [apply finalize_op|apply inert_finalize|done..].
  - unfold release_reservations_batch. destruct (is_nil _); [by eapply unchanged_outcome|].
    apply (leased_outcome true (valid_mutations mutations)); [apply release_op|apply inert_apply|done..].
  - unfold reclaim_target_granules. destruct (is_nil _); [by eapply unchanged_outcome|].
    eapply leased_outcome; [apply reclaim_op|apply inert_reclaim|done..].
  - apply (leased_outcome true any_request); [apply expire_op|apply inert_expire|done..].
  - unfold get_reservation. pose proof (ensure_outcome true false T R l w Hb Ht) as H. change (ensure_full_state_current false) with (ensure_current true false).
    unfold mbind at 1, M_mbind at 1. by destruct (ensure_current true false w) as [w' [[]|e]].
  - destruct Hv as (Hc & Hreg & Hseg). destruct (in_charge_ready T R l w Hb Ht Hc) as (Hr & Ho & Hl).
    pose proof (register_target_ok target false T R w Hr Hreg Hseg) as H. destruct (register_target target w) as [w' [t|err]]; cbn.
    + destruct H as (Hs & T' & Hr' & _). by eapply charge_outcome.
    + subst w'. by eapply unchanged_outcome.
  - unfold heartbeat_target, heartbeat_in_memory. by apply update_outcome.
  - unfold set_target_state. unfold mbind at 1, M_mbind at 1, now_unix_ms. set (w1 := mkWorld _ (S _) _ _). unfold set_target_state_in_memory.
    destruct (lifecycle_state =? TARGET_LIFECYCLE_UNSPECIFIED).
    + rewrite (M_bind_Err _ _ w1 w1 InvalidArgument_); [by eapply unchanged_outcome|]. rewrite <-(with_alloc_same w1) at 2. by apply on_state_run.
    + apply (update_outcome target_id _ T R l w1 Hb Ht Hv). apply set_state_neutral.
  - destruct (in_charge_ready T R l w Hb Ht Hv) as (Hr & Ho & Hl). destruct (reset_ok false T R w Hr) as (w' & T' & -> & Hs & Hr' & _). by eapply charge_outcome.
Qed.
End resident.
End run.

(** ** The cluster *)

(** What a member keeps; a restart leaves only the database. *)
Record Member := mkMember { mb_ticks : nat; mb_uuids : nat; mb_kas : Kas }.
Record Cluster (KV : Type) := mkCluster { cu_db : KV; cu_members : nat → Member }.
Arguments mkCluster {KV}.
Arguments cu_db {KV}.
Arguments cu_members {KV}.

(** Members of one shard under different names, leader-resident. *)
Class KasMembers (env : nat → KasEnv) := {
  member_ok : ∀ p, @KasEnvOk (env p);
  member_resident : ∀ p, kc_leader_resident_lease (@config (env p)) = true;
  member_shard : ∀ p q, kc_allocation_shard_id (@config (env p)) = kc_allocation_shard_id (@config (env q));
  member_owner : ∀ p q, kc_owner_id (@config (env p)) = kc_owner_id (@config (env q)) → p = q;
}.

Section cluster.
Context {KV : Type} {Hdb : Fdb KV} {Hlaws : FdbLaws KV} {Hcodec : KasCodec} {Hclaws : KasCodecLaws}.
Context (env : nat → KasEnv) {Hmem : KasMembers env}.
Implicit Types (C : Cluster KV) (w : World KV) (T : targets) (R : reservations) (p q : nat).

Definition world C p : World KV := mkWorld (cu_db C) (mb_ticks (cu_members C p)) (mb_uuids (cu_members C p)) (mb_kas (cu_members C p)).

Definition after p w C : Cluster KV :=
  mkCluster (w_db w) (fun q => if decide (q = p) then mkMember (w_ticks w) (w_uuids w) (w_kas w) else cu_members C q).

(** Any member runs a valid operation, or restarts. *)
Inductive kas_step : Cluster KV → Cluster KV → Prop :=
| step_op p op C T R :
    stored (cu_db C) T R → request_valid (Henv := env p) op T R (world C p) →
    (∀ e, stored_epoch (kv_get (lease_key (Henv := env p)) (cu_db C)) = Ok e → e + grants op < 2 ^ 64) →
    kas_step C (after p (run_op (Henv := env p) op (world C p)).1 C)
| step_restart p C :
    kas_step C (after p (mkWorld (cu_db C) (mb_ticks (cu_members C p)) (mb_uuids (cu_members C p)) Kas_default) C).

(** No row of the allocator, and members that just started. *)
Definition kas_start C : Prop :=
  (∀ k, KAS_NAMESPACE `prefix_of` k → kv_get k (cu_db C) = None) ∧ ∀ p, mb_kas (cu_members C p) = Kas_default.

Inductive kas_reachable : Cluster KV → Prop :=
| reach_start C : kas_start C → kas_reachable C
| reach_step C C' : kas_reachable C → kas_step C C' → kas_reachable C'.

Definition cluster_inv C : Prop :=
  ∃ T R l, (∀ p, base (Henv := env p) T R l (cu_db C)) ∧ ∀ p, term_ok (Henv := env p) T R l (world C p).

Lemma base_member p q T R l db : base (Henv := env p) T R l db → base (Henv := env q) T R l db.
Proof. unfold base, stamp_good, lease_at, lease_key, stamp_key. by rewrite (member_shard p q). Qed.

Lemma advance_other p q T R l T' R' l' w :
  p ≠ q → advance (Henv := env p) l T R l' T' R' → term_ok (Henv := env q) T R l w → term_ok (Henv := env q) T' R' l' w.
Proof.
  intros Hne [(-> & -> & ->)|(A1 & A2 & A3)] Ht; [done|]. intros term Hterm. destruct (Ht term Hterm) as [H1 H2]. split; [lia|].
  intros E. assert (epoch_of l = epoch_of l') as E' by lia. destruct (H2 ltac:(lia)) as [Ho _]. rewrite (A3 E') in Ho. injection Ho as Ho.
  by apply member_owner in Ho.
Qed.

(** What a database stores is determined by it. *)
Lemma stored_reservation db T R T' R' id r : stored db T R → stored db T' R' → R !! id = Some r → R' !! id = Some r.
Proof.
  intros H1 H2 Hr. destruct (sd_reservation_ids _ _ _ H1 id r Hr) as [_ Hseg].
  assert (kas_encode_key PREFIX_RESERVATION [] `prefix_of` reservation_key id) as Hk by apply kas_table_prefix.
  assert (kv_get (reservation_key id) db = Some (encode_reservation r)) as Hg by (apply (sd_reservations _ _ _ H1); [done|]; exists r; split; [by exists id|done]).
  apply (sd_reservations _ _ _ H2) in Hg as (r' & (id' & Hr' & Ek) & Ev); [|done]. apply reservation_key_inj in Ek as ->; [|done|by eapply (sd_reservation_ids _ _ _ H2)].
  apply (f_equal decode_reservation) in Ev. rewrite !decode_encode_reservation in Ev. by injection Ev as ->.
Qed.

Lemma stored_unique db T R T' R' : stored db T R → stored db T' R' → T = T' ∧ R = R'.
Proof.
  intros HS HS'. split.
  - pose (w := mkWorld db 0 0 Kas_default). destruct (load_all_targets_ok w T R HS) as (l & El & <-), (load_all_targets_ok w T' R' HS') as (l' & El' & <-).
    rewrite El in El'. by injection El' as ->.
  - apply map_eq. intros id. apply option_eq. intros r. split; intros Hr; [exact (stored_reservation _ _ _ _ _ _ _ HS HS' Hr)|exact (stored_reservation _ _ _ _ _ _ _ HS' HS Hr)].
Qed.

Lemma world_after_same p w C : world (after p w C) p = w.
Proof. unfold world, after. cbn. rewrite decide_True by done. by destruct w. Qed.
Lemma world_after_other p q w C : q ≠ p → world (after p w C) q = mkWorld (w_db w) (mb_ticks (cu_members C q)) (mb_uuids (cu_members C q)) (mb_kas (cu_members C q)).
Proof. intros Hne. unfold world, after. cbn. by rewrite decide_False. Qed.

Lemma cluster_inv_step C C' : cluster_inv C → kas_step C C' → cluster_inv C'.
Proof.
  intros (T & R & l & Hb & Ht). destruct 1 as [p op C T0 R0 HS Hv Hroom|p C].
  - destruct (stored_unique _ _ _ _ _ HS (proj1 (Hb p))) as [-> ->].
    pose proof (op_outcome (Henv := env p) (Heok := member_ok p) (member_resident p) op T R l (world C p) (Hb p) (Ht p)) as H.
    destruct H as (T' & R' & l' & Hb' & Ht' & Ha & _); [by apply Hroom; rewrite (base_epoch (Henv := env p) T R l _ (Hb p))|done|].
    exists T', R', l'. split; [intros q; by apply (base_member p q)|]. intros q. destruct (decide (q = p)) as [->|Hne].
    + by rewrite world_after_same.
    + rewrite world_after_other by done. eapply (advance_other p q); [done|exact Ha|]. exact (Ht q).
  - exists T, R, l. split; [done|]. intros q. destruct (decide (q = p)) as [->|Hne].
    + rewrite world_after_same. by intros term ?.
    + rewrite world_after_other by done. apply Ht.
Qed.

Lemma empty_base p db : (∀ k, KAS_NAMESPACE `prefix_of` k → kv_get k db = None) → base (Henv := env p) ∅ ∅ None db.
Proof.
  intros He. assert (∀ t segs, KAS_NAMESPACE `prefix_of` kas_encode_key t segs) as Hk by (intros t segs; by eexists).
  assert (∀ (A : Type) (enc : A → list byte) t (P : list byte → A → Prop), (∀ k a, ¬ P k a) → table_is enc t P db) as Htab.
  { intros A enc t P HP k v Hp. rewrite He by (etransitivity; [apply (Hk t [])|done]). split; [done|]. intros (a & Ha & _). by destruct (HP k a). }
  split_and!.
  - split; [apply Htab; by intros k a (id & t & ?%lookup_empty_Some & _)|apply Htab; by intros k a (id & t & ?%lookup_empty_Some & _)|apply Htab; by intros k a (id & ?%lookup_empty_Some & _)| |]; by intros id x ?%lookup_empty_Some.
  - split; try (by intros id r ?%lookup_empty_Some); [by intros id1 r1 id2 r2 q ?%lookup_empty_Some|by intros q (id & r & ?%lookup_empty_Some & _)].
  - intros v. rewrite He; [done|]. unfold stamp_key, allocator_state_stamp_key. destruct (trimmed_shard _); apply Hk.
  - unfold lease_at. rewrite He; [done|apply Hk].
  - done.
Qed.

Lemma cluster_inv_reachable C : kas_reachable C → cluster_inv C.
Proof.
  induction 1 as [C [He Hd]|C C' _ IH Hs]; [|by eapply cluster_inv_step]. exists ∅, ∅, None. split; [intros p; by apply empty_base|].
  intros p term Hterm. unfold world in Hterm. cbn in Hterm. by rewrite Hd in Hterm.
Qed.

(** C5: Allocator safety. Several leader-resident instances of the allocator share one
    database. They run reservations, claims, top-ups, finalizations, releases, reclaims and
    expiry in any order, each operation a step, restart at any time, and may believe in a
    term that has ended; requests respect [request_valid]. In every state they reach, the
    stored targets have well-formed free spans whose counts are right, every granule of a
    stored reservation lies in its target and is not free, and no granule is in two
    placements. *)
Theorem granules_never_shared C :
  kas_reachable C → ∃ T R, stored (cu_db C) T R ∧ targets_ok T ∧
    (∀ id r, R !! id = Some r → NoDup (taken_of (rr_placements r)) ∧ ∀ id' r' g, R !! id' = Some r' → holds r g → holds r' g → id = id') ∧
    ∀ g, held R g → ¬ free_at T g ∧ ∃ t, T !! g.1 = Some t ∧ 0 ≤ g.2 < tr_granule_count (ta_target t).
Proof.
  intros (T & R & l & Hb & _)%cluster_inv_reachable. destruct (Hb 0%nat) as (HS & HI & _). exists T, R. split_and!; [done|apply HI| |].
  - intros id r Hr. split; [by eapply HI|]. intros id' r' q Hr' Hq Hq'. by eapply HI.
  - intros q Hq. split; [by eapply alloc_not_free|]. destruct (ao_held _ _ HI q Hq) as (t & Ht & Hrange & _). by exists t.
Qed.
End cluster.
