(* ===== verification/KasProps.v ===== *)
(** What the allocator's operations promise, and where they fall short: reserving, expiry
    beside the committed markers of the metadata service, storing and reloading the state,
    and the ways in which memory and database come apart. *)
From S2P Require Import Prelude Bytes Sorts Fdb KmsKeys KmsValues KmsStore Placement Kas KasPlan KasReserve KasOps KasStore KasService KasTables KasPersist KasLocked KasLease.

Section props.
Context {KV : Type} {Hdb : Fdb KV} {Hlaws : FdbLaws KV} {Hcodec : KasCodec} {Hclaws : KasCodecLaws} {Henv : KasEnv} {Heok : KasEnvOk}.
Implicit Types (w : World KV) (T : targets) (R : reservations).

Abbreviation state w := (ka_state (w_kas w)).

(** ** Reserving *)

(** C11: Reserving a batch, with a failure domain given and a positive batch size. The
    instance that holds the lease either refuses a request for no
    fragments and changes nothing, or answers with reservations that are stored when it
    returns. Each has exactly the requested number of placements, in different failure
    domains, on granules that were free, on targets that the request admits; no granule is
    taken twice, exactly the granules taken stop being free, and fewer reservations than
    asked for means that too few failure domains have a free granule left. *)
Theorem reserve_batch_spec full rq T R w :
  ready full T R w → request_ok rq → rq_failure_domain rq ≠ Unspecified → 0 < rq_batch_size rq →
  match reserve_batch_common_locked rq w with
  | (w', Ok new) => ∃ T', ready full T' (insert_reservations new R) w' ∧
      Forall (reservation_good (rq_failure_domain rq) T (rq_fragment_count rq)) new ∧ NoDup (taken new) ∧
      (∀ q, q ∈ taken new → ∃ t, T !! q.1 = Some t ∧ is_free (ta_spans t) q.2 ∧
        candidate (rq_excluded_target_ids rq) (rq_banned_target_id rq) (rq_required_target_ids rq) (kc_allocation_shard_id config) t = true) ∧
      (∀ q, free_at T' q ↔ free_at T q ∧ q ∉ taken new) ∧ len new ≤ rq_batch_size rq ∧
      (len new < rq_batch_size rq →
        (size (open_domains (rq_failure_domain rq) (rq_excluded_target_ids rq) (rq_banned_target_id rq) (rq_required_target_ids rq)
          (kc_allocation_shard_id config) T') < rq_fragment_count rq)%nat)
  | (w', Err err) => ready full T R w' ∧ err = InvalidArgument_ ∧ rq_fragment_count rq = 0%nat
  end.
Proof.
  intros Hr Hrq Hu Hb. pose proof (reserve_locked_ok full rq T R w Hr Hrq) as H.
  destruct (reserve_batch_common_locked rq w) as [w' [new|err]]; [|by destruct H as (_ & ? & ? & [?|?])].
  destruct H as (_ & T' & Hr' & Hres). destruct (Hres Hu ltac:(lia)) as [dirty H]. exists T'. split_and!; [done|apply H|apply H| |apply H| |].
  - intros q Hq. destruct (rd_was_free _ _ _ _ _ _ _ _ _ _ _ H q Hq) as [(t & Ht & Hf) (t' & Ht' & Hc)]. rewrite Ht in Ht'. injection Ht' as <-. by exists t.
  - pose proof (rd_length _ _ _ _ _ _ _ _ _ _ _ H). lia.
  - intros Hlt. apply (KasReserve.rd_full _ _ _ _ _ _ _ _ _ _ _ H). lia.
Qed.

(** ** Expiry *)

(** C13: The expiry of reservations spares committed granules. Run by the holder of the
    lease it succeeds and stores what it does. A granule that is free afterwards was free
    before, or belongs to an expired reservation and has no committed marker of the metadata
    service; every granule of an expired reservation without a marker, and not noted as
    committed before, becomes free. *)
Theorem reaper_spares_committed now limit T R w :
  ready true T R w →
  ∃ w' n T' R', expire_locked now limit w = (w', Ok n) ∧ ready true T' R' w' ∧
    (∀ q, free_at T' q → free_at T q ∨
      ∃ id r, id ∈ expired_ids now limit (state w) ∧ R !! id = Some r ∧ holds r q ∧ kv_get (committed_granule_key q.1 q.2) (w_db w) = None) ∧
    (∀ id r q, id ∈ expired_ids now limit (state w) → R !! id = Some r → holds r q →
      kv_get (committed_granule_key q.1 q.2) (w_db w) = None → ¬ committed_at (state w) q → free_at T' q).
Proof.
  intros Hr. destruct (expire_locked_ok now limit T R w Hr) as (w' & n & T' & R' & E & _ & Hr' & Hf). exists w', n, T', R'.
  assert (al_reservations (state w) = R) as HR by (destruct Hr as [_ _ _ _ _ H1 H2]; by apply H1, H2).
  split_and!; [done|done| |].
  - intros q [?|(Hq & Hn & _)]%Hf; [by left|right]. unfold granules_of in Hq. apply list_elem_of_bind in Hq as (id & Hq & Hid).
    rewrite HR in Hq. destruct (R !! id) as [r|] eqn:Hx; [by exists id, r|by apply elem_of_nil in Hq].
  - intros id r q Hid Hx Hh Hn Hc. apply Hf. right. split_and!; [|done..]. unfold granules_of. apply list_elem_of_bind. exists id. by rewrite HR, Hx.
Qed.

(** ** Storing and reloading *)

(** C20: The state that is written is the state that is read. When the holder of the lease
    stores a change, in as many transactions as its size needs and with the spans of a
    target cut into chunks, an instance that starts from nothing, reading page by page,
    finds exactly the targets and reservations the change makes of the former ones. *)
Theorem persisted_state_reloads c fence w T R :
  holder T R w → change_ok c T →
  alloc_ok (put_targets (ch_targets c) T) (delete_ids (ch_delete_reservations c) (insert_reservations (ch_reservations c) R)) →
  ∃ w' v, persist_state c fence w = (w', Ok tt) ∧
    refresh_full_state_from_fdb (mkWorld (w_db w') 0 0 Kas_default) = (v, Ok tt) ∧ w_db v = w_db w' ∧
    al_targets (state v) = put_targets (ch_targets c) T ∧
    al_reservations (state v) = delete_ids (ch_delete_reservations c) (insert_reservations (ch_reservations c) R).
Proof.
  intros (HS & Hst & e & He & Hr) Hc HI. destruct (persist_state_ok c fence w T R HS Hc ltac:(by exists e)) as (w' & E & _ & HS' & _ & Hst' & _).
  { destruct fence; [|done]. unfold fence_value. by rewrite He. }
  destruct (refresh_full_ok (mkWorld (w_db w') 0 0 Kas_default) _ _ HS' HI (Hst' Hst)) as (v & Ev & Ed & _ & Hsy & Ht & Hf).
  exists w', v. destruct (Hsy Ht) as [? HR]. split_and!; [done..|]. by apply HR, Hf.
Qed.

(** ** Memory and database apart *)

(** Taking over the lease forgets what was loaded. *)
Lemma take_over w T R l e :
  base T R l (w_db w) → ka_leadership (w_kas w) = None → decide_lease_grant l (kc_owner_id config) (clock (w_ticks w)) = (true, e) →
  ∃ w', renew_leader_resident_lease w = (w', Ok tt) ∧ stored (w_db w') T R ∧ stamp_good (w_db w') ∧ leads w' e ∧
    stored_epoch (kv_get lease_key (w_db w')) = Ok e ∧ al_targets (state w') = al_targets (state w) ∧ al_target_state_loaded (state w') = false.
Proof.
  intros (HS & _ & Hst & Hl & _) Hn Hg. set (x := mkLease (kc_owner_id config) (saturating_add64 (clock (w_ticks w)) (Z.max ALLOCATOR_MUTATION_LEASE_TTL_MS 1000)) e).
  set (db' := kv_set lease_key (encode_lease x) (w_db w)).
  assert (try_acquire_coordination_lease_epoch lease_key (kc_owner_id config) ALLOCATOR_MUTATION_LEASE_TTL_MS w =
    (mkWorld db' (S (w_ticks w)) (w_uuids w) (w_kas w), Ok (Some e))) as E.
  { unfold try_acquire_coordination_lease_epoch. unfold mbind at 1, M_mbind at 1, now_unix_ms. unfold db_run, run, acquire_txn. cbn [w_db].
    rewrite trx_get_bind, Hl. destruct l as [y|]; cbn [fmap option_fmap option_map].
    - rewrite decode_encode_lease. unfold mbind, M_mbind, lift. cbn [ok_or]. cbn -[decide_lease_grant]. by rewrite Hg.
    - unfold mbind, M_mbind. cbn -[decide_lease_grant]. by rewrite Hg. }
  eexists. split.
  { unfold renew_leader_resident_lease. rewrite (M_bind_run _ _ w w (ka_leadership (w_kas w))) by done. rewrite Hn. unfold acquire_leader_resident_lease.
    unfold mbind at 1, M_mbind at 1. rewrite (M_bind_run _ _ _ _ _ E). unfold mbind, M_mbind, get_leadership, hold_term, now_unix_ms, set_leadership. cbn. rewrite Hn.
    rewrite bool_decide_eq_false_2 by done. done. }
  cbn. split_and!; try done.
  - apply (stored_off [OpSet lease_key (encode_lease x)]); [|done]. repeat constructor; apply lease_write_off.
  - intros v. change (kv_get stamp_key (apply_ops [OpSet lease_key (encode_lease x)] (w_db w)) = Some v → ∃ s, v = encode_stamp s).
    rewrite (off_table_get PREFIX_ALLOCATOR_STATE); [apply Hst|repeat constructor; apply lease_write_off|apply stamp_key_table].
  - unfold db'. rewrite kv_get_set, decide_True by done. cbn. by rewrite decode_encode_lease.
Qed.

(** C39: A heartbeat hides that memory is out of date. An instance that is not the leader
    has old spans in memory, in which a granule [q] of a stored reservation is free. When
    its renewer takes over the lease and a heartbeat of a target arrives before the first
    allocation, the instance leads, its writes pass the fence, it takes its targets for
    loaded, so an operation reloads nothing, and [q] is still free in its memory. *)
Theorem heartbeat_hides_reload w T R l e id t u at_ms q :
  base T R l (w_db w) → ka_leadership (w_kas w) = None → decide_lease_grant l (kc_owner_id config) (clock (w_ticks w)) = (true, e) →
  al_targets (state w) !! id = Some t → T !! id = Some u → tr_target_id (ta_target t) = id → held R q → free_at (al_targets (state w)) q →
  ∃ w1 w2 v T', renew_leader_resident_lease w = (w1, Ok tt) ∧ heartbeat_target id true at_ms w1 = (w2, Ok v) ∧
    leads w2 e ∧ stored_epoch (kv_get lease_key (w_db w2)) = Ok e ∧ ensure_current false true w2 = (w2, Ok tt) ∧
    stored (w_db w2) T' R ∧ held R q ∧ free_at (al_targets (state w2)) q.
Proof.
  intros Hb Hn Hg Ht Hu Eid Hq Hf. destruct (take_over w T R l e Hb Hn Hg) as (w1 & E1 & HS & Hst & Hl & Hr & Em & Hld).
  set (entry := mkTargetState (with_health true at_ms (ta_target t)) (ta_spans t)).
  set (entry' := mkTargetState (with_health true at_ms (ta_target t)) (ta_spans u)).
  set (w1' := with_alloc (set_targets (<[id := entry]> (al_targets (state w1))) (state w1)) w1).
  assert (on_state (heartbeat_in_memory id true at_ms) w1 = (w1', Ok entry)) as Eu.
  { apply on_state_run. unfold heartbeat_in_memory, update_entry, mbind, M_mbind, get_state, lift. rewrite Em, Ht. done. }
  assert (ta_id entry' = id) as Eid' by exact Eid.
  destruct (persist_state_ok (mkChanges [entry'] [] [] [] [] false) Unfenced w1' T R HS) as (w2 & E2 & (M1 & _ & _ & _ & _ & M6) & HS2 & Ek & _ & Hl2); [|done|done|].
  { destruct (sd_target_ids _ _ _ HS _ _ Hu) as (_ & Hseg & Hlen). split; [|done..]. constructor; [|done]. rewrite Eid'. split_and!; [done|done|]. intros _. by exists u. }
  change (persist_state (mkChanges [entry'] [] [] [] [] false) Unfenced w1') with (persist_state (mkChanges [entry] [] [] [] [] false) Unfenced w1') in E2.
  eexists w1, w2, _, _. split_and!; [done| | | | |exact HS2|done|].
  - unfold heartbeat_target. rewrite (M_bind_run _ _ _ _ _ Eu). by rewrite (M_bind_run _ _ _ _ _ E2).
  - unfold leads. rewrite M6. exact Hl.
  - by rewrite Ek.
  - unfold ensure_current, ensure_target_state_current. rewrite (M_bind_run _ _ _ _ _ (get_alloc_run w2)). rewrite Hl2. by rewrite orb_true_r.
  - rewrite M1. unfold w1'. cbn. rewrite Em. destruct Hf as (x & Hx & Hfree). destruct (decide (q.1 = id)) as [E|Hne].
    + exists entry. rewrite E, lookup_insert_eq. split; [done|]. rewrite E, Ht in Hx. by injection Hx as <-.
    + exists x. by rewrite lookup_insert_ne.
Qed.

(** C40: A batch of releases that fails half way stays in memory. When the second of two
    releases names a placement that its reservation does not have, the batch is refused and
    nothing is stored, but the granules of the first are free in memory: the instance still
    leads and reloads nothing, while the stored reservation holds those granules. *)
Theorem failed_batch_diverges m1 m2 T R w q :
  ready true T R w → rm_reservation_id m1 ≠ rm_reservation_id m2 → mutation_ok m1 → ¬ bad_index R m1 → bad_index R m2 →
  q ∈ selected R m1 → ¬ committed_at (state w) q →
  ∃ w', apply_reservation_mutations_locked Release [m1; m2] w = (w', Err InvalidArgument_) ∧ w_db w' = w_db w ∧ same_term w w' ∧
    ensure_current true true w' = (w', Ok tt) ∧ free_at (al_targets (state w')) q ∧ stored (w_db w') T R ∧ held R q.
Proof.
  intros Hr Hne Hm1 Hok Hbad Hq Hc. pose proof (ready_memory _ _ _ _ Hr) as (M1 & M2 & M3 & M4). pose proof (M3 (M4 eq_refl)) as M5.
  pose proof (apply_mutation_ok Release R no_effects m1 (state w)) as H. rewrite M2, M5 in H. specialize (H (rd_alloc _ _ _ _ Hr) eq_refl Hm1 (not_elem_of_nil _)).
  destruct (apply_mutation Release no_effects m1 (state w)) as [s1 [e1|err]] eqn:E1; [|by destruct H as (_ & _ & ?)].
  destruct H as (HI1 & _ & _ & _ & (N1 & N2 & N3 & N4) & _ & _ & Ho & Hf). destruct Hbad as (r & err & Hx & En).
  assert (al_reservations s1 !! rm_reservation_id m2 = Some r) as Hx1 by (rewrite Ho by (intros E; by destruct Hne); exact Hx).
  assert (apply_mutation Release e1 m2 s1 = (s1, Err InvalidArgument_)) as E2.
  { unfold apply_mutation. unfold mbind at 1, M_mbind at 1, get_state at 1. cbv beta iota. rewrite Hx1. destruct (ao_ids _ _ HI1 _ _ Hx1) as [_ ->].
    cbn [negb Z.eqb RESERVATION_STATE_RESERVED Pos.eqb]. unfold mutate_record. rewrite En. by rewrite (normalize_err _ _ _ En). }
  assert (apply_in_memory Release [m1; m2] (state w) = (s1, Err InvalidArgument_)) as Ea.
  { unfold apply_in_memory. rewrite bool_decide_eq_true_2 by (repeat constructor; rewrite ?list_elem_of_singleton, ?elem_of_nil; auto).
    cbn [fold_m]. rewrite (M_bind_run _ _ _ _ _ E1). by rewrite (M_bind_Err _ _ _ _ _ E2). }
  exists (with_alloc s1 w). split_and!; [|done|done| | |apply Hr|].
  - unfold apply_reservation_mutations_locked. cbn [is_nil]. by rewrite (M_bind_Err _ _ _ _ _ (on_state_run _ _ _ _ Ea)).
  - unfold ensure_current, ensure_full_state_current. rewrite (M_bind_run _ _ _ _ _ (get_alloc_run _)). cbn. rewrite N2, N3, M1, (M4 eq_refl). done.
  - cbn. apply Hf. by right.
  - unfold selected in Hq. destruct (R !! rm_reservation_id m1) as [r1|] eqn:H1; [|by apply elem_of_nil in Hq].
    destruct (normalize_subset_indexes (length (rr_placements r1)) _) as [indexes|]; [|by apply elem_of_nil in Hq]. exists (rm_reservation_id m1), r1. split; [done|].
    unfold holds, taken_of in *. apply list_elem_of_fmap in Hq as (p & -> & (i & _ & Hp)%omap_lookup_elem). apply list_elem_of_fmap. exists p. split; [done|]. by eapply list_elem_of_lookup_2.
Qed.

(** ** The epochs of the default mode *)

(** Releasing the lease drops its epoch with it: the next grant is epoch 1, whoever asks, and
    a write fenced by an earlier epoch 1 is accepted under it. *)
Lemma released_lease_repeats_epoch owner owner' now expires x db :
  kv_get lease_key db = Some (encode_lease x) → cl_owner_id x = owner →
  ∃ db1 db2, release_txn lease_key owner db = (db1, Ok tt) ∧ acquire_txn lease_key owner' now expires db1 = (db2, Ok (Some 1)) ∧
    ∀ ops, commit_txn ops (Some 1) db2 = trx_each apply_write_op ops db2.
Proof.
  intros Hl Ho. exists (kv_clear lease_key db), (kv_set lease_key (encode_lease (mkLease owner' expires 1)) (kv_clear lease_key db)). split_and!.
  - unfold release_txn. rewrite trx_get_bind, Hl, decode_encode_lease. unfold mbind, M_mbind, lift. cbn [ok_or]. by rewrite bool_decide_eq_true_2.
  - unfold acquire_txn. rewrite trx_get_bind, kv_get_clear, decide_True by done. done.
  - intros ops. unfold commit_txn. unfold mbind at 1, M_mbind at 1. rewrite trx_get_bind, kv_get_set, decide_True by done.
    unfold mbind at 1, M_mbind at 1, lift. unfold stored_epoch. rewrite decode_encode_lease. done.
Qed.

(** ** Finalizing some placements *)

(** Finalizing with some of the indexes drops the reservation; a granule whose index was not
    named is then neither free nor in a reservation. *)
Lemma partial_finalize_leaks m r indexes i p s :
  alloc_ok (al_targets s) (al_reservations s) → mutation_ok m → al_reservations s !! rm_reservation_id m = Some r →
  normalize_subset_indexes (length (rr_placements r)) (rm_placement_indexes m) = Ok indexes → i ∉ indexes → rr_placements r !! i = Some p →
  ∃ s' e, apply_in_memory Finalize [m] s = (s', Ok e) ∧
    ¬ free_at (al_targets s') (pr_target_id p, pr_granule_index p) ∧ ¬ held (al_reservations s') (pr_target_id p, pr_granule_index p).
Proof.
  intros HI Hm Hr En Hi Hp. destruct (ao_ids _ _ HI _ _ Hr) as [Eid Est]. set (q := (pr_target_id p, pr_granule_index p)).
  assert (holds r q) as Hq by (apply list_elem_of_fmap; exists p; split; [done|by eapply list_elem_of_lookup_2]).
  eexists _, _. split.
  { unfold apply_in_memory. rewrite bool_decide_eq_true_2 by apply NoDup_singleton. cbn [fold_m]. unfold apply_mutation, mutate_record.
    unfold mbind at 1, M_mbind at 1. unfold mbind at 1, M_mbind at 1, get_state at 1. rewrite Hr, Est. cbn [negb Z.eqb RESERVATION_STATE_RESERVED Pos.eqb]. rewrite En. done. }
  cbn. autorewrite with alloc. rewrite Eid. split.
  - apply (alloc_not_free _ _ _ HI). by exists (rm_reservation_id m), r.
  - intros (id & r' & [Hne Hr']%lookup_delete_Some & Hq'). by destruct Hne; eapply (ao_apart _ _ HI _ _ _ _ q Hr Hr').
Qed.
End props.
