(* ===== verification/KasExamples.v ===== *)
(** A codec of the allocator's records and a cluster of two instances that registers
    targets and reserves granules; the theorems about the allocator applied there. *)
From S2P Require Import Prelude Bytes Sorts Fdb KmsKeys KmsValues KmsStore Placement Kas KasPlan KasReserve KasOps KasStore KasService KasTables KasPersist KasLocked KasLease KasCluster KasProps KmsConcrete.

(** ** A codec *)

Global Instance span_ser : Ser GranuleSpan.
Proof. refine (via (fun s => (gs_start s, gs_len s)) (fun '(a, b) => mkSpan a b) _). by intros []. Defined.
Global Instance placement_ser : Ser PlacementReservation.
Proof.
  refine (via (fun p => (pr_target_id p, pr_endpoint p, pr_granule_index p, pr_fragment_index p, pr_reservation_id p, pr_reservation_placement_index p))
              (fun '(a, b, c, d, e, f) => mkPlacement a b c d e f) _). by intros [].
Defined.
Global Instance reservation_ser : Ser PlacementReservationRecord.
Proof.
  refine (via (fun r => (rr_reservation_id r, rr_state r, rr_placements r, rr_expires_at_unix_ms r)) (fun '(a, b, c, d) => mkReservation a b c d) _). by intros [].
Defined.
Global Instance chunk_ser : Ser TargetSpanChunk.
Proof. refine (via (fun c => (sc_target_id c, sc_chunk_index c, sc_spans c)) (fun '(a, b, c) => mkSpanChunk a b c) _). by intros []. Defined.
Global Instance stamp_ser : Ser AllocatorStateStampRecord.
Proof. refine (via (fun s => (st_stamp_id s, st_updated_at_unix_ms s, st_owner_id s)) (fun '(a, b, c) => mkStamp a b c) _). by intros []. Defined.
Global Instance lease_ser : Ser CoordinationLeaseRecord.
Proof. refine (via (fun l => (cl_owner_id l, cl_expires_at_unix_ms l, cl_epoch l)) (fun '(a, b, c) => mkLease a b c) _). by intros []. Defined.

Global Instance ser_kas_codec : KasCodec := {
  encode_target := ser; decode_target := fun l => result_ok (whole l);
  encode_chunk := ser; decode_chunk := fun l => result_ok (whole l);
  encode_reservation := ser; decode_reservation := fun l => result_ok (whole l);
  encode_stamp := ser; decode_stamp := fun l => result_ok (whole l);
  encode_lease := ser; decode_lease := fun l => result_ok (whole l);
}.

Global Instance ser_kas_codec_laws : KasCodecLaws.
Proof. split; intros x; (apply (f_equal result_ok (whole_ser x))). Qed.

(** ** Two instances *)

(** Instance [p] has a name of [p] bytes; the clock of the second is past every lease of
    the first. *)
Definition ex_env (p : nat) : KasEnv := {|
  config := mkKasConfig (replicate p x61) None true;
  clock := fun _ => 100000 * Z.of_nat p;
  uuid := fun n => replicate (n mod 50) x75;
  domain_order_bias := fun _ _ => 0;
|}.

Global Instance ex_members : KasMembers ex_env.
Proof.
  split; [|done|done|].
  - intros p. split; [|done]. intros n. cbn. rewrite length_replicate. pose proof (Nat.mod_upper_bound n 50 ltac:(done)). lia.
  - intros p q E. apply (f_equal length) in E. cbn in E. by rewrite !length_replicate in E.
Qed.

Definition ex_target (id : list byte) : TargetRecord :=
  mkTargetRecord id (bstr "e") (bstr "s") (bstr "r") 1 4 0 true 0 TARGET_LIFECYCLE_ACTIVE (bstr "a").
Definition t1 : list byte := bstr "t1".
Definition t2 : list byte := bstr "t2".

Definition w_none : World Rows_t := mkWorld [] 0 0 Kas_default.

(** One instance's operation on a world, evaluated. *)
Abbreviation on p op w := (run_op (Henv := ex_env p) op w).1.

Definition c0 : Cluster Rows_t := mkCluster [] (fun _ => mkMember 0 0 Kas_default).
Definition w1 : World Rows_t := Eval vm_compute in on 0 ORenew w_none.
Definition c1 := after 0 w1 c0.
Definition w2 : World Rows_t := Eval vm_compute in on 0 OInit w1.
Definition c2 := after 0 w2 c1.
Definition w3 : World Rows_t := Eval vm_compute in on 0 (ORegister (ex_target t1)) w2.
Definition c3 := after 0 w3 c2.
Definition w4 : World Rows_t := Eval vm_compute in on 0 (ORegister (ex_target t2)) w3.
Definition c4 := after 0 w4 c3.

(** The second instance loads the targets before anything is reserved. *)
Definition v5 : World Rows_t := Eval vm_compute in on 1 OInit (mkWorld (w_db w4) 0 0 Kas_default).
Definition c5 := after 1 v5 c4.

Definition r1 : list byte := bstr "r1".
Definition r2 : list byte := bstr "r2".
Definition ex_reserve (id : list byte) : KasOp := OReservePlacement id 2 DriveDomainLab ∅ 100.
Definition w6 : World Rows_t := Eval vm_compute in on 0 (ex_reserve r1) w4.
Definition c6 := after 0 w6 c5.
Definition w7 : World Rows_t := Eval vm_compute in on 0 (ex_reserve r2) w6.
Definition c7 := after 0 w7 c6.
Definition w8 : World Rows_t := Eval vm_compute in on 0 (OGet r1) w7.
Definition c8 := after 0 w8 c7.

(** A step of a reachable cluster. *)
Lemma ex_step p op C w w' e :
  kas_reachable ex_env C → world C p = w → on p op w = w' →
  stored_epoch (kv_get (lease_key (Henv := ex_env p)) (w_db w)) = Ok e → e + grants op < 2 ^ 64 →
  (∀ T R l, base (Henv := ex_env p) T R l (w_db w) → term_ok (Henv := ex_env p) T R l w → request_valid (Henv := ex_env p) op T R w) →
  kas_reachable ex_env (after p w' C).
Proof.
  intros HC <- <- He Hroom Hv. eapply reach_step; [exact HC|]. destruct (cluster_inv_reachable ex_env C HC) as (T & R & l & Hb & Ht).
  apply (step_op ex_env p op C T R); [apply (Hb p)|by apply (Hv T R l)|]. intros e' He'. change (cu_db C) with (w_db (world C p)) in He'. rewrite He in He'. injection He' as <-. done.
Qed.

(** A first registration by the instance in charge. *)
Lemma ex_register w id T R l :
  base (Henv := ex_env 0) T R l (w_db w) → term_ok (Henv := ex_env 0) T R l w → in_charge (Henv := ex_env 0) w →
  al_targets (ka_state (w_kas w)) !! id = None → len id < 100 → request_valid (Henv := ex_env 0) (ORegister (ex_target id)) T R w.
Proof.
  intros Hb Ht Hc Hn Hlen. destruct (in_charge_ready (Henv := ex_env 0) T R l w Hb Ht Hc) as ([_ _ _ _ [_ HT] _ _] & _). split; [done|].
  rewrite HT in Hn. split; [|unfold seg_ok; cbn; lia]. unfold registration_ok. cbn. by rewrite Hn.
Qed.

Lemma reach0 : kas_reachable ex_env c0.
Proof. apply reach_start. by split. Qed.
Lemma reach1 : kas_reachable ex_env c1.
Proof. apply (ex_step 0 ORenew c0 w_none w1 0); [exact reach0|done|vm_compute; reflexivity|vm_compute; reflexivity|done|done]. Qed.
Lemma reach2 : kas_reachable ex_env c2.
Proof. apply (ex_step 0 OInit c1 w1 w2 1); [exact reach1|done|vm_compute; reflexivity|vm_compute; reflexivity|done|done]. Qed.

Lemma ex_in_charge w e :
  al_target_state_loaded (ka_state (w_kas w)) = true → leads w e →
  stored_epoch (kv_get (lease_key (Henv := ex_env 0)) (w_db w)) = Ok e → in_charge (Henv := ex_env 0) w.
Proof. intros. split; [done|by exists e]. Qed.

Lemma reach3 : kas_reachable ex_env c3.
Proof.
  apply (ex_step 0 (ORegister (ex_target t1)) c2 w2 w3 1); [exact reach2|done|vm_compute; reflexivity|vm_compute; reflexivity|done|].
  intros T R l Hb Ht. apply (ex_register w2 t1 T R l Hb Ht); [|done|done]. by apply (ex_in_charge w2 1); [..|vm_compute].
Qed.
Lemma reach4 : kas_reachable ex_env c4.
Proof.
  apply (ex_step 0 (ORegister (ex_target t2)) c3 w3 w4 1); [exact reach3|done|vm_compute; reflexivity|vm_compute; reflexivity|done|].
  intros T R l Hb Ht. apply (ex_register w3 t2 T R l Hb Ht); [|vm_compute; reflexivity|done]. by apply (ex_in_charge w3 1); [..|vm_compute].
Qed.
Lemma reach5 : kas_reachable ex_env c5.
Proof. apply (ex_step 1 OInit c4 (mkWorld (w_db w4) 0 0 Kas_default) v5 1); [exact reach4|done|vm_compute; reflexivity|vm_compute; reflexivity|done|done]. Qed.
Lemma reach6 : kas_reachable ex_env c6.
Proof. apply (ex_step 0 (ex_reserve r1) c5 w4 w6 1); [exact reach5|done|vm_compute; reflexivity|vm_compute; reflexivity|done|done]. Qed.
Lemma reach7 : kas_reachable ex_env c7.
Proof. apply (ex_step 0 (ex_reserve r2) c6 w6 w7 1); [exact reach6|done|vm_compute; reflexivity|vm_compute; reflexivity|done|done]. Qed.
Lemma reach8 : kas_reachable ex_env c8.
Proof. apply (ex_step 0 (OGet r1) c7 w7 w8 1); [exact reach7|done|vm_compute; reflexivity|vm_compute; reflexivity|done|done]. Qed.

(** Where the instances stand: the first in charge with everything loaded, the second with
    the targets of before. *)
Abbreviation mem w := (ka_state (w_kas w)).

Lemma ex_ready : ∃ l, base (Henv := ex_env 0) (al_targets (mem w8)) (al_reservations (mem w8)) l (w_db w8) ∧
  ready (Henv := ex_env 0) true (al_targets (mem w8)) (al_reservations (mem w8)) w8.
Proof.
  destruct (cluster_inv_reachable ex_env c8 reach8) as (T & R & l & Hb & Ht). specialize (Hb 0%nat). specialize (Ht 0%nat).
  change (world c8 0) with w8 in Ht. change (cu_db c8) with (w_db w8) in Hb.
  destruct (in_charge_ready (Henv := ex_env 0) T R l w8 Hb Ht) as (Hr & _); [by apply (ex_in_charge w8 1); [..|vm_compute]|].
  destruct Hr as [H1 H2 H3 H4 [H5 H6] H7 H8]. assert (R = al_reservations (mem w8)) as -> by (symmetry; by apply H7). subst T.
  exists l. split; [exact Hb|]. by split.
Qed.

Abbreviation T8 := (al_targets (mem w8)).
Abbreviation R8 := (al_reservations (mem w8)).

(** After two reservations on two targets no granule is shared. *)
Lemma granules_never_shared_witness :
  kas_reachable ex_env c8 ∧ length (map_to_list R8) = 2%nat ∧ ∃ T R, stored (cu_db c8) T R ∧ targets_ok T ∧
    (∀ id r, R !! id = Some r → NoDup (taken_of (rr_placements r)) ∧ ∀ id' r' g, R !! id' = Some r' → holds r g → holds r' g → id = id') ∧
    ∀ g, held R g → ¬ free_at T g ∧ ∃ t, T !! g.1 = Some t ∧ 0 ≤ g.2 < tr_granule_count (ta_target t).
Proof. split; [exact reach8|]. split; [vm_compute; reflexivity|]. apply (granules_never_shared ex_env c8). exact reach8. Defined.

(** Three more reservations of two fragments: two fit. *)
Definition ex_request : ReserveRequest := mkReserve 3 2 DriveDomainLab ∅ None 0 ∅ None.

Lemma reserve_batch_spec_witness :
  ∃ w' new T', reserve_batch_common_locked (Henv := ex_env 0) ex_request w8 = (w', Ok new) ∧ length new = 2%nat ∧
    NoDup (taken new) ∧ ∀ q, free_at T' q ↔ free_at T8 q ∧ q ∉ taken new.
Proof.
  destruct ex_ready as (l & _ & Hr).
  pose proof (reserve_batch_spec (Henv := ex_env 0) (Heok := member_ok 0) true ex_request T8 R8 w8 Hr ltac:(done) ltac:(done) ltac:(done)) as H.
  assert (length <$> result_ok (reserve_batch_common_locked (Henv := ex_env 0) ex_request w8).2 = Some 2%nat) as Hlen by (vm_compute; reflexivity).
  destruct (reserve_batch_common_locked (Henv := ex_env 0) ex_request w8) as [w' [new|err]]; [|done].
  destruct H as (T' & _ & _ & Hnd & _ & Hf & _). injection Hlen as Hlen. exists w', new, T'. by split_and!.
Defined.

Lemma ex_not_committed q : ¬ committed_at (mem w8) q.
Proof.
  unfold committed_at. change (al_committed_granules (mem w8)) with (∅ : gmap (list byte) (gset Z)). rewrite lookup_empty. apply not_elem_of_empty.
Qed.

(** Both reservations are expired at time 1000; nothing is committed. *)
Lemma reaper_spares_committed_witness :
  ∃ w' n T' R', expire_locked (Henv := ex_env 0) 1000 10 w8 = (w', Ok n) ∧ ready (Henv := ex_env 0) true T' R' w' ∧ free_at T' (t1, 0).
Proof.
  destruct ex_ready as (l & _ & Hr).
  destruct (reaper_spares_committed (Henv := ex_env 0) 1000 10 T8 R8 w8 Hr) as (w' & n & T' & R' & E & Hr' & _ & Hf). exists w', n, T', R'. split_and!; [done..|].
  assert (∃ r, R8 !! r1 = Some r ∧ (t1, 0) ∈ taken_of (rr_placements r)) as (r & Hx & Hq).
  { eexists. split; [vm_compute; reflexivity|]. left. }
  apply (Hf r1 r (t1, 0)); [|exact Hx|exact Hq|vm_compute; reflexivity|].
  - assert (expired_ids 1000 10 (mem w8) = [r1; r2]) as -> by (vm_compute; reflexivity). left.
  - apply ex_not_committed.
Defined.

(** The first reservation deleted and the state loaded again. *)
Lemma persisted_state_reloads_witness :
  ∃ w' v, persist_state (Henv := ex_env 0) (mkChanges [] [] [r1] [] [] false) Leased w8 = (w', Ok tt) ∧
    refresh_full_state_from_fdb (Henv := ex_env 0) (mkWorld (w_db w') 0 0 Kas_default) = (v, Ok tt) ∧ w_db v = w_db w' ∧
    al_targets (mem v) = T8 ∧ al_reservations (mem v) = delete r1 R8.
Proof.
  destruct ex_ready as (l & _ & Hr).
  apply (persisted_state_reloads (Henv := ex_env 0) (mkChanges [] [] [r1] [] [] false) Leased w8 T8 R8).
  - by eapply ready_holder.
  - split; [done|done|]. by repeat constructor.
  - eapply shrinks_ok; [apply Hr|apply shrinks_delete].
Defined.

(** The second instance takes over with the targets it loaded before the reservations. *)
Definition v8 : World Rows_t := mkWorld (w_db w8) (w_ticks v5) (w_uuids v5) (w_kas v5).

Lemma heartbeat_hides_reload_witness :
  ∃ w1 w2 v T', renew_leader_resident_lease (Henv := ex_env 1) v8 = (w1, Ok tt) ∧ heartbeat_target (Henv := ex_env 1) t1 true 0 w1 = (w2, Ok v) ∧
    leads w2 2 ∧ stored_epoch (kv_get (lease_key (Henv := ex_env 1)) (w_db w2)) = Ok 2 ∧ ensure_current (Henv := ex_env 1) false true w2 = (w2, Ok tt) ∧
    stored (w_db w2) T' R8 ∧ held R8 (t1, 0) ∧ free_at (al_targets (mem w2)) (t1, 0).
Proof.
  destruct ex_ready as (l & Hb & _). pose proof (proj1 (proj2 (proj2 (proj2 Hb)))) as Hl.
  assert (l = Some (mkLease [] 30000 1)) as ->.
  { destruct l as [x|]; [|vm_compute in Hl; done]. f_equal. apply (f_equal (fun o => o ≫= decode_lease)) in Hl. cbn [fmap option_fmap option_map mbind option_bind] in Hl.
    rewrite decode_encode_lease in Hl. vm_compute in Hl. by injection Hl as <-. }
  assert (base (Henv := ex_env 1) T8 R8 (Some (mkLease [] 30000 1)) (w_db v8)) as Hb1 by exact (base_member ex_env 0 1 _ _ _ _ Hb).
  assert (∃ t, al_targets (mem v8) !! t1 = Some t ∧ tr_target_id (ta_target t) = t1 ∧ ta_spans t = [mkSpan 0 4]) as (t & Ht & Eid & Es).
  { eexists. split; [vm_compute; reflexivity|]. split; vm_compute; reflexivity. }
  assert (∃ u, T8 !! t1 = Some u) as (u & Hu) by (eexists; vm_compute; reflexivity).
  apply (heartbeat_hides_reload (Henv := ex_env 1) v8 T8 R8 (Some (mkLease [] 30000 1)) 2 t1 t u 0 (t1, 0)); [exact Hb1|done|vm_compute; reflexivity|exact Ht|exact Hu|exact Eid| |].
  - exists r1. eexists. split; [vm_compute; reflexivity|]. left.
  - exists t. split; [exact Ht|]. rewrite Es. left. unfold in_span. cbn. lia.
Defined.

(** The second release of the batch names a placement that "r2" does not have. *)
Lemma failed_batch_diverges_witness :
  ∃ w', apply_reservation_mutations_locked (Henv := ex_env 0) Release [mkMutation r1 [0]; mkMutation r2 [7]] w8 = (w', Err InvalidArgument_) ∧
    w_db w' = w_db w8 ∧ same_term (Henv := ex_env 0) w8 w' ∧ ensure_current (Henv := ex_env 0) true true w' = (w', Ok tt) ∧
    free_at (al_targets (mem w')) (t1, 0) ∧ stored (w_db w') T8 R8 ∧ held R8 (t1, 0).
Proof.
  destruct ex_ready as (l & _ & Hr).
  assert (∃ x y, R8 !! r1 = Some x ∧ normalize_subset_indexes (length (rr_placements x)) [0] = Ok [0%nat] ∧ R8 !! r2 = Some y ∧
    normalize_subset_indexes (length (rr_placements y)) [7] = Err InvalidArgument_) as (x & y & Hx & Nx & Hy & Ny).
  { eexists _, _. split_and!; vm_compute; reflexivity. }
  apply (failed_batch_diverges (Henv := ex_env 0) (mkMutation r1 [0]) (mkMutation r2 [7]) T8 R8 w8 (t1, 0)); [exact Hr|done| | | | |].
  - by repeat constructor.
  - intros (z & err & Hz & Ez). cbn [rm_reservation_id rm_placement_indexes] in Hz, Ez. assert (z = x) as -> by congruence. congruence.
  - by exists y, InvalidArgument_.
  - assert (selected R8 (mkMutation r1 [0]) = [(t1, 0)]) as -> by (vm_compute; reflexivity). left.
  - apply ex_not_committed.
Defined.
